(* ===== verification/_CoqProject ===== *)
-Q . S2P
Prelude.v
Gnark.v
GnarkModel.v
CkdArith.v
Sha512Spec.v
Sha512.v
Sha512Sigma.v
Sha512Correct.v
Blake2bSpec.v
Blake2b.v
Blake2bCorrect.v
Primality.v
Ed25519.v
EdPoly.v
EdCurve.v
Ed25519Group.v
Ed25519Correct.v
EdOrder.v
GoEd25519.v
Ckd.v
CkdCircuit.v
ChainCorrect.v
GoText.v
GoError.v
Sha256.v
GoTime.v
GoJson.v
GoCodec.v
Ownership.v
OwnershipCircuit.v
OwnershipCircuitCorrect.v
OwnershipMultiCorrect.v
Discovery.v
OwnershipCorrect.v
DiscoveryCorrect.v
BatchTranscript.v
Ranges.v
Msm.v
MsmSchedule.v
PkIndex.v
PkIndexCorrect.v
KeySource.v
Artifact.v
Prover.v
Commands.v
Verifier.v
Helper.v
HelperServer.v
HelperCorrect.v
CommandsCorrect.v
HelperProofs.v
ChunkManifest.v
ChunkManifestCorrect.v
MpcModel.v
MpcPreflight.v
MpcPreflightCorrect.v
MpcDefinition.v
MpcSignature.v
MpcDecision.v
MpcAttestation.v
MpcChain.v
MpcClose.v
MpcTranscript.v
MpcRecords.v
MpcSignatureCorrect.v
MpcDecisionCorrect.v
MpcChainCorrect.v
MpcCeremonyCorrect.v
MpcPhaseCorrect.v
MpcExamples.v
EdModel.v
EngineExamples.v
ChunkExamples.v
Examples.v
CommandExamples.v
HelperExamples.v
DecisionExamples.v
