(* ===== verification/Prelude.v ===== *)
(** * proof-tool: verification development (root file)

    proof-tool proves, in a Groth16 circuit, that the prover holds the BIP32-Ed25519 master
    key behind one or more Cardano payment credentials; it verifies such proofs, serves
    both over HTTP, streams large proving keys, and runs the multi-party ceremony that
    produces the keys.  This development models the Go code that carries these promises
    and proves it correct:

    - [internal/circuit]: the circuits, the host code that assigns their witnesses, and
      the search for derivation paths;
    - [internal/prover], [internal/artifact], [internal/verifier], [internal/helper] and
      [cmd/proof-tool]: keys, proofs and artifacts, the commands and the two services;
    - [internal/msmengine], [internal/streampk], [internal/proofassets],
      [internal/batchtranscript]: keys read in parts and cut in chunks, multi-
      exponentiation in parts, the transcript of a batch;
    - [internal/mpcceremony]: the records of the ceremony, their signatures, their
      validation, the chain of contributions from the definition to the final seal, and
      the production decision that releases the result.

    ** How the code is modelled

    Go functions that return an error are functions to [result] (this file); the texts of
    errors are kept in [go_error] ([GoError.v]).  Integers are [Z] with the wrap-around of
    their width written out ([u64], [i64], ...); byte slices and strings are lists of
    bytes in [Z]; a slice that JSON distinguishes from nil is an [option] of a list; maps
    are [gmap], and a loop over a map goes in any order ([MapOrder]).  Loops are
    structural recursions over what they range over.  State that a call changes (the
    directory of a key bundle, the caches of the helper, a handle of an asynchronous
    result) is passed and returned.

    Where a recursion is not structural it takes a number of iterations: the loop of
    [Ownership.scanValues], a parameter of the searches ([max - min + 1] iterations and one
    more are enough, and [scanValues_exact] shows for which bounds no number is);
    [Ed25519.egcd] (two per bit, [egcd_spec]); [GoCodec.parse], called with the
    length of the input ([json_Parse_marshal]); [ChunkManifest.chunk_loop], called with the
    length of the file; the text functions, called with the length of the string.

    A circuit is a program in the monad of [Gnark.v]: it creates constraints and calls
    hints, whose answers the prover chooses.  A theorem about a circuit speaks of every
    prover: which witnesses the constraints accept, and which wires they force.  gnark
    itself is a class ([Field], [Gadgets], and [EmulatedField] in [Ed25519.v]) with the
    documented laws of the calls used; [GnarkModel.v] and [EdModel.v] are concrete
    instances, so the laws hold together.

    ** Files

    Foundations:
    - [Gnark], [GnarkModel]: the circuit compiler and an instance of it.
    - [GoText], [GoError], [GoTime], [GoJson], [GoCodec]: strings, numerals, base64 and
      URLs; errors; time; [encoding/json], with its injectivity; and codecs, the two
      directions of a type's JSON with the law between them.
    - [Sha256], [Sha512Spec], [Blake2bSpec]: the hashes, from their standards.
    - [Primality], [EdPoly], [EdCurve], [Ed25519Group], [EdOrder]: the curve group, its
      associativity, the order of the base point.  [GoEd25519]: Go's [crypto/ed25519], and
      that what it signs it verifies.
    - [Ranges]: half-open ranges that tile an interval.

    Circuits ([internal/circuit]):
    - [CkdArith] ([ckd/adder.go], [ckd/encoding.go]): carries and bits of scalars.
    - [Sha512], [Sha512Sigma], [Sha512Correct] ([sha512/sha]): SHA-512, HMAC and the paired
      HMAC as circuits, equal to FIPS 180-4 and RFC 2104.
    - [Blake2b], [Blake2bCorrect] ([hash], [u64util]): BLAKE2b, equal to RFC 7693.
    - [Ed25519], [Ed25519Correct] ([ed25519/ed]): the windowed fixed-base multiplication
      and the compression, equal to the reference arithmetic of [ref.go], which is the
      group of the curve.
    - [Ckd], [CkdCircuit], [ChainCorrect] ([ckd]): private and public child derivation, the
      circuit steps and the five-hop chain, which refines the reference.
    - [Ownership], [OwnershipCorrect] ([ownership/circuit.go], [explicit_path.go]): path
      search, keys, public inputs and their text.
    - [OwnershipCircuit], [OwnershipCircuitCorrect], [OwnershipMultiCorrect] ([ownership],
      [ownershipdest], [ownershipmulti]): the three circuits accept exactly the witnesses
      that own what the public input commits to, and honest assignments are accepted.
    - [Discovery], [DiscoveryCorrect] ([ownership/discovery.go]): the staged traversal that
      resolves many credentials.

    Keys in parts:
    - [Msm], [MsmSchedule] ([msmengine]): multi-exponentiation in ranges and shards, and
      the waits, queues, handles and fallbacks around the workers.
    - [PkIndex], [PkIndexCorrect] ([proofassets/pkindex.go], [streampk/range.go]), [KeySource]
      ([streampk/keysource.go]): where the parts of a proving key are, and reading them.
    - [ChunkManifest], [ChunkManifestCorrect] ([proofassets/chunk_manifest.go]): cutting a key
      in chunks, and the manifest that pins them.
    - [BatchTranscript] ([batchtranscript]): the transcript and challenges of a batch.

    Proofs, commands and services:
    - [Artifact], [Prover] ([internal/artifact], [proofassets/digest.go],
      [prover/prover.go]): manifests, artifacts, byte layouts, and the bundle in its
      directory.
    - [Commands], [Verifier], [CommandsCorrect] ([cmd/proof-tool/main.go],
      [internal/verifier]): proving, verifying and exporting, and the verification service.
    - [Helper], [HelperServer], [HelperCorrect], [HelperProofs] ([internal/helper]): the
      local service that proves for a web page.

    The ceremony ([internal/mpcceremony]):
    - [MpcModel], [MpcDefinition], [MpcAttestation], [MpcChain], [MpcClose],
      [MpcTranscript] ([model.go], [definition.go], [attestation.go], [chain.go], the
      candidate of [finalize.go]): the records with their JSON, identifiers and validation.
    - [MpcSignature], [MpcSignatureCorrect] ([attestation.go], [model.go]): canonical
      decoding and detached signatures.
    - [MpcPreflight], [MpcPreflightCorrect] ([preflight.go]): sizes of the ceremony files
      and the scan that precedes gnark's decoder.
    - [MpcDecision], [MpcDecisionCorrect] ([decision.go]): the production decision.
    - [MpcRecords] (the pattern every record follows; the encodings are injective),
      [MpcChainCorrect], [MpcCeremonyCorrect], [MpcPhaseCorrect]: what validation
      guarantees.

    Concrete inputs for the theorems: [Examples], [MpcExamples], [EngineExamples],
    [ChunkExamples], [CommandExamples], [HelperExamples], [DecisionExamples].

    ** What the theorems show

    - Circuits: [Define_exact], [DefineDest_exact] and [DefineMulti_exact] are soundness
      and completeness of the ownership statements, for every prover; they rest on
      [DeriveChain_exact], [steps_refine_deriveChild], [ScalarMulBaseBits_exact],
      [HMACSHA512Pair_exact], [Sum512_exact], [Blake2b_exact], [child_scalars_exact] and
      [AssertClamp_exact].  [Assignment_complete] closes the loop from the host code.
    - Host code: [DiscoverCredentialPaths_exact], [FindPath_first_match] and
      [ValidateExplicitCredentialPath_exact] give the results of the searches;
      [DerivePublicChild_agrees] lets discovery work on public keys; [DeriveLevels_total]
      shows that derivation never fails from a clamped master.
    - Keys in parts: [OpenFile_exact] and [OpenURL_reads_as_file] (the index is the layout
      of the file), [SectionRange_exact], [loadSmallFields_exact], [MSMRanged_exact] and
      [streamed_msm_exact] (reading and adding up in parts gives the whole);
      [collected_once] and [wait_terminates] (handles are collected once, and a wait
      cannot hang); chunks verify exactly
      when they are the key ([generated_manifest_verifies], [chunks_root_pins_key],
      [VerifyChunkFiles_assembles]); [BuildV2_exact].
    - Commands and services: [verified_means_owned] (a verified artifact shows that the
      credential is owned, given that Groth16 is sound), [honest_owner_proves] and
      [prove_then_verify] (an owner's proof is made, and believed),
      [service_agrees_with_command] (the service believes what the command believes),
      [created_bundle_loads].  The helper: who may use it
      ([helper_guarded], [origin_exact]), what it tells ([paths_private], [stream_exact]),
      that it stops once ([shutdown_once]), that its cache is not seen
      ([destination_cache_transparent]), that it serves an owner and its proofs verify
      ([helper_serves_owner], [helper_proofs_verify]).
    - Records: [records_content_addressed], for the twelve types that carry their own hash -
      each constructor completes what it is given to a valid record or fails, a valid record
      goes through it unchanged, and an identifier shared by two records exhibits a
      collision of SHA-256.  [signed_record_round_trip] - a signed record is
      read back, and its signature vouches for nothing else.
    - Chain: [Chain_Validate_exact], [Chain_invariant], [Chain_Append_exact],
      [valid_chains_reachable] (validity is reachability by [Append]),
      [HeadRecordID_commits].
    - Phase: [CeremonyDefinition_Validate_exact], [CeremonyDefinition_roles],
      [accepted_run_ordered], [phase_ordered], [ValidateClose_participation],
      [QuicknetRoundTime_exact], and [challenge_commits]: one challenge fixes the
      definition, the chain, the close and the randomness, up to collisions.
    - Decision: [decision_states_gates] (GO exactly when every gate passed),
      [decision_evidence_pinned], [prepared_decision_signable], and
      [go_decision_accountable] with [signed_decision_accepted]: a GO decision is accepted
      exactly on the signatures of the four accountable roles.
    - Files: [ExpectedSizes_exact], [Preflight_exact].

    ** Third-party code

    Classes stand for what the repository only calls: gnark and its emulated arithmetic
    ([Gadgets], [EmulatedField]), its proof system ([Groth16]; soundness and completeness
    are hypotheses of the theorems that need them, and [CommandExamples.v] has an
    instance), gnark-crypto ([CurveGroup], [PointDecoder], [FFTDomain]),
    [filippo.io/edwards25519] ([Edwards25519]), [x/crypto/blake2b] ([XCryptoBlake2b]), the
    BIP-39 and PBKDF2 libraries ([SeedLib]).  Three parts of the Go standard library are
    classes too: the order of maps ([MapOrder], any permutation), the parsing of URLs
    ([URLParser]) and the decoding of JSON that is not canonical ([ManifestJSON],
    [HelperJSON]).  SHA-256, SHA-512, HMAC and Ed25519 are written from their standards.

    ** Not modelled

    The ceremony drivers ([workflow.go], [finalize.go], [audit.go], [publication.go],
    [phase1.go], [phase2.go], [r1cs.go], [beacon.go]): file-system effects and calls of
    gnark and drand around the records modelled here.  The records and the bundle of the
    operational evidence ([operational*.go]) and the inspection of the running binary
    ([software.go]); where the decision replays the release, the operational evidence and
    the audits, [MpcDecision.v] takes the replay as an argument.  The WebAssembly prover
    and its workers, the other commands, key-bundle signing, contracts and web
    applications.  Of discovery, the wall-clock fields of progress events and the wiping
    of buffers; of the helper, real timers and the delivery of cancellation. *)
From stdpp Require Export prelude.
From Stdlib Require Export ZArith Lia.

Open Scope Z_scope.

(** ** Results: a Go function returning [(T, error)] *)

Inductive result (E A : Type) :=
| Ok (a : A)
| Err (e : E).
Arguments Ok {_ _} _.
Arguments Err {_ _} _.

#[export] Instance result_eq_dec `{EqDecision E, EqDecision A} : EqDecision (result E A).
Proof. solve_decision. Defined.

#[export] Instance result_ret E : MRet (result E) := λ A a, Ok a.
#[export] Instance result_bind E : MBind (result E) := λ A B f m,
  match m with Ok a => f a | Err e => Err e end.

(** [if cond { return nil, err }]. *)
Definition guard_err {E} (fails : bool) (e : E) : result E unit :=
  if fails then Err e else Ok tt.

Definition is_ok {E A} (r : result E A) : bool :=
  match r with Ok _ => true | Err _ => false end.

Lemma is_ok_tt {E} (r : result E unit) : is_ok r = true → r = Ok tt.
Proof. by destruct r as [[]|]. Qed.

Definition map_err {E F A} (f : E → F) (r : result E A) : result F A :=
  match r with Ok a => Ok a | Err e => Err (f e) end.

Lemma bind_Ok {E A B} (m : result E A) (f : A → result E B) b :
  (m ≫= f) = Ok b ↔ ∃ a, m = Ok a ∧ f a = Ok b.
Proof.
  destruct m as [a|e]; cbn; split.
  - eauto.
  - by intros (? & [= ->] & ?).
  - done.
  - by intros (? & ? & ?).
Qed.

Lemma guard_err_Ok {E} (c : bool) (e : E) u : guard_err c e = Ok u ↔ c = false.
Proof. destruct c, u; cbn; naive_solver. Qed.

(** Run every guard of a monadic validation in a hypothesis. *)
Ltac inv_result :=
  repeat match goal with
  | H : mbind _ _ = Ok _ |- _ => apply bind_Ok in H as (? & ? & ?)
  | H : guard_err _ _ = Ok _ |- _ => apply guard_err_Ok in H
  | H : mret _ = Ok _ |- _ => change (Ok _ = Ok _) in H; simplify_eq H
  end; simplify_eq.

(** ** Concatenations *)

(** Pieces of one length are read back from their concatenation. *)
Lemma concat_inj {A} n (l k : list (list A)) : (0 < n)%nat → Forall (λ x, length x = n) l →
  Forall (λ x, length x = n) k → concat l = concat k → l = k.
Proof.
  intros Hn Hl. revert k. induction Hl as [|x l Hx _ IH]; intros [|y k] Hk; cbn [concat]; [done|..].
  - apply Forall_cons in Hk as [Hy _]. intros E. apply (f_equal length) in E. rewrite length_app in E. cbn in E. lia.
  - intros E. apply (f_equal length) in E. rewrite length_app in E. cbn in E. lia.
  - apply Forall_cons in Hk as [Hy Hk]. intros [-> E]%app_inj_1; [|lia]. f_equal. by apply IH.
Qed.

(** ** Booleans as propositions *)

Lemma ltb_false a b : (a <? b) = false ↔ b <= a.
Proof. apply Z.ltb_ge. Qed.

Create Rewrite HintDb zbool.
#[export] Hint Rewrite Z.ltb_lt Z.leb_le Z.eqb_eq Z.ltb_ge Z.leb_gt Z.eqb_neq
  Bool.andb_true_iff Bool.orb_false_iff Bool.negb_true_iff Bool.negb_false_iff
  Nat.ltb_lt Nat.leb_le Nat.eqb_eq Nat.ltb_ge Nat.leb_gt Nat.eqb_neq
  bool_decide_eq_true bool_decide_eq_false : zbool.

(** Turn every boolean test of the context into its proposition. *)
Ltac bool_to_prop := autorewrite with zbool in *.

(** ** Machine integers: conversions wrap around *)

Definition u8 (x : Z) : Z := x mod 2 ^ 8.
Definition u64 (x : Z) : Z := x mod 2 ^ 64.
Definition i64 (x : Z) : Z := (x + 2 ^ 63) mod 2 ^ 64 - 2 ^ 63.

Lemma u8_small x : 0 <= x < 2 ^ 8 → u8 x = x.
Proof. intros. by apply Z.mod_small. Qed.

Lemma u64_small x : 0 <= x < 2 ^ 64 → u64 x = x.
Proof. intros. by apply Z.mod_small. Qed.

Lemma i64_small x : - 2 ^ 63 <= x < 2 ^ 63 → i64 x = x.
Proof. intros. unfold i64. rewrite Z.mod_small; lia. Qed.

Lemma i64_range x : - 2 ^ 63 <= i64 x < 2 ^ 63.
Proof. unfold i64. pose proof (Z.mod_pos_bound (x + 2 ^ 63) (2 ^ 64)). lia. Qed.

(** ** Positional digits in a fixed radix *)

Section digits.
Context (r : Z).

Definition is_digit (d : Z) : Prop := 0 <= d < r.

(** Little-endian value of a digit list. *)
Fixpoint digits_val (ds : list Z) : Z :=
  match ds with
  | [] => 0
  | d :: ds => d + r * digits_val ds
  end.

(** The [n] low digits of [z], least significant first. *)
Fixpoint digits (n : nat) (z : Z) : list Z :=
  match n with
  | O => []
  | S n => z mod r :: digits n (z / r)
  end.

Lemma length_digits n z : length (digits n z) = n.
Proof. revert z; induction n; simpl; auto. Qed.

Lemma digits_val_app ds es :
  digits_val (ds ++ es) = digits_val ds + r ^ Z.of_nat (length ds) * digits_val es.
Proof.
  induction ds as [|d ds IH]; [cbn [app length digits_val]; lia|].
  rewrite <- app_comm_cons. cbn [digits_val length]. rewrite IH.
  rewrite Nat2Z.inj_succ, Z.pow_succ_r by lia. ring.
Qed.

Context (Hr : 1 < r).

Lemma digits_val_bound ds :
  Forall is_digit ds → 0 <= digits_val ds < r ^ Z.of_nat (length ds).
Proof.
  induction 1 as [|d ds Hd _ IH]; cbn [digits_val length]; [simpl; lia|].
  rewrite Nat2Z.inj_succ, Z.pow_succ_r by lia. unfold is_digit in Hd. nia.
Qed.

Lemma digits_are_digits n z : Forall is_digit (digits n z).
Proof.
  revert z; induction n; intros z; cbn [digits]; constructor; auto.
  apply Z.mod_pos_bound; lia.
Qed.

Lemma digits_val_digits n z : digits_val (digits n z) = z mod r ^ Z.of_nat n.
Proof.
  revert z; induction n as [|n IH]; intros z; cbn [digits digits_val].
  { simpl. now rewrite Z.mod_1_r. }
  rewrite IH, Nat2Z.inj_succ, Z.pow_succ_r by lia.
  rewrite Z.rem_mul_r by lia. ring.
Qed.

Lemma digits_digits_val ds :
  Forall is_digit ds → digits (length ds) (digits_val ds) = ds.
Proof.
  induction 1 as [|d ds Hd _ IH]; [done|]. cbn [length digits digits_val].
  unfold is_digit in Hd.
  replace (d + r * digits_val ds) with (digits_val ds * r + d) by ring.
  rewrite Z.div_add_l, (Z.div_small d), Z.add_0_r, IH by lia. f_equal.
  rewrite Z.add_comm, Z.mod_add, Z.mod_small by lia. done.
Qed.

Lemma digits_val_inj ds es :
  length ds = length es → Forall is_digit ds → Forall is_digit es →
  digits_val ds = digits_val es → ds = es.
Proof.
  intros Hlen Hds Hes Heq.
  rewrite <- (digits_digits_val ds), <- (digits_digits_val es) by done.
  by rewrite Hlen, Heq.
Qed.

Lemma digits_app n m z :
  digits (n + m) z = digits n z ++ digits m (z / r ^ Z.of_nat n).
Proof.
  revert z; induction n as [|n IH]; intros z; [simpl; by rewrite Z.div_1_r|].
  cbn [Nat.add digits app]. rewrite IH. do 3 f_equal.
  rewrite Nat2Z.inj_succ, Z.pow_succ_r by lia.
  by rewrite Z.div_div by lia.
Qed.

Lemma digits_mod n z : digits n (z mod r ^ Z.of_nat n) = digits n z.
Proof.
  apply digits_val_inj; rewrite ?length_digits; auto using digits_are_digits.
  rewrite !digits_val_digits. apply Z.mod_mod. lia.
Qed.

Lemma digits_lookup n z i :
  (i < n)%nat → digits n z !! i = Some ((z / r ^ Z.of_nat i) mod r).
Proof.
  revert z i; induction n as [|n IH]; intros z i Hi; [lia|].
  destruct i as [|i]; cbn [digits].
  { simpl. by rewrite Z.div_1_r. }
  rewrite lookup_cons_ne_0 by done. rewrite Nat.pred_succ, IH by lia. do 2 f_equal.
  rewrite Nat2Z.inj_succ, Z.pow_succ_r by lia. by rewrite Z.div_div by lia.
Qed.
End digits.

(** ** Bytes: Go's [byte] as an integer in [0, 256) *)

Abbreviation is_byte := (is_digit 256).
Abbreviation le_val := (digits_val 256).
Abbreviation le_bytes := (digits 256).
Abbreviation is_bit := (is_digit 2).
Abbreviation bits_val := (digits_val 2).
Abbreviation bits_of := (digits 2).

(** [byte(x)]: Go's conversion keeps the low eight bits. *)
Definition byte (x : Z) : Z := x mod 256.

(** Big-endian reading and writing of byte lists. *)
Definition be_val (bs : list Z) : Z := le_val (rev bs).
Definition be_bytes (n : nat) (z : Z) : list Z := rev (le_bytes n z).

Lemma byte_is_byte x : is_byte (byte x).
Proof. unfold byte, is_digit. apply Z.mod_pos_bound. lia. Qed.

Lemma length_be_bytes n z : length (be_bytes n z) = n.
Proof. unfold be_bytes. by rewrite length_rev, length_digits. Qed.

Lemma be_bytes_are_bytes n z : Forall is_byte (be_bytes n z).
Proof. apply Forall_rev, digits_are_digits. lia. Qed.

Lemma be_val_be_bytes n z : be_val (be_bytes n z) = z mod 256 ^ Z.of_nat n.
Proof. unfold be_val, be_bytes. rewrite rev_involutive. apply digits_val_digits. lia. Qed.

Lemma be_bytes_be_val bs : Forall is_byte bs → be_bytes (length bs) (be_val bs) = bs.
Proof.
  intros H. unfold be_val, be_bytes. rewrite <- (length_rev bs).
  rewrite digits_digits_val; [apply rev_involutive|lia|by apply Forall_rev].
Qed.

Create HintDb bytes.
Create Rewrite HintDb len.
#[export] Hint Resolve byte_is_byte be_bytes_are_bytes Forall_rev : bytes.
#[export] Hint Extern 1 (Forall (is_digit _) (digits _ _ _)) =>
  apply digits_are_digits; lia : bytes.
#[export] Hint Rewrite length_digits length_be_bytes @length_app @length_rev
  @length_replicate @length_fmap : len.

(** ** Machine words and bitwise operations *)

Lemma lt_pow2_testbit n z :
  0 <= n → 0 <= z → (∀ i, n <= i → Z.testbit z i = false) → z < 2 ^ n.
Proof.
  intros Hn Hz Hb. destruct (Z.lt_ge_cases z (2 ^ n)) as [|Hge]; [done|exfalso].
  assert (0 < z) as Hpos by (pose proof (Z.pow_pos_nonneg 2 n); lia).
  assert (n <= Z.log2 z) as Hl by (by apply Z.log2_le_pow2).
  specialize (Hb _ Hl). by rewrite Z.bit_log2 in Hb.
Qed.

Lemma testbit_high n z i : 0 <= z < 2 ^ n → n <= i → Z.testbit z i = false.
Proof.
  intros [H0 H1] Hi. destruct (decide (0 <= n)) as [Hn|]; last first.
  { rewrite (Z.pow_neg_r 2 n) in H1 by lia. lia. }
  rewrite <- (Z.mod_small z (2 ^ n)) by done.
  by apply Z.mod_pow2_bits_high.
Qed.

Section bitwise_range.
Context (n : Z) (Hn : 0 <= n).
Lemma lxor_range a b : 0 <= a < 2 ^ n → 0 <= b < 2 ^ n → 0 <= Z.lxor a b < 2 ^ n.
Proof.
  intros Ha Hb. assert (0 <= Z.lxor a b) as H0 by (apply Z.lxor_nonneg; lia).
  split; [done|]. apply lt_pow2_testbit; [done..|]. intros i Hi.
  by rewrite Z.lxor_spec, !(testbit_high n).
Qed.
Lemma land_range a b : 0 <= a < 2 ^ n → 0 <= b < 2 ^ n → 0 <= Z.land a b < 2 ^ n.
Proof.
  intros Ha Hb. assert (0 <= Z.land a b) as H0 by (apply Z.land_nonneg; lia).
  split; [done|]. apply lt_pow2_testbit; [done..|]. intros i Hi.
  by rewrite Z.land_spec, !(testbit_high n).
Qed.
Lemma lor_range a b : 0 <= a < 2 ^ n → 0 <= b < 2 ^ n → 0 <= Z.lor a b < 2 ^ n.
Proof.
  intros Ha Hb. assert (0 <= Z.lor a b) as H0 by (apply Z.lor_nonneg; lia).
  split; [done|]. apply lt_pow2_testbit; [done..|]. intros i Hi.
  by rewrite Z.lor_spec, !(testbit_high n).
Qed.
Lemma shiftr_range a k : 0 <= k → 0 <= a < 2 ^ n → 0 <= Z.shiftr a k < 2 ^ n.
Proof.
  intros Hk Ha. assert (0 <= Z.shiftr a k) as H0 by (apply Z.shiftr_nonneg; lia).
  split; [done|]. rewrite Z.shiftr_div_pow2 by done.
  pose proof (Z.pow_pos_nonneg 2 k). apply Z.div_lt_upper_bound; nia.
Qed.
End bitwise_range.

(** ** Counted loops

    [for i := lo; i < lo+n; i++ { s = body(i, s) }], in any of the monads of the
    development: the loop state [s] gathers the variables the body assigns. *)
Fixpoint for_range {M : Type → Type} `{MRet M, MBind M} {S : Type}
    (lo n : nat) (body : nat → S → M S) (s : S) : M S :=
  match n with
  | O => mret s
  | Datatypes.S n => s' ← body lo s; for_range (Datatypes.S lo) n body s'
  end.

(** The same loop when the body neither fails nor has effects. *)
Fixpoint loop_range {S : Type} (lo n : nat) (body : nat → S → S) (s : S) : S :=
  match n with
  | O => s
  | Datatypes.S n => loop_range (Datatypes.S lo) n body (body lo s)
  end.

Lemma loop_range_ind {S} (I : nat → S → Prop) lo n body s :
  I lo s → (∀ i s, (lo <= i < lo + n)%nat → I i s → I (Datatypes.S i) (body i s)) →
  I (lo + n)%nat (loop_range lo n body s).
Proof.
  revert lo s; induction n as [|n IH]; intros lo s H0 HS; simpl.
  { by rewrite Nat.add_0_r. }
  rewrite <- Nat.add_succ_comm. apply IH.
  - apply HS; [lia|done].
  - intros i s' Hi. apply HS. lia.
Qed.

Lemma loop_range_S {S} lo n (body : nat → S → S) s :
  loop_range lo (Datatypes.S n) body s = body (lo + n)%nat (loop_range lo n body s).
Proof.
  revert lo s; induction n as [|n IH]; intros lo s.
  { simpl. by rewrite Nat.add_0_r. }
  change (loop_range (Datatypes.S lo) (Datatypes.S n) body (body lo s) =
    body (lo + Datatypes.S n)%nat (loop_range (Datatypes.S lo) n body (body lo s))).
  rewrite IH. f_equal. lia.
Qed.

Lemma loop_range_app {S} lo n m (body : nat → S → S) s :
  loop_range lo (n + m) body s = loop_range (lo + n) m body (loop_range lo n body s).
Proof.
  revert lo s; induction n as [|n IH]; intros lo s; simpl; [by rewrite Nat.add_0_r|].
  by rewrite IH, Nat.add_succ_r.
Qed.

(** Two loops whose bodies agree, the second with a shifted counter. *)
Lemma loop_range_shift {S} lo d n (f g : nat → S → S) s :
  (∀ i s, (lo <= i < lo + n)%nat → f (i + d)%nat s = g i s) →
  loop_range (lo + d) n f s = loop_range lo n g s.
Proof.
  revert lo s; induction n as [|n IH]; intros lo s Hfg; simpl; [done|].
  rewrite Hfg by lia. apply (IH (Datatypes.S lo)). intros i s' Hi. apply Hfg. lia.
Qed.

Lemma loop_range_ext {S} lo n (f g : nat → S → S) s :
  (∀ i s, (lo <= i < lo + n)%nat → f i s = g i s) → loop_range lo n f s = loop_range lo n g s.
Proof.
  intros Hfg. rewrite <- (Nat.add_0_r lo) at 1. apply loop_range_shift.
  intros i s'. rewrite Nat.add_0_r. apply Hfg.
Qed.

(** A fallible loop that follows a known trajectory [f] of states. *)
Lemma for_range_Some {S} (f : nat → S) lo n (body : nat → S → option S) :
  (∀ i, (lo <= i < lo + n)%nat → body i (f i) = Some (f (Datatypes.S i))) →
  for_range lo n body (f lo) = Some (f (lo + n)%nat).
Proof.
  revert lo; induction n as [|n IH]; intros lo Hf; cbn [for_range]; [by rewrite Nat.add_0_r|].
  rewrite Hf by lia. cbn [mbind option_bind]. rewrite <- Nat.add_succ_comm.
  apply IH. intros i Hi. apply Hf. lia.
Qed.

(** Extending a positional sum by one column, with its carry. *)
Lemma ripple_digits r cols k c :
  1 < r → cols !! k = Some c →
  let s := digits_val r (take k cols) in
  let s' := digits_val r (take (S k) cols) in
  digits r (S k) s' = digits r k s ++ [(s / r ^ Z.of_nat k + c) mod r] ∧
  s' / r ^ Z.of_nat (S k) = (s / r ^ Z.of_nat k + c) / r.
Proof.
  intros Hr Hc s s'.
  assert (0 < r ^ Z.of_nat k) as Hp by (apply Z.pow_pos_nonneg; lia).
  assert (s' = s + c * r ^ Z.of_nat k) as ->.
  { unfold s'. rewrite (take_S_r _ _ c Hc), digits_val_app, length_take_le.
    - cbn [digits_val]. fold s. ring.
    - apply lookup_lt_Some in Hc. lia. }
  split.
  - rewrite <- Nat.add_1_r, digits_app by lia. rewrite Z.div_add by lia. f_equal.
    rewrite <- (digits_mod r Hr k (s + _)), Z.mod_add by lia. by apply digits_mod.
  - by rewrite Nat2Z.inj_succ, Z.pow_succ_r, (Z.mul_comm r), <- Z.div_div, Z.div_add by lia.
Qed.

Lemma digits_val_mono r ds es :
  0 < r → Forall2 Z.le ds es → digits_val r ds <= digits_val r es.
Proof. intros Hr. induction 1; cbn [digits_val]; nia. Qed.

Lemma digits_seq r n z :
  1 < r → digits r n z = (λ k, (z / r ^ Z.of_nat k) mod r) <$> seq 0 n.
Proof.
  intros Hr. apply list_eq. intros i. rewrite list_lookup_fmap.
  destruct (decide (i < n)%nat) as [Hi|Hi].
  - rewrite digits_lookup, lookup_seq_lt by lia. done.
  - rewrite !lookup_ge_None_2; rewrite ?length_digits, ?length_seq; auto; lia.
Qed.

(** A window of digits. *)
Lemma take_drop_digits r n z k m :
  1 < r → (m + k <= n)%nat → take k (drop m (digits r n z)) = digits r k (z / r ^ Z.of_nat m).
Proof.
  intros Hr Hn. replace n with (m + (k + (n - m - k)))%nat by lia.
  rewrite digits_app, drop_app_length' by (rewrite ?length_digits; lia).
  by rewrite digits_app, take_app_length' by (rewrite ?length_digits; lia).
Qed.

(** Appending high digits. *)
Lemma digits_add_high r n m x y :
  1 < r → 0 <= x < r ^ Z.of_nat n →
  digits r (n + m) (x + r ^ Z.of_nat n * y) = digits r n x ++ digits r m y.
Proof.
  intros Hr Hx. rewrite digits_app by done. f_equal.
  - rewrite <- (digits_mod r Hr n (x + _)), Z.mul_comm, Z.mod_add by lia. by apply digits_mod.
  - by rewrite Z.mul_comm, Z.div_add, Z.div_small by lia.
Qed.

Lemma pow256 k : 256 ^ Z.of_nat k = 2 ^ Z.of_nat (8 * k).
Proof. change 256 with (2 ^ 8). rewrite <- Z.pow_mul_r by lia. f_equal. lia. Qed.
