(* ===== verification/Gnark.v ===== *)
(** * The circuit compiler the gadgets are written against

    [src/internal/circuit] builds arithmetic circuits with the third-party gnark
    library.  This file is the interface the gadgets rely on:

    - a [Field] is the native scalar field: wire values, constants and the linear
      and multiplicative operations of [frontend.API];
    - a [Circuit A] is what a [Define] method (or one of its gadgets) does when it
      is run against a prover: [NewHint] takes the next answer of the prover,
      which is either the [Honest] run of the hint function or any [Forged]
      list of wires, and a failed constraint ends the run with [None];
    - [Gadgets] are the library's own gadgets ([std/math/uints], [std/rangecheck],
      [std/math/bitslice]) with their documented behaviour as laws.

    [Sound m R] says that EVERY prover whose answers satisfy the constraints ends
    in [R]; [Accepts m R] says that the honest prover is accepted and ends in [R];
    [circuit_ok] is both, and [rejects] says that no prover is accepted. *)
From Stdlib Require Import FunctionalExtensionality.
From S2P Require Import Prelude.

Class Field := {
  var : Type;
  value : var → Z;
  field_order : Z;
  FieldBitLen : Z;
  constant : Z → var;
  ConstantValue : var → option Z;
  api_Add : var → var → var;
  api_Mul : var → var → var;
  api_Sub : var → var → var;
  field_bits : 2 ^ (FieldBitLen - 1) <= field_order < 2 ^ FieldBitLen;
  field_large : 255 <= FieldBitLen;
  value_range v : 0 <= value v < field_order;
  value_constant c : value (constant c) = c mod field_order;
  ConstantValue_sound v c : ConstantValue v = Some c → value v = c;
  value_Add x y : value (api_Add x y) = (value x + value y) mod field_order;
  value_Mul x y : value (api_Mul x y) = (value x * value y) mod field_order;
  value_Sub x y : value (api_Sub x y) = (value x - value y) mod field_order;
}.

(** A byte wire ([uints.U8]) and a 64-bit word of eight byte wires, least
    significant first ([uints.U64]). *)
Abbreviation U8 := var.
Abbreviation U64 := (list var).

Inductive answer (V : Type) :=
| Honest
| Forged (vs : list V).
Arguments Honest {_}.
Arguments Forged {_} _.

Definition Circuit `{Field} (A : Type) : Type :=
  list (answer var) → option (A * list (answer var)).

#[export] Instance circuit_ret `{Field} : MRet Circuit := λ A a t, Some (a, t).
#[export] Instance circuit_bind `{Field} : MBind Circuit := λ A B f m t,
  match m t with Some (a, t') => f a t' | None => None end.

(** [panic(...)] while the circuit is being built: there is no circuit. *)
Definition circuit_panic `{Field} {A} : Circuit A := λ _, None.
(** A Go computation that may panic, run while the circuit is built. *)
Definition circuit_of_option `{Field} {A} (o : option A) : Circuit A :=
  match o with Some a => mret a | None => circuit_panic end.
Definition circuit_assert `{Field} (b : bool) : Circuit unit :=
  λ t, if b then Some (tt, t) else None.

(** [api.AssertIsEqual]: an R1CS constraint. *)
Definition api_AssertIsEqual `{Field} (x y : var) : Circuit unit :=
  circuit_assert (value x =? value y).

(** [api.Compiler().NewHint]: hint outputs are advice.  The honest prover runs the
    hint function; a forged answer is any list of the right length. *)
Definition NewHint `{Field} (hint : list Z → option (list Z)) (n : nat)
    (inputs : list var) : Circuit (list var) := λ t,
  match t with
  | Honest :: t =>
      match hint (value <$> inputs) with
      | Some outs => if (length outs =? n)%nat then Some (constant <$> outs, t) else None
      | None => None
      end
  | Forged vs :: t => if (length vs =? n)%nat then Some (vs, t) else None
  | [] => None
  end.

(** ** The two judgements and their composition rules *)

Section judgements.
Context `{Field}.

Definition Sound {A} (m : Circuit A) (R : A → Prop) : Prop :=
  ∀ t a t', m t = Some (a, t') → R a.
Definition Accepts {A} (m : Circuit A) (R : A → Prop) : Prop :=
  ∃ n a, R a ∧ ∀ t', m (replicate n Honest ++ t') = Some (a, t').
Definition circuit_ok {A} (m : Circuit A) (R : A → Prop) : Prop :=
  Sound m R ∧ Accepts m R.
Definition rejects {A} (m : Circuit A) : Prop := ∀ t, m t = None.

Lemma circuit_bind_assoc {A B C} (m : Circuit A) (f : A → Circuit B) (g : B → Circuit C) :
  (m ≫= λ a, f a ≫= g) = ((m ≫= f) ≫= g).
Proof.
  unfold mbind, circuit_bind. apply functional_extensionality. intros t.
  by destruct (m t) as [[a t']|].
Qed.

Lemma Sound_bind {A B} (m : Circuit A) (f : A → Circuit B) R S :
  Sound m R → (∀ a, R a → Sound (f a) S) → Sound (m ≫= f) S.
Proof.
  intros Hm Hf t b t' E. unfold mbind, circuit_bind in E.
  destruct (m t) as [[a t1]|] eqn:Em; [|done]. eapply Hf; eauto.
Qed.

Lemma Accepts_bind {A B} (m : Circuit A) (f : A → Circuit B) R S :
  Accepts m R → (∀ a, R a → Accepts (f a) S) → Accepts (m ≫= f) S.
Proof.
  intros (n & a & HR & Hm) Hf. destruct (Hf a HR) as (k & b & HS & Hb).
  exists (n + k)%nat, b. split; [done|]. intros t'.
  unfold mbind, circuit_bind. rewrite replicate_add, <- app_assoc, Hm. apply Hb.
Qed.

Lemma ok_bind {A B} (m : Circuit A) (f : A → Circuit B) R S :
  circuit_ok m R → (∀ a, R a → circuit_ok (f a) S) → circuit_ok (m ≫= f) S.
Proof.
  intros [Hs Ha] Hf. split.
  - eapply Sound_bind; [done|]. intros; by apply Hf.
  - eapply Accepts_bind; [done|]. intros; by apply Hf.
Qed.

Lemma Sound_weaken {A} (m : Circuit A) (R S : A → Prop) :
  Sound m R → (∀ a, R a → S a) → Sound m S.
Proof. intros Hm HRS t a t' E. eauto. Qed.

Lemma Accepts_weaken {A} (m : Circuit A) (R S : A → Prop) :
  Accepts m R → (∀ a, R a → S a) → Accepts m S.
Proof. intros (n & a & HR & Hm) HRS. exists n, a; eauto. Qed.

Lemma ok_weaken {A} (m : Circuit A) (R S : A → Prop) :
  circuit_ok m R → (∀ a, R a → S a) → circuit_ok m S.
Proof. intros [] HRS. split; [eapply Sound_weaken|eapply Accepts_weaken]; eauto. Qed.

Lemma ok_ret {A} (a : A) (R : A → Prop) : R a → circuit_ok (mret a) R.
Proof.
  intros HR. split.
  - intros t b t' E. unfold mret, circuit_ret in E. by simplify_eq.
  - by exists 0%nat, a.
Qed.

Lemma ok_assert b (R : unit → Prop) : b = true → R tt → circuit_ok (circuit_assert b) R.
Proof. intros -> HR. split; [intros t [] t' _; done|by exists 0%nat, tt]. Qed.

Lemma ok_assert_equal x y (R : unit → Prop) :
  value x = value y → R tt → circuit_ok (api_AssertIsEqual x y) R.
Proof. intros E HR. apply ok_assert; [|done]. rewrite E. apply Z.eqb_refl. Qed.

Lemma Sound_assert_equal x y :
  Sound (api_AssertIsEqual x y) (λ _, value x = value y).
Proof.
  intros t a t' E. unfold api_AssertIsEqual, circuit_assert in E.
  destruct (value x =? value y) eqn:Exy; [|done]. lia.
Qed.

Lemma rejects_bind_l {A B} (m : Circuit A) (f : A → Circuit B) :
  rejects m → rejects (m ≫= f).
Proof. intros Hm t. unfold mbind, circuit_bind. by rewrite Hm. Qed.

Lemma rejects_bind {A B} (m : Circuit A) (f : A → Circuit B) R :
  Sound m R → (∀ a, R a → rejects (f a)) → rejects (m ≫= f).
Proof.
  intros Hm Hf t. unfold mbind, circuit_bind.
  destruct (m t) as [[a t']|] eqn:E; [|done]. eapply Hf. by eapply Hm.
Qed.

Lemma rejects_bind_r {A B} (m : Circuit A) (f : A → Circuit B) :
  (∀ a, rejects (f a)) → rejects (m ≫= f).
Proof. intros Hf. by apply (rejects_bind m f (λ _, True)). Qed.

Lemma rejects_assert_equal x y :
  value x ≠ value y → rejects (api_AssertIsEqual x y).
Proof.
  intros Hne t. unfold api_AssertIsEqual, circuit_assert.
  by apply Z.eqb_neq in Hne as ->.
Qed.

Lemma Sound_rejects {A} (m : Circuit A) R : rejects m → Sound m R.
Proof. intros Hm t a t' E. by rewrite Hm in E. Qed.

Lemma rejects_False {A} (m : Circuit A) : Sound m (λ _, False) → rejects m.
Proof. intros Hm t. destruct (m t) as [[a t']|] eqn:E; [|done]. by apply Hm in E. Qed.

Lemma Sound_NewHint hint n inputs :
  Sound (NewHint hint n inputs) (λ vs, length vs = n).
Proof.
  intros t vs t' E. unfold NewHint in E.
  destruct t as [|[|ws] t]; [done| |]; repeat case_match; simplify_eq;
    bool_to_prop; by rewrite ?length_fmap.
Qed.

Lemma Accepts_NewHint hint n inputs outs :
  hint (value <$> inputs) = Some outs → length outs = n →
  Accepts (NewHint hint n inputs) (λ vs, vs = constant <$> outs).
Proof.
  intros Hh <-. exists 1%nat, (constant <$> outs). split; [done|].
  intros t'. simpl. rewrite Hh, Nat.eqb_refl. done.
Qed.

(** Loops: an invariant indexed by the loop counter. *)
Lemma Sound_for {S} (I : nat → S → Prop) lo n body s :
  I lo s →
  (∀ i s, (lo <= i < lo + n)%nat → I i s → Sound (body i s) (I (Datatypes.S i))) →
  Sound (for_range lo n body s) (I (lo + n)%nat).
Proof.
  revert lo s; induction n as [|n IH]; intros lo s H0 HS; simpl.
  { rewrite Nat.add_0_r. by apply ok_ret. }
  eapply Sound_bind; [apply HS; [lia|done]|]. intros s' Hs'.
  rewrite <- Nat.add_succ_comm. apply IH; [done|].
  intros i s'' Hi. apply HS. lia.
Qed.

Lemma ok_for {S} (I : nat → S → Prop) lo n body s :
  I lo s →
  (∀ i s, (lo <= i < lo + n)%nat → I i s → circuit_ok (body i s) (I (Datatypes.S i))) →
  circuit_ok (for_range lo n body s) (I (lo + n)%nat).
Proof.
  revert lo s; induction n as [|n IH]; intros lo s H0 HS; simpl.
  { rewrite Nat.add_0_r. by apply ok_ret. }
  eapply ok_bind; [apply HS; [lia|done]|]. intros s' Hs'.
  rewrite <- Nat.add_succ_comm. apply IH; [done|].
  intros i s'' Hi. apply HS. lia.
Qed.

(** A loop one of whose iterations cannot be satisfied cannot be satisfied.  [I]
    is what the earlier iterations establish for every prover. *)
Lemma rejects_for {S} (I : nat → S → Prop) lo n body s j :
  (lo <= j < lo + n)%nat → I lo s →
  (∀ i s, (lo <= i < j)%nat → I i s → Sound (body i s) (I (Datatypes.S i))) →
  (∀ s, I j s → rejects (body j s)) →
  rejects (for_range lo n body s).
Proof.
  revert lo s; induction n as [|n IH]; intros lo s Hj H0 HS Hr; simpl; [lia|].
  destruct (decide (j = lo)) as [->|Hne].
  { apply rejects_bind_l. by apply Hr. }
  eapply rejects_bind; [apply HS; [lia|done]|]. intros s' Hs'.
  apply IH; [lia|done| |done]. intros i s'' Hi. apply HS. lia.
Qed.

(** A circuit loop that simulates a pure loop, step by step. *)
Lemma ok_for_sim {S T} (R : nat → S → T → Prop) lo n body step s t :
  R lo s t →
  (∀ i s t, (lo <= i < lo + n)%nat → R i s t →
    circuit_ok (body i s) (λ s', R (Datatypes.S i) s' (step i t))) →
  circuit_ok (for_range lo n body s) (λ s', R (lo + n)%nat s' (loop_range lo n step t)).
Proof.
  revert lo s t; induction n as [|n IH]; intros lo s t H0 HS; simpl.
  { rewrite Nat.add_0_r. by apply ok_ret. }
  eapply ok_bind; [apply HS; [lia|done]|]. intros s' Hs'.
  rewrite <- Nat.add_succ_comm. apply IH; [done|].
  intros i s'' t'' Hi. apply HS. lia.
Qed.
End judgements.

(** [step t as x Hx]: run the first gadget of a sequence, with [t] proving its
    judgement and [Hx] what is known of its output [x]. *)
Tactic Notation "step" tactic3(t) "as" simple_intropattern(x) simple_intropattern(Hx) :=
  eapply ok_bind; [t | cbv beta; intros x Hx].

Create HintDb circuit.
#[export] Hint Resolve ok_ret ok_assert_equal : circuit.

(** ** Denotations of wires *)

Section denotations.
Context `{Field}.

Definition u8_is (u : U8) (b : Z) : Prop := value u = b ∧ is_byte b.
(** A word whose eight wires are the bytes of [z]. *)
Definition word_is (w : U64) (z : Z) : Prop :=
  value <$> w = le_bytes 8 z ∧ 0 <= z < 2 ^ 64.
Definition bytes_are (us : list U8) (bs : list Z) : Prop :=
  value <$> us = bs ∧ Forall is_byte bs.

Lemma word_is_length w z : word_is w z → length w = 8%nat.
Proof. intros [E _]. apply (f_equal length) in E. by rewrite length_fmap, length_digits in E. Qed.

Lemma word_is_bytes w z : word_is w z → Forall is_byte (value <$> w).
Proof. intros [-> _]. apply digits_are_digits. lia. Qed.

Lemma word_is_val w z : word_is w z → le_val (value <$> w) = z.
Proof.
  intros [-> Hz]. rewrite digits_val_digits by lia.
  change (256 ^ Z.of_nat 8) with (2 ^ 64). by apply Z.mod_small.
Qed.

Lemma word_is_range w z : word_is w z → 0 <= z < 2 ^ 64.
Proof. by intros []. Qed.

Lemma word_is_intro w z :
  length w = 8%nat → Forall is_byte (value <$> w) → le_val (value <$> w) = z →
  word_is w z.
Proof.
  intros Hl Hb <-. split.
  - rewrite <- Hl, <- (length_fmap value w), digits_digits_val; [done|lia|done].
  - rewrite <- (length_fmap value) in Hl.
    pose proof (digits_val_bound 256 ltac:(lia) _ Hb) as Hv. rewrite Hl in Hv. lia.
Qed.

Lemma word_is_fun w z1 z2 : word_is w z1 → word_is w z2 → z1 = z2.
Proof. intros H1%word_is_val H2%word_is_val. congruence. Qed.

Lemma bytes_are_length us bs : bytes_are us bs → length us = length bs.
Proof. intros [<- _]. by rewrite length_fmap. Qed.

Lemma bytes_are_app us bs vs cs :
  bytes_are us bs → bytes_are vs cs → bytes_are (us ++ vs) (bs ++ cs).
Proof. intros [<- ?] [<- ?]. split; [apply fmap_app|by apply Forall_app]. Qed.

Lemma bytes_are_u8 us bs i u b :
  bytes_are us bs → us !! i = Some u → bs !! i = Some b → u8_is u b.
Proof.
  intros [<- Hb] Hu Hbs. rewrite list_lookup_fmap, Hu in Hbs. simplify_eq/=.
  split; [done|]. eapply Forall_lookup_1; [done|]. by rewrite list_lookup_fmap, Hu.
Qed.

Lemma field_order_large : 2 ^ 254 <= field_order.
Proof.
  pose proof field_bits. pose proof field_large.
  assert (2 ^ 254 <= 2 ^ (FieldBitLen - 1)) by (apply Z.pow_le_mono_r; lia). lia.
Qed.

Lemma value_constant_small c : 0 <= c < 2 ^ 254 → value (constant c) = c.
Proof. intros. rewrite value_constant. apply Z.mod_small. pose proof field_order_large. lia. Qed.

Lemma value_Add_small x y :
  value x + value y < 2 ^ 254 → value (api_Add x y) = value x + value y.
Proof.
  intros. rewrite value_Add. apply Z.mod_small.
  pose proof field_order_large. pose proof (value_range x). pose proof (value_range y). lia.
Qed.

Lemma value_Mul_small x y :
  value x * value y < 2 ^ 254 → value (api_Mul x y) = value x * value y.
Proof.
  intros. rewrite value_Mul. apply Z.mod_small.
  pose proof field_order_large. pose proof (value_range x). pose proof (value_range y). nia.
Qed.

(** [uints.NewU8], [uints.NewU8Array] and [uints.NewU64]: constants. *)
Definition NewU8 (b : Z) : U8 := constant b.
Definition NewU8Array (bs : list Z) : list U8 := NewU8 <$> bs.
Definition NewU64 (z : Z) : U64 := NewU8Array (le_bytes 8 z).

Lemma NewU8_is b : is_byte b → u8_is (NewU8 b) b.
Proof. intros Hb. split; [|done]. apply value_constant_small. unfold is_digit in Hb. lia. Qed.

Lemma NewU8Array_are bs : Forall is_byte bs → bytes_are (NewU8Array bs) bs.
Proof.
  intros Hb. split; [|done]. unfold NewU8Array. rewrite <- list_fmap_compose.
  induction Hb as [|b bs Hb _ IH]; [done|]. cbn. rewrite IH. f_equal.
  by apply NewU8_is.
Qed.

Lemma NewU64_is z : 0 <= z < 2 ^ 64 → word_is (NewU64 z) z.
Proof. intros. split; [|done]. apply NewU8Array_are, digits_are_digits. lia. Qed.
End denotations.

(** ** The library gadgets and their documented behaviour *)

Class Gadgets `{Field} := {
  api_ToBinary : var → nat → Circuit (list var);
  api_FromBinary : list var → var;
  api_AssertIsBoolean : var → Circuit unit;
  rc_Check : var → nat → Circuit unit;
  bitslice_Partition : var → nat → nat → Circuit (var * var);
  uapi_Value : U8 → Circuit var;
  bapi_ValueOf : var → Circuit U8;
  uapi_ValueOf : var → Circuit U64;
  uapi_ToValue : U64 → Circuit var;
  uapi_Xor : list U64 → Circuit U64;
  uapi_And : U64 → U64 → Circuit U64;
  uapi_Lrot : U64 → nat → Circuit U64;
  bapi_Xor : U8 → U8 → Circuit U8;
  uapi_PackMSB : list U8 → U64;
  uapi_PackLSB : list U8 → U64;
  uapi_UnpackMSB : U64 → list U8;
  uapi_UnpackLSB : U64 → list U8;

  (** [api.ToBinary(v, n)]: the [n] bits of [v], which must be below [2^n]. *)
  ToBinary_ok v n : Z.of_nat n < FieldBitLen → value v < 2 ^ Z.of_nat n →
    circuit_ok (api_ToBinary v n) (λ bs, value <$> bs = bits_of n (value v));
  ToBinary_rejects v n : Z.of_nat n < FieldBitLen → 2 ^ Z.of_nat n <= value v →
    rejects (api_ToBinary v n);
  FromBinary_val bs : Forall is_bit (value <$> bs) → Z.of_nat (length bs) < 254 →
    value (api_FromBinary bs) = bits_val (value <$> bs);
  AssertIsBoolean_ok v : is_bit (value v) →
    circuit_ok (api_AssertIsBoolean v) (λ _, True);
  AssertIsBoolean_rejects v : ¬ is_bit (value v) → rejects (api_AssertIsBoolean v);
  (** [rangecheck.Check(v, n)] *)
  Check_ok v n : (0 < n)%nat → Z.of_nat n < FieldBitLen → value v < 2 ^ Z.of_nat n →
    circuit_ok (rc_Check v n) (λ _, True);
  Check_rejects v n : (0 < n)%nat → Z.of_nat n < FieldBitLen → 2 ^ Z.of_nat n <= value v →
    rejects (rc_Check v n);
  (** [bitslice.Partition(v, split, WithNbDigits, WithUnconstrainedOutputs)]: only
      the honest prover's outputs are known. *)
  Partition_accepts v split digits : value v < 2 ^ Z.of_nat digits →
    Accepts (bitslice_Partition v split digits)
      (λ '(lo, hi), value lo = value v mod 2 ^ Z.of_nat split ∧
                    value hi = value v / 2 ^ Z.of_nat split);
  (** Bytes are width-checked when they are read. *)
  Value_ok u b : u8_is u b → circuit_ok (uapi_Value u) (λ v, value v = b);
  Value_rejects u : ¬ is_byte (value u) → rejects (uapi_Value u);
  bValueOf_ok v : is_byte (value v) →
    circuit_ok (bapi_ValueOf v) (λ u, value u = value v);
  bValueOf_rejects v : ¬ is_byte (value v) → rejects (bapi_ValueOf v);
  ValueOf_ok v : value v < 2 ^ 64 →
    circuit_ok (uapi_ValueOf v) (λ w, word_is w (value v));
  ValueOf_rejects v : 2 ^ 64 <= value v → rejects (uapi_ValueOf v);
  ToValue_ok w z : word_is w z → circuit_ok (uapi_ToValue w) (λ v, value v = z);
  ToValue_rejects w : length w = 8%nat → ¬ Forall is_byte (value <$> w) →
    rejects (uapi_ToValue w);
  Xor_ok ws zs : ws ≠ [] → Forall2 word_is ws zs →
    circuit_ok (uapi_Xor ws) (λ w, word_is w (foldr Z.lxor 0 zs));
  And_ok v w y z : word_is v y → word_is w z →
    circuit_ok (uapi_And v w) (λ u, word_is u (Z.land y z));
  Lrot_ok w z n : word_is w z → (n < 64)%nat →
    circuit_ok (uapi_Lrot w n) (λ v, word_is v
      (Z.lor (Z.shiftl z (Z.of_nat n) mod 2 ^ 64) (Z.shiftr z (64 - Z.of_nat n))));
  bXor_ok u v a b : u8_is u a → u8_is v b →
    circuit_ok (bapi_Xor u v) (λ w, u8_is w (Z.lxor a b));
  bXor_rejects u v : ¬ is_byte (value u) → rejects (bapi_Xor u v);
  (** Packing only orders the bytes. *)
  PackMSB_bytes us : value <$> uapi_PackMSB us = rev (value <$> us);
  PackLSB_bytes us : value <$> uapi_PackLSB us = value <$> us;
  UnpackMSB_bytes w : value <$> uapi_UnpackMSB w = rev (value <$> w);
  UnpackLSB_bytes w : value <$> uapi_UnpackLSB w = value <$> w;
}.

(** ** [Bytes.PackLSBConstrained]

    This one is the repository's own addition to the library
    ([src/experiments/wasm-prover/patches/uints-bounded-pack.patch]). *)
Section bounded_pack.
Context `{Gadgets}.

Definition enforceBitWidth (v : var) (bits : nat) : Circuit unit :=
  match ConstantValue v with
  | Some c => if (c <? 0) || (2 ^ Z.of_nat bits <=? c) then circuit_panic else mret tt
  | None => rc_Check v bits
  end.

(** The widths must be positive and total eight bits. *)
Fixpoint widths_total (total : nat) (widths : list nat) : option nat :=
  match widths with
  | [] => Some total
  | w :: ws => if (w <? 1)%nat || (8 <? total + w)%nat then None
               else widths_total (total + w) ws
  end.

Fixpoint pack_parts (packed : var) (offset : nat) (parts : list var) (widths : list nat) :
    Circuit var :=
  match parts, widths with
  | p :: ps, w :: ws =>
      _ ← enforceBitWidth p w;
      pack_parts (api_Add packed (api_Mul p (constant (2 ^ Z.of_nat offset)))) (offset + w) ps ws
  | _, _ => mret packed
  end.

Definition uapi_PackLSBConstrained (parts : list var) (widths : list nat) : Circuit U8 :=
  if (length parts =? 0)%nat || negb (length parts =? length widths)%nat then circuit_panic
  else if decide (widths_total 0 widths = Some 8%nat)
  then pack_parts (constant 0) 0 parts widths
  else circuit_panic.
End bounded_pack.
