(* ===== verification/GnarkModel.v ===== *)
(** * A concrete compiler for the interface of [Gnark.v]

    An executable instance of [Field] and [Gadgets] over the BLS12-381 scalar
    field.  It shows that the laws the gadget theorems assume hold together, and
    it runs the circuits on concrete inputs. *)
From S2P Require Import Prelude.
From S2P Require Import Gnark.

(** Order of the BLS12-381 scalar field ([ecc.BLS12_381.ScalarField()]). *)
Definition bls_order : Z :=
  52435875175126190479447740508185965837690552500527637822603658699938581184513.

#[local] Obligation Tactic := idtac.

(** A wire is a field element with the compiler's "is a constant" mark. *)
#[export] Program Instance model_field : Field := {|
  var := bool * Z;
  value v := v.2 mod bls_order;
  field_order := bls_order;
  FieldBitLen := 255;
  constant z := (true, z);
  ConstantValue v := if v.1 then Some (v.2 mod bls_order) else None;
  api_Add x y := (x.1 && y.1, (x.2 + y.2) mod bls_order);
  api_Mul x y := (x.1 && y.1, (x.2 * y.2) mod bls_order);
  api_Sub x y := (x.1 && y.1, (x.2 - y.2) mod bls_order);
|}.
Next Obligation. by vm_compute. Qed.
Next Obligation. done. Qed.
Next Obligation. intros v. by apply Z.mod_pos_bound. Qed.
Next Obligation. done. Qed.
Next Obligation. intros [[] z] c E; simpl in *; congruence. Qed.
Next Obligation. intros [? x] [? y]. simpl. by rewrite Z.mod_mod, <- Z.add_mod. Qed.
Next Obligation. intros [? x] [? y]. simpl. by rewrite Z.mod_mod, <- Z.mul_mod. Qed.
Next Obligation.
  intros [? x] [? y]. simpl. by rewrite Z.mod_mod, Zminus_mod_idemp_l, Zminus_mod_idemp_r.
Qed.

Definition wire (z : Z) : var := (false, z).
Definition wires (zs : list Z) : list var := wire <$> zs.
Definition word_of (z : Z) : U64 := wires (le_bytes 8 z).

Lemma value_wire z : 0 <= z < 2 ^ 254 → value (wire z) = z.
Proof.
  intros Hz. apply Z.mod_small. pose proof field_order_large as Hf.
  change field_order with bls_order in Hf. lia.
Qed.

Lemma value_wires zs : Forall (λ z, 0 <= z < 2 ^ 254) zs → value <$> wires zs = zs.
Proof.
  unfold wires.
  induction 1 as [|z zs Hz _ IH]; [done|].
  rewrite !fmap_cons, IH. f_equal. by apply value_wire.
Qed.

Lemma value_wires_digits r n z : 1 < r <= 256 → value <$> wires (digits r n z) = digits r n z.
Proof.
  intros. apply value_wires. eapply Forall_impl; [apply digits_are_digits; lia|].
  intros d Hd. unfold is_digit in Hd. lia.
Qed.

Definition is_byteb (z : Z) : bool := (0 <=? z) && (z <? 256).
Definition wordb (w : U64) : bool := forallb (λ u, is_byteb (value u)) w.
Definition word_val (w : U64) : Z := le_val (value <$> w).

Lemma is_byteb_spec z : is_byteb z = true ↔ is_byte z.
Proof. unfold is_byteb, is_digit. rewrite andb_true_iff. bool_to_prop. done. Qed.

Lemma wordb_spec w : wordb w = true ↔ Forall is_byte (value <$> w).
Proof.
  unfold wordb. rewrite forallb_forall, Forall_fmap, Forall_forall.
  setoid_rewrite list_elem_of_In. setoid_rewrite is_byteb_spec. done.
Qed.

Lemma word_is_wordb w z : word_is w z → wordb w = true ∧ word_val w = z.
Proof. intros Hw. split; [by eapply wordb_spec, word_is_bytes|by apply word_is_val]. Qed.

Lemma word_of_is z : 0 <= z < 2 ^ 64 → word_is (word_of z) z.
Proof. intros. split; [apply value_wires_digits; lia|done]. Qed.

(** [circuit_assert b;; m] *)
Definition guarded {A} (b : bool) (m : Circuit A) : Circuit A := circuit_assert b ≫= λ _, m.

Lemma guarded_ok {A} b (m : Circuit A) R :
  b = true → circuit_ok m R → circuit_ok (guarded b m) R.
Proof. intros -> Hm. apply (ok_bind _ _ (λ _, True)); [by apply ok_assert|done]. Qed.

Lemma guarded_rejects {A} b (m : Circuit A) : b = false → rejects (guarded b m).
Proof. by intros -> t. Qed.

Lemma assert_rejects b : b = false → rejects (circuit_assert b).
Proof. by intros -> t. Qed.

Lemma word_ok z R : 0 <= z < 2 ^ 64 → (∀ w, word_is w z → R w) → circuit_ok (mret (word_of z)) R.
Proof. intros Hz HR. by apply ok_ret, HR, word_of_is. Qed.

Lemma words_xor_range zs :
  Forall (λ z, 0 <= z < 2 ^ 64) zs → 0 <= foldr Z.lxor 0 zs < 2 ^ 64.
Proof. induction 1; simpl; [lia|by apply lxor_range]. Qed.

Lemma words_are ws zs : Forall2 word_is ws zs →
  forallb wordb ws = true ∧ word_val <$> ws = zs ∧ Forall (λ z, 0 <= z < 2 ^ 64) zs.
Proof.
  induction 1 as [|w z ws zs Hw _ (Hbs & Hvs & Hr)]; [done|].
  destruct (word_is_wordb _ _ Hw) as [Hb Hv].
  rewrite fmap_cons, Hv, Hvs. cbn [forallb]. rewrite Hb, Hbs.
  repeat split. constructor; [by eapply word_is_range|done].
Qed.

#[export] Program Instance model_gadgets : Gadgets := {|
  api_ToBinary v n := guarded (value v <? 2 ^ Z.of_nat n) (mret (wires (bits_of n (value v))));
  api_FromBinary bs := wire (bits_val (value <$> bs));
  api_AssertIsBoolean v := circuit_assert (value v <? 2);
  rc_Check v n := circuit_assert (value v <? 2 ^ Z.of_nat n);
  bitslice_Partition v split nb_digits := mret
    (wire (value v mod 2 ^ Z.of_nat split), wire (value v / 2 ^ Z.of_nat split));
  uapi_Value u := guarded (is_byteb (value u)) (mret u);
  bapi_ValueOf v := guarded (is_byteb (value v)) (mret v);
  uapi_ValueOf v := guarded (value v <? 2 ^ 64) (mret (word_of (value v)));
  uapi_ToValue w := guarded (wordb w) (mret (wire (word_val w)));
  uapi_Xor ws := guarded (forallb wordb ws) (mret (word_of (foldr Z.lxor 0 (word_val <$> ws))));
  uapi_And v w := guarded (wordb v && wordb w) (mret (word_of (Z.land (word_val v) (word_val w))));
  uapi_Lrot w n := guarded (wordb w) (mret (word_of
    (Z.lor (Z.shiftl (word_val w) (Z.of_nat n) mod 2 ^ 64)
           (Z.shiftr (word_val w) (64 - Z.of_nat n)))));
  bapi_Xor u v := guarded (is_byteb (value u) && is_byteb (value v))
    (mret (wire (Z.lxor (value u) (value v))));
  uapi_PackMSB us := rev us;
  uapi_PackLSB us := us;
  uapi_UnpackMSB w := rev w;
  uapi_UnpackLSB w := w;
|}.
Next Obligation.
  intros v n _ Hv. apply guarded_ok; [by apply Z.ltb_lt|].
  apply ok_ret, value_wires_digits. lia.
Qed.
Next Obligation. intros v n _ Hv. by apply guarded_rejects, Z.ltb_ge. Qed.
Next Obligation.
  intros bs Hb Hl. apply value_wire.
  pose proof (digits_val_bound 2 ltac:(lia) _ Hb) as Hv. rewrite length_fmap in Hv.
  pose proof (Z.pow_le_mono_r 2 (Z.of_nat (length bs)) 254). lia.
Qed.
Next Obligation. intros v [_ Hv]. by apply ok_assert; [apply Z.ltb_lt|]. Qed.
Next Obligation.
  intros v Hv. apply assert_rejects, Z.ltb_ge. unfold is_digit in Hv.
  pose proof (value_range v). lia.
Qed.
Next Obligation. intros v n _ _ Hv. by apply ok_assert; [apply Z.ltb_lt|]. Qed.
Next Obligation. intros v n _ _ Hv. by apply assert_rejects, Z.ltb_ge. Qed.
Next Obligation.
  intros v split nb Hv. exists 0%nat. eexists. split; [|done].
  pose proof (value_range v) as Hr. pose proof (Z.pow_pos_nonneg 2 (Z.of_nat split)) as Hp.
  split; rewrite !Z.mod_mod || idtac; apply Z.mod_small.
  - pose proof (Z.mod_pos_bound (value v) (2 ^ Z.of_nat split)).
    pose proof (Z.mod_le (value v) (2 ^ Z.of_nat split)). change field_order with bls_order in *. lia.
  - pose proof (Z.div_pos (value v) (2 ^ Z.of_nat split)).
    pose proof (Z.div_le_upper_bound (value v) (2 ^ Z.of_nat split) (value v)).
    change field_order with bls_order in *. nia.
Qed.
Next Obligation.
  intros u b [<- Hb]. apply guarded_ok; [by apply is_byteb_spec|by apply ok_ret].
Qed.
Next Obligation.
  intros u Hb. apply guarded_rejects. rewrite <- is_byteb_spec in Hb. by destruct is_byteb.
Qed.
Next Obligation.
  intros v Hb. apply guarded_ok; [by apply is_byteb_spec|by apply ok_ret].
Qed.
Next Obligation.
  intros u Hb. apply guarded_rejects. rewrite <- is_byteb_spec in Hb. by destruct is_byteb.
Qed.
Next Obligation.
  intros v Hv. apply guarded_ok; [by apply Z.ltb_lt|].
  apply word_ok; [pose proof (value_range v); lia|done].
Qed.
Next Obligation. intros v Hv. by apply guarded_rejects, Z.ltb_ge. Qed.
Next Obligation.
  intros w z Hw. destruct (word_is_wordb _ _ Hw) as [Hb ->]. apply guarded_ok; [done|].
  apply ok_ret, value_wire. pose proof (word_is_range _ _ Hw). lia.
Qed.
Next Obligation.
  intros w _ Hb. apply guarded_rejects. rewrite <- wordb_spec in Hb. by destruct wordb.
Qed.
Next Obligation.
  intros ws zs _ Hws. destruct (words_are _ _ Hws) as (Hb & -> & Hz).
  apply guarded_ok; [done|]. apply word_ok; [by apply words_xor_range|done].
Qed.
Next Obligation.
  intros v w y z Hv Hw.
  destruct (word_is_wordb _ _ Hv) as [-> ->], (word_is_wordb _ _ Hw) as [-> ->].
  apply guarded_ok; [done|].
  apply word_ok; [apply land_range; [lia|by eapply word_is_range..]|done].
Qed.
Next Obligation.
  intros w z n Hw Hn. destruct (word_is_wordb _ _ Hw) as [-> ->]. apply guarded_ok; [done|].
  apply word_ok; [|done]. apply lor_range; [lia|by apply Z.mod_pos_bound|].
  apply shiftr_range; [lia..|by eapply word_is_range].
Qed.
Next Obligation.
  intros u v a b [<- Ha] [<- Hb]. pose proof Ha as ->%is_byteb_spec.
  pose proof Hb as ->%is_byteb_spec. apply guarded_ok; [done|]. apply ok_ret.
  assert (is_byte (Z.lxor (value u) (value v))) as Hx by (by apply (lxor_range 8)).
  split; [|done]. apply value_wire. unfold is_digit in Hx. lia.
Qed.
Next Obligation.
  intros u v Hb. apply guarded_rejects. rewrite <- is_byteb_spec in Hb. by destruct is_byteb.
Qed.
Next Obligation. intros us. apply (map_rev value). Qed.
Next Obligation. done. Qed.
Next Obligation. intros w. apply (map_rev value). Qed.
Next Obligation. done. Qed.
