(* ===== verification/CkdArith.v ===== *)
(** * Child-key arithmetic: [internal/circuit/ckd/adder.go] and [encoding.go]

    The byte-limb adders for the two scalar halves of a derivation step, the
    canonical bit vectors, the index serialisation and the master clamp.  Each
    gadget is proved equivalent to the integer computation it stands for: every
    accepted prover ends with that integer, the honest prover is accepted, and
    inputs outside the gadget's domain are rejected. *)
From S2P Require Import Prelude.
From S2P Require Import Gnark.

#[export] Instance var_inhabited `{Field} : Inhabited var := populate (constant 0).

Section adder.
Context `{Gadgets}.

Definition splitByteHint (inputs : list Z) : option (list Z) :=
  match inputs with
  | [v] => Some [Z.land v 255; Z.shiftr v 8]
  | _ => None
  end.

Definition splitByte (v : var) (carryBits : nat) : Circuit (var * var) :=
  out ← NewHint splitByteHint 2 [v];
  match out with
  | [lo; carry] =>
      _ ← api_AssertIsEqual v (api_Add lo (api_Mul carry (constant 256)));
      _ ← rc_Check lo 8;
      _ ← rc_Check carry carryBits;
      mret (lo, carry)
  | _ => circuit_panic
  end.

Definition AddKL (kLpar zL : list U8) : Circuit (list U8) :=
  '(out, carry) ← for_range 0 32 (λ k '(out, carry),
     let z := if (k <? 28)%nat then zL !!! k else constant 0 in
     let v := api_Add (api_Add (kLpar !!! k) (api_Mul z (constant 8))) carry in
     '(lo, c) ← splitByte v 4;
     mret (out ++ [lo], c)) ([], constant 0);
  _ ← api_AssertIsEqual carry (constant 0);
  mret out.

Definition AddKR (kRpar zR : list U8) : Circuit (list U8) :=
  '(out, carry) ← for_range 0 32 (λ k '(out, carry),
     let v := api_Add (api_Add (kRpar !!! k) (zR !!! k)) carry in
     '(lo, c) ← splitByte v 1;
     mret (out ++ [lo], c)) ([], constant 0);
  mret out.
End adder.

Section encoding.
Context `{Gadgets}.

Definition le32Var (idx : var) (hardened : bool) : Circuit (list U8) :=
  bits ← api_ToBinary idx 31;
  let full := bits ++ [if hardened then constant 1 else constant 0] in
  mret ((λ k, api_FromBinary (take 8 (drop (8 * k) full))) <$> seq 0 4).

Definition BytesToCanonBits (b : list U8) : Circuit (list var) :=
  canon ← for_range 0 32 (λ k canon,
     bits ← api_ToBinary (b !!! k) 8; mret (canon ++ bits)) [];
  _ ← api_AssertIsEqual (canon !!! 255%nat) (constant 0);
  mret canon.

Definition CanonBitsToBytes (bits : list var) : list U8 :=
  (λ k, api_FromBinary (take 8 (drop (8 * k) bits))) <$> seq 0 32.

Definition AssertClampBits (bits : list var) : Circuit unit :=
  _ ← api_AssertIsEqual (bits !!! 0%nat) (constant 0);
  _ ← api_AssertIsEqual (bits !!! 1%nat) (constant 0);
  _ ← api_AssertIsEqual (bits !!! 2%nat) (constant 0);
  _ ← api_AssertIsEqual (bits !!! 253%nat) (constant 0);
  _ ← api_AssertIsEqual (bits !!! 254%nat) (constant 1);
  api_AssertIsEqual (bits !!! 255%nat) (constant 0).

Definition AssertClamp (kL : list U8) : Circuit unit :=
  bits ← BytesToCanonBits kL; AssertClampBits bits.
End encoding.

(** ** The column split *)

Section adder_proofs.
Context `{Gadgets}.

Lemma Check_sound v n : (0 < n)%nat → Z.of_nat n < FieldBitLen →
  Sound (rc_Check v n) (λ _, value v < 2 ^ Z.of_nat n).
Proof.
  intros Hn Hb. destruct (Z.lt_ge_cases (value v) (2 ^ Z.of_nat n)) as [Hv|Hv].
  - by intros t a t' _.
  - by apply Sound_rejects, Check_rejects.
Qed.

Lemma value_split lo carry n : value lo < 2 ^ 8 → value carry < 2 ^ Z.of_nat n → (n <= 8)%nat →
  value (api_Add lo (api_Mul carry (constant 256))) = value lo + 256 * value carry.
Proof.
  intros Hlo Hc Hn. pose proof (value_range carry). pose proof (value_range lo).
  assert (2 ^ Z.of_nat n <= 2 ^ 8) by (apply Z.pow_le_mono_r; lia).
  assert (value (api_Mul carry (constant 256)) = value carry * 256) as Hm.
  { rewrite value_Mul_small; rewrite value_constant_small; lia. }
  rewrite value_Add_small; rewrite Hm; lia.
Qed.

Lemma splitByte_sound v n : (0 < n <= 8)%nat →
  Sound (splitByte v n) (λ '(lo, c), value lo = value v mod 256 ∧ value c = value v / 256
                                     ∧ value c < 2 ^ Z.of_nat n).
Proof.
  intros Hn. pose proof field_large.
  eapply Sound_bind; [apply Sound_NewHint|].
  intros [|lo [|carry [|]]] Hlen; try done.
  eapply Sound_bind; [apply Sound_assert_equal|]. intros [] Heq.
  eapply Sound_bind; [apply Check_sound; lia|]. intros [] Hlo.
  eapply Sound_bind; [apply Check_sound; lia|]. intros [] Hc.
  apply ok_ret. rewrite (value_split _ _ n) in Heq by (done || lia).
  pose proof (value_range lo). rewrite Heq, Z.add_comm, Z.mul_comm.
  rewrite Z.div_add_l, (Z.div_small (value lo)) by lia.
  rewrite Z.add_comm, Z.mod_add, Z.mod_small by lia. lia.
Qed.

Lemma splitByte_ok v n : (0 < n <= 8)%nat → value v < 256 * 2 ^ Z.of_nat n →
  circuit_ok (splitByte v n) (λ '(lo, c), value lo = value v mod 256 ∧ value c = value v / 256).
Proof.
  intros Hn Hv. split.
  { eapply Sound_weaken; [by apply splitByte_sound|]. intros [lo c]; tauto. }
  pose proof field_large. pose proof (value_range v).
  assert (2 ^ Z.of_nat n <= 2 ^ 8) by (apply Z.pow_le_mono_r; lia).
  assert (0 <= value v mod 256 < 2 ^ 8) by (apply Z.mod_pos_bound; lia).
  assert (value v / 256 < 2 ^ Z.of_nat n) by (apply Z.div_lt_upper_bound; lia).
  assert (0 <= value v / 256) by (apply Z.div_pos; lia).
  eapply Accepts_bind; [by apply Accepts_NewHint|]. intros ? ->.
  rewrite !fmap_cons, fmap_nil.
  change (Z.land (value v) 255) with (Z.land (value v) (Z.ones 8)).
  rewrite Z.land_ones, Z.shiftr_div_pow2 by lia.
  change (2 ^ 8) with 256 in *.
  eapply Accepts_bind.
  { apply ok_assert_equal with (R := λ _, True); [|done].
    rewrite (value_split _ _ n); rewrite ?value_constant_small by lia; [|lia..].
    pose proof (Z.div_mod (value v) 256). lia. }
  intros [] _. eapply Accepts_bind.
  { apply Check_ok; [lia..|]. rewrite value_constant_small; simpl; lia. }
  intros [] _. eapply Accepts_bind.
  { apply Check_ok; [lia..|]. rewrite value_constant_small; lia. }
  intros [] _. apply ok_ret. rewrite !value_constant_small by lia. done.
Qed.
End adder_proofs.

(** ** The ripple adders *)

Section ripple.
Context `{Gadgets}.
(** [cols] are the integer column sums before carries, [vcol k carry] the wire the
    source builds for column [k], [n] the carry width and [cmax] its bound. *)
Context (cols : list Z) (vcol : nat → var → var) (n : nat) (cmax : Z).
Context (Hn : (0 < n <= 8)%nat) (Hcols : length cols = 32%nat) (Hcmax : 0 <= cmax).
Context (Hvcol : ∀ k c carry, cols !! k = Some c → value carry <= cmax →
  value (vcol k carry) = c + value carry).
Context (Hbound : ∀ c, c ∈ cols → 0 <= c ∧ c + cmax < 256 * 2 ^ Z.of_nat n ∧
  (c + cmax) / 256 <= cmax).

Definition ripple_body (k : nat) (st : list var * var) : Circuit (list var * var) :=
  let '(out, carry) := st in
  '(lo, c) ← splitByte (vcol k carry) n; mret (out ++ [lo], c).

Definition ripple_inv (k : nat) (st : list var * var) : Prop :=
  let s := digits_val 256 (take k cols) in
  value <$> st.1 = le_bytes k s ∧ value st.2 = s / 256 ^ Z.of_nat k ∧ value st.2 <= cmax.

Lemma ripple_step k st :
  (k < 32)%nat → ripple_inv k st → circuit_ok (ripple_body k st) (ripple_inv (S k)).
Proof.
  intros Hk. destruct st as [out carry]. intros (Hout & Hcarry & Hle).
  cbn [fst snd] in Hout, Hcarry, Hle.
  destruct (lookup_lt_is_Some_2 cols k) as [c Hc]; [lia|].
  destruct (Hbound c) as (Hc0 & Hc1 & Hc2); [by eapply list_elem_of_lookup_2|].
  pose proof (Hvcol _ _ _ Hc Hle) as Hv.
  destruct (ripple_digits 256 cols k c ltac:(lia) Hc) as [Hd Hq].
  eapply ok_bind; [apply splitByte_ok; [done|]; simpl in *; lia|].
  intros [lo c'] [Hlo Hc']. apply ok_ret. rewrite Hv in Hlo, Hc'.
  unfold ripple_inv. cbn [fst snd].
  rewrite Hd, Hq, fmap_app, Hout, fmap_cons, fmap_nil, Hlo, Hc', Hcarry.
  rewrite (Z.add_comm c). repeat split.
  etransitivity; [|exact Hc2]. rewrite <- Hcarry. apply Z.div_le_mono; lia.
Qed.

Lemma ripple_ok z : value z = 0 →
  circuit_ok (for_range 0 32 ripple_body ([], z))
    (λ '(out, carry), value <$> out = le_bytes 32 (digits_val 256 cols) ∧
                      value carry = digits_val 256 cols / 256 ^ 32).
Proof.
  intros Hz.
  eapply ok_weaken.
  - apply (ok_for ripple_inv); [|intros k st Hk; apply ripple_step; lia].
    unfold ripple_inv. cbn [fst snd]. by rewrite Hz.
  - intros [out carry] (Hout & Hcarry & _). cbn [fst snd Nat.add] in *.
    rewrite take_ge in Hout, Hcarry by lia. done.
Qed.
End ripple.

Section adder_theorems.
Context `{Gadgets}.

Lemma digits_val_zip_add r xs ys m :
  length xs = length ys →
  digits_val r (zip_with (λ x y, x + m * y) xs ys) = digits_val r xs + m * digits_val r ys.
Proof.
  revert ys; induction xs as [|x xs IH]; intros [|y ys] E; simplify_eq/=; [lia|].
  rewrite IH by done. ring.
Qed.

Lemma digits_val_pad r ds k : digits_val r (ds ++ replicate k 0) = digits_val r ds.
Proof.
  rewrite digits_val_app. assert (digits_val r (replicate k 0) = 0) as ->; [|lia].
  induction k as [|k IH]; cbn [replicate digits_val]; [done|]. rewrite IH. lia.
Qed.

Lemma bytes_are_lookup us bs k b :
  bytes_are us bs → bs !! k = Some b → value (us !!! k) = b ∧ is_byte b.
Proof.
  intros [<- Hb] Hk. pose proof (Forall_lookup_1 _ _ _ _ Hb Hk) as Hbb.
  rewrite list_lookup_fmap in Hk.
  destruct (us !! k) as [u|] eqn:Hu; simplify_eq/=. by rewrite (list_lookup_total_correct _ _ _ Hu).
Qed.

(** The columns of [AddKL]: [kL + 8 * (zL padded to 32 bytes)]. *)
Definition kl_cols (kls zls : list Z) : list Z :=
  zip_with (λ x y, x + 8 * y) kls (zls ++ replicate 4 0).

Section kl.
Context (kLpar zL : list U8) (kls zls : list Z).
Context (Hk : bytes_are kLpar kls) (Hz : bytes_are zL zls).
Context (Lk : length kls = 32%nat) (Lz : length zls = 28%nat).

Let kl_vcol k carry :=
  api_Add (api_Add (kLpar !!! k)
    (api_Mul (if (k <? 28)%nat then zL !!! k else constant 0) (constant 8))) carry.

Lemma kl_cols_val : digits_val 256 (kl_cols kls zls) = le_val kls + 8 * le_val zls.
Proof.
  unfold kl_cols. rewrite digits_val_zip_add, digits_val_pad; [done|].
  rewrite length_app, length_replicate. lia.
Qed.

Lemma kl_cols_lookup k c : kl_cols kls zls !! k = Some c →
  ∃ a b, kls !! k = Some a ∧ c = a + 8 * b ∧ is_byte b ∧ value (kLpar !!! k) = a ∧ is_byte a ∧
         value (if (k <? 28)%nat then zL !!! k else constant 0) = b.
Proof.
  unfold kl_cols. rewrite lookup_zip_with_Some. intros (a & b & -> & Ha & Hb).
  destruct (bytes_are_lookup _ _ _ _ Hk Ha) as [Ha1 Ha2].
  exists a, b. do 2 (split; [done|]).
  destruct (Nat.ltb_spec k 28).
  - rewrite lookup_app_l in Hb by lia.
    by destruct (bytes_are_lookup _ _ _ _ Hz Hb).
  - rewrite lookup_app_r in Hb by lia. apply lookup_replicate in Hb as [-> _].
    by rewrite value_constant_small.
Qed.

Lemma kl_ripple : circuit_ok
  (for_range 0 32 (ripple_body kl_vcol 4) ([], constant 0))
  (λ '(out, carry), value <$> out = le_bytes 32 (le_val kls + 8 * le_val zls) ∧
                    value carry = (le_val kls + 8 * le_val zls) / 256 ^ 32).
Proof.
  rewrite <- kl_cols_val.
  apply (ripple_ok _ _ 4 9); [lia| |lia| | |by apply value_constant_small].
  - unfold kl_cols. rewrite length_zip_with, length_app, length_replicate. lia.
  - intros k c carry Hc Hcarry. apply kl_cols_lookup in Hc as (a & b & _ & -> & Hb & Ha & Hab & Hv).
    unfold kl_vcol, is_digit in *. pose proof (value_range carry).
    assert (value (api_Mul (if (k <? 28)%nat then zL !!! k else constant 0) (constant 8)) = 8 * b) as Hm.
    { rewrite value_Mul_small; rewrite value_constant_small, Hv; lia. }
    rewrite !value_Add_small; rewrite ?Hm, ?Ha; try lia.
    rewrite value_Add_small; rewrite ?Hm, ?Ha; lia.
  - intros c [k Hc]%list_elem_of_lookup.
    apply kl_cols_lookup in Hc as (a & b & _ & -> & Hb & _ & Ha & _). unfold is_digit in *.
    change (2 ^ Z.of_nat 4) with 16.
    repeat split; [lia..|]. apply Z.lt_succ_r, Z.div_lt_upper_bound; lia.
Qed.
End kl.
Section kr.
Context (kRpar zR : list U8) (krs zrs : list Z).
Context (Hk : bytes_are kRpar krs) (Hz : bytes_are zR zrs).
Context (Lk : length krs = 32%nat) (Lz : length zrs = 32%nat).

Let kr_vcol k carry := api_Add (api_Add (kRpar !!! k) (zR !!! k)) carry.

Lemma kr_ripple : circuit_ok
  (for_range 0 32 (ripple_body kr_vcol 1) ([], constant 0))
  (λ '(out, carry), value <$> out = le_bytes 32 (le_val krs + le_val zrs) ∧
                    value carry = (le_val krs + le_val zrs) / 256 ^ 32).
Proof.
  replace (le_val krs + le_val zrs) with (le_val krs + 1 * le_val zrs) by lia.
  rewrite <- digits_val_zip_add by lia.
  assert (∀ k c, zip_with (λ x y, x + 1 * y) krs zrs !! k = Some c →
    ∃ a b, c = a + b ∧ value (kRpar !!! k) = a ∧ value (zR !!! k) = b ∧
           is_byte a ∧ is_byte b) as Hcols.
  { intros k c (a & b & -> & Ha & Hb)%lookup_zip_with_Some.
    destruct (bytes_are_lookup _ _ _ _ Hk Ha), (bytes_are_lookup _ _ _ _ Hz Hb).
    exists a, b. split; [lia|done]. }
  apply (ripple_ok _ _ 1 1); [lia| |lia| | |by apply value_constant_small].
  - rewrite length_zip_with. lia.
  - intros k c carry Hc Hcarry. apply Hcols in Hc as (a & b & -> & Ha & Hb & Hab & Hbb).
    unfold kr_vcol, is_digit in *. pose proof (value_range carry).
    rewrite !value_Add_small; rewrite ?value_Add_small, ?Ha, ?Hb; lia.
  - intros c [k Hc]%list_elem_of_lookup. apply Hcols in Hc as (a & b & -> & _ & _ & Ha & Hb).
    unfold is_digit in *. change (2 ^ Z.of_nat 1) with 2.
    repeat split; [lia..|]. apply Z.lt_succ_r, Z.div_lt_upper_bound; lia.
Qed.
End kr.

Lemma AddKL_cases kLpar zL kls zls :
  bytes_are kLpar kls → bytes_are zL zls → length kls = 32%nat → length zls = 28%nat →
  let sum := le_val kls + 8 * le_val zls in
  (sum < 2 ^ 256 → circuit_ok (AddKL kLpar zL) (λ out, bytes_are out (le_bytes 32 sum))) ∧
  (2 ^ 256 <= sum → rejects (AddKL kLpar zL)).
Proof.
  intros Hk Hz Lk Lz sum.
  pose proof (kl_ripple _ _ _ _ Hk Hz Lk Lz) as Hr. fold sum in Hr.
  assert (0 <= sum).
  { destruct Hk as [_ Hk], Hz as [_ Hz].
    pose proof (digits_val_bound 256 ltac:(lia) _ Hk).
    pose proof (digits_val_bound 256 ltac:(lia) _ Hz). lia. }
  split; intros Hs.
  - eapply ok_bind; [exact Hr|]. intros [out carry] [Hout Hcarry].
    eapply ok_bind; [apply (ok_assert_equal _ _ (λ _, True)); [|done]|].
    + rewrite Hcarry, value_constant_small by lia. apply Z.div_small. lia.
    + intros [] _. apply ok_ret. split; [done|auto with bytes].
  - eapply rejects_bind; [apply Hr|]. intros [out carry] [Hout Hcarry].
    apply rejects_bind_l, rejects_assert_equal.
    rewrite Hcarry, value_constant_small by lia.
    assert (1 <= sum / 256 ^ 32); [|lia]. by apply Z.div_le_lower_bound.
Qed.

Lemma AddKR_ok kRpar zR krs zrs :
  bytes_are kRpar krs → bytes_are zR zrs → length krs = 32%nat → length zrs = 32%nat →
  circuit_ok (AddKR kRpar zR)
    (λ out, bytes_are out (le_bytes 32 ((le_val krs + le_val zrs) mod 2 ^ 256))).
Proof.
  intros Hk Hz Lk Lz. eapply ok_bind; [exact (kr_ripple _ _ _ _ Hk Hz Lk Lz)|].
  intros [out carry] [Hout _]. apply ok_ret. split; [|auto with bytes].
  rewrite Hout. symmetry. apply (digits_mod 256 ltac:(lia) 32).
Qed.

(** The two halves of a child scalar are exact integer arithmetic on bytes.  For
    every prover [AddKL] outputs the 32 little-endian bytes of [kL + 8 * zL], with
    no reduction modulo the group order, and no prover is accepted when that
    integer needs more than 256 bits; [AddKR] outputs [kR + zR] modulo [2^256]. *)
Theorem child_scalars_exact kL kR zL zR kls krs zls zrs :
  bytes_are kL kls → bytes_are kR krs → bytes_are zL zls → bytes_are zR zrs →
  length kls = 32%nat → length krs = 32%nat → length zls = 28%nat → length zrs = 32%nat →
  let sum := le_val kls + 8 * le_val zls in
  (sum < 2 ^ 256 → circuit_ok (AddKL kL zL) (λ out, bytes_are out (le_bytes 32 sum))) ∧
  (2 ^ 256 <= sum → rejects (AddKL kL zL)) ∧
  circuit_ok (AddKR kR zR)
    (λ out, bytes_are out (le_bytes 32 ((le_val krs + le_val zrs) mod 2 ^ 256))).
Proof.
  intros. pose proof (AddKL_cases kL zL kls zls) as [Hok Hrej]; try done.
  repeat split_and; [done|done|by apply AddKR_ok].
Qed.
End adder_theorems.

(** ** Bit vectors, indices and the master clamp *)

Section encoding_theorems.
Context `{Gadgets}.

(** The Icarus clamp of a scalar: bits 0, 1, 2, 253 and 255 clear, bit 254 set. *)
Definition icarus_clamped (z : Z) : Prop := z mod 8 = 0 ∧ z / 2 ^ 253 = 2.

Lemma value_lookup_total (us : list var) k z :
  (value <$> us) !! k = Some z → value (us !!! k) = z.
Proof.
  rewrite list_lookup_fmap. destruct (us !! k) as [u|] eqn:Hu; [|done].
  rewrite (list_lookup_total_correct _ _ _ Hu). intros. by simplify_eq/=.
Qed.

Lemma canon_bit bits z k : (k < 256)%nat → value <$> bits = bits_of 256 z →
  value (bits !!! k) = (z / 2 ^ Z.of_nat k) mod 2.
Proof. intros Hk Hb. apply value_lookup_total. rewrite Hb, digits_lookup by lia. done. Qed.

Lemma FromBinary_window n bits z k : (8 * k + 8 <= n)%nat → value <$> bits = bits_of n z →
  value (api_FromBinary (take 8 (drop (8 * k) bits))) = (z / 256 ^ Z.of_nat k) mod 256.
Proof.
  intros Hk Hb.
  assert (value <$> take 8 (drop (8 * k) bits) = bits_of 8 (z / 256 ^ Z.of_nat k)) as Hw.
  { rewrite fmap_take, fmap_drop, Hb, take_drop_digits by lia.
    by rewrite pow256. }
  rewrite FromBinary_val.
  - by rewrite Hw, digits_val_digits by lia.
  - rewrite Hw. apply digits_are_digits. lia.
  - apply (f_equal length) in Hw. rewrite length_fmap, length_digits in Hw. lia.
Qed.

Lemma FromBinary_bytes n bits z : value <$> bits = bits_of (8 * n) z →
  bytes_are ((λ k, api_FromBinary (take 8 (drop (8 * k) bits))) <$> seq 0 n) (le_bytes n z).
Proof.
  intros Hb. split; [|auto with bytes]. rewrite <- list_fmap_compose, digits_seq by lia.
  apply list_fmap_ext. intros i k [-> Hi]%lookup_seq. simpl.
  apply (FromBinary_window (8 * n)); [lia|done].
Qed.

Lemma le32Var_cases idx hardened :
  (value idx < 2 ^ 31 → circuit_ok (le32Var idx hardened) (λ out,
     bytes_are out (le_bytes 4 (value idx + if hardened then 2 ^ 31 else 0)))) ∧
  (2 ^ 31 <= value idx → rejects (le32Var idx hardened)).
Proof.
  pose proof field_large. pose proof (value_range idx). split; intros Hv.
  - eapply ok_bind; [by apply ToBinary_ok; [lia|]|]. intros bits Hbits.
    apply ok_ret, FromBinary_bytes. rewrite fmap_app, Hbits.
    change (8 * 4)%nat with (31 + 1)%nat.
    replace (if hardened then 2 ^ 31 else 0) with (2 ^ Z.of_nat 31 * if hardened then 1 else 0)
      by by destruct hardened.
    rewrite digits_add_high by (simpl; lia). f_equal.
    destruct hardened; cbn; by rewrite value_constant_small.
  - apply rejects_bind_l, ToBinary_rejects; [lia|done].
Qed.

Definition canon_inv (bs : list Z) (k : nat) (canon : list var) : Prop :=
  value <$> canon = bits_of (8 * k) (le_val (take k bs)).

Lemma canon_loop b bs : bytes_are b bs → length bs = 32%nat →
  circuit_ok (for_range 0 32 (λ k canon,
      bits ← api_ToBinary (b !!! k) 8; mret (canon ++ bits)) [])
    (λ canon, value <$> canon = bits_of 256 (le_val bs)).
Proof.
  intros Hb Hl. pose proof field_large.
  eapply ok_weaken.
  - apply (ok_for (canon_inv bs)); [done|]. intros k canon Hk Hcanon.
    destruct (lookup_lt_is_Some_2 bs k) as [d Hd]; [lia|].
    destruct (bytes_are_lookup _ _ _ _ Hb Hd) as [Hv Hd8].
    eapply ok_bind; [apply ToBinary_ok; [lia|]; rewrite Hv; apply Hd8|].
    intros bits Hbits. apply ok_ret. unfold canon_inv in *.
    assert (length (take k bs) = k) as Hlk by (rewrite length_take; lia).
    rewrite fmap_app, Hcanon, Hbits, Hv, (take_S_r _ _ d Hd), digits_val_app, Hlk.
    replace (8 * S k)%nat with (8 * k + 8)%nat by lia. cbn [digits_val].
    rewrite pow256, digits_add_high; [do 3 f_equal; lia|lia|].
    destruct Hb as [_ Hb].
    pose proof (digits_val_bound 256 ltac:(lia) _ (Forall_take _ k _ Hb)) as Hx.
    by rewrite Hlk, pow256 in Hx.
  - intros canon Hc. unfold canon_inv in Hc. by rewrite take_ge in Hc by lia.
Qed.

Lemma lor_hardened z : 0 <= z < 2 ^ 31 → Z.lor z 0x80000000 = z + 2 ^ 31.
Proof.
  intros Hz. rewrite <- Z.lxor_lor, <- Z.add_nocarry_lxor; [done| |];
    apply Z.bits_inj'; intros n Hn; rewrite Z.land_spec, Z.bits_0;
    change 0x80000000 with (2 ^ 31); rewrite Z.pow2_bits_eqb by lia;
    destruct (Z.eqb_spec 31 n) as [<-|]; rewrite ?andb_false_r, ?andb_true_r; try done;
    by apply (testbit_high 31).
Qed.

Lemma icarus_clamped_lt z : icarus_clamped z → z < 2 ^ 255.
Proof.
  intros [_ Hc]. pose proof (Z.div_mod z (2 ^ 253) ltac:(lia)) as Hd.
  pose proof (Z.mod_pos_bound z (2 ^ 253) ltac:(lia)). lia.
Qed.

Lemma top_bit z : 0 <= z < 2 ^ 256 → (z / 2 ^ 255) mod 2 = 0 ↔ z < 2 ^ 255.
Proof.
  intros Hz. assert (0 <= z / 2 ^ 255 < 2).
  { split; [apply Z.div_pos; lia|apply Z.div_lt_upper_bound; lia]. }
  rewrite Z.mod_small by done. split; intros Hlt.
  - apply Z.div_small_iff in Hlt; lia.
  - apply Z.div_small. lia.
Qed.

Lemma BytesToCanonBits_cases b :
  length b = 32%nat →
  let z := le_val (value <$> b) in
  (Forall is_byte (value <$> b) → z < 2 ^ 255 →
     circuit_ok (BytesToCanonBits b) (λ canon, value <$> canon = bits_of 256 z)) ∧
  (¬ (Forall is_byte (value <$> b) ∧ z < 2 ^ 255) → rejects (BytesToCanonBits b)).
Proof.
  intros Hl z. pose proof field_large.
  assert (length (value <$> b) = 32%nat) as Hlv by by rewrite length_fmap.
  destruct (decide (Forall is_byte (value <$> b))) as [Hb|Hb].
  - pose proof (canon_loop b _ (conj eq_refl Hb) Hlv) as Hloop. fold z in Hloop.
    pose proof (digits_val_bound 256 ltac:(lia) _ Hb) as Hz. rewrite Hlv in Hz.
    change (256 ^ Z.of_nat 32) with (2 ^ 256) in Hz. fold z in Hz.
    split.
    + intros _ Hz'. eapply ok_bind; [exact Hloop|]. intros canon Hc.
      eapply ok_bind; [|intros; by apply ok_ret].
      apply (ok_assert_equal _ _ (λ _, True)); [|done].
      rewrite (canon_bit _ z) by (done || lia). rewrite value_constant_small by lia.
      by apply top_bit.
    + intros Hneg. eapply rejects_bind; [apply Hloop|]. intros canon Hc.
      apply rejects_bind_l, rejects_assert_equal.
      rewrite (canon_bit _ z) by (done || lia). rewrite value_constant_small by lia.
      intros Htop. apply Hneg. split; [done|]. by apply top_bit.
  - split; [done|]. intros _. apply rejects_bind_l.
    apply not_Forall_Exists in Hb; [|solve_decision].
    apply Exists_exists in Hb as (v & [k Hk]%list_elem_of_lookup & Hv).
    pose proof (lookup_lt_Some _ _ _ Hk) as Hlt. rewrite Hlv in Hlt.
    apply (rejects_for (λ _ _, True) _ _ _ _ k); [lia|done|by intros ? ? _ _ ? ?|].
    intros s _. apply rejects_bind_l, ToBinary_rejects; [lia|].
    rewrite (value_lookup_total _ _ _ Hk). unfold compose, is_digit in Hv.
    apply value_lookup_total in Hk. pose proof (value_range (b !!! k)).
    change (2 ^ Z.of_nat 8) with 256. lia.
Qed.

Lemma low3_clear z :
  (z / 2 ^ 0) mod 2 = 0 ∧ (z / 2 ^ 1) mod 2 = 0 ∧ (z / 2 ^ 2) mod 2 = 0 ↔ z mod 8 = 0.
Proof. change (2 ^ 0) with 1. change (2 ^ 1) with 2. change (2 ^ 2) with 4. Z.div_mod_to_equations. lia. Qed.

Lemma top3_bits z : 0 <= z < 2 ^ 256 →
  (z / 2 ^ 253) mod 2 = 0 ∧ (z / 2 ^ 254) mod 2 = 1 ∧ (z / 2 ^ 255) mod 2 = 0 ↔
  z / 2 ^ 253 = 2.
Proof.
  intros Hz. assert (0 <= z / 2 ^ 253 < 8) as Ht.
  { split; [apply Z.div_pos; lia|apply Z.div_lt_upper_bound; lia]. }
  replace (2 ^ 254) with (2 ^ 253 * 2) by lia. replace (2 ^ 255) with (2 ^ 253 * 4) by lia.
  rewrite <- !Z.div_div by lia. revert Ht. generalize (z / 2 ^ 253). intros t Ht.
  Z.div_mod_to_equations. lia.
Qed.

Lemma AssertClampBits_cases bits z :
  value <$> bits = bits_of 256 z → 0 <= z < 2 ^ 256 →
  (icarus_clamped z → circuit_ok (AssertClampBits bits) (λ _, True)) ∧
  (¬ icarus_clamped z → rejects (AssertClampBits bits)).
Proof.
  intros Hbits Hz. unfold icarus_clamped. rewrite <- low3_clear, <- top3_bits by done.
  pose proof (λ k Hk, canon_bit bits z k Hk Hbits) as Hbit.
  split.
  - intros ((B0 & B1 & B2) & B253 & B254 & B255). unfold AssertClampBits.
    repeat (eapply ok_bind; [apply (ok_assert_equal _ _ (λ _, True)); [|done];
      rewrite Hbit, value_constant_small by lia; done|intros [] _]).
    apply ok_assert_equal; [|done]. by rewrite Hbit, value_constant_small by lia.
  - intros Hn. apply rejects_False. unfold AssertClampBits.
    do 5 (eapply Sound_bind; [apply Sound_assert_equal|];
      intros [] ?%eq_sym; rewrite Hbit, value_constant_small in * by lia).
    eapply Sound_weaken; [apply Sound_assert_equal|]. intros [] ?%eq_sym.
    rewrite Hbit, value_constant_small in * by lia. apply Hn. auto 10.
Qed.

Lemma CanonBitsToBytes_is bits bs :
  Forall is_byte bs → length bs = 32%nat → value <$> bits = bits_of 256 (le_val bs) →
  bytes_are (CanonBitsToBytes bits) bs.
Proof.
  intros Hb Hl Hbits. pose proof (FromBinary_bytes 32 bits _ Hbits) as Hf.
  rewrite <- Hl, digits_digits_val in Hf by (done || lia). by rewrite Hl in Hf.
Qed.

(** [le32Var] serialises a witnessed index below [2^31] to the four
    little-endian bytes of [idx] or [idx | 0x80000000], the hardened bit being fixed
    by the circuit, and no prover is accepted with an index of [2^31] or more. *)
Theorem le32Var_exact idx hardened :
  (value idx < 2 ^ 31 → circuit_ok (le32Var idx hardened) (λ out,
     bytes_are out (le_bytes 4 (if hardened then Z.lor (value idx) 0x80000000 else value idx)))) ∧
  (2 ^ 31 <= value idx → rejects (le32Var idx hardened)).
Proof.
  destruct (le32Var_cases idx hardened) as [Hok Hrej]. split; [|done]. intros Hv.
  eapply ok_weaken; [by apply Hok|]. intros out Hout. pose proof (value_range idx).
  destruct hardened; [|by rewrite Z.add_0_r in Hout].
  rewrite lor_hardened; [done|lia].
Qed.

(** [BytesToCanonBits] outputs the 256 bits of the 32-byte little-endian scalar
    for every prover, from which [CanonBitsToBytes] recovers the bytes; it is
    unsatisfiable as soon as one wire is not a byte or bit 255 is set. *)
Theorem canonical_bits_roundtrip b :
  length b = 32%nat →
  let bs := value <$> b in
  (Forall is_byte bs ∧ le_val bs < 2 ^ 255 →
     circuit_ok (BytesToCanonBits b) (λ canon,
       value <$> canon = bits_of 256 (le_val bs) ∧ bytes_are (CanonBitsToBytes canon) bs)) ∧
  (¬ (Forall is_byte bs ∧ le_val bs < 2 ^ 255) → rejects (BytesToCanonBits b)).
Proof.
  intros Hl bs. destruct (BytesToCanonBits_cases b Hl) as [Hok Hrej]. split; [|done].
  intros [Hb Hlt]. eapply ok_weaken; [by apply Hok|]. intros canon Hc. split; [done|].
  apply CanonBitsToBytes_is; [done|unfold bs; by rewrite length_fmap|done].
Qed.

(** [AssertClamp] accepts exactly the 32-byte scalars that carry the Icarus
    master clamp: low three bits clear and top three bits 010. *)
Theorem AssertClamp_exact b : length b = 32%nat →
  let bs := value <$> b in
  let valid := Forall is_byte bs ∧ icarus_clamped (le_val bs) in
  (valid → circuit_ok (AssertClamp b) (λ _, True)) ∧ (¬ valid → rejects (AssertClamp b)).
Proof.
  intros Hl bs valid. destruct (BytesToCanonBits_cases b Hl) as [Hok Hrej].
  fold bs in Hok, Hrej. unfold AssertClamp.
  assert (∀ canon, Forall is_byte bs → value <$> canon = bits_of 256 (le_val bs) →
    0 <= le_val bs < 2 ^ 256) as Hr.
  { intros _ Hb _. pose proof (digits_val_bound 256 ltac:(lia) _ Hb) as Hz.
    unfold bs in Hz. by rewrite length_fmap, Hl in Hz. }
  split.
  - intros [Hb Hc]. pose proof (icarus_clamped_lt _ Hc).
    step (by apply Hok) as canon Hcanon.
    apply (AssertClampBits_cases canon (le_val bs)); eauto.
  - intros Hn. destruct (decide (Forall is_byte bs ∧ le_val bs < 2 ^ 255)) as [[Hb Hlt]|Hbad].
    + eapply rejects_bind; [by apply Hok|]. cbv beta. intros canon Hcanon.
      apply (AssertClampBits_cases canon (le_val bs)); [done|by eauto|].
      intros Hc. by apply Hn.
    + by apply rejects_bind_l, Hrej.
Qed.
End encoding_theorems.
