(* ===== verification/Sha512Spec.v ===== *)
(** * SHA-512 and HMAC-SHA512 on byte strings

    What the Go standard library's [crypto/sha512] and [crypto/hmac] compute
    (FIPS 180-4 and RFC 2104); [internal/circuit/sha512/sha/ref.go] wraps them.
    The circuit gadgets of [Sha512.v] are proved equal to these functions. *)
From S2P Require Import Prelude.

(** ** Words modulo [2^64] (FIPS 180-4, 2.2.2) *)

Definition w64 (x : Z) : Z := x mod 2 ^ 64.
Definition shr (n : Z) (x : Z) : Z := Z.shiftr x n.
Definition rotr (n : Z) (x : Z) : Z := Z.lor (Z.shiftr x n) (w64 (Z.shiftl x (64 - n))).
Definition lnot64 (x : Z) : Z := Z.lxor x (2 ^ 64 - 1).

Definition Ch (x y z : Z) : Z := Z.lxor (Z.land x y) (Z.land (lnot64 x) z).
Definition Maj (x y z : Z) : Z := Z.lxor (Z.land x y) (Z.lxor (Z.land x z) (Z.land y z)).
Definition bigSigma0 (x : Z) : Z := Z.lxor (rotr 28 x) (Z.lxor (rotr 34 x) (rotr 39 x)).
Definition bigSigma1 (x : Z) : Z := Z.lxor (rotr 14 x) (Z.lxor (rotr 18 x) (rotr 41 x)).
Definition smallSigma0 (x : Z) : Z := Z.lxor (rotr 1 x) (Z.lxor (rotr 8 x) (shr 7 x)).
Definition smallSigma1 (x : Z) : Z := Z.lxor (rotr 19 x) (Z.lxor (rotr 61 x) (shr 6 x)).

(** ** Constants (FIPS 180-4, 4.2.3 and 5.3.5) *)

Definition K512 : list Z := [
  0x428a2f98d728ae22; 0x7137449123ef65cd; 0xb5c0fbcfec4d3b2f; 0xe9b5dba58189dbbc;
  0x3956c25bf348b538; 0x59f111f1b605d019; 0x923f82a4af194f9b; 0xab1c5ed5da6d8118;
  0xd807aa98a3030242; 0x12835b0145706fbe; 0x243185be4ee4b28c; 0x550c7dc3d5ffb4e2;
  0x72be5d74f27b896f; 0x80deb1fe3b1696b1; 0x9bdc06a725c71235; 0xc19bf174cf692694;
  0xe49b69c19ef14ad2; 0xefbe4786384f25e3; 0x0fc19dc68b8cd5b5; 0x240ca1cc77ac9c65;
  0x2de92c6f592b0275; 0x4a7484aa6ea6e483; 0x5cb0a9dcbd41fbd4; 0x76f988da831153b5;
  0x983e5152ee66dfab; 0xa831c66d2db43210; 0xb00327c898fb213f; 0xbf597fc7beef0ee4;
  0xc6e00bf33da88fc2; 0xd5a79147930aa725; 0x06ca6351e003826f; 0x142929670a0e6e70;
  0x27b70a8546d22ffc; 0x2e1b21385c26c926; 0x4d2c6dfc5ac42aed; 0x53380d139d95b3df;
  0x650a73548baf63de; 0x766a0abb3c77b2a8; 0x81c2c92e47edaee6; 0x92722c851482353b;
  0xa2bfe8a14cf10364; 0xa81a664bbc423001; 0xc24b8b70d0f89791; 0xc76c51a30654be30;
  0xd192e819d6ef5218; 0xd69906245565a910; 0xf40e35855771202a; 0x106aa07032bbd1b8;
  0x19a4c116b8d2d0c8; 0x1e376c085141ab53; 0x2748774cdf8eeb99; 0x34b0bcb5e19b48a8;
  0x391c0cb3c5c95a63; 0x4ed8aa4ae3418acb; 0x5b9cca4f7763e373; 0x682e6ff3d6b2b8a3;
  0x748f82ee5defb2fc; 0x78a5636f43172f60; 0x84c87814a1f0ab72; 0x8cc702081a6439ec;
  0x90befffa23631e28; 0xa4506cebde82bde9; 0xbef9a3f7b2c67915; 0xc67178f2e372532b;
  0xca273eceea26619c; 0xd186b8c721c0c207; 0xeada7dd6cde0eb1e; 0xf57d4f7fee6ed178;
  0x06f067aa72176fba; 0x0a637dc5a2c898a6; 0x113f9804bef90dae; 0x1b710b35131c471b;
  0x28db77f523047d84; 0x32caab7b40c72493; 0x3c9ebe0a15c9bebc; 0x431d67c49c100d4c;
  0x4cc5d4becb3e42b6; 0x597f299cfc657e2a; 0x5fcb6fab3ad6faec; 0x6c44198c4a475817 ].

Definition seed512 : list Z := [
  0x6a09e667f3bcc908; 0xbb67ae8584caa73b; 0x3c6ef372fe94f82b; 0xa54ff53a5f1d36f1;
  0x510e527fade682d1; 0x9b05688c2b3e6c1f; 0x1f83d9abfb41bd6b; 0x5be0cd19137e2179 ].

Definition blockSize512 : nat := 128.

(** ** The compression function (FIPS 180-4, 6.4.2) *)

(** The eight working variables. *)
Record regs (A : Type) := Regs { ra : A; rb : A; rc : A; rd : A; re : A; rf : A; rg : A; rh : A }.
Arguments Regs {_} _ _ _ _ _ _ _ _.
Arguments ra {_} _. Arguments rb {_} _. Arguments rc {_} _. Arguments rd {_} _.
Arguments re {_} _. Arguments rf {_} _. Arguments rg {_} _. Arguments rh {_} _.

Definition regs_of_list {A} `{Inhabited A} (l : list A) : regs A :=
  Regs (l !!! 0%nat) (l !!! 1%nat) (l !!! 2%nat) (l !!! 3%nat)
       (l !!! 4%nat) (l !!! 5%nat) (l !!! 6%nat) (l !!! 7%nat).
Definition regs_to_list {A} (r : regs A) : list A :=
  [ra r; rb r; rc r; rd r; re r; rf r; rg r; rh r].

Definition schedule_step (i : nat) (w : list Z) : list Z :=
  w ++ [w64 (smallSigma1 (w !!! (i - 2)%nat) + w !!! (i - 7)%nat +
             smallSigma0 (w !!! (i - 15)%nat) + w !!! (i - 16)%nat)].

(** Sixteen big-endian words of the block, extended to eighty. *)
Definition schedule (block : list Z) : list Z :=
  loop_range 16 64 schedule_step
    ((λ i, be_val (take 8 (drop (8 * i) block))) <$> seq 0 16).

Definition round (w : list Z) (i : nat) (r : regs Z) : regs Z :=
  let t1 := rh r + bigSigma1 (re r) + Ch (re r) (rf r) (rg r) + K512 !!! i + w !!! i in
  let t2 := bigSigma0 (ra r) + Maj (ra r) (rb r) (rc r) in
  Regs (w64 (t1 + t2)) (ra r) (rb r) (rc r) (w64 (rd r + t1)) (re r) (rf r) (rg r).

Definition compress (h : list Z) (block : list Z) : list Z :=
  let w := schedule block in
  zip_with (λ x y, w64 (x + y)) h
    (regs_to_list (loop_range 0 80 (round w) (regs_of_list h))).

(** ** Padding and the hash (FIPS 180-4, 5.1.2 and 6.4) *)

Definition zero_pad_len (bytesLen : nat) : nat :=
  if (bytesLen `mod` 128 <=? 111)%nat then 111 - bytesLen `mod` 128
  else 239 - bytesLen `mod` 128.

(** The bytes that follow a message whose total length is [bytesLen]. *)
Definition pad_tail (bytesLen : nat) : list Z :=
  [0x80] ++ replicate (zero_pad_len bytesLen) 0 ++ be_bytes 16 (8 * Z.of_nat bytesLen).

(** Fold the compression function over the whole blocks of [data]. *)
Definition compress_blocks (n : nat) (data : list Z) (h : list Z) : list Z :=
  loop_range 0 n (λ i h, compress h (take 128 (drop (i * 128) data))) h.

Definition hash_padded (h : list Z) (data : list Z) : list Z :=
  concat (be_bytes 8 <$> compress_blocks (length data / 128) data h).

(** [sha512.Sum512] *)
Definition RefSHA512 (msg : list Z) : list Z :=
  hash_padded seed512 (msg ++ pad_tail (length msg)).

(** ** HMAC (RFC 2104) *)

Definition hmac_key (key : list Z) : list Z :=
  let k := if (128 <? length key)%nat then RefSHA512 key else key in
  k ++ replicate (128 - length k) 0.

(** [hmac.New(sha512.New, key)], [Write(msg)], [Sum] *)
Definition RefHMACSHA512 (key msg : list Z) : list Z :=
  let k0 := hmac_key key in
  RefSHA512 ((Z.lxor 0x5c <$> k0) ++ RefSHA512 ((Z.lxor 0x36 <$> k0) ++ msg)).

(** Known answer (FIPS 180-4 example "abc"). *)
Example sha512_abc : RefSHA512 [0x61; 0x62; 0x63] = be_bytes 64
  0xddaf35a193617abacc417349ae20413112e6fa4e89a97ea20a9eeee64b55d39a2192992a274fc1a836ba3c23a3feebbd454d4423643ce80e2a9ac94fa54ca49f.
Proof. vm_compute. reflexivity. Qed.
