(* ===== verification/Sha512.v ===== *)
(** * The SHA-512 and HMAC-SHA512 gadgets: [internal/circuit/sha512/sha]

    [gadget.go] and [add64.go] as circuits, and their equivalence with the hash and
    the MAC of [Sha512Spec.v]: every accepted prover ends with the digest of the
    input bytes and the honest prover is always accepted. *)
From stdpp Require Import sorting gmap.
From S2P Require Import Prelude.
From S2P Require Import Gnark.
From S2P Require Import CkdArith.
From S2P Require Import Sha512Spec.

(** ** add64.go *)

Section add64.
Context `{Gadgets}.

Fixpoint ToValues (words : list U64) : Circuit (list var) :=
  match words with
  | [] => mret []
  | w :: ws => v ← uapi_ToValue w; vs ← ToValues ws; mret (v :: vs)
  end.

Definition NativeSum64 (words : list U64) : Circuit var :=
  values ← ToValues words;
  match values with
  | [] => circuit_panic
  | v :: vs => mret (foldl api_Add v vs)
  end.

Definition Materialize64 (sum : var) (hiBits : nat) : Circuit U64 :=
  if (hiBits <? 1)%nat || (FieldBitLen <=? 64 + Z.of_nat hiBits) then circuit_panic else
  '(lo, hi) ← bitslice_Partition sum 64 (64 + hiBits);
  _ ← api_AssertIsEqual sum (api_Add lo (api_Mul (constant (2 ^ 64)) hi));
  _ ← rc_Check hi hiBits;
  uapi_ValueOf lo.

Definition Add64 (hiBits : nat) (words : list U64) : Circuit U64 :=
  sum ← NativeSum64 words; Materialize64 sum hiBits.
End add64.

(** ** gadget.go: rotations by chunk decomposition *)

Record sigmaByteChunks `{Field} := SigmaByteChunks {
  values : list var; widths : list nat; offsets : list nat }.
Record sigmaByteParts `{Field} := SigmaByteParts { pvalues : list var; pwidths : list nat }.

(** [None] is a panic while the circuit is built. *)
Definition sigmaCutPositions (rotations : list nat) (rightShift : nat) : option (list nat) :=
  if existsb (λ r, (r <=? 0)%nat || (64 <=? r)%nat) rotations then None else
  if (64 <=? rightShift)%nat then None else
  let cuts := filter (λ c, c ≠ 0%nat) ((λ r, r `mod` 8)%nat <$> rotations) in
  let seen : gset nat := list_to_set cuts in
  let seen := if (0 <? rightShift)%nat && negb (rightShift `mod` 8 =? 0)%nat
              then {[ (rightShift `mod` 8)%nat ]} ∪ seen else seen in
  Some (merge_sort Nat.le (elements seen)).

Fixpoint widthsFromCuts_from (previous : nat) (cuts : list nat) : option (list nat) :=
  match cuts with
  | [] => Some [(8 - previous)%nat]
  | cut :: cuts =>
      if (cut <=? previous)%nat || (8 <=? cut)%nat then None
      else ws ← widthsFromCuts_from cut cuts; Some ((cut - previous)%nat :: ws)
  end.
Definition widthsFromCuts (cuts : list nat) : option (list nat) := widthsFromCuts_from 0 cuts.

(** Chunk offsets; [None] unless the widths are positive and cover one byte. *)
Fixpoint chunk_offsets (offset : nat) (widths : list nat) : option (list nat) :=
  match widths with
  | [] => if (offset =? 8)%nat then Some [] else None
  | w :: ws => if (w <? 1)%nat || (8 <? offset + w)%nat then None
               else os ← chunk_offsets (offset + w) ws; Some (offset :: os)
  end.

Fixpoint sigmaChunks (value : Z) (totalWidth : nat) (widths : list Z) : option (list Z) :=
  match widths with
  | [] => if (totalWidth =? 8)%nat then Some [] else None
  | w :: ws =>
      if (w <? 1) || (8 <? Z.of_nat totalWidth + w) then None
      else os ← sigmaChunks (Z.shiftr value w) (totalWidth + Z.to_nat w) ws;
           Some (Z.land value (Z.shiftl 1 w - 1) :: os)
  end.

Definition sigmaChunksHint (inputs : list Z) : option (list Z) :=
  match inputs with
  | value :: widths => if (length widths =? 0)%nat then None else sigmaChunks value 0 widths
  | [] => None
  end.

Section sigma.
Context `{Gadgets}.

Definition decomposeSigmaByte (input : U8) (widths : list nat) : Circuit sigmaByteChunks :=
  inputValue ← uapi_Value input;
  match ConstantValue inputValue with
  | Some c =>
      match chunk_offsets 0 widths with
      | Some offsets =>
          let vals := zip_with (λ o w, constant
            (Z.land (Z.shiftr c (Z.of_nat o)) (Z.shiftl 1 (Z.of_nat w) - 1))) offsets widths in
          mret (SigmaByteChunks _ vals widths offsets)
      | None => circuit_panic
      end
  | None =>
      values ← NewHint sigmaChunksHint (length widths)
                 (inputValue :: ((λ w, constant (Z.of_nat w)) <$> widths));
      match chunk_offsets 0 widths with
      | Some offsets =>
          recomposition ← uapi_PackLSBConstrained values widths;
          recomposed ← uapi_Value recomposition;
          _ ← api_AssertIsEqual inputValue recomposed;
          mret (SigmaByteChunks _ values widths offsets)
      | None => circuit_panic
      end
  end.

(** [sigmaByteAtCut]: (lower, upper); [None] when the cut was not decomposed. *)
Fixpoint splitAtCut (cut : nat) (vs : list var) (ws os : list nat) :
    option (sigmaByteParts * sigmaByteParts) :=
  match vs, ws, os with
  | v :: vs, w :: ws, o :: os =>
      '(lower, upper) ← splitAtCut cut vs ws os;
      if (o + w <=? cut)%nat
      then Some (SigmaByteParts _ (v :: pvalues lower) (w :: pwidths lower), upper)
      else if (cut <=? o)%nat
      then Some (lower, SigmaByteParts _ (v :: pvalues upper) (w :: pwidths upper))
      else None
  | _, _, _ => Some (SigmaByteParts _ [] [], SigmaByteParts _ [] [])
  end.
Definition sigmaByteAtCut (chunks : sigmaByteChunks) (cut : nat) :
    Circuit (sigmaByteParts * sigmaByteParts) :=
  if (8 <? cut)%nat then circuit_panic else
  match splitAtCut cut (values chunks) (widths chunks) (offsets chunks) with
  | Some p => mret p
  | None => circuit_panic
  end.

Definition packSigmaByte (groups : list sigmaByteParts) : Circuit U8 :=
  uapi_PackLSBConstrained (concat (pvalues <$> groups)) (concat (pwidths <$> groups)).

Definition no_chunks : sigmaByteChunks := SigmaByteChunks _ [] [] [].
#[local] Instance chunks_inhabited : Inhabited sigmaByteChunks := populate no_chunks.

Definition rotateRightFromSigmaChunks (chunks : list sigmaByteChunks) (rotation : nat) :
    Circuit U64 :=
  let byteShift := (rotation / 8)%nat in
  let bitShift := (rotation `mod` 8)%nat in
  for_range 0 8 (λ i out,
    let source := ((i + byteShift) `mod` 8)%nat in
    if (bitShift =? 0)%nat then
      b ← uapi_PackLSBConstrained (values (chunks !!! source)) (widths (chunks !!! source));
      mret (out ++ [b])
    else
      let next := ((source + 1) `mod` 8)%nat in
      '(_, upper) ← sigmaByteAtCut (chunks !!! source) bitShift;
      '(lower, _) ← sigmaByteAtCut (chunks !!! next) bitShift;
      b ← packSigmaByte [upper; lower];
      mret (out ++ [b])) [].

Definition shiftRightFromSigmaChunks (chunks : list sigmaByteChunks) (shift : nat) :
    Circuit U64 :=
  let byteShift := (shift / 8)%nat in
  let bitShift := (shift `mod` 8)%nat in
  for_range 0 8 (λ i out,
    let source := (i + byteShift)%nat in
    if (8 <=? source)%nat then mret (out ++ [NewU8 0])
    else if (bitShift =? 0)%nat then
      b ← uapi_PackLSBConstrained (values (chunks !!! source)) (widths (chunks !!! source));
      mret (out ++ [b])
    else
      '(_, upper) ← sigmaByteAtCut (chunks !!! source) bitShift;
      if (source + 1 <? 8)%nat then
        '(lower, _) ← sigmaByteAtCut (chunks !!! (source + 1)%nat) bitShift;
        b ← packSigmaByte [upper; lower];
        mret (out ++ [b])
      else
        let zeroPad := SigmaByteParts _ [constant 0] [bitShift] in
        b ← packSigmaByte [upper; zeroPad];
        mret (out ++ [b])) [].

Definition rotate_terms (chunks : list sigmaByteChunks) (rotations : list nat) :
    Circuit (list U64) :=
  for_range 0 (length rotations) (λ k terms,
    t ← rotateRightFromSigmaChunks chunks (rotations !!! k); mret (terms ++ [t])) [].

Definition sigmaRot (word : U64) (rotations : list nat) (rightShift : nat) : Circuit U64 :=
  if (length rotations =? 0)%nat then circuit_panic else
  match cuts ← sigmaCutPositions rotations rightShift; widthsFromCuts cuts with
  | None => circuit_panic
  | Some widths =>
      chunks ← for_range 0 8 (λ i chunks,
        c ← decomposeSigmaByte (word !!! i) widths; mret (chunks ++ [c])) [];
      terms ← rotate_terms chunks rotations;
      terms ← (if (0 <? rightShift)%nat then
                 t ← shiftRightFromSigmaChunks chunks rightShift; mret (terms ++ [t])
               else mret terms);
      uapi_Xor terms
  end.
End sigma.

(** ** gadget.go: the compression function, padding and HMAC *)

Section permute.
Context `{Gadgets}.

Definition choose (e f g : U64) : Circuit U64 :=
  fg ← uapi_Xor [f; g]; efg ← uapi_And e fg; uapi_Xor [g; efg].

Definition majorityFromXors (b aXorB bXorC : U64) : Circuit U64 :=
  m ← uapi_And aXorB bXorC; uapi_Xor [b; m].

Definition majority (a b c : U64) : Circuit U64 :=
  ab ← uapi_Xor [a; b]; bc ← uapi_Xor [b; c]; majorityFromXors b ab bc.

Definition _K512 : list U64 := NewU64 <$> K512.

(** The message schedule. *)
Definition extend_word (i : nat) (w : list U64) : Circuit (list U64) :=
  s1 ← sigmaRot (w !!! (i - 2)%nat) [19; 61]%nat 6;
  s0 ← sigmaRot (w !!! (i - 15)%nat) [1; 8]%nat 7;
  wi ← Add64 2 [s1; w !!! (i - 7)%nat; s0; w !!! (i - 16)%nat];
  mret (w ++ [wi]).

(** One round: the working variables and the retained [b ^ c]. *)
Definition round_gadget (w : list U64) (i : nat) (st : regs U64 * U64) :
    Circuit (regs U64 * U64) :=
  let '(Regs a b c d e f g h, bXorC) := st in
  se ← sigmaRot e [14; 18; 41]%nat 0;
  ch ← choose e f g;
  t1 ← NativeSum64 [h; se; ch; _K512 !!! i; w !!! i];
  aXorB ← uapi_Xor [a; b];
  sa ← sigmaRot a [28; 34; 39]%nat 0;
  maj ← majorityFromXors b aXorB bXorC;
  t2 ← NativeSum64 [sa; maj];
  dv ← uapi_ToValue d;
  e' ← Materialize64 (api_Add dv t1) 3;
  a' ← Materialize64 (api_Add t1 t2) 3;
  mret (Regs a' a b c e' e f g, aXorB).

Fixpoint feed_forward (ihs regs : list U64) : Circuit (list U64) :=
  match ihs, regs with
  | ih :: ihs, r :: rs => o ← Add64 1 [ih; r]; os ← feed_forward ihs rs; mret (o :: os)
  | _, _ => mret []
  end.

Definition Permute512 (currentHash : list U64) (p : list U8) : Circuit (list U64) :=
  let w := (λ i, uapi_PackMSB (take 8 (drop (8 * i) p))) <$> seq 0 16 in
  w ← for_range 16 64 extend_word w;
  let ih := regs_of_list currentHash in
  bXorC ← uapi_Xor [rb ih; rc ih];
  '(out, _) ← for_range 0 80 (round_gadget w) (ih, bXorC);
  feed_forward currentHash (regs_to_list out).

(** [padSHA512AfterPrefix]; [padSHA512] is the case of an empty prefix. *)
Definition padSHA512AfterPrefix (prefixBytes : nat) (suffix : list U8) : option (list U8) :=
  if negb (prefixBytes `mod` blockSize512 =? 0)%nat then None else
  let totalBytes := (prefixBytes + length suffix)%nat in
  let zeroPadLen := 111 - Z.of_nat (totalBytes `mod` blockSize512) in
  let zeroPadLen := if zeroPadLen <? 0 then zeroPadLen + 128 else zeroPadLen in
  let bitLen := w64 (8 * Z.of_nat totalBytes) in
  let lenbuf := replicate 8 0 ++
    ((λ i, byte (Z.shiftr bitLen (8 * (7 - Z.of_nat i)))) <$> seq 0 8) in
  Some (suffix ++ [NewU8 0x80] ++ replicate (Z.to_nat zeroPadLen) (NewU8 0) ++
        NewU8Array lenbuf).

Definition padSHA512 (input : list U8) : list U8 :=
  let bytesLen := length input in
  let zeroPadLen := 111 - Z.of_nat (bytesLen `mod` blockSize512) in
  let zeroPadLen := if zeroPadLen <? 0 then zeroPadLen + 128 else zeroPadLen in
  let bitLen := w64 (8 * Z.of_nat bytesLen) in
  let lenbuf := replicate 8 0 ++
    ((λ i, byte (Z.shiftr bitLen (8 * (7 - Z.of_nat i)))) <$> seq 0 8) in
  input ++ [NewU8 0x80] ++ replicate (Z.to_nat zeroPadLen) (NewU8 0) ++ NewU8Array lenbuf.

Definition sha512InitialState : list U64 := NewU64 <$> seed512.

(** Absorb the whole blocks of [padded], then emit the state big-endian. *)
Definition absorb_blocks (padded : list U8) (state : list U64) : Circuit (list U64) :=
  for_range 0 (length padded / blockSize512) (λ i state,
    Permute512 state (take blockSize512 (drop (i * blockSize512) padded))) state.

Definition Sum512 (input : list U8) : Circuit (list U8) :=
  h ← absorb_blocks (padSHA512 input) (NewU64 <$> seed512);
  mret (concat (uapi_UnpackMSB <$> h)).

Definition sum512AfterPrefix (state : list U64) (prefixBytes : nat) (suffix : list U8) :
    Circuit (list U8) :=
  match padSHA512AfterPrefix prefixBytes suffix with
  | None => circuit_panic
  | Some padded => h ← absorb_blocks padded state; mret (concat (uapi_UnpackMSB <$> h))
  end.

(** The key padded (or hashed and padded) to one block. *)
Definition hmac_k0 (key : list U8) : Circuit (list U8) :=
  if (blockSize512 <? length key)%nat then
    kh ← Sum512 key; mret (kh ++ replicate (blockSize512 - 64) (NewU8 0))
  else mret (key ++ replicate (blockSize512 - length key) (NewU8 0)).

Definition xor_pad (k0 : list U8) (pad : U8) : Circuit (list U8) :=
  for_range 0 blockSize512 (λ i out, b ← bapi_Xor (k0 !!! i) pad; mret (out ++ [b])) [].

Definition HMACSHA512 (key msg : list U8) : Circuit (list U8) :=
  k0 ← hmac_k0 key;
  inner ← xor_pad k0 (NewU8 0x36);
  innerHash ← Sum512 (inner ++ msg);
  outer ← xor_pad k0 (NewU8 0x5c);
  Sum512 (outer ++ innerHash).

(** The pair form interleaves the two pads. *)
Definition hmacSHA512KeyBlocks (key : list U8) : Circuit (list U8 * list U8) :=
  k0 ← hmac_k0 key;
  for_range 0 blockSize512 (λ i '(ipadBlock, opadBlock),
    a ← bapi_Xor (k0 !!! i) (NewU8 0x36);
    b ← bapi_Xor (k0 !!! i) (NewU8 0x5c);
    mret (ipadBlock ++ [a], opadBlock ++ [b])) ([], []).

Definition HMACSHA512Pair (key msg1 msg2 : list U8) : Circuit (list U8 * list U8) :=
  '(ipadBlock, opadBlock) ← hmacSHA512KeyBlocks key;
  innerState ← Permute512 sha512InitialState ipadBlock;
  inner1 ← sum512AfterPrefix innerState blockSize512 msg1;
  inner2 ← sum512AfterPrefix innerState blockSize512 msg2;
  outerState ← Permute512 sha512InitialState opadBlock;
  mac1 ← sum512AfterPrefix outerState blockSize512 inner1;
  mac2 ← sum512AfterPrefix outerState blockSize512 inner2;
  mret (mac1, mac2).
End permute.
