(* ===== verification/Sha512Sigma.v ===== *)
(** * Correctness of the chunked rotations of the SHA-512 gadget

    A byte is cut into width-checked chunks once, and every rotated or shifted byte
    is a recomposition of chunks.  [sigmaRot_exact] proves this equal to the xor of the
    specified rotations and shift, for all valid rotation amounts. *)
From stdpp Require Import sorting gmap.
From S2P Require Import Prelude.
From S2P Require Import Gnark.
From S2P Require Import CkdArith.
From S2P Require Import Sha512Spec.
From S2P Require Import Sha512.

(** ** Mixed-radix decomposition of a byte *)

Fixpoint sum_widths (ws : list nat) : nat :=
  match ws with [] => O | w :: ws => (w + sum_widths ws)%nat end.

Section mixed.
Fixpoint mixed_val (vs : list Z) (ws : list nat) : Z :=
  match vs, ws with
  | v :: vs, w :: ws => v + 2 ^ Z.of_nat w * mixed_val vs ws
  | _, _ => 0
  end.

Fixpoint mixed_digits (ws : list nat) (b : Z) : list Z :=
  match ws with
  | [] => []
  | w :: ws => b mod 2 ^ Z.of_nat w :: mixed_digits ws (b / 2 ^ Z.of_nat w)
  end.

Lemma width_le_sum ws i w : ws !! i = Some w → (w <= sum_widths ws)%nat.
Proof.
  revert i; induction ws as [|w' ws IH]; intros [|i] Hw; simplify_eq/=; [lia|].
  specialize (IH _ Hw). lia.
Qed.

Definition fits (v : Z) (w : nat) : Prop := 0 <= v < 2 ^ Z.of_nat w.

Lemma pow2_pos n : 0 < 2 ^ Z.of_nat n.
Proof. apply Z.pow_pos_nonneg; lia. Qed.
Lemma pow2_add n m : 2 ^ Z.of_nat (n + m) = 2 ^ Z.of_nat n * 2 ^ Z.of_nat m.
Proof. rewrite Nat2Z.inj_add, Z.pow_add_r by lia. done. Qed.

Lemma length_mixed_digits ws b : length (mixed_digits ws b) = length ws.
Proof. revert b; induction ws; intros; simpl; auto. Qed.

Lemma mixed_digits_fits ws b : Forall2 fits (mixed_digits ws b) ws.
Proof.
  revert b; induction ws as [|w ws IH]; intros b; constructor; auto.
  apply Z.mod_pos_bound, pow2_pos.
Qed.

Lemma mixed_val_bound vs ws : Forall2 fits vs ws → 0 <= mixed_val vs ws < 2 ^ Z.of_nat (sum_widths ws).
Proof.
  induction 1 as [|v w vs ws Hv _ IH]; [done|]. cbn [mixed_val sum_widths].
  rewrite pow2_add. unfold fits in Hv. pose proof (pow2_pos w).
  revert IH Hv. generalize (2 ^ Z.of_nat (sum_widths ws)) (mixed_val vs ws). intros. nia.
Qed.

Lemma mixed_val_digits ws b : mixed_val (mixed_digits ws b) ws = b mod 2 ^ Z.of_nat (sum_widths ws).
Proof.
  revert b; induction ws as [|w ws IH]; intros b; cbn [mixed_val mixed_digits sum_widths].
  { simpl. by rewrite Z.mod_1_r. }
  pose proof (pow2_pos w). pose proof (pow2_pos (sum_widths ws)).
  rewrite IH, pow2_add, Z.rem_mul_r by lia. ring.
Qed.

Lemma mixed_unique vs ws : Forall2 fits vs ws → mixed_digits ws (mixed_val vs ws) = vs.
Proof.
  induction 1 as [|v w vs ws Hv _ IH]; [done|]. cbn [mixed_val mixed_digits].
  unfold fits in Hv. pose proof (pow2_pos w).
  rewrite (Z.mul_comm (2 ^ _)), Z.mod_add, Z.mod_small by lia.
  by rewrite Z.div_add, Z.div_small, Z.add_0_l, IH by lia.
Qed.

Lemma mixed_val_app vs vs' ws ws' : length vs = length ws →
  mixed_val (vs ++ vs') (ws ++ ws') =
    mixed_val vs ws + 2 ^ Z.of_nat (sum_widths ws) * mixed_val vs' ws'.
Proof.
  revert ws; induction vs as [|v vs IH]; intros [|w ws] E; simplify_eq/=.
  { change (2 ^ Z.of_nat 0) with 1. lia. }
  rewrite IH, pow2_add by done. ring.
Qed.

Lemma mixed_digits_app ws ws' b :
  mixed_digits (ws ++ ws') b =
    mixed_digits ws b ++ mixed_digits ws' (b / 2 ^ Z.of_nat (sum_widths ws)).
Proof.
  revert b; induction ws as [|w ws IH]; intros b; cbn [app mixed_digits sum_widths].
  { simpl. by rewrite Z.div_1_r. }
  pose proof (pow2_pos w). pose proof (pow2_pos (sum_widths ws)).
  rewrite IH, pow2_add, Z.div_div by lia. done.
Qed.
End mixed.

(** ** Chunk widths and offsets *)

Section widths.
Lemma chunk_offsets_Some o ws os : chunk_offsets o ws = Some os →
  (o + sum_widths ws = 8)%nat ∧ Forall (λ w, 1 <= w)%nat ws ∧ length os = length ws.
Proof.
  revert o os; induction ws as [|w ws IH]; intros o os; simpl.
  { case_match; [|done]. bool_to_prop. intros; simplify_eq. split; [lia|done]. }
  destruct (_ || _) eqn:E; [done|]. bool_to_prop.
  destruct (chunk_offsets (o + w) ws) as [os'|] eqn:E'; [|done]. intros; simplify_eq/=.
  apply IH in E' as (? & ? & ?). split; [lia|]. split; [constructor; [lia|done]|lia].
Qed.

Lemma widths_total_offsets o ws : widths_total o ws = Some 8%nat ↔ is_Some (chunk_offsets o ws).
Proof.
  revert o; induction ws as [|w ws IH]; intros o; simpl.
  { destruct (Nat.eqb_spec o 8) as [->|Hne]; split; intros Hs; eauto.
    - congruence.
    - by destruct Hs. }
  destruct (_ || _).
  { split; [done|by intros []]. }
  rewrite IH. destruct (chunk_offsets (o + w) ws); simpl; split; intros Hs; eauto; by destruct Hs.
Qed.

Lemma chunk_offsets_total o ws : Forall (λ w, 1 <= w)%nat ws → (o + sum_widths ws = 8)%nat →
  is_Some (chunk_offsets o ws).
Proof.
  intros Hws; revert o; induction Hws as [|w ws Hw _ IH]; intros o Ho; simpl in *.
  { rewrite Nat.add_0_r in Ho. subst. eauto. }
  destruct (IH (o + w)%nat) as [os Hos]; [lia|]. rewrite Hos.
  destruct (_ || _) eqn:E; [|by eexists]. apply orb_true_iff in E. bool_to_prop. lia.
Qed.

Lemma splitAtCut_upper `{Field} cut o vs ws os :
  (cut <= o)%nat → chunk_offsets o ws = Some os → length vs = length ws →
  splitAtCut cut vs ws os = Some (SigmaByteParts _ [] [], SigmaByteParts _ vs ws).
Proof.
  intros Hcut Hos Hl. revert o vs os Hcut Hos Hl.
  induction ws as [|w ws IH]; intros o [|v vs] os Hcut Hos Hl; simplify_eq/=.
  { done. }
  destruct (_ || _) eqn:E; [done|]. bool_to_prop.
  destruct (chunk_offsets (o + w) ws) as [os'|] eqn:E'; [|done]. simplify_eq/=.
  rewrite (IH (o + w)%nat) by (done || lia). simpl.
  replace (o + w <=? cut)%nat with false by (symmetry; bool_to_prop; lia).
  replace (cut <=? o)%nat with true by (symmetry; bool_to_prop; lia). done.
Qed.

Lemma splitAtCut_app `{Field} cut o vs ws1 ws2 os :
  chunk_offsets o (ws1 ++ ws2) = Some os → (o + sum_widths ws1 = cut)%nat →
  length vs = length (ws1 ++ ws2) →
  splitAtCut cut vs (ws1 ++ ws2) os =
    Some (SigmaByteParts _ (take (length ws1) vs) ws1,
          SigmaByteParts _ (drop (length ws1) vs) ws2).
Proof.
  revert o vs os; induction ws1 as [|w ws1 IH]; intros o vs os Hos Hcut Hl.
  { simpl in *. eapply splitAtCut_upper; [|done|done]. lia. }
  destruct vs as [|v vs]; [done|]. simplify_eq/=.
  destruct (_ || _) eqn:E; [done|]. bool_to_prop.
  destruct (chunk_offsets (o + w) (ws1 ++ ws2)) as [os'|] eqn:E'; [|done]. simplify_eq/=.
  rewrite (IH (o + w)%nat) by (done || lia). simpl.
  replace (o + w <=? o + (w + sum_widths ws1))%nat with true by (symmetry; bool_to_prop; lia).
  done.
Qed.

(** The cut positions of a byte: strictly increasing, inside (0, 8). *)
Lemma widthsFromCuts_from_Some prev cuts :
  (prev < 8)%nat → StronglySorted lt (prev :: cuts) → Forall (λ c, c < 8)%nat cuts →
  ∃ ws, widthsFromCuts_from prev cuts = Some ws ∧ Forall (λ w, 1 <= w)%nat ws ∧
    (prev + sum_widths ws = 8)%nat ∧
    ∀ cut, cut ∈ cuts → ∃ ws1 ws2, ws = ws1 ++ ws2 ∧ (prev + sum_widths ws1 = cut)%nat.
Proof.
  revert prev; induction cuts as [|c cuts IH]; intros prev Hp Hs Hc;
    cbn [widthsFromCuts_from].
  { exists [(8 - prev)%nat]. split_and!; [done|by repeat constructor; lia|simpl; lia|].
    intros cut Hcut. by apply not_elem_of_nil in Hcut. }
  apply StronglySorted_inv in Hs as [Hs Hlt].
  apply Forall_cons in Hlt as [Hlt _]. apply Forall_cons in Hc as [Hc8 Hc].
  destruct (IH c Hc8 Hs Hc) as (ws & Hws & Hpos & Hsum & Hcuts).
  replace (c <=? prev)%nat with false by (symmetry; bool_to_prop; lia).
  replace (8 <=? c)%nat with false by (symmetry; bool_to_prop; lia).
  rewrite Hws. exists ((c - prev)%nat :: ws). split_and!; [done|..].
  - constructor; [lia|done].
  - simpl. lia.
  - intros cut [->|Hcut]%elem_of_cons.
    + exists [(c - prev)%nat], ws. split; [done|simpl; lia].
    + destruct (Hcuts _ Hcut) as (ws1 & ws2 & E & Hsum1).
      exists ((c - prev)%nat :: ws1), ws2. rewrite E. split; [done|simpl; lia].
Qed.

Lemma Sorted_le_NoDup_lt l : Sorted le l → NoDup l → StronglySorted lt l.
Proof.
  intros Hs%Sorted_StronglySorted; [|intros ???; lia].
  induction Hs as [|x l Hs IH Hx]; intros Hnd; [constructor|].
  apply NoDup_cons in Hnd as [Hnot Hnd]. constructor; [by apply IH|].
  apply Forall_forall. intros y Hy. rewrite Forall_forall in Hx. specialize (Hx y Hy).
  assert (x ≠ y) by (intros ->; done). lia.
Qed.

(** Amounts [sigmaRot] accepts. *)
Definition valid_amounts (rotations : list nat) (rightShift : nat) : Prop :=
  Forall (λ r, 0 < r < 64)%nat rotations ∧ (rightShift < 64)%nat.

Lemma sigma_widths rotations rightShift : valid_amounts rotations rightShift →
  ∃ ws, (cuts ← sigmaCutPositions rotations rightShift; widthsFromCuts cuts) = Some ws ∧
    is_Some (chunk_offsets 0 ws) ∧
    ∀ r, r ∈ rotations ∨ r = rightShift → (r `mod` 8 ≠ 0)%nat →
      ∃ ws1 ws2, ws = ws1 ++ ws2 ∧ sum_widths ws1 = (r `mod` 8)%nat.
Proof.
  intros [Hrot Hsh]. unfold sigmaCutPositions.
  destruct (existsb _ rotations) eqn:E.
  { apply existsb_exists in E as (r & Hr%list_elem_of_In & Hbad).
    rewrite Forall_forall in Hrot. specialize (Hrot r Hr).
    apply orb_true_iff in Hbad. bool_to_prop. lia. }
  replace (64 <=? rightShift)%nat with false by (symmetry; bool_to_prop; lia).
  set (seen := if _ && _ then _ else _).
  assert (∀ c, c ∈ seen ↔ c ≠ 0%nat ∧ ∃ r, (r ∈ rotations ∨ r = rightShift) ∧ c = (r `mod` 8)%nat) as Hseen.
  { intros c. unfold seen.
    assert (c ∈ (list_to_set (filter (λ c, c ≠ 0%nat) ((λ r, r `mod` 8)%nat <$> rotations)) : gset nat)
      ↔ c ≠ 0%nat ∧ ∃ r, r ∈ rotations ∧ c = (r `mod` 8)%nat) as Hl.
    { rewrite elem_of_list_to_set, list_elem_of_filter, list_elem_of_fmap. naive_solver. }
    destruct (_ && _) eqn:Eb.
    - apply andb_true_iff in Eb. bool_to_prop.
      rewrite elem_of_union, elem_of_singleton, Hl. naive_solver.
    - apply andb_false_iff in Eb. rewrite Hl. split; [naive_solver|].
      intros (Hc & r & [Hr| ->] & ->); [naive_solver|]. exfalso.
      destruct Eb as [Eb|Eb]; bool_to_prop; [|done].
      apply Hc. replace rightShift with 0%nat by lia. done. }
  simpl. set (cuts := merge_sort Nat.le (elements seen)).
  assert (cuts ≡ₚ elements seen) as Hperm by apply merge_sort_Permutation.
  assert (∀ c, c ∈ cuts ↔ c ∈ seen) as Hcuts by (intros c; by rewrite Hperm, elem_of_elements).
  destruct (widthsFromCuts_from_Some 0 cuts) as (ws & Hws & Hpos & Hsum & Hsplit).
  - lia.
  - constructor.
    + apply Sorted_le_NoDup_lt; [apply (Sorted_merge_sort Nat.le)|].
      rewrite Hperm. apply NoDup_elements.
    + apply Forall_forall. intros c Hc%Hcuts%Hseen. lia.
  - apply Forall_forall. intros c (_ & r & _ & ->)%Hcuts%Hseen. apply Nat.mod_upper_bound. lia.
  - exists ws. split; [done|]. split; [by apply chunk_offsets_total|].
    intros r Hr Hr0. apply Hsplit, Hcuts, Hseen. eauto.
Qed.
End widths.

(** ** Chunks of a byte wire *)

Section chunks.
Context `{Gadgets}.

Lemma enforceBitWidth_sound v bits : (0 < bits <= 8)%nat →
  Sound (enforceBitWidth v bits) (λ _, fits (value v) bits).
Proof.
  intros Hb. pose proof field_large. pose proof (value_range v). unfold enforceBitWidth, fits.
  destruct (ConstantValue v) as [c|] eqn:E.
  - apply ConstantValue_sound in E as <-. destruct (_ || _) eqn:Eb; [by intros ???|].
    bool_to_prop. by apply ok_ret.
  - eapply Sound_weaken; [apply Check_sound; lia|]. simpl. lia.
Qed.

Lemma enforceBitWidth_ok v bits : (0 < bits <= 8)%nat → fits (value v) bits →
  circuit_ok (enforceBitWidth v bits) (λ _, True).
Proof.
  intros Hb Hv. pose proof field_large. unfold enforceBitWidth, fits in *.
  destruct (ConstantValue v) as [c|] eqn:E.
  - apply ConstantValue_sound in E as <-. destruct (_ || _) eqn:Eb; [|by apply ok_ret].
    apply orb_true_iff in Eb. bool_to_prop. lia.
  - apply Check_ok; lia.
Qed.

Lemma pack_parts_value packed offset p w :
  0 <= value packed < 2 ^ Z.of_nat offset → fits (value p) w → (offset + w <= 8)%nat →
  let v := api_Add packed (api_Mul p (constant (2 ^ Z.of_nat offset))) in
  value v = value packed + 2 ^ Z.of_nat offset * value p ∧
  0 <= value v < 2 ^ Z.of_nat (offset + w).
Proof.
  intros Hp Hv Ho v. unfold fits in Hv. pose proof (pow2_pos offset). pose proof (pow2_pos w).
  assert (2 ^ Z.of_nat (offset + w) <= 2 ^ 8) by (apply Z.pow_le_mono_r; lia).
  rewrite pow2_add in *.
  assert (value (api_Mul p (constant (2 ^ Z.of_nat offset))) = value p * 2 ^ Z.of_nat offset) as Hm.
  { rewrite value_Mul_small; rewrite value_constant_small; nia. }
  assert (value v = value packed + 2 ^ Z.of_nat offset * value p) as ->; [|nia].
  unfold v. rewrite value_Add_small; rewrite Hm; nia.
Qed.

(** Whatever the prover supplied, an accepted pack has in-range parts and the
    recomposed value. *)
Lemma pack_parts_sound ws : Forall (λ w, 1 <= w)%nat ws →
  ∀ parts packed offset, length parts = length ws → (offset + sum_widths ws <= 8)%nat →
  0 <= value packed < 2 ^ Z.of_nat offset →
  Sound (pack_parts packed offset parts ws) (λ u,
    Forall2 fits (value <$> parts) ws ∧
    value u = value packed + 2 ^ Z.of_nat offset * mixed_val (value <$> parts) ws).
Proof.
  induction 1 as [|w ws Hw _ IH]; intros [|p parts] packed offset Hl Ho Hp; simplify_eq/=.
  { apply ok_ret. split; [constructor|]. lia. }
  eapply Sound_bind; [apply enforceBitWidth_sound; lia|]. intros [] Hfit.
  destruct (pack_parts_value packed offset p w) as [Hv Hvr]; [done..|lia|].
  eapply Sound_weaken; [apply IH; [done|lia|done]|]. intros u [Hfits Hu].
  split; [by constructor|]. rewrite Hu, Hv, pow2_add. ring.
Qed.

Lemma pack_parts_ok ws : Forall (λ w, 1 <= w)%nat ws →
  ∀ parts packed offset, (offset + sum_widths ws <= 8)%nat →
  0 <= value packed < 2 ^ Z.of_nat offset → Forall2 fits (value <$> parts) ws →
  circuit_ok (pack_parts packed offset parts ws) (λ u,
    value u = value packed + 2 ^ Z.of_nat offset * mixed_val (value <$> parts) ws).
Proof.
  induction 1 as [|w ws Hw _ IH]; intros [|p parts] packed offset Ho Hp Hfits;
    inversion Hfits; simplify_eq/=.
  { apply ok_ret. lia. }
  eapply ok_bind; [apply enforceBitWidth_ok; [lia|done]|]. intros [] _.
  destruct (pack_parts_value packed offset p w) as [Hv Hvr]; [done..|lia|].
  eapply ok_weaken; [apply IH; [lia|done|done]|]. intros u Hu.
  rewrite Hu, Hv, pow2_add. ring.
Qed.

(** Widths of a whole byte. *)
Definition byte_widths (ws : list nat) : Prop :=
  Forall (λ w, 1 <= w)%nat ws ∧ sum_widths ws = 8%nat.

Lemma byte_widths_offsets ws : byte_widths ws ↔ is_Some (chunk_offsets 0 ws).
Proof.
  split.
  - intros [Hw Hs]. by apply chunk_offsets_total.
  - intros [os (? & ? & ?)%chunk_offsets_Some]. by split.
Qed.

Lemma PackLSB_guards parts ws : byte_widths ws → length parts = length ws →
  uapi_PackLSBConstrained parts ws = pack_parts (constant 0) 0 parts ws.
Proof.
  intros Hws Hl. unfold uapi_PackLSBConstrained. rewrite Hl, Nat.eqb_refl.
  replace (length ws =? 0)%nat with false; cycle 1.
  { destruct Hws as [_ Hs]. by destruct ws. }
  simpl. rewrite decide_True; [done|]. by apply widths_total_offsets, byte_widths_offsets.
Qed.

Lemma PackLSB_sound parts ws : byte_widths ws → length parts = length ws →
  Sound (uapi_PackLSBConstrained parts ws) (λ u,
    Forall2 fits (value <$> parts) ws ∧ value u = mixed_val (value <$> parts) ws).
Proof.
  intros Hws Hl. rewrite PackLSB_guards by done. destruct Hws as [Hw Hs].
  eapply Sound_weaken; [apply pack_parts_sound; [done|done|lia|]|].
  - by rewrite value_constant_small.
  - intros u. cbv beta. rewrite value_constant_small by lia.
    change (2 ^ Z.of_nat 0) with 1. rewrite Z.mul_1_l. done.
Qed.

Lemma PackLSB_ok parts ws : byte_widths ws → Forall2 fits (value <$> parts) ws →
  circuit_ok (uapi_PackLSBConstrained parts ws) (λ u, u8_is u (mixed_val (value <$> parts) ws)).
Proof.
  intros Hws Hf. pose proof (Forall2_length _ _ _ Hf) as Hl. rewrite length_fmap in Hl.
  rewrite PackLSB_guards by done. destruct Hws as [Hw Hs].
  eapply ok_weaken; [apply pack_parts_ok; [done|lia| |done]|].
  - by rewrite value_constant_small.
  - intros u. cbv beta. rewrite value_constant_small by lia.
    change (2 ^ Z.of_nat 0) with 1. rewrite Z.mul_1_l. intros Hu. split; [done|].
    pose proof (mixed_val_bound _ _ Hf) as Hb. by rewrite Hs in Hb.
Qed.

(** The chunks the circuit holds for a byte. *)
Definition chunks_are (ws : list nat) (ch : sigmaByteChunks) (b : Z) : Prop :=
  widths ch = ws ∧ chunk_offsets 0 ws = Some (offsets ch) ∧
  value <$> values ch = mixed_digits ws b ∧ is_byte b.

Lemma constant_chunks c ws o os : chunk_offsets o ws = Some os → 0 <= c →
  zip_with (λ o w, Z.land (Z.shiftr c (Z.of_nat o)) (Z.shiftl 1 (Z.of_nat w) - 1)) os ws =
    mixed_digits ws (c / 2 ^ Z.of_nat o).
Proof.
  intros Hos Hc. revert o os Hos.
  induction ws as [|w ws IH]; intros o os Hos; simpl in Hos.
  { case_match; by simplify_eq. }
  destruct (_ || _); [done|].
  destruct (chunk_offsets (o + w) ws) as [os'|] eqn:E; [|done]. simplify_eq/=.
  rewrite (IH _ _ E), pow2_add. pose proof (pow2_pos o). pose proof (pow2_pos w).
  rewrite Z.div_div by lia. f_equal.
  replace (Z.shiftl 1 (Z.of_nat w) - 1) with (Z.ones (Z.of_nat w)).
  2:{ unfold Z.ones. by rewrite Z.sub_1_r. }
  by rewrite Z.land_ones, Z.shiftr_div_pow2 by lia.
Qed.

Lemma mixed_digits_small ws b : byte_widths ws →
  value <$> (constant <$> mixed_digits ws b) = mixed_digits ws b.
Proof.
  intros [_ Hs]. rewrite <- (list_fmap_id (mixed_digits ws b)) at 2.
  rewrite <- list_fmap_compose. apply list_fmap_ext. intros i x Hx. simpl.
  pose proof (mixed_digits_fits ws b) as Hf.
  destruct (Forall2_lookup_l _ _ _ _ _ Hf Hx) as (w & Hw & Hfit). unfold fits in Hfit.
  pose proof (width_le_sum _ _ _ Hw) as Hw8. rewrite Hs in Hw8.
  assert (2 ^ Z.of_nat w <= 2 ^ 8) by (apply Z.pow_le_mono_r; lia).
  apply value_constant_small. lia.
Qed.

Lemma sigmaChunks_digits v t ws : Forall (λ w, 1 <= w)%nat ws → (t + sum_widths ws = 8)%nat →
  sigmaChunks v t (Z.of_nat <$> ws) = Some (mixed_digits ws v).
Proof.
  intros Hw; revert v t; induction Hw as [|w ws Hw _ IH]; intros v t Ht; simpl in *.
  { by rewrite (proj2 (Nat.eqb_eq t 8)) by lia. }
  destruct (_ || _) eqn:E; [apply orb_true_iff in E; bool_to_prop; lia|].
  rewrite Nat2Z.id, IH by lia. simpl. do 2 f_equal.
  - replace (Z.shiftl 1 (Z.of_nat w) - 1) with (Z.ones (Z.of_nat w)).
    2:{ unfold Z.ones. by rewrite Z.sub_1_r. }
    by rewrite Z.land_ones by lia.
  - by rewrite Z.shiftr_div_pow2 by lia.
Qed.

Lemma decomposeSigmaByte_ok input ws b : byte_widths ws → u8_is input b →
  circuit_ok (decomposeSigmaByte input ws) (λ ch, chunks_are ws ch b).
Proof.
  intros Hws Hin. pose proof Hin as [_ Hb].
  destruct (proj1 (byte_widths_offsets ws) Hws) as [os Hos].
  assert (∀ vals, value <$> vals = mixed_digits ws b →
    chunks_are ws (SigmaByteChunks _ vals ws os) b) as Hchunks by (intros; done).
  assert (b mod 2 ^ Z.of_nat (sum_widths ws) = b) as Hmod.
  { destruct Hws as [_ ->]. by apply Z.mod_small. }
  eapply ok_bind; [by apply Value_ok|]. intros v Hv.
  destruct (ConstantValue v) as [c|] eqn:Ec.
  { apply ConstantValue_sound in Ec as <-. rewrite Hos. apply ok_ret, Hchunks.
    rewrite <- (mixed_digits_small ws b Hws).
    replace b with (value v / 2 ^ Z.of_nat 0) at 1 by (by rewrite Hv, Z.div_1_r).
    rewrite <- (constant_chunks (value v) ws 0 os Hos) by apply value_range.
    clear. revert os. induction ws as [|w ws IH]; intros [|o os]; try done.
    cbn [zip_with]. rewrite !fmap_cons. by rewrite IH. }
  split.
  - eapply Sound_bind; [apply Sound_NewHint|]. intros vals Hl. rewrite Hos.
    eapply Sound_bind; [by apply PackLSB_sound|]. intros r [Hfits Hr].
    pose proof (mixed_val_bound _ _ Hfits) as Hvb. destruct Hws as [Hpos Hsum]. rewrite Hsum in Hvb.
    eapply Sound_bind; [apply Value_ok; split; [exact Hr|done]|]. intros rv Hrv.
    eapply Sound_bind; [apply Sound_assert_equal|]. intros [] Heq.
    apply ok_ret, Hchunks. rewrite Hv, Hrv in Heq. rewrite Heq. symmetry. by apply mixed_unique.
  - eapply Accepts_bind.
    { apply Accepts_NewHint with (outs := mixed_digits ws b);
        [|apply length_mixed_digits].
      rewrite fmap_cons, Hv, <- list_fmap_compose.
      assert (value ∘ (λ w, constant (Z.of_nat w)) <$> ws = Z.of_nat <$> ws) as ->.
      { apply list_fmap_ext. intros i w Hw. simpl. apply value_constant_small.
        pose proof (width_le_sum _ _ _ Hw) as Hw8. destruct Hws as [_ Hs]. rewrite Hs in Hw8. lia. }
      unfold sigmaChunksHint. rewrite length_fmap.
      destruct (length ws =? 0)%nat eqn:El.
      { bool_to_prop. destruct Hws as [_ Hs]. by destruct ws. }
      destruct Hws. by apply sigmaChunks_digits. }
    intros vals ->. rewrite Hos.
    pose proof (mixed_digits_small ws b Hws) as Hsmall.
    eapply Accepts_bind.
    { apply PackLSB_ok; [done|]. rewrite Hsmall. apply mixed_digits_fits. }
    intros r Hr. rewrite Hsmall, mixed_val_digits, Hmod in Hr.
    eapply Accepts_bind; [by apply Value_ok|]. intros rv Hrv.
    eapply Accepts_bind; [apply (ok_assert_equal _ _ (λ _, True)); [congruence|done]|].
    intros [] _. apply ok_ret. by apply Hchunks.
Qed.

(** A byte cut in two at a decomposed position. *)
Lemma sigmaByteAtCut_ok ws1 ws2 ch b cut :
  chunks_are (ws1 ++ ws2) ch b → sum_widths ws1 = cut → (cut <= 8)%nat →
  circuit_ok (sigmaByteAtCut ch cut) (λ '(lower, upper),
    pwidths lower = ws1 ∧ pwidths upper = ws2 ∧
    value <$> pvalues lower = mixed_digits ws1 b ∧
    value <$> pvalues upper = mixed_digits ws2 (b / 2 ^ Z.of_nat cut)).
Proof.
  intros (Hw & Ho & Hv & Hb) Hcut Hc8. unfold sigmaByteAtCut.
  replace (8 <? cut)%nat with false by (symmetry; bool_to_prop; lia).
  pose proof (f_equal length Hv) as Hl. rewrite length_fmap, length_mixed_digits in Hl.
  rewrite Hw, (splitAtCut_app cut 0) by done. apply ok_ret. cbn [pwidths pvalues].
  rewrite fmap_take, fmap_drop, Hv, mixed_digits_app, Hcut.
  rewrite take_app_length', drop_app_length' by (by rewrite length_mixed_digits). done.
Qed.

(** Recomposing a byte from its own chunks. *)
Lemma repack_ok ws ch b : byte_widths ws → chunks_are ws ch b →
  circuit_ok (uapi_PackLSBConstrained (values ch) (widths ch)) (λ u, u8_is u b).
Proof.
  intros Hws (Hw & _ & Hv & Hb). rewrite Hw. eapply ok_weaken.
  { apply PackLSB_ok; [done|]. rewrite Hv. apply mixed_digits_fits. }
  intros u Hu. rewrite Hv, mixed_val_digits in Hu. destruct Hws as [_ Hs].
  rewrite Hs, Z.mod_small in Hu; done.
Qed.

(** Joining the upper part of one byte with the low bits [y] of the next. *)
Lemma join_ok upper lower ws1 ws2 b y cut :
  byte_widths (ws1 ++ ws2) → sum_widths ws1 = cut →
  pwidths upper = ws2 → value <$> pvalues upper = mixed_digits ws2 (b / 2 ^ Z.of_nat cut) →
  is_byte b → Forall (λ w, 1 <= w)%nat (pwidths lower) → sum_widths (pwidths lower) = cut →
  Forall2 fits (value <$> pvalues lower) (pwidths lower) →
  mixed_val (value <$> pvalues lower) (pwidths lower) = y →
  circuit_ok (packSigmaByte [upper; lower])
    (λ u, u8_is u (b / 2 ^ Z.of_nat cut + 2 ^ Z.of_nat (8 - cut) * y)).
Proof.
  intros [Hpos Hsum] Hcut Hwu Hvu Hb Hposl Hsuml Hfl <-.
  apply Forall_app in Hpos as [Hpos1 Hpos2].
  assert (∀ xs ys, sum_widths (xs ++ ys) = sum_widths xs + sum_widths ys)%nat as Hsa.
  { intros xs ys. induction xs as [|x xs IH]; simpl; lia. }
  rewrite Hsa in Hsum.
  unfold packSigmaByte. rewrite !fmap_cons, !fmap_nil. cbn [concat].
  rewrite !app_nil_r. eapply ok_weaken.
  - apply PackLSB_ok.
    + split; [by rewrite Hwu; apply Forall_app|]. rewrite Hsa, Hwu. lia.
    + rewrite fmap_app, Hvu, Hwu. apply Forall2_app; [apply mixed_digits_fits|done].
  - intros u Hu. rewrite fmap_app, mixed_val_app, Hvu, Hwu, mixed_val_digits in Hu.
    2:{ by rewrite Hvu, Hwu, length_mixed_digits. }
    replace (sum_widths ws2) with (8 - cut)%nat in Hu by lia.
    rewrite Z.mod_small in Hu; [done|]. unfold is_digit in Hb. pose proof (pow2_pos cut).
    split; [apply Z.div_pos; lia|]. apply Z.div_lt_upper_bound; [lia|].
    rewrite <- pow2_add. replace (cut + (8 - cut))%nat with 8%nat by lia. simpl. lia.
Qed.
End chunks.

(** ** Bytes of a rotated word *)

Section rotation.
Lemma lor_add a b n : 0 <= n → 0 <= a < 2 ^ n → Z.lor a (Z.shiftl b n) = a + 2 ^ n * b.
Proof.
  intros Hn Ha. rewrite Z.mul_comm. apply Z.bits_inj'. intros i Hi.
  rewrite Z.lor_spec. destruct (Z.lt_ge_cases i n) as [Hlt|Hge].
  - rewrite Z.shiftl_spec_low, orb_false_r by lia.
    rewrite <- (Z.mod_pow2_bits_low (a + b * 2 ^ n) n i) by lia.
    by rewrite Z.mod_add, Z.mod_small by lia.
  - rewrite Z.shiftl_spec, (testbit_high n a) by (done || lia).
    assert (Z.testbit (a + b * 2 ^ n) i = Z.testbit ((a + b * 2 ^ n) / 2 ^ n) (i - n)) as ->.
    { rewrite Z.div_pow2_bits by lia. f_equal. lia. }
    by rewrite Z.div_add, Z.div_small by lia.
Qed.

(** A rotation is a window of the doubled word. *)
Lemma rotr_window z r : 0 <= z < 2 ^ 64 → 0 < r < 64 →
  rotr r z = ((z + 2 ^ 64 * z) / 2 ^ r) mod 2 ^ 64.
Proof.
  intros Hz Hr. unfold rotr, w64.
  assert (0 < 2 ^ r) as Hp by (apply Z.pow_pos_nonneg; lia).
  assert (0 < 2 ^ (64 - r)) as Hq by (apply Z.pow_pos_nonneg; lia).
  assert (2 ^ 64 = 2 ^ (64 - r) * 2 ^ r) as Hpq by (rewrite <- Z.pow_add_r by lia; f_equal; lia).
  rewrite Z.shiftr_div_pow2, Z.shiftl_mul_pow2 by lia.
  assert (0 <= z / 2 ^ r < 2 ^ (64 - r)) as Hd.
  { split; [apply Z.div_pos; lia|]. apply Z.div_lt_upper_bound; [lia|]. nia. }
  replace ((z * 2 ^ (64 - r)) mod 2 ^ 64) with (Z.shiftl (z mod 2 ^ r) (64 - r)).
  2:{ rewrite Hpq, Z.shiftl_mul_pow2 by lia.
      rewrite (Z.mul_comm z), (Z.mul_mod_distr_l z) by lia. ring. }
  rewrite lor_add by lia.
  replace (z + 2 ^ 64 * z) with (z + (2 ^ (64 - r) * z) * 2 ^ r) by (rewrite Hpq; ring).
  rewrite Z.div_add by lia.
  replace (z / 2 ^ r + 2 ^ (64 - r) * z)
    with (z / 2 ^ r + 2 ^ (64 - r) * (z mod 2 ^ r) + (z / 2 ^ r) * 2 ^ 64).
  2:{ transitivity (z / 2 ^ r + 2 ^ (64 - r) * (2 ^ r * (z / 2 ^ r) + z mod 2 ^ r)).
      - rewrite Hpq. ring.
      - by rewrite <- Z.div_mod by lia. }
  rewrite Z.mod_add by lia. symmetry. apply Z.mod_small.
  pose proof (Z.mod_pos_bound z (2 ^ r) Hp). nia.
Qed.

Definition nth_byte (z : Z) (k : nat) : Z := (z / 256 ^ Z.of_nat k) mod 256.

Lemma nth_byte_is_byte z k : is_byte (nth_byte z k).
Proof. apply Z.mod_pos_bound. lia. Qed.

Lemma nth_byte_lookup n z k : (k < n)%nat → le_bytes n z !! k = Some (nth_byte z k).
Proof. intros. by apply digits_lookup. Qed.

Lemma nth_byte_join lo hi k : 0 <= lo < 2 ^ 64 → (k < 16)%nat →
  nth_byte (lo + 2 ^ 64 * hi) k = if (k <? 8)%nat then nth_byte lo k else nth_byte hi (k - 8).
Proof.
  intros Hlo Hk. apply (inj Some). rewrite <- (nth_byte_lookup 16) by done.
  change (2 ^ 64) with (256 ^ Z.of_nat 8) in *. change 16%nat with (8 + 8)%nat.
  rewrite digits_add_high by (done || lia). destruct (Nat.ltb_spec k 8).
  - rewrite lookup_app_l by (by rewrite length_digits). by rewrite nth_byte_lookup.
  - rewrite lookup_app_r by (by rewrite length_digits). rewrite length_digits.
    by rewrite nth_byte_lookup by lia.
Qed.

(** Byte [i] of [y] shifted right by [8 q + s] bits. *)
Lemma shifted_byte y q s i : 0 <= y → (s < 8)%nat →
  nth_byte (y / 2 ^ Z.of_nat (8 * q + s)) i =
    nth_byte y (i + q) / 2 ^ Z.of_nat s +
    2 ^ Z.of_nat (8 - s) * (nth_byte y (i + q + 1) mod 2 ^ Z.of_nat s).
Proof.
  intros Hy Hs. unfold nth_byte. rewrite !pow256.
  pose proof (pow2_pos s) as Hps. pose proof (pow2_pos (8 - s)) as Hpt.
  assert (2 ^ Z.of_nat (8 - s) * 2 ^ Z.of_nat s = 256) as Hst.
  { rewrite <- pow2_add. by replace (8 - s + s)%nat with 8%nat by lia. }
  pose proof (pow2_pos (8 * (i + q))). pose proof (pow2_pos (8 * i)).
  pose proof (pow2_pos (8 * q + s)).
  rewrite Z.div_div by lia. rewrite <- pow2_add.
  replace (8 * q + s + 8 * i)%nat with (8 * (i + q) + s)%nat by lia.
  replace (8 * (i + q + 1))%nat with (8 * (i + q) + 8)%nat by lia.
  rewrite !pow2_add, <- !Z.div_div by lia. change (2 ^ Z.of_nat 8) with 256.
  assert (0 <= y / 2 ^ Z.of_nat (8 * (i + q))) as Hx by (apply Z.div_pos; lia).
  revert Hx. generalize (y / 2 ^ Z.of_nat (8 * (i + q))). intros x Hx.
  revert Hst Hps Hpt. generalize (2 ^ Z.of_nat (8 - s)) (2 ^ Z.of_nat s). intros t p Hst Hp Ht.
  assert (x / p = x mod 256 / p + t * (x / 256)) as Hxp.
  { transitivity ((x mod 256 + (t * (x / 256)) * p) / p); [|by rewrite Z.div_add by lia].
    f_equal. transitivity (t * p * (x / 256) + x mod 256); [|ring].
    rewrite Hst. by apply Z.div_mod. }
  assert ((x / 256) mod 256 mod p = (x / 256) mod p) as Hm.
  { rewrite <- Hst at 2. rewrite (Z.mul_comm t p), Z.rem_mul_r by lia.
    rewrite (Z.mul_comm p), Z.mod_add by lia. by apply Z.mod_mod; lia. }
  rewrite Hm, Hxp.
  replace (x mod 256 / p + t * (x / 256))
    with (x mod 256 / p + t * ((x / 256) mod p) + (x / 256 / p) * 256).
  2:{ transitivity (x mod 256 / p + t * (p * (x / 256 / p) + (x / 256) mod p)).
      - rewrite Z.mul_add_distr_l, Z.mul_assoc, Hst. ring.
      - by rewrite <- Z.div_mod by lia. }
  rewrite Z.mod_add by lia. apply Z.mod_small.
  assert (0 <= x mod 256 / p < t).
  { pose proof (Z.mod_pos_bound x 256). split; [apply Z.div_pos; lia|].
    apply Z.div_lt_upper_bound; lia. }
  pose proof (Z.mod_pos_bound (x / 256) p Hp). nia.
Qed.

Lemma rotr_byte z r i : 0 <= z < 2 ^ 64 → (0 < r < 64)%nat → (i < 8)%nat →
  nth_byte (rotr (Z.of_nat r) z) i =
    nth_byte z ((i + r / 8) `mod` 8) / 2 ^ Z.of_nat (r `mod` 8) +
    2 ^ Z.of_nat (8 - r `mod` 8) *
      (nth_byte z (((i + r / 8) `mod` 8 + 1) `mod` 8) mod 2 ^ Z.of_nat (r `mod` 8)).
Proof.
  intros Hz Hr Hi. rewrite rotr_window by lia.
  assert (nth_byte ((z + 2 ^ 64 * z) / 2 ^ Z.of_nat r mod 2 ^ 64) i =
          nth_byte ((z + 2 ^ 64 * z) / 2 ^ Z.of_nat r) i) as ->.
  { apply (inj Some). rewrite <- !(nth_byte_lookup 8) by done.
    change (2 ^ 64) with (256 ^ Z.of_nat 8) at 3. by rewrite digits_mod by lia. }
  pose proof (Nat.div_mod_eq r 8) as Hdm. pose proof (Nat.mod_upper_bound r 8 ltac:(lia)) as Hm.
  rewrite Hdm at 1. rewrite shifted_byte by lia.
  assert (r / 8 < 8)%nat by (apply Nat.Div0.div_lt_upper_bound; lia).
  assert (∀ k, (k < 16)%nat → nth_byte (z + 2 ^ 64 * z) k = nth_byte z (k `mod` 8)) as Hk.
  { intros k Hk. rewrite nth_byte_join by done. destruct (Nat.ltb_spec k 8).
    - by rewrite Nat.mod_small by lia.
    - f_equal. rewrite <- (Nat.mod_small (k - 8) 8) by lia.
      replace k with (k - 8 + 1 * 8)%nat at 2 by lia. by rewrite Nat.Div0.mod_add. }
  rewrite !Hk by lia. by rewrite Nat.Div0.add_mod_idemp_l.
Qed.

Lemma shr_byte z r i : 0 <= z < 2 ^ 64 → (r < 64)%nat → (i < 8)%nat →
  nth_byte (shr (Z.of_nat r) z) i =
    let b k := if (k <? 8)%nat then nth_byte z k else 0 in
    b (i + r / 8)%nat / 2 ^ Z.of_nat (r `mod` 8) +
    2 ^ Z.of_nat (8 - r `mod` 8) * (b (i + r / 8 + 1)%nat mod 2 ^ Z.of_nat (r `mod` 8)).
Proof.
  intros Hz Hr Hi. cbv zeta. unfold shr. rewrite Z.shiftr_div_pow2 by lia.
  replace z with (z + 2 ^ 64 * 0) at 1 by lia.
  pose proof (Nat.div_mod_eq r 8) as Hdm. pose proof (Nat.mod_upper_bound r 8 ltac:(lia)) as Hm.
  rewrite Hdm at 1. rewrite shifted_byte by lia.
  assert (r / 8 < 8)%nat by (apply Nat.Div0.div_lt_upper_bound; lia).
  assert (∀ k, nth_byte 0 k = 0) as H0k.
  { intros k. unfold nth_byte. by rewrite Z.div_0_l by (pose proof (Z.pow_pos_nonneg 256 (Z.of_nat k)); lia). }
  rewrite !nth_byte_join by (done || lia). rewrite !H0k. done.
Qed.
End rotation.

(** ** Rotations, shifts and their xor *)

Section sigma_proofs.
Context `{Gadgets}.
#[local] Instance chunks_inhabited' : Inhabited sigmaByteChunks := populate no_chunks.

Lemma snoc_byte out i x b :
  value <$> out = le_bytes i x → u8_is b (nth_byte x i) →
  value <$> (out ++ [b]) = le_bytes (S i) x.
Proof.
  intros Ho [Hb _]. rewrite fmap_app, Ho, fmap_cons, fmap_nil, Hb.
  rewrite <- Nat.add_1_r, digits_app by lia. done.
Qed.

(** The eight chunked bytes of a word. *)
Definition word_chunks (ws : list nat) (chunks : list sigmaByteChunks) (z : Z) : Prop :=
  ∀ i, (i < 8)%nat → chunks_are ws (chunks !!! i) (nth_byte z i).

(** The cut a rotation needs is one of the chunk boundaries. *)
Definition cut_at (ws : list nat) (r : nat) : Prop :=
  (r `mod` 8 ≠ 0)%nat → ∃ ws1 ws2, ws = ws1 ++ ws2 ∧ sum_widths ws1 = (r `mod` 8)%nat.

Lemma word_is_le_bytes out x : 0 <= x < 2 ^ 64 → value <$> out = le_bytes 8 x → word_is out x.
Proof. by split. Qed.

Lemma rotr_range n x : 0 <= n → 0 <= x < 2 ^ 64 → 0 <= rotr n x < 2 ^ 64.
Proof.
  intros Hn Hx. apply lor_range; [lia|by apply shiftr_range; lia|by apply Z.mod_pos_bound].
Qed.

Lemma low_part ws1 y : Forall (λ w, 1 <= w)%nat ws1 →
  Forall2 fits (mixed_digits ws1 y) ws1 ∧
  mixed_val (mixed_digits ws1 y) ws1 = y mod 2 ^ Z.of_nat (sum_widths ws1).
Proof. intros _. split; [apply mixed_digits_fits|apply mixed_val_digits]. Qed.

Lemma rotate_ok ws chunks z r :
  byte_widths ws → word_chunks ws chunks z → cut_at ws r → 0 <= z < 2 ^ 64 →
  (0 < r < 64)%nat →
  circuit_ok (rotateRightFromSigmaChunks chunks r) (λ w, word_is w (rotr (Z.of_nat r) z)).
Proof.
  intros Hws Hch Hcut Hz Hr. eapply ok_weaken.
  - apply (ok_for (λ i out, value <$> out = le_bytes i (rotr (Z.of_nat r) z))); [done|].
    intros i out Hi Hout. pose proof (rotr_byte z r i Hz Hr ltac:(lia)) as Hbyte.
    assert ((i + r / 8) `mod` 8 < 8)%nat as Hsrc by (apply Nat.mod_upper_bound; lia).
    assert (((i + r / 8) `mod` 8 + 1) `mod` 8 < 8)%nat as Hnext by (apply Nat.mod_upper_bound; lia).
    set (src := ((i + r / 8) `mod` 8)%nat) in *. set (next := ((src + 1) `mod` 8)%nat) in *.
    destruct (Nat.eqb_spec (r `mod` 8) 0) as [E|E].
    + eapply ok_bind; [apply (repack_ok ws); [done|by apply Hch]|]. intros b Hb.
      apply ok_ret, snoc_byte; [done|]. rewrite Hbyte, E.
      by rewrite Z.div_1_r, Z.mod_1_r, Z.mul_0_r, Z.add_0_r.
    + destruct (Hcut E) as (ws1 & ws2 & -> & Hsum).
      pose proof (Nat.mod_upper_bound r 8 ltac:(lia)).
      eapply ok_bind; [apply (sigmaByteAtCut_ok ws1 ws2); [by apply Hch|done|lia]|].
      intros [lo1 upper] (_ & Hwu & _ & Hvu).
      eapply ok_bind; [apply (sigmaByteAtCut_ok ws1 ws2); [by apply Hch|done|lia]|].
      intros [lower up2] (Hwl & _ & Hvl & _).
      destruct Hws as [Hpos Hs]. pose proof Hpos as Hpos'. apply Forall_app in Hpos' as [Hpos1 _].
      destruct (low_part ws1 (nth_byte z next) Hpos1) as [Hfl Hml]. rewrite Hsum in Hml.
      eapply ok_bind.
      * eapply (join_ok upper lower ws1 ws2 (nth_byte z src)
          (nth_byte z next mod 2 ^ Z.of_nat (r `mod` 8)) (r `mod` 8)); try done.
        { apply nth_byte_is_byte. } all: rewrite ?Hwl, ?Hvl; done.
      * intros b Hb. apply ok_ret, snoc_byte; [done|]. by rewrite Hbyte.
  - intros w Hw. apply word_is_le_bytes; [by apply rotr_range; lia|done].
Qed.

Lemma shift_ok ws chunks z r :
  byte_widths ws → word_chunks ws chunks z → cut_at ws r → 0 <= z < 2 ^ 64 → (r < 64)%nat →
  circuit_ok (shiftRightFromSigmaChunks chunks r) (λ w, word_is w (shr (Z.of_nat r) z)).
Proof.
  intros Hws Hch Hcut Hz Hr. eapply ok_weaken.
  - apply (ok_for (λ i out, value <$> out = le_bytes i (shr (Z.of_nat r) z))); [done|].
    intros i out Hi Hout. pose proof (shr_byte z r i Hz Hr ltac:(lia)) as Hbyte. cbv beta zeta in Hbyte |- *.
    destruct (Nat.leb_spec 8 (i + r / 8)) as [Hge|Hlt].
    { apply ok_ret, snoc_byte; [done|]. rewrite Hbyte.
      rewrite !(proj2 (Nat.ltb_ge _ _)) by lia.
      rewrite Z.div_0_l, Z.mod_0_l, Z.mul_0_r by (pose proof (pow2_pos (r `mod` 8)); lia).
      by apply NewU8_is. }
    rewrite (proj2 (Nat.ltb_lt (i + r / 8) 8)) in Hbyte by lia.
    set (src := (i + r / 8)%nat) in *.
    destruct (Nat.eqb_spec (r `mod` 8) 0) as [E|E].
    + eapply ok_bind; [apply (repack_ok ws); [done|by apply Hch]|]. intros b Hb.
      apply ok_ret, snoc_byte; [done|]. rewrite Hbyte, E.
      by rewrite Z.div_1_r, Z.mod_1_r, Z.mul_0_r, Z.add_0_r.
    + destruct (Hcut E) as (ws1 & ws2 & -> & Hsum).
      pose proof (Nat.mod_upper_bound r 8 ltac:(lia)).
      eapply ok_bind; [apply (sigmaByteAtCut_ok ws1 ws2); [by apply Hch|done|lia]|].
      intros [lo1 upper] (_ & Hwu & _ & Hvu).
      destruct Hws as [Hpos Hs]. pose proof Hpos as Hpos'. apply Forall_app in Hpos' as [Hpos1 _].
      destruct (Nat.ltb_spec (src + 1) 8) as [Hn|Hn].
      * eapply ok_bind; [apply (sigmaByteAtCut_ok ws1 ws2); [by apply Hch|done|lia]|].
        intros [lower up2] (Hwl & _ & Hvl & _).
        destruct (low_part ws1 (nth_byte z (src + 1)) Hpos1) as [Hfl Hml]. rewrite Hsum in Hml.
        eapply ok_bind.
        { eapply (join_ok upper lower ws1 ws2 (nth_byte z src)
            (nth_byte z (src + 1) mod 2 ^ Z.of_nat (r `mod` 8)) (r `mod` 8)); try done.
          { apply nth_byte_is_byte. } all: rewrite ?Hwl, ?Hvl; done. }
        intros b Hb. apply ok_ret, snoc_byte; [done|]. by rewrite Hbyte.
      * rewrite Z.mod_0_l in Hbyte by (pose proof (pow2_pos (r `mod` 8)); lia).
        eapply ok_bind.
        { eapply (join_ok upper (SigmaByteParts _ [constant 0] [(r `mod` 8)%nat]) ws1 ws2
            (nth_byte z src) 0); try done; cbn [pwidths pvalues].
          - apply nth_byte_is_byte.
          - repeat constructor. lia.
          - constructor; [|constructor]. unfold fits. rewrite value_constant_small by lia.
            pose proof (pow2_pos (r `mod` 8)). lia.
          - simpl. rewrite value_constant_small by lia. lia. }
        intros b Hb. apply ok_ret, snoc_byte; [done|]. by rewrite Hbyte.
  - intros w Hw. apply word_is_le_bytes; [by apply shiftr_range; lia|done].
Qed.

(** The words [sigmaRot] xors together. *)
Definition sigma_terms (rotations : list nat) (rightShift : nat) (z : Z) : list Z :=
  ((λ r, rotr (Z.of_nat r) z) <$> rotations) ++
  (if (0 <? rightShift)%nat then [shr (Z.of_nat rightShift) z] else []).

Lemma decompose_word_ok ws word z : byte_widths ws → word_is word z →
  circuit_ok (for_range 0 8 (λ i chunks,
      c ← decomposeSigmaByte (word !!! i) ws; mret (chunks ++ [c])) [])
    (λ chunks, word_chunks ws chunks z).
Proof.
  intros Hws [Hw Hz]. eapply ok_weaken.
  - apply (ok_for (λ i chunks, length chunks = i ∧
      ∀ k, (k < i)%nat → chunks_are ws (chunks !!! k) (nth_byte z k))); [split; [done|intros k ?; lia]|].
    intros i chunks Hi [Hl Hch]. eapply ok_bind.
    { apply decomposeSigmaByte_ok with (b := nth_byte z i); [done|].
      split; [|apply nth_byte_is_byte]. apply value_lookup_total.
      rewrite Hw. apply nth_byte_lookup. lia. }
    intros c Hc. apply ok_ret. rewrite length_app. split; [simpl; lia|].
    intros k Hk. destruct (decide (k = i)) as [->|Hne].
    + rewrite lookup_total_app_r, Hl, Nat.sub_diag by lia. exact Hc.
    + rewrite lookup_total_app_l by lia. apply Hch. lia.
  - intros chunks [_ Hch] k Hk. by apply Hch.
Qed.

Lemma rotate_terms_ok ws chunks z rotations :
  byte_widths ws → word_chunks ws chunks z → 0 <= z < 2 ^ 64 →
  Forall (λ r, 0 < r < 64)%nat rotations → (∀ r, r ∈ rotations → cut_at ws r) →
  circuit_ok (rotate_terms chunks rotations)
    (λ terms, Forall2 word_is terms ((λ r, rotr (Z.of_nat r) z) <$> rotations)).
Proof.
  intros Hws Hch Hz Hrot Hcut. eapply ok_weaken.
  - apply (ok_for (λ k terms, Forall2 word_is terms
      ((λ r, rotr (Z.of_nat r) z) <$> take k rotations))); [by rewrite take_0|].
    intros k terms Hk Hterms.
    destruct (lookup_lt_is_Some_2 rotations k) as [r Hr]; [lia|].
    rewrite (list_lookup_total_correct _ _ _ Hr).
    eapply ok_bind; [apply (rotate_ok ws); try done|].
    + apply Hcut. by eapply list_elem_of_lookup_2.
    + by eapply Forall_lookup_1 in Hrot.
    + intros t Ht. apply ok_ret. rewrite (take_S_r _ _ _ Hr), fmap_app.
      apply Forall2_app; [done|]. by constructor.
  - intros terms Ht. by rewrite take_ge in Ht by lia.
Qed.

(** The rotations and the shift of a word, for every admissible amounts. *)
Lemma sigmaRot_spec word z rotations rightShift :
  word_is word z → rotations ≠ [] → valid_amounts rotations rightShift →
  circuit_ok (sigmaRot word rotations rightShift)
    (λ w, word_is w (foldr Z.lxor 0 (sigma_terms rotations rightShift z))).
Proof.
  intros Hw Hne Hval. pose proof (word_is_range _ _ Hw) as Hz.
  destruct (sigma_widths _ _ Hval) as (ws & Hws & Hoff & Hcuts).
  apply byte_widths_offsets in Hoff. destruct Hval as [Hrot Hsh].
  assert (∀ r, r ∈ rotations ∨ r = rightShift → cut_at ws r) as Hcut by (intros r Hr ?; eauto).
  unfold sigmaRot. destruct (Nat.eqb_spec (length rotations) 0) as [E|_].
  { by apply length_zero_iff_nil in E. }
  rewrite Hws. eapply ok_bind; [by apply decompose_word_ok|]. intros chunks Hch.
  eapply ok_bind; [by apply (rotate_terms_ok ws); eauto|]. intros terms Hterms.
  assert (terms ≠ []) as Ht0.
  { intros ->. apply Forall2_nil_inv_l in Hterms. by apply fmap_nil_inv in Hterms. }
  eapply ok_bind with (R := λ terms, terms ≠ [] ∧
    Forall2 word_is terms (sigma_terms rotations rightShift z)).
  - unfold sigma_terms. destruct (0 <? rightShift)%nat.
    + eapply ok_bind; [by apply (shift_ok ws); eauto|]. intros t Ht. apply ok_ret.
      split; [by destruct terms|]. apply Forall2_app; [done|]. by constructor.
    + apply ok_ret. rewrite app_nil_r. done.
  - intros terms' [Hne' Hall]. by apply Xor_ok.
Qed.

Lemma sigmaCutPositions_None rotations rightShift :
  ¬ valid_amounts rotations rightShift → sigmaCutPositions rotations rightShift = None.
Proof.
  intros Hn. unfold sigmaCutPositions. destruct (existsb _ _) eqn:E; [done|].
  destruct (Nat.leb_spec 64 rightShift); [done|]. exfalso. apply Hn. split; [|done].
  apply Forall_forall. intros r Hr. apply not_true_iff_false in E.
  destruct (decide (0 < r < 64)%nat) as [|Hne]; [done|]. exfalso. apply E.
  apply existsb_exists. exists r. rewrite <- list_elem_of_In. split; [done|].
  rewrite orb_true_iff. bool_to_prop. lia.
Qed.

(** [sigmaRot] computes the xor of the rotations and the right shift for EVERY
    non-empty list of rotation amounts in [1, 63] and every shift in [0, 63],
    whatever the prover supplies as byte chunks; for any other amounts the circuit
    cannot be built. *)
Theorem sigmaRot_exact word z rotations rightShift :
  word_is word z →
  (rotations ≠ [] ∧ valid_amounts rotations rightShift →
    circuit_ok (sigmaRot word rotations rightShift)
      (λ w, word_is w (foldr Z.lxor 0 (sigma_terms rotations rightShift z)))) ∧
  (rotations = [] ∨ ¬ valid_amounts rotations rightShift →
    rejects (sigmaRot word rotations rightShift)).
Proof.
  intros Hw. split.
  - intros [Hne Hval]. by apply sigmaRot_spec.
  - unfold sigmaRot. destruct (Nat.eqb_spec (length rotations) 0) as [E|E]; [done|].
    intros [->|Hn]; [done|]. by rewrite (sigmaCutPositions_None _ _ Hn).
Qed.
End sigma_proofs.
