(* ===== verification/Sha512Correct.v ===== *)
(** * The SHA-512 and HMAC-SHA512 gadgets compute the hash and the MAC

    The additions of [add64.go], the Boolean round functions, the message schedule,
    the rounds, padding and HMAC of [gadget.go] (definitions in [Sha512.v]), each
    proved equal to its counterpart of [Sha512Spec.v] for every prover, with the
    honest prover accepted. *)
From S2P Require Import Prelude.
From S2P Require Import Gnark.
From S2P Require Import CkdArith.
From S2P Require Import Sha512Spec.
From S2P Require Import Sha512.
From S2P Require Import Sha512Sigma.

(** Word lists given by enumeration. *)
Ltac solve_words := repeat first [apply Forall2_nil_2 | apply Forall2_cons_2]; eauto.

Fixpoint zsum (zs : list Z) : Z :=
  match zs with [] => 0 | z :: zs => z + zsum zs end.

Section add64_proofs.
Context `{Gadgets}.

Lemma word_is_eq w y z : word_is w y → y = z → word_is w z.
Proof. by intros ? <-. Qed.

Lemma ToValues_ok ws zs : Forall2 word_is ws zs →
  circuit_ok (ToValues ws) (λ vs, value <$> vs = zs).
Proof.
  induction 1 as [|w z ws zs Hw _ IH]; [by apply ok_ret|].
  eapply ok_bind; [by apply ToValue_ok|]. intros v Hv.
  eapply ok_bind; [exact IH|]. intros vs Hvs. apply ok_ret.
  by rewrite fmap_cons, Hv, Hvs.
Qed.

Lemma foldl_Add_small vs v :
  value v + zsum (value <$> vs) < 2 ^ 254 →
  value (foldl api_Add v vs) = value v + zsum (value <$> vs).
Proof.
  revert v; induction vs as [|u vs IH]; intros v Hs; cbn in *; [lia|].
  assert (0 <= zsum (value <$> vs)).
  { clear. induction vs as [|u vs IH]; cbn; [lia|]. pose proof (value_range u). lia. }
  rewrite IH; rewrite value_Add_small; lia.
Qed.

Lemma words_sum_bound ws zs : Forall2 word_is ws zs →
  0 <= zsum zs <= Z.of_nat (length ws) * (2 ^ 64 - 1).
Proof.
  induction 1 as [|w z ws zs Hw _ IH]; simpl; [lia|].
  pose proof (word_is_range _ _ Hw). lia.
Qed.

(** The native sum of a non-empty word list does not wrap around the field. *)
Lemma NativeSum64_ok ws zs : Forall2 word_is ws zs → ws ≠ [] → (length ws <= 8)%nat →
  circuit_ok (NativeSum64 ws) (λ v, value v = zsum zs).
Proof.
  intros Hws Hne Hl. pose proof (words_sum_bound _ _ Hws) as Hb.
  eapply ok_bind; [by apply ToValues_ok|]. intros vs Hvs.
  destruct vs as [|v vs].
  { simpl in Hvs. subst zs. by apply Forall2_nil_inv_r in Hws. }
  apply ok_ret. rewrite fmap_cons in Hvs. subst zs. simpl in Hb.
  apply foldl_Add_small; lia.
Qed.

Lemma split64 lo hi hiBits : 64 + Z.of_nat hiBits < FieldBitLen →
  value lo < 2 ^ 64 → value hi < 2 ^ Z.of_nat hiBits →
  value (api_Add lo (api_Mul (constant (2 ^ 64)) hi)) = value lo + 2 ^ 64 * value hi.
Proof.
  intros Hbits Hlo Hhi. pose proof (value_range lo). pose proof (value_range hi).
  assert (2 ^ 64 * 2 ^ Z.of_nat hiBits <= field_order) as Hord.
  { rewrite <- Z.pow_add_r by lia. destruct field_bits as [Hf _].
    etransitivity; [|exact Hf]. apply Z.pow_le_mono_r; lia. }
  rewrite value_Add, value_Mul, value_constant_small by lia.
  rewrite Z.add_mod_idemp_r by lia. apply Z.mod_small. nia.
Qed.

Lemma ValueOf_sound v : Sound (uapi_ValueOf v) (λ w, word_is w (value v)).
Proof.
  destruct (Z.lt_ge_cases (value v) (2 ^ 64)) as [Hv|Hv].
  - by apply ValueOf_ok.
  - by apply Sound_rejects, ValueOf_rejects.
Qed.

Lemma Materialize64_sound sum hiBits :
  Sound (Materialize64 sum hiBits)
    (λ w, word_is w (w64 (value sum)) ∧ value sum < 2 ^ (64 + Z.of_nat hiBits)).
Proof.
  unfold Materialize64. destruct (hiBits <? 1)%nat eqn:H1; simpl; [by apply Sound_rejects|].
  destruct (FieldBitLen <=? 64 + Z.of_nat hiBits) eqn:H2; simpl; [by apply Sound_rejects|].
  bool_to_prop.
  eapply (Sound_bind _ _ (λ _, True)); [by intros ????|]. intros [lo hi] _.
  eapply Sound_bind; [apply Sound_assert_equal|]. intros [] Heq.
  eapply Sound_bind; [apply Check_sound; lia|]. intros [] Hhi.
  intros t w t' Ew. pose proof (ValueOf_sound lo _ _ _ Ew) as Hw.
  pose proof (word_is_range _ _ Hw) as Hlo.
  rewrite (split64 _ _ hiBits) in Heq by (done || lia).
  pose proof (value_range hi). split.
  - replace (w64 (value sum)) with (value lo); [done|]. unfold w64.
    rewrite Heq, Z.mul_comm, Z.mod_add, Z.mod_small; lia.
  - rewrite Z.pow_add_r by lia. nia.
Qed.

(** A sum below [2^(64+hiBits)] is reduced modulo [2^64]; a larger one has no
    accepted prover, so a caller's bound on the addends is enforced. *)
Lemma Materialize64_ok sum hiBits :
  (1 <= hiBits)%nat → 64 + Z.of_nat hiBits < FieldBitLen →
  value sum < 2 ^ (64 + Z.of_nat hiBits) →
  circuit_ok (Materialize64 sum hiBits) (λ w, word_is w (w64 (value sum))).
Proof.
  intros Hh Hbits Hsum. split.
  { eapply Sound_weaken; [apply Materialize64_sound|]. by intros ? []. }
  unfold Materialize64.
  rewrite (proj2 (Nat.ltb_ge _ _)), (proj2 (Z.leb_gt _ _)) by lia. cbn [orb].
  pose proof (value_range sum) as Hr.
  eapply Accepts_bind.
  { apply Partition_accepts. by rewrite Nat2Z.inj_add. }
  intros [lo hi] [Hlo Hhi]. change (2 ^ Z.of_nat 64) with (2 ^ 64) in *.
  assert (value lo < 2 ^ 64) by (rewrite Hlo; apply Z.mod_pos_bound; lia).
  assert (value hi < 2 ^ Z.of_nat hiBits) by
    (rewrite Hhi; apply Z.div_lt_upper_bound; [lia|by rewrite <- Z.pow_add_r by lia]).
  eapply Accepts_bind.
  { apply (ok_assert_equal _ _ (λ _, True)); [|done].
    rewrite (split64 _ _ hiBits), Hlo, Hhi by done.
    pose proof (Z.div_mod (value sum) (2 ^ 64)). lia. }
  intros [] _. eapply Accepts_bind; [apply Check_ok; lia|]. intros [] _.
  eapply Accepts_weaken; [by apply ValueOf_ok|]. intros w Hw. by rewrite Hlo in Hw.
Qed.

Lemma Add64_sum hiBits ws zs :
  Forall2 word_is ws zs → ws ≠ [] → (1 <= hiBits <= 3)%nat →
  (length ws <= 2 ^ hiBits)%nat →
  circuit_ok (Add64 hiBits ws) (λ w, word_is w (w64 (zsum zs))).
Proof.
  intros Hws Hne Hh Hl. pose proof field_large.
  assert (length ws <= 8)%nat.
  { etransitivity; [exact Hl|]. change 8%nat with (2 ^ 3)%nat.
    apply Nat.pow_le_mono_r; lia. }
  pose proof (words_sum_bound _ _ Hws) as Hb.
  eapply ok_bind; [by apply NativeSum64_ok|]. intros v Hv. rewrite <- Hv.
  apply Materialize64_ok; [lia..|]. rewrite Hv, Z.pow_add_r by lia.
  assert (Z.of_nat (length ws) <= 2 ^ Z.of_nat hiBits); [|nia].
  rewrite <- (Nat2Z.inj_pow 2). lia.
Qed.

(** [Add64] with carry width [hiBits] outputs the sum of the words modulo [2^64]
    exactly when the carry fits that width: then every accepted prover ends with
    it and the honest prover is accepted; when the carry does not fit no prover is
    accepted, and an empty list, a zero width or a width the field cannot hold
    stops the compilation. *)
Theorem Add64_exact hiBits ws zs :
  Forall2 word_is ws zs → (length ws <= 8)%nat →
  let valid := ws ≠ [] ∧ (1 <= hiBits)%nat ∧ 64 + Z.of_nat hiBits < FieldBitLen ∧
               zsum zs < 2 ^ (64 + Z.of_nat hiBits) in
  (valid → circuit_ok (Add64 hiBits ws) (λ w, word_is w (w64 (zsum zs)))) ∧
  (¬ valid → rejects (Add64 hiBits ws)).
Proof.
  intros Hws Hl valid. split.
  - intros (Hne & Hh & Hbits & Hsum).
    eapply ok_bind; [by apply NativeSum64_ok|]. intros v Hv. rewrite <- Hv in *.
    by apply Materialize64_ok.
  - intros Hn. destruct (decide (ws = [])) as [->|Hne]; [done|].
    eapply rejects_bind; [by apply NativeSum64_ok|]. intros v Hv.
    apply rejects_False. intros t w t' E.
    pose proof (Materialize64_sound _ _ _ _ _ E) as [_ Hlt]. apply Hn.
    rewrite Hv in Hlt. unfold Materialize64 in E.
    destruct (hiBits <? 1)%nat eqn:H1; [done|].
    destruct (FieldBitLen <=? 64 + Z.of_nat hiBits) eqn:H2; [done|]. bool_to_prop. done.
Qed.
End add64_proofs.

(** ** The Boolean functions of a round *)

Lemma Ch_alt e f g : 0 <= g < 2 ^ 64 → Z.lxor g (Z.land e (Z.lxor f g)) = Ch e f g.
Proof.
  intros Hg. apply Z.bits_inj'. intros i Hi. unfold Ch, lnot64.
  change (2 ^ 64 - 1) with (Z.ones 64).
  rewrite !Z.lxor_spec, !Z.land_spec, !Z.lxor_spec.
  destruct (Z.lt_ge_cases i 64).
  - rewrite Z.ones_spec_low by lia.
    by destruct (Z.testbit e i), (Z.testbit f i), (Z.testbit g i).
  - rewrite Z.ones_spec_high, (testbit_high 64 g) by done || lia.
    by destruct (Z.testbit e i), (Z.testbit f i).
Qed.

Lemma Maj_alt a b c : Z.lxor b (Z.land (Z.lxor a b) (Z.lxor b c)) = Maj a b c.
Proof.
  apply Z.bits_inj'. intros i Hi. unfold Maj.
  rewrite !Z.lxor_spec, !Z.land_spec, !Z.lxor_spec.
  by destruct (Z.testbit a i), (Z.testbit b i), (Z.testbit c i).
Qed.

Section round_functions.
Context `{Gadgets}.

Lemma Xor2_ok v w y z : word_is v y → word_is w z →
  circuit_ok (uapi_Xor [v; w]) (λ u, word_is u (Z.lxor y z)).
Proof.
  intros Hv Hw. eapply ok_weaken; [apply Xor_ok with (zs := [y; z]); [done|]|].
  - solve_words.
  - intros u Hu. cbn [foldr] in Hu. by rewrite Z.lxor_0_r in Hu.
Qed.

Lemma choose_ok e f g x y z : word_is e x → word_is f y → word_is g z →
  circuit_ok (choose e f g) (λ u, word_is u (Ch x y z)).
Proof.
  intros He Hf Hg. step (by apply Xor2_ok) as fg Hfg.
  step (by apply And_ok) as efg Hefg.
  rewrite <- Ch_alt by exact (word_is_range _ _ Hg). by apply Xor2_ok.
Qed.

Lemma majorityFromXors_ok b ab bc x y z :
  word_is b y → word_is ab (Z.lxor x y) → word_is bc (Z.lxor y z) →
  circuit_ok (majorityFromXors b ab bc) (λ u, word_is u (Maj x y z)).
Proof.
  intros Hb Hab Hbc. step (by apply And_ok) as m Hm.
  rewrite <- Maj_alt. by apply Xor2_ok.
Qed.

Lemma majority_ok a b c x y z : word_is a x → word_is b y → word_is c z →
  circuit_ok (majority a b c) (λ u, word_is u (Maj x y z)).
Proof.
  intros Ha Hb Hc. step (by apply (Xor2_ok a b x y)) as ab Hab.
  step (by apply (Xor2_ok b c y z)) as bc Hbc.
  by apply majorityFromXors_ok.
Qed.

Lemma sigma_spec word z rotations rightShift f :
  word_is word z → rotations ≠ [] → valid_amounts rotations rightShift →
  foldr Z.lxor 0 (sigma_terms rotations rightShift z) = f →
  circuit_ok (sigmaRot word rotations rightShift) (λ w, word_is w f).
Proof. intros ??? <-. by apply sigmaRot_spec. Qed.

Ltac solve_sigma := intros; eapply sigma_spec;
  [done|done|split; [repeat constructor; lia|lia]|];
  unfold sigma_terms, bigSigma1, bigSigma0, smallSigma1, smallSigma0; simpl;
  by rewrite Z.lxor_0_r.

Lemma bigSigma1_ok word z : word_is word z →
  circuit_ok (sigmaRot word [14; 18; 41]%nat 0) (λ w, word_is w (bigSigma1 z)).
Proof. solve_sigma. Qed.
Lemma bigSigma0_ok word z : word_is word z →
  circuit_ok (sigmaRot word [28; 34; 39]%nat 0) (λ w, word_is w (bigSigma0 z)).
Proof. solve_sigma. Qed.
Lemma smallSigma1_ok word z : word_is word z →
  circuit_ok (sigmaRot word [19; 61]%nat 6) (λ w, word_is w (smallSigma1 z)).
Proof. solve_sigma. Qed.
Lemma smallSigma0_ok word z : word_is word z →
  circuit_ok (sigmaRot word [1; 8]%nat 7) (λ w, word_is w (smallSigma0 z)).
Proof. solve_sigma. Qed.
End round_functions.

(** ** The message schedule *)

Section schedule_proofs.
Context `{Gadgets}.

Lemma words_lookup ws zs i : Forall2 word_is ws zs → (i < length ws)%nat →
  word_is (ws !!! i) (zs !!! i).
Proof.
  intros Hws Hi. destruct (lookup_lt_is_Some_2 _ _ Hi) as [w Hw].
  destruct (Forall2_lookup_l _ _ _ _ _ Hws Hw) as (z & Hz & Hwz).
  by rewrite (list_lookup_total_correct _ _ _ Hw), (list_lookup_total_correct _ _ _ Hz).
Qed.

Lemma PackMSB_is us bs : bytes_are us bs → length bs = 8%nat →
  word_is (uapi_PackMSB us) (be_val bs).
Proof.
  intros [<- Hb] Hl. rewrite length_fmap in Hl. unfold be_val. apply word_is_intro.
  - rewrite <- (length_fmap value), PackMSB_bytes, length_rev. by rewrite length_fmap.
  - rewrite PackMSB_bytes. by apply Forall_rev.
  - by rewrite PackMSB_bytes.
Qed.

Lemma bytes_are_take us bs n : bytes_are us bs → bytes_are (take n us) (take n bs).
Proof. intros [<- Hb]. split; [by rewrite fmap_take|by apply Forall_take]. Qed.
Lemma bytes_are_drop us bs n : bytes_are us bs → bytes_are (drop n us) (drop n bs).
Proof. intros [<- Hb]. split; [by rewrite fmap_drop|by apply Forall_drop]. Qed.

Lemma bytes_are_take_all us bs n : bytes_are us bs → (length bs <= n)%nat →
  bytes_are (take n us) bs.
Proof. intros Hu Hn. rewrite take_ge; [done|]. by rewrite (bytes_are_length _ _ Hu). Qed.

Lemma block_words p block : bytes_are p block → length block = 128%nat →
  Forall2 word_is ((λ i, uapi_PackMSB (take 8 (drop (8 * i) p))) <$> seq 0 16)
    ((λ i, be_val (take 8 (drop (8 * i) block))) <$> seq 0 16).
Proof.
  intros Hp Hl. apply Forall2_fmap, Forall_Forall2_diag, Forall_forall.
  intros i Hi%elem_of_seq. apply PackMSB_is.
  - by apply bytes_are_take, bytes_are_drop.
  - rewrite length_take, length_drop. lia.
Qed.

(** The words computed so far, as many as the loop counter says. *)
Definition schedule_rel (i : nat) (ws : list U64) (zs : list Z) : Prop :=
  Forall2 word_is ws zs ∧ length ws = i.

Lemma extend_word_ok i ws zs : (16 <= i)%nat → schedule_rel i ws zs →
  circuit_ok (extend_word i ws) (λ ws', schedule_rel (S i) ws' (schedule_step i zs)).
Proof.
  intros Hi [Hws Hl].
  pose proof (words_lookup _ _ (i - 2) Hws ltac:(lia)) as H2.
  pose proof (words_lookup _ _ (i - 7) Hws ltac:(lia)) as H7.
  pose proof (words_lookup _ _ (i - 15) Hws ltac:(lia)) as H15.
  pose proof (words_lookup _ _ (i - 16) Hws ltac:(lia)) as H16.
  unfold extend_word, schedule_step.
  step (by apply smallSigma1_ok) as s1 Hs1.
  step (by apply smallSigma0_ok) as s0 Hs0.
  step (apply Add64_sum; [solve_words|done|simpl; lia..]) as wi Hwi.
  apply ok_ret. split; [|rewrite length_app, Hl; simpl; lia].
  apply Forall2_app; [done|]. apply Forall2_cons_2; [|done]. cbn [zsum] in Hwi.
  by rewrite Z.add_0_r, !Z.add_assoc in Hwi.
Qed.

Lemma schedule_ok p block : bytes_are p block → length block = 128%nat →
  circuit_ok
    (for_range 16 64 extend_word ((λ i, uapi_PackMSB (take 8 (drop (8 * i) p))) <$> seq 0 16))
    (λ ws, schedule_rel 80 ws (schedule block)).
Proof.
  intros Hp Hl. change 80%nat with (16 + 64)%nat. unfold schedule.
  refine (ok_for_sim schedule_rel 16 64 extend_word schedule_step _ _ _ _).
  - split; [by apply block_words|]. by rewrite length_fmap, length_seq.
  - intros i ws zs Hi. apply extend_word_ok. lia.
Qed.
End schedule_proofs.

(** ** One round and the compression function *)

Section permute_proofs.
Context `{Gadgets}.

Lemma NewU64s_are zs : Forall (λ z, 0 <= z < 2 ^ 64) zs → Forall2 word_is (NewU64 <$> zs) zs.
Proof.
  induction 1 as [|z zs Hz _ IH]; [apply Forall2_nil_2|].
  rewrite fmap_cons. apply Forall2_cons_2; [by apply NewU64_is|done].
Qed.

Definition w64b (z : Z) : bool := (0 <=? z) && (z <? 2 ^ 64).
Lemma w64b_Forall zs : forallb w64b zs = true → Forall (λ z, 0 <= z < 2 ^ 64) zs.
Proof.
  rewrite forallb_forall, Forall_forall. setoid_rewrite list_elem_of_In.
  intros Hz z Hi. apply Hz in Hi. unfold w64b in Hi. bool_to_prop. lia.
Qed.

Lemma _K512_are : Forall2 word_is _K512 K512.
Proof. apply NewU64s_are, w64b_Forall. by vm_compute. Qed.
Lemma sha512InitialState_is : Forall2 word_is sha512InitialState seed512.
Proof. apply NewU64s_are, w64b_Forall. by vm_compute. Qed.

Record regs_are (r : regs U64) (z : regs Z) : Prop := {
  regs_a : word_is (ra r) (ra z); regs_b : word_is (rb r) (rb z);
  regs_c : word_is (rc r) (rc z); regs_d : word_is (rd r) (rd z);
  regs_e : word_is (re r) (re z); regs_f : word_is (rf r) (rf z);
  regs_g : word_is (rg r) (rg z); regs_h : word_is (rh r) (rh z) }.

(** The working variables, and [b ^ c] carried from the previous round. *)
Definition round_rel (st : regs U64 * U64) (z : regs Z) : Prop :=
  regs_are st.1 z ∧ word_is st.2 (Z.lxor (rb z) (rc z)).

Lemma round_gadget_ok w ws i st z :
  schedule_rel 80 w ws → (i < 80)%nat → round_rel st z →
  circuit_ok (round_gadget w i st) (λ st', round_rel st' (round ws i z)).
Proof.
  intros [Hw Hl] Hi. destruct st as [[a b c d e f g h] bXorC].
  destruct z as [za zb zc zd ze zf zg zh]. intros [[Ha Hb Hc Hd He Hf Hg Hh] Hbc].
  cbn [fst snd ra rb rc rd re rf rg rh] in *. pose proof field_large.
  pose proof (words_lookup _ _ i _K512_are ltac:(exact Hi)) as HK.
  pose proof (words_lookup _ _ i Hw ltac:(lia)) as HW.
  unfold round_gadget.
  step (by apply bigSigma1_ok) as se Hse.
  step (by apply (choose_ok e f g ze zf zg)) as ch Hch.
  step (apply NativeSum64_ok; [solve_words|done|simpl; lia]) as t1 Ht1.
  step (by apply Xor2_ok) as ab Hab.
  step (by apply bigSigma0_ok) as sa Hsa.
  step (by apply (majorityFromXors_ok b ab bXorC za zb zc)) as maj Hmaj.
  step (apply NativeSum64_ok; [solve_words|done|simpl; lia]) as t2 Ht2.
  step (by apply ToValue_ok) as dv Hdv.
  cbn [zsum] in Ht1, Ht2.
  pose proof (word_is_range _ _ Hse). pose proof (word_is_range _ _ Hch).
  pose proof (word_is_range _ _ Hsa). pose proof (word_is_range _ _ Hmaj).
  pose proof (word_is_range _ _ Hh). pose proof (word_is_range _ _ HK).
  pose proof (word_is_range _ _ HW). pose proof (word_is_range _ _ Hd).
  assert (value (api_Add dv t1) = value dv + value t1) as E1
    by (apply value_Add_small; lia).
  assert (value (api_Add t1 t2) = value t1 + value t2) as E2
    by (apply value_Add_small; lia).
  step (apply Materialize64_ok; [lia..|]; change (2 ^ (64 + Z.of_nat 3)) with (8 * 2 ^ 64); lia)
    as e' He'.
  step (apply Materialize64_ok; [lia..|]; change (2 ^ (64 + Z.of_nat 3)) with (8 * 2 ^ 64); lia)
    as a' Ha'.
  apply ok_ret. unfold round. cbn [ra rb rc rd re rf rg rh].
  rewrite E1, Hdv, Ht1 in He'. rewrite E2, Ht1, Ht2 in Ha'.
  split; [|done]. split; try done.
  - eapply word_is_eq; [exact Ha'|cbn; f_equal; lia].
  - eapply word_is_eq; [exact He'|cbn; f_equal; lia].
Qed.

Lemma regs_of_words ws zs : Forall2 word_is ws zs → length ws = 8%nat →
  regs_are (regs_of_list ws) (regs_of_list zs).
Proof. intros Hws Hl. unfold regs_of_list. split; apply (words_lookup _ _ _ Hws); lia. Qed.

Lemma regs_to_words r z : regs_are r z → Forall2 word_is (regs_to_list r) (regs_to_list z).
Proof. intros []. unfold regs_to_list. solve_words. Qed.

Lemma feed_forward_ok ihs rs xs ys : Forall2 word_is ihs xs → Forall2 word_is rs ys →
  circuit_ok (feed_forward ihs rs) (λ os, Forall2 word_is os (zip_with (λ x y, w64 (x + y)) xs ys)).
Proof.
  intros Hih. revert rs ys.
  induction Hih as [|ih x ihs xs Hx _ IH]; intros rs ys Hrs; [by apply ok_ret|].
  destruct Hrs as [|r y rs ys Hy Hrs]; [by apply ok_ret|]. cbn [feed_forward zip_with].
  step (apply (Add64_sum 1 [ih; r] [x; y]); [solve_words|done|simpl; lia..]) as o Ho.
  step (by apply IH) as os Hos. apply ok_ret, Forall2_cons_2; [|done].
  eapply word_is_eq; [exact Ho|]. cbn [zsum]. by rewrite Z.add_0_r.
Qed.

Lemma Permute512_spec hash p hs block :
  Forall2 word_is hash hs → length hash = 8%nat → bytes_are p block → length block = 128%nat →
  circuit_ok (Permute512 hash p) (λ out, Forall2 word_is out (compress hs block)).
Proof.
  intros Hh Hl Hp Hb. unfold Permute512, compress.
  pose proof (regs_of_words _ _ Hh Hl) as Hr.
  step (by apply schedule_ok) as w Hw.
  step (eapply Xor2_ok; apply Hr) as bc Hbc.
  eapply ok_bind.
  - apply (ok_for_sim (λ _, round_rel) 0 80 (round_gadget w) (round (schedule block)) _
      (regs_of_list hs)); [by split|].
    intros i st z Hi Hst. apply round_gadget_ok; [done|lia|done].
  - cbv beta. intros [out bc'] [Hout _]. by apply feed_forward_ok, regs_to_words.
Qed.
End permute_proofs.

(** ** Padding *)

Lemma lenbuf_spec z : 0 <= z < 2 ^ 64 →
  replicate 8 0 ++ ((λ i, byte (Z.shiftr z (8 * (7 - Z.of_nat i)))) <$> seq 0 8) = be_bytes 16 z.
Proof.
  intros Hz. unfold be_bytes. change 16%nat with (8 + 8)%nat.
  rewrite digits_app, rev_app_distr by lia.
  change (256 ^ Z.of_nat 8) with (2 ^ 64). rewrite (Z.div_small z) by done. f_equal.
  rewrite digits_seq by lia. cbn [fmap list_fmap seq rev app]. unfold byte.
  repeat f_equal; rewrite Z.shiftr_div_pow2 by lia; done.
Qed.

Lemma zero_pad_spec n :
  Z.to_nat (let z := 111 - Z.of_nat (n `mod` 128) in if z <? 0 then z + 128 else z) =
  zero_pad_len n.
Proof.
  unfold zero_pad_len. pose proof (Nat.mod_upper_bound n 128 ltac:(lia)). cbv zeta.
  destruct (Z.ltb_spec (111 - Z.of_nat (n `mod` 128)) 0), (Nat.leb_spec (n `mod` 128) 111); lia.
Qed.

Lemma length_pad_tail n : length (pad_tail n) = (17 + zero_pad_len n)%nat.
Proof. unfold pad_tail. autorewrite with len. simpl. lia. Qed.

Lemma pad_tail_bytes n : Forall is_byte (pad_tail n).
Proof.
  unfold pad_tail. apply Forall_app; split; [by apply Forall_singleton|].
  apply Forall_app; split; [|auto with bytes]. apply Forall_replicate. split; lia.
Qed.

Section padding.
Context `{Gadgets}.

(** The tail the gadgets append to a message of [n] bytes. *)
Definition pad_wires (n : nat) : list U8 := NewU8Array (pad_tail n).

Lemma padSHA512_eq input : 8 * Z.of_nat (length input) < 2 ^ 64 →
  padSHA512 input = input ++ pad_wires (length input).
Proof.
  intros Hn. unfold padSHA512, pad_wires, pad_tail, NewU8Array, w64.
  rewrite (Z.mod_small (8 * _)), lenbuf_spec by lia.
  change blockSize512 with 128%nat. rewrite zero_pad_spec.
  by rewrite !fmap_app, fmap_replicate.
Qed.

Lemma padSHA512AfterPrefix_eq n suffix :
  (n `mod` 128 = 0)%nat → 8 * Z.of_nat (n + length suffix) < 2 ^ 64 →
  padSHA512AfterPrefix n suffix = Some (suffix ++ pad_wires (n + length suffix)).
Proof.
  intros Hm Hn. unfold padSHA512AfterPrefix, pad_wires, pad_tail, NewU8Array, w64.
  change blockSize512 with 128%nat. rewrite Hm. cbn [negb Nat.eqb].
  rewrite (Z.mod_small (8 * _)), lenbuf_spec, zero_pad_spec by lia.
  by rewrite !fmap_app, fmap_replicate.
Qed.

Lemma pad_wires_are n : bytes_are (pad_wires n) (pad_tail n).
Proof. apply NewU8Array_are, pad_tail_bytes. Qed.
End padding.

(** ** Absorbing blocks *)

Lemma length_compress h block : length h = 8%nat → length (compress h block) = 8%nat.
Proof. intros Hl. unfold compress. rewrite length_zip_with, Hl. done. Qed.

Lemma length_compress_blocks n data h :
  length h = 8%nat → length (compress_blocks n data h) = 8%nat.
Proof.
  intros Hl. apply (loop_range_ind (λ _ h, length h = 8%nat)); [done|].
  intros i s _ Hs. by apply length_compress.
Qed.

Lemma length_hash_padded h data : length h = 8%nat → length (hash_padded h data) = 64%nat.
Proof.
  intros Hl. unfold hash_padded.
  pose proof (length_compress_blocks (length data / 128) data h Hl) as Hc.
  destruct (compress_blocks _ _ _) as [|? [|? [|? [|? [|? [|? [|? [|? [|]]]]]]]]]; done.
Qed.

Lemma hash_padded_bytes h data : Forall is_byte (hash_padded h data).
Proof.
  unfold hash_padded. apply Forall_concat, Forall_fmap, Forall_forall. intros z _.
  apply be_bytes_are_bytes.
Qed.

Lemma length_RefSHA512 msg : length (RefSHA512 msg) = 64%nat.
Proof. by apply length_hash_padded. Qed.

(** Hashing may resume after any whole number of blocks. *)
Lemma compress_blocks_app k m pre data h : length pre = (k * 128)%nat →
  compress_blocks (k + m) (pre ++ data) h = compress_blocks m data (compress_blocks k pre h).
Proof.
  intros Hl. unfold compress_blocks. rewrite loop_range_app.
  assert (∀ i, (i < k)%nat →
    take 128 (drop (i * 128) (pre ++ data)) = take 128 (drop (i * 128) pre)) as Hpre.
  { intros i Hi. rewrite drop_app_le, take_app_le; [done| |lia]. rewrite length_drop. lia. }
  rewrite (loop_range_ext 0 k _ (λ i h, compress h (take 128 (drop (i * 128) pre)))).
  - apply loop_range_shift. intros i s _. rewrite drop_app_ge by lia.
    by replace ((i + k) * 128 - length pre)%nat with (i * 128)%nat by lia.
  - intros i s Hi. by rewrite Hpre by lia.
Qed.

Section absorb.
Context `{Gadgets}.

Lemma absorb_blocks_spec padded data state hs :
  bytes_are padded data → Forall2 word_is state hs → length state = 8%nat →
  circuit_ok (absorb_blocks padded state)
    (λ out, Forall2 word_is out (compress_blocks (length data / 128) data hs)).
Proof.
  intros Hp Hs Hl. pose proof (bytes_are_length _ _ Hp) as Hlen. unfold absorb_blocks.
  change blockSize512 with 128%nat. rewrite Hlen.
  eapply ok_weaken.
  - apply (ok_for_sim (λ _ s t, Forall2 word_is s t ∧ length s = 8%nat) 0 _ _
      (λ i h, compress h (take 128 (drop (i * 128) data))) _ hs); [done|].
    intros i s t Hi [Hst Hls].
    assert (length (take 128 (drop (i * 128) data)) = 128%nat) as Hblock.
    { rewrite length_take, length_drop.
      pose proof (Nat.Div0.mul_div_le (length data) 128). lia. }
    eapply ok_weaken.
    + apply Permute512_spec; [done..|by apply bytes_are_take, bytes_are_drop|done].
    + intros out Hout. split; [done|]. apply Forall2_length in Hout, Hst.
      rewrite Hout. apply length_compress. lia.
  - by intros out [Hout _].
Qed.

Lemma Unpack_words ws zs : Forall2 word_is ws zs →
  bytes_are (concat (uapi_UnpackMSB <$> ws)) (concat (be_bytes 8 <$> zs)).
Proof.
  induction 1 as [|w z ws zs Hw _ IH]; [by split|].
  rewrite !fmap_cons. cbn [concat]. apply bytes_are_app; [|done].
  split; [|apply be_bytes_are_bytes]. rewrite UnpackMSB_bytes. by destruct Hw as [-> _].
Qed.

Lemma Sum512_spec input msg :
  bytes_are input msg → 8 * Z.of_nat (length msg) < 2 ^ 64 →
  circuit_ok (Sum512 input) (λ out, bytes_are out (RefSHA512 msg)).
Proof.
  intros Hin Hn. pose proof (bytes_are_length _ _ Hin) as Hl. unfold Sum512.
  rewrite padSHA512_eq, Hl by by rewrite Hl.
  step (apply absorb_blocks_spec; [by apply bytes_are_app, pad_wires_are|
    apply sha512InitialState_is|done]) as h Hh.
  apply ok_ret. by apply Unpack_words.
Qed.

(** Resuming from the state reached after [pre]. *)
Lemma sum512AfterPrefix_spec state pre suffix bs k :
  bytes_are suffix bs → length pre = (k * 128)%nat →
  Forall2 word_is state (compress_blocks k pre seed512) → length state = 8%nat →
  8 * Z.of_nat (length pre + length bs) < 2 ^ 64 →
  circuit_ok (sum512AfterPrefix state (length pre) suffix)
    (λ out, bytes_are out (RefSHA512 (pre ++ bs))).
Proof.
  intros Hsuf Hpre Hst Hls Hn. pose proof (bytes_are_length _ _ Hsuf) as Hl.
  unfold sum512AfterPrefix. rewrite padSHA512AfterPrefix_eq, Hl; last first.
  { by rewrite Hl. } { rewrite Hpre. apply Nat.Div0.mod_mul. }
  step (apply absorb_blocks_spec; [by apply bytes_are_app, pad_wires_are|done..]) as h Hh.
  apply ok_ret. unfold RefSHA512, hash_padded. rewrite <- app_assoc, length_app.
  rewrite (length_app pre), Hpre, (Nat.add_comm (k * 128)).
  rewrite Nat.div_add, (Nat.add_comm _ k) by lia.
  rewrite compress_blocks_app by done. rewrite <- Hpre.
  by apply Unpack_words.
Qed.
End absorb.

(** ** Wires that are not bytes are refused *)

Section rejection.
Context `{Gadgets}.

Lemma not_bytes_lookup (us : list var) : ¬ Forall is_byte (value <$> us) →
  ∃ i u, us !! i = Some u ∧ ¬ is_byte (value u).
Proof.
  intros Hb. rewrite Forall_fmap in Hb. apply not_Forall_Exists in Hb; [|solve_decision].
  apply Exists_exists in Hb as (u & [i Hi]%list_elem_of_lookup & Hu). by exists i, u.
Qed.

Lemma ToValues_rejects ws j w : ws !! j = Some w → length w = 8%nat →
  ¬ Forall is_byte (value <$> w) → rejects (ToValues ws).
Proof.
  intros Hj Hl Hb. revert j Hj. induction ws as [|v ws IH]; intros [|j] Hj; simplify_eq/=.
  - by apply rejects_bind_l, ToValue_rejects.
  - apply rejects_bind_r. intros x. apply rejects_bind_l. by eapply IH.
Qed.

Lemma extend_word_prefix i ws : Sound (extend_word i ws) (λ ws', ∃ wi, ws' = ws ++ [wi]).
Proof.
  do 3 (apply (Sound_bind _ _ (λ _, True)); [by intros ????|]; intros ? _).
  apply ok_ret. eauto.
Qed.

(** Every one of the sixteen message words enters an addition of the schedule. *)
Lemma schedule_rejects ws j w : length ws = 16%nat → ws !! j = Some w → length w = 8%nat →
  ¬ Forall is_byte (value <$> w) → rejects (for_range 16 64 extend_word ws).
Proof.
  intros Hl Hj Hlw Hb. pose proof (lookup_lt_Some _ _ _ Hj) as Hlt.
  apply (rejects_for (λ i ws', ∃ l, ws' = ws ++ l) _ _ _ _ (16 + j)); [lia| | |].
  - exists []. by rewrite app_nil_r.
  - intros i s _ [l ->]. eapply Sound_weaken; [apply extend_word_prefix|].
    intros ws' [wi ->]. exists (l ++ [wi]). by rewrite app_assoc.
  - intros ws' [l ->]. unfold extend_word.
    apply rejects_bind_r. intros s1. apply rejects_bind_r. intros s0.
    apply rejects_bind_l. unfold Add64, NativeSum64. apply rejects_bind_l, rejects_bind_l.
    apply (ToValues_rejects _ 3 w); [|done..]. cbn [lookup list_lookup]. f_equal.
    replace (16 + j - 16)%nat with j by lia.
    apply list_lookup_total_correct. by rewrite lookup_app_l by lia.
Qed.

Lemma Permute512_rejects hash p : length p = 128%nat → ¬ Forall is_byte (value <$> p) →
  rejects (Permute512 hash p).
Proof.
  intros Hl Hb. apply not_bytes_lookup in Hb as (i & u & Hi & Hu).
  pose proof (lookup_lt_Some _ _ _ Hi). unfold Permute512. apply rejects_bind_l.
  assert (i / 8 < 16)%nat by (apply Nat.Div0.div_lt_upper_bound; lia).
  apply (schedule_rejects _ (i / 8) (uapi_PackMSB (take 8 (drop (8 * (i / 8)) p)))).
  - by rewrite length_fmap, length_seq.
  - rewrite list_lookup_fmap, lookup_seq_lt by done. done.
  - rewrite <- (length_fmap value), PackMSB_bytes, length_rev, length_fmap.
    rewrite length_take, length_drop.
    pose proof (Nat.Div0.mul_div_le i 8). lia.
  - rewrite PackMSB_bytes. intros Hall. apply Forall_rev in Hall.
    rewrite rev_involutive, Forall_fmap in Hall. apply Hu.
    apply (Forall_lookup_1 _ _ (i `mod` 8) _ Hall).
    rewrite lookup_take_lt by (apply Nat.mod_upper_bound; lia).
    rewrite lookup_drop. by rewrite <- Nat.div_mod_eq.
Qed.

Lemma absorb_rejects padded state :
  (128 | length padded)%nat → ¬ Forall is_byte (value <$> padded) →
  rejects (absorb_blocks padded state).
Proof.
  intros [m Hm] Hb. apply not_bytes_lookup in Hb as (i & u & Hi & Hu).
  pose proof (lookup_lt_Some _ _ _ Hi) as Hlt. unfold absorb_blocks.
  change blockSize512 with 128%nat. rewrite Hm, Nat.div_mul by lia.
  pose proof (Nat.div_mod_eq i 128). pose proof (Nat.mod_upper_bound i 128 ltac:(lia)).
  assert (i / 128 < m)%nat by nia.
  apply (rejects_for (λ _ _, True) _ _ _ _ (i / 128)); [lia|done|by intros ? ? _ _ ? ?|].
  intros s _. apply Permute512_rejects.
  - rewrite length_take, length_drop. nia.
  - rewrite Forall_fmap. intros Hall. apply Hu.
    apply (Forall_lookup_1 _ _ (i `mod` 128) _ Hall).
    rewrite lookup_take_lt by done. rewrite lookup_drop.
    by replace (i / 128 * 128 + i `mod` 128)%nat with i by lia.
Qed.

Lemma padded_blocks n : (128 | n + length (pad_tail n))%nat.
Proof.
  rewrite length_pad_tail. unfold zero_pad_len.
  pose proof (Nat.div_mod_eq n 128). pose proof (Nat.mod_upper_bound n 128 ltac:(lia)).
  destruct (Nat.leb_spec (n `mod` 128) 111);
    [exists (n / 128 + 1)%nat|exists (n / 128 + 2)%nat]; lia.
Qed.

Lemma length_pad_wires n : length (pad_wires n) = length (pad_tail n).
Proof. apply length_fmap. Qed.

Lemma not_bytes_app_l us vs :
  ¬ Forall is_byte (value <$> us) → ¬ Forall is_byte (value <$> us ++ vs).
Proof. rewrite fmap_app, Forall_app. tauto. Qed.
Lemma not_bytes_app_r us vs :
  ¬ Forall is_byte (value <$> vs) → ¬ Forall is_byte (value <$> us ++ vs).
Proof. rewrite fmap_app, Forall_app. tauto. Qed.

Lemma Sum512_rejects input : 8 * Z.of_nat (length input) < 2 ^ 64 →
  ¬ Forall is_byte (value <$> input) → rejects (Sum512 input).
Proof.
  intros Hn Hb. unfold Sum512. rewrite padSHA512_eq by done. apply rejects_bind_l, absorb_rejects.
  - rewrite length_app, length_pad_wires. apply padded_blocks.
  - by apply not_bytes_app_l.
Qed.

Lemma sum512AfterPrefix_rejects state n suffix :
  (n `mod` 128 = 0)%nat → 8 * Z.of_nat (n + length suffix) < 2 ^ 64 →
  ¬ Forall is_byte (value <$> suffix) → rejects (sum512AfterPrefix state n suffix).
Proof.
  intros Hm Hn Hb. unfold sum512AfterPrefix. rewrite padSHA512AfterPrefix_eq by done.
  apply rejects_bind_l, absorb_rejects.
  - rewrite length_app, length_pad_wires. destruct (padded_blocks (n + length suffix)) as [m Hd].
    rewrite (Nat.div_mod_eq n 128), Hm in Hd at 1.
    exists (m - n / 128)%nat. lia.
  - by apply not_bytes_app_l.
Qed.
End rejection.

(** ** HMAC *)

Lemma length_hmac_key key : length (hmac_key key) = 128%nat.
Proof.
  unfold hmac_key. destruct (Nat.ltb_spec 128 (length key)).
  - rewrite length_app, length_replicate, length_RefSHA512. done.
  - rewrite length_app, length_replicate. lia.
Qed.

Section hmac_proofs.
Context `{Gadgets}.
Definition fits_sha512 (n : nat) : Prop := 8 * (Z.of_nat n + 128) < 2 ^ 64.

Lemma RefSHA512_bytes msg : Forall is_byte (RefSHA512 msg).
Proof. apply hash_padded_bytes. Qed.

Lemma zero_wires n : bytes_are (replicate n (NewU8 0)) (replicate n 0).
Proof.
  split; [rewrite fmap_replicate; by unfold NewU8; rewrite value_constant_small|].
  apply Forall_replicate. split; lia.
Qed.

Lemma hmac_k0_spec key ks : bytes_are key ks → fits_sha512 (length ks) →
  circuit_ok (hmac_k0 key) (λ k0, bytes_are k0 (hmac_key ks)).
Proof.
  intros Hk Hn. unfold fits_sha512 in Hn. pose proof (bytes_are_length _ _ Hk) as Hl.
  unfold hmac_k0, hmac_key. change blockSize512 with 128%nat. rewrite Hl.
  destruct (128 <? length ks)%nat.
  - step (apply Sum512_spec; [done|lia]) as kh Hkh. apply ok_ret.
    rewrite length_RefSHA512. apply bytes_are_app; [done|apply zero_wires].
  - apply ok_ret. apply bytes_are_app; [done|apply zero_wires].
Qed.

Lemma pad_byte_ok u b pad : u8_is u b → is_byte pad →
  circuit_ok (bapi_Xor u (NewU8 pad)) (λ w, u8_is w (Z.lxor pad b)).
Proof. intros Hu Hp. rewrite Z.lxor_comm. apply bXor_ok; [done|by apply NewU8_is]. Qed.

Lemma xor_pad_snoc (out : list U8) pad ks i w b :
  bytes_are out (Z.lxor pad <$> take i ks) → ks !! i = Some b → u8_is w (Z.lxor pad b) →
  bytes_are (out ++ [w]) (Z.lxor pad <$> take (S i) ks).
Proof.
  intros Hout Hi [Hw Hb]. rewrite (take_S_r _ _ _ Hi), fmap_app.
  apply bytes_are_app; [done|]. split; [by rewrite fmap_cons, Hw|by apply Forall_singleton].
Qed.

Lemma key_byte k0 ks i : bytes_are k0 ks → (i < length ks)%nat →
  ∃ b, ks !! i = Some b ∧ u8_is (k0 !!! i) b.
Proof.
  intros Hk Hi. destruct (lookup_lt_is_Some_2 _ _ Hi) as [b Hb]. exists b. split; [done|].
  by destruct (bytes_are_lookup _ _ _ _ Hk Hb).
Qed.

Lemma xor_pad_spec k0 ks pad : bytes_are k0 ks → length ks = 128%nat → is_byte pad →
  circuit_ok (xor_pad k0 (NewU8 pad)) (λ out, bytes_are out (Z.lxor pad <$> ks)).
Proof.
  intros Hk Hl Hp. eapply ok_weaken.
  - apply (ok_for (λ i out, bytes_are out (Z.lxor pad <$> take i ks))); [by split|].
    intros i out Hi Hout. change blockSize512 with 128%nat in Hi.
    destruct (key_byte _ _ i Hk) as (b & Hb & Hu); [lia|].
    step (by apply pad_byte_ok) as w Hw. apply ok_ret. by eapply xor_pad_snoc.
  - intros out Hout. change blockSize512 with 128%nat in Hout.
    by rewrite take_ge in Hout by lia.
Qed.

Lemma key_blocks_spec key ks : bytes_are key ks → fits_sha512 (length ks) →
  circuit_ok (hmacSHA512KeyBlocks key) (λ '(i, o),
    bytes_are i (Z.lxor 0x36 <$> hmac_key ks) ∧ bytes_are o (Z.lxor 0x5c <$> hmac_key ks)).
Proof.
  intros Hk Hn. unfold hmacSHA512KeyBlocks.
  step (by apply hmac_k0_spec) as k0 Hk0. pose proof (length_hmac_key ks) as Hl.
  eapply ok_weaken.
  - apply (ok_for (λ n '(i, o), bytes_are i (Z.lxor 0x36 <$> take n (hmac_key ks)) ∧
      bytes_are o (Z.lxor 0x5c <$> take n (hmac_key ks)))); [by split|].
    intros n [i o] Hi [Hin Hout]. change blockSize512 with 128%nat in Hi.
    destruct (key_byte _ _ n Hk0) as (b & Hb & Hu); [lia|].
    step (by apply pad_byte_ok) as wi Hwi. step (by apply pad_byte_ok) as wo Hwo.
    apply ok_ret. by split; eapply xor_pad_snoc.
  - intros [i o] Hio. change blockSize512 with 128%nat in Hio.
    by rewrite take_ge in Hio by lia.
Qed.

Lemma hmac_k0_rejects key : fits_sha512 (length key) → ¬ Forall is_byte (value <$> key) →
  (128 < length key)%nat → rejects (hmac_k0 key).
Proof.
  intros Hn Hb Hl. unfold hmac_k0, fits_sha512 in *. change blockSize512 with 128%nat.
  rewrite (proj2 (Nat.ltb_lt _ _)) by done.
  apply rejects_bind_l, Sum512_rejects; [lia|done].
Qed.

(** A key no longer than a block reaches the pads as it is. *)
Lemma short_key_byte key : ¬ Forall is_byte (value <$> key) → (length key <= 128)%nat →
  Sound (hmac_k0 key) (λ k0, ∃ j, (j < 128)%nat ∧ ¬ is_byte (value (k0 !!! j))).
Proof.
  intros Hb Hl. unfold hmac_k0. change blockSize512 with 128%nat.
  rewrite (proj2 (Nat.ltb_ge _ _)) by lia. apply ok_ret.
  apply not_bytes_lookup in Hb as (j & u & Hj & Hu).
  pose proof (lookup_lt_Some _ _ _ Hj). exists j. split; [lia|].
  rewrite lookup_total_app_l by lia. by rewrite (list_lookup_total_correct _ _ _ Hj).
Qed.

Lemma xor_pad_rejects k0 pad j : (j < 128)%nat → ¬ is_byte (value (k0 !!! j)) →
  rejects (xor_pad k0 pad).
Proof.
  intros Hj Hb. unfold xor_pad. change blockSize512 with 128%nat.
  apply (rejects_for (λ _ _, True) _ _ _ _ j); [lia|done|by intros ? ? _ _ ? ?|].
  intros s _. by apply rejects_bind_l, bXor_rejects.
Qed.

(** [Sum512] is SHA-512 of the input bytes for every input the length field can
    express: every accepted prover ends with the digest, the honest prover is
    accepted, and an input with a wire outside the byte range is refused. *)
Theorem Sum512_exact input : 8 * Z.of_nat (length input) < 2 ^ 64 →
  let msg := value <$> input in
  (Forall is_byte msg → circuit_ok (Sum512 input) (λ out, bytes_are out (RefSHA512 msg))) ∧
  (¬ Forall is_byte msg → rejects (Sum512 input)).
Proof.
  intros Hn msg. split; intros Hb.
  - apply Sum512_spec; [done|]. unfold msg. by rewrite length_fmap.
  - by apply Sum512_rejects.
Qed.

Lemma Sound_length_xor_pad k0 pad : Sound (xor_pad k0 pad) (λ out, length out = 128%nat).
Proof.
  apply (Sound_for (λ i out, length out = i)); [done|]. intros i out _ Hl.
  apply (Sound_bind _ _ (λ _, True)); [by intros ????|]. intros b _. apply ok_ret.
  rewrite length_app, Hl. simpl. lia.
Qed.

Lemma HMACSHA512_spec key msg ks ms : bytes_are key ks → bytes_are msg ms →
  fits_sha512 (length ks) → fits_sha512 (length ms) →
  circuit_ok (HMACSHA512 key msg) (λ out, bytes_are out (RefHMACSHA512 ks ms)).
Proof.
  intros Hk Hm Hks Hms. unfold HMACSHA512. pose proof (length_hmac_key ks) as Hl.
  step (by apply hmac_k0_spec with (ks := ks)) as k0 Hk0.
  step (by apply xor_pad_spec) as inner Hi.
  step (apply Sum512_spec with (msg := (Z.lxor 0x36 <$> hmac_key ks) ++ ms);
    [by apply bytes_are_app|]) as ih Hih.
  { unfold fits_sha512 in *. rewrite length_app, length_fmap. lia. }
  step (by apply xor_pad_spec) as outer Ho.
  apply Sum512_spec; [by apply bytes_are_app|].
  rewrite length_app, length_fmap, Hl, length_RefSHA512. lia.
Qed.

Lemma HMACSHA512_rejects key msg : fits_sha512 (length key) → fits_sha512 (length msg) →
  ¬ (Forall is_byte (value <$> key) ∧ Forall is_byte (value <$> msg)) →
  rejects (HMACSHA512 key msg).
Proof.
  intros Hk Hm Hn. unfold HMACSHA512.
  destruct (decide (Forall is_byte (value <$> key))) as [Hkb|Hkb].
  - apply rejects_bind_r. intros k0.
    eapply rejects_bind; [apply Sound_length_xor_pad|]. intros inner Hl.
    apply rejects_bind_l, Sum512_rejects.
    + unfold fits_sha512 in Hm. rewrite length_app, Hl. lia.
    + apply not_bytes_app_r. tauto.
  - destruct (le_lt_dec (length key) 128) as [Hle|Hlt].
    + eapply rejects_bind; [by apply short_key_byte|]. intros k0 (j & Hj & Hb).
      apply rejects_bind_l. by apply (xor_pad_rejects _ _ j).
    + apply rejects_bind_l. by apply hmac_k0_rejects.
Qed.

(** [HMACSHA512] is HMAC-SHA512 (RFC 2104) of the key and message bytes, long
    keys hashed first, for every prover; a key or message wire outside the byte
    range is refused. *)
Theorem HMACSHA512_exact key msg : fits_sha512 (length key) → fits_sha512 (length msg) →
  let ks := value <$> key in let ms := value <$> msg in
  (Forall is_byte ks ∧ Forall is_byte ms →
    circuit_ok (HMACSHA512 key msg) (λ out, bytes_are out (RefHMACSHA512 ks ms))) ∧
  (¬ (Forall is_byte ks ∧ Forall is_byte ms) → rejects (HMACSHA512 key msg)).
Proof.
  intros Hk Hm ks ms. split.
  - intros [Hkb Hmb]. apply HMACSHA512_spec; try done; unfold ks, ms; by rewrite length_fmap.
  - by apply HMACSHA512_rejects.
Qed.

Lemma key_blocks_rejects key : fits_sha512 (length key) → ¬ Forall is_byte (value <$> key) →
  rejects (hmacSHA512KeyBlocks key).
Proof.
  intros Hn Hb. destruct (le_lt_dec (length key) 128) as [Hle|Hlt].
  - eapply rejects_bind; [by apply short_key_byte|]. intros k0 (j & Hj & Hjb).
    change blockSize512 with 128%nat.
    apply (rejects_for (λ _ _, True) _ _ _ _ j); [lia|done|by intros ? ? _ _ ? ?|].
    intros [i o] _. by apply rejects_bind_l, bXor_rejects.
  - apply rejects_bind_l. by apply hmac_k0_rejects.
Qed.

Lemma one_block_state pre block :
  bytes_are block pre → length pre = 128%nat →
  circuit_ok (Permute512 sha512InitialState block)
    (λ st, Forall2 word_is st (compress_blocks 1 pre seed512) ∧ length st = 8%nat).
Proof.
  intros Hb Hl. eapply ok_weaken.
  - apply Permute512_spec; [apply sha512InitialState_is|done..].
  - intros st Hst. unfold compress_blocks. cbn [loop_range Nat.mul].
    rewrite drop_0, take_ge by lia. split; [done|].
    apply Forall2_length in Hst. rewrite Hst. by apply length_compress.
Qed.

Lemma after_block_spec state pre suffix bs :
  bytes_are suffix bs → length pre = 128%nat → fits_sha512 (length bs) →
  Forall2 word_is state (compress_blocks 1 pre seed512) ∧ length state = 8%nat →
  circuit_ok (sum512AfterPrefix state blockSize512 suffix)
    (λ out, bytes_are out (RefSHA512 (pre ++ bs))).
Proof.
  intros Hs Hp Hn [Hst Hl]. change blockSize512 with 128%nat. rewrite <- Hp at 1.
  apply (sum512AfterPrefix_spec _ _ _ _ 1); [done..|].
  unfold fits_sha512 in Hn. rewrite Hp. lia.
Qed.

Lemma fmap_128 pad ks : length (Z.lxor pad <$> hmac_key ks) = 128%nat.
Proof. by rewrite length_fmap, length_hmac_key. Qed.

Lemma HMACSHA512Pair_spec key msg1 msg2 ks ms1 ms2 :
  bytes_are key ks → bytes_are msg1 ms1 → bytes_are msg2 ms2 →
  fits_sha512 (length ks) → fits_sha512 (length ms1) → fits_sha512 (length ms2) →
  circuit_ok (HMACSHA512Pair key msg1 msg2) (λ '(mac1, mac2),
    bytes_are mac1 (RefHMACSHA512 ks ms1) ∧ bytes_are mac2 (RefHMACSHA512 ks ms2)).
Proof.
  intros Hk Hb1 Hb2 Hks Hm1 Hm2. unfold HMACSHA512Pair.
  assert (fits_sha512 64) by done.
  step (by apply key_blocks_spec with (ks := ks)) as [ib ob] [Hib Hob].
  step (apply one_block_state; [exact Hib|apply fmap_128]) as ist Hist.
  pose proof (λ st suffix bs Hs Hb, after_block_spec st _ suffix bs Hs (fmap_128 0x36 ks) Hb) as Hin.
  pose proof (λ st suffix bs Hs Hb, after_block_spec st _ suffix bs Hs (fmap_128 0x5c ks) Hb) as Hout.
  step (by apply (Hin _ _ ms1)) as i1 Hi1. step (by apply (Hin _ _ ms2)) as i2 Hi2.
  step (apply one_block_state; [exact Hob|apply fmap_128]) as ost Host.
  step (apply (Hout _ _ _ Hi1); [by rewrite length_RefSHA512|done]) as m1 Hm1'.
  step (apply (Hout _ _ _ Hi2); [by rewrite length_RefSHA512|done]) as m2 Hm2'.
  apply ok_ret. unfold RefHMACSHA512. split; [exact Hm1'|exact Hm2'].
Qed.

Lemma HMACSHA512Pair_rejects key msg1 msg2 :
  fits_sha512 (length key) → fits_sha512 (length msg1) → fits_sha512 (length msg2) →
  ¬ (Forall is_byte (value <$> key) ∧ Forall is_byte (value <$> msg1) ∧
     Forall is_byte (value <$> msg2)) →
  rejects (HMACSHA512Pair key msg1 msg2).
Proof.
  intros Hk Hm1 Hm2 Hn. unfold HMACSHA512Pair. unfold fits_sha512 in Hm1, Hm2.
  destruct (decide (Forall is_byte (value <$> key))) as [Hkb|Hkb]; last first.
  { by apply rejects_bind_l, key_blocks_rejects. }
  apply rejects_bind_r. intros [ib ob]. apply rejects_bind_r. intros ist.
  destruct (decide (Forall is_byte (value <$> msg1))) as [Hb1|Hb1]; last first.
  { apply rejects_bind_l, sum512AfterPrefix_rejects; [done| |done].
    change blockSize512 with 128%nat. lia. }
  apply rejects_bind_r. intros i1. apply rejects_bind_l, sum512AfterPrefix_rejects; [done| |].
  - change blockSize512 with 128%nat. lia.
  - intros Hb2. by apply Hn.
Qed.

(** C34 [HMACSHA512Pair] shares the keyed prefix blocks between two messages and
    still outputs the two independent HMACs of them under one key, for every
    prover; a key or message wire outside the byte range is refused. *)
Theorem HMACSHA512Pair_exact key msg1 msg2 :
  fits_sha512 (length key) → fits_sha512 (length msg1) → fits_sha512 (length msg2) →
  let ks := value <$> key in let ms1 := value <$> msg1 in let ms2 := value <$> msg2 in
  let bytes := Forall is_byte ks ∧ Forall is_byte ms1 ∧ Forall is_byte ms2 in
  (bytes → circuit_ok (HMACSHA512Pair key msg1 msg2) (λ '(mac1, mac2),
    bytes_are mac1 (RefHMACSHA512 ks ms1) ∧ bytes_are mac2 (RefHMACSHA512 ks ms2))) ∧
  (¬ bytes → rejects (HMACSHA512Pair key msg1 msg2)).
Proof.
  intros Hk Hm1 Hm2 ks ms1 ms2 bytes. split.
  - intros (Hkb & Hb1 & Hb2).
    apply HMACSHA512Pair_spec; try done; unfold ks, ms1, ms2; by rewrite length_fmap.
  - by apply HMACSHA512Pair_rejects.
Qed.
End hmac_proofs.
