(* ===== verification/Blake2bSpec.v ===== *)
(** * BLAKE2b on byte strings (RFC 7693, unkeyed)

    The reference for the gadget of [src/internal/circuit/hash/blake2b.go]; the
    repository's out-of-circuit code takes the same function from
    [golang.org/x/crypto/blake2b]. *)
From S2P Require Import Prelude.
From S2P Require Import Sha512Spec.

(** RFC 7693, 2.6 and 2.7. *)
Definition B2B_IV : list Z := seed512.
Definition B2B_SIGMA : list (list nat) := [
  [0; 1; 2; 3; 4; 5; 6; 7; 8; 9; 10; 11; 12; 13; 14; 15];
  [14; 10; 4; 8; 9; 15; 13; 6; 1; 12; 0; 2; 11; 7; 5; 3];
  [11; 8; 12; 0; 5; 2; 15; 13; 10; 14; 3; 6; 7; 1; 9; 4];
  [7; 9; 3; 1; 13; 12; 11; 14; 2; 6; 5; 10; 4; 0; 15; 8];
  [9; 0; 5; 7; 2; 4; 10; 15; 14; 1; 11; 12; 6; 8; 3; 13];
  [2; 12; 6; 10; 0; 11; 8; 3; 4; 13; 7; 5; 15; 14; 1; 9];
  [12; 5; 1; 15; 14; 13; 4; 10; 0; 7; 6; 3; 9; 2; 8; 11];
  [13; 11; 7; 14; 12; 1; 3; 9; 5; 0; 15; 4; 8; 6; 2; 10];
  [6; 15; 14; 9; 11; 3; 0; 8; 12; 2; 13; 7; 1; 4; 10; 5];
  [10; 2; 8; 4; 7; 6; 1; 5; 15; 11; 9; 14; 3; 12; 13; 0] ]%nat.

(** The mixing function G (3.1) on the working vector. *)
Definition B2B_G (v m : list Z) (x y a b c d : nat) : list Z :=
  let v := <[a := w64 (v !!! a + v !!! b + m !!! x)]> v in
  let v := <[d := rotr 32 (Z.lxor (v !!! d) (v !!! a))]> v in
  let v := <[c := w64 (v !!! c + v !!! d)]> v in
  let v := <[b := rotr 24 (Z.lxor (v !!! b) (v !!! c))]> v in
  let v := <[a := w64 (v !!! a + v !!! b + m !!! y)]> v in
  let v := <[d := rotr 16 (Z.lxor (v !!! d) (v !!! a))]> v in
  let v := <[c := w64 (v !!! c + v !!! d)]> v in
  <[b := rotr 63 (Z.lxor (v !!! b) (v !!! c))]> v.

(** One round: four columns, then four diagonals. *)
Definition B2B_round (m : list Z) (r : nat) (v : list Z) : list Z :=
  let s k := (B2B_SIGMA !!! (r `mod` 10)%nat) !!! k in
  let v := B2B_G v m (s 0%nat) (s 1%nat) 0 4 8 12 in
  let v := B2B_G v m (s 2%nat) (s 3%nat) 1 5 9 13 in
  let v := B2B_G v m (s 4%nat) (s 5%nat) 2 6 10 14 in
  let v := B2B_G v m (s 6%nat) (s 7%nat) 3 7 11 15 in
  let v := B2B_G v m (s 8%nat) (s 9%nat) 0 5 10 15 in
  let v := B2B_G v m (s 10%nat) (s 11%nat) 1 6 11 12 in
  let v := B2B_G v m (s 12%nat) (s 13%nat) 2 7 8 13 in
  B2B_G v m (s 14%nat) (s 15%nat) 3 4 9 14.

(** The compression function F (3.2); [t] is the 128-bit byte counter. *)
Definition B2B_F (h m : list Z) (t : Z) (f : bool) : list Z :=
  let v := h ++ B2B_IV in
  let v := <[12%nat := Z.lxor (v !!! 12%nat) (t mod 2 ^ 64)]> v in
  let v := <[13%nat := Z.lxor (v !!! 13%nat) (t / 2 ^ 64)]> v in
  let v := if f then <[14%nat := Z.lxor (v !!! 14%nat) (2 ^ 64 - 1)]> v else v in
  let v := loop_range 0 12 (B2B_round m) v in
  (λ i, Z.lxor (Z.lxor (h !!! i) (v !!! i)) (v !!! (i + 8)%nat)) <$> seq 0 8.

(** Block [i] of the zero-padded message, as sixteen little-endian words. *)
Definition B2B_block (msg : list Z) (i : nat) : list Z :=
  let block := take 128 (drop (128 * i) msg) in
  let block := block ++ replicate (128 - length block) 0 in
  (λ j, le_val (take 8 (drop (8 * j) block))) <$> seq 0 16.

(** BLAKE2b with an [nn]-byte digest and no key (3.3): all blocks but the last are
    compressed with their running byte count, the last with the total and the
    final flag.  An empty message is one block of zeros. *)
Definition RefBlake2b (msg : list Z) (nn : nat) : list Z :=
  let dd := Nat.max 1 ((length msg + 127) / 128) in
  let h := <[0%nat := Z.lxor (B2B_IV !!! 0%nat) (Z.lxor 0x01010000 (Z.of_nat nn))]> B2B_IV in
  let h := loop_range 0 (dd - 1) (λ i h,
    B2B_F h (B2B_block msg i) (Z.of_nat ((i + 1) * 128)) false) h in
  let h := B2B_F h (B2B_block msg (dd - 1)) (Z.of_nat (length msg)) true in
  take nn (concat (le_bytes 8 <$> h)).

(** Known answers: the RFC's "abc" and the empty 28-byte digest. *)
Example blake2b_abc : RefBlake2b [0x61; 0x62; 0x63] 64 = be_bytes 64
  0xba80a53f981c4d0d6a2797b69f12f6e94c212f14685ac4b74b12bb6fdbffa2d17d87c5392aab792dc252d5de4533cc9518d38aa8dbf1925ab92386edd4009923.
Proof. vm_compute. reflexivity. Qed.
Example blake2b_224_empty : RefBlake2b [] 28 = be_bytes 28
  0x836cc68931c2e4e3e838602eca1902591d216837bafddfe6f0c8cb07.
Proof. vm_compute. reflexivity. Qed.
