(* ===== verification/Blake2b.v ===== *)
(** * The BLAKE2b gadget: [internal/circuit/hash] and [internal/circuit/u64util]

    [blake2b.go], [iface.go] and [rotate.go] as circuits.  [Blake2bCorrect.v] proves
    them equal to RFC 7693. *)
From S2P Require Import Prelude.
From S2P Require Import Gnark.
From S2P Require Import CkdArith.
From S2P Require Import Sha512.

Definition iv : list Z := [
  0x6a09e667f3bcc908; 0xbb67ae8584caa73b; 0x3c6ef372fe94f82b; 0xa54ff53a5f1d36f1;
  0x510e527fade682d1; 0x9b05688c2b3e6c1f; 0x1f83d9abfb41bd6b; 0x5be0cd19137e2179 ].

Definition sigma : list (list nat) := [
  [0; 1; 2; 3; 4; 5; 6; 7; 8; 9; 10; 11; 12; 13; 14; 15];
  [14; 10; 4; 8; 9; 15; 13; 6; 1; 12; 0; 2; 11; 7; 5; 3];
  [11; 8; 12; 0; 5; 2; 15; 13; 10; 14; 3; 6; 7; 1; 9; 4];
  [7; 9; 3; 1; 13; 12; 11; 14; 2; 6; 5; 10; 4; 0; 15; 8];
  [9; 0; 5; 7; 2; 4; 10; 15; 14; 1; 11; 12; 6; 8; 3; 13];
  [2; 12; 6; 10; 0; 11; 8; 3; 4; 13; 7; 5; 15; 14; 1; 9];
  [12; 5; 1; 15; 14; 13; 4; 10; 0; 7; 6; 3; 9; 2; 8; 11];
  [13; 11; 7; 14; 12; 1; 3; 9; 5; 0; 15; 4; 8; 6; 2; 10];
  [6; 15; 14; 9; 11; 3; 0; 8; 12; 2; 13; 7; 1; 4; 10; 5];
  [10; 2; 8; 4; 7; 6; 1; 5; 15; 11; 9; 14; 3; 12; 13; 0];
  [0; 1; 2; 3; 4; 5; 6; 7; 8; 9; 10; 11; 12; 13; 14; 15];
  [14; 10; 4; 8; 9; 15; 13; 6; 1; 12; 0; 2; 11; 7; 5; 3] ]%nat.

Section blake2b.
Context `{Gadgets}.

(** [rotate.go]: [rotated[(i+byteShift) % 8] = word[i]]; the shift is a Go [int]. *)
Definition RotBytes (word : U64) (shift : Z) : Circuit U64 :=
  if negb (Z.rem shift 8 =? 0) then circuit_panic else
  let n := Z.of_nat (length word) in
  let byteShift := Z.rem (Z.quot shift 8) n in
  let byteShift := if byteShift <? 0 then byteShift + n else byteShift in
  mret (loop_range 0 (length word) (λ i rotated,
    <[Z.to_nat ((Z.of_nat i + byteShift) mod n) := word !!! i]> rotated) word).

Definition gRound (v m : list U64) (mx my a b c d : nat) : Circuit (list U64) :=
  va ← Add64 2 [v !!! a; v !!! b; m !!! mx]; let v := <[a := va]> v in
  x ← uapi_Xor [v !!! d; v !!! a]; vd ← RotBytes x 32; let v := <[d := vd]> v in
  vc ← Add64 1 [v !!! c; v !!! d]; let v := <[c := vc]> v in
  x ← uapi_Xor [v !!! b; v !!! c]; vb ← RotBytes x 40; let v := <[b := vb]> v in
  va ← Add64 2 [v !!! a; v !!! b; m !!! my]; let v := <[a := va]> v in
  x ← uapi_Xor [v !!! d; v !!! a]; vd ← RotBytes x 48; let v := <[d := vd]> v in
  vc ← Add64 1 [v !!! c; v !!! d]; let v := <[c := vc]> v in
  x ← uapi_Xor [v !!! b; v !!! c]; vb ← uapi_Lrot x 1;
  mret (<[b := vb]> v).

Definition sigma_at (r k : nat) : nat := (sigma !!! r) !!! k.

Definition blake_round (m : list U64) (r : nat) (v : list U64) : Circuit (list U64) :=
  let s := sigma_at r in
  v ← gRound v m (s 0%nat) (s 1%nat) 0 4 8 12;
  v ← gRound v m (s 2%nat) (s 3%nat) 1 5 9 13;
  v ← gRound v m (s 4%nat) (s 5%nat) 2 6 10 14;
  v ← gRound v m (s 6%nat) (s 7%nat) 3 7 11 15;
  v ← gRound v m (s 8%nat) (s 9%nat) 0 5 10 15;
  v ← gRound v m (s 10%nat) (s 11%nat) 1 6 11 12;
  v ← gRound v m (s 12%nat) (s 13%nat) 2 7 8 13;
  gRound v m (s 14%nat) (s 15%nat) 3 4 9 14.

Definition blake_compress (h m : list U64) (t : Z) (last : bool) : Circuit (list U64) :=
  v12 ← uapi_Xor [NewU64 (iv !!! 4%nat); NewU64 t];
  v14 ← (if last then uapi_Xor [NewU64 (iv !!! 6%nat); NewU64 0xffffffffffffffff]
         else mret (NewU64 (iv !!! 6%nat)));
  let v := h ++ (NewU64 <$> take 4 iv) ++
           [v12; NewU64 (iv !!! 5%nat); v14; NewU64 (iv !!! 7%nat)] in
  v ← for_range 0 12 (blake_round m) v;
  for_range 0 8 (λ i h,
    hi ← uapi_Xor [h !!! i; v !!! i; v !!! (i + 8)%nat]; mret (<[i := hi]> h)) h.

(** [block]: 128 bytes from [base], zero-padded past the end of [input]. *)
Definition blake_block (input : list U8) (base : nat) : list U8 :=
  (λ i, if (base + i <? length input)%nat then input !!! (base + i)%nat else NewU8 0)
    <$> seq 0 128.

Definition Blake2b (input : list U8) (outLen : nat) : Circuit (list U8) :=
  h0 ← uapi_Xor [NewU64 (iv !!! 0%nat); NewU64 (Z.lxor 0x01010000 (Z.of_nat outLen))];
  let h := h0 :: (NewU64 <$> drop 1 iv) in
  let inLen := length input in
  let nBlocks := ((inLen + 127) / 128)%nat in
  let nBlocks := if (nBlocks =? 0)%nat then 1%nat else nBlocks in
  h ← for_range 0 nBlocks (λ mIdx h,
    let block := blake_block input (mIdx * 128) in
    let m := (λ i, uapi_PackLSB (take 8 (drop (i * 8) block))) <$> seq 0 16 in
    let t := ((mIdx + 1) * 128)%nat in
    let t := if (inLen <? t)%nat then inLen else t in
    let last := (mIdx =? nBlocks - 1)%nat in
    blake_compress h m (Z.of_nat t) last) h;
  let out := concat (uapi_UnpackLSB <$> h) in
  if (length out <? outLen)%nat then circuit_panic else mret (take outLen out).

(** [Blake2b256.Hash] *)
Definition Blake2b256_Hash (input : list U8) : Circuit (list U8) := Blake2b input 32.
End blake2b.
