(* ===== verification/Blake2bCorrect.v ===== *)
(** * The BLAKE2b gadget computes RFC 7693

    [RotBytes], the mixing function, the rounds, the compression function and the
    block loop of [Blake2b.v], each equal to its counterpart of [Blake2bSpec.v] for
    every prover. *)
From S2P Require Import Prelude.
From S2P Require Import Gnark.
From S2P Require Import CkdArith.
From S2P Require Import Sha512Spec.
From S2P Require Import Sha512.
From S2P Require Import Sha512Sigma.
From S2P Require Import Sha512Correct.
From S2P Require Import Blake2bSpec.
From S2P Require Import Blake2b.

(** ** Byte rotations *)

(** Evaluate the closed index expressions of a goal. *)
Ltac eval_indices := repeat match goal with
  |- context [Z.to_nat ?e] => let n := eval vm_compute in (Z.to_nat e) in
                              change (Z.to_nat e) with n end.

Section rot_bytes.
Context `{Gadgets}.

(** Go's truncated quotient and remainder, normalised to [0, 8). *)
Lemma byte_shift_mod q :
  (if Z.rem q 8 <? 0 then Z.rem q 8 + 8 else Z.rem q 8) = q mod 8.
Proof.
  rewrite Z.rem_eq by lia. pose proof (Z.quot_rem' q 8) as Hq.
  pose proof (Z.rem_bound_abs q 8 ltac:(lia)) as Hb.
  destruct (Z.ltb_spec (q - 8 * (q ÷ 8)) 0).
  - apply Z.mod_unique_pos with (q ÷ 8 - 1); lia.
  - apply Z.mod_unique_pos with (q ÷ 8); lia.
Qed.

Lemma word_is_nth w z i : word_is w z → (i < 8)%nat → value (w !!! i) = nth_byte z i.
Proof.
  intros [Hw _] Hi. apply value_lookup_total. rewrite Hw. by apply nth_byte_lookup.
Qed.

Lemma le_bytes_nth z : le_bytes 8 z = nth_byte z <$> seq 0 8.
Proof. by apply digits_seq. Qed.

Lemma rotr_bytes z k : 0 <= z < 2 ^ 64 → (0 < k < 8)%nat →
  le_bytes 8 (rotr (64 - 8 * Z.of_nat k) z) =
  (λ i, nth_byte z ((i + (8 - k)) `mod` 8)) <$> seq 0 8.
Proof.
  intros Hz Hk. rewrite le_bytes_nth. apply list_fmap_ext. intros j i [-> Hi]%lookup_seq.
  replace (64 - 8 * Z.of_nat k) with (Z.of_nat ((8 - k) * 8)) by lia.
  rewrite rotr_byte by lia.
  rewrite Nat.Div0.mod_mul, Nat.div_mul by lia. simpl (2 ^ Z.of_nat 0).
  by rewrite Z.div_1_r, Z.mod_1_r, Z.mul_0_r, Z.add_0_r.
Qed.

Lemma rotr_64 z : 0 <= z < 2 ^ 64 → rotr 64 z = z.
Proof.
  intros Hz. unfold rotr, w64. rewrite Z.sub_diag, Z.shiftl_0_r.
  by rewrite Z.shiftr_div_pow2, Z.div_small, Z.mod_small by lia.
Qed.

Lemma RotBytes_spec word z k : word_is word z → (0 <= k < 8) →
  word_is (loop_range 0 8 (λ i rotated,
      <[Z.to_nat ((Z.of_nat i + k) mod 8) := word !!! i]> rotated) word)
    (rotr (64 - 8 * k) z).
Proof.
  intros Hw Hk. pose proof (word_is_range _ _ Hw) as Hz.
  pose proof (word_is_length _ _ Hw) as Hl.
  destruct (decide (k = 0)) as [->|Hk0].
  { rewrite rotr_64 by done. revert Hw.
    by destruct word as [|? [|? [|? [|? [|? [|? [|? [|? [|]]]]]]]]]. }
  assert (∃ n, k = Z.of_nat n ∧ (0 < n < 8)%nat) as (n & -> & Hn)
    by (exists (Z.to_nat k); lia).
  split; [|apply rotr_range; lia].
  rewrite rotr_bytes by done.
  pose proof (word_is_nth _ _ 0 Hw ltac:(lia)). pose proof (word_is_nth _ _ 1 Hw ltac:(lia)).
  pose proof (word_is_nth _ _ 2 Hw ltac:(lia)). pose proof (word_is_nth _ _ 3 Hw ltac:(lia)).
  pose proof (word_is_nth _ _ 4 Hw ltac:(lia)). pose proof (word_is_nth _ _ 5 Hw ltac:(lia)).
  pose proof (word_is_nth _ _ 6 Hw ltac:(lia)). pose proof (word_is_nth _ _ 7 Hw ltac:(lia)).
  clear Hw Hz. destruct word as [|? [|? [|? [|? [|? [|? [|? [|? [|]]]]]]]]]; try done.
  do 8 (destruct n as [|n]; [try lia; cbn in *; eval_indices; cbn; congruence|]). lia.
Qed.

Lemma RotBytes_ok word z k : word_is word z → (0 <= k < 8) →
  circuit_ok (RotBytes word (8 * k)) (λ w, word_is w (rotr (64 - 8 * k) z)).
Proof.
  intros Hw Hk. unfold RotBytes. rewrite (word_is_length _ _ Hw), (Z.mul_comm 8), Z.rem_mul by lia.
  rewrite Z.quot_mul by lia. cbv zeta. change (Z.of_nat 8) with 8.
  rewrite byte_shift_mod, Z.mod_small, (Z.mul_comm k) by lia. by apply ok_ret, RotBytes_spec.
Qed.

(** [RotBytes] rotates a word left by any byte-aligned shift, negative and
    larger-than-word shifts included, without new wires or constraints; any other
    shift stops the compilation. *)
Theorem RotBytes_exact word z shift : word_is word z →
  (Z.rem shift 8 = 0 →
    circuit_ok (RotBytes word shift) (λ w, word_is w (rotr (64 - shift mod 64) z) ∧
      ∀ u, u ∈ w → u ∈ word)) ∧
  (Z.rem shift 8 ≠ 0 → rejects (RotBytes word shift)).
Proof.
  intros Hw. pose proof (word_is_length _ _ Hw) as Hl. unfold RotBytes. rewrite Hl. split.
  - intros Hrem. rewrite Hrem. apply ok_ret. change (Z.of_nat 8) with 8. cbv zeta.
    rewrite (byte_shift_mod (shift ÷ 8)).
    assert (shift mod 64 = 8 * ((shift ÷ 8) mod 8)) as ->.
    { rewrite (Z.quot_rem' shift 8) at 1. rewrite Hrem, Z.add_0_r.
      change 64 with (8 * 8). by rewrite Z.mul_mod_distr_l. }
    pose proof (Z.mod_pos_bound (shift ÷ 8) 8 ltac:(lia)) as Hk.
    split; [by apply RotBytes_spec|].
    apply (loop_range_ind (λ _ l, ∀ u, u ∈ l → u ∈ word)); [done|].
    intros i s Hi Hs u [j Hu]%list_elem_of_lookup.
    destruct (lookup_lt_is_Some_2 word i) as [wi Hwi]; [lia|].
    rewrite (list_lookup_total_correct _ _ _ Hwi) in Hu.
    apply list_lookup_insert_Some in Hu as [(_ & <- & _)|[_ Hu]].
    + by eapply list_elem_of_lookup_2.
    + apply Hs. by eapply list_elem_of_lookup_2.
  - intros Hrem. apply Z.eqb_neq in Hrem. by rewrite Hrem.
Qed.
End rot_bytes.

(** ** The mixing function *)

Section mixing.
Context `{Gadgets}.

(** A vector of [n] words. *)
Definition vec_is (n : nat) (v : list U64) (z : list Z) : Prop :=
  Forall2 word_is v z ∧ length v = n.

Lemma vec_lookup n v z i : vec_is n v z → (i < n)%nat → word_is (v !!! i) (z !!! i).
Proof. intros [Hv Hl] Hi. apply words_lookup; [done|lia]. Qed.

Lemma vec_insert n v z i w x : vec_is n v z → word_is w x →
  vec_is n (<[i := w]> v) (<[i := x]> z).
Proof. intros [Hv Hl] Hw. split; [by apply Forall2_insert|by rewrite length_insert]. Qed.

(** Half of G: one addition of a message word and two rotations. *)
Definition half_G (r1 r2 : Z) (v m : list Z) (x a b c d : nat) : list Z :=
  let v := <[a := w64 (v !!! a + v !!! b + m !!! x)]> v in
  let v := <[d := rotr r1 (Z.lxor (v !!! d) (v !!! a))]> v in
  let v := <[c := w64 (v !!! c + v !!! d)]> v in
  <[b := rotr r2 (Z.lxor (v !!! b) (v !!! c))]> v.

Lemma B2B_G_halves v m x y a b c d :
  B2B_G v m x y a b c d = half_G 16 63 (half_G 32 24 v m x a b c d) m y a b c d.
Proof. reflexivity. Qed.

Lemma add3_ok u v w x y z : word_is u x → word_is v y → word_is w z →
  circuit_ok (Add64 2 [u; v; w]) (λ o, word_is o (w64 (x + y + z))).
Proof.
  intros Hu Hv Hw. eapply ok_weaken; [apply Add64_sum; [solve_words|done|simpl; lia..]|].
  intros o Ho. eapply word_is_eq; [exact Ho|]. cbn [zsum]. f_equal. lia.
Qed.

Lemma add2_ok u v x y : word_is u x → word_is v y →
  circuit_ok (Add64 1 [u; v]) (λ o, word_is o (w64 (x + y))).
Proof.
  intros Hu Hv. eapply ok_weaken; [apply Add64_sum; [solve_words|done|simpl; lia..]|].
  intros o Ho. eapply word_is_eq; [exact Ho|]. cbn [zsum]. f_equal. lia.
Qed.

Lemma Lrot1_ok w z : word_is w z → circuit_ok (uapi_Lrot w 1) (λ v, word_is v (rotr 63 z)).
Proof.
  intros Hw. eapply ok_weaken; [apply (Lrot_ok _ _ 1 Hw); lia|]. intros v Hv.
  unfold rotr, w64. by rewrite Z.lor_comm.
Qed.

Lemma xor_rot_ok u v x y k : word_is u x → word_is v y → 0 <= k < 8 →
  circuit_ok (x ← uapi_Xor [u; v]; RotBytes x (8 * k))
    (λ o, word_is o (rotr (64 - 8 * k) (Z.lxor x y))).
Proof. intros Hu Hv Hk. step (by apply Xor2_ok) as x' Hx. by apply RotBytes_ok. Qed.

Context (m : list U64) (zm : list Z) (Hm : vec_is 16 m zm).

Lemma gRound_ok v z x y a b c d :
  vec_is 16 v z → (x < 16)%nat → (y < 16)%nat → (a < 16)%nat → (b < 16)%nat →
  (c < 16)%nat → (d < 16)%nat →
  circuit_ok (gRound v m x y a b c d) (λ v', vec_is 16 v' (B2B_G z zm x y a b c d)).
Proof.
  intros Hv Hx Hy Ha Hb Hc Hd. rewrite B2B_G_halves. unfold gRound.
  pose proof (vec_lookup _ _ _ x Hm Hx) as Hmx. pose proof (vec_lookup _ _ _ y Hm Hy) as Hmy.
  pose proof (λ v z i H Hi, vec_lookup 16 v z i H Hi) as L.
  (* the first half *)
  step (by apply add3_ok; [by apply L..|exact Hmx]) as va Hva.
  pose proof (vec_insert _ _ _ a _ _ Hv Hva) as V1.
  step (by apply Xor2_ok; by apply L) as x1 Hx1.
  step (apply (RotBytes_ok _ _ 4 Hx1); lia) as vd Hvd.
  pose proof (vec_insert _ _ _ d _ _ V1 Hvd) as V2.
  step (by apply add2_ok; by apply L) as vc Hvc.
  pose proof (vec_insert _ _ _ c _ _ V2 Hvc) as V3.
  step (by apply Xor2_ok; by apply L) as x2 Hx2.
  step (apply (RotBytes_ok _ _ 5 Hx2); lia) as vb Hvb.
  pose proof (vec_insert _ _ _ b _ _ V3 Hvb) as V4.
  change (vec_is 16 (<[b:=vb]> (<[c:=vc]> (<[d:=vd]> (<[a:=va]> v))))
    (half_G 32 24 z zm x a b c d)) in V4.
  clear V1 V2 V3 Hva Hvd Hvc Hvb Hx1 Hx2.
  revert V4. generalize (half_G 32 24 z zm x a b c d) as z4.
  generalize (<[b:=vb]> (<[c:=vc]> (<[d:=vd]> (<[a:=va]> v)))) as v4.
  intros v4 z4 V4.
  (* the second half *)
  step (by apply add3_ok; [by apply L..|exact Hmy]) as va' Hva.
  pose proof (vec_insert _ _ _ a _ _ V4 Hva) as V5.
  step (by apply Xor2_ok; by apply L) as x3 Hx3.
  step (apply (RotBytes_ok _ _ 6 Hx3); lia) as vd' Hvd.
  pose proof (vec_insert _ _ _ d _ _ V5 Hvd) as V6.
  step (by apply add2_ok; by apply L) as vc' Hvc.
  pose proof (vec_insert _ _ _ c _ _ V6 Hvc) as V7.
  step (by apply Xor2_ok; by apply L) as x4 Hx4.
  step (by apply Lrot1_ok) as vb' Hvb.
  apply ok_ret. exact (vec_insert _ _ _ b _ _ V7 Hvb).
Qed.
End mixing.

(** ** Rounds and the compression function *)

Lemma sigma_at_spec r k : (r < 12)%nat → (k < 16)%nat →
  sigma_at r k = (B2B_SIGMA !!! (r `mod` 10)%nat) !!! k ∧ (sigma_at r k < 16)%nat.
Proof.
  intros Hr Hk.
  assert (forallb (λ r, forallb (λ k,
    (sigma_at r k =? (B2B_SIGMA !!! (r `mod` 10)%nat) !!! k)%nat && (sigma_at r k <? 16)%nat)
    (seq 0 16)) (seq 0 12) = true) as Hall by by vm_compute.
  rewrite forallb_forall in Hall. specialize (Hall r ltac:(apply in_seq; lia)).
  rewrite forallb_forall in Hall. specialize (Hall k ltac:(apply in_seq; lia)).
  bool_to_prop. done.
Qed.

Section compression.
Context `{Gadgets}.
Context (m : list U64) (zm : list Z) (Hm : vec_is 16 m zm).

Lemma blake_round_ok r v z : (r < 12)%nat → vec_is 16 v z →
  circuit_ok (blake_round m r v) (λ v', vec_is 16 v' (B2B_round zm r z)).
Proof.
  intros Hr Hv. unfold blake_round, B2B_round. cbv zeta.
  pose proof (λ k Hk, proj2 (sigma_at_spec r k Hr Hk)) as Hs.
  rewrite <- !(λ k Hk, proj1 (sigma_at_spec r k Hr Hk)) by lia.
  do 7 (step (apply (gRound_ok m zm Hm); [eassumption|apply Hs; lia|apply Hs; lia|lia..])
    as ? ?).
  apply (gRound_ok m zm Hm); [eassumption|apply Hs; lia|apply Hs; lia|lia..].
Qed.

Lemma iv_words : Forall2 word_is (NewU64 <$> iv) B2B_IV.
Proof. apply NewU64s_are, w64b_Forall. by vm_compute. Qed.

Lemma NewU64_const z : w64b z = true → word_is (NewU64 z) z.
Proof. unfold w64b. intros Hz. bool_to_prop. by apply NewU64_is. Qed.

Lemma blake_compress_ok h zh t last :
  vec_is 8 h zh → 0 <= t < 2 ^ 64 →
  circuit_ok (blake_compress h m t last) (λ h', vec_is 8 h' (B2B_F zh zm t last)).
Proof.
  intros Hh Ht. unfold blake_compress.
  step (apply Xor2_ok; [by apply (NewU64_const (iv !!! 4%nat))|by apply NewU64_is]) as v12 H12.
  eapply ok_bind with (R := λ w, word_is w
    (if last then Z.lxor (iv !!! 6%nat) (2 ^ 64 - 1) else iv !!! 6%nat)).
  { destruct last; [apply Xor2_ok|apply ok_ret]; by apply NewU64_const. }
  intros v14 H14. destruct Hh as [Hh Hl].
  set (z0 := zh ++ take 4 iv ++ [Z.lxor (iv !!! 4%nat) t; iv !!! 5%nat;
    (if last then Z.lxor (iv !!! 6%nat) (2 ^ 64 - 1) else iv !!! 6%nat); iv !!! 7%nat]).
  assert (B2B_F zh zm t last = (λ i, let v := loop_range 0 12 (B2B_round zm) z0 in
    Z.lxor (Z.lxor (zh !!! i) (v !!! i)) (v !!! (i + 8)%nat)) <$> seq 0 8) as ->.
  { unfold B2B_F. rewrite (Z.mod_small t), (Z.div_small t) by lia.
    pose proof (Forall2_length _ _ _ Hh) as Hlz. rewrite Hl in Hlz.
    subst z0. destruct zh as [|? [|? [|? [|? [|? [|? [|? [|? [|]]]]]]]]];
      try discriminate Hlz.
    by destruct last. }
  eapply ok_bind.
  { apply (ok_for_sim (λ _, vec_is 16) 0 12 _ (B2B_round zm) _ z0).
    - split.
      + apply Forall2_app; [done|]. apply Forall2_app.
        * apply NewU64s_are, w64b_Forall. by vm_compute.
        * solve_words; by apply NewU64_const.
      + rewrite !length_app, Hl. done.
    - intros i s z Hi. apply blake_round_ok. lia. }
  cbv beta. intros v Hv. generalize dependent (loop_range 0 12 (B2B_round zm) z0).
  intros zv Hv. clear z0.
  (* feed forward: the entries already written, then the old ones *)
  set (out i := Z.lxor (Z.lxor (zh !!! i) (zv !!! i)) (zv !!! (i + 8)%nat)).
  eapply ok_weaken.
  - apply (ok_for (λ i h', vec_is 8 h' (fmap out (seq 0 i) ++ drop i zh))); [done|].
    intros i h' Hi Hh'.
    assert (length zh = 8%nat) as Hlz by (by rewrite <- (Forall2_length _ _ _ Hh)).
    assert (word_is (h' !!! i) (zh !!! i)) as Hhi.
    { pose proof (vec_lookup _ _ _ i Hh' ltac:(lia)) as Hw.
      rewrite lookup_total_app_r in Hw by (rewrite length_fmap, length_seq; lia).
      rewrite length_fmap, length_seq, Nat.sub_diag in Hw.
      rewrite <- (Nat.add_0_r i) at 2. by rewrite <- lookup_total_drop. }
    pose proof (vec_lookup _ _ _ i Hv ltac:(lia)).
    pose proof (vec_lookup _ _ _ (i + 8) Hv ltac:(lia)).
    eapply ok_bind.
    { apply Xor_ok with (zs := [zh !!! i; zv !!! i; zv !!! (i + 8)%nat]); [done|solve_words]. }
    cbv beta. intros hi Hhi'. apply ok_ret.
    assert (word_is hi (out i)) as Ho.
    { eapply word_is_eq; [exact Hhi'|]. cbn [foldr]. unfold out. by rewrite Z.lxor_0_r, Z.lxor_assoc. }
    pose proof (vec_insert _ _ _ i _ _ Hh' Ho) as Hins.
    rewrite insert_app_r_alt in Hins by (rewrite length_fmap, length_seq; lia).
    rewrite length_fmap, length_seq, Nat.sub_diag in Hins.
    destruct (lookup_lt_is_Some_2 zh i) as [x Hx]; [lia|].
    rewrite (drop_S _ _ _ Hx) in Hins. cbn in Hins.
    rewrite seq_S, fmap_app, <- app_assoc. exact Hins.
  - intros h' Hh'. cbn [Nat.add] in Hh'. rewrite drop_ge, app_nil_r in Hh'; [done|].
    by rewrite <- (Forall2_length _ _ _ Hh), Hl.
Qed.
End compression.

(** ** Blocks and the hash *)

Section blake2b_proofs.
Context `{Gadgets}.

Lemma blake_block_are input msg i : bytes_are input msg →
  bytes_are (blake_block input (i * 128))
    (let block := take 128 (drop (128 * i) msg) in block ++ replicate (128 - length block) 0).
Proof.
  intros Hin. pose proof (bytes_are_length _ _ Hin) as Hl. destruct Hin as [<- Hb].
  rewrite length_fmap in *. cbv zeta. split.
  - unfold blake_block. apply list_eq. intros j.
    rewrite length_take, length_drop, length_fmap, <- list_fmap_compose, list_lookup_fmap.
    destruct (decide (j < 128)%nat) as [Hj|Hj]; last first.
    { rewrite !lookup_ge_None_2; [done|..];
        rewrite ?length_app, ?length_replicate, ?length_take, ?length_drop, ?length_fmap, ?length_seq; lia. }
    rewrite lookup_seq_lt by done. cbn [fmap option_fmap option_map Nat.add].
    unfold compose. destruct (Nat.ltb_spec (i * 128 + j) (length input)) as [Hlt|Hge].
    + rewrite lookup_app_l by (rewrite length_take, length_drop, length_fmap; lia).
      rewrite lookup_take_lt, lookup_drop, list_lookup_fmap by done.
      destruct (lookup_lt_is_Some_2 input (i * 128 + j)) as [u Hu]; [lia|].
      rewrite (list_lookup_total_correct _ _ _ Hu).
      by replace (128 * i + j)%nat with (i * 128 + j)%nat by lia; rewrite Hu.
    + rewrite lookup_app_r by (rewrite length_take, length_drop, length_fmap; lia).
      rewrite length_take, length_drop, length_fmap.
      rewrite lookup_replicate_2 by lia. unfold NewU8. by rewrite value_constant_small.
  - apply Forall_app. split; [by apply Forall_take, Forall_drop|].
    apply Forall_replicate. split; lia.
Qed.

Lemma PackLSB_is us bs : bytes_are us bs → length bs = 8%nat →
  word_is (uapi_PackLSB us) (le_val bs).
Proof.
  intros [<- Hb] Hl. rewrite length_fmap in Hl. apply word_is_intro.
  - rewrite <- (length_fmap value), PackLSB_bytes. by rewrite length_fmap.
  - by rewrite PackLSB_bytes.
  - by rewrite PackLSB_bytes.
Qed.

Lemma length_zero_padded (l : list Z) :
  (length l <= 128)%nat → length (l ++ replicate (128 - length l) 0) = 128%nat.
Proof. intros Hl. rewrite length_app, length_replicate. lia. Qed.

Definition block_wires (input : list U8) (i : nat) : list U64 :=
  (λ j, uapi_PackLSB (take 8 (drop (j * 8) (blake_block input (i * 128))))) <$> seq 0 16.

Lemma block_wires_are input msg i : bytes_are input msg →
  vec_is 16 (block_wires input i) (B2B_block msg i).
Proof.
  intros Hin. pose proof (blake_block_are _ _ i Hin) as Hblock. cbv zeta in Hblock.
  pose proof (length_zero_padded (take 128 (drop (128 * i) msg))
    ltac:(rewrite length_take; lia)) as Hl.
  split; [|unfold block_wires; by rewrite length_fmap, length_seq].
  unfold block_wires, B2B_block. apply Forall2_fmap, Forall_Forall2_diag, Forall_forall.
  intros j Hj%elem_of_seq. rewrite (Nat.mul_comm j). apply PackLSB_is.
  - by apply bytes_are_take, bytes_are_drop.
  - rewrite length_take, length_drop, Hl. lia.
Qed.

Lemma UnpackLSB_words ws zs : Forall2 word_is ws zs →
  bytes_are (concat (uapi_UnpackLSB <$> ws)) (concat (le_bytes 8 <$> zs)).
Proof.
  induction 1 as [|w z ws zs Hw _ IH]; [by split|].
  rewrite !fmap_cons. cbn [concat]. apply bytes_are_app; [|done].
  split; [|auto with bytes]. rewrite UnpackLSB_bytes. by destruct Hw as [-> _].
Qed.

(** Number of blocks of an [n]-byte message. *)
Definition nblocks (n : nat) : nat := Nat.max 1 ((n + 127) / 128).

Lemma nblocks_eq n :
  (if ((n + 127) / 128 =? 0)%nat then 1%nat else ((n + 127) / 128)%nat) = nblocks n.
Proof. unfold nblocks. destruct (Nat.eqb_spec ((n + 127) / 128) 0); lia. Qed.

(** Byte counter and final flag of block [i]. *)
Lemma block_count n i : (i < nblocks n)%nat →
  (if (n <? (i + 1) * 128)%nat then n else ((i + 1) * 128)%nat) =
  (if (i =? nblocks n - 1)%nat then n else ((i + 1) * 128)%nat).
Proof.
  unfold nblocks. intros Hi.
  pose proof (Nat.div_mod_eq (n + 127) 128). pose proof (Nat.mod_upper_bound (n + 127) 128 ltac:(lia)).
  destruct (Nat.ltb_spec n ((i + 1) * 128)), (Nat.eqb_spec i (Nat.max 1 ((n + 127) / 128) - 1)); lia.
Qed.

(** The reference, as one loop over all the blocks. *)
Lemma RefBlake2b_loop msg nn :
  let n := nblocks (length msg) in
  RefBlake2b msg nn = take nn (concat (le_bytes 8 <$>
    loop_range 0 n (λ i h,
      let last := (i =? n - 1)%nat in
      B2B_F h (B2B_block msg i)
        (Z.of_nat (if last then length msg else (i + 1) * 128)%nat) last)
    (<[0%nat := Z.lxor (B2B_IV !!! 0%nat) (Z.lxor 0x01010000 (Z.of_nat nn))]> B2B_IV))).
Proof.
  cbv zeta. unfold RefBlake2b, nblocks.
  assert (∃ k, Nat.max 1 ((length msg + 127) / 128) = S k) as [k ->].
  { exists (Nat.max 1 ((length msg + 127) / 128) - 1)%nat. lia. }
  rewrite loop_range_S. replace (S k - 1)%nat with k by lia.
  rewrite Nat.add_0_l, Nat.eqb_refl.
  rewrite (loop_range_ext 0 k (λ i h, B2B_F h (B2B_block msg i)
    (Z.of_nat (if (i =? k)%nat then length msg else (i + 1) * 128)%nat) (i =? k)%nat)
    (λ i h, B2B_F h (B2B_block msg i) (Z.of_nat ((i + 1) * 128)) false)); [reflexivity|].
  intros i s Hi. by rewrite (proj2 (Nat.eqb_neq i k)) by lia.
Qed.

Lemma Blake2b_spec input msg outLen :
  bytes_are input msg → (outLen <= 64)%nat → Z.of_nat (length msg) < 2 ^ 56 →
  circuit_ok (Blake2b input outLen) (λ out, bytes_are out (RefBlake2b msg outLen)).
Proof.
  intros Hin Ho Hn. pose proof (bytes_are_length _ _ Hin) as Hl. unfold Blake2b.
  rewrite RefBlake2b_loop. rewrite Hl. rewrite nblocks_eq.
  step (apply Xor2_ok; [by apply (NewU64_const (iv !!! 0%nat))|apply NewU64_is; split;
    [apply Z.lxor_nonneg; lia|]; apply (lxor_range 64); lia]) as h0 Hh0.
  eapply ok_bind.
  { apply (ok_for_sim (λ _, vec_is 8) 0 (nblocks (length msg)) _ (λ i h,
      let last := (i =? nblocks (length msg) - 1)%nat in
      B2B_F h (B2B_block msg i) (Z.of_nat (if last then length msg else (i + 1) * 128)%nat) last)
      _ (<[0%nat := Z.lxor (B2B_IV !!! 0%nat) (Z.lxor 0x01010000 (Z.of_nat outLen))]> B2B_IV)).
    - split; [|done]. apply Forall2_cons_2; [done|].
      apply NewU64s_are, w64b_Forall. by vm_compute.
    - intros i h z Hi Hh. cbv zeta. rewrite block_count by lia.
      assert ((nblocks (length msg) <= length msg + 1)%nat) as Hnb.
      { unfold nblocks. pose proof (Nat.Div0.div_le_upper_bound (length msg + 127) 128 (length msg + 1)). lia. }
      apply blake_compress_ok; [by apply block_wires_are|done|].
      destruct (i =? _)%nat; lia. }
  cbv beta. intros h [Hh Hlh]. pose proof (UnpackLSB_words _ _ Hh) as Hout.
  pose proof (bytes_are_length _ _ Hout) as Hlo.
  assert (length (concat (uapi_UnpackLSB <$> h)) = 64%nat) as Hl64.
  { rewrite Hlo. pose proof (Forall2_length _ _ _ Hh) as Hlz. rewrite Hlh in Hlz.
    generalize dependent (loop_range 0 (nblocks (length msg)) (λ i h0,
      let last := (i =? nblocks (length msg) - 1)%nat in
      B2B_F h0 (B2B_block msg i) (Z.of_nat (if last then length msg else (i + 1) * 128)%nat) last)
      (<[0%nat := Z.lxor (B2B_IV !!! 0%nat) (Z.lxor 0x01010000 (Z.of_nat outLen))]> B2B_IV)).
    intros zs _ _ _ Hlz. clear -Hlz.
    by destruct zs as [|? [|? [|? [|? [|? [|? [|? [|? [|]]]]]]]]]. }
  rewrite Hl64, (proj2 (Nat.ltb_ge _ _)) by lia. apply ok_ret. by apply bytes_are_take.
Qed.

(** Every word of a block enters an addition of the first round. *)
Lemma Add64_rejects hiBits ws j w : ws !! j = Some w → length w = 8%nat →
  ¬ Forall is_byte (value <$> w) → rejects (Add64 hiBits ws).
Proof.
  intros Hj Hl Hb. unfold Add64, NativeSum64. apply rejects_bind_l, rejects_bind_l.
  by eapply ToValues_rejects.
Qed.

Lemma gRound_rejects v m x y a b c d :
  (length (m !!! x) = 8%nat ∧ ¬ Forall is_byte (value <$> (m !!! x))) ∨
  (length (m !!! y) = 8%nat ∧ ¬ Forall is_byte (value <$> (m !!! y))) →
  rejects (gRound v m x y a b c d).
Proof.
  unfold gRound. intros [[Hl Hb]|[Hl Hb]].
  - apply rejects_bind_l. by eapply (Add64_rejects _ _ 2).
  - do 6 (apply rejects_bind_r; intros ?). apply rejects_bind_l.
    by eapply (Add64_rejects _ _ 2).
Qed.

Ltac skip_binds j := lazymatch j with
  | O => idtac | S ?j => apply rejects_bind_r; intros ?; skip_binds j end.

(** Word [k] enters the [k/2]-th mixing of the round, first if [k] is even. *)
Ltac word_in_round Hl Hb :=
  lazymatch type of Hb with
  | context [_ !!! ?k] =>
      let j := eval compute in (k / 2)%nat in
      let even := eval compute in (Nat.even k) in
      skip_binds j; first [apply gRound_rejects | apply rejects_bind_l, gRound_rejects];
      lazymatch even with
      | true => left; split; [exact Hl|exact Hb]
      | false => right; split; [exact Hl|exact Hb]
      end
  end.

Lemma first_round_rejects m v k : (k < 16)%nat →
  length (m !!! k) = 8%nat → ¬ Forall is_byte (value <$> (m !!! k)) →
  rejects (blake_round m 0 v).
Proof.
  intros Hk Hl Hb. unfold blake_round. cbv zeta.
  do 16 (destruct k as [|k]; [word_in_round Hl Hb|]). lia.
Qed.

Lemma blake_compress_rejects h m t last k : (k < 16)%nat →
  length (m !!! k) = 8%nat → ¬ Forall is_byte (value <$> (m !!! k)) →
  rejects (blake_compress h m t last).
Proof.
  intros Hk Hl Hb. unfold blake_compress. do 2 (apply rejects_bind_r; intros ?).
  apply rejects_bind_l. change 12%nat with (S 11). apply rejects_bind_l.
  by eapply first_round_rejects.
Qed.

Lemma block_wires_bad input i : (i < length input)%nat → ¬ is_byte (value (input !!! i)) →
  let w := block_wires input (i / 128) !!! (i `mod` 128 / 8)%nat in
  length w = 8%nat ∧ ¬ Forall is_byte (value <$> w).
Proof.
  intros Hi Hb w. pose proof (Nat.mod_upper_bound i 128 ltac:(lia)) as Hm.
  pose proof (Nat.div_mod_eq i 128) as Hd.
  assert (i `mod` 128 / 8 < 16)%nat by (apply Nat.Div0.div_lt_upper_bound; lia).
  assert (w = uapi_PackLSB (take 8 (drop (i `mod` 128 / 8 * 8)
    (blake_block input (i / 128 * 128))))) as ->.
  { apply list_lookup_total_correct. unfold block_wires.
    by rewrite list_lookup_fmap, lookup_seq_lt by done. }
  assert (length (blake_block input (i / 128 * 128)) = 128%nat) as Hlb.
  { unfold blake_block. by rewrite length_fmap, length_seq. }
  pose proof (Nat.div_mod_eq (i `mod` 128) 8). pose proof (Nat.mod_upper_bound (i `mod` 128) 8 ltac:(lia)).
  split.
  - rewrite <- (length_fmap value), PackLSB_bytes, length_fmap, length_take, length_drop. lia.
  - rewrite PackLSB_bytes, Forall_fmap. intros Hall. apply Hb.
    apply (Forall_lookup_1 _ _ ((i `mod` 128) `mod` 8) _ Hall).
    rewrite lookup_take_lt by done. rewrite lookup_drop.
    replace (i `mod` 128 / 8 * 8 + (i `mod` 128) `mod` 8)%nat with (i `mod` 128)%nat by lia.
    unfold blake_block. rewrite list_lookup_fmap, lookup_seq_lt by done.
    cbn [fmap option_fmap option_map]. rewrite Nat.add_0_l.
    rewrite (proj2 (Nat.ltb_lt _ _)) by lia. do 2 f_equal. lia.
Qed.

Lemma Blake2b_rejects input outLen : Z.of_nat (length input) < 2 ^ 56 →
  ¬ Forall is_byte (value <$> input) → rejects (Blake2b input outLen).
Proof.
  intros Hn. intros (i & u & Hi & Hu)%not_bytes_lookup. pose proof (lookup_lt_Some _ _ _ Hi) as Hlt.
  apply list_lookup_total_correct in Hi. subst u.
  destruct (block_wires_bad _ _ Hlt Hu) as [Hl Hb].
  unfold Blake2b. apply rejects_bind_r. intros h0. rewrite nblocks_eq. apply rejects_bind_l.
  pose proof (Nat.div_mod_eq i 128). pose proof (Nat.mod_upper_bound i 128 ltac:(lia)).
  pose proof (Nat.div_mod_eq (length input + 127) 128).
  pose proof (Nat.mod_upper_bound (length input + 127) 128 ltac:(lia)).
  apply (rejects_for (λ _ _, True) _ _ _ _ (i / 128)); [unfold nblocks; lia|done| |].
  + by intros ? ? _ _ ? ?.
  + intros h _. eapply blake_compress_rejects; [|exact Hl|exact Hb].
    apply Nat.Div0.div_lt_upper_bound. lia.
Qed.

(** A digest is bytes of the requested length. *)
Lemma RefBlake2b_wf msg nn : (nn <= 64)%nat →
  Forall is_byte (RefBlake2b msg nn) ∧ length (RefBlake2b msg nn) = nn.
Proof.
  intros Hn. unfold RefBlake2b. cbv zeta.
  match goal with |- context [B2B_F ?h ?m ?t ?f] => set (st := B2B_F h m t f) end.
  assert (length st = 8%nat) as Hl by (unfold st, B2B_F; by rewrite length_fmap, length_seq).
  assert (Forall is_byte (concat (le_bytes 8 <$> st)) ∧ length (concat (le_bytes 8 <$> st)) = 64%nat)
    as [Hb Hc].
  { clearbody st. destruct st as [|a [|b [|c [|d [|e [|f [|g [|h []]]]]]]]]; try done.
    cbn [fmap list_fmap concat]. split; [|by rewrite !length_app, !length_digits].
    repeat (apply Forall_app; split); auto with bytes. }
  split; [by apply Forall_take|]. rewrite length_take. lia.
Qed.

(** [Blake2b] is unkeyed BLAKE2b (RFC 7693) of the input bytes with an
    [outLen]-byte digest, for every prover, every digest length up to 64 and every
    input length; a wire outside the byte range is refused. *)
Theorem Blake2b_exact input outLen : Z.of_nat (length input) < 2 ^ 56 →
  let msg := value <$> input in
  (Forall is_byte msg ∧ (outLen <= 64)%nat →
    circuit_ok (Blake2b input outLen) (λ out, bytes_are out (RefBlake2b msg outLen))) ∧
  (¬ Forall is_byte msg → rejects (Blake2b input outLen)).
Proof.
  intros Hn msg. split.
  - intros [Hb Ho]. apply Blake2b_spec; [done..|]. unfold msg. by rewrite length_fmap.
  - by apply Blake2b_rejects.
Qed.
End blake2b_proofs.
