(* ===== verification/Primality.v ===== *)
(** * Primality of the Ed25519 base field

    Pocklington certificates for the Ed25519 base field [2^255 - 19]: the fact of
    number theory the curve arithmetic needs. *)
From Stdlib Require Import Znumtheory Zdivisibility Zmod.
From Bignums Require Import BigN.
From S2P Require Import Prelude.

(** ** Divisors *)

(** Either no [1 < j < k] divides [n], or there is a least such divisor. *)
Lemma least_divisor n k : 2 <= k →
  (∀ j, 1 < j < k → ¬ (j | n)) ∨
  ∃ r, 1 < r < k ∧ (r | n) ∧ ∀ j, 1 < j < r → ¬ (j | n).
Proof.
  intros Hk. pattern k. apply Zlt_lower_bound_ind with (z := 2); [clear k Hk|done].
  intros k IH Hk. destruct (decide (k = 2)) as [->|Hne]; [left; lia|].
  destruct (IH (k - 1) ltac:(lia)) as [Hno|(r & Hr & Hd & Hleast)].
  - destruct (Zdivide_dec (k - 1) n) as [Hd|Hd].
    + right. exists (k - 1). repeat split; [lia..|done|intros j Hj; apply Hno; lia].
    + left. intros j Hj. destruct (decide (j = k - 1)) as [->|]; [done|apply Hno; lia].
  - right. exists r. repeat split; [lia..|done|done].
Qed.

Lemma prime_or_small_factor n : 1 < n →
  Z.prime n ∨ ∃ r, Z.prime r ∧ (r | n) ∧ r * r <= n.
Proof.
  intros Hn. destruct (least_divisor n n ltac:(lia)) as [Hno|(r & Hr & [s Hs] & Hleast)].
  { left. by split. }
  right. exists r. repeat split; [lia| |by exists s|].
  - intros j Hj Hjr. apply (Hleast j Hj). rewrite Hs. by apply Z.divide_mul_r.
  - destruct (Z.lt_ge_cases s r) as [Hlt|Hge]; [exfalso|nia].
    apply (Hleast s); [nia|]. rewrite Hs. by exists r; lia.
Qed.

(** ** Trial division, for the small primes of the certificates *)

Definition trial_prime (n : Z) (bound : nat) : bool :=
  (1 <? n) && (n <? Z.of_nat bound * Z.of_nat bound) &&
  forallb (λ k, negb (n mod k =? 0)) (seqZ 2 (Z.of_nat bound - 2)).

Lemma trial_prime_correct n bound : trial_prime n bound = true → Z.prime n.
Proof.
  unfold trial_prime. rewrite !andb_true_iff, forallb_forall. bool_to_prop.
  intros [[Hn Hb] Hall]. destruct (prime_or_small_factor n Hn) as [|(r & Hr & Hd & Hrr)]; [done|].
  pose proof (Z.prime_ge_2 _ Hr). specialize (Hall r).
  rewrite <- list_elem_of_In, elem_of_seqZ in Hall.
  specialize (Hall ltac:(nia)). bool_to_prop. exfalso. apply Hall.
  by apply Z.mod_divide; [lia|].
Qed.

(** ** Modular powers, on 63-bit digits so that certificates evaluate quickly *)

Fixpoint bpow (a n : BigN.t) (e : positive) : BigN.t :=
  match e with
  | xH => BigN.modulo a n
  | xO e => BigN.modulo (BigN.square (bpow a n e)) n
  | xI e => BigN.modulo (BigN.mul a (BigN.modulo (BigN.square (bpow a n e)) n)) n
  end.

Definition powmod (a e n : Z) : Z :=
  BigN.to_Z (bpow (BigN.of_N (Z.to_N a)) (BigN.of_N (Z.to_N n)) (Z.to_pos e)).

Lemma bpow_spec a n e : BigN.to_Z n ≠ 0 →
  BigN.to_Z (bpow a n e) = BigN.to_Z a ^ Z.pos e mod BigN.to_Z n.
Proof.
  intros Hn. induction e as [e IH|e IH|]; cbn [bpow].
  - rewrite BigN.spec_modulo, BigN.spec_mul, BigN.spec_modulo, BigN.spec_square, IH.
    rewrite <- Z.mul_mod, Z.mul_mod_idemp_r by done.
    rewrite <- Z.pow_add_r, <- Z.pow_succ_r by lia. do 2 f_equal. lia.
  - rewrite BigN.spec_modulo, BigN.spec_square, IH, <- Z.mul_mod, <- Z.pow_add_r by (done || lia).
    do 2 f_equal. lia.
  - by rewrite BigN.spec_modulo, Z.pow_1_r.
Qed.

Lemma powmod_spec a e n : 0 <= a → 0 < e → 0 < n → powmod a e n = a ^ e mod n.
Proof.
  intros Ha He Hn. unfold powmod.
  rewrite bpow_spec; rewrite !BigN.spec_of_N, !Z2N.id by lia; [|lia].
  by rewrite Z2Pos.id by done.
Qed.

(** ** Pocklington's criterion *)

(** With [a^(n-1) = 1], shows that [q] divides [r - 1] for every prime divisor [r]
    of [n]. *)
Definition witness_ok (n a q : Z) : bool :=
  ((n - 1) mod q =? 0) && (0 <? (n - 1) / q) && (Z.gcd (powmod a ((n - 1) / q) n - 1) n =? 1).

Lemma pow_mod_divisor a e n r : 0 < r → 0 < n → (r | n) → (a ^ e mod n) mod r = a ^ e mod r.
Proof. intros Hr Hn Hd. symmetry. by apply Zmod_div_mod. Qed.

Lemma order_divides q a n r : 0 <= a → Z.prime q → a ^ (n - 1) mod n = 1 → witness_ok n a q = true →
  1 < n → Z.prime r → (r | n) → (q | r - 1).
Proof.
  intros Ha0 Hq Hone Hw Hn Hr Hd. unfold witness_ok in Hw.
  rewrite !andb_true_iff in Hw. bool_to_prop. destruct Hw as [[Hqn Hpos] Hgcd].
  rewrite powmod_spec in Hgcd by lia.
  pose proof (Z.prime_ge_2 _ Hq). pose proof (Z.prime_ge_2 _ Hr).
  apply Z.mod_divide in Hqn as [m Hm]; [|lia].
  assert (Hm' : (n - 1) / q = m) by (rewrite Hm; apply Z.div_mul; lia).
  rewrite Hm' in Hgcd. assert (0 <= m) by nia.
  assert (Har : a ^ (n - 1) mod r = 1).
  { rewrite <- (pow_mod_divisor _ _ n), Hone by (done || lia). apply Z.mod_small. lia. }
  assert (Hne : a ^ m mod r ≠ 1).
  { intros E. rewrite <- (pow_mod_divisor _ _ n) in E by (done || lia).
    assert (r | 1) as Hr1; [|apply Z.divide_pos_le in Hr1; lia].
    rewrite <- Hgcd. apply Z.gcd_greatest; [|done].
    apply Z.mod_divide; [lia|]. rewrite Zminus_mod, E, Z.mod_1_l by lia. done. }
  assert (Ha : a mod r ≠ 0).
  { intros E. rewrite <- Z.mod_pow_l in Har.
    rewrite E, Z.pow_0_l, Z.mod_0_l in Har by lia. lia. }
  destruct (Zdivide_dec q (r - 1)) as [|Hndiv]; [done|exfalso].
  (* then the order of [a] modulo [r] divides [m] *)
  pose proof (Z.coprime_prime_l q (r - 1) Hq Hndiv) as Hco.
  apply Z.Bezout_coprime in Hco as (u & v & Huv).
  apply Hne. apply (f_equal (λ z, m * z)) in Huv.
  (* m = u*(n-1) + (m*v)*(r-1) *)
  pose proof (Z.fermat_nz r a Hr Ha) as Hf.
  assert (Hunit : Z.gcd (Zmod.to_Z (Zmod.of_Z r a)) r = 1).
  { rewrite Zmod.to_Z_of_Z, Z.gcd_comm. apply Z.coprime_prime_small; [done|].
    pose proof (Z.mod_pos_bound a r). lia. }
  set (x := Zmod.of_Z r a) in *.
  assert (Hpow : ∀ e, 0 <= e → a ^ e mod r = 1 → Zmod.pow x e = Zmod.one).
  { intros e He E. apply Zmod.to_Z_inj.
    rewrite Zmod.to_Z_pow_nonneg_r, Zmod.to_Z_1_pos by lia.
    unfold x. by rewrite Zmod.to_Z_of_Z, Z.mod_pow_l. }
  assert (Zmod.pow x m = Zmod.one) as Hxm.
  { replace m with ((n - 1) * u + (r - 1) * (m * v)) by (rewrite Hm; lia).
    rewrite Zmod.pow_add_r_coprime, !Zmod.pow_mul_r_coprime by done.
    rewrite !Hpow by (done || lia). rewrite !Zmod.pow_1_l. apply Zmod.mul_1_l. }
  apply (f_equal Zmod.to_Z) in Hxm.
  rewrite Zmod.to_Z_pow_nonneg_r, Zmod.to_Z_1_pos in Hxm by lia.
  unfold x in Hxm. by rewrite Zmod.to_Z_of_Z, Z.mod_pow_l in Hxm.
Qed.

Definition product (qs : list Z) : Z := foldr Z.mul 1 qs.

Lemma product_divides qs n : Forall Z.prime qs → NoDup qs → Forall (λ q, (q | n)) qs →
  (product qs | n).
Proof.
  induction qs as [|q qs IH]; intros Hp Hnd Hd; simpl; [apply Z.divide_1_l|].
  apply Forall_cons in Hp as [Hq Hp], Hd as [Hqn Hd]. apply NoDup_cons in Hnd as [Hnot Hnd].
  destruct (IH Hp Hnd Hd) as [k Hk]. rewrite Hk in Hqn.
  apply (Z.divide_prime_mul _ _ _ Hq) in Hqn as [[j Hj]|Hqn].
  - exists j. rewrite Hk, Hj. ring.
  - exfalso. clear -Hq Hp Hnot Hqn. induction qs as [|p qs IH]; simpl in Hqn.
    + apply Z.divide_1_r_nonneg in Hqn; pose proof (Z.prime_ge_2 _ Hq); lia.
    + apply Forall_cons in Hp as [Hp Hps]. apply not_elem_of_cons in Hnot as [Hne Hnot].
      apply (Z.divide_prime_mul _ _ _ Hq) in Hqn as [Hqp|Hqn]; [|by apply IH].
      by apply Z.divide_prime_prime in Hqp.
Qed.

Lemma product_nonneg qs : Forall Z.prime qs → 0 <= product qs.
Proof.
  induction 1 as [|q qs Hq _ IH]; cbn [product foldr]; [done|].
  pose proof (Z.prime_ge_2 _ Hq). by apply Z.mul_nonneg_nonneg; [lia|].
Qed.

Definition pocklington_ok (n a : Z) (qs : list Z) : bool :=
  (1 <? n) && (0 <=? a) && (n <? product qs * product qs) && bool_decide (NoDup qs) &&
  (powmod a (n - 1) n =? 1) && forallb (witness_ok n a) qs.

Theorem pocklington n a qs : pocklington_ok n a qs = true → Forall Z.prime qs → Z.prime n.
Proof.
  unfold pocklington_ok. rewrite !andb_true_iff, forallb_forall. bool_to_prop.
  intros [[[[[Hn Ha] Hbig] Hnd] Hone] Hws] Hps. rewrite powmod_spec in Hone by lia.
  destruct (prime_or_small_factor n Hn) as [|(r & Hr & Hd & Hrr)]; [done|exfalso].
  pose proof (Z.prime_ge_2 _ Hr).
  assert (product qs | r - 1) as Hprod.
  { apply product_divides; [done..|]. apply Forall_forall. intros q Hin.
    rewrite Forall_forall in Hps. apply (order_divides q a n); auto.
    by apply Hws, list_elem_of_In. }
  apply Z.divide_pos_le in Hprod; [|lia].
  pose proof (product_nonneg _ Hps). nia.
Qed.

(** Check one certificate, its smaller primes by the facts already in the context
    of the database or by trial division. *)
Create HintDb primes.
Ltac trial_division n :=
  let b := eval vm_compute in (S (Z.to_nat (Z.sqrt n))) in
  apply (trial_prime_correct n b); vm_compute; reflexivity.
#[export] Hint Extern 2 (Z.prime ?n) => trial_division n : primes.
Ltac certify qs :=
  apply (pocklington _ 2 qs); [vm_compute; reflexivity|];
  repeat (apply Forall_cons; split); [solve [eauto with primes]..|apply Forall_nil_2].

(** ** The certificates *)

Lemma prime_8574133 : Z.prime (8574133).
Proof. certify [991; 103]. Qed.
#[export] Hint Resolve prime_8574133 : primes.
Lemma prime_1919519569386763 : Z.prime (1919519569386763).
Proof. certify [8574133; 127]. Qed.
#[export] Hint Resolve prime_1919519569386763 : primes.
Lemma prime_2773320623 : Z.prime (2773320623).
Proof. certify [569003]. Qed.
#[export] Hint Resolve prime_2773320623 : primes.
Lemma prime_72106336199 : Z.prime (72106336199).
Proof. certify [2773320623]. Qed.
#[export] Hint Resolve prime_72106336199 : primes.
Lemma prime_cert_4 : Z.prime (75445702479781427272750846543864801).
Proof. certify [1919519569386763; 72106336199]. Qed.
#[export] Hint Resolve prime_cert_4 : primes.
Lemma prime_31757755568855353 : Z.prime (31757755568855353).
Proof. certify [430751; 4153]. Qed.
#[export] Hint Resolve prime_31757755568855353 : primes.
Lemma prime_cert_6 : Z.prime (74058212732561358302231226437062788676166966415465897661863160754340907).
Proof. certify [75445702479781427272750846543864801; 31757755568855353]. Qed.
#[export] Hint Resolve prime_cert_6 : primes.
Lemma prime_25519 : Z.prime (2 ^ 255 - 19).
Proof. certify [74058212732561358302231226437062788676166966415465897661863160754340907]. Qed.
