(* ===== verification/Ed25519.v ===== *)
(** * Ed25519 fixed-base multiplication: [internal/circuit/ed25519/ed]

    [params.go] and [ref.go] (the out-of-circuit reference on big integers) and
    [gadget.go] (the gadget over gnark's emulated base field). *)
From S2P Require Import Prelude.
From S2P Require Import Gnark.
From S2P Require Import CkdArith.

(** ** params.go *)

Definition P : Z := 2 ^ 255 - 19.
Definition D : Z := 37095705934669439343138083508754565189542113879843219016388785533085940283555.
Definition Bx : Z := 15112221349535400772501151409588531511454012693041857206046113283949847762202.
Definition By : Z := 46316835694926478169428394003475163141307993866256225615783033603165251855960.

(** ** [big.Int] operations of the standard library *)

(** [x.BitLen()] for a non-negative [x]. *)
Definition BitLen (x : Z) : nat := if x =? 0 then 0 else S (Z.to_nat (Z.log2 x)).

(** Extended Euclid on [(r0, t0)], [(r1, t1)], where [ri = ti * g] modulo [n]. *)
Fixpoint egcd (fuel : nat) (r0 t0 r1 t1 : Z) : Z * Z :=
  match fuel with
  | O => (r0, t0)
  | S fuel =>
      if r1 =? 0 then (r0, t0)
      else egcd fuel r1 t1 (r0 mod r1) (t0 - (r0 / r1) * t1)
  end.

(** [new(big.Int).ModInverse(g, n)] for [0 <= g < n]: [None] is the [nil] it returns
    when [g] has no inverse. *)
Definition ModInverse (g n : Z) : option Z :=
  let '(d, t) := egcd (2 * BitLen n) n 0 g 1 in
  if d =? 1 then Some (t mod n) else None.

(** ** ref.go *)

Record RefPoint := { X : Z; Y : Z }.
#[export] Instance RefPoint_eq_dec : EqDecision RefPoint.
Proof. solve_decision. Defined.

Definition modp (v : Z) : Z := v mod P.
Definition fpMul (a b : Z) : Z := modp (a * b).
Definition fpAdd (a b : Z) : Z := modp (a + b).
Definition fpSub (a b : Z) : Z := modp (a - b).
Definition fpInv (a : Z) : option Z := ModInverse (modp a) P.

Definition RefIdentity : RefPoint := {| X := 0; Y := 1 |}.
Definition RefBase : RefPoint := {| X := Bx; Y := By |}.

(** [None] is the nil dereference that follows a failed inversion. *)
Definition RefAdd (p q : RefPoint) : option RefPoint :=
  let a := fpMul (X p) (Y q) in
  let b := fpMul (Y p) (X q) in
  let c := fpMul (X p) (X q) in
  let dd := fpMul (Y p) (Y q) in
  let e := fpMul D (fpMul c dd) in
  let one := 1 in
  let xnum := fpAdd a b in
  let xden := fpAdd one e in
  let ynum := fpAdd dd c in
  let yden := fpSub one e in
  xinv ← fpInv xden;
  yinv ← fpInv yden;
  Some {| X := fpMul xnum xinv; Y := fpMul ynum yinv |}.

(** Left-to-right double-and-add over the bits of [s], [s] used as it is. *)
Definition RefScalarMul (s : Z) (p : RefPoint) : option RefPoint :=
  let n := BitLen s in
  for_range 0 n (λ k acc,
    let i := (n - 1 - k)%nat in
    acc ← RefAdd acc acc;
    if Z.testbit s (Z.of_nat i) then RefAdd acc p else Some acc) RefIdentity.

Definition RefScalarMulBase (s : Z) : option RefPoint := RefScalarMul s RefBase.

Definition RefCompress (p : RefPoint) : list Z :=
  let y := modp (Y p) in
  let out := le_bytes 32 y in
  if Z.testbit (modp (X p)) 0 then <[31%nat := Z.lor (out !!! 31%nat) 0x80]> out else out.

(** ** The emulated base field ([std/math/emulated])

    An element's value is the residue its limbs represent.  [Div] only constrains
    the quotient by [q * b = a]. *)
Class EmulatedField `{Gadgets} (modulus : Z) (nbits : nat) := {
  Element : Type;
  evalue : Element → Z;
  f_NewElement : Z → Element;
  f_One : Element;
  f_Add : Element → Element → Circuit Element;
  f_Sub : Element → Element → Circuit Element;
  f_Mul : Element → Element → Circuit Element;
  f_Div : Element → Element → Circuit Element;
  f_Mux : var → list Element → Circuit Element;
  f_ToBitsCanonical : Element → Circuit (list var);
  evalue_range e : 0 <= evalue e < modulus;
  NewElement_val c : evalue (f_NewElement c) = c mod modulus;
  One_val : evalue f_One = 1;
  eAdd_ok a b : circuit_ok (f_Add a b) (λ e, evalue e = (evalue a + evalue b) mod modulus);
  eSub_ok a b : circuit_ok (f_Sub a b) (λ e, evalue e = (evalue a - evalue b) mod modulus);
  eMul_ok a b : circuit_ok (f_Mul a b) (λ e, evalue e = (evalue a * evalue b) mod modulus);
  eDiv_sound a b : Sound (f_Div a b) (λ q, (evalue q * evalue b) mod modulus = evalue a);
  eDiv_accepts a b q : (q * evalue b) mod modulus = evalue a → evalue b ≠ 0 →
    Accepts (f_Div a b) (λ e, evalue e = q mod modulus);
  (** [Mux(sel, inputs...)] for a selector in range. *)
  eMux_ok sel es e i : value sel = Z.of_nat i → es !! i = Some e →
    circuit_ok (f_Mux sel es) (λ x, evalue x = evalue e);
  (** The bits of the least non-negative representative. *)
  ToBitsCanonical_ok e :
    circuit_ok (f_ToBitsCanonical e) (λ bs, value <$> bs = bits_of nbits (evalue e));
}.

(** ** gadget.go *)

Definition scalarBits : nat := 255.
Definition windowBits : nat := 7.
Definition windowSize : nat := 128.
Definition numWindows : nat := (scalarBits + windowBits - 1) / windowBits.

Section gadget.
Context `{EmulatedField P 255}.

Record Point := { PX : Element; PY : Element }.

Definition point_of (p : RefPoint) : Point :=
  {| PX := f_NewElement (X p); PY := f_NewElement (Y p) |}.

(** [Curve.Add]; the curve holds the constant [d]. *)
Definition Curve_Add (p q : Point) : Circuit Point :=
  a ← f_Mul (PX p) (PY q);
  b ← f_Mul (PY p) (PX q);
  cc ← f_Mul (PX p) (PX q);
  dd ← f_Mul (PY p) (PY q);
  ccdd ← f_Mul cc dd;
  e ← f_Mul (f_NewElement D) ccdd;
  xnum ← f_Add a b;
  xden ← f_Add f_One e;
  ynum ← f_Add dd cc;
  yden ← f_Sub f_One e;
  x ← f_Div xnum xden;
  y ← f_Div ynum yden;
  mret {| PX := x; PY := y |}.

(** [windowTable]: the multiples [k * base] for [k < 128]. *)
Definition window_points (base : RefPoint) : option (list RefPoint) :=
  '(t, _) ← for_range 0 windowSize (λ k '(t, acc),
    acc' ← RefAdd acc base; Some (t ++ [acc], acc')) ([], RefIdentity);
  Some t.

Definition table (j : nat) : option (list RefPoint) :=
  baseJ ← RefScalarMulBase (2 ^ Z.of_nat (windowBits * j));
  window_points baseJ.

Definition buildTables : option (list (list RefPoint)) :=
  for_range 0 numWindows (λ j tables, t ← table j; Some (tables ++ [t])) [].

(** The seven-bit selector of window [j]; the last window is padded. *)
Definition window_sel (bits : list var) (j : nat) : var :=
  loop_range 0 windowBits (λ k sel,
    let bitIndex := (windowBits * j + k)%nat in
    if (bitIndex <? scalarBits)%nat
    then api_Add sel (api_Mul (bits !!! bitIndex) (constant (2 ^ Z.of_nat k)))
    else sel) (constant 0).

Definition assert_booleans (bits : list var) : Circuit unit :=
  for_range 0 (length bits) (λ i _, api_AssertIsBoolean (bits !!! i)) tt.

(** The window loop over the precomputed tables. *)
Definition window_step (tables : list (list RefPoint)) (bits : list var) (j : nat)
    (acc : option Point) : Circuit (option Point) :=
  let sel := window_sel bits j in
  let t := tables !!! j in
  selX ← f_Mux sel ((λ p, f_NewElement (X p)) <$> t);
  selY ← f_Mux sel ((λ p, f_NewElement (Y p)) <$> t);
  let sp := {| PX := selX; PY := selY |} in
  match acc with
  | None => mret (Some sp)
  | Some acc => acc' ← Curve_Add acc sp; mret (Some acc')
  end.

Definition ScalarMulBaseBits (bits : list var) : Circuit Point :=
  if negb (length bits =? 256)%nat then circuit_panic else
  _ ← assert_booleans bits;
  _ ← api_AssertIsEqual (bits !!! 255%nat) (constant 0);
  tables ← circuit_of_option buildTables;
  acc ← for_range 0 numWindows (window_step tables bits) None;
  circuit_of_option acc.

Definition Compress (p : Point) : Circuit (list var) :=
  yBits ← f_ToBitsCanonical (PY p);
  xBits ← f_ToBitsCanonical (PX p);
  let encBits := take 255 yBits ++ [xBits !!! 0%nat] in
  mret ((λ i, loop_range 0 8 (λ b acc,
    api_Add acc (api_Mul (encBits !!! (8 * i + b)%nat) (constant (2 ^ Z.of_nat b))))
    (constant 0)) <$> seq 0 32).
End gadget.
