(* ===== verification/EdPoly.v ===== *)
(** * Polynomial identities of the Edwards addition law

    The identities behind completeness, closure and associativity of the law
    [x3 = (x1 y2 + y1 x2) / (1 + e)], [y3 = (y1 y2 + x1 x2) / (1 - e)] with
    [e = d x1 x2 y1 y2], with denominators cleared, in any integral domain. *)
From Stdlib Require Import ZArith Nsatz.

Section identities.
Context {R : Type} `{Rid : Integral_domain R}.

Lemma exceptional_gen (d j x1 y1 x2 y2 e : R) :
  y1 * y1 - x1 * x1 == 1 + d * x1 * x1 * y1 * y1 ->
  y2 * y2 - x2 * x2 == 1 + d * x2 * x2 * y2 * y2 ->
  e == d * x1 * x2 * y1 * y2 -> e * e == 1 -> j * j == - (1) ->
  (j * x1 + e * y1) * (j * x1 + e * y1) ==
  d * ((x1 * y1 * (j * x2 + y2)) * (x1 * y1 * (j * x2 + y2))).
Proof. intros. nsatz. Qed.

Section closure.
Context (d x1 y1 x2 y2 : R).
Context (H1 : y1 * y1 - x1 * x1 == 1 + d * x1 * x1 * y1 * y1).
Context (H2 : y2 * y2 - x2 * x2 == 1 + d * x2 * x2 * y2 * y2).
Let A := x1 * y2 + y1 * x2.
Let B := y1 * y2 + x1 * x2.
Let e := d * x1 * x2 * y1 * y2.

Lemma closure_gen :
  B * B * ((1 + e) * (1 + e)) - A * A * ((1 - e) * (1 - e)) ==
  (1 - e * e) * (1 - e * e) + d * A * A * B * B.
Proof. unfold A, B, e. clear A B e. nsatz. Qed.
End closure.

Section assoc.
Context (d x1 y1 x2 y2 x3 y3 : R).
Context (H1 : y1 * y1 - x1 * x1 == 1 + d * x1 * x1 * y1 * y1).
Context (H2 : y2 * y2 - x2 * x2 == 1 + d * x2 * x2 * y2 * y2).
Context (H3 : y3 * y3 - x3 * x3 == 1 + d * x3 * x3 * y3 * y3).
Let A := x1 * y2 + y1 * x2.
Let B := y1 * y2 + x1 * x2.
Let e := d * x1 * x2 * y1 * y2.
Let A' := x2 * y3 + y2 * x3.
Let B' := y2 * y3 + x2 * x3.
Let e' := d * x2 * x3 * y2 * y3.

Lemma assoc_x_gen :
  (A * (1 - e) * y3 + B * (1 + e) * x3) * ((1 - e' * e') + d * x1 * A' * y1 * B') ==
  (x1 * B' * (1 + e') + y1 * A' * (1 - e')) * ((1 - e * e) + d * A * x3 * B * y3).
Proof. unfold A, B, e, A', B', e'. clear A B e A' B' e'. nsatz. Qed.

Lemma assoc_y_gen :
  (B * (1 + e) * y3 + A * (1 - e) * x3) * ((1 - e' * e') - d * x1 * A' * y1 * B') ==
  (y1 * B' * (1 + e') + x1 * A' * (1 - e')) * ((1 - e * e) - d * A * x3 * B * y3).
Proof. unfold A, B, e, A', B', e'. clear A B e A' B' e'. nsatz. Qed.
End assoc.
End identities.
