(* ===== verification/EdCurve.v ===== *)
(** * The group of a complete twisted Edwards curve

    The curve [-x^2 + y^2 = 1 + d x^2 y^2] over any field in which [-1] is a square
    and [d] is not: the addition law of [ref.go] is complete on the curve (its
    denominators never vanish) and makes it a commutative monoid.
    [Ed25519Group.v] instantiates the field with the integers modulo [2^255 - 19]. *)
From Stdlib Require Import Field Nsatz.
From S2P Require Import Prelude.
From S2P Require Import EdPoly.

Record pt {F : Type} := Pt { px : F; py : F }.
Arguments pt _ : clear implicits.
Arguments Pt {_} _ _.

Section curve.
Context {F : Type} (F0 F1 : F) (Fadd Fmul Fsub : F → F → F) (Fopp : F → F)
  (Fdiv : F → F → F) (Finv : F → F).
Context (Fth : field_theory F0 F1 Fadd Fmul Fsub Fopp Fdiv Finv eq).
Context (Feq_dec : EqDecision F) (two_nonzero : Fadd F1 F1 ≠ F0).
Context (d i : F) (i_square : Fmul i i = Fopp F1) (d_nonsquare : ∀ r, Fmul r r ≠ d).

Declare Scope F_scope.
#[local] Infix "+" := Fadd : F_scope.
#[local] Infix "*" := Fmul : F_scope.
#[local] Infix "-" := Fsub : F_scope.
#[local] Infix "/" := Fdiv : F_scope.
#[local] Notation "- x" := (Fopp x) : F_scope.
#[local] Notation "0" := F0 : F_scope.
#[local] Notation "1" := F1 : F_scope.
#[local] Open Scope F_scope.

Add Field F_field : Fth.

(** *** The field as an integral domain *)

Lemma F_1_neq_0 : 1 ≠ 0.
Proof. apply (F_1_neq_0 Fth). Qed.

Lemma cancel m a b : m ≠ 0 → m * a = m * b → a = b.
Proof.
  intros Hm E. transitivity ((m * a) / m); [by field|]. rewrite E. by field.
Qed.

Lemma F_mul_0 a b : a * b = 0 → a = 0 ∨ b = 0.
Proof.
  intros E. destruct (decide (a = 0)) as [|Ha]; [by left|right].
  apply (cancel a); [done|]. rewrite E. ring.
Qed.

#[local] Instance F_ops : @Ring_ops F 0 1 Fadd Fmul Fsub Fopp eq := {}.
#[local] Instance F_ring : Ring (Ro := F_ops).
Proof.
  split; try (intros; cbn; ring); [apply eq_equivalence|..];
    repeat intro; cbv in *; first [congruence|ring].
Qed.
#[local] Instance F_cring : Cring (Rr := F_ring).
Proof. intros x y. cbv. ring. Qed.
#[local] Instance F_domain : Integral_domain (Rcr := F_cring).
Proof. split; [apply F_mul_0|apply F_1_neq_0]. Qed.

(** Read an identity of [EdPoly.v] in the operations of the field. *)
Ltac unfold_domain H :=
  cbv [addition multiplication subtraction opposite zero one equality F_ops
    add_notation mul_notation sub_notation opp_notation zero_notation one_notation
    eq_notation] in H.

(** *** Points and the addition law *)

Definition pt_zero : pt F := Pt 0 1.
Definition on_curve (p : pt F) : Prop :=
  py p * py p - px p * px p = 1 + d * px p * px p * py p * py p.
Definition pt_e (p q : pt F) : F := d * px p * px q * py p * py q.
Definition pt_add (p q : pt F) : pt F :=
  Pt ((px p * py q + py p * px q) / (1 + pt_e p q))
     ((py p * py q + px p * px q) / (1 - pt_e p q)).

Lemma square_quotient u v : u * u = d * (v * v) → v = 0.
Proof.
  intros Huv. destruct (decide (v = 0)) as [|Hv]; [done|exfalso].
  apply (d_nonsquare (u / v)).
  transitivity ((u * u) / (v * v)); [by field|]. rewrite Huv. by field.
Qed.

(** Completeness: [e] is never a square root of one. *)
Lemma pt_e_complete p q : on_curve p → on_curve q → pt_e p q * pt_e p q ≠ 1.
Proof.
  destruct p as [x1 y1], q as [x2 y2]. unfold on_curve, pt_e. cbn [px py].
  intros H1 H2 He. remember (d * x1 * x2 * y1 * y2) as e eqn:He'.
  assert (x1 * y1 * (i * x2 + y2) = 0) as Hv.
  { apply (square_quotient (i * x1 + e * y1)).
    exact (exceptional_gen (Rid := F_domain) d i x1 y1 x2 y2 e H1 H2 He' He i_square). }
  assert ((- i) * (- i) = - (1)) as Hi by (rewrite <- i_square; ring).
  assert (x1 * y1 * (- i * x2 + y2) = 0) as Hw.
  { apply (square_quotient (- i * x1 + e * y1)).
    exact (exceptional_gen (Rid := F_domain) d (- i) x1 y1 x2 y2 e H1 H2 He' He Hi). }
  assert ((1 + 1) * (x1 * y1 * y2) = 0) as Hs.
  { transitivity (x1 * y1 * (i * x2 + y2) + x1 * y1 * (- i * x2 + y2)); [ring|].
    rewrite Hv, Hw. ring. }
  apply F_mul_0 in Hs as [Hs|Hs]; [done|].
  apply F_1_neq_0. rewrite <- He, He'.
  transitivity (d * d * x1 * x2 * x2 * y1 * y2 * (x1 * y1 * y2)); [ring|]. rewrite Hs. ring.
Qed.

(** The denominators of the addition law never vanish. *)
Lemma pt_den p q : on_curve p → on_curve q → 1 + pt_e p q ≠ 0 ∧ 1 - pt_e p q ≠ 0.
Proof.
  intros Hp Hq. pose proof (pt_e_complete p q Hp Hq) as He.
  split; intros E; apply He.
  - transitivity ((1 + pt_e p q) * (pt_e p q - 1) + 1); [ring|]. rewrite E. ring.
  - transitivity ((1 - pt_e p q) * (- pt_e p q - 1) + 1); [ring|]. rewrite E. ring.
Qed.

Lemma pt_zero_on_curve : on_curve pt_zero.
Proof. unfold on_curve, pt_zero. cbn [px py]. ring. Qed.

(** The coordinates of a sum, characterised without division. *)
Lemma pt_add_coords p q : on_curve p → on_curve q →
  px (pt_add p q) * (1 + pt_e p q) = px p * py q + py p * px q ∧
  py (pt_add p q) * (1 - pt_e p q) = py p * py q + px p * px q.
Proof. intros Hp Hq. destruct (pt_den p q Hp Hq). split; cbn [pt_add px py]; by field. Qed.

Lemma pt_add_on_curve p q : on_curve p → on_curve q → on_curve (pt_add p q).
Proof.
  intros Hp Hq. destruct (pt_den p q Hp Hq) as [Hu Hv].
  destruct (pt_add_coords p q Hp Hq) as [HX HY].
  pose proof (closure_gen (Rid := F_domain) d _ _ _ _ Hp Hq) as Hpoly.
  unfold_domain Hpoly.
  rewrite <- HX, <- HY in Hpoly. unfold on_curve. fold (pt_e p q) in Hpoly.
  revert Hpoly Hu Hv. generalize (px (pt_add p q)) (py (pt_add p q)) (pt_e p q).
  intros X Y e Hpoly Hu Hv.
  apply (cancel ((1 + e) * (1 + e) * ((1 - e) * (1 - e)))).
  { intros E. by apply F_mul_0 in E as [[E|E]%F_mul_0|[E|E]%F_mul_0]. }
  transitivity (Y * (1 - e) * (Y * (1 - e)) * ((1 + e) * (1 + e)) -
    X * (1 + e) * (X * (1 + e)) * ((1 - e) * (1 - e))); [ring|].
  rewrite Hpoly. ring.
Qed.

Lemma pt_add_comm p q : pt_add p q = pt_add q p.
Proof.
  destruct p as [x1 y1], q as [x2 y2]. unfold pt_add, pt_e. cbn [px py].
  replace (d * x2 * x1 * y2 * y1) with (d * x1 * x2 * y1 * y2) by ring.
  f_equal; f_equal; ring.
Qed.

Lemma pt_add_0_l p : pt_add pt_zero p = p.
Proof.
  destruct p as [x y]. unfold pt_add, pt_e, pt_zero. cbn [px py].
  replace (d * 0 * x * 1 * y) with 0 by ring.
  f_equal; field; intros E; apply F_1_neq_0; rewrite <- E; ring.
Qed.

Lemma frac_eq a b u v : u ≠ 0 → v ≠ 0 → a * v = b * u → a / u = b / v.
Proof.
  intros Hu Hv E. transitivity ((a * v) / (u * v)); [by field|]. rewrite E. by field.
Qed.

(** Associativity: both sides with the denominators of the inner sums cleared. *)
Lemma pt_add_assoc p q r : on_curve p → on_curve q → on_curve r →
  pt_add (pt_add p q) r = pt_add p (pt_add q r).
Proof.
  intros Hp Hq Hr.
  destruct (pt_den p q Hp Hq) as [Hu Hv], (pt_den q r Hq Hr) as [Hu' Hv'].
  destruct (pt_add_coords p q Hp Hq) as [HX HY], (pt_add_coords q r Hq Hr) as [HX' HY'].
  destruct (pt_den (pt_add p q) r) as [Hdx Hdy]; [by apply pt_add_on_curve|done|].
  destruct (pt_den p (pt_add q r)) as [Hdx' Hdy']; [done|by apply pt_add_on_curve|].
  pose proof (assoc_x_gen (Rid := F_domain) d _ _ _ _ _ _ Hp Hq Hr) as Hx.
  pose proof (assoc_y_gen (Rid := F_domain) d _ _ _ _ _ _ Hp Hq Hr) as Hy.
  unfold_domain Hx. unfold_domain Hy. rewrite <- HX, <- HY, <- HX', <- HY' in Hx, Hy.
  fold (pt_e p q) (pt_e q r) in Hx, Hy.
  unfold pt_add at 1 3. unfold pt_e in Hdx, Hdy, Hdx', Hdy' |- *.
  revert Hx Hy Hu Hv Hu' Hv' Hdx Hdy Hdx' Hdy'.
  generalize (px (pt_add p q)) (py (pt_add p q)) (pt_e p q) (px (pt_add q r))
    (py (pt_add q r)) (pt_e q r).
  destruct p as [x1 y1], q as [x2 y2], r as [x3 y3]. cbn [px py].
  intros X Y e X' Y' e' Hx Hy Hu Hv Hu' Hv' Hdx Hdy Hdx' Hdy'.
  assert ((1 + e) * (1 - e) * ((1 + e') * (1 - e')) ≠ 0) as Hm.
  { intros E. by apply F_mul_0 in E as [[E|E]%F_mul_0|[E|E]%F_mul_0]. }
  f_equal; apply frac_eq; try done; apply (cancel _ _ _ Hm).
  - etransitivity; [|etransitivity; [exact Hx|]]; ring.
  - etransitivity; [|etransitivity; [exact Hy|]]; ring.
Qed.

(** *** Multiples *)

Definition pt_mul (n : nat) (p : pt F) : pt F := Nat.iter n (pt_add p) pt_zero.

Lemma pt_mul_on_curve n p : on_curve p → on_curve (pt_mul n p).
Proof.
  intros Hp. induction n as [|n IH]; [apply pt_zero_on_curve|by apply pt_add_on_curve].
Qed.

Lemma pt_mul_S n p : pt_mul (S n) p = pt_add p (pt_mul n p).
Proof. reflexivity. Qed.

Lemma pt_mul_add n m p : on_curve p → pt_mul (n + m) p = pt_add (pt_mul n p) (pt_mul m p).
Proof.
  intros Hp. induction n as [|n IH]; [symmetry; apply pt_add_0_l|].
  cbn [Nat.add]. rewrite !pt_mul_S, IH. symmetry. apply pt_add_assoc; auto using pt_mul_on_curve.
Qed.

Lemma pt_mul_mul n m p : on_curve p → pt_mul (n * m) p = pt_mul n (pt_mul m p).
Proof.
  intros Hp. induction n as [|n IH]; [done|].
  cbn [Nat.mul]. by rewrite pt_mul_S, <- IH, pt_mul_add.
Qed.
End curve.
