(* ===== verification/Ed25519Group.v ===== *)
(** * The reference arithmetic of Ed25519 is the group of the curve

    [ref.go] computes on residues of [2^255 - 19] as big integers.  [ModInverse]
    inverts, [RefAdd] is total on curve points and is the group law of [EdCurve.v],
    and [RefScalarMul] is the scalar multiple, [s] taken as a plain integer. *)
From Stdlib Require Import Znumtheory Zdivisibility Zmod Field.
From S2P Require Import Prelude.
From S2P Require Import Primality.
From S2P Require Import Ed25519.
From S2P Require Import EdPoly.
From S2P Require Import EdCurve.

(** ** [big.Int.ModInverse] *)

Section mod_inverse.
Context (g n : Z).

Lemma egcd_spec fuel r0 t0 r1 t1 :
  0 <= r1 < r0 → r0 * r1 < 2 ^ Z.of_nat fuel → (n | t0 * g - r0) → (n | t1 * g - r1) →
  let '(d, t) := egcd fuel r0 t0 r1 t1 in d = Z.gcd r0 r1 ∧ (n | t * g - d).
Proof.
  revert r0 t0 r1 t1. induction fuel as [|fuel IH]; intros r0 t0 r1 t1 Hr Hf H0 H1; cbn [egcd].
  { assert (r1 = 0) as -> by (simpl in Hf; nia). rewrite Z.gcd_0_r. split; [lia|done]. }
  destruct (Z.eqb_spec r1 0) as [->|Hne].
  { rewrite Z.gcd_0_r. split; [lia|done]. }
  pose proof (Z.div_mod r0 r1 Hne) as Hdm. pose proof (Z.mod_pos_bound r0 r1 ltac:(lia)) as Hm.
  assert (1 <= r0 / r1) as Hq by (apply Z.div_le_lower_bound; lia).
  specialize (IH r1 t1 (r0 mod r1) (t0 - r0 / r1 * t1)).
  destruct (egcd fuel _ _ _ _) as [d t]. destruct IH as [-> Ht]; [lia| |done| |].
  - rewrite Nat2Z.inj_succ, Z.pow_succ_r in Hf by lia. nia.
  - replace ((t0 - r0 / r1 * t1) * g - r0 mod r1)
      with ((t0 * g - r0) - r0 / r1 * (t1 * g - r1)) by lia.
    apply Z.divide_sub_r; [done|by apply Z.divide_mul_r].
  - split; [|done]. by rewrite Z.gcd_comm, Z.gcd_mod, Z.gcd_comm by done.
Qed.

Lemma BitLen_bound z : 0 <= z → z < 2 ^ Z.of_nat (BitLen z).
Proof.
  intros Hz. unfold BitLen. destruct (Z.eqb_spec z 0) as [->|Hne]; [done|].
  rewrite Nat2Z.inj_succ, Z2Nat.id by apply Z.log2_nonneg. apply Z.log2_spec. lia.
Qed.

Lemma ModInverse_spec : 0 <= g < n → 1 < n →
  match ModInverse g n with
  | Some x => 0 <= x < n ∧ (x * g) mod n = 1
  | None => Z.gcd g n ≠ 1
  end.
Proof.
  intros Hg Hn. unfold ModInverse. pose proof (BitLen_bound n ltac:(lia)) as Hb.
  pose proof (egcd_spec (2 * BitLen n) n 0 g 1 ltac:(lia)) as He.
  destruct (egcd _ _ _ _ _) as [d t]. destruct He as [Hd Ht].
  - rewrite Nat2Z.inj_mul, (Z.mul_comm (Z.of_nat 2)), Z.pow_mul_r by lia.
    change (Z.of_nat 2) with 2. rewrite Z.pow_2_r.
    apply Z.mul_lt_mono_nonneg; lia.
  - exists (-1). lia.
  - exists 0. lia.
  - destruct (Z.eqb_spec d 1) as [->|Hne].
    + split; [by apply Z.mod_pos_bound; lia|]. rewrite Z.mul_mod_idemp_l by lia.
      destruct Ht as [k Hk]. replace (t * g) with (1 + k * n) by lia.
      by rewrite Z.mod_add, Z.mod_1_l by lia.
    + by rewrite Z.gcd_comm, <- Hd.
Qed.
End mod_inverse.

(** ** The field and the curve *)

Abbreviation Fp := (Zmod P).

Lemma P_prime : Z.prime P.
Proof. exact prime_25519. Qed.
Definition Fp_field := Zmod.field_theory P P_prime.

Definition dF : Fp := Zmod.of_Z P D.
Definition iF : Fp := Zmod.of_Z P
  19681161376707505956807079304988542015446066515923890162744021073123829784752.

Lemma iF_square : Zmod.mul iF iF = Zmod.opp Zmod.one.
Proof. apply Zmod.to_Z_inj. by vm_compute. Qed.

Lemma Fp_two : Zmod.add Zmod.one Zmod.one ≠ (Zmod.zero : Fp).
Proof. intros E. apply (f_equal Zmod.to_Z) in E. by vm_compute in E. Qed.

(** [d] is not a square: Euler's criterion. *)
Lemma dF_nonsquare r : Zmod.mul r r ≠ dF.
Proof.
  intros Hr. assert (r ≠ Zmod.zero) as Hr0.
  { intros ->. apply (f_equal Zmod.to_Z) in Hr. by vm_compute in Hr. }
  pose proof (Zmod.fermat_nz r Hr0 P_prime) as Hf.
  replace (Z.pred P) with (2 * ((P - 1) / 2)) in Hf by by vm_compute.
  rewrite Zmod.pow_mul_r_nonneg, Zmod.pow_2_r, Hr in Hf by (by vm_compute).
  apply (f_equal Zmod.to_Z) in Hf.
  rewrite Zmod.to_Z_pow_nonneg_r in Hf by by vm_compute.
  unfold dF in Hf. rewrite Zmod.to_Z_of_Z, Z.mod_pow_l in Hf.
  rewrite <- powmod_spec in Hf by by vm_compute. by vm_compute in Hf.
Qed.

#[export] Instance Fp_eq_dec : EqDecision Fp.
Proof.
  intros x y. destruct (Zmod.eqb x y) eqn:E.
  - left. by apply Zmod.eqb_eq.
  - right. rewrite <- Zmod.eqb_eq. congruence.
Defined.

Definition ed_point : Type := pt Fp.
Definition ed_on : ed_point → Prop :=
  on_curve Zmod.one Zmod.add Zmod.mul Zmod.sub dF.
Definition ed_zero : ed_point := pt_zero Zmod.zero Zmod.one.
Definition ed_add : ed_point → ed_point → ed_point :=
  pt_add Zmod.one Zmod.add Zmod.mul Zmod.sub Zmod.mdiv dF.
(** [k] times a point, for an integer [k >= 0]. *)
Definition ed_mul (k : Z) : ed_point → ed_point :=
  pt_mul Zmod.zero Zmod.one Zmod.add Zmod.mul Zmod.sub Zmod.mdiv dF (Z.to_nat k).

Lemma ed_zero_on : ed_on ed_zero.
Proof. exact (pt_zero_on_curve _ _ _ _ _ _ _ _ Fp_field dF). Qed.

Lemma ed_add_on p q : ed_on p → ed_on q → ed_on (ed_add p q).
Proof. exact (pt_add_on_curve _ _ _ _ _ _ _ _ Fp_field _ Fp_two _ _ iF_square dF_nonsquare p q). Qed.

Lemma ed_add_comm p q : ed_add p q = ed_add q p.
Proof. exact (pt_add_comm _ _ _ _ _ _ _ _ Fp_field dF p q). Qed.

Lemma ed_add_0_l p : ed_add ed_zero p = p.
Proof. exact (pt_add_0_l _ _ _ _ _ _ _ _ Fp_field dF p). Qed.

Lemma ed_mul_on k p : ed_on p → ed_on (ed_mul k p).
Proof.
  exact (pt_mul_on_curve _ _ _ _ _ _ _ _ Fp_field _ Fp_two _ _ iF_square dF_nonsquare _ p).
Qed.

Lemma ed_mul_0 p : ed_mul 0 p = ed_zero.
Proof. reflexivity. Qed.

Lemma ed_mul_add k m p : 0 <= k → 0 <= m → ed_on p →
  ed_mul (k + m) p = ed_add (ed_mul k p) (ed_mul m p).
Proof.
  intros Hk Hm Hp. unfold ed_mul. rewrite Z2Nat.inj_add by done.
  exact (pt_mul_add _ _ _ _ _ _ _ _ Fp_field _ Fp_two _ _ iF_square dF_nonsquare _ _ p Hp).
Qed.

Lemma ed_mul_mul k m p : 0 <= k → 0 <= m → ed_on p → ed_mul (k * m) p = ed_mul k (ed_mul m p).
Proof.
  intros Hk Hm Hp. unfold ed_mul. rewrite Z2Nat.inj_mul by done.
  exact (pt_mul_mul _ _ _ _ _ _ _ _ Fp_field _ Fp_two _ _ iF_square dF_nonsquare _ _ p Hp).
Qed.

Lemma ed_den p q : ed_on p → ed_on q →
  let e := pt_e Zmod.mul dF p q in
  Zmod.add Zmod.one e ≠ Zmod.zero ∧ Zmod.sub Zmod.one e ≠ Zmod.zero.
Proof. exact (pt_den _ _ _ _ _ _ _ _ Fp_field _ Fp_two _ _ iF_square dF_nonsquare p q). Qed.

(** ** [ref.go] on the curve *)

Abbreviation toZ := (@Zmod.to_Z P).

(** The reduced reference point of a curve point. *)
Definition ref_of (p : ed_point) : RefPoint := {| X := toZ (px p); Y := toZ (py p) |}.

Lemma toZ_range (a : Fp) : 0 <= toZ a < P.
Proof. by apply Zmod.unsigned_pos_bound. Qed.

Lemma fpMul_toZ a b : fpMul (toZ a) (toZ b) = toZ (Zmod.mul a b).
Proof. symmetry. apply Zmod.unsigned_mul. Qed.
Lemma fpAdd_toZ a b : fpAdd (toZ a) (toZ b) = toZ (Zmod.add a b).
Proof. symmetry. apply Zmod.unsigned_add. Qed.
Lemma fpSub_toZ a b : fpSub (toZ a) (toZ b) = toZ (Zmod.sub a b).
Proof. symmetry. apply Zmod.unsigned_sub. Qed.
Lemma D_toZ : D = toZ dF.
Proof. by vm_compute. Qed.
Lemma one_toZ : 1 = toZ Zmod.one.
Proof. by vm_compute. Qed.

(** [q * b = a] determines [q] when [b] is not zero. *)
Lemma Fp_quotient (a b : Fp) q : b ≠ Zmod.zero → (q * toZ b) mod P = toZ a →
  q mod P = toZ (Zmod.mdiv a b).
Proof.
  intros Hb Hq. rewrite <- Zmod.to_Z_of_Z. f_equal.
  assert (Zmod.mul (Zmod.of_Z P q) b = a) as <-.
  { apply Zmod.to_Z_inj. rewrite Zmod.unsigned_mul, Zmod.to_Z_of_Z, <- Hq.
    apply Z.mul_mod_idemp_l. done. }
  rewrite <- Zmod.mul_inv_r, <- Zmod.mul_assoc, Zmod.mul_inv_same_r_prime by (exact P_prime || done).
  by rewrite Zmod.mul_1_r.
Qed.

Lemma fpInv_toZ b : b ≠ Zmod.zero → fpInv (toZ b) = Some (toZ (Zmod.inv b)).
Proof.
  intros Hb. unfold fpInv, modp. pose proof (toZ_range b) as Hr.
  assert (toZ b ≠ 0) as Hb0 by (intros E; by apply Hb, Zmod.to_Z_inj).
  rewrite Z.mod_small by done. pose proof (ModInverse_spec (toZ b) P Hr eq_refl) as Hs.
  destruct (ModInverse (toZ b) P) as [x|].
  - destruct Hs as [Hx Hxb]. f_equal. rewrite <- (Z.mod_small x P) by done.
    rewrite (Fp_quotient Zmod.one b); [|done|by rewrite Hxb].
    f_equal. rewrite <- Zmod.mul_inv_r. apply Zmod.mul_1_l.
  - exfalso. apply Hs. rewrite Z.gcd_comm. apply Z.coprime_prime_small; [apply P_prime|lia].
Qed.

Lemma RefAdd_ok p q : ed_on p → ed_on q → RefAdd (ref_of p) (ref_of q) = Some (ref_of (ed_add p q)).
Proof.
  intros Hp Hq. destruct (ed_den p q Hp Hq) as [Hx Hy]. unfold RefAdd, ref_of. cbn [X Y].
  assert (pt_e Zmod.mul dF p q =
    Zmod.mul dF (Zmod.mul (Zmod.mul (px p) (px q)) (Zmod.mul (py p) (py q)))) as He.
  { unfold pt_e. by rewrite !Zmod.mul_assoc. }
  rewrite D_toZ, one_toZ. rewrite !fpMul_toZ, !fpAdd_toZ, fpSub_toZ, <- He.
  rewrite !fpInv_toZ by done. cbn [mbind option_bind]. rewrite !fpMul_toZ, !Zmod.mul_inv_r.
  reflexivity.
Qed.

Lemma ref_of_zero : RefIdentity = ref_of ed_zero.
Proof. reflexivity. Qed.

(** [RefScalarMul] is the multiple by the whole integer [s]. *)
Lemma RefScalarMul_ok s p : 0 <= s → ed_on p →
  RefScalarMul s (ref_of p) = Some (ref_of (ed_mul s p)).
Proof.
  intros Hs Hp. unfold RefScalarMul. pose proof (BitLen_bound s Hs) as Hb.
  set (n := BitLen s) in *. pose (f k := ref_of (ed_mul (s / 2 ^ Z.of_nat (n - k)) p)).
  assert (f 0%nat = RefIdentity) as H0.
  { unfold f. rewrite Nat.sub_0_r, Z.div_small by lia. reflexivity. }
  rewrite <- H0. rewrite (for_range_Some f).
  - unfold f. rewrite Nat.add_0_l, Nat.sub_diag, Z.div_1_r. reflexivity.
  - intros k Hk. unfold f. cbv beta zeta.
    replace (n - k)%nat with (S (n - 1 - k)) by lia. replace (n - S k)%nat with (n - 1 - k)%nat by lia.
    set (i := (n - 1 - k)%nat). rewrite Nat2Z.inj_succ, Z.pow_succ_r, Z.mul_comm by lia.
    rewrite <- Z.div_div by (apply Z.pow_nonzero || idtac; lia).
    assert (0 <= s / 2 ^ Z.of_nat i) as Hq by (apply Z.div_pos; lia).
    rewrite Z.testbit_odd, Z.shiftr_div_pow2 by lia.
    set (q := s / 2 ^ Z.of_nat i) in *. assert (0 <= q / 2) by (apply Z.div_pos; lia).
    rewrite RefAdd_ok by auto using ed_mul_on. cbn [mbind option_bind].
    rewrite <- ed_mul_add by done.
    pose proof (Z.div_mod q 2 ltac:(lia)) as Hdm. rewrite Zmod_odd in Hdm.
    destruct (Z.odd q).
    + replace q with ((q / 2 + q / 2) + 1) at 3 by lia.
      rewrite RefAdd_ok by auto using ed_mul_on. do 2 f_equal.
      rewrite (ed_mul_add (q / 2 + q / 2) 1); [|lia|lia|exact Hp]. f_equal.
      rewrite <- (ed_add_0_l p) at 1. apply ed_add_comm.
    + by replace (q / 2 + q / 2) with q by lia.
Qed.

(** *** The base point *)

Definition ed_base : ed_point := Pt (Zmod.of_Z P Bx) (Zmod.of_Z P By).

Lemma ed_base_on : ed_on ed_base.
Proof. apply Zmod.to_Z_inj. vm_compute. reflexivity. Qed.

Lemma ref_of_base : RefBase = ref_of ed_base.
Proof. vm_compute. reflexivity. Qed.

Lemma RefScalarMulBase_ok s : 0 <= s → RefScalarMulBase s = Some (ref_of (ed_mul s ed_base)).
Proof.
  intros Hs. unfold RefScalarMulBase. rewrite ref_of_base. apply RefScalarMul_ok; [done|].
  exact ed_base_on.
Qed.
