(* ===== verification/Ed25519Correct.v ===== *)
(** * The fixed-base gadget computes the scalar multiple and its RFC 8032 encoding

    [Curve.Add], the window tables, [ScalarMulBaseBits] and [Compress] of
    [gadget.go] against [RefScalarMulBase] and [RefCompress] of [ref.go]. *)
From Stdlib Require Import Znumtheory Zdivisibility Zmod Field.
From S2P Require Import Prelude.
From S2P Require Import Gnark.
From S2P Require Import CkdArith.
From S2P Require Import Primality.
From S2P Require Import Ed25519.
From S2P Require Import EdPoly.
From S2P Require Import EdCurve.
From S2P Require Import Ed25519Group.

(** ** The encoding *)

Lemma RefCompress_bytes p : ∀ out, RefCompress p = out →
  Forall is_byte out ∧ length out = 32%nat ∧
  le_val out = modp (Y p) + 2 ^ 255 * (modp (X p) mod 2).
Proof.
  intros out <-. unfold RefCompress, modp. cbv zeta.
  set (y := Y p mod P). assert (0 <= y < P) as Hy by (by apply Z.mod_pos_bound).
  assert (y < 2 ^ 255) as Hy' by (unfold P in Hy; lia).
  rewrite Z.bit0_odd. rewrite Zmod_odd.
  assert (le_bytes 32 y = le_bytes 31 y ++ [y / 2 ^ 248]) as Hsplit.
  { change 32%nat with (31 + 1)%nat. rewrite digits_app by lia. f_equal.
    change (256 ^ Z.of_nat 31) with (2 ^ 248). cbn [digits]. rewrite Z.mod_small; [done|].
    split; [apply Z.div_pos; lia|]. apply Z.div_lt_upper_bound; lia. }
  assert (0 <= y / 2 ^ 248 < 128) as Htop.
  { split; [apply Z.div_pos; lia|]. apply Z.div_lt_upper_bound; lia. }
  assert (le_val (le_bytes 31 y) = y mod 2 ^ 248) as Hlow by (by apply digits_val_digits).
  pose proof (Z.div_mod y (2 ^ 248) ltac:(lia)) as Hdm.
  destruct (Z.odd _).
  - rewrite Hsplit. assert (length (le_bytes 31 y) = 31%nat) as Hl by (by rewrite length_digits).
    rewrite lookup_total_app_r, Hl by lia. cbn [lookup_total list_lookup_total Nat.sub].
    rewrite insert_app_r_alt, Hl by lia. cbn [insert list_insert Nat.sub].
    assert (Z.lor (y / 2 ^ 248) 128 = y / 2 ^ 248 + 128) as ->.
    { rewrite <- Z.lxor_lor, <- Z.add_nocarry_lxor; [done| |];
        apply Z.bits_inj'; intros n Hn; rewrite Z.land_spec, Z.bits_0;
        change 128 with (2 ^ 7); rewrite Z.pow2_bits_eqb by lia;
        destruct (Z.eqb_spec 7 n) as [<-|]; rewrite ?andb_false_r, ?andb_true_r; try done;
        by apply (testbit_high 7). }
    split; [|split].
    + apply Forall_app. split; [auto with bytes|]. apply Forall_singleton. unfold is_digit. lia.
    + rewrite length_app, Hl. done.
    + rewrite digits_val_app, Hl, Hlow. cbn [digits_val].
      change (256 ^ Z.of_nat 31) with (2 ^ 248). lia.
  - split; [auto with bytes|split; [by rewrite length_digits|]].
    rewrite digits_val_digits by lia. change (256 ^ Z.of_nat 32) with (2 ^ 256).
    rewrite Z.mod_small by lia. lia.
Qed.

Lemma D_mod : D mod P = toZ dF.
Proof. vm_compute. reflexivity. Qed.

Section gadget_proofs.
Context `{EmulatedField P 255}.

(** A gadget point carrying the coordinates of a curve point. *)
Definition point_is (g : Point) (q : ed_point) : Prop :=
  evalue (PX g) = toZ (px q) ∧ evalue (PY g) = toZ (py q).

Lemma f_Div_ok x y a b : b ≠ Zmod.zero → evalue x = toZ a → evalue y = toZ b →
  circuit_ok (f_Div x y) (λ q, evalue q = toZ (Zmod.mdiv a b)).
Proof.
  intros Hb Hx Hy. split.
  - eapply Sound_weaken; [apply eDiv_sound|]. intros q Hq. cbv beta in Hq.
    rewrite Hx, Hy in Hq. apply Fp_quotient in Hq; [|exact Hb].
    rewrite Z.mod_small in Hq; [exact Hq|apply evalue_range].
  - eapply Accepts_weaken.
    + apply (eDiv_accepts x y (toZ (Zmod.mdiv a b))).
      * rewrite Hx, Hy, <- Zmod.unsigned_mul. f_equal.
        rewrite <- Zmod.mul_inv_r, <- Zmod.mul_assoc.
        rewrite Zmod.mul_inv_same_l_prime by (exact P_prime || exact Hb). apply Zmod.mul_1_r.
      * rewrite Hy. intros E. by apply Hb, Zmod.to_Z_inj.
    + intros q Hq. rewrite Hq. apply Z.mod_small, toZ_range.
Qed.

Lemma Curve_Add_ok g h p q : point_is g p → point_is h q → ed_on p → ed_on q →
  circuit_ok (Curve_Add g h) (λ r, point_is r (ed_add p q)).
Proof.
  intros [Hgx Hgy] [Hhx Hhy] Hp Hq. destruct (ed_den p q Hp Hq) as [Hdx Hdy].
  assert (pt_e Zmod.mul dF p q =
    Zmod.mul dF (Zmod.mul (Zmod.mul (px p) (px q)) (Zmod.mul (py p) (py q)))) as He.
  { unfold pt_e. by rewrite !Zmod.mul_assoc. }
  unfold Curve_Add.
  step (apply eMul_ok) as a Ha. step (apply eMul_ok) as b Hb.
  step (apply eMul_ok) as cc Hcc. step (apply eMul_ok) as dd Hdd.
  step (apply eMul_ok) as ccdd Hccdd. step (apply eMul_ok) as e Hee.
  rewrite Hgx, Hhy, <- Zmod.unsigned_mul in Ha. rewrite Hgy, Hhx, <- Zmod.unsigned_mul in Hb.
  rewrite Hgx, Hhx, <- Zmod.unsigned_mul in Hcc. rewrite Hgy, Hhy, <- Zmod.unsigned_mul in Hdd.
  rewrite Hcc, Hdd, <- Zmod.unsigned_mul in Hccdd.
  rewrite NewElement_val, D_mod, Hccdd, <- Zmod.unsigned_mul, <- He in Hee.
  step (apply eAdd_ok) as xnum Hxn. step (apply eAdd_ok) as xden Hxd.
  step (apply eAdd_ok) as ynum Hyn. step (apply eSub_ok) as yden Hyd.
  rewrite Ha, Hb, <- Zmod.unsigned_add in Hxn. rewrite Hdd, Hcc, <- Zmod.unsigned_add in Hyn.
  rewrite One_val, one_toZ, Hee, <- Zmod.unsigned_add in Hxd.
  rewrite One_val, one_toZ, Hee, <- Zmod.unsigned_sub in Hyd.
  step (by apply (f_Div_ok _ _ _ _ Hdx Hxn Hxd)) as x Hx.
  step (by apply (f_Div_ok _ _ _ _ Hdy Hyn Hyd)) as y Hy.
  apply ok_ret. split; [exact Hx|exact Hy].
Qed.
End gadget_proofs.

(** ** The window tables *)

Definition window_base (j : nat) : Z := 2 ^ Z.of_nat (windowBits * j).

(** Entry [k] of table [j] is [k * 2^(7j)] times the base point. *)
Definition window_entry (j k : nat) : RefPoint :=
  ref_of (ed_mul (Z.of_nat k * window_base j) ed_base).

Lemma window_base_pos j : 0 < window_base j.
Proof. apply Z.pow_pos_nonneg; lia. Qed.

Lemma table_ok j : table j = Some (window_entry j <$> seq 0 windowSize).
Proof.
  pose proof (window_base_pos j) as Hpos. unfold table. fold (window_base j).
  rewrite RefScalarMulBase_ok by lia. cbn [mbind option_bind]. unfold window_points.
  pose (f n := (window_entry j <$> seq 0 n, window_entry j n)).
  assert (f 0%nat = ([], RefIdentity)) as H0.
  { unfold f, window_entry. rewrite Z.mul_0_l, ed_mul_0. reflexivity. }
  rewrite <- H0. rewrite (for_range_Some f); [reflexivity|].
  intros n Hn. unfold f, window_entry.
  rewrite RefAdd_ok by (apply ed_mul_on, ed_base_on). cbn [mbind option_bind].
  rewrite <- ed_mul_add; [|lia|lia|exact ed_base_on].
  rewrite seq_S, fmap_app. do 4 f_equal. lia.
Qed.

Lemma buildTables_ok :
  buildTables = Some ((λ j, window_entry j <$> seq 0 windowSize) <$> seq 0 numWindows).
Proof.
  unfold buildTables.
  pose (f n := (λ j, window_entry j <$> seq 0 windowSize) <$> seq 0 n).
  change (@nil (list RefPoint)) with (f 0%nat). rewrite (for_range_Some f); [reflexivity|].
  intros n Hn. cbv beta. rewrite table_ok. cbn [mbind option_bind]. unfold f.
  by rewrite seq_S, fmap_app.
Qed.

(** ** Sums of weighted bits *)

Section weighted_bits.
Context `{Gadgets}.
Context (bits : list var) (z : Z) (Hbits : value <$> bits = bits_of 256 z).

Lemma digit_step o k :
  (z / 2 ^ Z.of_nat o) mod 2 ^ Z.of_nat (S k) =
  (z / 2 ^ Z.of_nat o) mod 2 ^ Z.of_nat k + 2 ^ Z.of_nat k * ((z / 2 ^ Z.of_nat (o + k)) mod 2).
Proof.
  assert (0 < 2 ^ Z.of_nat k) by (apply Z.pow_pos_nonneg; lia).
  assert (0 < 2 ^ Z.of_nat o) by (apply Z.pow_pos_nonneg; lia).
  rewrite Nat2Z.inj_succ, Z.pow_succ_r, (Z.mul_comm 2), Z.rem_mul_r by lia.
  rewrite Z.div_div by lia. rewrite <- Z.pow_add_r by lia. by rewrite <- Nat2Z.inj_add.
Qed.

Lemma add_bit acc o k : (o + k < 256)%nat → (k < 8)%nat →
  value acc = (z / 2 ^ Z.of_nat o) mod 2 ^ Z.of_nat k →
  value (api_Add acc (api_Mul (bits !!! (o + k)%nat) (constant (2 ^ Z.of_nat k)))) =
  (z / 2 ^ Z.of_nat o) mod 2 ^ Z.of_nat (S k).
Proof.
  intros Hk Hk7 Hacc. rewrite digit_step, <- Hacc.
  pose proof (canon_bit bits z (o + k) Hk Hbits) as Hb.
  pose proof (Z.mod_pos_bound (z / 2 ^ Z.of_nat (o + k)) 2 ltac:(lia)) as Hbit.
  pose proof (Z.pow_pos_nonneg 2 (Z.of_nat k)). pose proof (value_range acc).
  assert (value acc < 2 ^ Z.of_nat k) by (rewrite Hacc; apply Z.mod_pos_bound; lia).
  assert (2 ^ Z.of_nat k < 2 ^ 8) by (apply Z.pow_lt_mono_r; lia).
  revert Hb Hbit. generalize ((z / 2 ^ Z.of_nat (o + k)) mod 2). intros b Hb Hbit.
  assert (0 <= b * 2 ^ Z.of_nat k <= 2 ^ Z.of_nat k) by nia.
  assert (value (api_Mul (bits !!! (o + k)%nat) (constant (2 ^ Z.of_nat k))) =
    b * 2 ^ Z.of_nat k) as Hm.
  { rewrite value_Mul_small; rewrite value_constant_small, Hb; lia. }
  rewrite value_Add_small; rewrite Hm; lia.
Qed.

(** The bytes [Compress] packs. *)
Lemma pack_byte i : (i < 32)%nat →
  value (loop_range 0 8 (λ b acc,
    api_Add acc (api_Mul (bits !!! (8 * i + b)%nat) (constant (2 ^ Z.of_nat b)))) (constant 0)) =
  (z / 2 ^ Z.of_nat (8 * i)) mod 256.
Proof.
  intros Hi.
  apply (loop_range_ind (λ k acc, value acc = (z / 2 ^ Z.of_nat (8 * i)) mod 2 ^ Z.of_nat k)
    0 8).
  { rewrite value_constant_small by lia. by rewrite Z.mod_1_r. }
  intros k acc Hk Hacc. apply add_bit; [lia..|done].
Qed.
End weighted_bits.

(** ** Window selectors *)

Section windows.
Context `{EmulatedField P 255}.
Context (bits : list var) (s : Z).
Context (Hbits : value <$> bits = bits_of 256 s) (Hs : 0 <= s < 2 ^ 255).

(** Selector [j] is digit [j] of the scalar in radix 128. *)
Lemma window_sel_val j : (j < numWindows)%nat →
  value (window_sel bits j) = (s / window_base j) mod 128.
Proof.
  intros Hj. change numWindows with 37%nat in Hj. unfold window_sel.
  apply (loop_range_ind (λ k sel, value sel = (s / window_base j) mod 2 ^ Z.of_nat k) 0 7).
  { rewrite value_constant_small by lia. by rewrite Z.mod_1_r. }
  intros k acc Hk Hacc. cbv zeta. cbn [Nat.add] in Hk. unfold window_base in *.
  change scalarBits with 255%nat.
  destruct (Nat.ltb_spec (windowBits * j + k) 255) as [Hlt|Hge].
  - apply add_bit; [done|lia..|done].
  - rewrite digit_step, <- Hacc. rewrite (Z.div_small s (2 ^ Z.of_nat (windowBits * j + k)));
      [by rewrite Z.mod_0_l, Z.mul_0_r, Z.add_0_r by lia|].
    split; [lia|]. eapply Z.lt_le_trans; [apply Hs|]. apply Z.pow_le_mono_r; lia.
Qed.

(** The scalar read window by window. *)
Definition window_prefix (j : nat) : Z := s mod window_base j.

Lemma window_prefix_S j :
  window_prefix (S j) = window_prefix j + (s / window_base j) mod 128 * window_base j.
Proof.
  unfold window_prefix. pose proof (window_base_pos j).
  assert (window_base (S j) = window_base j * 128) as ->.
  { unfold window_base, windowBits. change 128 with (2 ^ 7). rewrite <- Z.pow_add_r by lia.
    f_equal. lia. }
  rewrite Z.rem_mul_r by lia. ring.
Qed.

Lemma window_prefix_0 : window_prefix 0 = 0.
Proof. unfold window_prefix, window_base. rewrite Nat.mul_0_r. apply Z.mod_1_r. Qed.

Lemma window_prefix_all : window_prefix numWindows = s.
Proof.
  unfold window_prefix. apply Z.mod_small. split; [lia|].
  eapply Z.lt_le_trans; [apply Hs|]. unfold window_base. apply Z.pow_le_mono_r; [lia|].
  by vm_compute.
Qed.

Lemma window_prefix_nonneg j : 0 <= window_prefix j.
Proof. apply Z.mod_pos_bound, window_base_pos. Qed.

Definition acc_is (j : nat) (acc : option Point) : Prop :=
  match acc with
  | None => j = 0%nat
  | Some g => (0 < j)%nat ∧ point_is g (ed_mul (window_prefix j) ed_base)
  end.

Definition all_tables : list (list RefPoint) :=
  (λ j, window_entry j <$> seq 0 windowSize) <$> seq 0 numWindows.

Lemma selected j : (j < numWindows)%nat →
  ∃ k, value (window_sel bits j) = Z.of_nat k ∧ (k < windowSize)%nat ∧
       Z.of_nat k = (s / window_base j) mod 128.
Proof.
  intros Hj. pose proof (Z.mod_pos_bound (s / window_base j) 128 ltac:(lia)) as Hm.
  exists (Z.to_nat ((s / window_base j) mod 128)). rewrite window_sel_val by done.
  rewrite Z2Nat.id by lia. split; [done|split; [|done]].
  change windowSize with 128%nat. lia.
Qed.

Lemma Mux_entry {A} sel (g : A → Element) (t : nat → A) k :
  value sel = Z.of_nat k → (k < windowSize)%nat →
  circuit_ok (f_Mux sel (g <$> (t <$> seq 0 windowSize))) (λ x, evalue x = evalue (g (t k))).
Proof.
  intros Hsel Hk. apply (eMux_ok _ _ _ k); [done|].
  by rewrite !list_lookup_fmap, lookup_seq_lt by done.
Qed.

Lemma NewElement_toZ (a : Fp) : evalue (f_NewElement (toZ a)) = toZ a.
Proof. rewrite NewElement_val. apply Z.mod_small, toZ_range. Qed.

Lemma window_step_ok j acc : (j < numWindows)%nat → acc_is j acc →
  circuit_ok (window_step all_tables bits j acc) (acc_is (S j)).
Proof.
  intros Hj Hacc. unfold window_step.
  assert (all_tables !!! j = window_entry j <$> seq 0 windowSize) as ->.
  { apply list_lookup_total_correct. unfold all_tables.
    by rewrite list_lookup_fmap, lookup_seq_lt by done. }
  destruct (selected j Hj) as (k & Hsel & Hk & Hkd).
  pose proof (window_prefix_nonneg j) as Hnn. pose proof (window_base_pos j) as Hwb.
  assert (window_prefix (S j) = window_prefix j + Z.of_nat k * window_base j) as HS
    by (rewrite window_prefix_S, Hkd; done).
  step (by apply Mux_entry) as sx Hsx. step (by apply Mux_entry) as sy Hsy.
  assert (point_is {| PX := sx; PY := sy |} (ed_mul (Z.of_nat k * window_base j) ed_base)) as Hsp.
  { split; cbn [PX PY]; [rewrite Hsx|rewrite Hsy]; apply NewElement_toZ. }
  destruct acc as [acc|].
  - destruct Hacc as [Hj0 Hacc].
    step (apply (Curve_Add_ok _ _ _ _ Hacc Hsp); apply ed_mul_on, ed_base_on) as r Hr.
    apply ok_ret. split; [lia|]. rewrite HS.
    rewrite ed_mul_add; [exact Hr|lia|lia|exact ed_base_on].
  - apply ok_ret. cbn in Hacc. subst j. split; [lia|]. rewrite HS, window_prefix_0. exact Hsp.
Qed.
End windows.

(** ** [ScalarMulBaseBits] and [Compress] *)

Section fixed_base.
Context `{EmulatedField P 255}.

Lemma assert_booleans_ok bits : Forall is_bit (value <$> bits) →
  circuit_ok (assert_booleans bits) (λ _, True).
Proof.
  intros Hb. apply (ok_for (λ _ _, True)); [done|]. intros i _ Hi _.
  apply AssertIsBoolean_ok. destruct (lookup_lt_is_Some_2 bits i) as [u Hu]; [lia|].
  rewrite (list_lookup_total_correct _ _ _ Hu).
  apply (Forall_lookup_1 _ _ i _ Hb). by rewrite list_lookup_fmap, Hu.
Qed.

Lemma assert_booleans_rejects bits : ¬ Forall is_bit (value <$> bits) →
  rejects (assert_booleans bits).
Proof.
  intros Hb. rewrite Forall_fmap in Hb. apply not_Forall_Exists in Hb; [|solve_decision].
  apply Exists_exists in Hb as (u & [i Hi]%list_elem_of_lookup & Hu).
  pose proof (lookup_lt_Some _ _ _ Hi) as Hlt.
  apply (rejects_for (λ _ _, True) _ _ _ _ i); [lia|done|by intros ? ? _ _ ? ?|].
  intros _ _. rewrite (list_lookup_total_correct _ _ _ Hi). by apply AssertIsBoolean_rejects.
Qed.

Lemma ScalarMulBaseBits_spec bits s :
  value <$> bits = bits_of 256 s → 0 <= s < 2 ^ 255 →
  circuit_ok (ScalarMulBaseBits bits) (λ g, point_is g (ed_mul s ed_base)).
Proof.
  intros Hbits Hs. unfold ScalarMulBaseBits.
  assert (length bits = 256%nat) as ->.
  { apply (f_equal length) in Hbits. by rewrite length_fmap, length_digits in Hbits. }
  cbn [negb Nat.eqb].
  step (apply assert_booleans_ok; rewrite Hbits; apply digits_are_digits; lia) as u1 Hu1.
  eapply ok_bind.
  { apply (ok_assert_equal _ _ (λ _, True)); [|done].
    rewrite (canon_bit bits s) by (done || lia). rewrite value_constant_small by lia.
    change (Z.of_nat 255) with 255. by rewrite Z.div_small by lia. }
  intros u2 _. rewrite buildTables_ok. fold all_tables. cbn [circuit_of_option].
  eapply ok_bind; [by apply ok_ret with (R := λ t, t = all_tables)|]. intros ? ->.
  eapply ok_bind.
  { apply (ok_for (acc_is s) 0 numWindows); [done|]. intros j acc Hj Hacc.
    apply window_step_ok; [done|done|lia|done]. }
  cbv beta. intros [g|] Hg; [|by vm_compute in Hg]. apply ok_ret.
  destruct Hg as [_ Hg]. cbn [Nat.add] in Hg. by rewrite (window_prefix_all s Hs) in Hg.
Qed.

Lemma Compress_spec g q : point_is g q →
  circuit_ok (Compress g) (λ out, value <$> out = RefCompress (ref_of q)).
Proof.
  intros [Hx Hy]. unfold Compress.
  step (apply ToBitsCanonical_ok) as yBits Hyb. step (apply ToBitsCanonical_ok) as xBits Hxb.
  rewrite Hy in Hyb. rewrite Hx in Hxb. apply ok_ret.
  pose proof (toZ_range (px q)) as Hpx. pose proof (toZ_range (py q)) as Hpy.
  set (z := toZ (py q) + 2 ^ 255 * (toZ (px q) mod 2)).
  assert (length yBits = 255%nat) as Hly.
  { apply (f_equal length) in Hyb. by rewrite length_fmap, length_digits in Hyb. }
  assert (value (xBits !!! 0%nat) = toZ (px q) mod 2) as Hsign.
  { apply value_lookup_total. rewrite Hxb, digits_lookup by lia. by rewrite Z.div_1_r. }
  assert (value <$> take 255 yBits ++ [xBits !!! 0%nat] = bits_of 256 z) as Henc.
  { rewrite take_ge, fmap_app, Hyb by lia. rewrite fmap_cons, fmap_nil, Hsign.
    change 256%nat with (255 + 1)%nat. unfold z.
    assert (0 <= toZ (py q) < 2 ^ Z.of_nat 255) as Hpy2.
    { change (2 ^ Z.of_nat 255) with (2 ^ 255). assert (P < 2 ^ 255) by (by vm_compute). lia. }
    pose proof (digits_add_high 2 255 1 _ (toZ (px q) mod 2) ltac:(lia) Hpy2) as Hd.
    change (Z.of_nat 255) with 255 in Hd. rewrite Hd. f_equal. cbn [digits].
    by rewrite Z.mod_mod by lia. }
  rewrite <- list_fmap_compose.
  pose proof (RefCompress_bytes (ref_of q) _ eq_refl) as (Hb & Hl & Hv).
  cbn [X Y ref_of] in Hv. unfold modp in Hv.
  rewrite (Z.mod_small (toZ (py q)) P Hpy), (Z.mod_small (toZ (px q)) P Hpx) in Hv.
  fold z in Hv.
  transitivity (le_bytes 32 z).
  - rewrite digits_seq by lia. apply list_fmap_ext. intros j i [-> Hi]%lookup_seq.
    unfold compose. rewrite (pack_byte _ z) by (done || lia). cbn [Nat.add].
    by rewrite <- pow256.
  - rewrite <- Hv, <- Hl. apply digits_digits_val; [lia|done].
Qed.
End fixed_base.

Section fixed_base_theorems.
Context `{EmulatedField P 255}.

(** Key bytes of a scalar: multiply the base point and encode. *)
Definition base_key (bits : list var) : Circuit (list var) :=
  g ← ScalarMulBaseBits bits; Compress g.

Lemma base_key_spec bits s : value <$> bits = bits_of 256 s → 0 <= s < 2 ^ 255 →
  circuit_ok (base_key bits)
    (λ out, value <$> out = RefCompress (ref_of (ed_mul s ed_base))).
Proof.
  intros Hb Hs. step (by apply ScalarMulBaseBits_spec) as g Hg. by apply Compress_spec.
Qed.

Lemma base_key_rejects bits : length bits = 256%nat →
  ¬ (Forall is_bit (value <$> bits) ∧ bits_val (value <$> bits) < 2 ^ 255) →
  rejects (base_key bits).
Proof.
  intros Hl Hn. set (vs := value <$> bits) in *.
  assert (length vs = 256%nat) as Hlv by (unfold vs; by rewrite length_fmap).
  unfold base_key, ScalarMulBaseBits. rewrite Hl. cbn [negb Nat.eqb].
  apply rejects_bind_l. destruct (decide (Forall is_bit vs)) as [Hb|Hb].
  + apply rejects_bind_r. intros _. apply rejects_bind_l, rejects_assert_equal.
    pose proof (digits_val_bound 2 ltac:(lia) _ Hb) as Hz. rewrite Hlv in Hz.
    rewrite (canon_bit bits (bits_val vs)), value_constant_small by
      (lia || by rewrite <- Hlv, digits_digits_val by (done || lia)).
    change (Z.of_nat 255) with 255. change (Z.of_nat 256) with 256 in Hz.
    rewrite top_bit by done. intros Hlt. by apply Hn.
  + by apply rejects_bind_l, assert_booleans_rejects.
Qed.

(** C28 [ScalarMulBaseBits] followed by [Compress] outputs the RFC 8032 encoding of
    [s*B] for the integer [s] its 256 bits spell, used as it is, and equals the
    double-and-add reference [RefScalarMulBase]; a non-boolean wire or a set bit 255
    is refused for every prover. *)
Theorem ScalarMulBaseBits_exact bits : length bits = 256%nat →
  let vs := value <$> bits in
  (Forall is_bit vs ∧ bits_val vs < 2 ^ 255 →
    circuit_ok (base_key bits) (λ out, ∃ q,
      RefScalarMulBase (bits_val vs) = Some q ∧ bytes_are out (RefCompress q))) ∧
  (¬ (Forall is_bit vs ∧ bits_val vs < 2 ^ 255) → rejects (base_key bits)).
Proof.
  intros Hl vs. assert (length vs = 256%nat) as Hlv by (unfold vs; by rewrite length_fmap).
  split.
  - intros [Hb Hs]. pose proof (digits_val_bound 2 ltac:(lia) _ Hb) as [Hnn _].
    eapply ok_weaken; [apply (base_key_spec _ (bits_val vs)); [|done]|].
    + rewrite <- Hlv. symmetry. by apply digits_digits_val.
    + intros out Hout. exists (ref_of (ed_mul (bits_val vs) ed_base)).
      split; [by apply RefScalarMulBase_ok|]. split; [exact Hout|].
      by apply (RefCompress_bytes _ _ eq_refl).
  - by apply base_key_rejects.
Qed.
End fixed_base_theorems.

(** The reference scalar multiplication is total on every non-negative integer and
    additive, although its [RefAdd] divides: [RefAdd (s*B) (t*B) = (s+t)*B], with no
    reduction of the scalars modulo the group order. *)
Theorem RefScalarMulBase_additive s t : 0 <= s → 0 <= t →
  ∃ p q, RefScalarMulBase s = Some p ∧ RefScalarMulBase t = Some q ∧
         RefAdd p q = RefScalarMulBase (s + t) ∧ is_Some (RefAdd p q).
Proof.
  intros Hs Ht. exists (ref_of (ed_mul s ed_base)), (ref_of (ed_mul t ed_base)).
  rewrite !RefScalarMulBase_ok by lia.
  rewrite RefAdd_ok by (apply ed_mul_on, ed_base_on).
  rewrite <- ed_mul_add; [by eauto|lia|lia|exact ed_base_on].
Qed.
