(* ===== verification/EdOrder.v ===== *)
(** * The order of the base point

    Projective double-and-add on 63-bit digits, proved to compute the multiples of
    [Ed25519Group.v], and the order of the Ed25519 base point it certifies. *)
From Stdlib Require Import Znumtheory Zdivisibility Zmod Field.
From Bignums Require Import BigN.
From S2P Require Import Prelude.
From S2P Require Import Primality.
From S2P Require Import Ed25519.
From S2P Require Import EdPoly.
From S2P Require Import EdCurve.
From S2P Require Import Ed25519Group.

(** ** Field operations on digits *)

Definition bP : BigN.t := Eval vm_compute in BigN.of_N (Z.to_N P).
Definition bD : BigN.t := Eval vm_compute in BigN.of_N (Z.to_N D).
Definition badd (a b : BigN.t) : BigN.t := BigN.modulo (BigN.add a b) bP.
Definition bsub (a b : BigN.t) : BigN.t := BigN.modulo (BigN.sub (BigN.add a bP) (BigN.modulo b bP)) bP.
Definition bmul (a b : BigN.t) : BigN.t := BigN.modulo (BigN.mul a b) bP.

Definition fe (a : BigN.t) : Fp := Zmod.of_Z P (BigN.to_Z a).

Lemma bP_val : BigN.to_Z bP = P.
Proof. vm_compute. reflexivity. Qed.

Lemma fe_mod a z : BigN.to_Z a = z mod P → fe a = Zmod.of_Z P z.
Proof. intros E. unfold fe. rewrite E. apply Zmod.of_Z_mod. Qed.

Lemma fe_add a b : fe (badd a b) = Zmod.add (fe a) (fe b).
Proof.
  unfold fe at 2 3. rewrite <- Zmod.of_Z_add. apply fe_mod. unfold badd.
  by rewrite BigN.spec_modulo, BigN.spec_add, bP_val.
Qed.
Lemma fe_mul a b : fe (bmul a b) = Zmod.mul (fe a) (fe b).
Proof.
  unfold fe at 2 3. rewrite <- Zmod.of_Z_mul. apply fe_mod. unfold bmul.
  by rewrite BigN.spec_modulo, BigN.spec_mul, bP_val.
Qed.
Lemma fe_sub a b : fe (bsub a b) = Zmod.sub (fe a) (fe b).
Proof.
  unfold fe at 2 3. rewrite <- Zmod.of_Z_sub. apply fe_mod. unfold bsub.
  rewrite BigN.spec_modulo, BigN.spec_sub, BigN.spec_add, BigN.spec_modulo, bP_val.
  pose proof (BigN.spec_pos a). pose proof (Z.mod_pos_bound (BigN.to_Z b) P eq_refl).
  rewrite Z.max_r by lia. rewrite Zminus_mod_idemp_r.
  replace (BigN.to_Z a + P - BigN.to_Z b) with (BigN.to_Z a - BigN.to_Z b + 1 * P) by lia.
  by rewrite Z.mod_add.
Qed.

(** ** Projective points *)

Record proj := Proj { jX : BigN.t; jY : BigN.t; jZ : BigN.t }.

Definition proj_is (a : proj) (p : ed_point) : Prop :=
  fe (jZ a) ≠ Zmod.zero ∧ fe (jX a) = Zmod.mul (px p) (fe (jZ a)) ∧
  fe (jY a) = Zmod.mul (py p) (fe (jZ a)).

Definition proj_add (p q : proj) : proj :=
  let A := bmul (jZ p) (jZ q) in
  let B := bmul A A in
  let C := bmul (jX p) (jX q) in
  let E := bmul (jY p) (jY q) in
  let F := bmul bD (bmul C E) in
  let G := bsub B F in
  let H := badd B F in
  let M := badd (bmul (jX p) (jY q)) (bmul (jY p) (jX q)) in
  Proj (bmul (bmul A G) M) (bmul (bmul A H) (badd E C)) (bmul G H).

Section proj_field.
Add Field Fp_field_tac : (Zmod.field_theory P P_prime).

(** The projective formulas, with the affine sum's denominators [1 + e], [1 - e]. *)
Lemma proj_add_identity (x1 y1 z1 x2 y2 z2 d X Y : Fp) :
  let e := Zmod.mul (Zmod.mul (Zmod.mul (Zmod.mul d x1) x2) y1) y2 in
  Zmod.mul X (Zmod.add Zmod.one e) = Zmod.add (Zmod.mul x1 y2) (Zmod.mul y1 x2) →
  Zmod.mul Y (Zmod.sub Zmod.one e) = Zmod.add (Zmod.mul y1 y2) (Zmod.mul x1 x2) →
  let A := Zmod.mul z1 z2 in let B := Zmod.mul A A in
  let C := Zmod.mul (Zmod.mul x1 z1) (Zmod.mul x2 z2) in
  let E := Zmod.mul (Zmod.mul y1 z1) (Zmod.mul y2 z2) in
  let F := Zmod.mul d (Zmod.mul C E) in
  let G := Zmod.sub B F in let H := Zmod.add B F in
  let M := Zmod.add (Zmod.mul (Zmod.mul x1 z1) (Zmod.mul y2 z2))
                    (Zmod.mul (Zmod.mul y1 z1) (Zmod.mul x2 z2)) in
  Zmod.mul (Zmod.mul A G) M = Zmod.mul X (Zmod.mul G H) ∧
  Zmod.mul (Zmod.mul A H) (Zmod.add E C) = Zmod.mul Y (Zmod.mul G H) ∧
  Zmod.mul G H = Zmod.mul (Zmod.mul (Zmod.mul B B) (Zmod.add Zmod.one e)) (Zmod.sub Zmod.one e).
Proof.
  intros e HX HY A B C E F G H M.
  assert (G = Zmod.mul B (Zmod.sub Zmod.one e)) as -> by (unfold G, F, C, E, B, A, e; ring).
  assert (H = Zmod.mul B (Zmod.add Zmod.one e)) as -> by (unfold H, F, C, E, B, A, e; ring).
  assert (M = Zmod.mul A (Zmod.mul X (Zmod.add Zmod.one e))) as ->
    by (rewrite HX; unfold M, A; ring).
  assert (Zmod.add E C = Zmod.mul A (Zmod.mul Y (Zmod.sub Zmod.one e))) as ->
    by (rewrite HY; unfold E, C, A; ring).
  unfold B. clearbody e A. repeat split; ring.
Qed.
End proj_field.

Lemma Fp_mul_nonzero (a b : Fp) : a ≠ Zmod.zero → b ≠ Zmod.zero → Zmod.mul a b ≠ Zmod.zero.
Proof. intros Ha Hb E. apply (Zmod.mul_0_iff_prime P_prime) in E as [E|E]; [exact (Ha E)|exact (Hb E)]. Qed.

Lemma fe_bD : fe bD = dF.
Proof. apply Zmod.to_Z_inj. vm_compute. reflexivity. Qed.

Lemma ed_add_coords p q : ed_on p → ed_on q →
  Zmod.mul (px (ed_add p q)) (Zmod.add Zmod.one (pt_e Zmod.mul dF p q)) =
    Zmod.add (Zmod.mul (px p) (py q)) (Zmod.mul (py p) (px q)) ∧
  Zmod.mul (py (ed_add p q)) (Zmod.sub Zmod.one (pt_e Zmod.mul dF p q)) =
    Zmod.add (Zmod.mul (py p) (py q)) (Zmod.mul (px p) (px q)).
Proof.
  intros Hp Hq. unfold ed_add.
  exact (pt_add_coords _ _ _ _ _ _ _ _ Fp_field _ Fp_two _ _ iF_square dF_nonsquare p q Hp Hq).
Qed.

Lemma proj_add_ok a b p q : ed_on p → ed_on q → proj_is a p → proj_is b q →
  proj_is (proj_add a b) (ed_add p q).
Proof.
  intros Hp Hq (Hza & Hxa & Hya) (Hzb & Hxb & Hyb).
  destruct (ed_den p q Hp Hq) as [Hd1 Hd2]. destruct (ed_add_coords p q Hp Hq) as [HX HY].
  pose proof (proj_add_identity _ _ (fe (jZ a)) _ _ (fe (jZ b)) _ _ _ HX HY) as (H1 & H2 & H3).
  unfold proj_is, proj_add. cbn [jX jY jZ].
  rewrite !fe_mul, fe_sub, !fe_add, !fe_mul, fe_bD, Hxa, Hya, Hxb, Hyb.
  split; [|split; [exact H1|exact H2]].
  rewrite H3. pose proof (Fp_mul_nonzero _ _ Hza Hzb) as HA.
  pose proof (Fp_mul_nonzero _ _ HA HA) as HB. pose proof (Fp_mul_nonzero _ _ HB HB) as HBB.
  exact (Fp_mul_nonzero _ _ (Fp_mul_nonzero _ _ HBB Hd1) Hd2).
Qed.

Fixpoint proj_mul (a : proj) (n : positive) : proj :=
  match n with
  | xH => a
  | xO n => let b := proj_mul a n in proj_add b b
  | xI n => let b := proj_mul a n in proj_add (proj_add b b) a
  end.

Lemma ed_mul_1 p : ed_on p → ed_mul 1 p = p.
Proof. intros Hp. rewrite <- (ed_add_0_l p) at 2. rewrite ed_add_comm. reflexivity. Qed.

Lemma proj_mul_ok a p n : ed_on p → proj_is a p → proj_is (proj_mul a n) (ed_mul (Z.pos n) p).
Proof.
  intros Hp Ha. induction n as [n IH|n IH|]; cbn [proj_mul].
  - replace (Z.pos n~1) with (Z.pos n + Z.pos n + 1) by lia.
    rewrite !ed_mul_add; [|lia|lia|exact Hp|lia|lia|exact Hp]. rewrite (ed_mul_1 p) by exact Hp.
    apply proj_add_ok; [by apply ed_add_on; apply ed_mul_on|exact Hp| |exact Ha].
    by apply proj_add_ok; try apply ed_mul_on.
  - replace (Z.pos n~0) with (Z.pos n + Z.pos n) by lia.
    rewrite ed_mul_add; [|lia|lia|exact Hp]. by apply proj_add_ok; try apply ed_mul_on.
  - rewrite ed_mul_1 by exact Hp. exact Ha.
Qed.

(** ** The order *)

Definition group_order : Z := 2 ^ 252 + 27742317777372353535851937790883648493.

Definition proj_base : proj :=
  Proj (BigN.of_N (Z.to_N Bx)) (BigN.of_N (Z.to_N By)) BigN.one.

Lemma proj_base_is : proj_is proj_base ed_base.
Proof.
  split; [|split]; [intros E; apply (f_equal Zmod.to_Z) in E; by vm_compute in E|..];
    apply Zmod.to_Z_inj; vm_compute; reflexivity.
Qed.

Lemma proj_is_zero a p : proj_is a p →
  BigN.eqb (jX a) BigN.zero && BigN.eqb (jY a) (jZ a) = true → p = ed_zero.
Proof.
  intros (Hz & Hx & Hy) Hb. apply andb_true_iff in Hb as [H0 H1].
  rewrite BigN.spec_eqb in H0, H1. apply Z.eqb_eq in H0, H1.
  destruct p as [x y]. cbn [px py] in *.
  assert (x = Zmod.zero) as ->.
  { unfold fe at 1 in Hx. rewrite H0 in Hx. symmetry in Hx.
    change (Zmod.of_Z P (BigN.to_Z BigN.zero)) with (Zmod.zero : Fp) in Hx.
    apply (Zmod.mul_0_iff_prime P_prime) in Hx as [Hx|Hx]; [exact Hx|by apply Hz in Hx]. }
  assert (y = Zmod.one) as ->; [|reflexivity].
  apply (Zmod.mul_cancel_r_prime (fe (jZ a)) _ _ P_prime Hz).
  rewrite <- Hy, Zmod.mul_1_l. unfold fe. by rewrite H1.
Qed.

Lemma base_order : ed_mul group_order ed_base = ed_zero.
Proof.
  change group_order with (Z.pos (Z.to_pos group_order)).
  apply (proj_is_zero (proj_mul proj_base (Z.to_pos group_order))).
  - apply proj_mul_ok; [exact ed_base_on|exact proj_base_is].
  - vm_compute. reflexivity.
Qed.

Lemma ed_mul_order n : 0 <= n → ed_mul (n * group_order) ed_base = ed_zero.
Proof.
  intros Hn. rewrite ed_mul_mul; [|lia|by vm_compute|exact ed_base_on]. rewrite base_order.
  pattern n. apply natlike_ind; [reflexivity| |done]. intros k Hk IH.
  rewrite <- Z.add_1_r, ed_mul_add; [|lia|lia|exact ed_zero_on]. rewrite IH.
  rewrite ed_add_0_l. unfold ed_mul. cbn. apply ed_add_0_l.
Qed.

Lemma ed_mul_mod k : 0 <= k → ed_mul (k mod group_order) ed_base = ed_mul k ed_base.
Proof.
  intros Hk. assert (0 < group_order) as Ho by by vm_compute.
  rewrite (Z.div_mod k group_order) at 2 by lia. rewrite Z.mul_comm.
  pose proof (Z.mod_pos_bound k group_order Ho). pose proof (Z.div_pos k group_order Hk Ho).
  rewrite ed_mul_add; [|nia|lia|exact ed_base_on]. by rewrite ed_mul_order, ed_add_0_l by done.
Qed.
