(* ===== verification/GoEd25519.v ===== *)
(** * Ed25519 signatures: Go's [crypto/ed25519]

    RFC 8032 signing and the cofactorless verification of the standard library, over the
    points of [Ed25519.v] and the hash of [Sha512Spec.v].  [None] is an inversion that
    fails in the reference arithmetic, which no point of the curve meets. *)
From Bignums Require Import BigN.
From Stdlib Require Import Znumtheory Zdivisibility Zmod Field.
From S2P Require Import Prelude.
From S2P Require Import Sha512Spec.
From S2P Require Import Sha512Correct.
From S2P Require Import Primality.
From S2P Require Import Ed25519.
From S2P Require Import EdPoly.
From S2P Require Import EdCurve.
From S2P Require Import Ed25519Group.
From S2P Require Import Ed25519Correct.
From S2P Require Import EdOrder.

(** ** Decoding a point *)

(** A square root of [-1]. *)
Definition sqrtM1 : Z :=
  19681161376707505956807079304988542015446066515923890162744021073123829784752.

(** [field.Element.SqrtRatio]: the even square root of [u/v] when there is one. *)
Definition SqrtRatio (u v : Z) : Z * bool :=
  let v3 := fpMul v (fpMul v v) in
  let v7 := fpMul v (fpMul v3 v3) in
  let r := fpMul (fpMul u v3) (powmod (fpMul u v7) ((P - 5) / 8) P) in
  let found := fpMul v (fpMul r r) in
  let correctSign := found =? u in
  let flippedSign := found =? fpSub 0 u in
  let flippedSignI := found =? fpMul (fpSub 0 u) sqrtM1 in
  let r := if flippedSign || flippedSignI then fpMul r sqrtM1 else r in
  (if Z.odd r then fpSub 0 r else r, correctSign || flippedSign).

(** [edwards25519.Point.SetBytes]: the high bit is the sign of [x]; a [y] that is not
    reduced is accepted. *)
Definition Point_SetBytes (x : list Z) : option RefPoint :=
  if negb (length x =? 32)%nat then None else
  let y := modp (le_val x mod 2 ^ 255) in
  let y2 := fpMul y y in
  let '(xx, wasSquare) := SqrtRatio (fpSub y2 1) (fpAdd (fpMul D y2) 1) in
  if negb wasSquare then None else
  Some {| X := if Z.testbit (x !!! 31%nat) 7 then fpSub 0 xx else xx; Y := y |}.

(** ** Multiples of a point, in projective coordinates *)

Definition to_proj (p : RefPoint) : proj :=
  Proj (BigN.of_N (Z.to_N (X p))) (BigN.of_N (Z.to_N (Y p))) BigN.one.
Definition of_proj (q : proj) : option RefPoint :=
  zinv ← fpInv (BigN.to_Z (jZ q));
  Some {| X := fpMul (BigN.to_Z (jX q)) zinv; Y := fpMul (BigN.to_Z (jY q)) zinv |}.

(** [ScalarBaseMult] and the products of [VarTimeDoubleScalarBaseMult]. *)
Definition mul_point (k : Z) (p : RefPoint) : option RefPoint :=
  match k with Z.pos n => of_proj (proj_mul (to_proj p) n) | _ => Some RefIdentity end.

(** ** Keys, signing and verification *)

Definition PublicKeySize : nat := 32.
Definition PrivateKeySize : nat := 64.
Definition SignatureSize : nat := 64.

(** [SetBytesWithClamping], [SetUniformBytes]: scalars modulo the group order. *)
Definition SetBytesWithClamping (x : list Z) : Z :=
  le_val (<[31%nat := Z.lor (Z.land (x !!! 31%nat) 63) 64]> (<[0%nat := Z.land (x !!! 0%nat) 248]> x)) mod group_order.
Definition scalar_of_hash (data : list Z) : Z := le_val (RefSHA512 data) mod group_order.

(** The secret scalar and the prefix of the nonce, from a seed. *)
Definition expand_seed (seed : list Z) : Z * list Z :=
  let h := RefSHA512 seed in (SetBytesWithClamping (take 32 h), drop 32 h).

Definition NewKeyFromSeed (seed : list Z) : option (list Z) :=
  let (s, _) := expand_seed seed in
  A ← mul_point s RefBase;
  Some (seed ++ RefCompress A).

(** [privateKey.Public()]. *)
Definition public_of_private (privateKey : list Z) : list Z := drop 32 privateKey.

Definition Sign (privateKey message : list Z) : option (list Z) :=
  let publicKey := public_of_private privateKey in
  let (s, prefix) := expand_seed (take 32 privateKey) in
  let r := scalar_of_hash (prefix ++ message) in
  R ← mul_point r RefBase;
  let R := RefCompress R in
  let k := scalar_of_hash (R ++ publicKey ++ message) in
  let S := (k * s + r) mod group_order in
  Some (R ++ le_bytes 32 S).

Definition ref_neg (p : RefPoint) : RefPoint := {| X := fpSub 0 (X p); Y := Y p |}.

Definition Verify (publicKey message sig : list Z) : bool :=
  match Point_SetBytes publicKey with
  | None => false
  | Some A =>
      if negb (length sig =? SignatureSize)%nat then false else
      let k := scalar_of_hash (take 32 sig ++ publicKey ++ message) in
      let S := le_val (drop 32 sig) in
      if group_order <=? S then false else
      match (kA ← mul_point k (ref_neg A); SB ← mul_point S RefBase; RefAdd kA SB) with
      | Some R => bool_decide (RefCompress R = take 32 sig)
      | None => false
      end
  end.

(** The first test vector of RFC 8032, section 7.1: an empty message. *)
Definition rfc_seed : list Z := be_bytes 32 0x9d61b19deffd5a60ba844af492ec2cc44449c5697b326919703bac031cae7f60.
Definition rfc_signature : list Z := be_bytes 64
  0xe5564300c360ac729086e2cc806e828a84877f1eb8e5d974d873e065224901555fb8821590a33bacc61e39701cf9b46bd25bf5f0595bbe24655141438e7a100b.
Example rfc_signed : (priv ← NewKeyFromSeed rfc_seed; Sign priv []) = Some rfc_signature.
Proof. vm_cast_no_check (@eq_refl (option (list Z)) (Some rfc_signature)). Qed.

(** * What is signed is verified

    Decoding is the inverse of the encoding of curve points, by Fermat's theorem in the
    field of [2^255 - 19] elements, and [Verify] accepts what [Sign] makes, by the group law and
    the order of the base point. *)

(** ** The encoding of a point determines it *)

Add Field Fp_model : Fp_field.

Lemma curve_y_den (y : Fp) : Zmod.add Zmod.one (Zmod.mul dF (Zmod.mul y y)) ≠ Zmod.zero.
Proof.
  intros Hz. assert (y ≠ Zmod.zero) as Hy.
  { intros ->. apply (F_1_neq_0 _ _ _ _ _ _ _ _ Fp_field). rewrite <- Hz. ring. }
  assert (Zmod.opp Zmod.one = Zmod.mul dF (Zmod.mul y y)) as Hd.
  { transitivity (Zmod.sub (Zmod.add Zmod.one (Zmod.mul dF (Zmod.mul y y))) Zmod.one);
      [rewrite Hz; ring|ring]. }
  apply (dF_nonsquare (Zmod.mdiv iF y)).
  transitivity (Zmod.mdiv (Zmod.mul iF iF) (Zmod.mul y y)); [by field|].
  rewrite iF_square, Hd. by field.
Qed.

(** On the curve [y] determines [x] up to its sign. *)
Lemma curve_x_sign (x1 x2 y : Fp) : ed_on (Pt x1 y) → ed_on (Pt x2 y) →
  x1 = x2 ∨ x1 = Zmod.opp x2.
Proof.
  unfold ed_on, on_curve. cbn [px py]. intros H1 H2.
  assert (Zmod.mul (Zmod.add Zmod.one (Zmod.mul dF (Zmod.mul y y)))
    (Zmod.mul (Zmod.sub x1 x2) (Zmod.add x1 x2)) = Zmod.zero) as Hz.
  { transitivity (Zmod.sub
      (Zmod.sub (Zmod.add Zmod.one (Zmod.mul (Zmod.mul (Zmod.mul (Zmod.mul dF x1) x1) y) y))
         (Zmod.sub (Zmod.mul y y) (Zmod.mul x1 x1)))
      (Zmod.sub (Zmod.add Zmod.one (Zmod.mul (Zmod.mul (Zmod.mul (Zmod.mul dF x2) x2) y) y))
         (Zmod.sub (Zmod.mul y y) (Zmod.mul x2 x2)))); [ring|].
    rewrite H1, H2. ring. }
  apply (F_mul_0 _ _ _ _ _ _ _ _ Fp_field _) in Hz as [Hz|Hz];
    [exact (False_ind _ (curve_y_den y Hz))|].
  apply (F_mul_0 _ _ _ _ _ _ _ _ Fp_field _) in Hz as [Hz|Hz].
  - left. transitivity (Zmod.add (Zmod.sub x1 x2) x2); [ring|]. rewrite Hz. ring.
  - right. transitivity (Zmod.sub (Zmod.add x1 x2) x2); [ring|]. rewrite Hz. ring.
Qed.

(** The 32-byte encoding determines a curve point. *)
Lemma RefCompress_inj p q : ed_on p → ed_on q →
  RefCompress (ref_of p) = RefCompress (ref_of q) → p = q.
Proof.
  destruct p as [x1 y1], q as [x2 y2]. intros Hp Hq E.
  destruct (RefCompress_bytes _ _ E) as (_ & _ & Hv).
  destruct (RefCompress_bytes _ _ eq_refl : _ ∧ _ ∧ le_val (RefCompress (ref_of (Pt x2 y2))) = _)
    as (_ & _ & Hv2).
  rewrite Hv2 in Hv. unfold modp, ref_of in Hv. cbn [X Y px py] in Hv.
  pose proof (toZ_range x1). pose proof (toZ_range x2). pose proof (toZ_range y1).
  pose proof (toZ_range y2). rewrite !(Z.mod_small (toZ _) P) in Hv by done.
  pose proof (Z.mod_pos_bound (toZ x1) 2 ltac:(lia)). pose proof (Z.mod_pos_bound (toZ x2) 2 ltac:(lia)).
  assert (P = 2 ^ 255 - 19) as HP by done. assert (toZ y1 = toZ y2) as Hy by lia. apply Zmod.to_Z_inj in Hy as ->.
  assert (toZ x1 mod 2 = toZ x2 mod 2) as Hx by lia. f_equal.
  destruct (curve_x_sign x1 x2 y2 Hp Hq) as [->| ->]; [done|].
  destruct (decide (x2 = Zmod.zero)) as [->|Hne]; [by vm_compute|].
  exfalso. rewrite Zmod.unsigned_opp in Hx.
  assert (toZ x2 ≠ 0) as Hnz by (intros Hz; by apply Hne, Zmod.to_Z_inj).
  assert ((- toZ x2) mod P = P - toZ x2) as Ho
    by (symmetry; apply (Z.mod_unique_pos _ _ (-1)); lia).
  rewrite Ho in Hx. clear Ho. revert Hx. generalize (toZ x2). intros z Hz. rewrite HP in Hz. Z.div_mod_to_equations. lia.
Qed.

(** ** Square roots *)

Lemma sqrtM1_toZ : sqrtM1 = toZ iF.
Proof. by vm_compute. Qed.
Lemma zero_toZ : 0 = toZ Zmod.zero.
Proof. by vm_compute. Qed.

Lemma powmod_toZ (a : Fp) e : 0 < e → powmod (toZ a) e P = toZ (Zmod.pow a e).
Proof.
  intros He. pose proof (toZ_range a). rewrite powmod_spec by (done || lia).
  symmetry. apply Zmod.to_Z_pow_nonneg_r. lia.
Qed.

Lemma Fp_square_cases (a b : Fp) : Zmod.mul a a = Zmod.mul b b → a = b ∨ a = Zmod.opp b.
Proof.
  intros E. assert (Zmod.mul (Zmod.sub a b) (Zmod.add a b) = Zmod.zero) as Hz
    by (transitivity (Zmod.sub (Zmod.mul a a) (Zmod.mul b b)); [ring|rewrite E; ring]).
  apply (F_mul_0 _ _ _ _ _ _ _ _ Fp_field _) in Hz as [Hz|Hz]; [left|right].
  - transitivity (Zmod.add (Zmod.sub a b) b); [ring|]. rewrite Hz. ring.
  - transitivity (Zmod.sub (Zmod.add a b) b); [ring|]. rewrite Hz. ring.
Qed.

(** The candidate of [SqrtRatio] for the ratio [x^2]: up to a fourth root of unity it is [x]. *)
Lemma candidate_square (x v : Fp) : v ≠ Zmod.zero →
  let u := Zmod.mul (Zmod.mul x x) v in
  let v3 := Zmod.mul v (Zmod.mul v v) in
  let v7 := Zmod.mul v (Zmod.mul v3 v3) in
  let r := Zmod.mul (Zmod.mul u v3) (Zmod.pow (Zmod.mul u v7) ((P - 5) / 8)) in
  Zmod.mul r r = Zmod.mul x x ∨ Zmod.mul r r = Zmod.opp (Zmod.mul x x).
Proof.
  intros Hv u v3 v7 r. set (e := (P - 5) / 8).
  destruct (decide (x = Zmod.zero)) as [->|Hx].
  { left. unfold r, u. ring. }
  assert (8 * e = P - 5) as He by by vm_compute.
  assert (0 <= e) as He0 by by vm_compute.
  (* u v^7 = (x v^4)^2 *)
  set (w := Zmod.mul x (Zmod.mul (Zmod.mul v v) (Zmod.mul v v))).
  assert (Zmod.mul u v7 = Zmod.mul w w) as Hw by (unfold u, v7, v3, w; ring).
  assert (w ≠ Zmod.zero) as Hwne by (unfold w; repeat apply Fp_mul_nonzero; done).
  set (q := Zmod.pow w (4 * e)).
  assert (Zmod.mul (Zmod.pow (Zmod.mul u v7) e) (Zmod.pow (Zmod.mul u v7) e) = q) as Hq.
  { unfold q. rewrite Hw, <- (Zmod.pow_2_r w), <- !Zmod.pow_mul_r_nonneg by lia.
    rewrite <- Zmod.pow_add_r_nonneg by lia. f_equal; lia. }
  (* r^2 = x^2 (x v^4)^2 q v^... = x^2 w^(4e+2) *)
  set (h := Zmod.mul q (Zmod.mul w w)).
  assert (Zmod.mul r r = Zmod.mul (Zmod.mul x x) h) as Hr.
  { unfold r. fold e. transitivity (Zmod.mul (Zmod.mul (Zmod.mul u v3) (Zmod.mul u v3)) q); [rewrite <- Hq; ring|].
    unfold h, u, v3, w. ring. }
  assert (Zmod.mul h h = Zmod.one) as Hh.
  { pose proof (Zmod.fermat_nz w Hwne P_prime) as Hf. rewrite <- Hf. unfold h, q. clear Hf.
    transitivity (Zmod.mul (Zmod.pow w (4 * e + 4 * e)) (Zmod.pow w 4)).
    - rewrite Zmod.pow_add_r_nonneg by lia. change 4 with (2 + 2). rewrite (Zmod.pow_add_r_nonneg w 2 2) by lia.
      rewrite Zmod.pow_2_r. ring.
    - rewrite <- Zmod.pow_add_r_nonneg by lia. f_equal; lia. }
  rewrite Hr. assert (Zmod.mul h h = Zmod.mul Zmod.one Zmod.one) as Hh1 by (rewrite Hh; ring).
  apply Fp_square_cases in Hh1 as [->| ->]; [left|right]; ring.
Qed.

Lemma Fp_opp_toZ (a : Fp) : a ≠ Zmod.zero → toZ (Zmod.opp a) = P - toZ a.
Proof.
  intros Ha. pose proof (toZ_range a) as Hr. assert (toZ a ≠ 0) as Hnz by (intros Hz; by apply Ha, Zmod.to_Z_inj).
  rewrite Zmod.unsigned_opp. symmetry. apply (Z.mod_unique_pos _ _ (-1)); lia.
Qed.

Lemma fpSub0_toZ (a : Fp) : fpSub 0 (toZ a) = toZ (Zmod.opp a).
Proof. rewrite zero_toZ, fpSub_toZ. try (f_equal; ring). Qed.

Lemma odd_P_sub z : Z.odd (P - z) = negb (Z.odd z).
Proof. rewrite Z.odd_sub. change (Z.odd P) with true. by destruct (Z.odd z). Qed.

(** The even one of the two roots. *)
Lemma even_root (r : Fp) : ∃ r', (if Z.odd (toZ r) then fpSub 0 (toZ r) else toZ r) = toZ r' ∧
  (r' = r ∨ r' = Zmod.opp r) ∧ Z.odd (toZ r') = false.
Proof.
  destruct (Z.odd (toZ r)) eqn:Ho; [|exists r; auto]. exists (Zmod.opp r). split; [apply fpSub0_toZ|]. split; [by right|].
  rewrite Fp_opp_toZ, odd_P_sub, Ho; [done|by intros ->].
Qed.

Lemma toZ_eqb (a b : Fp) : (toZ a =? toZ b) = bool_decide (a = b).
Proof.
  case_bool_decide as E; [subst; apply Z.eqb_refl|]. apply Z.eqb_neq. intros Hz. by apply E, Zmod.to_Z_inj.
Qed.

Lemma Fp_double (a : Fp) : a = Zmod.opp a → a = Zmod.zero.
Proof.
  intros Ha. assert (Zmod.mul (Zmod.add Zmod.one Zmod.one) a = Zmod.zero) as Hz
    by (transitivity (Zmod.add a a); [ring|]; rewrite Ha at 2; ring).
  apply (F_mul_0 _ _ _ _ _ _ _ _ Fp_field _) in Hz as [Hz|Hz]; [by apply Fp_two in Hz|done].
Qed.

Lemma iF_ne : Zmod.add Zmod.one iF ≠ Zmod.zero.
Proof. intros E. apply (f_equal Zmod.to_Z) in E. by vm_compute in E. Qed.

Lemma not_flipped_i (u : Fp) : u = Zmod.mul (Zmod.opp u) iF → u = Zmod.zero.
Proof.
  intros Hu. assert (Zmod.mul (Zmod.add Zmod.one iF) u = Zmod.zero) as Hz.
  { transitivity (Zmod.sub u (Zmod.mul (Zmod.opp u) iF)); [ring|]. rewrite <- Hu. ring. }
  apply (F_mul_0 _ _ _ _ _ _ _ _ Fp_field _) in Hz as [Hz|Hz]; [by apply iF_ne in Hz|done].
Qed.

Lemma square_zero (a : Fp) : Zmod.mul a a = Zmod.zero → a = Zmod.zero.
Proof. by intros [?|?]%(F_mul_0 _ _ _ _ _ _ _ _ Fp_field _). Qed.

Lemma SqrtRatio_square (x v : Fp) : v ≠ Zmod.zero →
  ∃ r, SqrtRatio (toZ (Zmod.mul (Zmod.mul x x) v)) (toZ v) = (toZ r, true) ∧
    Zmod.mul r r = Zmod.mul x x ∧ Z.odd (toZ r) = false.
Proof.
  intros Hv. pose proof (candidate_square x v Hv) as Hc. cbn zeta in Hc.
  set (u := Zmod.mul (Zmod.mul x x) v) in *. unfold SqrtRatio. rewrite !fpMul_toZ, powmod_toZ by by vm_compute.
  rewrite sqrtM1_toZ. rewrite !fpMul_toZ. rewrite fpSub0_toZ. rewrite !fpMul_toZ, !toZ_eqb.
  set (r := Zmod.mul (Zmod.mul u _) (Zmod.pow _ _)) in *. clearbody r.
  set (found := Zmod.mul v (Zmod.mul r r)).
  set (turned := bool_decide (found = Zmod.opp u) || bool_decide (found = Zmod.mul (Zmod.opp u) iF)).
  assert (∃ s, (if turned then toZ (Zmod.mul r iF) else toZ r) = toZ s ∧ Zmod.mul s s = Zmod.mul x x ∧
    bool_decide (found = u) || bool_decide (found = Zmod.opp u) = true) as (s & -> & Hs & ->).
  { destruct Hc as [Hc|Hc].
    - assert (found = u) as Hfu by (unfold found, u; rewrite Hc; ring). rewrite (bool_decide_eq_true_2 (found = u)) by done.
      destruct turned eqn:Ht; [|by exists r]. exists (Zmod.mul r iF). split_and!; [done| |done].
      assert (x = Zmod.zero) as ->.
      { assert (u = Zmod.zero) as Hu.
        { unfold turned in Ht. rewrite Hfu, orb_true_iff, !bool_decide_eq_true in Ht. destruct Ht; [by apply Fp_double|by apply not_flipped_i]. }
        unfold u in Hu. apply (F_mul_0 _ _ _ _ _ _ _ _ Fp_field _) in Hu as [Hu|Hu]; [by apply square_zero|by destruct Hv]. }
      assert (r = Zmod.zero) as -> by (apply square_zero; rewrite Hc; ring). ring.
    - assert (found = Zmod.opp u) as Hfu by (unfold found, u; rewrite Hc; ring).
      assert (turned = true) as -> by (unfold turned; by rewrite (bool_decide_eq_true_2 (found = Zmod.opp u))).
      exists (Zmod.mul r iF). split_and!; [done| |by rewrite (bool_decide_eq_true_2 (found = Zmod.opp u)), orb_true_r].
      transitivity (Zmod.mul (Zmod.mul r r) (Zmod.mul iF iF)); [ring|]. rewrite Hc, iF_square. ring. }
  destruct (even_root s) as (r' & -> & Hr' & Ho). exists r'. split_and!; [done| |done].
  rewrite <- Hs. destruct Hr' as [->| ->]; ring.
Qed.

(** ** Decoding inverts encoding *)

(** The sign of [x] is the high bit of the last byte. *)
Lemma RefCompress_sign p : Z.testbit (RefCompress p !!! 31%nat) 7 = Z.odd (modp (X p)).
Proof.
  unfold RefCompress. cbv zeta. rewrite Z.bit0_odd. set (y := modp (Y p)).
  assert (0 <= y < P) as Hy by (by apply Z.mod_pos_bound). unfold P in Hy.
  assert (le_bytes 32 y = le_bytes 31 y ++ [y / 2 ^ 248]) as ->.
  { change 32%nat with (31 + 1)%nat. rewrite digits_app by lia. f_equal.
    change (256 ^ Z.of_nat 31) with (2 ^ 248). cbn [digits]. rewrite Z.mod_small; [done|].
    split; [apply Z.div_pos; lia|]. apply Z.div_lt_upper_bound; lia. }
  assert (0 <= y / 2 ^ 248 < 128) as Htop.
  { split; [apply Z.div_pos; lia|]. apply Z.div_lt_upper_bound; lia. }
  assert (length (le_bytes 31 y) = 31%nat) as Hl by (by rewrite length_digits).
  destruct (Z.odd (modp (X p))).
  - rewrite list_lookup_total_insert_eq by (rewrite length_app, Hl; cbn; lia).
    rewrite Z.lor_spec. change (Z.testbit 128 7) with true. apply orb_true_r.
  - rewrite lookup_total_app_r, Hl by lia. cbn [lookup_total list_lookup_total Nat.sub].
    by apply (testbit_high 7).
Qed.

Lemma Point_SetBytes_encode (p : ed_point) : ed_on p → Point_SetBytes (RefCompress (ref_of p)) = Some (ref_of p).
Proof.
  intros Hp. destruct (RefCompress_bytes (ref_of p) _ eq_refl) as (Hb & Hl & Hv). set (bs := RefCompress (ref_of p)) in *.
  destruct p as [x y]. unfold modp, ref_of in Hv. cbn [X Y px py] in Hv.
  pose proof (toZ_range x) as Hx. pose proof (toZ_range y) as Hy. assert (P = 2 ^ 255 - 19) as HP by done.
  rewrite !(Z.mod_small (toZ _) P) in Hv by done.
  unfold Point_SetBytes. rewrite Hl. cbn [Nat.eqb negb]. cbv zeta.
  assert (modp (le_val bs mod 2 ^ 255) = toZ y) as ->.
  { rewrite Hv, (Z.mul_comm (2 ^ 255)), Z.mod_add, (Z.mod_small (toZ y)) by lia. by apply Z.mod_small. }
  rewrite D_toZ, one_toZ, !fpMul_toZ, !fpAdd_toZ, fpSub_toZ.
  set (v := Zmod.add (Zmod.mul dF (Zmod.mul y y)) Zmod.one).
  assert (v ≠ Zmod.zero) as Hvne.
  { unfold v. intros Hz. apply (curve_y_den y). rewrite <- Hz. ring. }
  assert (Zmod.sub (Zmod.mul y y) Zmod.one = Zmod.mul (Zmod.mul x x) v) as ->.
  { unfold ed_on, on_curve in Hp. cbn [px py] in Hp. unfold v.
    transitivity (Zmod.add (Zmod.sub (Zmod.sub (Zmod.mul y y) (Zmod.mul x x)) Zmod.one) (Zmod.mul x x)); [ring|].
    rewrite Hp. ring. }
  destruct (SqrtRatio_square x v Hvne) as (r & -> & Hr & Ho). cbn [negb]. f_equal. unfold ref_of. cbn [px py]. f_equal.
  assert (Z.testbit (bs !!! 31%nat) 7 = Z.odd (toZ x)) as ->.
  { unfold bs. rewrite RefCompress_sign. unfold modp, ref_of. cbn [X px]. by rewrite Z.mod_small. }
  apply Fp_square_cases in Hr as [->| ->].
  - destruct (Z.odd (toZ x)) eqn:Hox; congruence.
  - destruct (decide (x = Zmod.zero)) as [->|Hne].
    { by vm_compute. }
    assert (Z.odd (toZ x) = true) as ->.
    { rewrite Fp_opp_toZ, odd_P_sub in Ho by done. by destruct (Z.odd (toZ x)). }
    rewrite fpSub0_toZ. f_equal. ring.
Qed.

(** ** Multiples *)

Lemma of_proj_ok q p : proj_is q p → of_proj q = Some (ref_of p).
Proof.
  intros (Hz & Hx & Hy). unfold of_proj.
  assert (∀ a, BigN.to_Z a mod P = toZ (fe a)) as Hfe by (intros a; unfold fe; by rewrite Zmod.to_Z_of_Z).
  assert (fpInv (BigN.to_Z (jZ q)) = Some (toZ (Zmod.inv (fe (jZ q))))) as ->.
  { rewrite <- (fpInv_toZ _ Hz). unfold fpInv, modp. by rewrite Hfe, (Z.mod_small (toZ _)) by apply toZ_range. }
  cbn [mbind option_bind]. unfold ref_of. f_equal.
  assert (∀ a, fpMul (BigN.to_Z a) (toZ (Zmod.inv (fe (jZ q)))) = toZ (Zmod.mul (fe a) (Zmod.inv (fe (jZ q))))) as Hm.
  { intros a. rewrite <- fpMul_toZ. unfold fpMul, modp. by rewrite <- (Z.mul_mod_idemp_l (BigN.to_Z a)), Hfe. }
  rewrite !Hm, Hx, Hy. f_equal; f_equal; rewrite <- Zmod.mul_assoc, (Zmod.mul_comm _ (Zmod.inv _)),
    Zmod.mul_inv_same_l_prime, Zmod.mul_1_r by (exact P_prime || done); done.
Qed.

Lemma to_proj_is p : proj_is (to_proj (ref_of p)) p.
Proof.
  assert (∀ a : Fp, fe (BigN.of_N (Z.to_N (toZ a))) = a) as Hfe.
  { intros a. unfold fe. pose proof (toZ_range a). rewrite BigN.spec_of_N, Z2N.id by lia. apply Zmod.of_Z_to_Z. }
  assert (fe BigN.one = Zmod.one) as H1 by (apply Zmod.to_Z_inj; vm_compute; reflexivity).
  unfold proj_is, to_proj, ref_of. cbn [jX jY jZ X Y]. rewrite !Hfe, H1, !Zmod.mul_1_r.
  split_and!; [|done|done]. intros E. apply (f_equal Zmod.to_Z) in E. by vm_compute in E.
Qed.

Lemma mul_point_ok k p : 0 <= k → ed_on p → mul_point k (ref_of p) = Some (ref_of (ed_mul k p)).
Proof.
  intros Hk Hp. destruct k as [|n|n]; [by rewrite ed_mul_0|cbn [mul_point]|lia].
  apply of_proj_ok, proj_mul_ok; [done|apply to_proj_is].
Qed.

(** ** Negation *)

Definition ed_neg (p : ed_point) : ed_point := Pt (Zmod.opp (px p)) (py p).

Lemma ed_neg_on p : ed_on p → ed_on (ed_neg p).
Proof.
  unfold ed_on, on_curve, ed_neg. cbn [px py]. intros Hp.
  transitivity (Zmod.sub (Zmod.mul (py p) (py p)) (Zmod.mul (px p) (px p))); [ring|]. rewrite Hp. ring.
Qed.

Lemma ref_neg_ok p : ref_neg (ref_of p) = ref_of (ed_neg p).
Proof. unfold ref_neg, ref_of, ed_neg. cbn [X Y px py]. by rewrite fpSub0_toZ. Qed.

Lemma ed_add_neg p : ed_on p → ed_add (ed_neg p) p = ed_zero.
Proof.
  intros Hp. pose proof (ed_neg_on p Hp) as Hn. destruct (ed_add_coords (ed_neg p) p Hn Hp) as [HX HY].
  destruct (ed_den (ed_neg p) p Hn Hp) as [Hd1 Hd2].
  destruct (ed_add (ed_neg p) p) as [sx sy]. cbn [px py ed_neg] in HX, HY, Hd1, Hd2.
  assert (sx = Zmod.zero) as ->.
  { apply (Zmod.mul_cancel_r_prime _ _ _ P_prime Hd1). rewrite HX. ring. }
  assert (sy = Zmod.one) as ->; [|done].
  apply (Zmod.mul_cancel_r_prime _ _ _ P_prime Hd2). rewrite HY. unfold pt_e. unfold ed_neg; cbn [px py].
  unfold ed_on, on_curve in Hp.
  transitivity (Zmod.sub (Zmod.mul (py p) (py p)) (Zmod.mul (px p) (px p))); [ring|]. rewrite Hp. ring.
Qed.

Lemma ed_add_assoc p q r : ed_on p → ed_on q → ed_on r → ed_add p (ed_add q r) = ed_add (ed_add p q) r.
Proof.
  intros Hp Hq Hr. symmetry. unfold ed_add.
  exact (pt_add_assoc _ _ _ _ _ _ _ _ Fp_field _ Fp_two _ _ iF_square dF_nonsquare p q r Hp Hq Hr).
Qed.

Lemma ed_mul_succ k p : 0 <= k → ed_on p → ed_mul (Z.succ k) p = ed_add p (ed_mul k p).
Proof.
  intros Hk Hp. rewrite <- Z.add_1_l, ed_mul_add by (done || lia). by rewrite ed_mul_1.
Qed.

(** Multiples of opposite points cancel. *)
Lemma ed_mul_neg k p : 0 <= k → ed_on p → ed_add (ed_mul k (ed_neg p)) (ed_mul k p) = ed_zero.
Proof.
  intros Hk Hp. pose proof (ed_neg_on p Hp) as Hn. pattern k. apply natlike_ind; [|clear k Hk|done].
  { rewrite !ed_mul_0. apply ed_add_0_l. }
  intros k Hk IH. rewrite !ed_mul_succ by done.
  assert (ed_on (ed_mul k (ed_neg p))) as H1 by by apply ed_mul_on. assert (ed_on (ed_mul k p)) as H2 by by apply ed_mul_on.
  rewrite <- (ed_add_assoc (ed_neg p)); [|done|done|by apply ed_add_on].
  rewrite (ed_add_comm p (ed_mul k p)), (ed_add_assoc (ed_mul k (ed_neg p))) by done.
  rewrite IH, ed_add_0_l. by apply ed_add_neg.
Qed.

(** ** Signing and verifying *)

Lemma group_order_pos : 0 < group_order.
Proof. by vm_compute. Qed.

Lemma scalar_range x : 0 <= x mod group_order < group_order.
Proof. apply Z.mod_pos_bound, group_order_pos. Qed.

(** The equation that [Verify] checks. *)
Lemma verification_equation k s r : 0 <= k → 0 <= s → 0 <= r →
  ed_add (ed_mul k (ed_neg (ed_mul s ed_base))) (ed_mul ((k * s + r) mod group_order) ed_base) = ed_mul r ed_base.
Proof.
  intros Hk Hs Hr. pose proof ed_base_on as Hb. assert (ed_on (ed_mul s ed_base)) as HA by by apply ed_mul_on.
  rewrite ed_mul_mod by nia. rewrite ed_mul_add; [|nia|exact Hr|exact Hb]. rewrite ed_mul_mul; [|exact Hk|exact Hs|exact Hb].
  rewrite ed_add_assoc; [|apply ed_mul_on, ed_neg_on, HA|by apply ed_mul_on|by apply ed_mul_on].
  by rewrite ed_mul_neg, ed_add_0_l by done.
Qed.

Lemma NewKeyFromSeed_ok seed : NewKeyFromSeed seed =
  Some (seed ++ RefCompress (ref_of (ed_mul (expand_seed seed).1 ed_base))).
Proof.
  unfold NewKeyFromSeed. destruct (expand_seed seed) as [s prefix] eqn:Hs. cbn [fst].
  rewrite ref_of_base, mul_point_ok; [done| |exact ed_base_on].
  unfold expand_seed in Hs. injection Hs as <- _. apply scalar_range.
Qed.

Lemma key_sizes seed priv : length seed = 32%nat → NewKeyFromSeed seed = Some priv →
  length priv = PrivateKeySize ∧ length (public_of_private priv) = PublicKeySize ∧
  Forall is_byte (public_of_private priv).
Proof.
  intros Hl Hk. rewrite NewKeyFromSeed_ok in Hk. unfold public_of_private.
  set (c := RefCompress _) in Hk. destruct (RefCompress_bytes _ c eq_refl) as (Hb & Hc & _).
  assert (priv = seed ++ c) as -> by congruence. rewrite length_drop, length_app, Hl, Hc.
  by rewrite drop_app_length'.
Qed.

Lemma Sign_verifies seed priv message : length seed = 32%nat → NewKeyFromSeed seed = Some priv →
  ∃ sig, Sign priv message = Some sig ∧ length sig = 64%nat ∧ Forall is_byte sig ∧
    Verify (public_of_private priv) message sig = true.
Proof.
  intros Hl Hk. rewrite NewKeyFromSeed_ok in Hk.
  assert (priv = seed ++ RefCompress (ref_of (ed_mul (expand_seed seed).1 ed_base))) as -> by congruence. clear Hk.
  unfold Sign, public_of_private.
  rewrite take_app_length', drop_app_length' by done.
  destruct (expand_seed seed) as [s prefix] eqn:Hs. cbn [fst].
  assert (0 <= s) as Hs0 by (unfold expand_seed in Hs; injection Hs as <- _; apply scalar_range).
  set (A := ed_mul s ed_base). assert (ed_on A) as HA by apply ed_mul_on, ed_base_on.
  set (r := scalar_of_hash (prefix ++ message)). assert (0 <= r) as Hr0 by apply scalar_range.
  rewrite ref_of_base, mul_point_ok; [|done|exact ed_base_on]. cbn [mbind option_bind].
  cbv zeta. set (Rb := RefCompress (ref_of (ed_mul r ed_base))).
  destruct (RefCompress_bytes _ Rb eq_refl) as (HRb & HRl & _).
  set (k := scalar_of_hash (Rb ++ RefCompress (ref_of A) ++ message)). assert (0 <= k) as Hk0 by apply scalar_range.
  set (S := (k * s + r) mod group_order). assert (0 <= S < group_order) as HS by apply scalar_range.
  assert (length (le_bytes 32 S) = 32%nat) as HSl by by rewrite length_digits.
  eexists. split; [reflexivity|]. split; [rewrite length_app, HRl, HSl; done|].
  split; [apply Forall_app; split; [done|apply digits_are_digits; lia]|].
  unfold Verify. rewrite Point_SetBytes_encode by done.
  rewrite length_app, HRl, HSl. cbn [Nat.add Nat.eqb SignatureSize negb].
  rewrite take_app_length', drop_app_length' by done. fold k.
  rewrite digits_val_digits by lia. rewrite Z.mod_small.
  2:{ split; [lia|]. change (256 ^ Z.of_nat 32) with (2 ^ 256). unfold group_order in HS. lia. }
  destruct (Z.leb_spec group_order S); [lia|].
  rewrite ref_neg_ok, mul_point_ok; [|done|by apply ed_neg_on]. cbn [mbind option_bind].
  rewrite ref_of_base, mul_point_ok; [|lia|exact ed_base_on]. cbn [mbind option_bind].
  rewrite RefAdd_ok; [|apply ed_mul_on, ed_neg_on, HA|apply ed_mul_on, ed_base_on].
  apply bool_decide_eq_true. unfold A, S. rewrite verification_equation by done. done.
Qed.
