(* ===== verification/Ckd.v ===== *)
(** * BIP32-Ed25519 child keys out of circuit: [internal/circuit/ckd]

    [ref.go] (the reference derivation) and [public.go] (public derivation, on the
    third-party Edwards library [filippo.io/edwards25519]), and that the two agree. *)
From Stdlib Require Import Znumtheory Zdivisibility Zmod Field.
From S2P Require Import Prelude.
From S2P Require Import Gnark.
From S2P Require Import CkdArith.
From S2P Require Import Sha512Spec.
From S2P Require Import Sha512Correct.
From S2P Require Import Primality.
From S2P Require Import Ed25519.
From S2P Require Import EdPoly.
From S2P Require Import EdCurve.
From S2P Require Import Ed25519Group.
From S2P Require Import Ed25519Correct.
From S2P Require Import EdOrder.

(** ** ref.go *)

(** [Ext]: three 32-byte arrays. *)
Record Ext := { KL : list Z; KR : list Z; CC : list Z }.
#[export] Instance Ext_eq_dec : EqDecision Ext.
Proof. solve_decision. Defined.

Definition twoTo256 : Z := 2 ^ 256.

Definition le32 (idx : Z) : list Z :=
  [byte idx; byte (Z.shiftr idx 8); byte (Z.shiftr idx 16); byte (Z.shiftr idx 24)].

(** Reverse into big-endian order, then [big.Int.SetBytes]. *)
Definition leToInt (b : list Z) : Z := be_val (rev b).

(** [None] is the panic on a value wider than 32 bytes. *)
Definition intToLE32 (v : Z) : option (list Z) :=
  if v <? 2 ^ 256 then Some (le_bytes 32 v) else None.

Definition leafPubkey (kL : list Z) : option (list Z) :=
  let s := leToInt kL in
  p ← RefScalarMulBase s;
  Some (RefCompress p).

(** One derivation step; [None] is a panic. *)
Definition deriveChild (par : Ext) (idx : Z) (hardened : bool) : option Ext :=
  '(tagZ, tagCC, data) ←
    (if hardened then Some (0x00, 0x01, KL par ++ KR par)
     else a ← leafPubkey (KL par); Some (0x02, 0x03, a));
  let idxLE := le32 idx in
  let msg := [tagZ] ++ data ++ idxLE in
  let ccm := [tagCC] ++ data ++ idxLE in
  let z := RefHMACSHA512 (CC par) msg in
  let cc := RefHMACSHA512 (CC par) ccm in
  let zl := Z.shiftl (leToInt (take 28 z)) 3 in
  let klChild := leToInt (KL par) + zl in
  if (255 <? BitLen klChild)%nat then None else
  let krChild := (leToInt (KR par) + leToInt (drop 32 z)) mod twoTo256 in
  kl ← intToLE32 klChild;
  kr ← intToLE32 krChild;
  Some {| KL := kl; KR := kr; CC := drop 32 cc |}.

Definition hardenedBit : Z := 0x80000000.

(** The five hops of [m/1852'/1815'/account'/role/index]. *)
Definition path_hops (account role index : Z) : list (Z * bool) :=
  [(Z.lor hardenedBit 1852, true); (Z.lor hardenedBit 1815, true);
   (Z.lor hardenedBit account, true); (role, false); (index, false)].

Fixpoint derive_hops (parent : Ext) (path : list (Z * bool)) : option (list Ext) :=
  match path with
  | [] => Some []
  | (idx, hardened) :: path =>
      parent ← deriveChild parent idx hardened;
      rows ← derive_hops parent path;
      Some (parent :: rows)
  end.

Definition split96 (master96 : list Z) : Ext :=
  {| KL := take 32 master96; KR := take 32 (drop 32 master96); CC := take 32 (drop 64 master96) |}.

Definition DeriveLevels (master96 : list Z) (account role index : Z) : option (list Ext) :=
  if (length master96 <? 96)%nat then None
  else derive_hops (split96 master96) (path_hops account role index).

Definition DeriveRef (master96 : list Z) (account role index : Z) : option Ext :=
  rows ← DeriveLevels master96 account role index;
  last rows.

(** ** public.go *)

Record XPub := { PublicKey : list Z; ChainCode : list Z }.
#[export] Instance XPub_eq_dec : EqDecision XPub.
Proof. solve_decision. Defined.

Inductive ckd_error :=
| ErrMasterLength (n : nat)        (* "master xprv is %d bytes, want 96" *)
| ErrDecodePrivateScalar           (* "decode private scalar: %w" *)
| ErrChildIndex                    (* "public child index must be < 2^31" *)
| ErrDecodeTweak                   (* "decode public child tweak: %w" *)
| ErrDecodeParent.                 (* "decode parent public key: %w" *)

Definition RootExt (master96 : list Z) : result ckd_error Ext :=
  if negb (length master96 =? 96)%nat then Err (ErrMasterLength (length master96))
  else Ok (split96 master96).

Definition DerivePrivateChild (parent : Ext) (index : Z) (hardened : bool) : option Ext :=
  deriveChild parent index hardened.

(** A 16-bit shift and or per byte, the carry going into the byte after the input. *)
Definition multiplyLittleEndianByEight (raw : list Z) : option (list Z) :=
  '(out, carry) ← for_range 0 (length raw) (λ i '(out, carry),
    let shifted := Z.lor (Z.shiftl (raw !!! i) 3 mod 2 ^ 16) carry in
    if (32 <=? i)%nat then None
    else Some (<[i := byte shifted]> out, Z.shiftr shifted 8)) (replicate 32 0, 0);
  Some (if (length raw <? 32)%nat then <[length raw := byte carry]> out else out).

(** [hmac.New(sha512.New, key)] written in three parts, copied into 64 bytes. *)
Definition hmacSHA512 (key : list Z) (tag : Z) (publicKey index : list Z) : list Z :=
  RefHMACSHA512 key ([tag] ++ publicKey ++ index).

(** The operations of [filippo.io/edwards25519] the file uses. *)
Class Edwards25519 := {
  Scalar : Type;
  EPoint : Type;
  SetUniformBytes : list Z → option Scalar;
  SetCanonicalBytes : list Z → option Scalar;
  ScalarBaseMult : Scalar → EPoint;
  EAdd : EPoint → EPoint → EPoint;
  EBytes : EPoint → list Z;
  SetBytes : list Z → option EPoint;
}.

Section public.
Context `{Edwards25519}.

Definition scalarFromLittleEndian (raw : list Z) : option Scalar :=
  if negb (length raw =? 32)%nat then None
  else SetUniformBytes (raw ++ replicate 32 0).

Definition XPubFromPrivate (private : Ext) : result ckd_error XPub :=
  match scalarFromLittleEndian (KL private) with
  | None => Err ErrDecodePrivateScalar
  | Some scalar =>
      Ok {| PublicKey := EBytes (ScalarBaseMult scalar); ChainCode := CC private |}
  end.

Definition DerivePublicChild (parent : XPub) (index : Z) : result ckd_error XPub :=
  if 2 ^ 31 <=? index then Err ErrChildIndex else
  let indexBytes := le32 index in
  let z := hmacSHA512 (ChainCode parent) 0x02 (PublicKey parent) indexBytes in
  let cc := hmacSHA512 (ChainCode parent) 0x03 (PublicKey parent) indexBytes in
  match (t ← multiplyLittleEndianByEight (take 28 z); SetCanonicalBytes t) with
  | None => Err ErrDecodeTweak
  | Some tweak =>
      match SetBytes (PublicKey parent) with
      | None => Err ErrDecodeParent
      | Some parentPoint =>
          let tweakPoint := ScalarBaseMult tweak in
          Ok {| PublicKey := EBytes (EAdd parentPoint tweakPoint); ChainCode := drop 32 cc |}
      end
  end.
End public.

(** * Properties of the key-derivation reference

    Closed form of one derivation step, its invariants, totality from a clamped
    master, and the agreement of public with private derivation. *)

(** ** Serialisation *)

Lemma le32_bytes idx : le32 idx = le_bytes 4 idx.
Proof.
  unfold le32, byte. cbn [digits]. rewrite !Z.shiftr_div_pow2 by lia.
  rewrite !Z.div_div by lia. done.
Qed.

Lemma leToInt_val b : leToInt b = le_val b.
Proof. unfold leToInt, be_val. by rewrite rev_involutive. Qed.

Lemma intToLE32_ok v : v < 2 ^ 256 → intToLE32 v = Some (le_bytes 32 v).
Proof. intros Hv. unfold intToLE32. by rewrite (proj2 (Z.ltb_lt _ _)). Qed.

Lemma BitLen_le z n : 0 <= z → (BitLen z <= n)%nat ↔ z < 2 ^ Z.of_nat n.
Proof.
  intros Hz. unfold BitLen. destruct (Z.eqb_spec z 0) as [->|Hne].
  { split; [intros _; apply Z.pow_pos_nonneg; lia|lia]. }
  rewrite Z.log2_lt_pow2 by lia. pose proof (Z.log2_nonneg z). lia.
Qed.

Lemma BitLen_gt_255 z : 0 <= z → (255 <? BitLen z)%nat = negb (z <? 2 ^ 255).
Proof.
  intros Hz. pose proof (BitLen_le z 255 Hz) as Hb. change (Z.of_nat 255) with 255 in Hb.
  destruct (Nat.ltb_spec 255 (BitLen z)), (Z.ltb_spec z (2 ^ 255)); try done; lia.
Qed.

Lemma length_RefHMAC key msg : length (RefHMACSHA512 key msg) = 64%nat.
Proof. apply length_RefSHA512. Qed.

Lemma RefHMAC_bytes key msg : Forall is_byte (RefHMACSHA512 key msg).
Proof. apply RefSHA512_bytes. Qed.

(** ** One derivation step *)

Definition bytes32 (b : list Z) : Prop := Forall is_byte b ∧ length b = 32%nat.

Record Ext_wf (e : Ext) : Prop := {
  wf_KL : bytes32 (KL e); wf_KR : bytes32 (KR e); wf_CC : bytes32 (CC e) }.

Lemma bytes32_bound b : bytes32 b → 0 <= le_val b < 2 ^ 256.
Proof. intros [Hb Hl]. pose proof (digits_val_bound 256 ltac:(lia) _ Hb). by rewrite Hl in H. Qed.

Lemma le_bytes_32 z : bytes32 (le_bytes 32 z).
Proof. split; [auto with bytes|by rewrite length_digits]. Qed.

Lemma leafPubkey_ok kL : bytes32 kL →
  leafPubkey kL = Some (RefCompress (ref_of (ed_mul (le_val kL) ed_base))).
Proof.
  intros Hk. unfold leafPubkey. rewrite leToInt_val, RefScalarMulBase_ok; [done|].
  apply bytes32_bound in Hk. lia.
Qed.

(** The data a step hashes, and the two tags. *)
Definition step_data (par : Ext) (hardened : bool) : list Z :=
  if hardened then KL par ++ KR par
  else RefCompress (ref_of (ed_mul (le_val (KL par)) ed_base)).
Definition step_mac (par : Ext) (tag idx : Z) (hardened : bool) : list Z :=
  RefHMACSHA512 (CC par) ([tag] ++ step_data par hardened ++ le_bytes 4 idx).
Definition step_z (par : Ext) (idx : Z) (hardened : bool) : list Z :=
  step_mac par (if hardened then 0 else 2) idx hardened.
Definition step_cc (par : Ext) (idx : Z) (hardened : bool) : list Z :=
  step_mac par (if hardened then 1 else 3) idx hardened.
Definition child_kL (par : Ext) (idx : Z) (hardened : bool) : Z :=
  le_val (KL par) + 8 * le_val (take 28 (step_z par idx hardened)).
Definition child_ext (par : Ext) (idx : Z) (hardened : bool) : Ext :=
  {| KL := le_bytes 32 (child_kL par idx hardened);
     KR := le_bytes 32 ((le_val (KR par) + le_val (drop 32 (step_z par idx hardened))) mod 2 ^ 256);
     CC := drop 32 (step_cc par idx hardened) |}.

Lemma step_z_left par idx hardened :
  let zL := take 28 (step_z par idx hardened) in
  Forall is_byte zL ∧ length zL = 28%nat ∧ 0 <= le_val zL < 2 ^ 224.
Proof.
  cbv zeta. assert (Forall is_byte (take 28 (step_z par idx hardened))) as Hb
    by (apply Forall_take, RefHMAC_bytes).
  assert (length (take 28 (step_z par idx hardened)) = 28%nat) as Hl.
  { rewrite length_take. unfold step_z, step_mac. rewrite length_RefHMAC. done. }
  repeat split; [done..| |]; pose proof (digits_val_bound 256 ltac:(lia) _ Hb) as Hv;
    rewrite Hl in Hv; change (256 ^ Z.of_nat 28) with (2 ^ 224) in Hv; lia.
Qed.

Lemma step_right_bytes32 par tag idx hardened : bytes32 (drop 32 (step_mac par tag idx hardened)).
Proof.
  split; [apply Forall_drop, RefHMAC_bytes|].
  rewrite length_drop. unfold step_mac. rewrite length_RefHMAC. done.
Qed.

(** A step succeeds exactly when the child's left half keeps bit 255 clear. *)
Lemma deriveChild_eq par idx hardened : Ext_wf par →
  deriveChild par idx hardened =
  if child_kL par idx hardened <? 2 ^ 255 then Some (child_ext par idx hardened) else None.
Proof.
  intros Hw. unfold deriveChild.
  assert ((if hardened then Some (0x00, 0x01, KL par ++ KR par)
           else a ← leafPubkey (KL par); Some (0x02, 0x03, a)) =
    Some (if hardened then 0 else 2, if hardened then 1 else 3, step_data par hardened)) as ->.
  { destruct hardened; [done|]. by rewrite leafPubkey_ok by apply Hw. }
  cbn [mbind option_bind]. cbv zeta. rewrite le32_bytes, !leToInt_val.
  fold (step_mac par (if hardened then 0 else 2) idx hardened).
  fold (step_mac par (if hardened then 1 else 3) idx hardened).
  fold (step_z par idx hardened). fold (step_cc par idx hardened).
  rewrite Z.shiftl_mul_pow2, (Z.mul_comm _ (2 ^ 3)) by lia. change (2 ^ 3) with 8.
  fold (child_kL par idx hardened).
  destruct (step_z_left par idx hardened) as (_ & _ & Hz).
  pose proof (bytes32_bound _ (wf_KL _ Hw)) as HkL.
  assert (0 <= child_kL par idx hardened < 2 ^ 256 + 2 ^ 227) as Hc by (unfold child_kL; lia).
  rewrite BitLen_gt_255 by lia. destruct (Z.ltb_spec (child_kL par idx hardened) (2 ^ 255)) as [Hlt|]; [|done].
  cbn [negb]. rewrite (intToLE32_ok (child_kL par idx hardened)) by lia. cbn [mbind option_bind].
  rewrite intToLE32_ok by (by apply Z.mod_pos_bound). done.
Qed.

Lemma child_wf par idx hardened : Ext_wf (child_ext par idx hardened).
Proof.
  split; unfold child_ext; cbn [KL KR CC].
  - exact (le_bytes_32 _).
  - exact (le_bytes_32 _).
  - unfold step_cc. exact (step_right_bytes32 _ _ _ _).
Qed.

Lemma child_KL_val par idx hardened : Ext_wf par → child_kL par idx hardened < 2 ^ 255 →
  le_val (KL (child_ext par idx hardened)) = child_kL par idx hardened.
Proof.
  intros Hw Hlt. cbn [child_ext KL]. rewrite digits_val_digits by lia.
  apply Z.mod_small. split; [|change (256 ^ Z.of_nat 32) with (2 ^ 256); lia].
  destruct (step_z_left par idx hardened) as (_ & _ & Hz).
  pose proof (bytes32_bound _ (wf_KL _ Hw)). unfold child_kL. lia.
Qed.

(** ** Paths *)

(** Each hop adds a multiple of 8 below [2^227] to the left half. *)
Lemma derive_hops_total par path k : Ext_wf par →
  le_val (KL par) + Z.of_nat (length path) * 2 ^ 227 < 2 ^ 255 → le_val (KL par) mod 8 = k →
  ∃ rows, derive_hops par path = Some rows ∧ length rows = length path ∧
    Forall (λ e, Ext_wf e ∧ le_val (KL e) mod 8 = k ∧
      le_val (KL par) <= le_val (KL e) < le_val (KL par) + Z.of_nat (length path) * 2 ^ 227 + 1) rows.
Proof.
  revert par. induction path as [|[idx hardened] path IH]; intros par Hw Hlt Hk.
  { by exists []. }
  cbn [derive_hops length] in *. rewrite Nat2Z.inj_succ in Hlt.
  destruct (step_z_left par idx hardened) as (_ & _ & Hz).
  assert (child_kL par idx hardened < 2 ^ 255) as Hc by (unfold child_kL; lia).
  rewrite deriveChild_eq by done. rewrite (proj2 (Z.ltb_lt _ _)) by done. cbn [mbind option_bind].
  pose proof (child_KL_val _ _ _ Hw Hc) as Hv.
  destruct (IH (child_ext par idx hardened)) as (rows & -> & Hl & Hrows).
  - apply child_wf.
  - rewrite Hv. unfold child_kL. lia.
  - rewrite Hv. unfold child_kL. rewrite Z.mul_comm, Z.mod_add by lia. done.
  - exists (child_ext par idx hardened :: rows). cbn [mbind option_bind length].
    split; [done|]. split; [by rewrite Hl|]. rewrite Hv in Hrows. constructor.
    + split; [apply child_wf|]. rewrite Hv. unfold child_kL. rewrite Z.mul_comm, Z.mod_add by lia.
      split; [done|]. lia.
    + eapply Forall_impl; [exact Hrows|]. intros e (He & Hm & Hb). split; [done|]. split; [done|].
      unfold child_kL in Hb. lia.
Qed.

Lemma split96_wf master96 : Forall is_byte master96 → (96 <= length master96)%nat →
  Ext_wf (split96 master96).
Proof.
  intros Hb Hl. split; split; cbn [split96 KL KR CC];
    try (rewrite ?length_take, ?length_drop; lia); auto using Forall_take, Forall_drop.
Qed.

Lemma icarus_range z : icarus_clamped z → 2 ^ 254 <= z < 2 ^ 254 + 2 ^ 253.
Proof.
  intros [_ Hc]. pose proof (Z.div_mod z (2 ^ 253) ltac:(lia)).
  pose proof (Z.mod_pos_bound z (2 ^ 253) ltac:(lia)). lia.
Qed.

(** Derivation is total from a clamped master.  For every 96-byte master whose left
    half carries the Icarus clamp and every account, role and index, [RootExt]
    accepts it, [DeriveLevels] reaches all five levels without overflow and without
    a panic, and every left half on the way stays a multiple of 8 in
    [2^254, 2^255). *)
Theorem DeriveLevels_total master96 account role index :
  Forall is_byte master96 → length master96 = 96%nat →
  icarus_clamped (le_val (take 32 master96)) →
  RootExt master96 = Ok (split96 master96) ∧
  ∃ rows leaf, DeriveLevels master96 account role index = Some rows ∧ length rows = 5%nat ∧
    DeriveRef master96 account role index = Some leaf ∧
    Forall (λ e, Ext_wf e ∧ le_val (KL e) mod 8 = 0 ∧ 2 ^ 254 <= le_val (KL e) < 2 ^ 255) rows.
Proof.
  intros Hb Hl Hc. pose proof (icarus_range _ Hc) as Hr. destruct Hc as [Hm _].
  unfold RootExt, DeriveRef, DeriveLevels. rewrite Hl. cbn [Nat.eqb Nat.ltb Nat.leb negb].
  split; [done|].
  destruct (derive_hops_total (split96 master96) (path_hops account role index) 0)
    as (rows & Hrows & Hlen & Hall).
  - apply split96_wf; [done|lia].
  - cbn [split96 KL path_hops length]. lia.
  - done.
  - rewrite Hrows. destruct (last rows) as [leaf|] eqn:Hleaf; last first.
    { apply last_None in Hleaf as ->. done. }
    exists rows, leaf. repeat split; [done|done|].
    eapply Forall_impl; [exact Hall|]. intros e (He & Hk & Hle & Hlt). split; [done|]. split; [done|].
    cbn [split96 KL path_hops length] in Hle, Hlt. lia.
Qed.

(** ** Public derivation *)

Lemma lor_small hi lo : 0 <= lo < 2 ^ 3 → Z.lor (hi * 2 ^ 3) lo = hi * 2 ^ 3 + lo.
Proof.
  intros Hlo. rewrite <- Z.lxor_lor, <- Z.add_nocarry_lxor; [done| |];
    apply Z.bits_inj'; intros n Hn; rewrite Z.land_spec, Z.bits_0;
    (destruct (Z.lt_ge_cases n 3); [rewrite Z.mul_pow2_bits_low by lia; done|];
     rewrite (testbit_high 3 lo) by (done || lia); apply andb_false_r).
Qed.

Definition mul8_state (raw : list Z) (i : nat) : list Z * Z :=
  let v := 8 * le_val (take i raw) in
  (le_bytes i v ++ replicate (32 - i) 0, v / 256 ^ Z.of_nat i).

Lemma multiplyLittleEndianByEight_ok raw : Forall is_byte raw → (length raw < 32)%nat →
  multiplyLittleEndianByEight raw = Some (le_bytes 32 (8 * le_val raw)).
Proof.
  intros Hb Hl. unfold multiplyLittleEndianByEight.
  change (replicate 32 0, 0) with (mul8_state raw 0).
  assert (∀ i, (i <= length raw)%nat → 0 <= 8 * le_val (take i raw) / 256 ^ Z.of_nat i < 8) as Hcar.
  { intros i Hi. pose proof (digits_val_bound 256 ltac:(lia) _ (Forall_take _ i _ Hb)) as Hv.
    rewrite length_take_le in Hv by done. pose proof (Z.pow_pos_nonneg 256 (Z.of_nat i)).
    split; [apply Z.div_pos; lia|apply Z.div_lt_upper_bound; lia]. }
  rewrite (for_range_Some (mul8_state raw)).
  - cbn [mbind option_bind Nat.add]. unfold mul8_state. rewrite firstn_all.
    rewrite (proj2 (Nat.ltb_lt _ _)) by done. f_equal.
    replace 32%nat with (length raw + (1 + (31 - length raw)))%nat at 2 by lia.
    rewrite digits_app by lia. rewrite insert_app_r_alt by (rewrite length_digits; lia).
    rewrite length_digits, Nat.sub_diag. f_equal.
    replace (32 - length raw)%nat with (S (31 - length raw)) by lia. cbn [replicate insert list_insert].
    specialize (Hcar (length raw) ltac:(lia)). rewrite firstn_all in Hcar.
    unfold byte. cbn [Nat.add digits]. f_equal. rewrite Z.div_small by lia.
    clear. induction (31 - length raw)%nat as [|n IH]; cbn [replicate digits]; [done|].
    by rewrite Z.mod_0_l, Z.div_0_l, <- IH by lia.
  - intros i Hi. cbn [Nat.add] in Hi. destruct (lookup_lt_is_Some_2 raw i) as [c Hc]; [lia|].
    pose proof (Forall_lookup_1 _ _ _ _ Hb Hc) as Hcb. unfold is_digit in Hcb.
    pose proof (Hcar i ltac:(lia)) as Hci. unfold mul8_state at 1.
    rewrite (list_lookup_total_correct _ _ _ Hc), Z.shiftl_mul_pow2, Z.mod_small by lia.
    rewrite lor_small, Z.shiftr_div_pow2 by (done || lia).
    rewrite (proj2 (Nat.leb_gt _ _)) by lia. f_equal. unfold mul8_state.
    set (v := 8 * le_val (take i raw)) in *.
    assert (8 * le_val (take (S i) raw) = v + 256 ^ Z.of_nat i * (c * 2 ^ 3)) as ->.
    { rewrite (take_S_r _ _ _ Hc), digits_val_app, length_take_le by lia. cbn [digits_val]. lia. }
    assert (0 < 256 ^ Z.of_nat i) as Hp by (apply Z.pow_pos_nonneg; lia).
    replace (S i) with (i + 1)%nat by lia.
    rewrite digits_app by lia. rewrite (Z.mul_comm (256 ^ Z.of_nat i)), Z.div_add by lia.
    rewrite Nat2Z.inj_add, Z.pow_add_r, <- Z.div_div, Z.div_add by lia.
    rewrite (Z.add_comm (v / _)). cbn [digits]. f_equal.
    rewrite insert_app_r_alt by (rewrite length_digits; lia).
    rewrite length_digits, Nat.sub_diag, <- app_assoc. f_equal.
    + rewrite <- (digits_mod 256 ltac:(lia) i (v + _)), Z.mod_add by lia.
      symmetry. by apply digits_mod.
    + replace (32 - i)%nat with (S (31 - i)) by lia.
      replace (32 - (i + 1))%nat with (31 - i)%nat by lia. done.
Qed.

(** * Public derivation agrees with private derivation

    [public.go] derives soft children from the public half alone.  Against the
    documented behaviour of [filippo.io/edwards25519], stated as a class, it yields
    the public half of the privately derived child. *)

(** What the library's documentation promises of the operations used. *)
Class Edwards25519Laws `{Edwards25519} := {
  scalar_val : Scalar → Z;
  point_val : EPoint → ed_point;
  point_on p : ed_on (point_val p);
  SetUniformBytes_ok bs : Forall is_byte bs → length bs = 64%nat →
    ∃ s, SetUniformBytes bs = Some s ∧ scalar_val s = le_val bs mod group_order;
  SetCanonicalBytes_ok bs : bytes32 bs → le_val bs < group_order →
    ∃ s, SetCanonicalBytes bs = Some s ∧ scalar_val s = le_val bs;
  ScalarBaseMult_val s : point_val (ScalarBaseMult s) = ed_mul (scalar_val s) ed_base;
  EAdd_val p q : point_val (EAdd p q) = ed_add (point_val p) (point_val q);
  EBytes_val p : EBytes p = RefCompress (ref_of (point_val p));
  SetBytes_EBytes p : ∃ q, SetBytes (EBytes p) = Some q ∧ point_val q = point_val p;
}.

Section public_theorems.
Context `{Edwards25519Laws}.

Lemma XPubFromPrivate_ok e : Ext_wf e →
  ∃ s, XPubFromPrivate e =
         Ok {| PublicKey := EBytes (ScalarBaseMult s); ChainCode := CC e |} ∧
    point_val (ScalarBaseMult s) = ed_mul (le_val (KL e)) ed_base.
Proof.
  intros Hw. destruct (wf_KL _ Hw) as [Hb Hl].
  pose proof (bytes32_bound _ (wf_KL _ Hw)) as Hr.
  destruct (SetUniformBytes_ok (KL e ++ replicate 32 0)) as (s & Hs & Hv).
  { apply Forall_app. split; [done|]. apply Forall_replicate. split; lia. }
  { by rewrite length_app, length_replicate, Hl. }
  exists s. unfold XPubFromPrivate, scalarFromLittleEndian. rewrite Hl. cbn [Nat.eqb negb].
  rewrite Hs. split; [done|]. rewrite ScalarBaseMult_val, Hv, digits_val_pad.
  apply ed_mul_mod. lia.
Qed.

Lemma DerivePublicChild_ok par idx child :
  Ext_wf par → deriveChild par idx false = Some child →
  ∃ pub, XPubFromPrivate par = Ok pub ∧
    DerivePublicChild pub idx =
      (if 2 ^ 31 <=? idx then Err ErrChildIndex else XPubFromPrivate child).
Proof.
  intros Hw Hd. rewrite deriveChild_eq in Hd by done.
  destruct (Z.ltb_spec (child_kL par idx false) (2 ^ 255)) as [Hlt|]; [|done].
  injection Hd as <-. destruct (XPubFromPrivate_ok par Hw) as (s & Hs & Hps).
  eexists. split; [exact Hs|]. unfold DerivePublicChild.
  destruct (2 ^ 31 <=? idx); [done|]. cbn [PublicKey ChainCode]. cbv zeta.
  rewrite !EBytes_val, Hps. unfold hmacSHA512. rewrite le32_bytes.
  fold (step_data par false). fold (step_mac par 2 idx false). fold (step_mac par 3 idx false).
  fold (step_z par idx false). fold (step_cc par idx false).
  destruct (step_z_left par idx false) as (Hzb & Hzl & Hzr).
  rewrite multiplyLittleEndianByEight_ok by (done || lia). cbn [mbind option_bind].
  destruct (SetCanonicalBytes_ok (le_bytes 32 (8 * le_val (take 28 (step_z par idx false)))))
    as (t & Ht & Hvt).
  { apply le_bytes_32. }
  { rewrite digits_val_digits, Z.mod_small by (change (256 ^ Z.of_nat 32) with (2 ^ 256); lia).
    unfold group_order. lia. }
  rewrite digits_val_digits, Z.mod_small in Hvt by (change (256 ^ Z.of_nat 32) with (2 ^ 256); lia).
  rewrite Ht. destruct (SetBytes_EBytes (ScalarBaseMult s)) as (q & Hq & Hvq).
  rewrite EBytes_val, Hps in Hq. unfold step_data at 1. rewrite Hq.
  destruct (XPubFromPrivate_ok (child_ext par idx false) (child_wf par idx false))
    as (s' & -> & Hps').
  f_equal. f_equal. rewrite !EBytes_val. do 2 f_equal.
  rewrite EAdd_val, Hvq, Hps, ScalarBaseMult_val, Hvt, Hps', child_KL_val by done.
  pose proof (bytes32_bound _ (wf_KL _ Hw)).
  unfold child_kL. rewrite <- ed_mul_add; [done|lia|lia|exact ed_base_on].
Qed.

(** C30 Public and private soft derivation commute: for every well-formed parent and
    every index below [2^31], [DerivePublicChild] of the parent's public half is the
    public half of the privately derived child, and larger indices are refused. *)
Theorem DerivePublicChild_agrees par idx child :
  Ext_wf par → deriveChild par idx false = Some child →
  ∃ pub, XPubFromPrivate par = Ok pub ∧
    DerivePublicChild pub idx =
      (if 2 ^ 31 <=? idx then Err ErrChildIndex else XPubFromPrivate child).
Proof. exact (DerivePublicChild_ok par idx child). Qed.
End public_theorems.
