(* ===== verification/CkdCircuit.v ===== *)
(** * The derivation circuit: [internal/circuit/ckd/step.go] and [chain.go]

    One hardened or soft step in its full, byte-only and leaf forms, and the chain of
    five steps [DeriveChain]; each step refines the reference derivation. *)
From S2P Require Import Prelude.
From S2P Require Import Gnark.
From S2P Require Import CkdArith.
From S2P Require Import Sha512Spec.
From S2P Require Import Sha512.
From S2P Require Import Sha512Correct.
From S2P Require Import Ed25519.
From S2P Require Import EdPoly.
From S2P Require Import EdCurve.
From S2P Require Import Ed25519Group.
From S2P Require Import Ed25519Correct.
From S2P Require Import Ckd.

Section step.
Context `{EmulatedField P 255}.

(** [CircExt]; a vector [KLbits] that was never produced is empty. *)
Record CircExt := { cKL : list U8; cKR : list U8; cCC : list U8; cKLbits : list var }.
Record CircLeaf := { leafKL : list U8; leafKLbits : list var }.

Definition constByte (b : Z) : U8 := NewU8 b.
Definition constBytes (bs : list Z) : list U8 := NewU8Array bs.
Definition concatU8 (parts : list (list U8)) : list U8 := concat parts.

Definition finishStepBytes (p : CircExt) (msg ccm : list U8) : Circuit CircExt :=
  '(Z, CC) ← HMACSHA512Pair (cCC p) msg ccm;
  let zL := take 28 Z in
  let zR := take 32 (drop 32 Z) in
  kL ← AddKL (cKL p) zL;
  kR ← AddKR (cKR p) zR;
  mret {| cKL := kL; cKR := kR; cCC := take 32 (drop 32 CC); cKLbits := [] |}.

Definition finishStep (p : CircExt) (msg ccm : list U8) : Circuit CircExt :=
  child ← finishStepBytes p msg ccm;
  bits ← BytesToCanonBits (cKL child);
  mret {| cKL := cKL child; cKR := cKR child; cCC := cCC child; cKLbits := bits |}.

Definition finishStepLeaf (p : CircExt) (msg : list U8) : Circuit CircLeaf :=
  Z ← HMACSHA512 (cCC p) msg;
  let zL := take 28 Z in
  kL ← AddKL (cKL p) zL;
  bits ← BytesToCanonBits kL;
  mret {| leafKL := kL; leafKLbits := bits |}.

Definition HardenedStep (p : CircExt) (idxLE : list U8) : Circuit CircExt :=
  let msg := concatU8 [[constByte 0x00]; cKL p; cKR p; idxLE] in
  let ccm := concatU8 [[constByte 0x01]; cKL p; cKR p; idxLE] in
  finishStep p msg ccm.

Definition hardenedStepBytes (p : CircExt) (idxLE : list U8) : Circuit CircExt :=
  let msg := concatU8 [[constByte 0x00]; cKL p; cKR p; idxLE] in
  let ccm := concatU8 [[constByte 0x01]; cKL p; cKR p; idxLE] in
  finishStepBytes p msg ccm.

(** The range-checked handoff of the compressed parent key. *)
Definition softParentKey (p : CircExt) : Circuit (list U8) :=
  g ← ScalarMulBaseBits (cKLbits p);
  enc ← Compress g;
  for_range 0 32 (λ i A, b ← bapi_ValueOf (enc !!! i); mret (A ++ [b])) [].

Definition SoftStep (p : CircExt) (idxLE : list U8) : Circuit CircExt :=
  A ← softParentKey p;
  let msg := concatU8 [[constByte 0x02]; A; idxLE] in
  let ccm := concatU8 [[constByte 0x03]; A; idxLE] in
  finishStep p msg ccm.

Definition softStepLeaf (p : CircExt) (idxLE : list U8) : Circuit CircLeaf :=
  A ← softParentKey p;
  let msg := concatU8 [[constByte 0x02]; A; idxLE] in
  finishStepLeaf p msg.

Definition DeriveChain (masterKL masterKR masterCC : list U8) (account role index : var) :
    Circuit CircLeaf :=
  mbits ← BytesToCanonBits masterKL;
  _ ← AssertClampBits mbits;
  let master := {| cKL := masterKL; cKR := masterKR; cCC := masterCC; cKLbits := mbits |} in
  let c1852 := constBytes (le32 (Z.lor 1852 0x80000000)) in
  let c1815 := constBytes (le32 (Z.lor 1815 0x80000000)) in
  x ← hardenedStepBytes master c1852;
  x ← hardenedStepBytes x c1815;
  acc ← le32Var account true;
  x ← HardenedStep x acc;
  _ ← api_AssertIsEqual
        (api_Mul (api_Mul role (api_Sub role (constant 1))) (api_Sub role (constant 2)))
        (constant 0);
  roleLE ← le32Var role false;
  idxLE ← le32Var index false;
  x ← SoftStep x roleLE;
  softStepLeaf x idxLE.
End step.

(** * The derivation circuit refines the reference derivation

    Each step of [CkdCircuit.v] against [deriveChild], and [DeriveChain] against
    [DeriveRef], for every prover. *)

Section refinement.
Context `{EmulatedField P 255}.

(** The wires of a circuit state carry a reference state. *)
Record ext_is (c : CircExt) (e : Ext) : Prop := {
  is_KL : bytes_are (cKL c) (KL e);
  is_KR : bytes_are (cKR c) (KR e);
  is_CC : bytes_are (cCC c) (CC e) }.
Definition bits_are (c : CircExt) (e : Ext) : Prop :=
  value <$> cKLbits c = bits_of 256 (le_val (KL e)).

Lemma constBytes_are bs : Forall is_byte bs → bytes_are (constBytes bs) bs.
Proof. apply NewU8Array_are. Qed.

Lemma constByte_are b : is_byte b → bytes_are [constByte b] [b].
Proof. intros Hb. apply (NewU8Array_are [b]). by apply Forall_singleton. Qed.

Lemma is_byte_2 : is_byte 2.
Proof. done. Qed.
Lemma is_byte_3 : is_byte 3.
Proof. done. Qed.

Lemma le32_is_bytes idx : Forall is_byte (le_bytes 4 idx).
Proof. auto with bytes. Qed.

Lemma fits_small n : (n <= 1000)%nat → fits_sha512 n.
Proof. unfold fits_sha512. lia. Qed.

Lemma step_data_length par hardened : Ext_wf par →
  length (step_data par hardened) = if hardened then 64%nat else 32%nat.
Proof.
  intros [[_ HL] [_ HR] _]. destruct hardened; cbn [step_data].
  - by rewrite length_app, HL, HR.
  - by apply (RefCompress_bytes _ _ eq_refl).
Qed.

Lemma step_msg_length par tag idx hardened : Ext_wf par →
  fits_sha512 (length ([tag] ++ step_data par hardened ++ le_bytes 4 idx)).
Proof.
  intros Hw. apply fits_small. rewrite !length_app, length_digits, step_data_length by done.
  destruct hardened; simpl; lia.
Qed.

Lemma CC_fits par : Ext_wf par → fits_sha512 (length (CC par)).
Proof. intros [_ _ [_ ->]]. apply fits_small. lia. Qed.

Lemma child_kL_bytes par idx hardened : Ext_wf par → child_kL par idx hardened < 2 ^ 256 →
  le_val (le_bytes 32 (child_kL par idx hardened)) = child_kL par idx hardened.
Proof.
  intros Hw Hlt. rewrite digits_val_digits by lia. apply Z.mod_small.
  destruct (step_z_left par idx hardened) as (_ & _ & Hz).
  pose proof (bytes32_bound _ (wf_KL _ Hw)).
  change (256 ^ Z.of_nat 32) with (2 ^ 256). unfold child_kL in *. lia.
Qed.

Lemma canon_KL us bs : bytes_are us bs → bytes32 bs →
  (le_val bs < 2 ^ 255 → circuit_ok (BytesToCanonBits us) (λ canon,
     value <$> canon = bits_of 256 (le_val bs))) ∧
  (2 ^ 255 <= le_val bs → rejects (BytesToCanonBits us)).
Proof.
  intros [<- Hb] [_ Hl]. rewrite length_fmap in Hl.
  destruct (BytesToCanonBits_cases us Hl) as [Hok Hrej]. split; [by auto|].
  intros Hge. apply Hrej. lia.
Qed.

Lemma child_kL_add c par idx hardened Z : bytes_are (cKL c) (KL par) →
  bytes_are Z (step_z par idx hardened) → Ext_wf par →
  (child_kL par idx hardened < 2 ^ 256 → circuit_ok (AddKL (cKL c) (take 28 Z))
    (λ out, bytes_are out (le_bytes 32 (child_kL par idx hardened)))) ∧
  (2 ^ 256 <= child_kL par idx hardened → rejects (AddKL (cKL c) (take 28 Z))).
Proof.
  intros HKL HZ Hw. destruct (step_z_left par idx hardened) as (_ & Hzl & _).
  exact (AddKL_cases _ _ _ _ HKL (bytes_are_take _ _ 28 HZ) (proj2 (wf_KL _ Hw)) Hzl).
Qed.

Lemma right_half us bs : bytes_are us bs → (length (drop 32 bs) <= 32)%nat →
  bytes_are (take 32 (drop 32 us)) (drop 32 bs).
Proof. intros Hb Hl. apply bytes_are_take_all; [by apply bytes_are_drop|done]. Qed.

(** The byte form of a step, from its two preimages. *)
Lemma finishStepBytes_cases c par idx (hardened : bool) msg ccm :
  ext_is c par → Ext_wf par →
  bytes_are msg ([if hardened then 0 else 2] ++ step_data par hardened ++ le_bytes 4 idx) →
  bytes_are ccm ([if hardened then 1 else 3] ++ step_data par hardened ++ le_bytes 4 idx) →
  (child_kL par idx hardened < 2 ^ 256 →
    circuit_ok (finishStepBytes c msg ccm) (λ c', ext_is c' (child_ext par idx hardened))) ∧
  (2 ^ 256 <= child_kL par idx hardened → rejects (finishStepBytes c msg ccm)).
Proof.
  intros [HKL HKR HCC] Hw Hmsg Hccm. unfold finishStepBytes.
  pose proof (HMACSHA512Pair_spec _ _ _ _ _ _ HCC Hmsg Hccm (CC_fits _ Hw)
    (step_msg_length _ _ _ _ Hw) (step_msg_length _ _ _ _ Hw)) as Hmac.
  fold (step_mac par (if hardened then 0 else 2) idx hardened) in Hmac.
  fold (step_mac par (if hardened then 1 else 3) idx hardened) in Hmac.
  fold (step_z par idx hardened) (step_cc par idx hardened) in Hmac.
  destruct (step_right_bytes32 par (if hardened then 0 else 2) idx hardened) as [_ Hzr].
  fold (step_z par idx hardened) in Hzr.
  destruct (step_right_bytes32 par (if hardened then 1 else 3) idx hardened) as [_ Hcr].
  fold (step_cc par idx hardened) in Hcr.
  pose proof (λ Z HZ, child_kL_add c par idx hardened Z HKL HZ Hw) as HkL.
  assert (∀ Z, bytes_are Z (step_z par idx hardened) →
    circuit_ok (AddKR (cKR c) (take 32 (drop 32 Z)))
      (λ out, bytes_are out (KR (child_ext par idx hardened)))) as HkR.
  { intros Z HZ. exact (AddKR_ok _ _ _ _ HKR (right_half _ _ HZ (Nat.eq_le_incl _ _ Hzr))
      (proj2 (wf_KR _ Hw)) Hzr). }
  split; intros Hlt.
  - step (exact Hmac) as [Z CC'] [HZ HCC'].
    step (exact (proj1 (HkL Z HZ) Hlt)) as kL Hkl. step (exact (HkR Z HZ)) as kR Hkr.
    apply ok_ret. split; [exact Hkl|exact Hkr|].
    exact (right_half _ _ HCC' (Nat.eq_le_incl _ _ Hcr)).
  - eapply rejects_bind; [apply Hmac|]. intros [Z CC'] [HZ _].
    apply rejects_bind_l. exact (proj2 (HkL Z HZ) Hlt).
Qed.

Lemma finishStep_cases c par idx (hardened : bool) msg ccm :
  ext_is c par → Ext_wf par →
  bytes_are msg ([if hardened then 0 else 2] ++ step_data par hardened ++ le_bytes 4 idx) →
  bytes_are ccm ([if hardened then 1 else 3] ++ step_data par hardened ++ le_bytes 4 idx) →
  (child_kL par idx hardened < 2 ^ 255 →
    circuit_ok (finishStep c msg ccm) (λ c', ext_is c' (child_ext par idx hardened) ∧
      bits_are c' (child_ext par idx hardened))) ∧
  (2 ^ 255 <= child_kL par idx hardened → rejects (finishStep c msg ccm)).
Proof.
  intros Hc Hw Hmsg Hccm.
  destruct (finishStepBytes_cases _ _ _ _ _ _ Hc Hw Hmsg Hccm) as [Hok Hrej].
  unfold finishStep. split; intros Hlt.
  - step (apply Hok; lia) as c' Hc'. destruct (canon_KL _ _ (is_KL _ _ Hc')) as [Hcan _].
    { exact (le_bytes_32 _). }
    rewrite child_KL_val in Hcan by (done || lia).
    step (apply Hcan; lia) as bits Hbits. apply ok_ret. split; [by destruct Hc'|].
    unfold bits_are. by rewrite child_KL_val by (done || lia).
  - destruct (Z.lt_ge_cases (child_kL par idx hardened) (2 ^ 256)) as [Hlt'|Hge]; last first.
    { by apply rejects_bind_l, Hrej. }
    eapply rejects_bind; [by apply Hok|]. cbv beta. intros c' Hc'. apply rejects_bind_l.
    destruct (canon_KL _ _ (is_KL _ _ Hc')) as [_ Hcan]; [exact (le_bytes_32 _)|].
    apply Hcan. cbn [child_ext KL]. rewrite child_kL_bytes by done. lia.
Qed.

Lemma hardened_preimage c par tag idxLE idx : ext_is c par → is_byte tag →
  bytes_are idxLE (le_bytes 4 idx) →
  bytes_are (concatU8 [[constByte tag]; cKL c; cKR c; idxLE])
    ([tag] ++ step_data par true ++ le_bytes 4 idx).
Proof.
  intros [HL HR _] Ht Hi. unfold concatU8, step_data. cbn [concat]. rewrite app_nil_r.
  rewrite <- (app_assoc (KL par)).
  repeat apply bytes_are_app; [by apply constByte_are|done..].
Qed.

Lemma soft_preimage par tag A idxLE idx : bytes_are A (step_data par false) → is_byte tag →
  bytes_are idxLE (le_bytes 4 idx) →
  bytes_are (concatU8 [[constByte tag]; A; idxLE]) ([tag] ++ step_data par false ++ le_bytes 4 idx).
Proof.
  intros HA Ht Hi. unfold concatU8. cbn [concat]. rewrite app_nil_r.
  repeat apply bytes_are_app; [by apply constByte_are|done..].
Qed.

(** The compressed public key of a scalar, handed over as range-checked bytes. *)
Lemma key_bytes_ok bits s : value <$> bits = bits_of 256 s → 0 <= s < 2 ^ 255 →
  circuit_ok (g ← ScalarMulBaseBits bits; enc ← Compress g;
      for_range 0 32 (λ i A, b ← bapi_ValueOf (enc !!! i); mret (A ++ [b])) [])
    (λ A, bytes_are A (RefCompress (ref_of (ed_mul s ed_base)))).
Proof.
  intros Hb Hs. rewrite circuit_bind_assoc. fold (base_key bits).
  step (exact (base_key_spec _ _ Hb Hs)) as enc Henc.
  destruct (RefCompress_bytes (ref_of (ed_mul s ed_base)) _ eq_refl) as (Hbs & Hl & _).
  set (key := RefCompress (ref_of (ed_mul s ed_base))) in *.
  eapply ok_weaken.
  { apply (ok_for (λ i A, value <$> A = take i key)); [done|].
    intros i A Hi HA. destruct (lookup_lt_is_Some_2 key i) as [b Hb']; [rewrite Hl; simpl in Hi; lia|].
    pose proof Hb' as Hv. rewrite <- Henc in Hv. apply value_lookup_total in Hv.
    step (apply bValueOf_ok; rewrite Hv; by eapply Forall_lookup_1) as u Hu.
    apply ok_ret. by rewrite fmap_app, HA, (take_S_r _ _ _ Hb'), <- Hv, <- Hu. }
  cbv beta. intros A HA. rewrite take_ge in HA by (rewrite Hl; lia).
  split; [exact HA|exact Hbs].
Qed.

Lemma softParentKey_ok c par : bits_are c par → Ext_wf par → le_val (KL par) < 2 ^ 255 →
  circuit_ok (softParentKey c) (λ A, bytes_are A (step_data par false)).
Proof.
  intros Hb Hw Hlt. pose proof (bytes32_bound _ (wf_KL _ Hw)) as Hr.
  exact (key_bytes_ok _ _ Hb (conj (proj1 Hr) Hlt)).
Qed.

Lemma softParentKey_rejects c par : bits_are c par → Ext_wf par →
  2 ^ 255 <= le_val (KL par) → rejects (softParentKey c).
Proof.
  intros Hb Hw Hge. pose proof (bytes32_bound _ (wf_KL _ Hw)) as Hr.
  unfold softParentKey. rewrite circuit_bind_assoc. fold (base_key (cKLbits c)).
  apply rejects_bind_l, base_key_rejects.
  - apply (f_equal length) in Hb. by rewrite length_fmap, length_digits in Hb.
  - rewrite Hb, digits_val_digits by lia. intros [_ Hlt].
    rewrite Z.mod_small in Hlt by exact Hr. lia.
Qed.

(** Each step against its closed form. *)
Lemma HardenedStep_cases c par idxLE idx : ext_is c par → Ext_wf par →
  bytes_are idxLE (le_bytes 4 idx) →
  (child_kL par idx true < 2 ^ 255 → circuit_ok (HardenedStep c idxLE) (λ c',
     ext_is c' (child_ext par idx true) ∧ bits_are c' (child_ext par idx true))) ∧
  (2 ^ 255 <= child_kL par idx true → rejects (HardenedStep c idxLE)).
Proof.
  intros Hc Hw Hi. apply (finishStep_cases c par idx true); [done..| |];
    by apply hardened_preimage.
Qed.

Lemma hardenedStepBytes_ok c par idxLE idx : ext_is c par → Ext_wf par →
  bytes_are idxLE (le_bytes 4 idx) → child_kL par idx true < 2 ^ 256 →
  circuit_ok (hardenedStepBytes c idxLE) (λ c', ext_is c' (child_ext par idx true)).
Proof.
  intros Hc Hw Hi. apply (finishStepBytes_cases c par idx true); [done..| |];
    by apply hardened_preimage.
Qed.

Lemma child_kL_ge par idx hardened : le_val (KL par) <= child_kL par idx hardened.
Proof. destruct (step_z_left par idx hardened) as (_ & _ & Hz). unfold child_kL. lia. Qed.

Lemma SoftStep_cases c par idxLE idx : ext_is c par → bits_are c par → Ext_wf par →
  bytes_are idxLE (le_bytes 4 idx) →
  (child_kL par idx false < 2 ^ 255 → circuit_ok (SoftStep c idxLE) (λ c',
     ext_is c' (child_ext par idx false) ∧ bits_are c' (child_ext par idx false))) ∧
  (2 ^ 255 <= child_kL par idx false → rejects (SoftStep c idxLE)).
Proof.
  intros Hc Hb Hw Hi. pose proof (child_kL_ge par idx false) as Hle. unfold SoftStep.
  destruct (Z.lt_ge_cases (le_val (KL par)) (2 ^ 255)) as [Hlt|Hge]; last first.
  { split; [lia|]. intros _. by eapply rejects_bind_l, softParentKey_rejects. }
  assert (∀ A, bytes_are A (step_data par false) → _) as Hfin
    by (intros A HA; exact (finishStep_cases c par idx false _ _ Hc Hw
      (soft_preimage _ _ _ _ _ HA (is_byte_2) Hi) (soft_preimage _ _ _ _ _ HA (is_byte_3) Hi))).
  split; intros Hc'.
  - step (by apply softParentKey_ok) as A HA. by apply Hfin.
  - eapply rejects_bind; [by apply softParentKey_ok|]. intros A HA. by apply Hfin.
Qed.

Definition leaf_is (l : CircLeaf) (e : Ext) : Prop :=
  bytes_are (leafKL l) (KL e) ∧ value <$> leafKLbits l = bits_of 256 (le_val (KL e)).

Lemma finishStepLeaf_cases c par idx msg : ext_is c par → Ext_wf par →
  bytes_are msg ([2] ++ step_data par false ++ le_bytes 4 idx) →
  (child_kL par idx false < 2 ^ 255 →
    circuit_ok (finishStepLeaf c msg) (λ l, leaf_is l (child_ext par idx false))) ∧
  (2 ^ 255 <= child_kL par idx false → rejects (finishStepLeaf c msg)).
Proof.
  intros [HKL _ HCC] Hw Hmsg. unfold finishStepLeaf.
  pose proof (HMACSHA512_spec _ _ _ _ HCC Hmsg (CC_fits _ Hw) (step_msg_length _ _ _ _ Hw)) as Hmac.
  change (circuit_ok (HMACSHA512 (cCC c) msg) (λ Z, bytes_are Z (step_z par idx false))) in Hmac.
  pose proof (λ Z HZ, child_kL_add c par idx false Z HKL HZ Hw) as HkL.
  split; intros Hlt.
  - step (exact Hmac) as Z HZ.
    step (apply (HkL Z HZ); lia) as kL Hkl.
    destruct (canon_KL _ _ Hkl (le_bytes_32 _)) as [Hcan _].
    rewrite child_kL_bytes in Hcan by (done || lia).
    step (apply Hcan; lia) as bits Hbits. apply ok_ret. split; [exact Hkl|].
    cbn [leafKLbits]. by rewrite child_KL_val by (done || lia).
  - eapply rejects_bind; [apply Hmac|]. cbv beta. intros Z HZ.
    destruct (Z.lt_ge_cases (child_kL par idx false) (2 ^ 256)) as [Hlt'|Hge]; last first.
    { apply rejects_bind_l. exact (proj2 (HkL Z HZ) Hge). }
    eapply rejects_bind; [apply (child_kL_add _ _ _ _ _ HKL HZ Hw), Hlt'|]. cbv beta. intros kL Hkl.
    apply rejects_bind_l. apply (canon_KL _ _ Hkl (le_bytes_32 _)).
    by rewrite child_kL_bytes.
Qed.

Lemma softStepLeaf_cases c par idxLE idx : ext_is c par → bits_are c par → Ext_wf par →
  bytes_are idxLE (le_bytes 4 idx) →
  (child_kL par idx false < 2 ^ 255 →
    circuit_ok (softStepLeaf c idxLE) (λ l, leaf_is l (child_ext par idx false))) ∧
  (2 ^ 255 <= child_kL par idx false → rejects (softStepLeaf c idxLE)).
Proof.
  intros Hc Hb Hw Hi. pose proof (child_kL_ge par idx false) as Hle. unfold softStepLeaf.
  destruct (Z.lt_ge_cases (le_val (KL par)) (2 ^ 255)) as [Hlt|Hge]; last first.
  { split; [lia|]. intros _. by eapply rejects_bind_l, softParentKey_rejects. }
  assert (∀ A, bytes_are A (step_data par false) → _) as Hfin
    by (intros A HA; exact (finishStepLeaf_cases c par idx _ Hc Hw
      (soft_preimage _ _ _ _ _ HA is_byte_2 Hi))).
  split; intros Hc'.
  - step (by apply softParentKey_ok) as A HA. by apply Hfin.
  - eapply rejects_bind; [by apply softParentKey_ok|]. intros A HA. by apply Hfin.
Qed.

(** [m] produces what the reference step produces, and is unsatisfiable when the
    reference step panics. *)
Definition refines_step {A} (m : Circuit A) (ref : option Ext) (R : A → Ext → Prop) : Prop :=
  match ref with
  | Some child => circuit_ok m (λ a, R a child)
  | None => rejects m
  end.

Lemma refines_step_intro {A} (m : Circuit A) par idx hardened (R : A → Ext → Prop) : Ext_wf par →
  (child_kL par idx hardened < 2 ^ 255 → circuit_ok m (λ a, R a (child_ext par idx hardened))) ∧
  (2 ^ 255 <= child_kL par idx hardened → rejects m) →
  refines_step m (deriveChild par idx hardened) R.
Proof.
  intros Hw [Hok Hrej]. rewrite deriveChild_eq by done. unfold refines_step.
  destruct (Z.ltb_spec (child_kL par idx hardened) (2 ^ 255)); auto.
Qed.

(** A circuit step computes exactly the reference step.  On wires that carry a
    parent state and its canonical bits, [HardenedStep], [SoftStep] and
    [softStepLeaf] output the state [deriveChild] returns (the leaf form its left
    half), for every prover, and no prover is accepted where [deriveChild] panics
    because the child needs bit 255. *)
Theorem steps_refine_deriveChild c par idxLE idx :
  ext_is c par → bits_are c par → Ext_wf par → bytes_are idxLE (le32 idx) →
  refines_step (HardenedStep c idxLE) (deriveChild par idx true)
    (λ c' child, ext_is c' child ∧ bits_are c' child) ∧
  refines_step (SoftStep c idxLE) (deriveChild par idx false)
    (λ c' child, ext_is c' child ∧ bits_are c' child) ∧
  refines_step (softStepLeaf c idxLE) (deriveChild par idx false) leaf_is.
Proof.
  rewrite le32_bytes. intros Hc Hb Hw Hi.
  repeat split_and; apply refines_step_intro; [done| |done| |done|].
  - by apply HardenedStep_cases.
  - by apply SoftStep_cases.
  - by apply softStepLeaf_cases.
Qed.
End refinement.
