(* ===== verification/ChainCorrect.v ===== *)
(** * The whole derivation chain

    [DeriveChain] against [DeriveRef]: which witnesses it accepts, and the leaf it
    returns for them. *)
From S2P Require Import Prelude.
From S2P Require Import Gnark.
From S2P Require Import CkdArith.
From S2P Require Import Sha512Spec.
From S2P Require Import Sha512.
From S2P Require Import Sha512Correct.
From S2P Require Import Ed25519.
From S2P Require Import EdPoly.
From S2P Require Import EdCurve.
From S2P Require Import Ed25519Group.
From S2P Require Import Ed25519Correct.
From S2P Require Import Ckd.
From S2P Require Import CkdCircuit.

(** ** The reference chain stays below [2^255] *)

Definition hop_bound (k : Z) (e : Ext) : Prop :=
  Ext_wf e ∧ le_val (KL e) < 2 ^ 254 + 2 ^ 253 + k * 2 ^ 227.

Lemma hop_step k e idx hardened : hop_bound k e → k <= 4 →
  child_kL e idx hardened < 2 ^ 255 ∧ hop_bound (k + 1) (child_ext e idx hardened).
Proof.
  intros [Hw Hlt] Hk. destruct (step_z_left e idx hardened) as (_ & _ & Hz).
  assert (child_kL e idx hardened < 2 ^ 255) as Hc by (unfold child_kL; lia).
  split; [done|]. split; [exact (child_wf _ _ _)|].
  rewrite child_KL_val by done. unfold child_kL. lia.
Qed.

Lemma derive_hops_cons e idx hardened path child rows :
  deriveChild e idx hardened = Some child → derive_hops child path = Some rows →
  derive_hops e ((idx, hardened) :: path) = Some (child :: rows).
Proof. intros Hc Hr. cbn [derive_hops]. rewrite Hc. cbn [mbind option_bind]. by rewrite Hr. Qed.

Section path.
Variables (m : Ext) (account role index : Z).
Hypothesis Hm : hop_bound 0 m.

Definition purpose_ext : Ext := child_ext m (Z.lor 1852 0x80000000) true.
Definition coin_ext : Ext := child_ext purpose_ext (Z.lor 1815 0x80000000) true.
Definition account_ext : Ext := child_ext coin_ext (Z.lor account 0x80000000) true.
Definition role_ext : Ext := child_ext account_ext role false.
Definition leaf_ext : Ext := child_ext role_ext index false.

Lemma path_bounds : hop_bound 1 purpose_ext ∧ hop_bound 2 coin_ext ∧
  hop_bound 3 account_ext ∧ hop_bound 4 role_ext ∧ child_kL role_ext index false < 2 ^ 255.
Proof.
  destruct (hop_step 0 m (Z.lor 1852 0x80000000) true Hm ltac:(lia)) as [_ H1].
  destruct (hop_step 1 _ (Z.lor 1815 0x80000000) true H1 ltac:(lia)) as [_ H2].
  destruct (hop_step 2 _ (Z.lor account 0x80000000) true H2 ltac:(lia)) as [_ H3].
  destruct (hop_step 3 _ role false H3 ltac:(lia)) as [_ H4].
  destruct (hop_step 4 _ index false H4 ltac:(lia)) as [H5 _].
  exact (conj H1 (conj H2 (conj H3 (conj H4 H5)))).
Qed.

Lemma deriveChild_hop k e idx hardened : hop_bound k e → k <= 4 →
  deriveChild e idx hardened = Some (child_ext e idx hardened).
Proof.
  intros He Hk. destruct (hop_step k e idx hardened He Hk) as [Hlt _].
  rewrite deriveChild_eq by apply He. by rewrite (proj2 (Z.ltb_lt _ _) Hlt).
Qed.

Lemma derive_path : derive_hops m (path_hops account role index) =
  Some [purpose_ext; coin_ext; account_ext; role_ext; leaf_ext].
Proof.
  destruct path_bounds as (H1 & H2 & H3 & H4 & _). unfold path_hops, hardenedBit.
  rewrite !(Z.lor_comm 0x80000000).
  apply (derive_hops_cons _ _ _ _ purpose_ext); [exact (deriveChild_hop 0 _ _ _ Hm ltac:(lia))|].
  apply (derive_hops_cons _ _ _ _ coin_ext); [exact (deriveChild_hop 1 _ _ _ H1 ltac:(lia))|].
  apply (derive_hops_cons _ _ _ _ account_ext); [exact (deriveChild_hop 2 _ _ _ H2 ltac:(lia))|].
  apply (derive_hops_cons _ _ _ _ role_ext); [exact (deriveChild_hop 3 _ _ _ H3 ltac:(lia))|].
  apply (derive_hops_cons _ _ _ _ leaf_ext); [exact (deriveChild_hop 4 _ _ _ H4 ltac:(lia))|].
  reflexivity.
Qed.
End path.

Section chain.
Context `{EmulatedField P 255}.

Definition master_ext (masterKL masterKR masterCC : list U8) : Ext :=
  {| KL := value <$> masterKL; KR := value <$> masterKR; CC := value <$> masterCC |}.

(** Which witnesses are good: byte wires, a clamped master, an account and an index
    below [2^31], and a role of 0, 1 or 2. *)
Definition chain_valid (masterKL masterKR masterCC : list U8) (account role index : var) : Prop :=
  (Forall is_byte (value <$> masterKL) ∧ Forall is_byte (value <$> masterKR) ∧
   Forall is_byte (value <$> masterCC)) ∧
  icarus_clamped (le_val (value <$> masterKL)) ∧
  value account < 2 ^ 31 ∧ value role <= 2 ∧ value index < 2 ^ 31.

Lemma role_product role :
  value (api_Mul (api_Mul role (api_Sub role (constant 1))) (api_Sub role (constant 2))) =
  (value role * (value role - 1) * (value role - 2)) mod field_order.
Proof.
  rewrite !value_Mul, !value_Sub, !(value_constant_small) by lia.
  rewrite Zmult_mod_idemp_r, <- Zmult_mod_idemp_l, Zmod_mod, Zmult_mod_idemp_l.
  rewrite <- (Zmult_mod_idemp_l (value role * _)), Zmult_mod_idemp_r, Zmult_mod_idemp_l.
  done.
Qed.

Lemma role_product_zero role : value role < 2 ^ 31 →
  value (api_Mul (api_Mul role (api_Sub role (constant 1))) (api_Sub role (constant 2))) =
  value (constant 0) ↔ value role <= 2.
Proof.
  intros Hr. rewrite role_product, value_constant_small by lia. pose proof (value_range role).
  pose proof field_order_large. generalize dependent (value role). intros r Hr Hr0.
  assert (r = 0 ∨ r = 1 ∨ r = 2 ∨ 3 <= r) as [->|[->|[->|Hge]]] by lia; [done..|].
  assert (0 < r * (r - 1)) by nia. assert (0 < r * (r - 1) * (r - 2)) by nia.
  assert (r * (r - 1) <= 2 ^ 31 * 2 ^ 31) by (apply Z.mul_le_mono_nonneg; lia).
  assert (r * (r - 1) * (r - 2) <= 2 ^ 31 * 2 ^ 31 * 2 ^ 31) by (apply Z.mul_le_mono_nonneg; lia).
  rewrite Z.mod_small by lia. lia.
Qed.

Section from_master.
Variables (kl kr cc : list U8) (account role index : var).
Hypotheses (Lkl : length kl = 32%nat) (Lkr : length kr = 32%nat) (Lcc : length cc = 32%nat).
#[local] Abbreviation m := (master_ext kl kr cc).
#[local] Abbreviation chain := (DeriveChain kl kr cc account role index).

Lemma master_wf : (Forall is_byte (value <$> kl) ∧ Forall is_byte (value <$> kr) ∧
  Forall is_byte (value <$> cc)) → Ext_wf m.
Proof. intros (Hk & Hr & Hc). split; (split; [done|cbn; by rewrite length_fmap]). Qed.

Lemma master_is bits : Ext_wf m → ext_is {| cKL := kl; cKR := kr; cCC := cc; cKLbits := bits |} m.
Proof. intros [[] [] []]. by split; split. Qed.

Lemma constBytes_le32 z : bytes_are (constBytes (le32 z)) (le_bytes 4 z).
Proof. rewrite le32_bytes. apply constBytes_are, le32_is_bytes. Qed.

(** The five steps of an accepted chain. *)
Section steps.
Hypothesis Hm : hop_bound 0 m.
#[local] Abbreviation hardened_account := (Z.lor (value account) 0x80000000).

Lemma purpose_ok bits :
  circuit_ok (hardenedStepBytes {| cKL := kl; cKR := kr; cCC := cc; cKLbits := bits |}
    (constBytes (le32 (Z.lor 1852 0x80000000)))) (λ c, ext_is c (purpose_ext m)).
Proof.
  destruct (hop_step 0 _ (Z.lor 1852 0x80000000) true Hm ltac:(lia)) as [Hc _].
  apply (hardenedStepBytes_ok _ m _ (Z.lor 1852 0x80000000) (master_is bits (proj1 Hm)) (proj1 Hm)
    (constBytes_le32 _)). exact (Z.lt_trans _ _ (2 ^ 256) Hc ltac:(lia)).
Qed.

Lemma coin_ok c : ext_is c (purpose_ext m) →
  circuit_ok (hardenedStepBytes c (constBytes (le32 (Z.lor 1815 0x80000000))))
    (λ c, ext_is c (coin_ext m)).
Proof.
  intros Hc. destruct (path_bounds m 0 0 0 Hm) as (Hp & _).
  destruct (hop_step 1 _ (Z.lor 1815 0x80000000) true Hp ltac:(lia)) as [Hlt _].
  apply (hardenedStepBytes_ok _ _ _ (Z.lor 1815 0x80000000) Hc (proj1 Hp) (constBytes_le32 _)).
  exact (Z.lt_trans _ _ (2 ^ 256) Hlt ltac:(lia)).
Qed.

Lemma account_ok c acc : ext_is c (coin_ext m) → bytes_are acc (le_bytes 4 hardened_account) →
  circuit_ok (HardenedStep c acc) (λ c, ext_is c (account_ext m (value account)) ∧
    bits_are c (account_ext m (value account))).
Proof.
  intros Hc Ha. destruct (path_bounds m 0 0 0 Hm) as (_ & Hp & _).
  destruct (hop_step 2 _ hardened_account true Hp ltac:(lia)) as [Hlt _].
  exact (proj1 (HardenedStep_cases _ _ _ _ Hc (proj1 Hp) Ha) Hlt).
Qed.

Lemma role_ok c r : ext_is c (account_ext m (value account)) →
  bits_are c (account_ext m (value account)) → bytes_are r (le_bytes 4 (value role)) →
  circuit_ok (SoftStep c r) (λ c, ext_is c (role_ext m (value account) (value role)) ∧
    bits_are c (role_ext m (value account) (value role))).
Proof.
  intros Hc Hb Hr. destruct (path_bounds m (value account) 0 0 Hm) as (_ & _ & Hp & _).
  destruct (hop_step 3 _ (value role) false Hp ltac:(lia)) as [Hlt _].
  exact (proj1 (SoftStep_cases _ _ _ _ Hc Hb (proj1 Hp) Hr) Hlt).
Qed.

Lemma leaf_ok c i : ext_is c (role_ext m (value account) (value role)) →
  bits_are c (role_ext m (value account) (value role)) → bytes_are i (le_bytes 4 (value index)) →
  circuit_ok (softStepLeaf c i)
    (λ l, leaf_is l (leaf_ext m (value account) (value role) (value index))).
Proof.
  intros Hc Hb Hi.
  destruct (path_bounds m (value account) (value role) (value index) Hm) as (_ & _ & _ & Hp & Hlt).
  exact (proj1 (softStepLeaf_cases _ _ _ _ Hc Hb (proj1 Hp) Hi) Hlt).
Qed.
End steps.

Lemma DeriveRef_leaf : hop_bound 0 m →
  DeriveRef (value <$> kl ++ kr ++ cc) (value account) (value role) (value index) =
  Some (leaf_ext m (value account) (value role) (value index)).
Proof.
  intros Hm. unfold DeriveRef, DeriveLevels.
  assert (split96 (value <$> kl ++ kr ++ cc) = m) as ->.
  { unfold split96, master_ext. rewrite !fmap_app.
    rewrite take_app_length' by by rewrite length_fmap.
    rewrite (drop_app_length' (value <$> kl)) by by rewrite length_fmap.
    rewrite take_app_length' by by rewrite length_fmap. f_equal.
    rewrite (app_assoc (value <$> kl)), drop_app_length', take_ge; [done| |];
      rewrite ?length_app, !length_fmap; lia. }
  rewrite length_fmap, !length_app, Lkl, Lkr, Lcc. cbn [Nat.add Nat.ltb Nat.leb].
  rewrite (derive_path m _ _ _ Hm). reflexivity.
Qed.

Lemma le32Var_hardened : value account < 2 ^ 31 → circuit_ok (le32Var account true)
  (λ out, bytes_are out (le_bytes 4 (Z.lor (value account) 0x80000000))).
Proof.
  intros Hlt. pose proof (value_range account). rewrite lor_hardened by lia.
  exact (proj1 (le32Var_cases account true) Hlt).
Qed.
Lemma le32Var_soft i : value i < 2 ^ 31 →
  circuit_ok (le32Var i false) (λ out, bytes_are out (le_bytes 4 (value i))).
Proof.
  intros Hlt. pose proof (proj1 (le32Var_cases i false) Hlt) as Hc.
  by rewrite Z.add_0_r in Hc.
Qed.

Lemma chain_valid_bound : chain_valid kl kr cc account role index → hop_bound 0 m.
Proof.
  intros (Hb & Hcl & _). pose proof (icarus_range _ Hcl).
  split; [by apply master_wf|cbn [KL master_ext]; lia].
Qed.

Lemma DeriveChain_ok : chain_valid kl kr cc account role index →
  circuit_ok chain (λ l, leaf_is l (leaf_ext m (value account) (value role) (value index))).
Proof.
  intros (Hb & Hcl & Ha & Hr & Hi). pose proof (icarus_range _ Hcl) as Hrange.
  pose proof (chain_valid_bound (conj Hb (conj Hcl (conj Ha (conj Hr Hi))))) as Hm.
  pose proof (canon_KL kl _ (conj eq_refl (proj1 Hb)) (wf_KL _ (proj1 Hm))) as [Hcan _].
  unfold DeriveChain.
  step (apply Hcan; lia) as mbits Hmbits.
  step (apply (AssertClampBits_cases _ _ Hmbits); [exact (bytes32_bound _ (wf_KL _ (proj1 Hm)))|done])
    as u _.
  step (exact (purpose_ok Hm mbits)) as x1 Hx1. step (exact (coin_ok Hm x1 Hx1)) as x2 Hx2.
  step (exact (le32Var_hardened Ha)) as acc Hacc.
  step (exact (account_ok Hm x2 acc Hx2 Hacc)) as x3 [Hx3 Hb3].
  step (apply (ok_assert_equal _ _ (λ _, True)); [apply role_product_zero; lia|done]) as u' _.
  step (apply (le32Var_soft role); lia) as r Hrole.
  step (exact (le32Var_soft index Hi)) as i Hidx.
  step (exact (role_ok Hm x3 r Hx3 Hb3 Hrole)) as x4 [Hx4 Hb4].
  exact (leaf_ok Hm x4 i Hx4 Hb4 Hidx).
Qed.

(** A master wire that is not a byte fails the first keyed hash. *)
Lemma purpose_rejects bits idxLE : length idxLE = 4%nat →
  ¬ (Forall is_byte (value <$> kl) ∧ Forall is_byte (value <$> kr) ∧
     Forall is_byte (value <$> cc)) →
  rejects (hardenedStepBytes {| cKL := kl; cKR := kr; cCC := cc; cKLbits := bits |} idxLE).
Proof.
  intros Hidx Hn. apply rejects_bind_l. cbn [cKL cKR cCC]. unfold concatU8. cbn [concat].
  apply HMACSHA512Pair_rejects; [apply fits_small; lia|apply fits_small..|].
  1, 2: rewrite !length_app, Lkl, Lkr, Hidx; simpl; lia.
  rewrite !fmap_app, !Forall_app. tauto.
Qed.

Lemma DeriveChain_rejects : ¬ chain_valid kl kr cc account role index → rejects chain.
Proof.
  intros Hn. unfold DeriveChain.
  destruct (BytesToCanonBits_cases kl Lkl) as [Hcan Hcanr].
  destruct (decide (Forall is_byte (value <$> kl) ∧ le_val (value <$> kl) < 2 ^ 255)) as [[Hk Hlt]|Hbad];
    [|by apply rejects_bind_l, Hcanr].
  eapply rejects_bind; [by apply Hcan|]. cbv beta. intros mbits Hmbits.
  assert (0 <= le_val (value <$> kl) < 2 ^ 256) as Hr0.
  { pose proof (digits_val_bound 256 ltac:(lia) _ Hk). lia. }
  destruct (decide (icarus_clamped (le_val (value <$> kl)))) as [Hcl|Hcl]; last first.
  { apply rejects_bind_l. by apply (AssertClampBits_cases _ _ Hmbits). }
  apply rejects_bind_r. intros u.
  destruct (decide (Forall is_byte (value <$> kr) ∧ Forall is_byte (value <$> cc))) as [[Hkr Hcc]|Hbad];
    last first.
  { apply rejects_bind_l, purpose_rejects; [|tauto].
    exact (bytes_are_length _ _ (constBytes_le32 _)). }
  pose proof (icarus_range _ Hcl) as Hrange.
  assert (hop_bound 0 m) as Hm by (split; [by apply master_wf|cbn [KL master_ext]; lia]).
  eapply rejects_bind; [exact (proj1 (purpose_ok Hm mbits))|]. cbv beta. intros x1 Hx1.
  eapply rejects_bind; [exact (proj1 (coin_ok Hm x1 Hx1))|]. cbv beta. intros x2 Hx2.
  destruct (Z.lt_ge_cases (value account) (2 ^ 31)) as [Ha|Ha]; last first.
  { by apply rejects_bind_l, le32Var_cases. }
  apply rejects_bind_r. intros acc. apply rejects_bind_r. intros x3.
  destruct (Z.lt_ge_cases (value role) (2 ^ 31)) as [Hr|Hr]; last first.
  { apply rejects_bind_r. intros u'. by apply rejects_bind_l, le32Var_cases. }
  destruct (Z.le_gt_cases (value role) 2) as [Hr2|Hr2]; last first.
  { apply rejects_bind_l, rejects_assert_equal. rewrite role_product_zero by done. lia. }
  apply rejects_bind_r. intros u'. apply rejects_bind_r. intros r.
  destruct (Z.lt_ge_cases (value index) (2 ^ 31)) as [Hi|Hi]; last first.
  { by apply rejects_bind_l, le32Var_cases. }
  exfalso. by apply Hn.
Qed.
End from_master.

(** C20 [DeriveChain] derives exactly the reference leaf.  Its satisfying witnesses
    are the byte-valued, clamped masters with an account and an index below [2^31]
    and a role of 0, 1 or 2; on those, for every prover, the leaf's left half and
    bits are those of [DeriveRef] on [m/1852'/1815'/account'/role/index]; on any other
    witness no prover is accepted. *)
Theorem DeriveChain_exact kl kr cc account role index :
  length kl = 32%nat → length kr = 32%nat → length cc = 32%nat →
  (chain_valid kl kr cc account role index →
    circuit_ok (DeriveChain kl kr cc account role index) (λ l, ∃ leaf,
      DeriveRef (value <$> kl ++ kr ++ cc) (value account) (value role) (value index) = Some leaf ∧
      leaf_is l leaf)) ∧
  (¬ chain_valid kl kr cc account role index →
    rejects (DeriveChain kl kr cc account role index)).
Proof.
  intros Lkl Lkr Lcc. split; [|exact (DeriveChain_rejects kl kr cc account role index Lkl Lkr Lcc)].
  intros Hv. eapply ok_weaken.
  - exact (DeriveChain_ok kl kr cc account role index Lkl Lkr Lcc Hv).
  - intros l Hl. eexists. split; [|exact Hl].
    apply DeriveRef_leaf; [done..|]. by apply (chain_valid_bound kl kr cc account role index).
Qed.
End chain.
