(* ===== verification/GoText.v ===== *)
(** * Go strings and numerals

    The functions of Go's [strings], [strconv], [encoding/hex] and [math/big] that
    the repository parses and prints with, what they compute, the URLs of [net/url] and
    [encoding/base64].  A Go string is its bytes. *)
From Stdlib Require Import Ascii String.
From stdpp Require Import strings.
From S2P Require Import Prelude.

(** A string literal. *)
Definition str (s : string) : list Z :=
  (λ a, Z.of_N (N_of_ascii a)) <$> String.list_ascii_of_string s.

(** ** [strings] *)

(** The encodings of the runes [unicode.IsSpace] accepts.  No encoding starts with a
    continuation byte, so testing prefixes and suffixes of bytes finds exactly the
    runes that decoding would. *)
Definition space_runes : list (list Z) :=
  [[9]; [10]; [11]; [12]; [13]; [32]; [0xC2; 0x85]; [0xC2; 0xA0]; [0xE1; 0x9A; 0x80];
   [0xE2; 0x80; 0xA8]; [0xE2; 0x80; 0xA9]; [0xE2; 0x80; 0xAF]; [0xE2; 0x81; 0x9F];
   [0xE3; 0x80; 0x80]] ++ ((λ k, [0xE2; 0x80; 0x80 + Z.of_nat k]) <$> seq 0 11).

Fixpoint strip_prefix (p s : list Z) : option (list Z) :=
  match p, s with
  | [], s => Some s
  | a :: p, b :: s => if a =? b then strip_prefix p s else None
  | _ :: _, [] => None
  end.

Definition strip_any (ps : list (list Z)) (s : list Z) : option (list Z) :=
  foldr (λ p rest, match strip_prefix p s with Some s' => Some s' | None => rest end) None ps.

Fixpoint strip_all (ps : list (list Z)) (fuel : nat) (s : list Z) : list Z :=
  match fuel with
  | O => s
  | S fuel => match strip_any ps s with Some s' => strip_all ps fuel s' | None => s end
  end.

Definition TrimSpace (s : list Z) : list Z :=
  let s := strip_all space_runes (length s) s in
  rev (strip_all (@rev Z <$> space_runes) (length s) (rev s)).

(** [strings.Fields]: the maximal runs without white space. *)
Fixpoint fields_from (fuel : nat) (s cur : list Z) : list (list Z) :=
  let flush := match cur with [] => [] | _ => [cur] end in
  match fuel, s with
  | S fuel, b :: rest =>
      match strip_any space_runes s with
      | Some s' => flush ++ fields_from fuel s' []
      | None => fields_from fuel rest (cur ++ [b])
      end
  | _, _ => flush
  end.
Definition Fields (s : list Z) : list (list Z) := fields_from (length s) s [].

Fixpoint Join (parts : list (list Z)) (sep : list Z) : list Z :=
  match parts with
  | [] => []
  | [p] => p
  | p :: parts => p ++ sep ++ Join parts sep
  end.

Definition HasPrefix (s p : list Z) : bool := bool_decide (is_Some (strip_prefix p s)).
Definition HasSuffix (s p : list Z) : bool := HasPrefix (rev s) (rev p).
Definition TrimPrefix (s p : list Z) : list Z := default s (strip_prefix p s).
Definition TrimSuffix (s p : list Z) : list Z :=
  match strip_prefix (rev p) (rev s) with Some s' => rev s' | None => s end.

Fixpoint Contains (s sub : list Z) : bool :=
  HasPrefix s sub || match s with [] => false | _ :: s => Contains s sub end.
Definition ContainsAny (s chars : list Z) : bool := existsb (λ c, bool_decide (c ∈ chars)) s.

(** [strings.Cut(s, sep)], and the cut at the last occurrence of a byte. *)
Fixpoint Cut (s sep : list Z) : option (list Z * list Z) :=
  match strip_prefix sep s with
  | Some rest => Some ([], rest)
  | None => match s with [] => None | c :: s => '(before, rest) ← Cut s sep; Some (c :: before, rest) end
  end.
Definition CutLast (s : list Z) (c : Z) : option (list Z * list Z) :=
  '(rest, before) ← Cut (rev s) [c]; Some (rev before, rev rest).

(** [strings.Count] of a byte. *)
Definition Count (s : list Z) (c : Z) : nat := length (filter (λ x, x = c) s).

(** [a < b] on strings. *)
Fixpoint string_ltb (a b : list Z) : bool :=
  match a, b with
  | _, [] => false
  | [], _ :: _ => true
  | x :: a, y :: b => (x <? y) || ((x =? y) && string_ltb a b)
  end.
Definition string_le (a b : list Z) : Prop := string_ltb b a = false.
#[export] Instance string_le_dec : RelDecision string_le.
Proof. intros a b. unfold string_le. apply _. Defined.

(** ** Numerals *)

(** The lowercase digit characters. *)
Definition digit_char (d : Z) : Z := if d <? 10 then 48 + d else 87 + d.
Definition char_digit (base c : Z) : option Z :=
  let d := if (48 <=? c) && (c <=? 57) then c - 48
           else if (97 <=? c) && (c <=? 102) then c - 87
           else if (65 <=? c) && (c <=? 70) then c - 55 else base in
  if d <? base then Some d else None.

Section numerals.
Context (base : Z).

(** Most significant digit first, without leading zeros. *)
Fixpoint numeral_digits (fuel : nat) (n : Z) : list Z :=
  match fuel with
  | O => []
  | S fuel => if n <? base then [n] else numeral_digits fuel (n / base) ++ [n mod base]
  end.

Definition numeral (n : Z) : list Z :=
  digit_char <$> numeral_digits (S (Z.to_nat (Z.log2 n))) n.

Definition parse_numeral (s : list Z) : option Z :=
  match s with
  | [] => None
  | _ => ds ← mapM (char_digit base) s; Some (digits_val base (rev ds))
  end.

(** [n.Text(base)] and [SetString(s, base)] of a big integer. *)
Definition Text (n : Z) : list Z := if n <? 0 then 45 :: numeral (- n) else numeral n.
Definition SetString (s : list Z) : option Z :=
  match s with
  | 45 :: s => n ← parse_numeral s; Some (- n)
  | 43 :: s => parse_numeral s
  | s => parse_numeral s
  end.
End numerals.

(** [fmt]'s [%d] and [strconv.Atoi] on a 64-bit [int]. *)
Definition Itoa (n : Z) : list Z := Text 10 n.
Definition Atoi (s : list Z) : option Z :=
  n ← SetString 10 s;
  if (- 2 ^ 63 <=? n) && (n <? 2 ^ 63) then Some n else None.

(** ** [encoding/hex] *)

Definition hex_EncodeToString (bs : list Z) : list Z :=
  concat ((λ b, [digit_char (b / 16); digit_char (b mod 16)]) <$> bs).

Fixpoint hex_DecodeString (s : list Z) : option (list Z) :=
  match s with
  | [] => Some []
  | a :: b :: s =>
      x ← char_digit 16 a; y ← char_digit 16 b; bs ← hex_DecodeString s; Some (16 * x + y :: bs)
  | [_] => None
  end.

(** ** Laws *)

Lemma strip_prefix_app p s : strip_prefix p (p ++ s) = Some s.
Proof. induction p as [|a p IH]; [done|]. cbn. by rewrite Z.eqb_refl. Qed.

Lemma strip_prefix_Some p s s' : strip_prefix p s = Some s' → s = p ++ s'.
Proof.
  revert s. induction p as [|a p IH]; intros [|b s] Hs; simplify_eq/=; try done.
  destruct (Z.eqb_spec a b) as [->|]; [|done]. by rewrite (IH s).
Qed.

Lemma HasPrefix_app s p : HasPrefix (p ++ s) p = true.
Proof. unfold HasPrefix. rewrite strip_prefix_app. by apply bool_decide_eq_true. Qed.

Lemma HasSuffix_app s p : HasSuffix (s ++ p) p = true.
Proof. unfold HasSuffix. rewrite rev_app_distr. apply HasPrefix_app. Qed.

Lemma TrimPrefix_app s p : TrimPrefix (p ++ s) p = s.
Proof. unfold TrimPrefix. by rewrite strip_prefix_app. Qed.

Lemma TrimSuffix_app s p : TrimSuffix (s ++ p) p = s.
Proof. unfold TrimSuffix. by rewrite rev_app_distr, strip_prefix_app, rev_involutive. Qed.

(** A visible ASCII character neither starts nor ends an encoding of a space. *)
Definition visible (c : Z) : Prop := 33 <= c <= 126.

Lemma strip_any_head ps c s : Forall (λ p, ∃ a p', p = a :: p' ∧ a ≠ c) ps →
  strip_any ps (c :: s) = None.
Proof.
  induction 1 as [|p ps (a & p' & -> & Hne) _ IH]; [done|]. cbn.
  by rewrite (proj2 (Z.eqb_neq a c)).
Qed.

Definition headed_away (p : list Z) : bool :=
  match p with a :: _ => negb ((33 <=? a) && (a <=? 126)) | [] => false end.

Lemma headed_away_all ps c : forallb headed_away ps = true → visible c →
  Forall (λ p, ∃ a p', p = a :: p' ∧ a ≠ c) ps.
Proof.
  intros Hps Hc. apply Forall_forall. intros p Hp.
  rewrite forallb_forall in Hps. specialize (Hps p (proj1 (list_elem_of_In _ _) Hp)).
  destruct p as [|a p]; [done|]. exists a, p. split; [done|]. intros ->. unfold visible in Hc.
  cbn in Hps. rewrite (proj2 (Z.leb_le _ _)), (proj2 (Z.leb_le _ _)) in Hps by lia. done.
Qed.

Lemma strip_any_visible c s : visible c → strip_any space_runes (c :: s) = None.
Proof. intros Hc. apply strip_any_head, headed_away_all; [by vm_compute|done]. Qed.

Lemma strip_any_visible_rev c s : visible c → strip_any (@rev Z <$> space_runes) (c :: s) = None.
Proof. intros Hc. apply strip_any_head, headed_away_all; [by vm_compute|done]. Qed.

Lemma TrimSpace_visible s : Forall visible s → TrimSpace s = s.
Proof.
  intros Hs. unfold TrimSpace. destruct Hs as [|c s Hc Hs]; [done|].
  cbn [length strip_all]. rewrite strip_any_visible by done. cbv zeta.
  destruct (rev (c :: s)) as [|d t] eqn:E.
  { by apply (f_equal length) in E; rewrite length_rev in E. }
  assert (visible d) as Hd.
  { assert (d ∈ c :: s) as Hin by (rewrite <- (rev_involutive (c :: s)), E; apply list_elem_of_In, in_rev;
      rewrite rev_involutive; by left). eapply Forall_forall in Hin; [exact Hin|by constructor]. }
  cbn [length strip_all]. rewrite strip_any_visible_rev by done. by rewrite <- E, rev_involutive.
Qed.

Section numeral_laws.
Context (base : Z) (Hbase : 2 <= base <= 16).

Lemma char_digit_char d : is_digit base d → char_digit base (digit_char d) = Some d.
Proof.
  intros Hd. unfold is_digit in Hd. unfold char_digit, digit_char.
  destruct (Z.ltb_spec d 10).
  - rewrite (proj2 (Z.leb_le _ _)), (proj2 (Z.leb_le _ _)) by lia. cbn.
    replace (48 + d - 48) with d by lia. by rewrite (proj2 (Z.ltb_lt _ _)) by lia.
  - rewrite (proj2 (Z.leb_gt (87 + d) 57)), andb_false_r by lia.
    rewrite (proj2 (Z.leb_le _ _)), (proj2 (Z.leb_le _ _)) by lia. cbn.
    replace (87 + d - 87) with d by lia. by rewrite (proj2 (Z.ltb_lt _ _)) by lia.
Qed.

Lemma digit_char_visible d : is_digit base d → visible (digit_char d) ∧ digit_char d ∉ [43; 45; 120].
Proof.
  intros Hd. unfold is_digit in Hd. unfold visible, digit_char.
  destruct (Z.ltb_spec d 10); (split; [lia|]); rewrite !not_elem_of_cons;
    repeat split; try lia; apply not_elem_of_nil.
Qed.

Lemma numeral_digits_spec fuel n : 0 <= n < 2 ^ Z.of_nat fuel →
  (fuel = 0%nat ∨ numeral_digits base fuel n ≠ []) ∧
  Forall (is_digit base) (numeral_digits base fuel n) ∧
  digits_val base (rev (numeral_digits base fuel n)) = n.
Proof.
  revert n. induction fuel as [|fuel IH]; intros n Hn.
  { cbn in *. repeat split; [by left|constructor|lia]. }
  cbn [numeral_digits]. destruct (Z.ltb_spec n base) as [Hlt|Hge].
  { repeat split; [by right|repeat constructor; lia|cbn; lia]. }
  rewrite Nat2Z.inj_succ, Z.pow_succ_r in Hn by lia.
  destruct (IH (n / base)) as (_ & Hd & Hv).
  { split; [apply Z.div_pos; lia|apply Z.div_lt_upper_bound; nia]. }
  pose proof (Z.mod_pos_bound n base ltac:(lia)). repeat split.
  - right. by destruct (numeral_digits base fuel (n / base)).
  - apply Forall_app. split; [done|]. repeat constructor; lia.
  - rewrite rev_app_distr. cbn. rewrite Hv. pose proof (Z.div_mod n base). lia.
Qed.

Lemma log2_fuel n : 0 <= n → 0 <= n < 2 ^ Z.of_nat (S (Z.to_nat (Z.log2 n))).
Proof.
  intros Hn. pose proof (Z.log2_nonneg n). rewrite Nat2Z.inj_succ, Z2Nat.id by done.
  destruct (Z.eq_dec n 0) as [->|]; [done|]. split; [done|]. apply Z.log2_spec. lia.
Qed.

Lemma mapM_char_digit ds : Forall (is_digit base) ds →
  mapM (char_digit base) (digit_char <$> ds) = Some ds.
Proof.
  induction 1 as [|d ds Hd _ IH]; [done|]. cbn. rewrite char_digit_char by done. cbn.
  by rewrite IH.
Qed.

Lemma numeral_parses n : 0 <= n → parse_numeral base (numeral base n) = Some n.
Proof.
  intros Hn. unfold numeral, parse_numeral.
  destruct (numeral_digits_spec _ _ (log2_fuel n Hn)) as ([|Hne] & Hd & Hv); [done|].
  set (ds := numeral_digits base (S (Z.to_nat (Z.log2 n))) n) in *.
  destruct (digit_char <$> ds) as [|c cs] eqn:E; [by apply fmap_nil_inv in E|].
  rewrite <- E, mapM_char_digit by done. cbn [mbind option_bind]. by rewrite Hv.
Qed.

Lemma numeral_chars n : 0 <= n → numeral base n ≠ [] ∧
  Forall (λ c, visible c ∧ c ∉ [43; 45; 120]) (numeral base n).
Proof.
  intros Hn. unfold numeral.
  destruct (numeral_digits_spec _ _ (log2_fuel n Hn)) as ([|Hne] & Hd & _); [done|]. split.
  - by intros E%fmap_nil_inv.
  - apply Forall_fmap. eapply Forall_impl; [exact Hd|]. intros d. apply digit_char_visible.
Qed.

(** A numeral carries no sign, so [SetString] reads it back. *)
Lemma SetString_unsigned c s : c ∉ [43; 45; 120] →
  SetString base (c :: s) = parse_numeral base (c :: s).
Proof.
  rewrite !not_elem_of_cons. intros (H1 & H2 & _). unfold SetString.
  destruct c as [|c|c]; [done| |done].
  do 6 (destruct c as [c|c|]; try done).
Qed.

Lemma SetString_Text n : SetString base (Text base n) = Some n.
Proof.
  unfold Text. destruct (Z.ltb_spec n 0) as [Hlt|Hge].
  - cbn [SetString]. rewrite numeral_parses by lia. cbn. f_equal. lia.
  - destruct (numeral_chars n Hge) as [Hne Hc].
    destruct (numeral base n) as [|c s] eqn:E; [done|]. apply Forall_cons in Hc as [[_ Hc] _].
    rewrite SetString_unsigned by done. rewrite <- E. by apply numeral_parses.
Qed.
End numeral_laws.

Lemma Atoi_Itoa n : - 2 ^ 63 <= n < 2 ^ 63 → Atoi (Itoa n) = Some n.
Proof.
  intros Hn. unfold Atoi, Itoa. rewrite SetString_Text by lia. cbn [mbind option_bind].
  by rewrite (proj2 (Z.leb_le _ _)), (proj2 (Z.ltb_lt _ _)) by lia.
Qed.

Lemma Itoa_inj n m : - 2 ^ 63 <= n < 2 ^ 63 → - 2 ^ 63 <= m < 2 ^ 63 → Itoa n = Itoa m → n = m.
Proof. intros Hn Hm E. apply Atoi_Itoa in Hn, Hm. congruence. Qed.

Lemma hex_round_trip bs : Forall is_byte bs → hex_DecodeString (hex_EncodeToString bs) = Some bs.
Proof.
  unfold hex_EncodeToString. induction 1 as [|b bs Hb _ IH]; [done|]. unfold is_digit in Hb.
  pose proof (Z.mod_pos_bound b 16 ltac:(lia)).
  assert (0 <= b / 16 < 16) by (split; [apply Z.div_pos|apply Z.div_lt_upper_bound]; lia).
  cbn. rewrite !char_digit_char by (unfold is_digit; lia). cbn. cbn in IH. rewrite IH. cbn.
  do 2 f_equal. pose proof (Z.div_mod b 16). lia.
Qed.

Lemma char_digit_range c d : char_digit 16 c = Some d → 0 <= d < 16.
Proof.
  unfold char_digit. cbv zeta.
  destruct (Z.leb_spec 48 c), (Z.leb_spec c 57), (Z.leb_spec 97 c), (Z.leb_spec c 102),
    (Z.leb_spec 65 c), (Z.leb_spec c 70); cbn [andb];
    match goal with |- context [?x <? 16] => destruct (Z.ltb_spec x 16) end;
    try done; intros [= <-]; lia.
Qed.

Lemma hex_DecodeString_bytes s bs : hex_DecodeString s = Some bs → Forall is_byte bs.
Proof.
  assert (∀ n s bs, (length s <= n)%nat → hex_DecodeString s = Some bs → Forall is_byte bs) as H.
  { clear. induction n as [|n IH]; intros [|a [|b s]] bs Hl; cbn; try done; try (intros [= <-]; constructor);
      cbn in Hl; [lia|].
    destruct (char_digit 16 a) as [x|] eqn:Ex; [|done]. destruct (char_digit 16 b) as [y|] eqn:Ey; [|done].
    cbn. destruct (hex_DecodeString s) as [bs'|] eqn:Es; [|done]. intros [= <-].
    apply char_digit_range in Ex, Ey. constructor; [unfold is_digit; lia|]. apply (IH s); [lia|done]. }
  apply (H (length s)). lia.
Qed.

Lemma hex_inj bs cs : Forall is_byte bs → Forall is_byte cs →
  hex_EncodeToString bs = hex_EncodeToString cs → bs = cs.
Proof.
  intros Hb Hc He. apply (f_equal hex_DecodeString) in He. rewrite !hex_round_trip in He by done.
  by injection He.
Qed.

Lemma hex_chars bs : Forall is_byte bs →
  Forall (λ c, visible c ∧ c ∉ [43; 45; 120]) (hex_EncodeToString bs).
Proof.
  unfold hex_EncodeToString. induction 1 as [|b bs Hb _ IH]; [constructor|]. unfold is_digit in Hb.
  pose proof (Z.mod_pos_bound b 16 ltac:(lia)).
  assert (0 <= b / 16 < 16) by (split; [apply Z.div_pos|apply Z.div_lt_upper_bound]; lia).
  cbn. repeat constructor; try done;
    apply (digit_char_visible 16 ltac:(lia)); unfold is_digit; lia.
Qed.

Lemma length_hex bs : length (hex_EncodeToString bs) = (2 * length bs)%nat.
Proof.
  unfold hex_EncodeToString. induction bs as [|b bs IH]; [done|]. cbn. cbn in IH. rewrite IH. lia.
Qed.

(** [strings.TrimPrefix(strings.TrimSpace(s), "0x")] of a prefixed or bare string. *)
Definition trim_0x (s : list Z) : list Z := TrimPrefix (TrimSpace s) (str "0x").

Lemma trim_0x_prefixed s : Forall visible s → trim_0x (str "0x" ++ s) = s.
Proof.
  intros Hs. unfold trim_0x. rewrite TrimSpace_visible; [apply TrimPrefix_app|].
  apply Forall_app. split; [|done]. change (str "0x") with [48; 120].
  repeat (apply Forall_cons_2; [unfold visible; lia|]). constructor.
Qed.

Lemma trim_0x_bare s : Forall (λ c, visible c ∧ c ∉ [43; 45; 120]) s → trim_0x s = s.
Proof.
  intros Hs. unfold trim_0x. rewrite TrimSpace_visible by (eapply Forall_impl; [exact Hs|by intros ? []]).
  unfold TrimPrefix. destruct (strip_prefix (str "0x") s) as [s'|] eqn:E; [|done].
  apply strip_prefix_Some in E. subst s. cbn in Hs.
  apply Forall_cons in Hs as [_ Hs]. apply Forall_cons in Hs as [[_ Hx] _].
  exfalso. apply Hx. rewrite !elem_of_cons. auto.
Qed.

(** * What the string functions compute: [strings]

    Prefixes, suffixes, substrings and cuts as decompositions of a string, shared by the
    components that parse paths, origins and identifiers. *)

Lemma strip_prefix_iff p s t : strip_prefix p s = Some t ↔ s = p ++ t.
Proof. split; [apply strip_prefix_Some|]. intros ->. apply strip_prefix_app. Qed.

Lemma HasPrefix_iff s p : HasPrefix s p = true ↔ ∃ t, s = p ++ t.
Proof.
  unfold HasPrefix. rewrite bool_decide_eq_true. unfold is_Some. by setoid_rewrite strip_prefix_iff.
Qed.

Lemma Contains_iff s sub : Contains s sub = true ↔ ∃ a b, s = a ++ sub ++ b.
Proof.
  induction s as [|c s IH]; cbn [Contains]; rewrite orb_true_iff, HasPrefix_iff.
  - split.
    + intros [[t E]|[=]]. by exists [], t.
    + intros (a & b & E). left. symmetry in E. apply app_nil in E as [-> E]. by exists b.
  - rewrite IH. split.
    + intros [[t E]|(a & b & ->)]; [by exists [], t|]. by exists (c :: a), b.
    + intros ([|x a] & b & E); [left; by exists b|]. injection E as -> ->. right. by exists a, b.
Qed.

Lemma Contains_false s sub : Contains s sub = false ↔ ∀ a b : list Z, s ≠ a ++ sub ++ b.
Proof. rewrite <- not_true_iff_false, Contains_iff. naive_solver. Qed.

Lemma HasPrefix_false s p : HasPrefix s p = false ↔ ∀ t : list Z, s ≠ p ++ t.
Proof. rewrite <- not_true_iff_false, HasPrefix_iff. naive_solver. Qed.

Lemma elem_of_Contains (c : Z) s : (∀ a b : list Z, s ≠ a ++ [c] ++ b) ↔ c ∉ s.
Proof.
  split; [intros H Hc; apply list_elem_of_split in Hc as (a & b & ->); by apply (H a b)|].
  intros Hc a b ->. apply Hc, elem_of_app. right. by left.
Qed.

Lemma ContainsAny_false s chars : ContainsAny s chars = false ↔ ∀ c, c ∈ chars → c ∉ s.
Proof.
  unfold ContainsAny. rewrite <- not_true_iff_false, existsb_exists. setoid_rewrite <- list_elem_of_In.
  setoid_rewrite bool_decide_eq_true. naive_solver.
Qed.

Lemma HasSuffix_iff s p : HasSuffix s p = true ↔ ∃ t, s = t ++ p.
Proof.
  unfold HasSuffix. rewrite HasPrefix_iff. split; intros [t E].
  - exists (rev t). rewrite <- (rev_involutive s), E, rev_app_distr, rev_involutive. done.
  - exists (rev t). by rewrite E, rev_app_distr.
Qed.

(** A cut at a byte is at its first, or its last, occurrence. *)
Lemma Cut_byte s c b a : Cut s [c] = Some (b, a) ↔ s = b ++ c :: a ∧ c ∉ b.
Proof.
  revert b. induction s as [|x s IH]; intros b; cbn.
  - split; [done|]. intros [E _]. by destruct b.
  - destruct (Z.eqb_spec c x) as [->|Hne].
    + split; [intros [= <- <-]; split; [done|set_solver]|]. intros [E Hb]. destruct b as [|y b]; [by injection E as ->|].
      injection E as <- _. set_solver.
    + destruct (Cut s [c]) as [[b' a']|] eqn:Hc; cbn.
      * pose proof (proj1 (IH b')) as Hi. split.
        -- intros [= <- <-]. destruct (Hi eq_refl) as [-> Hb]. split; [done|set_solver].
        -- intros [E Hb]. destruct b as [|y b]; [by injection E as ->|]. injection E as <- E.
           specialize (proj2 (IH b)). intros Hj. rewrite E in *. assert (Some (b', a') = Some (b, a)) as [= -> ->]; [|done].
           apply Hj. split; [done|set_solver].
      * split; [done|]. intros [E Hb]. destruct b as [|y b]; [by injection E as ->|]. injection E as <- E.
        assert (None = Some (b, a)) as [=]. apply IH. split; [done|set_solver].
Qed.

Lemma Cut_byte_None s c : Cut s [c] = None ↔ c ∉ s.
Proof.
  split.
  - intros Hc Hin. apply list_elem_of_split_l in Hin as (b & a & -> & Hb).
    by rewrite (proj2 (Cut_byte _ c b a)) in Hc by done.
  - intros Hs. destruct (Cut s [c]) as [[b a]|] eqn:Hc; [|done]. apply Cut_byte in Hc as [-> _]. set_solver.
Qed.

Lemma elem_of_rev {A} (x : A) l : x ∈ rev l ↔ x ∈ l.
Proof. by rewrite !list_elem_of_In, <- in_rev. Qed.

Lemma CutLast_iff s c b a : CutLast s c = Some (b, a) ↔ s = b ++ c :: a ∧ c ∉ a.
Proof.
  unfold CutLast. destruct (Cut (rev s) [c]) as [[r t]|] eqn:Hc; cbn.
  - apply Cut_byte in Hc as [E Hr]. apply (f_equal (@rev Z)) in E. rewrite rev_involutive in E.
    rewrite rev_app_distr in E. cbn in E. rewrite <- app_assoc in E. cbn in E. subst s. split.
    + intros [= <- <-]. split; [done|by rewrite elem_of_rev].
    + intros [E Ha]. apply (f_equal (@rev Z)) in E. rewrite !rev_app_distr in E. cbn in E.
      rewrite <- !app_assoc, !rev_involutive in E. cbn in E.
      assert (Some (r, t) = Some (rev a, rev b)) as [= -> ->]; [|by rewrite !rev_involutive].
      rewrite <- (proj2 (Cut_byte (r ++ c :: t) c r t)) by done.
      apply Cut_byte. split; [done|by rewrite elem_of_rev].
  - split; [done|]. intros [-> _]. apply Cut_byte_None in Hc. rewrite elem_of_rev in Hc. set_solver.
Qed.

Lemma CutLast_None s c : CutLast s c = None ↔ c ∉ s.
Proof.
  unfold CutLast. rewrite <- elem_of_rev. rewrite <- Cut_byte_None. by destruct (Cut (rev s) [c]) as [[]|].
Qed.

(** The text before a separator whose first byte it does not hold. *)
Lemma Cut_head s c sep a : c ∉ s → Cut (s ++ c :: sep ++ a) (c :: sep) = Some (s, a).
Proof.
  induction s as [|x s IH]; intros Hs.
  - cbn [app Cut]. pose proof (strip_prefix_app (c :: sep) a) as E. cbn [app] in E. by rewrite E.
  - cbn. destruct (Z.eqb_spec c x) as [->|]; [set_solver|]. cbn in IH. rewrite IH by set_solver. done.
Qed.

Lemma Cut_Some s sep b a : Cut s sep = Some (b, a) → s = b ++ sep ++ a.
Proof.
  revert b. induction s as [|x s IH]; intros b; cbn [Cut].
  - destruct (strip_prefix sep []) eqn:Hs; [|done]. intros [= <- <-]. exact (strip_prefix_Some _ _ _ Hs).
  - destruct (strip_prefix sep (x :: s)) eqn:Hs; [intros [= <- <-]; exact (strip_prefix_Some _ _ _ Hs)|].
    destruct (Cut s sep) as [[b' a']|]; [|done]. intros [= <- <-]. by rewrite (IH b').
Qed.

Lemma Count_app s t c : Count (s ++ t) c = (Count s c + Count t c)%nat.
Proof. unfold Count. by rewrite filter_app, length_app. Qed.

Lemma Count_0 s c : Count s c = 0%nat ↔ c ∉ s.
Proof.
  unfold Count. rewrite length_zero_iff_nil. split.
  - intros E Hc. assert (c ∈ filter (λ x, x = c) s) as Hf by (by apply list_elem_of_filter). rewrite E in Hf. by apply elem_of_nil in Hf.
  - intros Hc. destruct (filter (λ x, x = c) s) as [|x l] eqn:E; [done|].
    assert (x ∈ filter (λ x, x = c) s) as [-> Hx]%list_elem_of_filter by (rewrite E; by left). done.
Qed.

(** * URLs: Go's [net/url]

    What the repository asks of a parsed URL.  [url.Parse] itself is a parameter: it is
    some function from strings to URLs. *)

(** The exported fields that are read, and the results of [Hostname], [Port], [String]
    and [User != nil]. *)
Record URL := {
  url_Scheme : list Z;
  url_HasUser : bool;
  url_Host : list Z;
  url_Hostname : list Z;
  url_Port : list Z;
  url_Fragment : list Z;
  url_String : list Z }.

Class URLParser := { url_Parse : list Z → option URL }.

(** * [encoding/base64]: [StdEncoding]

    Three bytes are four characters of an alphabet of sixty-four; [=] pads the last
    group.  The decoder skips line ends and refuses everything else. *)

(** The sixty-four characters: [A]-[Z], [a]-[z], [0]-[9], [+], [/]. *)
Definition b64_char (d : Z) : Z :=
  if d <? 26 then 65 + d else if d <? 52 then 71 + d else if d <? 62 then d - 4
  else if d =? 62 then 43 else 47.
Definition b64_digit (c : Z) : option Z :=
  if (65 <=? c) && (c <=? 90) then Some (c - 65)
  else if (97 <=? c) && (c <=? 122) then Some (c - 71)
  else if (48 <=? c) && (c <=? 57) then Some (c + 4)
  else if c =? 43 then Some 62 else if c =? 47 then Some 63 else None.
Definition b64_pad : Z := 61.

Fixpoint b64_EncodeToString (bs : list Z) : list Z :=
  match bs with
  | [] => []
  | [a] => [b64_char (a / 4); b64_char (a mod 4 * 16); b64_pad; b64_pad]
  | [a; b] => [b64_char (a / 4); b64_char (a mod 4 * 16 + b / 16); b64_char (b mod 16 * 4); b64_pad]
  | a :: b :: c :: bs =>
      b64_char (a / 4) :: b64_char (a mod 4 * 16 + b / 16) ::
      b64_char (b mod 16 * 4 + c / 64) :: b64_char (c mod 64) :: b64_EncodeToString bs
  end.

(** A group of four characters; the bits that padding leaves over are not looked at. *)
Fixpoint b64_quanta (s : list Z) : option (list Z) :=
  match s with
  | [] => Some []
  | w :: x :: y :: z :: s =>
      p ← b64_digit w; q ← b64_digit x;
      let first := p * 4 + q / 16 in
      if y =? b64_pad then if (z =? b64_pad) && (length s =? 0)%nat then Some [first] else None
      else r ← b64_digit y;
           let second := q mod 16 * 16 + r / 4 in
           if z =? b64_pad then if (length s =? 0)%nat then Some [first; second] else None
           else t ← b64_digit z; bs ← b64_quanta s; Some (first :: second :: r mod 4 * 64 + t :: bs)
  | _ => None
  end.

Definition b64_DecodeString (s : list Z) : option (list Z) :=
  b64_quanta (filter (λ c, c ≠ 10 ∧ c ≠ 13) s).

(** ** Laws *)

Lemma b64_digit_char d : 0 <= d < 64 → b64_digit (b64_char d) = Some d.
Proof.
  intros Hd. assert (Forall (λ n, b64_digit (b64_char (Z.of_nat n)) = Some (Z.of_nat n)) (seq 0 64)) as Hall
    by (repeat constructor).
  rewrite <- (Z2Nat.id d) by lia. rewrite Forall_forall in Hall. apply Hall, elem_of_seq. lia.
Qed.

Lemma b64_char_plain d : 0 <= d < 64 → b64_char d ≠ 61 ∧ b64_char d ≠ 10 ∧ b64_char d ≠ 13.
Proof.
  intros Hd. assert (Forall (λ n, b64_char (Z.of_nat n) ≠ 61 ∧ b64_char (Z.of_nat n) ≠ 10 ∧ b64_char (Z.of_nat n) ≠ 13)
    (seq 0 64)) as Hall by (repeat constructor; done).
  rewrite <- (Z2Nat.id d) by lia. rewrite Forall_forall in Hall. apply Hall, elem_of_seq. lia.
Qed.

Lemma list_three_ind {A} (P : list A → Prop) : P [] → (∀ a, P [a]) → (∀ a b, P [a; b]) →
  (∀ a b c l, P l → P (a :: b :: c :: l)) → ∀ l, P l.
Proof.
  intros H0 H1 H2 H3. assert (∀ n l, (length l <= n)%nat → P l) as H; [|intros l; by apply (H (length l))].
  induction n as [|n IH]; intros [|a [|b [|c l]]] Hl; cbn in Hl; auto; try lia. apply H3, IH. lia.
Qed.

Ltac base64_digits :=
  unfold is_byte, is_digit in *;
  repeat match goal with
  | |- context [b64_digit (b64_char ?d)] => rewrite (b64_digit_char d) by (Z.to_euclidean_division_equations; lia)
  | |- context [b64_char ?d =? b64_pad] =>
      rewrite (proj2 (Z.eqb_neq (b64_char d) b64_pad))
        by (apply b64_char_plain; Z.to_euclidean_division_equations; lia)
  | _ => progress cbn [mbind option_bind]
  end.

Lemma b64_quanta_encode bs : Forall is_byte bs → b64_quanta (b64_EncodeToString bs) = Some bs.
Proof.
  induction bs as [|a|a b|a b c bs IH] using list_three_ind; intros Hb; [done|..];
    repeat (apply Forall_cons in Hb as [? Hb]); cbn [b64_EncodeToString b64_quanta].
  - base64_digits. cbn. repeat f_equal. Z.to_euclidean_division_equations; lia.
  - base64_digits. cbn. repeat f_equal; Z.to_euclidean_division_equations; lia.
  - base64_digits. rewrite IH by done. cbn. repeat f_equal; Z.to_euclidean_division_equations; lia.
Qed.

Lemma b64_encode_plain bs : Forall is_byte bs → Forall (λ c, c ≠ 10 ∧ c ≠ 13) (b64_EncodeToString bs).
Proof.
  induction bs as [|a|a b|a b c bs IH] using list_three_ind; intros Hb; [constructor|..];
    repeat (apply Forall_cons in Hb as [? Hb]); cbn [b64_EncodeToString]; unfold is_byte, is_digit in *;
    repeat (constructor; [try done; apply b64_char_plain; Z.to_euclidean_division_equations; lia|]); auto.
Qed.

Lemma filter_Forall {A} (P : A → Prop) `{∀ x, Decision (P x)} l : Forall P l → filter P l = l.
Proof. induction 1 as [|x l Hx _ IH]; [done|]. rewrite filter_cons_True by done. by rewrite IH. Qed.

Lemma b64_round_trip bs : Forall is_byte bs → b64_DecodeString (b64_EncodeToString bs) = Some bs.
Proof.
  intros Hb. unfold b64_DecodeString. rewrite filter_Forall by (by apply b64_encode_plain).
  by apply b64_quanta_encode.
Qed.

(** What is decoded is bytes. *)
Lemma b64_digit_range c d : b64_digit c = Some d → 0 <= d < 64.
Proof. unfold b64_digit. repeat case_match; intros [= <-]; lia. Qed.

Lemma b64_quanta_bytes n : ∀ s bs, (length s <= n)%nat → b64_quanta s = Some bs → Forall is_byte bs.
Proof.
  induction n as [|n IH]; intros [|w [|x [|y [|z s]]]] bs Hn; cbn in Hn; try lia; cbn [b64_quanta]; try done;
    [by intros [= <-]..|].
  destruct (b64_digit w) as [p|] eqn:Hp; [|done]. destruct (b64_digit x) as [q|] eqn:Hq; [|done]. cbn [mbind option_bind].
  apply b64_digit_range in Hp, Hq.
  assert (is_byte (p * 4 + q / 16)) as H1 by (unfold is_byte, is_digit; Z.to_euclidean_division_equations; lia).
  destruct (y =? b64_pad); [destruct (_ && _); [|done]; intros [= <-]; by rewrite !Forall_cons, Forall_nil|].
  destruct (b64_digit y) as [r|] eqn:Hr; [|done]. apply b64_digit_range in Hr. cbn [mbind option_bind].
  assert (is_byte (q mod 16 * 16 + r / 4)) as H2 by (unfold is_byte, is_digit; Z.to_euclidean_division_equations; lia).
  destruct (z =? b64_pad); [destruct (_ =? 0)%nat; [|done]; intros [= <-]; by rewrite !Forall_cons, Forall_nil|].
  destruct (b64_digit z) as [t|] eqn:Ht; [|done]. apply b64_digit_range in Ht. cbn [mbind option_bind].
  destruct (b64_quanta s) as [rest|] eqn:Hs; [|done]. cbn [mbind option_bind]. intros [= <-].
  rewrite !Forall_cons. split_and!; [done|done|unfold is_byte, is_digit; Z.to_euclidean_division_equations; lia|].
  apply (IH s); [lia|done].
Qed.

Lemma b64_DecodeString_bytes s bs : b64_DecodeString s = Some bs → Forall is_byte bs.
Proof. intros Hd. exact (b64_quanta_bytes _ _ bs (le_n _) Hd). Qed.
