(* ===== verification/GoError.v ===== *)
(** * Errors and checks

    [errors.New] and [fmt.Errorf] as values: the fixed text of a message, and the labels
    that [%w] wraps around another error.  The packages that only ever return or wrap
    such errors share them. *)
From stdpp Require Import strings.
From S2P Require Import Prelude.
From S2P Require Import GoText.

Inductive go_error :=
| Fail (message : string)
| Wrap (label : string) (e : go_error).
#[export] Instance go_error_eq_dec : EqDecision go_error.
Proof. solve_decision. Defined.

Abbreviation checked := (result go_error unit).

(** [if fails { return errors.New(message) }] *)
Definition check (fails : bool) (message : string) : checked := guard_err fails (Fail message).
(** [if err := m; err != nil { return fmt.Errorf("label: %w", err) }] *)
Definition within {A} (label : string) (m : result go_error A) : result go_error A :=
  map_err (Wrap label) m.

(** [for i, x := range l { if err := f(i, x); err != nil { return err } }] *)
Fixpoint each_from {A} (i : nat) (l : list A) (f : nat → A → checked) : checked :=
  match l with
  | [] => Ok tt
  | x :: l => _ ← f i x; each_from (S i) l f
  end.
Definition each {A} (l : list A) (f : A → checked) : checked := each_from 0 l (λ _, f).

(** The order in which Go ranges over a map is unspecified: some permutation. *)
Class MapOrder := {
  map_order : ∀ {A : Type}, list A → list A;
  map_order_perm : ∀ {A : Type} (l : list A), Permutation (map_order l) l;
}.

(** [a != b] and [strings.TrimSpace(s)] empty, on strings. *)
Definition differs (a b : list Z) : bool := bool_decide (a ≠ b).
Definition blank (s : list Z) : bool := bool_decide (TrimSpace s = []).

(** ** Laws *)

Lemma check_Ok c m u : check c m = Ok u ↔ c = false.
Proof. apply guard_err_Ok. Qed.

Lemma within_Ok {A} label (m : result go_error A) a : within label m = Ok a ↔ m = Ok a.
Proof. destruct m; cbn; naive_solver. Qed.

Lemma bool_decide_neq_false `{EqDecision A} (x y : A) : bool_decide (x ≠ y) = false ↔ x = y.
Proof. rewrite bool_decide_eq_false. destruct (decide (x = y)); naive_solver. Qed.

Lemma differs_false a b : differs a b = false ↔ a = b.
Proof. apply bool_decide_neq_false. Qed.

Lemma Ok_inj {E A} (a b : A) : Ok (E:=E) a = Ok b → a = b.
Proof. by injection 1. Qed.

(** The tests of a validation, where they came out as propositions say. *)
Ltac tests_in :=
  repeat match goal with
  | H : _ || _ = false |- _ => apply orb_false_iff in H as [? ?]
  | H : _ && _ = true |- _ => apply andb_true_iff in H as [? ?]
  | H : negb _ = false |- _ => apply negb_false_iff in H
  | H : negb _ = true |- _ => apply negb_true_iff in H
  | H : bool_decide (_ ≠ _) = false |- _ => apply (proj1 (bool_decide_neq_false _ _)) in H
  | H : bool_decide _ = false |- _ => apply (proj1 (bool_decide_eq_false _)) in H
  | H : bool_decide _ = true |- _ => apply (proj1 (bool_decide_eq_true _)) in H
  | H : differs _ _ = false |- _ => apply (proj1 (differs_false _ _)) in H
  | H : (_ =? _) = true |- _ => apply Z.eqb_eq in H
  | H : (_ =? _) = false |- _ => apply Z.eqb_neq in H
  | H : (_ <? _) = false |- _ => apply Z.ltb_ge in H
  | H : (_ <? _) = true |- _ => apply Z.ltb_lt in H
  | H : (_ =? _)%nat = true |- _ => apply Nat.eqb_eq in H
  | H : (_ =? _)%nat = false |- _ => apply Nat.eqb_neq in H
  | H : (_ <? _)%nat = false |- _ => apply Nat.ltb_ge in H
  end.

(** Run the checks of a validation that succeeded. *)
Ltac inv_checks :=
  repeat match goal with
  | H : mbind _ _ = Ok _ |- _ => apply bind_Ok in H as (? & ? & ?)
  | H : check _ _ = Ok _ |- _ => apply check_Ok in H
  | H : within _ _ = Ok _ |- _ => apply within_Ok in H
  | H : Ok _ = Ok _ |- _ => apply Ok_inj in H
  | x : unit |- _ => destruct x
  end; tests_in; subst.

(** Conversely, reduce a validation to its tests. *)
Ltac tests_out :=
  repeat match goal with
  | |- _ || _ = false => apply orb_false_iff; split
  | |- _ && _ = true => apply andb_true_iff; split
  | |- negb _ = false => apply negb_false_iff
  | |- bool_decide (_ ≠ _) = false => apply (proj2 (bool_decide_neq_false _ _))
  | |- bool_decide _ = false => apply (proj2 (bool_decide_eq_false _))
  | |- bool_decide _ = true => apply (proj2 (bool_decide_eq_true _))
  | |- differs _ _ = false => apply (proj2 (differs_false _ _))
  | |- (_ =? _) = true => apply Z.eqb_eq
  | |- (_ =? _) = false => apply Z.eqb_neq
  | |- (_ <? _) = false => apply Z.ltb_ge
  | |- (_ =? _)%nat = false => apply Nat.eqb_neq
  | |- (_ =? _)%nat = true => apply Nat.eqb_eq
  | |- (_ <? _)%nat = false => apply Nat.ltb_ge
  end.

Ltac pass_checks :=
  repeat match goal with
  | |- mbind _ _ = Ok _ => apply bind_Ok; first [exists tt | eexists]; split
  | |- check _ _ = Ok _ => apply check_Ok; tests_out
  | |- within _ _ = Ok _ => apply within_Ok
  end.

Lemma bind_unit (m k : checked) : (m ≫= λ _, k) = Ok tt ↔ m = Ok tt ∧ k = Ok tt.
Proof. destruct m as [[]|]; cbn; naive_solver. Qed.

Lemma check_tt c m : check c m = Ok tt ↔ c = false.
Proof. apply check_Ok. Qed.

Lemma within_tt label (m : checked) : within label m = Ok tt ↔ m = Ok tt.
Proof. apply within_Ok. Qed.

Create Rewrite HintDb checks.
#[export] Hint Rewrite bind_unit check_tt within_tt : checks.

(** ** Loops of checks *)

Lemma each_from_Ok {A} (l : list A) f : ∀ i, each_from i l f = Ok tt ↔
  ∀ k x, l !! k = Some x → f (i + k)%nat x = Ok tt.
Proof.
  induction l as [|x l IH]; intros i; cbn [each_from]; [done|]. rewrite bind_unit, IH. split.
  - intros [Hx Hl] [|k] y Hy; [injection Hy as <-; by rewrite Nat.add_0_r|].
    rewrite <- Nat.add_succ_comm. by apply Hl.
  - intros Hl. split; [rewrite <- (Nat.add_0_r i); by apply Hl|].
    intros k y Hy. rewrite Nat.add_succ_comm. by apply Hl.
Qed.
