(* ===== verification/Sha256.v ===== *)
(** * SHA-256 on byte strings

    What the Go standard library's [crypto/sha256] computes (FIPS 180-4).  The MPC
    ceremony packages of the repository identify every record by it. *)
From S2P Require Import Prelude.

(** ** Words modulo [2^32] (FIPS 180-4, 2.2.2 and 4.1.2) *)

Definition w32 (x : Z) : Z := x mod 2 ^ 32.
Definition rotr32 (n : Z) (x : Z) : Z := Z.lor (Z.shiftr x n) (w32 (Z.shiftl x (32 - n))).

Definition Ch256 (x y z : Z) : Z := Z.lxor (Z.land x y) (Z.land (Z.lxor x (2 ^ 32 - 1)) z).
Definition Maj256 (x y z : Z) : Z := Z.lxor (Z.land x y) (Z.lxor (Z.land x z) (Z.land y z)).
Definition bigSigma0_256 (x : Z) : Z := Z.lxor (rotr32 2 x) (Z.lxor (rotr32 13 x) (rotr32 22 x)).
Definition bigSigma1_256 (x : Z) : Z := Z.lxor (rotr32 6 x) (Z.lxor (rotr32 11 x) (rotr32 25 x)).
Definition smallSigma0_256 (x : Z) : Z :=
  Z.lxor (rotr32 7 x) (Z.lxor (rotr32 18 x) (Z.shiftr x 3)).
Definition smallSigma1_256 (x : Z) : Z :=
  Z.lxor (rotr32 17 x) (Z.lxor (rotr32 19 x) (Z.shiftr x 10)).

(** ** Constants (FIPS 180-4, 4.2.2 and 5.3.3) *)

(** The largest [r < 2^bits] with [r ^ k <= n], a bit at a time from the top. *)
Fixpoint integer_root (bits : nat) (k n r : Z) : Z :=
  match bits with
  | O => r
  | S bits => let r' := Z.setbit r (Z.of_nat bits) in
              integer_root bits k n (if r' ^ k <=? n then r' else r)
  end.

(** The first 32 bits of the fractional part of the [k]-th root of [p]. *)
Definition root_fraction (k p : Z) : Z := w32 (integer_root 37 k (p * 2 ^ (32 * k)) 0).

Definition is_prime (p : Z) : bool :=
  forallb (λ d, negb (p mod Z.of_nat d =? 0)) (seq 2 (Z.to_nat p - 2)).
Definition primes_to_311 : list Z :=
  Eval vm_compute in filter (λ p, is_prime p = true) (Z.of_nat <$> seq 2 310).

(** Cube roots of the first sixty-four primes, square roots of the first eight. *)
Definition K256 : list Z := Eval vm_compute in root_fraction 3 <$> primes_to_311.
Definition seed256 : list Z := Eval vm_compute in root_fraction 2 <$> take 8 primes_to_311.

(** ** The compression function (FIPS 180-4, 6.2.2) *)

Definition schedule256_step (i : nat) (w : list Z) : list Z :=
  w ++ [w32 (smallSigma1_256 (w !!! (i - 2)%nat) + w !!! (i - 7)%nat +
             smallSigma0_256 (w !!! (i - 15)%nat) + w !!! (i - 16)%nat)].

(** Sixteen big-endian words of the block, extended to sixty-four. *)
Definition schedule256 (block : list Z) : list Z :=
  loop_range 16 48 schedule256_step
    ((λ i, be_val (take 4 (drop (4 * i) block))) <$> seq 0 16).

(** One round on the working variables [a] to [h]. *)
Definition round256 (w : list Z) (i : nat) (r : list Z) : list Z :=
  match r with
  | [a; b; c; d; e; f; g; h] =>
      let t1 := h + bigSigma1_256 e + Ch256 e f g + K256 !!! i + w !!! i in
      let t2 := bigSigma0_256 a + Maj256 a b c in
      [w32 (t1 + t2); a; b; c; w32 (d + t1); e; f; g]
  | _ => r
  end.

Definition compress256 (h : list Z) (block : list Z) : list Z :=
  let w := schedule256 block in
  zip_with (λ x y, w32 (x + y)) h (loop_range 0 64 (round256 w) h).

(** ** Padding and the hash (FIPS 180-4, 5.1.1 and 6.2) *)

Definition pad256_tail (bytesLen : nat) : list Z :=
  let r := (bytesLen `mod` 64)%nat in
  let zeros := if (r <=? 55)%nat then (55 - r)%nat else (119 - r)%nat in
  [0x80] ++ replicate zeros 0 ++ be_bytes 8 (8 * Z.of_nat bytesLen).

Definition hash256_padded (data : list Z) : list Z :=
  concat (be_bytes 4 <$>
    loop_range 0 (length data / 64) (λ i h, compress256 h (take 64 (drop (i * 64) data))) seed256).

(** [sha256.Sum256] *)
Definition sha256_Sum256 (msg : list Z) : list Z := hash256_padded (msg ++ pad256_tail (length msg)).

(** Known answer (FIPS 180-4 example "abc"). *)
Example sha256_abc : sha256_Sum256 [0x61; 0x62; 0x63] = be_bytes 32
  0xba7816bf8f01cfea414140de5dae2223b00361a396177a9cb410ff61f20015ad.
Proof. vm_compute. reflexivity. Qed.

(** ** The digest is 32 bytes *)

Lemma length_round256 w i r : length r = 8%nat → length (round256 w i r) = 8%nat.
Proof. intros Hr. by destruct r as [|? [|? [|? [|? [|? [|? [|? [|? [|]]]]]]]]]. Qed.

Lemma length_compress256 h block : length h = 8%nat → length (compress256 h block) = 8%nat.
Proof.
  intros Hh. unfold compress256. rewrite length_zip_with, Hh.
  enough (length (loop_range 0 64 (round256 (schedule256 block)) h) = 8%nat) as -> by done.
  apply (loop_range_ind (λ _ r, length r = 8%nat)); [done|].
  intros i r _ Hr. by apply length_round256.
Qed.

Lemma length_sha256 msg : length (sha256_Sum256 msg) = 32%nat.
Proof.
  unfold sha256_Sum256, hash256_padded.
  match goal with |- context [loop_range 0 ?n ?f seed256] =>
    assert (length (loop_range 0 n f seed256) = 8%nat) as Hl;
    [apply (loop_range_ind (λ _ h, length h = 8%nat)); [done|]; intros; by apply length_compress256|];
    generalize dependent (loop_range 0 n f seed256)
  end.
  intros l Hl. by destruct l as [|? [|? [|? [|? [|? [|? [|? [|? [|]]]]]]]]].
Qed.

Lemma sha256_bytes msg : Forall is_byte (sha256_Sum256 msg).
Proof.
  unfold sha256_Sum256, hash256_padded. apply Forall_concat, Forall_fmap, Forall_forall.
  intros z _. apply be_bytes_are_bytes.
Qed.

(** The digest is never computed by unification. *)
#[global] Opaque sha256_Sum256.
