(* ===== verification/GoTime.v ===== *)
(** * Instants and RFC 3339 timestamps: Go's [time]

    The part of [time] the ceremony records use: [Parse] and [Format] with the layout
    [RFC3339Nano] on timestamps in UTC, [Unix], and the comparisons of instants. *)
From Stdlib Require Import String.
From S2P Require Import Prelude.
From S2P Require Import GoText.

(** ** Instants *)

(** [time.Time]: seconds since January 1 of year 1 (an [int64]) and nanoseconds. *)
Record Time := { t_sec : Z; t_nsec : Z }.
#[export] Instance Time_eq_dec : EqDecision Time.
Proof. solve_decision. Defined.

Definition zero_Time : Time := {| t_sec := 0; t_nsec := 0 |}.

Definition time_After (t u : Time) : bool :=
  (t_sec u <? t_sec t) || ((t_sec t =? t_sec u) && (t_nsec u <? t_nsec t)).
Definition time_Before (t u : Time) : bool := time_After u t.
Definition time_Equal (t u : Time) : bool := (t_sec t =? t_sec u) && (t_nsec t =? t_nsec u).

(** Seconds from year 1 to the Unix epoch; [time.Unix] adds them to an [int64]. *)
Definition unixToInternal : Z := 62135596800.
Definition time_Unix (sec : Z) : Time := {| t_sec := i64 (sec + unixToInternal); t_nsec := 0 |}.

(** [t.Sub(u)]: a [Duration] in nanoseconds, saturated to an [int64]. *)
Definition time_Sub (t u : Time) : Z :=
  let d := (t_sec t - t_sec u) * 10 ^ 9 + (t_nsec t - t_nsec u) in
  Z.max (- 2 ^ 63) (Z.min d (2 ^ 63 - 1)).

(** ** Civil dates *)

Record civil := { c_year : Z; c_month : Z; c_day : Z; c_hour : Z; c_min : Z; c_sec : Z; c_nsec : Z }.
#[export] Instance civil_eq_dec : EqDecision civil.
Proof. solve_decision. Defined.

Definition leap_year (y : Z) : bool :=
  (y mod 4 =? 0) && (negb (y mod 100 =? 0) || (y mod 400 =? 0)).

Definition days_in_month (y m : Z) : Z :=
  if m =? 2 then if leap_year y then 29 else 28
  else if (m =? 4) || (m =? 6) || (m =? 9) || (m =? 11) then 30 else 31.

Definition valid_civil (c : civil) : bool :=
  (0 <=? c_year c) && (c_year c <=? 9999) && (1 <=? c_month c) && (c_month c <=? 12) &&
  (1 <=? c_day c) && (c_day c <=? days_in_month (c_year c) (c_month c)) &&
  (0 <=? c_hour c) && (c_hour c <? 24) && (0 <=? c_min c) && (c_min c <? 60) &&
  (0 <=? c_sec c) && (c_sec c <? 60) && (0 <=? c_nsec c) && (c_nsec c <? 10 ^ 9).

(** Days from January 1 of year 1 to January 1 of [y] (proleptic Gregorian). *)
Definition days_before_year (y : Z) : Z :=
  365 * (y - 1) + (y - 1) / 4 - (y - 1) / 100 + (y - 1) / 400.

Definition days_before_month (y m : Z) : Z :=
  foldr (λ k acc, days_in_month y (Z.of_nat k) + acc) 0 (seq 1 (Z.to_nat (m - 1))).

Definition civil_days (c : civil) : Z :=
  days_before_year (c_year c) + days_before_month (c_year c) (c_month c) + (c_day c - 1).

Definition civil_Time (c : civil) : Time :=
  {| t_sec := ((civil_days c * 24 + c_hour c) * 60 + c_min c) * 60 + c_sec c; t_nsec := c_nsec c |}.

(** ** RFC 3339 with nanoseconds *)

(** Exactly [n] decimal digits. *)
Fixpoint read_digits (n : nat) (acc : Z) (s : list Z) : option (Z * list Z) :=
  match n, s with
  | O, _ => Some (acc, s)
  | S n, c :: s => if (48 <=? c) && (c <=? 57) then read_digits n (10 * acc + (c - 48)) s else None
  | S _, [] => None
  end.

Definition expect (c : Z) (s : list Z) : option (list Z) :=
  match s with d :: s => if d =? c then Some s else None | [] => None end.

(** The longest prefix of decimal digits. *)
Fixpoint span_digits (s : list Z) : list Z * list Z :=
  match s with
  | c :: s' => if (48 <=? c) && (c <=? 57) then let '(ds, r) := span_digits s' in (c - 48 :: ds, r)
               else ([], s)
  | [] => ([], [])
  end.

(** An optional fraction of one to nine digits, in nanoseconds. *)
Definition read_fraction (s : list Z) : option (Z * list Z) :=
  match s with
  | 46 :: s =>
      let '(ds, r) := span_digits s in
      if (1 <=? length ds)%nat && (length ds <=? 9)%nat
      then Some (digits_val 10 (rev (ds ++ replicate (9 - length ds) 0)), r) else None
  | _ => Some (0, s)
  end.

(** [time.Parse(time.RFC3339Nano, s)] of a timestamp with the suffix [Z].  The forms
    [Parse] takes beyond this grammar (a comma before the fraction, an hour of one
    digit, a fraction longer than nine digits) are not reproduced by [Format], so the
    canonical form required of every record excludes them as well. *)
Definition time_Parse (s : list Z) : option civil :=
  '(y, s) ← read_digits 4 0 s; s ← expect 45 s;
  '(mo, s) ← read_digits 2 0 s; s ← expect 45 s;
  '(d, s) ← read_digits 2 0 s; s ← expect 84 s;
  '(h, s) ← read_digits 2 0 s; s ← expect 58 s;
  '(mi, s) ← read_digits 2 0 s; s ← expect 58 s;
  '(se, s) ← read_digits 2 0 s;
  '(ns, s) ← read_fraction s;
  s ← expect 90 s;
  let c := {| c_year := y; c_month := mo; c_day := d; c_hour := h; c_min := mi; c_sec := se;
              c_nsec := ns |} in
  if valid_civil c && bool_decide (s = []) then Some c else None.

(** [n] decimal digits of [x], most significant first. *)
Definition pad_digits (n : nat) (x : Z) : list Z := digit_char <$> rev (digits 10 n x).

Fixpoint drop_zeros (s : list Z) : list Z :=
  match s with 0 :: s => drop_zeros s | _ => s end.

(** [.999999999]: trailing zeros are removed, and a zero fraction is not printed. *)
Definition format_fraction (ns : Z) : list Z :=
  if ns =? 0 then [] else 46 :: (digit_char <$> rev (drop_zeros (digits 10 9 ns))).

(** [t.Format(time.RFC3339Nano)] of an instant in UTC, given by its civil fields. *)
Definition time_Format (c : civil) : list Z :=
  pad_digits 4 (c_year c) ++ [45] ++ pad_digits 2 (c_month c) ++ [45] ++ pad_digits 2 (c_day c) ++
  [84] ++ pad_digits 2 (c_hour c) ++ [58] ++ pad_digits 2 (c_min c) ++ [58] ++
  pad_digits 2 (c_sec c) ++ format_fraction (c_nsec c) ++ [90].

(** The instant of a timestamp already validated: [t, _ := time.Parse(...)]. *)
Definition time_of (s : list Z) : Time := from_option civil_Time zero_Time (time_Parse s).

Example parse_genesis :
  time_of (str "2023-08-23T15:09:27Z") = time_Unix 1692803367.
Proof. vm_compute. reflexivity. Qed.

Example parse_fraction :
  (c_nsec <$> time_Parse (str "2026-02-28T23:59:59.0405Z")) = Some 40500000.
Proof. vm_compute. reflexivity. Qed.

Example parse_bad_day : time_Parse (str "2026-02-29T00:00:00Z") = None.
Proof. vm_compute. reflexivity. Qed.

(** ** RFC 3339 as [Parse] takes it *)

Definition is_dec (c : Z) : bool := (48 <=? c) && (c <=? 57).

(** [getnum]: two digits, or one when the layout does not fix two. *)
Definition getnum (fixed : bool) (s : list Z) : option (Z * list Z) :=
  match s with
  | c :: s' =>
      if is_dec c then
        match s' with
        | d :: s'' => if is_dec d then Some (10 * (c - 48) + (d - 48), s'')
                      else if fixed then None else Some (c - 48, s')
        | [] => if fixed then None else Some (c - 48, s')
        end
      else None
  | [] => None
  end.

(** A fraction of a second, after a period or a comma, of any number of digits. *)
Definition skip_fraction (s : list Z) : list Z :=
  match s with
  | c :: (d :: _) as s' => if ((c =? 46) || (c =? 44)) && is_dec d then (span_digits s').2 else s
  | _ => s
  end.

(** [Z], or a numeric offset of up to 24 hours and 60 minutes. *)
Definition skip_zone (s : list Z) : option (list Z) :=
  match s with
  | 90 :: s => Some s
  | sign :: s =>
      '(hh, s) ← getnum true s; s ← expect 58 s; '(mm, s) ← getnum true s;
      if ((sign =? 43) || (sign =? 45)) && (hh <=? 24) && (mm <=? 60) then Some s else None
  | [] => None
  end.

(** [time.Parse(time.RFC3339, s)]: the fields it reads, without fraction and zone. *)
Definition parse_RFC3339 (s : list Z) : option civil :=
  '(y, s) ← read_digits 4 0 s; s ← expect 45 s;
  '(mo, s) ← getnum true s; s ← expect 45 s;
  '(d, s) ← getnum true s; s ← expect 84 s;
  '(h, s) ← getnum false s; s ← expect 58 s;
  '(mi, s) ← getnum true s; s ← expect 58 s;
  '(se, s) ← getnum true s;
  s ← skip_zone (skip_fraction s);
  let c := {| c_year := y; c_month := mo; c_day := d; c_hour := h; c_min := mi; c_sec := se; c_nsec := 0 |} in
  if valid_civil c && bool_decide (s = []) then Some c else None.

(** Whether [_, err := time.Parse(time.RFC3339, s)] has no error. *)
Definition RFC3339_parses (s : list Z) : bool := bool_decide (is_Some (parse_RFC3339 s)).

(** [t.Format(time.RFC3339)] of an instant in UTC. *)
Definition format_RFC3339 (c : civil) : list Z :=
  time_Format {| c_year := c_year c; c_month := c_month c; c_day := c_day c; c_hour := c_hour c;
                 c_min := c_min c; c_sec := c_sec c; c_nsec := 0 |}.

Example rfc3339_offset : RFC3339_parses (str "2024-02-29T7:05:09,25-23:60") = true.
Proof. vm_compute. reflexivity. Qed.
Example rfc3339_no_zone : RFC3339_parses (str "2024-02-29T07:05:09") = false.
Proof. vm_compute. reflexivity. Qed.
Example rfc3339_no_day : RFC3339_parses (str "2023-02-29T07:05:09Z") = false.
Proof. vm_compute. reflexivity. Qed.

(** ** [Parse] inverts [Format] *)

Lemma digit_char_dec d : 0 <= d < 10 →
  digit_char d = 48 + d ∧ (48 <=? 48 + d) && (48 + d <=? 57) = true.
Proof.
  intros Hd. unfold digit_char. rewrite (proj2 (Z.ltb_lt d 10)) by lia.
  split; [done|]. apply andb_true_intro. split; apply Z.leb_le; lia.
Qed.

Lemma read_digits_chars ds acc s : Forall (is_digit 10) ds →
  read_digits (length ds) acc ((digit_char <$> ds) ++ s) =
    Some (10 ^ Z.of_nat (length ds) * acc + digits_val 10 (rev ds), s).
Proof.
  intros Hds. revert acc. induction Hds as [|d ds Hd _ IH]; intros acc; [cbn; do 2 f_equal; lia|].
  unfold is_digit in Hd. destruct (digit_char_dec d Hd) as [Hc Ht].
  cbn [length fmap list_fmap app read_digits]. rewrite Hc, Ht.
  replace (10 * acc + (48 + d - 48)) with (10 * acc + d) by lia. fold (fmap (M:=list) digit_char ds).
  rewrite IH. do 2 f_equal. cbn [rev]. rewrite digits_val_app, length_rev. cbn [digits_val].
  rewrite Nat2Z.inj_succ, Z.pow_succ_r by lia. ring.
Qed.

Lemma read_pad_digits n x s : 0 <= x < 10 ^ Z.of_nat n →
  read_digits n 0 (pad_digits n x ++ s) = Some (x, s).
Proof.
  intros Hx. unfold pad_digits.
  pose proof (read_digits_chars (rev (digits 10 n x)) 0 s
    (Forall_rev (digits_are_digits 10 ltac:(lia) n x))) as Hr.
  rewrite length_rev, length_digits, rev_involutive, Z.mul_0_r, Z.add_0_l in Hr.
  rewrite Hr, digits_val_digits, Z.mod_small by lia. done.
Qed.

Lemma span_digits_chars ds s : Forall (is_digit 10) ds →
  (∀ c, head s = Some c → (48 <=? c) && (c <=? 57) = false) →
  span_digits ((digit_char <$> ds) ++ s) = (ds, s).
Proof.
  intros Hds Hs. induction Hds as [|d ds Hd _ IH].
  { cbn. destruct s as [|c s]; [done|]. cbn. by rewrite (Hs c eq_refl). }
  unfold is_digit in Hd. destruct (digit_char_dec d Hd) as [Hc Ht].
  cbn [fmap list_fmap app span_digits]. rewrite Hc, Ht. fold (fmap (M:=list) digit_char ds).
  rewrite IH. do 2 f_equal. lia.
Qed.

Lemma drop_zeros_spec ds : ∃ k, ds = replicate k 0 ++ drop_zeros ds.
Proof.
  induction ds as [|d ds [k IH]]; [by exists 0%nat|].
  destruct (decide (d = 0)) as [->|Hd]; cbn.
  - exists (S k). cbn. by rewrite <- IH.
  - exists 0%nat. destruct d; done.
Qed.

Lemma drop_zeros_nonempty ds : digits_val 10 ds ≠ 0 → drop_zeros ds ≠ [].
Proof.
  intros Hv Hn. destruct (drop_zeros_spec ds) as [k Hk]. rewrite Hn, app_nil_r in Hk.
  apply Hv. rewrite Hk. clear. induction k; cbn; lia.
Qed.

Lemma read_format_fraction ns s : 0 <= ns < 10 ^ 9 → head s = Some 90 →
  read_fraction (format_fraction ns ++ s) = Some (ns, s).
Proof.
  intros Hns Hs. unfold format_fraction. destruct (Z.eqb_spec ns 0) as [->|Hnz].
  { destruct s as [|c s]; simplify_eq/=. done. }
  pose proof (length_digits 10 9 ns) as Hl.
  pose proof (digits_are_digits 10 ltac:(lia) 9 ns) as Hd.
  pose proof (digits_val_digits 10 ltac:(lia) 9 ns) as Hv. rewrite Z.mod_small in Hv by lia.
  generalize dependent (digits 10 9 ns). intros ds Hl Hd Hv.
  destruct (drop_zeros_spec ds) as [k Hk].
  assert (drop_zeros ds ≠ []) as Hne by (apply drop_zeros_nonempty; congruence).
  assert (Forall (is_digit 10) (rev (drop_zeros ds))) as Hdz.
  { apply Forall_rev. rewrite Hk in Hd. by apply Forall_app in Hd as [_ Hd]. }
  pose proof (f_equal length Hk) as Hlk. rewrite length_app, length_replicate, Hl in Hlk.
  change (format_fraction ns) with (format_fraction ns).
  cbn [app read_fraction]. rewrite span_digits_chars; [|done|].
  2:{ intros c Hc. rewrite Hs in Hc. by injection Hc as <-. }
  rewrite length_rev.
  assert (length (drop_zeros ds) ≠ 0%nat) by (destruct (drop_zeros ds); cbn; [done|lia]).
  rewrite (proj2 (Nat.leb_le 1 _)), (proj2 (Nat.leb_le _ 9)) by lia. cbn [andb].
  do 2 f_equal. rewrite rev_app_distr, rev_involutive.
  replace (9 - length (drop_zeros ds))%nat with k by lia.
  assert (rev (replicate k 0) = replicate k 0) as ->.
  { clear. induction k as [|k IH]; [done|]. cbn [replicate rev]. rewrite IH.
    by rewrite <- replicate_S_end. }
  by rewrite <- Hk.
Qed.

(** The guards of a valid civil time as inequalities. *)
Lemma valid_civil_bounds c : valid_civil c = true →
  0 <= c_year c <= 9999 ∧ 1 <= c_month c <= 12 ∧
  1 <= c_day c <= days_in_month (c_year c) (c_month c) ∧
  0 <= c_hour c < 24 ∧ 0 <= c_min c < 60 ∧ 0 <= c_sec c < 60 ∧ 0 <= c_nsec c < 10 ^ 9.
Proof. unfold valid_civil. rewrite !Bool.andb_true_iff, !Z.leb_le, !Z.ltb_lt. lia. Qed.

Lemma days_in_month_range y m : 28 <= days_in_month y m <= 31.
Proof. unfold days_in_month. repeat case_match; lia. Qed.

Lemma time_Parse_Format c : valid_civil c = true → time_Parse (time_Format c) = Some c.
Proof.
  intros Hv. pose proof (valid_civil_bounds c Hv) as Hb.
  pose proof (days_in_month_range (c_year c) (c_month c)).
  unfold time_Parse, time_Format.
  rewrite read_pad_digits by (cbn; lia). cbn [mbind option_bind expect app Z.eqb Pos.eqb].
  do 3 (rewrite read_pad_digits by (cbn; lia); cbn [mbind option_bind expect app Z.eqb Pos.eqb]).
  do 2 (rewrite read_pad_digits by (cbn; lia); cbn [mbind option_bind expect app Z.eqb Pos.eqb]).
  rewrite read_format_fraction by (cbn; first [lia|done]).
  cbn [mbind option_bind expect app Z.eqb Pos.eqb].
  assert ({| c_year := c_year c; c_month := c_month c; c_day := c_day c; c_hour := c_hour c;
    c_min := c_min c; c_sec := c_sec c; c_nsec := c_nsec c |} = c) as -> by (by destruct c).
  by rewrite Hv.
Qed.

Lemma getnum_read fixed s x rest : read_digits 2 0 s = Some (x, rest) → getnum fixed s = Some (x, rest).
Proof.
  destruct s as [|a [|b s]]; cbn [read_digits getnum]; unfold is_dec; try done.
  - by destruct (_ && _).
  - cbv zeta. destruct ((48 <=? a) && (a <=? 57)); [|done]. destruct ((48 <=? b) && (b <=? 57)); [|done].
    by rewrite Z.mul_0_r, Z.add_0_l.
Qed.

(** The timestamp of a valid instant parses. *)
Lemma format_RFC3339_parses c : valid_civil c = true → RFC3339_parses (format_RFC3339 c) = true.
Proof.
  intros Hv. pose proof (valid_civil_bounds c Hv) as Hb.
  pose proof (days_in_month_range (c_year c) (c_month c)).
  apply bool_decide_eq_true. unfold parse_RFC3339, format_RFC3339, time_Format.
  cbn [c_year c_month c_day c_hour c_min c_sec c_nsec].
  rewrite read_pad_digits by (cbn; lia). cbn [mbind option_bind expect app Z.eqb Pos.eqb].
  do 5 (erewrite getnum_read by (apply read_pad_digits; cbn; lia); cbn [mbind option_bind expect app Z.eqb Pos.eqb]).
  cbn [format_fraction skip_fraction skip_zone app mbind option_bind Z.eqb Pos.eqb orb andb].
  eexists. rewrite bool_decide_eq_true_2, andb_true_r by done.
  enough (valid_civil {| c_year := c_year c; c_month := c_month c; c_day := c_day c; c_hour := c_hour c;
    c_min := c_min c; c_sec := c_sec c; c_nsec := 0 |} = true) as -> by reflexivity.
  unfold valid_civil in *. cbn [c_year c_month c_day c_hour c_min c_sec c_nsec].
  rewrite !andb_true_iff in *. naive_solver.
Qed.

Lemma time_Parse_valid s c : time_Parse s = Some c → valid_civil c = true.
Proof.
  unfold time_Parse. intros Hp.
  repeat match type of Hp with
  | mbind _ _ = Some _ => apply bind_Some in Hp as (? & _ & Hp)
  | context [let '(_, _) := ?x in _] => destruct x
  end.
  destruct (valid_civil _) eqn:Hv; [|discriminate Hp]. cbn [andb] in Hp. case_match; by simplify_eq.
Qed.

Lemma time_Format_inj c d : valid_civil c = true → valid_civil d = true →
  time_Format c = time_Format d → c = d.
Proof.
  intros Hc Hd He. apply (f_equal time_Parse) in He.
  rewrite !time_Parse_Format in He by done. by injection He.
Qed.

(** ** Distinct civil times are distinct instants *)

Lemma days_before_year_step y : days_before_year y + (if leap_year y then 366 else 365) =
  days_before_year (y + 1).
Proof.
  unfold days_before_year, leap_year. replace (y + 1 - 1) with y by lia.
  pose proof (Z.div_mod y 4). pose proof (Z.div_mod (y - 1) 4).
  pose proof (Z.div_mod y 100). pose proof (Z.div_mod (y - 1) 100).
  pose proof (Z.div_mod y 400). pose proof (Z.div_mod (y - 1) 400).
  pose proof (Z.mod_pos_bound y 4). pose proof (Z.mod_pos_bound (y - 1) 4).
  pose proof (Z.mod_pos_bound y 100). pose proof (Z.mod_pos_bound (y - 1) 100).
  pose proof (Z.mod_pos_bound y 400). pose proof (Z.mod_pos_bound (y - 1) 400).
  destruct (Z.eqb_spec (y mod 4) 0), (Z.eqb_spec (y mod 100) 0), (Z.eqb_spec (y mod 400) 0);
    cbn [andb orb negb]; lia.
Qed.

Lemma days_before_year_mono y z : y <= z → days_before_year y <= days_before_year z.
Proof.
  intros. unfold days_before_year.
  pose proof (Z.div_le_mono (y - 1) (z - 1) 4). pose proof (Z.div_le_mono (y - 1) (z - 1) 400).
  pose proof (Z.div_mod (y - 1) 100). pose proof (Z.div_mod (z - 1) 100).
  pose proof (Z.mod_pos_bound (y - 1) 100). pose proof (Z.mod_pos_bound (z - 1) 100). lia.
Qed.

(** Evaluate the month table once the month and the leap test are known. *)
Ltac eval_months :=
  repeat match goal with
  | |- context [foldr ?f 0 (seq ?a ?n)] =>
      let v := eval vm_compute in (foldr f 0 (seq a n)) in change (foldr f 0 (seq a n)) with v
  | H : context [foldr ?f 0 (seq ?a ?n)] |- _ =>
      let v := eval vm_compute in (foldr f 0 (seq a n)) in change (foldr f 0 (seq a n)) with v in H
  end; cbn in *.

(** A valid date lies within its year, and its month within the year. *)
Lemma day_of_year_bounds y m d : 1 <= m <= 12 → 1 <= d <= days_in_month y m →
  0 <= days_before_month y m + (d - 1) < (if leap_year y then 366 else 365).
Proof.
  intros Hm Hd. assert (m ∈ ([1; 2; 3; 4; 5; 6; 7; 8; 9; 10; 11; 12] : list Z)) as Hin.
  { rewrite !elem_of_cons. lia. }
  rewrite !elem_of_cons, elem_of_nil in Hin.
  unfold days_before_month, days_in_month in *.
  destruct (leap_year y); repeat destruct Hin as [->|Hin]; try done; eval_months; lia.
Qed.

Lemma day_of_year_inj y m d m' d' : 1 <= m <= 12 → 1 <= d <= days_in_month y m →
  1 <= m' <= 12 → 1 <= d' <= days_in_month y m' →
  days_before_month y m + (d - 1) = days_before_month y m' + (d' - 1) → m = m' ∧ d = d'.
Proof.
  intros Hm Hd Hm' Hd' He.
  assert (∀ k, 1 <= k <= 12 → k ∈ ([1; 2; 3; 4; 5; 6; 7; 8; 9; 10; 11; 12] : list Z)) as Hin.
  { intros k Hk. rewrite !elem_of_cons. lia. }
  pose proof (Hin m Hm) as H1. pose proof (Hin m' Hm') as H2. clear Hin.
  rewrite !elem_of_cons, elem_of_nil in H1, H2.
  unfold days_before_month, days_in_month in *.
  destruct (leap_year y);
    repeat destruct H1 as [->|H1]; try done; repeat destruct H2 as [->|H2]; try done;
    eval_months; lia.
Qed.

Lemma civil_Time_inj c d : valid_civil c = true → valid_civil d = true →
  civil_Time c = civil_Time d → c = d.
Proof.
  intros Hc%valid_civil_bounds Hd%valid_civil_bounds He.
  unfold civil_Time in He. injection He as He Hn.
  assert (civil_days c = civil_days d ∧ c_hour c = c_hour d ∧ c_min c = c_min d ∧
    c_sec c = c_sec d) as (Hday & ? & ? & ?) by lia.
  unfold civil_days in Hday.
  pose proof (day_of_year_bounds (c_year c) (c_month c) (c_day c)) as B1.
  pose proof (day_of_year_bounds (c_year d) (c_month d) (c_day d)) as B2.
  pose proof (days_before_year_step (c_year c)) as S1.
  pose proof (days_before_year_step (c_year d)) as S2.
  assert (c_year c = c_year d) as Hy.
  { destruct (Z.lt_trichotomy (c_year c) (c_year d)) as [Hlt|[|Hlt]]; [|done|].
    - pose proof (days_before_year_mono (c_year c + 1) (c_year d)). lia.
    - pose proof (days_before_year_mono (c_year d + 1) (c_year c)). lia. }
  rewrite <- Hy in *.
  destruct (day_of_year_inj (c_year c) (c_month c) (c_day c) (c_month d) (c_day d)); try lia.
  destruct c, d; cbn in *; congruence.
Qed.
