(* ===== verification/GoJson.v ===== *)
(** * UTF-8, paths and JSON: Go's [unicode/utf8], [path] and [encoding/json]

    The part of these packages the ceremony records use: [utf8.ValidString],
    [path.Clean] and [json.Marshal] of structs of strings, integers, booleans and
    slices.  [Marshal] is proved to be an injective, self-delimiting code on values
    whose strings are valid UTF-8. *)
From Stdlib Require Import String.
From S2P Require Import Prelude.
From S2P Require Import GoText.
From S2P Require Import GoTime.

(** ** [unicode/utf8] *)

Definition in_range (lo hi c : Z) : bool := (lo <=? c) && (c <=? hi).
Definition is_cont (c : Z) : bool := in_range 0x80 0xBF c.

(** An ASCII letter that [strings.ToLower] changes. *)
Definition has_upper (s : list Z) : bool := existsb (in_range 65 90) s.

(** The length of the encoding of a rune at the head of [s]; 0 when it is invalid. *)
Definition rune_len (s : list Z) : nat :=
  match s with
  | [] => O
  | a :: s =>
      if a <? 0x80 then 1%nat
      else if in_range 0xC2 0xDF a then
        match s with b :: _ => if is_cont b then 2%nat else O | _ => O end
      else if in_range 0xE0 0xEF a then
        match s with
        | b :: c :: _ =>
            if in_range (if a =? 0xE0 then 0xA0 else 0x80) (if a =? 0xED then 0x9F else 0xBF) b
               && is_cont c then 3%nat else O
        | _ => O
        end
      else if in_range 0xF0 0xF4 a then
        match s with
        | b :: c :: d :: _ =>
            if in_range (if a =? 0xF0 then 0x90 else 0x80) (if a =? 0xF4 then 0x8F else 0xBF) b
               && is_cont c && is_cont d then 4%nat else O
        | _ => O
        end
      else O
  end.

Fixpoint valid_utf8 (fuel : nat) (s : list Z) : bool :=
  match fuel, s with
  | _, [] => true
  | O, _ => false
  | S fuel, s => negb (rune_len s =? 0)%nat && valid_utf8 fuel (drop (rune_len s) s)
  end.

(** Every rune takes at least a byte, so the length is fuel enough. *)
Definition utf8_ValidString (s : list Z) : bool := valid_utf8 (length s) s.

(** ** [path.Clean] *)

Fixpoint split_on (sep : Z) (s : list Z) : list (list Z) :=
  match s with
  | [] => [[]]
  | c :: s =>
      if c =? sep then [] :: split_on sep s
      else match split_on sep s with p :: ps => (c :: p) :: ps | [] => [[c]] end
  end.

(** One path element on the stack of those kept (last first). *)
Definition clean_step (rooted : bool) (stack : list (list Z)) (elem : list Z) : list (list Z) :=
  if bool_decide (elem = []) || bool_decide (elem = str ".") then stack
  else if bool_decide (elem = str "..") then
    match stack with
    | top :: rest => if bool_decide (top = str "..") then elem :: stack else rest
    | [] => if rooted then [] else [elem]
    end
  else elem :: stack.

Definition path_Clean (p : list Z) : list Z :=
  let rooted := bool_decide (head p = Some 47) in
  let out := Join (rev (foldl (clean_step rooted) [] (split_on 47 p))) (str "/") in
  if rooted then 47 :: out else if bool_decide (out = []) then str "." else out.

Example clean_ex1 : path_Clean (str "a/b/../c//d/.") = str "a/c/d".
Proof. vm_compute. reflexivity. Qed.
Example clean_ex2 : path_Clean (str "../../a/..") = str "../..".
Proof. vm_compute. reflexivity. Qed.
Example clean_ex3 : path_Clean (str "/../a") = str "/a".
Proof. vm_compute. reflexivity. Qed.

(** ** [encoding/json]: the encoding of a Go value *)

Inductive json :=
| JNull
| JBool (b : bool)
| JNum (z : Z)
| JStr (s : list Z)
| JArr (l : list json)
| JObj (fields : list (list Z * json)).

Definition hex_char (d : Z) : Z := if d <? 10 then 48 + d else 87 + d.

(** The encoding of one ASCII byte inside a string; HTML characters are escaped. *)
Definition escape_byte (b : Z) : list Z :=
  if (b =? 34) || (b =? 92) then [92; b]
  else if b =? 8 then [92; 98] else if b =? 12 then [92; 102] else if b =? 10 then [92; 110]
  else if b =? 13 then [92; 114] else if b =? 9 then [92; 116]
  else if (b <? 0x20) || (b =? 60) || (b =? 62) || (b =? 38)
  then str "\u00" ++ [hex_char (b / 16); hex_char (b mod 16)]
  else [b].

(** Byte by byte over the runes; an invalid byte becomes U+FFFD and the line
    separators U+2028 and U+2029 are escaped. *)
Fixpoint escape (fuel : nat) (s : list Z) : list Z :=
  match fuel, s with
  | S fuel, b :: _ =>
      match rune_len s with
      | O => str "\ufffd" ++ escape fuel (drop 1 s)
      | n =>
          (if b <? 0x80 then escape_byte b
           else if bool_decide (take n s = [0xE2; 0x80; 0xA8]) then str "\u2028"
           else if bool_decide (take n s = [0xE2; 0x80; 0xA9]) then str "\u2029"
           else take n s) ++ escape fuel (drop n s)
      end
  | _, _ => []
  end.

Definition quote (s : list Z) : list Z := [34] ++ escape (length s) s ++ [34].

(** [json.Marshal]: no white space; the keys are field names that need no escape. *)
Fixpoint marshal (j : json) : list Z :=
  match j with
  | JNull => str "null"
  | JBool b => if b then str "true" else str "false"
  | JNum z => Itoa z
  | JStr s => quote s
  | JArr l => [91] ++ Join (marshal <$> l) [44] ++ [93]
  | JObj fs => [123] ++ Join ((λ '(k, v), quote k ++ [58] ++ marshal v) <$> fs) [44] ++ [125]
  end.

Example marshal_ex : marshal (JObj [(str "a", JArr [JNum (-1); JNum 20]); (str "b", JStr (str "x<y"))]) =
  str "{" ++ quote (str "a") ++ str ":[-1,20]," ++ quote (str "b") ++ str ":" ++ [34] ++
  str "x\u003cy" ++ [34] ++ str "}".
Proof. vm_compute. reflexivity. Qed.

(** * The JSON encoding is injective

    [marshal] is a self-delimiting code: a value is determined by its encoding, even
    when more input follows, as long as strings are valid UTF-8 ([escape] maps every
    invalid byte to U+FFFD) and the encoding is not followed by a digit. *)

(** ** Strings *)

Definition unhex (c : Z) : Z := default 0 (char_digit 16 c).

(** The bytes of an escape of four hexadecimal digits. *)
Definition rune_bytes (v : Z) : list Z :=
  if v <? 0x80 then [v] else [0xE2; 0x80; 0x80 + v mod 64].

(** A left inverse of [quote] that returns what follows the closing quote. *)
Fixpoint unescape (s : list Z) : option (list Z * list Z) :=
  match s with
  | [] => None
  | c :: s1 =>
      if c =? 34 then Some ([], s1)
      else if c =? 92 then
        match s1 with
        | e :: s2 =>
            if e =? 117 then
              match s2 with
              | a :: b :: c :: d :: s3 =>
                  prod_map (app (rune_bytes (unhex a * 4096 + unhex b * 256 + unhex c * 16 + unhex d))) id
                    <$> unescape s3
              | _ => None
              end
            else
              let b := if e =? 98 then 8 else if e =? 102 then 12 else if e =? 110 then 10
                       else if e =? 114 then 13 else if e =? 116 then 9 else e in
              prod_map (cons b) id <$> unescape s2
        | [] => None
        end
      else prod_map (cons c) id <$> unescape s1
  end.

Definition byteb (b : Z) : bool := in_range 0 255 b.
Definition utf8_bytes (s : list Z) : bool := utf8_ValidString s && forallb byteb s.

Lemma unescape_ascii b t : 0 <= b < 0x80 →
  unescape (escape_byte b ++ t) = prod_map (cons b) id <$> unescape t.
Proof.
  intros Hb.
  assert (∃ n, b = Z.of_nat n ∧ (n < 128)%nat) as (n & -> & Hn) by (exists (Z.to_nat b); lia).
  clear Hb. do 128 (destruct n as [|n]; [reflexivity|]). lia.
Qed.

Lemma unescape_high hs t : Forall (λ b, 0x80 <= b) hs →
  unescape (hs ++ t) = prod_map (app hs) id <$> unescape t.
Proof.
  induction 1 as [|b hs Hb _ IH].
  { cbn. by destruct (unescape t) as [[]|]. }
  cbn [app unescape]. rewrite (proj2 (Z.eqb_neq b 34)), (proj2 (Z.eqb_neq b 92)) by lia.
  rewrite IH. by destruct (unescape t) as [[]|].
Qed.

(** The shape of a rune: one ASCII byte, or bytes from [0x80] up. *)
Lemma rune_len_shape b s : rune_len (b :: s) ≠ O →
  (b < 0x80 ∧ rune_len (b :: s) = 1%nat) ∨
  (0x80 <= b ∧ Forall (λ b, 0x80 <= b) (take (rune_len (b :: s)) (b :: s))).
Proof.
  unfold rune_len, is_cont, in_range. intros Hn.
  repeat case_match; bool_to_prop; try done; [by left|right|right|right|right|right|right..];
    (split; [lia|]); cbn [take]; repeat constructor; lia.
Qed.

Lemma valid_utf8_step fuel b s : valid_utf8 (S fuel) (b :: s) = true →
  rune_len (b :: s) ≠ O ∧ valid_utf8 fuel (drop (rune_len (b :: s)) (b :: s)) = true.
Proof.
  cbn [valid_utf8]. rewrite Bool.andb_true_iff, Bool.negb_true_iff, Nat.eqb_neq. done.
Qed.

Lemma unescape_escape fuel s t : valid_utf8 fuel s = true → Forall (λ b, 0 <= b < 256) s →
  unescape (escape fuel s ++ 34 :: t) = Some (s, t).
Proof.
  revert s. induction fuel as [|fuel IH]; intros [|b s] Hv Hb; try done.
  apply valid_utf8_step in Hv as [Hn Hv].
  pose proof (rune_len_shape b s Hn) as Hs.
  cbn [escape]. destruct (rune_len (b :: s)) as [|n] eqn:En; [done|].
  specialize (IH _ Hv (Forall_drop _ _ _ Hb)).
  rewrite <- app_assoc. destruct Hs as [[Hlt Hn1]|[Hge Hh]].
  - injection Hn1 as ->. rewrite (proj2 (Z.ltb_lt _ _)) by done.
    rewrite unescape_ascii by (apply Forall_cons in Hb as [? _]; lia).
    cbn [drop] in IH |- *. by rewrite IH.
  - rewrite (proj2 (Z.ltb_ge _ _)) by done.
    assert (∀ w, take (S n) (b :: s) = w →
      prod_map (app w) id <$> unescape (escape fuel (drop (S n) (b :: s)) ++ 34 :: t) =
        Some (b :: s, t)) as Hok.
    { intros w <-. rewrite IH. cbn [fmap option_fmap option_map prod_map id fst snd].
      by rewrite take_drop. }
    case_bool_decide as E1; [by rewrite <- (Hok _ E1)|].
    case_bool_decide as E2; [by rewrite <- (Hok _ E2)|].
    rewrite unescape_high by done. by apply Hok.
Qed.

Lemma utf8_bytes_spec s : utf8_bytes s = true →
  valid_utf8 (length s) s = true ∧ Forall (λ b, 0 <= b < 256) s.
Proof.
  unfold utf8_bytes. rewrite Bool.andb_true_iff, forallb_forall. intros [Hv Hb]. split; [done|].
  apply Forall_forall. intros b Hin. specialize (Hb b (proj1 (list_elem_of_In _ _) Hin)).
  unfold byteb, in_range in Hb. bool_to_prop. lia.
Qed.

Lemma quote_inj s1 s2 r1 r2 : utf8_bytes s1 = true → utf8_bytes s2 = true →
  quote s1 ++ r1 = quote s2 ++ r2 → s1 = s2 ∧ r1 = r2.
Proof.
  intros [V1 B1]%utf8_bytes_spec [V2 B2]%utf8_bytes_spec He. unfold quote in He.
  rewrite <- !app_assoc in He. cbn [app] in He. injection He as He.
  apply (f_equal unescape) in He. rewrite !unescape_escape in He by done. by simplify_eq.
Qed.

(** ** Numbers *)

(** What may follow a number: no further digit. *)
Definition no_digit (r : list Z) : Prop := ∀ c, head r = Some c → (48 <=? c) && (c <=? 57) = false.

Lemma no_digit_cons c r : (48 <=? c) && (c <=? 57) = false → no_digit (c :: r).
Proof. intros Hc d [= <-]. done. Qed.

Lemma numeral_span n r : 0 <= n → no_digit r →
  ∃ ds, ds ≠ [] ∧ span_digits (numeral 10 n ++ r) = (ds, r) ∧ digits_val 10 (rev ds) = n ∧
    numeral 10 n = digit_char <$> ds.
Proof.
  intros Hn Hr. unfold numeral.
  destruct (numeral_digits_spec 10 ltac:(lia) _ _ (log2_fuel n Hn)) as ([|Hne] & Hd & Hv); [done|].
  eexists. split; [exact Hne|]. split; [|by split]. by apply span_digits_chars.
Qed.

Lemma numeral_head n : 0 <= n → ∃ c t, numeral 10 n = c :: t ∧ 48 <= c <= 57.
Proof.
  intros Hn. unfold numeral.
  destruct (numeral_digits_spec 10 ltac:(lia) _ _ (log2_fuel n Hn)) as ([|Hne] & Hd & _); [done|].
  destruct (numeral_digits 10 _ n) as [|d ds]; [done|]. apply Forall_cons in Hd as [Hd _].
  unfold is_digit in Hd. destruct (digit_char_dec d Hd) as [Hc _].
  exists (48 + d), (digit_char <$> ds). cbn. rewrite Hc. split; [done|lia].
Qed.

Lemma Itoa_head z : ∃ c t, Itoa z = c :: t ∧ (c = 45 ∨ 48 <= c <= 57).
Proof.
  unfold Itoa, Text. destruct (Z.ltb_spec z 0); [by eexists _, _; split; [|left]|].
  destruct (numeral_head z) as (c & t & -> & Hc); [done|]. eexists _, _. split; [done|by right].
Qed.

Lemma numeral_app_inj n m r1 r2 : 0 <= n → 0 <= m → no_digit r1 → no_digit r2 →
  numeral 10 n ++ r1 = numeral 10 m ++ r2 → n = m ∧ r1 = r2.
Proof.
  intros Hn Hm H1 H2 He.
  destruct (numeral_span n r1) as (d1 & _ & S1 & V1 & _); [done..|].
  destruct (numeral_span m r2) as (d2 & _ & S2 & V2 & _); [done..|].
  rewrite He, S2 in S1. injection S1 as -> ->. split; [congruence|done].
Qed.

Lemma Itoa_app_inj z1 z2 r1 r2 : no_digit r1 → no_digit r2 →
  Itoa z1 ++ r1 = Itoa z2 ++ r2 → z1 = z2 ∧ r1 = r2.
Proof.
  intros H1 H2. unfold Itoa, Text.
  destruct (Z.ltb_spec z1 0), (Z.ltb_spec z2 0); intros He.
  - injection He as He. apply numeral_app_inj in He as [? ?]; [|lia..|done|done].
    split; [lia|done].
  - destruct (numeral_head z2) as (c & t & Ec & Hc); [done|]. rewrite Ec in He.
    cbn in He. injection He as <- _. lia.
  - destruct (numeral_head z1) as (c & t & Ec & Hc); [done|]. rewrite Ec in He.
    cbn in He. injection He as -> _. lia.
  - by apply numeral_app_inj in He.
Qed.

(** ** Sequences *)

Lemma Join_cons p ps sep : Join (p :: ps) sep = p ++ concat ((λ q, sep ++ q) <$> ps).
Proof.
  revert p. induction ps as [|q ps IH]; intros p; [by cbn; rewrite app_nil_r|].
  change (Join (p :: q :: ps) sep) with (p ++ sep ++ Join (q :: ps) sep). rewrite IH.
  cbn. by rewrite <- app_assoc.
Qed.

Section sequences.
Context {A : Type} (enc : A → list Z) (clean : A → bool) (close : Z).
Context (close_not_comma : close ≠ 44) (close_no_digit : (48 <=? close) && (close <=? 57) = false).
Context (enc_head : ∀ x, ∃ c t, enc x = c :: t ∧ c ≠ close).

(** Two encodings that start equal inputs are of one value. *)
Definition self_delimiting (x : A) : Prop := ∀ y r1 r2, clean y = true → no_digit r1 → no_digit r2 →
  enc x ++ r1 = enc y ++ r2 → x = y ∧ r1 = r2.

Lemma tail_inj l1 l2 r1 r2 : Forall self_delimiting l1 → forallb clean l2 = true →
  concat ((λ q, [44] ++ q) <$> (enc <$> l1)) ++ close :: r1 =
    concat ((λ q, [44] ++ q) <$> (enc <$> l2)) ++ close :: r2 → l1 = l2 ∧ r1 = r2.
Proof.
  intros H1. revert l2. induction H1 as [|x l1 Hx _ IH]; intros [|y l2] H2 He.
  - by injection He as ->.
  - cbn in He. by injection He as E _.
  - cbn in He. injection He as E _. by symmetry in E.
  - cbn in H2. apply andb_prop in H2 as [Hy H2]. cbn in He. injection He as He.
    rewrite <- !app_assoc in He.
    assert (∀ l r, no_digit (concat ((λ q, 44 :: q) <$> (enc <$> l)) ++ close :: r)) as Hnd.
    { intros [|z l] r; cbn; by apply no_digit_cons. }
    apply Hx in He as [-> He]; [|done|apply Hnd|apply Hnd].
    by apply IH in He as [-> ->].
Qed.

Lemma Join_inj l1 l2 r1 r2 : Forall self_delimiting l1 → forallb clean l2 = true →
  Join (enc <$> l1) [44] ++ close :: r1 = Join (enc <$> l2) [44] ++ close :: r2 →
  l1 = l2 ∧ r1 = r2.
Proof.
  intros H1 H2 He. destruct H1 as [|x l1 Hx H1], l2 as [|y l2].
  - by injection He as ->.
  - rewrite fmap_cons, Join_cons in He. destruct (enc_head y) as (c & t & Ec & Hc).
    rewrite Ec in He. injection He as E _. by subst.
  - rewrite fmap_cons, Join_cons in He. destruct (enc_head x) as (c & t & Ec & Hc).
    rewrite Ec in He. injection He as E _. by subst.
  - cbn in H2. apply andb_prop in H2 as [Hy H2].
    rewrite !fmap_cons, !Join_cons, <- !app_assoc in He.
    assert (∀ l r, no_digit (concat ((λ q, [44] ++ q) <$> (enc <$> l)) ++ close :: r)) as Hnd.
    { intros [|z l] r; cbn; by apply no_digit_cons. }
    apply Hx in He as [-> He]; [|done|apply Hnd|apply Hnd].
    by apply tail_inj in He as [-> ->].
Qed.
End sequences.

(** ** Values *)

(** Every string of the value is valid UTF-8. *)
Fixpoint clean (j : json) : bool :=
  match j with
  | JStr s => utf8_bytes s
  | JArr l => forallb clean l
  | JObj fs => forallb (λ '(k, v), utf8_bytes k && clean v) fs
  | _ => true
  end.

(** Induction with the hypothesis for every member of an array or object. *)
Lemma json_ind' (Q : json → Prop) :
  Q JNull → (∀ b, Q (JBool b)) → (∀ z, Q (JNum z)) → (∀ s, Q (JStr s)) →
  (∀ l, Forall Q l → Q (JArr l)) → (∀ fs, Forall (λ f, Q f.2) fs → Q (JObj fs)) → ∀ j, Q j.
Proof.
  intros Hn Hb Hz Hs Ha Ho. fix IH 1. intros [|b|z|s|l|fs];
    [exact Hn|exact (Hb b)|exact (Hz z)|exact (Hs s)|apply Ha|apply Ho].
  - induction l as [|j l IHl]; constructor; [apply IH|exact IHl].
  - induction fs as [|[k v] fs IHfs]; constructor; [apply IH|exact IHfs].
Qed.

Lemma marshal_head j : ∃ c t, marshal j = c :: t ∧ c ∉ [44; 93; 125; 58].
Proof.
  assert (∀ c, c ∉ ([44; 93; 125; 58] : list Z) ↔ c ≠ 44 ∧ c ≠ 93 ∧ c ≠ 125 ∧ c ≠ 58) as Hin.
  { intros c. rewrite !not_elem_of_cons. split; [intros (? & ? & ? & ? & _); auto|].
    intros (? & ? & ? & ?). repeat split; auto. apply not_elem_of_nil. }
  destruct j as [|[]|z|s|l|fs]; cbn [marshal].
  - exists 110, (str "ull"). split; [reflexivity|]. apply Hin. lia.
  - exists 116, (str "rue"). split; [reflexivity|]. apply Hin. lia.
  - exists 102, (str "alse"). split; [reflexivity|]. apply Hin. lia.
  - destruct (Itoa_head z) as (c & t & -> & Hc). exists c, t. split; [done|]. apply Hin. lia.
  - eexists 34, _. split; [reflexivity|]. apply Hin. lia.
  - eexists 91, _. split; [reflexivity|]. apply Hin. lia.
  - eexists 123, _. split; [reflexivity|]. apply Hin. lia.
Qed.

Lemma marshal_inj j1 : clean j1 = true → ∀ j2 r1 r2, clean j2 = true → no_digit r1 → no_digit r2 →
  marshal j1 ++ r1 = marshal j2 ++ r2 → j1 = j2 ∧ r1 = r2.
Proof.
  induction j1 as [|b|z|s|l IH|fs IH] using json_ind'; intros C1 j2 r1 r2 C2 H1 H2 He;
    destruct j2 as [|b'|z'|s'|l'|fs'];
    try (destruct (Itoa_head z) as (c & t & Ec & Hc));
    try (destruct (Itoa_head z') as (c' & t' & Ec' & Hc'));
    repeat (match goal with b : bool |- _ => destruct b end);
    try (cbn [marshal] in He; rewrite ?Ec, ?Ec' in He; unfold quote in He; cbn in He;
         first [injection He as He; lia | injection He as He _; subst; lia
               | by simplify_eq]).
  - cbn [marshal] in He. apply Itoa_app_inj in He as [-> ->]; done.
  - cbn [marshal] in He. by apply quote_inj in He as [-> ->].
  - cbn [marshal] in He. rewrite <- !app_assoc in He. injection He as He.
    apply (Join_inj marshal clean) in He as [-> ->]; try done.
    + intros x. destruct (marshal_head x) as (c & t & -> & Hc). exists c, t.
      rewrite !not_elem_of_cons in Hc. naive_solver.
    + cbn in C1. rewrite forallb_forall in C1. apply Forall_forall. intros x Hx.
      rewrite Forall_forall in IH. unfold self_delimiting. apply IH; [done|].
      by apply C1, list_elem_of_In.
  - cbn [marshal] in He. rewrite <- !app_assoc in He. injection He as He.
    apply (Join_inj (λ '(k, v), quote k ++ [58] ++ marshal v)
      (λ '(k, v), utf8_bytes k && clean v)) in He as [-> ->]; try done.
    + intros [k v]. by exists 34; eexists.
    + cbn in C1. rewrite forallb_forall in C1. apply Forall_forall. intros [k v] Hx [k' v'] s1 s2 Hc N1 N2 E.
      rewrite Forall_forall in IH. specialize (IH (k, v) Hx). cbn in IH.
      pose proof (C1 (k, v) (proj1 (list_elem_of_In _ _) Hx)) as Hk. cbn in Hk, Hc.
      apply andb_prop in Hk as [Hk Hv], Hc as [Hk' Hv'].
      rewrite <- !app_assoc in E. apply quote_inj in E as [-> E]; [|done|done].
      injection E as E. by apply IH in E as [-> ->].
Qed.

(** The encoding of a whole record. *)
Lemma marshal_eq j1 j2 : clean j1 = true → clean j2 = true → marshal j1 = marshal j2 → j1 = j2.
Proof.
  intros C1 C2 He. assert (marshal j1 ++ [] = marshal j2 ++ []) as E by by rewrite He.
  by apply marshal_inj in E as [-> _].
Qed.

(** A string takes at most six bytes for each of its own. *)
Lemma length_escape fuel s : (length (escape fuel s) <= 6 * length s)%nat.
Proof.
  revert s. induction fuel as [|fuel IH]; intros [|b s]; cbn [escape length]; try lia.
  destruct (rune_len (b :: s)) as [|n] eqn:En.
  - rewrite length_app. specialize (IH s). change (drop 1 (b :: s)) with s. change (length (str "\ufffd")) with 6%nat. lia.
  - rewrite length_app. specialize (IH (drop (S n) (b :: s))). rewrite length_drop in IH. cbn [length] in IH.
    assert (∀ x : list Z, (length x <= 6)%nat → (length x + length (escape fuel (drop (S n) (b :: s))) <= 6 * S (length s))%nat)
      as H6 by (intros x Hx; destruct (le_lt_dec (S (length s)) (S n)); lia).
    destruct (b <? 0x80); [apply H6; unfold escape_byte; repeat case_match; cbn; lia|].
    case_bool_decide; [apply H6; cbn; lia|]. case_bool_decide; [apply H6; cbn; lia|].
    rewrite length_take. cbn [length]. lia.
Qed.

Lemma length_quote s : (length (quote s) <= 6 * length s + 2)%nat.
Proof. unfold quote. rewrite !length_app. cbn [length]. pose proof (length_escape (length s) s). lia. Qed.
