(* ===== verification/GoCodec.v ===== *)
(** * Codecs: a Go type's JSON encoding with its decoder

    [encoding/json] derives both directions from a type.  A [codec] is the two
    directions for one type, with the law that decoding recognises exactly the encodings
    of the values that survive: strings that are valid UTF-8, integers of the field's
    width.  The combinators build the codec of a struct from the codecs of its fields. *)
From stdpp Require Import strings.
From S2P Require Import Prelude.
From S2P Require Import GoText.
From S2P Require Import GoTime.
From S2P Require Import GoJson.

(** * Decoding JSON: Go's [json.Unmarshal] on canonical encodings

    The ceremony accepts a record only when re-encoding the decoded value gives the
    bytes read, so the decoder matters on outputs of [marshal] alone.  [parse] inverts
    [marshal]; a [codec] pairs the encoding of a Go type with its decoder, and the codec
    of a struct is put together from those of its fields. *)

(** ** The parser *)

Section sequences.
Context {A : Type} (item : list Z → option (A * list Z)) (close : Z).

(** After an item: the closing bracket, or a comma and the next item. *)
Fixpoint parse_rest (n : nat) (s : list Z) : option (list A * list Z) :=
  match n, s with
  | S n, c :: s =>
      if c =? close then Some ([], s)
      else if c =? 44 then
        '(x, s) ← item s;
        '(l, s) ← parse_rest n s;
        Some (x :: l, s)
      else None
  | _, _ => None
  end.

(** After the opening bracket. *)
Definition parse_seq (s : list Z) : option (list A * list Z) :=
  match s with
  | c :: r =>
      if c =? close then Some ([], r)
      else '(x, s) ← item s;
           '(l, s) ← parse_rest (length s) s;
           Some (x :: l, s)
  | [] => None
  end.
End sequences.

(** One field of an object. *)
Definition parse_member (value : list Z → option (json * list Z)) (s : list Z) :
    option ((list Z * json) * list Z) :=
  match s with
  | 34 :: s =>
      '(k, s) ← unescape s;
      match s with
      | 58 :: s => '(v, s) ← value s; Some ((k, v), s)
      | _ => None
      end
  | _ => None
  end.

Definition parse_nat (s : list Z) : option (Z * list Z) :=
  let '(ds, r) := span_digits s in
  match ds with [] => None | _ => Some (digits_val 10 (rev ds), r) end.

Definition parse_number (s : list Z) : option (json * list Z) :=
  if bool_decide (head s = Some 45) then '(n, r) ← parse_nat (tail s); Some (JNum (- n), r)
  else '(n, r) ← parse_nat s; Some (JNum n, r).

(** The value at the head of the input, and what follows it. *)
Fixpoint parse (fuel : nat) (s : list Z) : option (json * list Z) :=
  match fuel, s with
  | S fuel, c :: s1 =>
      if c =? 34 then '(t, r) ← unescape s1; Some (JStr t, r)
      else if c =? 91 then '(l, r) ← parse_seq (parse fuel) 93 s1; Some (JArr l, r)
      else if c =? 123 then '(fs, r) ← parse_seq (parse_member (parse fuel)) 125 s1; Some (JObj fs, r)
      else if c =? 110 then r ← strip_prefix (str "null") s; Some (JNull, r)
      else if c =? 116 then r ← strip_prefix (str "true") s; Some (JBool true, r)
      else if c =? 102 then r ← strip_prefix (str "false") s; Some (JBool false, r)
      else parse_number s
  | _, _ => None
  end.

(** A whole document; its nesting is at most its length. *)
Definition json_Parse (data : list Z) : option json :=
  '(j, r) ← parse (length data) data;
  match r with [] => Some j | _ => None end.

(** ** [parse] inverts [marshal] *)

(** How deeply arrays and objects are nested. *)
Fixpoint depth (j : json) : nat :=
  match j with
  | JArr l => S (list_max (depth <$> l))
  | JObj fs => S (list_max ((λ f, depth f.2) <$> fs))
  | _ => 1
  end.

Section sequences_law.
Context {A : Type} (item : list Z → option (A * list Z)) (enc : A → list Z) (close : Z).
Context (close_not_comma : close ≠ 44) (close_no_digit : (48 <=? close) && (close <=? 57) = false).
Context (enc_head : ∀ x, ∃ c t, enc x = c :: t ∧ c ≠ close).

(** The item's law at one value. *)
Definition item_reads (x : A) : Prop := ∀ r, no_digit r → item (enc x ++ r) = Some (x, r).

Lemma rest_no_digit l r : no_digit (concat ((λ q, [44] ++ q) <$> (enc <$> l)) ++ close :: r).
Proof. destruct l; cbn; by apply no_digit_cons. Qed.

Lemma parse_rest_concat l n r : Forall item_reads l → (length l < n)%nat →
  parse_rest item close n (concat ((λ q, [44] ++ q) <$> (enc <$> l)) ++ close :: r) = Some (l, r).
Proof.
  intros Hl. revert n. induction Hl as [|x l Hx _ IH]; intros [|n] Hn; cbn in Hn; try lia.
  { cbn. by rewrite Z.eqb_refl. }
  rewrite !fmap_cons. cbn [concat app parse_rest].
  rewrite (proj2 (Z.eqb_neq 44 close)) by done. cbn [Z.eqb].
  rewrite <- app_assoc. rewrite Hx by apply rest_no_digit. cbn. rewrite IH by lia. done.
Qed.

Lemma length_commas l : le (length l) (length (concat ((λ q, [44] ++ q) <$> (enc <$> l)))).
Proof. induction l as [|x l IH]; [done|]. rewrite !fmap_cons. cbn [concat length app] in IH |- *. rewrite length_app. lia. Qed.

Lemma parse_seq_Join l r : Forall item_reads l →
  parse_seq item close (Join (enc <$> l) [44] ++ close :: r) = Some (l, r).
Proof.
  intros [|x l' Hx Hl]; [cbn; by rewrite Z.eqb_refl|].
  rewrite fmap_cons, Join_cons, <- app_assoc.
  destruct (enc_head x) as (c & t & Ec & Hc). pose proof (Hx _ (rest_no_digit l' r)) as Hi.
  rewrite Ec in Hi |- *. cbn [app parse_seq] in Hi |- *. rewrite (proj2 (Z.eqb_neq c close)) by done.
  rewrite Hi. cbn [mbind option_bind].
  rewrite parse_rest_concat; [done..|].
  rewrite length_app. cbn [length]. pose proof (length_commas l') as Hc'. cbn [app] in Hc' |- *. lia.
Qed.
End sequences_law.

Lemma parse_nat_numeral n r : 0 <= n → no_digit r → parse_nat (numeral 10 n ++ r) = Some (n, r).
Proof.
  intros Hn Hr. destruct (numeral_span n r) as (ds & Hne & Hs & Hv & _); [done..|].
  unfold parse_nat. rewrite Hs. destruct ds; [done|]. by rewrite Hv.
Qed.

Lemma parse_number_Itoa z r : no_digit r → parse_number (Itoa z ++ r) = Some (JNum z, r).
Proof.
  intros Hr. unfold Itoa, Text, parse_number. destruct (Z.ltb_spec z 0).
  - cbn [app head tail]. rewrite bool_decide_true, parse_nat_numeral by (done || lia). cbn.
    by rewrite Z.opp_involutive.
  - rewrite parse_nat_numeral by (done || lia).
    destruct (numeral_head z) as (c & t & -> & Hc); [lia|].
    rewrite bool_decide_false; [done|]. cbn. intros [= ->]. lia.
Qed.

Lemma unescape_quote s r : utf8_bytes s = true → unescape (escape (length s) s ++ 34 :: r) = Some (s, r).
Proof. intros [Hv Hb]%utf8_bytes_spec. by apply unescape_escape. Qed.

Lemma list_max_Forall {A} (f : A → nat) l n : (list_max (f <$> l) <= n)%nat → Forall (λ x, (f x <= n)%nat) l.
Proof. rewrite list_max_le, Forall_fmap. done. Qed.

Lemma parse_marshal fuel j r : clean j = true → no_digit r → (depth j <= fuel)%nat →
  parse fuel (marshal j ++ r) = Some (j, r).
Proof.
  revert fuel r. induction j as [|b|z|s|l IH|fs IH] using json_ind'; intros [|fuel] r Hc Hr Hd;
    cbn [depth] in Hd; try lia.
  - cbn [marshal]. reflexivity.
  - cbn [marshal]. by destruct b.
  - cbn [marshal]. rewrite <- (parse_number_Itoa z r Hr).
    destruct (Itoa_head z) as (c & t & -> & Hcc). cbn [app parse].
    do 6 (rewrite (proj2 (Z.eqb_neq c _)) by lia). done.
  - cbn [marshal]. unfold quote. rewrite <- !app_assoc. cbn [app parse Z.eqb Pos.eqb].
    by rewrite unescape_quote.
  - cbn [marshal]. rewrite <- !app_assoc. cbn [app parse Z.eqb Pos.eqb].
    rewrite (parse_seq_Join _ marshal); [done|lia|done| |].
    + intros x. destruct (marshal_head x) as (c & t & -> & Hx). exists c, t.
      rewrite !not_elem_of_cons in Hx. split; [done|]. tauto.
    + cbn in Hc. rewrite forallb_forall in Hc. apply le_S_n, list_max_Forall in Hd.
      rewrite Forall_forall in IH, Hd |- *. intros x Hx r' Hr'. apply IH; [done| |done|by apply Hd].
      by apply Hc, list_elem_of_In.
  - cbn [marshal]. rewrite <- !app_assoc. cbn [app parse Z.eqb Pos.eqb].
    rewrite (parse_seq_Join _ (λ '(k, v), quote k ++ [58] ++ marshal v)); [done|lia|done| |].
    + intros [k v]. by exists 34; eexists.
    + cbn in Hc. rewrite forallb_forall in Hc. apply le_S_n, list_max_Forall in Hd.
      rewrite Forall_forall in IH, Hd |- *. intros [k v] Hx r' Hr'.
      pose proof (Hc (k, v) (proj1 (list_elem_of_In _ _) Hx)) as Hk. cbn in Hk.
      apply andb_prop in Hk as [Hk Hv]. unfold quote. rewrite <- !app_assoc. cbn [app parse_member].
      rewrite unescape_quote by done. cbn [mbind option_bind].
      pose proof (IH (k, v) Hx _ _ Hv Hr' (Hd _ Hx)) as Hi. cbn [snd] in Hi. by rewrite Hi.
Qed.

(** Every level of nesting takes at least a byte. *)
Lemma depth_length j : (depth j <= length (marshal j))%nat.
Proof.
  assert (∀ {A} (f : A → nat) (enc : A → list Z) l, Forall (λ x, (f x <= length (enc x))%nat) l →
    le (list_max (f <$> l)) (length (Join (enc <$> l) [44]))) as HJ.
  { intros A f enc l Hl. rewrite list_max_le, Forall_fmap. apply Forall_forall. intros x Hx. cbn.
    rewrite Forall_forall in Hl. etrans; [exact (Hl x Hx)|]. clear Hl.
    destruct l as [|y l]; [by apply not_elem_of_nil in Hx|].
    rewrite fmap_cons, Join_cons, length_app. apply elem_of_cons in Hx as [->|Hx]; [lia|].
    apply list_elem_of_split in Hx as (l1 & l2 & ->). rewrite !fmap_app, concat_app, length_app.
    cbn. rewrite length_app. lia. }
  induction j as [|b|z|s|l IH|fs IH] using json_ind'; cbn [depth marshal].
  - cbn. lia.
  - destruct b; cbn; lia.
  - destruct (Itoa_head z) as (c & t & -> & _). cbn. lia.
  - unfold quote. rewrite length_app. cbn. lia.
  - apply HJ in IH. rewrite !length_app. cbn [length]. lia.
  - assert (le (list_max ((λ f, depth f.2) <$> fs))
      (length (Join ((λ '(k, v), quote k ++ [58] ++ marshal v) <$> fs) [44]))); [|rewrite !length_app; cbn [length]; lia].
    apply HJ. eapply Forall_impl; [exact IH|]. intros [k v] Hv. cbn [snd] in Hv |- *. rewrite !length_app. lia.
Qed.

Lemma json_Parse_marshal j : clean j = true → json_Parse (marshal j) = Some j.
Proof.
  intros Hc. unfold json_Parse. rewrite <- (app_nil_r (marshal j)) at 2.
  rewrite parse_marshal; [done|done|by intros ? [=]|apply depth_length].
Qed.

Record codec (A : Type) := Codec {
  enc : A → json;
  dec : json → option A;
  rep : A → bool;
  dec_iff : ∀ j a, dec j = Some a ↔ j = enc a ∧ rep a = true;
  rep_clean : ∀ a, rep a = true → clean (enc a) = true }.
Arguments enc {A}. Arguments dec {A}. Arguments rep {A}. Arguments dec_iff {A}. Arguments rep_clean {A}.
Arguments Codec {A}.

Lemma dec_enc {A} (c : codec A) a : rep c a = true → dec c (enc c a) = Some a.
Proof. intros Hr. by apply dec_iff. Qed.

(** Distinct values have distinct encodings. *)
Lemma enc_inj {A} (c : codec A) a b : rep c a = true → rep c b = true → enc c a = enc c b → a = b.
Proof. intros Ha%dec_enc Hb%dec_enc E. rewrite E, Hb in Ha. by injection Ha. Qed.

(** ** Strings, booleans, integers, slices *)

Definition string_codec : codec (list Z).
Proof.
  refine (Codec (JStr)
    (λ j, match j with JStr s => if utf8_bytes s then Some s else None | _ => None end)
    (utf8_bytes) _ _).
  - intros j s. destruct j; try (split; [done|by intros [? _]]).
    case_match eqn:E; [|split; [done|intros [[= ->] H]; congruence]].
    split; [by intros [= ->]|by intros [[= ->] _]].
  - done.
Defined.

Definition bool_codec : codec bool.
Proof.
  refine (Codec (JBool)
    (λ j, match j with JBool b => Some b | _ => None end)
    (λ _, true) _ _).
  - intros j b. destruct j; (split; [intros [=]; split|intros [? _]]); congruence.
  - done.
Defined.

(** An integer type with values from [lo] to [hi]. *)
Definition int_codec (lo hi : Z) : codec Z.
Proof.
  refine (Codec (JNum)
    (λ j, match j with JNum z => if in_range lo hi z then Some z else None | _ => None end)
    (in_range lo hi) _ _).
  - intros j s. destruct j; try (split; [done|by intros [? _]]).
    case_match eqn:E; [|split; [done|intros [[= ->] H]; congruence]].
    split; [by intros [= ->]|by intros [[= ->] _]].
  - done.
Defined.

Definition uint8_codec : codec Z := int_codec 0 (2 ^ 8 - 1).
Definition uint16_codec : codec Z := int_codec 0 (2 ^ 16 - 1).
Definition uint64_codec : codec Z := int_codec 0 (2 ^ 64 - 1).
Definition int64_codec : codec Z := int_codec (- 2 ^ 63) (2 ^ 63 - 1).

Lemma mapM_dec {A} (c : codec A) js l :
  mapM (dec c) js = Some l ↔ js = enc c <$> l ∧ forallb (rep c) l = true.
Proof.
  rewrite mapM_Some. split.
  - induction 1 as [|j a js l H _ [-> IH]]; [done|]. apply dec_iff in H as [-> H]. cbn. by rewrite H, IH.
  - intros [-> H]. induction l as [|a l IH]; constructor; cbn in H; apply andb_prop in H as [H1 H2];
      [by apply dec_enc|by apply IH].
Qed.

Lemma forallb_clean {A} (c : codec A) l : forallb (rep c) l = true → forallb clean (enc c <$> l) = true.
Proof.
  induction l as [|a l IH]; [done|]. cbn. intros [H1 H2]%andb_prop.
  by rewrite rep_clean, IH.
Qed.

(** A slice that is never [nil]. *)
Definition list_codec {A} (c : codec A) : codec (list A).
Proof.
  refine (Codec (λ l, JArr (enc c <$> l))
    (λ j, match j with JArr l => mapM (dec c) l | _ => None end)
    (forallb (rep c)) _ _).
  - intros j l. destruct j as [| | | |js|]; try (split; [done|by intros [? _]]). rewrite mapM_dec.
    split; [by intros [-> ?]|by intros [[= ->] ?]].
  - intros l. apply forallb_clean.
Defined.

(** A slice: [nil] is [null]. *)
Definition slice_codec {A} (c : codec A) : codec (option (list A)).
Proof.
  refine (Codec (λ s, match s with Some l => JArr (enc c <$> l) | None => JNull end)
    (λ j, match j with JArr l => Some <$> mapM (dec c) l | JNull => Some None | _ => None end)
    (λ s, match s with Some l => forallb (rep c) l | None => true end) _ _).
  - intros j s. destruct j as [| | | |js|]; try (split; [done|by destruct s; intros [? _]]).
    + destruct s; [by split; [|intros [? _]]|done].
    + rewrite fmap_Some. setoid_rewrite mapM_dec. split.
      * by intros (l & [-> ?] & ->).
      * destruct s as [l|]; [|by intros [? _]]. intros [[= ->] ?]. by exists l.
  - intros [l|]; [apply forallb_clean|done].
Defined.

(** ** Structs *)

(** The fields of a struct in order, their values as nested pairs. *)
Record fields (A : Type) := Fields {
  f_enc : A → list (list Z * json);
  f_dec : list (list Z * json) → option A;
  f_rep : A → bool;
  f_dec_iff : ∀ fs a, f_dec fs = Some a ↔ fs = f_enc a ∧ f_rep a = true;
  f_rep_clean : ∀ a, f_rep a = true → clean (JObj (f_enc a)) = true }.
Arguments f_enc {A}. Arguments f_dec {A}. Arguments f_rep {A}.
Arguments f_dec_iff {A}. Arguments f_rep_clean {A}.
Arguments Fields {A}.

Definition no_fields : fields unit.
Proof.
  refine (Fields (λ _, [])
    (λ fs, match fs with [] => Some tt | _ => None end)
    (λ _, true) _ _).
  - intros [|f fs] []; [done|]. by split; [|intros [? _]].
  - done.
Defined.

Definition field {A B} (k : string) (c : codec A) (rest : fields B) : fields (A * B).
Proof.
  refine (Fields (λ '(a, b), (str k, enc c a) :: f_enc rest b)
    (λ fs, 
    match fs with
    | (k', v) :: fs =>
        if bool_decide (k' = str k) && utf8_bytes k' then a ← dec c v; b ← f_dec rest fs; Some (a, b)
        else None
    | [] => None
    end)
    (λ '(a, b), utf8_bytes (str k) && rep c a && f_rep rest b) _ _).
  - intros [|[k' v] fs] [a b]; [by split; [|intros [? _]]|].
    rewrite !Bool.andb_true_iff. destruct (bool_decide (k' = str k)) eqn:Ek; cbn [andb].
    + apply bool_decide_eq_true in Ek as ->. destruct (utf8_bytes (str k)); [|by split; [|intros [_ [[] _]]]].
      split.
      * intros Hd. apply bind_Some in Hd as (a' & [-> Ha]%dec_iff & Hd).
        apply bind_Some in Hd as (b' & [-> Hb]%f_dec_iff & [= -> ->]). done.
      * intros [[= -> ->] [[_ Ha] Hb]]. rewrite dec_enc by done. cbn.
        rewrite (proj2 (f_dec_iff rest _ b)) by done. done.
    + apply bool_decide_eq_false in Ek. split; [done|]. by intros [[= -> _ _] _].
  - intros [a b]. rewrite !Bool.andb_true_iff. intros [[Hk Ha] Hb]. cbn [clean forallb].
    rewrite Hk, rep_clean by done. exact (f_rep_clean rest b Hb).
Defined.

(** A struct with these fields: [make] builds it, [view] lists its field values. *)
Definition struct {A R} (fs : fields A) (make : A → R) (view : R → A)
    (mv : ∀ r, make (view r) = r) (vm : ∀ a, view (make a) = a) : codec R.
Proof.
  refine (Codec (λ r, JObj (f_enc fs (view r)))
    (λ j, match j with JObj l => make <$> f_dec fs l | _ => None end)
    (λ r, f_rep fs (view r)) _ _).
  - intros j r. destruct j as [| | | | |l]; try (split; [done|by intros [? _]]).
    rewrite fmap_Some. setoid_rewrite f_dec_iff. split.
    + intros (a & [-> Ha] & ->). by rewrite vm.
    + intros [[= ->] Ha]. exists (view r). by rewrite mv.
  - intros r. apply f_rep_clean.
Defined.
