(* ===== verification/Ownership.v ===== *)
(** * Credentials, paths and public inputs: [internal/circuit/ownership]

    The host side of [circuit.go] and [explicit_path.go]: from a seed phrase to the
    master key, from a key and a CIP-1852 path to a credential, from a credential to
    the public input, and the exhaustive path search. *)
From Stdlib Require Import String.
From S2P Require Import Prelude.
From S2P Require Import Gnark.
From S2P Require Import Sha512Spec.
From S2P Require Import Blake2bSpec.
From S2P Require Import Ed25519.
From S2P Require Import Ckd.
From S2P Require Import GoText.

(** ** Third-party code *)

(** [golang.org/x/crypto/blake2b]: unkeyed BLAKE2b with an output of [n] bytes
    ([Sum256] is the case 32). *)
Class XCryptoBlake2b := {
  blake2b_sum : nat → list Z → list Z;
  blake2b_sum_spec n msg : (1 <= n <= 64)%nat → Forall is_byte msg →
    blake2b_sum n msg = RefBlake2b msg n;
}.

(** [github.com/tyler-smith/go-bip39] and [golang.org/x/crypto/pbkdf2] (with
    HMAC-SHA512). *)
Class SeedLib := {
  EntropyFromMnemonic : list Z → option (list Z);
  pbkdf2_Key : list Z → list Z → nat → nat → list Z;
  pbkdf2_Key_bytes password salt iter keyLen :
    Forall is_byte (pbkdf2_Key password salt iter keyLen) ∧
    length (pbkdf2_Key password salt iter keyLen) = keyLen;
}.

(** ** Errors *)

Inductive scan_name := ScanAccount | ScanRole | ScanIndex.

#[export] Instance scan_name_eq_dec : EqDecision scan_name.
Proof. solve_decision. Defined.

Inductive ownership_error :=
| Panic                                  (* a run-time panic, not an error value *)
| OutOfFuel                              (* the loop has not finished *)
| ErrMasterXPrvLength (n : nat)          (* "master xprv is %d bytes, want 96" *)
| ErrAccountRange                        (* "account must be < 2^31" *)
| ErrRoleRange                           (* "role must be 0, 1, or 2" *)
| ErrIndexRange                          (* "index must be < 2^31" *)
| ErrTargetLength (n : nat)              (* "target credential is %d bytes, want 28" *)
| ErrCredentialLength (n : nat)          (* "credential is %d bytes, want 28" *)
| ErrScanRange (name : scan_name) (explicit min explicitMax : Z)
                                         (* "%s %d outside allowed range %d..%d" *)
| ErrTargetNotFound                      (* "target credential not found in ..." *)
| ErrExplicitPathMismatch                (* "explicit path does not derive ..." *)
| ErrBip39                               (* "bip39 entropy: %w" *)
| ErrHex                                 (* "... hex: %w" *)
| ErrEmptyPublicInput                    (* "empty public input" *)
| ErrInvalidPublicInput                  (* "invalid public input %q" *)
| ErrPublicInputRange.                   (* "public input is outside ... field" *)
#[export] Instance ownership_error_eq_dec : EqDecision ownership_error.
Proof. solve_decision. Defined.

Definition or_panic {A} (o : option A) : result ownership_error A :=
  match o with Some a => Ok a | None => Err Panic end.

(** ** Paths *)

Definition u32 (x : Z) : Z := x mod 2 ^ 32.

(** [Path]: three [uint32]. *)
Record Path := { Account : Z; Role : Z; Index : Z }.
#[export] Instance Path_eq_dec : EqDecision Path.
Proof. solve_decision. Defined.

(** [SearchOptions]: three [int] (negative when not given) and two [uint32]. *)
Record SearchOptions := {
  oAccount : Z; oRole : Z; oIndex : Z; MaxAccount : Z; MaxIndex : Z }.

Definition validatePath (path : Path) : result ownership_error unit :=
  _ ← guard_err (2 ^ 31 <=? Account path) ErrAccountRange;
  _ ← guard_err (2 <? Role path) ErrRoleRange;
  guard_err (2 ^ 31 <=? Index path) ErrIndexRange.

(** [for v := min; v <= scanMax; v++] on [uint32]. *)
Fixpoint scan_loop (fuel : nat) (v scanMax : Z) (values : list Z) : option (list Z) :=
  match fuel with
  | O => None
  | S fuel => if v <=? scanMax then scan_loop fuel (u32 (v + 1)) scanMax (values ++ [v])
              else Some values
  end.

Definition scanValues (fuel : nat) (explicit min scanMax : Z) (name : scan_name)
    (explicitMax : Z) : result ownership_error (list Z) :=
  if 0 <=? explicit then
    let v := u32 explicit in
    if (explicitMax <? explicit) || (v <? min)
    then Err (ErrScanRange name explicit min explicitMax)
    else Ok [v]
  else match scan_loop fuel min scanMax [] with
       | Some values => Ok values
       | None => Err OutOfFuel
       end.

(** ** Master keys *)

Definition clamp_master (raw : list Z) : list Z :=
  let raw := <[0%nat := Z.land (raw !!! 0%nat) 0xF8]> raw in
  let raw := <[31%nat := Z.land (raw !!! 31%nat) 0x1F]> raw in
  <[31%nat := Z.lor (raw !!! 31%nat) 0x40]> raw.

Definition MasterXPrvFromSeedPhrase `{SeedLib} (seedPhrase : list Z) :
    result ownership_error (list Z) :=
  let phrase := Join (Fields seedPhrase) (str " ") in
  match EntropyFromMnemonic phrase with
  | None => Err ErrBip39
  | Some entropy => Ok (clamp_master (pbkdf2_Key [] entropy 4096 96))
  end.

(** ** Credentials *)

Section credentials.
Context `{XCryptoBlake2b}.

(** [None] is the panic of a reference scalar multiplication. *)
Definition RefCredential (leafKL : list Z) : option (list Z) :=
  let s := be_val (rev leafKL) in
  A ← RefScalarMulBase s;
  Some (blake2b_sum 28 (RefCompress A)).

Definition DeriveCredential (masterXPrv : list Z) (path : Path) : result ownership_error (list Z) :=
  if negb (length masterXPrv =? 96)%nat then Err (ErrMasterXPrvLength (length masterXPrv)) else
  _ ← validatePath path;
  leaf ← or_panic (DeriveRef masterXPrv (Account path) (Role path) (Index path));
  or_panic (RefCredential (KL leaf)).

(** The candidates in the order of the three nested loops. *)
Definition search_order (accounts roles indexes : list Z) : list Path :=
  account ← accounts; role ← roles; index ← indexes;
  [{| Account := account; Role := role; Index := index |}].

Fixpoint find_first (masterXPrv targetCredential : list Z) (paths : list Path) :
    result ownership_error Path :=
  match paths with
  | [] => Err ErrTargetNotFound
  | path :: paths =>
      credential ← DeriveCredential masterXPrv path;
      if decide (credential = targetCredential) then Ok path
      else find_first masterXPrv targetCredential paths
  end.

Definition FindPath (fuel : nat) (masterXPrv targetCredential : list Z) (opts : SearchOptions) :
    result ownership_error Path :=
  if negb (length targetCredential =? 28)%nat then Err (ErrTargetLength (length targetCredential)) else
  accounts ← scanValues fuel (oAccount opts) 0 (MaxAccount opts) ScanAccount (2 ^ 31 - 1);
  roles ← scanValues fuel (oRole opts) 0 2 ScanRole 2;
  indexes ← scanValues fuel (oIndex opts) 0 (MaxIndex opts) ScanIndex (2 ^ 31 - 1);
  find_first masterXPrv targetCredential (search_order accounts roles indexes).

(** [explicit_path.go] *)
Definition ValidateExplicitCredentialPath (masterXPrv targetCredential : list Z) (path : Path) :
    result ownership_error unit :=
  if negb (length targetCredential =? 28)%nat then Err (ErrTargetLength (length targetCredential)) else
  derived ← DeriveCredential masterXPrv path;
  guard_err (bool_decide (derived ≠ targetCredential)) ErrExplicitPathMismatch.

(** ** Public inputs *)

Definition Domain : list Z := str "ROOT-OWNERSHIP-v1".

Definition PublicInputDigestForCredential (credential : list Z) : result ownership_error (list Z) :=
  if negb (length credential =? 28)%nat then Err (ErrCredentialLength (length credential)) else
  Ok (blake2b_sum 32 (Domain ++ credential)).

(** [ecc.BLS12_381.ScalarField()] is the field the circuits are compiled over. *)
Definition digest_to_field `{Field} (digest : list Z) : Z := be_val (rev digest) mod field_order.

Definition PublicInputForCredential `{Field} (credential : list Z) : result ownership_error Z :=
  digest ← PublicInputDigestForCredential credential;
  Ok (digest_to_field digest).
End credentials.

Definition PublicInputHex (n : Z) : list Z := str "0x" ++ Text 16 n.

Definition ParsePublicInputHex `{Field} (s : list Z) : result ownership_error Z :=
  let raw := TrimPrefix (TrimSpace s) (str "0x") in
  if decide (raw = []) then Err ErrEmptyPublicInput else
  match SetString 16 raw with
  | None => Err ErrInvalidPublicInput
  | Some n => if (n <? 0) || (field_order <=? n) then Err ErrPublicInputRange else Ok n
  end.

Definition DecodeMasterXPrvHex (s : list Z) : result ownership_error (list Z) :=
  match hex_DecodeString (TrimPrefix (TrimSpace s) (str "0x")) with
  | None => Err ErrHex
  | Some b => if negb (length b =? 96)%nat then Err (ErrMasterXPrvLength (length b)) else Ok b
  end.

Definition DecodeCredentialHex (s : list Z) : result ownership_error (list Z) :=
  match hex_DecodeString (TrimPrefix (TrimSpace s) (str "0x")) with
  | None => Err ErrHex
  | Some b => if negb (length b =? 28)%nat then Err (ErrTargetLength (length b)) else Ok b
  end.
