(* ===== verification/OwnershipCircuit.v ===== *)
(** * The ownership circuits

    [ownership/circuit.go] (one credential), [ownershipdest/circuit.go] (one credential
    and a destination address) and [ownershipmulti/circuit.go] (several credentials and
    a destination address): the [Define] methods, the witness assignments and the
    public-input functions of the last two packages. *)
From Stdlib Require Import String.
From S2P Require Import Prelude.
From S2P Require Import Gnark.
From S2P Require Import CkdArith.
From S2P Require Import Sha512Spec.
From S2P Require Import Blake2bSpec.
From S2P Require Import Blake2b.
From S2P Require Import Ed25519.
From S2P Require Import Ckd.
From S2P Require Import CkdCircuit.
From S2P Require Import GoText.
From S2P Require Import Ownership.

(** The circuits' fields over wires ([V := var]) and over assigned values ([V := Z]). *)
Record PathWitness (V : Type) := { wAccount : V; wRole : V; wIndex : V }.
Arguments wAccount {_} _.
Arguments wRole {_} _.
Arguments wIndex {_} _.

Record OwnershipCircuit (V : Type) := {
  MasterKL : list V; MasterKR : list V; MasterCC : list V;
  CPath : PathWitness V;
  Pub : V }.
Arguments MasterKL {_} _.
Arguments MasterKR {_} _.
Arguments MasterCC {_} _.
Arguments CPath {_} _.
Arguments Pub {_} _.

(** ** The single-credential circuit *)

Section ownership.
Context `{EmulatedField P 255}.

Definition Credential (kLbits : list var) : Circuit (list U8 * list U8) :=
  g ← ScalarMulBaseBits kLbits;
  enc ← Compress g;
  A ← for_range 0 32 (λ i A, b ← bapi_ValueOf (enc !!! i); mret (A ++ [b])) [];
  c ← Blake2b A 28;
  mret (A, take 28 c).

(** From the last byte to the first: [acc = acc * 256 + digest[i]]. *)
Definition bytesToFieldLE (digest : list U8) : var :=
  foldr (λ d acc, api_Add (api_Mul acc (constant 256)) d) (constant 0) digest.

(** Hash a preimage of byte wires and bind the digest to the public input. *)
Definition bind_preimage (preimage : list U8) (pub : var) : Circuit unit :=
  digest ← Blake2b preimage 32;
  api_AssertIsEqual (bytesToFieldLE digest) pub.

Definition BindCredential (credential : list U8) (pub : var) : Circuit unit :=
  let domain := NewU8Array Domain in
  bind_preimage (domain ++ credential) pub.

Definition Define (c : OwnershipCircuit var) : Circuit unit :=
  leaf ← DeriveChain (MasterKL c) (MasterKR c) (MasterCC c)
           (wAccount (CPath c)) (wRole (CPath c)) (wIndex (CPath c));
  '(_, credential) ← Credential (leafKLbits leaf);
  BindCredential credential (Pub c).
End ownership.

(** [fillU8]: constants of a witness; a length mismatch panics. *)
Definition fillU8 (n : nat) (src : list Z) : option (list Z) :=
  if (length src =? n)%nat then Some src else None.

Definition path_witness (path : Path) : PathWitness Z :=
  {| wAccount := Account path; wRole := Role path; wIndex := Index path |}.

Definition Assignment (masterXPrv : list Z) (path : Path) (publicInput : Z) :
    result ownership_error (OwnershipCircuit Z) :=
  if negb (length masterXPrv =? 96)%nat then Err (ErrMasterXPrvLength (length masterXPrv)) else
  _ ← validatePath path;
  kl ← or_panic (fillU8 32 (take 32 masterXPrv));
  kr ← or_panic (fillU8 32 (take 32 (drop 32 masterXPrv)));
  cc ← or_panic (fillU8 32 (take 32 (drop 64 masterXPrv)));
  Ok {| MasterKL := kl; MasterKR := kr; MasterCC := cc;
        CPath := path_witness path; Pub := publicInput |}.

(** ** The destination circuit *)

Definition CredentialLen : nat := 28.
Definition DestinationAddressV1Len : nat := 58.
Definition DestDomain : list Z := str "ROOT-OWNERSHIP-DESTINATION-v1".

Record DestCircuit (V : Type) := {
  dOwner : OwnershipCircuit V;
  Destination : list V }.
Arguments dOwner {_} _.
Arguments Destination {_} _.

Inductive dest_error :=
| ErrOwnership (e : ownership_error)
| ErrPathAt (i : nat) (e : ownership_error)         (* "path %d: %w" *)
| ErrDestinationLength (n : nat)     (* "destination address v1 is %d bytes, want %d" *)
| ErrPublicInputRequired             (* "public input is required" *)
| ErrCredentialLen (n : nat)         (* "credential is %d bytes, want %d" *)
| ErrCredentialLenAt (i n : nat)     (* "credential %d is %d bytes, want %d" *)
| ErrCredentialCount (n : Z)         (* "credential count is %d, want 1..%d" *)
| ErrDestinationHex.                 (* "destination address v1 hex: %w" *)

Section destination.
Context `{EmulatedField P 255}.

Definition bindCredentialDestination (credential destination : list U8) (pub : var) : Circuit unit :=
  let domain := NewU8Array DestDomain in
  bind_preimage (domain ++ credential ++ destination) pub.

Definition DefineDest (c : DestCircuit var) : Circuit unit :=
  let o := dOwner c in
  leaf ← DeriveChain (MasterKL o) (MasterKR o) (MasterCC o)
           (wAccount (CPath o)) (wRole (CPath o)) (wIndex (CPath o));
  '(_, credential) ← Credential (leafKLbits leaf);
  bindCredentialDestination credential (Destination c) (Pub o).
End destination.

Section destination_host.
Context `{XCryptoBlake2b}.

Definition DestAssignment (masterXPrv : list Z) (path : Path) (destination : list Z)
    (publicInput : option Z) : result dest_error (DestCircuit Z) :=
  if negb (length masterXPrv =? 96)%nat
  then Err (ErrOwnership (ErrMasterXPrvLength (length masterXPrv))) else
  if negb (length destination =? DestinationAddressV1Len)%nat
  then Err (ErrDestinationLength (length destination)) else
  match publicInput with
  | None => Err ErrPublicInputRequired
  | Some publicInput =>
      _ ← map_err ErrOwnership (DeriveCredential masterXPrv path);
      kl ← map_err ErrOwnership (or_panic (fillU8 32 (take 32 masterXPrv)));
      kr ← map_err ErrOwnership (or_panic (fillU8 32 (take 32 (drop 32 masterXPrv))));
      cc ← map_err ErrOwnership (or_panic (fillU8 32 (take 32 (drop 64 masterXPrv))));
      d ← map_err ErrOwnership (or_panic (fillU8 DestinationAddressV1Len destination));
      Ok {| dOwner := {| MasterKL := kl; MasterKR := kr; MasterCC := cc;
                         CPath := path_witness path; Pub := publicInput |};
            Destination := d |}
  end.

Definition PublicInputDigestForCredentialDestination (credential destination : list Z) :
    result dest_error (list Z) :=
  if negb (length credential =? CredentialLen)%nat then Err (ErrCredentialLen (length credential)) else
  if negb (length destination =? DestinationAddressV1Len)%nat
  then Err (ErrDestinationLength (length destination)) else
  Ok (blake2b_sum 32 (DestDomain ++ credential ++ destination)).

Definition PublicInputForCredentialDestination `{Field} (credential destination : list Z) :
    result dest_error Z :=
  digest ← PublicInputDigestForCredentialDestination credential destination;
  Ok (digest_to_field digest).
End destination_host.

Definition DecodeDestinationAddressV1Hex (s : list Z) : result dest_error (list Z) :=
  match hex_DecodeString (TrimPrefix (TrimSpace s) (str "0x")) with
  | None => Err ErrDestinationHex
  | Some b => if negb (length b =? DestinationAddressV1Len)%nat
              then Err (ErrDestinationLength (length b)) else Ok b
  end.

(** ** The multi-credential circuit *)

Definition MultiDomain : list Z := str "ROOT-OWNERSHIP-MULTI-v1".
Definition MaxCredentialCount : Z := 65535.

Definition ValidateCredentialCount (count : Z) : result dest_error unit :=
  guard_err ((count <? 1) || (MaxCredentialCount <? count)) (ErrCredentialCount count).

(** [None] is the panic on an invalid count. *)
Definition credentialCountU16BE (count : Z) : option (list Z) :=
  match ValidateCredentialCount count with
  | Err _ => None
  | Ok _ => Some [byte (Z.shiftr count 8); byte count]
  end.

Record MultiCircuit (V : Type) := {
  mKL : list V; mKR : list V; mCC : list V;
  Paths : list (PathWitness V);
  mDestination : list V;
  mPub : V }.
Arguments mKL {_} _.
Arguments mKR {_} _.
Arguments mCC {_} _.
Arguments Paths {_} _.
Arguments mDestination {_} _.
Arguments mPub {_} _.

Section multi.
Context `{EmulatedField P 255}.

Definition deriveCredential (masterKL masterKR masterCC : list U8) (p : PathWitness var) :
    Circuit (list U8) :=
  leaf ← DeriveChain masterKL masterKR masterCC (wAccount p) (wRole p) (wIndex p);
  '(_, credential) ← Credential (leafKLbits leaf);
  mret credential.

Fixpoint deriveCredentials_loop (masterKL masterKR masterCC : list U8)
    (paths : list (PathWitness var)) : Circuit (list (list U8)) :=
  match paths with
  | [] => mret []
  | p :: paths =>
      c ← deriveCredential masterKL masterKR masterCC p;
      cs ← deriveCredentials_loop masterKL masterKR masterCC paths;
      mret (c :: cs)
  end.

Definition bindCredentialsDestination (credentials : list (list U8)) (destination : list U8)
    (pub : var) : Circuit unit :=
  let domain := NewU8Array MultiDomain in
  count ← circuit_of_option (credentialCountU16BE (Z.of_nat (length credentials)));
  let count := NewU8Array count in
  bind_preimage (domain ++ count ++ concat credentials ++ destination) pub.

(** An invalid count is an error of [Define]: there is no circuit. *)
Definition DefineMulti (c : MultiCircuit var) : Circuit unit :=
  match ValidateCredentialCount (Z.of_nat (length (Paths c))) with
  | Err _ => circuit_panic
  | Ok _ =>
      credentials ← deriveCredentials_loop (mKL c) (mKR c) (mCC c) (Paths c);
      bindCredentialsDestination credentials (mDestination c) (mPub c)
  end.
End multi.

Section multi_host.
Context `{XCryptoBlake2b}.

Fixpoint derive_all (masterXPrv : list Z) (i : nat) (paths : list Path) :
    result dest_error (list (list Z)) :=
  match paths with
  | [] => Ok []
  | path :: paths =>
      credential ← map_err (ErrPathAt i) (DeriveCredential masterXPrv path);
      credentials ← derive_all masterXPrv (S i) paths;
      Ok (credential :: credentials)
  end.

Definition DeriveCredentials (masterXPrv : list Z) (paths : list Path) :
    result dest_error (list (list Z)) :=
  _ ← ValidateCredentialCount (Z.of_nat (length paths));
  derive_all masterXPrv 0 paths.

Definition MultiAssignment (masterXPrv : list Z) (paths : list Path) (destination : list Z)
    (publicInput : option Z) : result dest_error (MultiCircuit Z) :=
  if negb (length masterXPrv =? 96)%nat
  then Err (ErrOwnership (ErrMasterXPrvLength (length masterXPrv))) else
  _ ← ValidateCredentialCount (Z.of_nat (length paths));
  if negb (length destination =? DestinationAddressV1Len)%nat
  then Err (ErrDestinationLength (length destination)) else
  match publicInput with
  | None => Err ErrPublicInputRequired
  | Some publicInput =>
      _ ← derive_all masterXPrv 0 paths;
      kl ← map_err ErrOwnership (or_panic (fillU8 32 (take 32 masterXPrv)));
      kr ← map_err ErrOwnership (or_panic (fillU8 32 (take 32 (drop 32 masterXPrv))));
      cc ← map_err ErrOwnership (or_panic (fillU8 32 (take 32 (drop 64 masterXPrv))));
      d ← map_err ErrOwnership (or_panic (fillU8 DestinationAddressV1Len destination));
      Ok {| mKL := kl; mKR := kr; mCC := cc; Paths := path_witness <$> paths;
            mDestination := d; mPub := publicInput |}
  end.

(** The credentials appended to the preimage, each of the right length. *)
Fixpoint append_credentials (i : nat) (credentials : list (list Z)) : result dest_error (list Z) :=
  match credentials with
  | [] => Ok []
  | credential :: credentials =>
      if negb (length credential =? CredentialLen)%nat
      then Err (ErrCredentialLenAt i (length credential)) else
      rest ← append_credentials (S i) credentials;
      Ok (credential ++ rest)
  end.

Definition PublicInputDigestForCredentialsDestination (credentials : list (list Z))
    (destination : list Z) : result dest_error (list Z) :=
  let count := Z.of_nat (length credentials) in
  _ ← ValidateCredentialCount count;
  if negb (length destination =? DestinationAddressV1Len)%nat
  then Err (ErrDestinationLength (length destination)) else
  match credentialCountU16BE count with
  | None => Err (ErrOwnership Panic)
  | Some countU16 =>
      body ← append_credentials 0 credentials;
      Ok (blake2b_sum 32 (MultiDomain ++ countU16 ++ body ++ destination))
  end.

Definition PublicInputForCredentialsDestination `{Field} (credentials : list (list Z))
    (destination : list Z) : result dest_error Z :=
  digest ← PublicInputDigestForCredentialsDestination credentials destination;
  Ok (digest_to_field digest).
End multi_host.

(** ** Circuit identifiers *)

Definition id_prefix : list Z := str "root-ownership-multi-destination-v2-count".
Definition id_suffix : list Z := str "/bls12-381/groth16".

Definition CircuitIDForCount (count : Z) : list Z := id_prefix ++ Itoa count ++ id_suffix.
Definition KeyVersionForCount (count : Z) : list Z :=
  str "ownership-multi-destination-v2-count" ++ Itoa count.

Definition CircuitCountFromID (circuitID : list Z) : option Z :=
  if negb (HasPrefix circuitID id_prefix) || negb (HasSuffix circuitID id_suffix) then None else
  let rawCount := TrimSuffix (TrimPrefix circuitID id_prefix) id_suffix in
  count ← Atoi rawCount;
  if is_ok (ValidateCredentialCount count) then Some count else None.

Definition IsCircuitID (circuitID : list Z) : bool := bool_decide (is_Some (CircuitCountFromID circuitID)).
