(* ===== verification/OwnershipCircuitCorrect.v ===== *)
(** * What the ownership circuits prove

    For each circuit: the witnesses it accepts are exactly those whose master key
    derives, through [DeriveCredential], the credentials its public input commits to. *)
From Stdlib Require Import String FunctionalExtensionality.
From S2P Require Import Prelude.
From S2P Require Import Gnark.
From S2P Require Import CkdArith.
From S2P Require Import Sha512Spec.
From S2P Require Import Sha512Correct.
From S2P Require Import Blake2bSpec.
From S2P Require Import Blake2b.
From S2P Require Import Blake2bCorrect.
From S2P Require Import Ed25519.
From S2P Require Import EdPoly.
From S2P Require Import EdCurve.
From S2P Require Import Ed25519Group.
From S2P Require Import Ed25519Correct.
From S2P Require Import Ckd.
From S2P Require Import CkdCircuit.
From S2P Require Import ChainCorrect.
From S2P Require Import GoText.
From S2P Require Import Ownership.
From S2P Require Import OwnershipCircuit.

(** ** The host functions on valid input *)

Lemma validatePath_Ok path : validatePath path = Ok tt ↔
  Account path < 2 ^ 31 ∧ Role path <= 2 ∧ Index path < 2 ^ 31.
Proof.
  unfold validatePath, guard_err.
  destruct (Z.leb_spec (2 ^ 31) (Account path)); [split; [done|lia]|].
  destruct (Z.ltb_spec 2 (Role path)); [split; [done|lia]|].
  destruct (Z.leb_spec (2 ^ 31) (Index path)); [split; [done|lia]|]. by split.
Qed.

Section host.
Context `{XCryptoBlake2b}.

(** The credential of a leaf. *)
Definition leaf_credential (e : Ext) : list Z :=
  RefBlake2b (RefCompress (ref_of (ed_mul (le_val (KL e)) ed_base))) 28.

Lemma leaf_credential_wf e :
  Forall is_byte (leaf_credential e) ∧ length (leaf_credential e) = 28%nat.
Proof. apply RefBlake2b_wf. lia. Qed.

Lemma RefCredential_ok e : Ext_wf e → RefCredential (KL e) = Some (leaf_credential e).
Proof.
  intros Hw. pose proof (bytes32_bound _ (wf_KL _ Hw)). unfold RefCredential, be_val.
  rewrite rev_involutive, RefScalarMulBase_ok by lia. cbn [mbind option_bind]. f_equal.
  apply blake2b_sum_spec; [lia|].
  by apply (RefCompress_bytes _ _ eq_refl).
Qed.

Lemma split96_master_ext kl kr cc (bs : list Z) :
  bs = kl ++ kr ++ cc → length kl = 32%nat → length kr = 32%nat → length cc = 32%nat →
  split96 bs = {| KL := kl; KR := kr; CC := cc |}.
Proof.
  intros -> Lk Lr Lc. unfold split96.
  rewrite take_app_length' by done. rewrite (drop_app_length' kl) by done.
  rewrite take_app_length' by done. rewrite (app_assoc kl), drop_app_length', take_ge; [done| |];
    rewrite ?length_app; lia.
Qed.

Lemma clamped_bound master96 : Forall is_byte master96 → length master96 = 96%nat →
  icarus_clamped (le_val (take 32 master96)) → hop_bound 0 (split96 master96).
Proof.
  intros Hb Hl Hc. pose proof (icarus_range _ Hc).
  split; [apply split96_wf; [done|lia]|cbn [split96 KL]; lia].
Qed.

(** The leaf of a path. *)
Definition path_leaf (master96 : list Z) (path : Path) : Ext :=
  leaf_ext (split96 master96) (Account path) (Role path) (Index path).

(** A clamped master derives a credential on every path. *)
Lemma DeriveCredential_clamped master96 path :
  Forall is_byte master96 → length master96 = 96%nat →
  icarus_clamped (le_val (take 32 master96)) → validatePath path = Ok tt →
  DeriveRef master96 (Account path) (Role path) (Index path) = Some (path_leaf master96 path) ∧
  DeriveCredential master96 path = Ok (leaf_credential (path_leaf master96 path)).
Proof.
  intros Hb Hl Hc Hp. pose proof (clamped_bound _ Hb Hl Hc) as Hm.
  assert (DeriveRef master96 (Account path) (Role path) (Index path) = Some (path_leaf master96 path)) as Hd.
  { unfold DeriveRef, DeriveLevels. rewrite Hl. cbn [Nat.ltb Nat.leb].
    by rewrite (derive_path _ _ _ _ Hm). }
  split; [exact Hd|]. unfold DeriveCredential. rewrite Hl, Hp. cbn [Nat.eqb negb mbind result_bind].
  rewrite Hd. cbn [or_panic mbind result_bind]. by rewrite RefCredential_ok by exact (child_wf _ _ _).
Qed.

Lemma DeriveCredential_valid_path master96 path c :
  DeriveCredential master96 path = Ok c → validatePath path = Ok tt.
Proof.
  unfold DeriveCredential. destruct (negb _); [done|]. intros ([] & Hp & _)%bind_Ok. done.
Qed.

Lemma DeriveCredential_length master96 path c :
  DeriveCredential master96 path = Ok c → length master96 = 96%nat.
Proof.
  unfold DeriveCredential. destruct (Nat.eqb_spec (length master96) 96); [done|]. done.
Qed.
End host.

(** ** Hashing and binding *)

Section bind.
Context `{EmulatedField P 255} `{XCryptoBlake2b}.

Lemma bytesToFieldLE_val us bs : bytes_are us bs →
  value (bytesToFieldLE us) = le_val bs mod field_order.
Proof.
  intros [<- Hb]. clear Hb. unfold bytesToFieldLE.
  induction us as [|u us IH]; cbn [foldr fmap list_fmap digits_val].
  { rewrite value_constant. done. }
  rewrite value_Add, value_Mul, IH, value_constant_small by lia.
  rewrite Zmult_mod_idemp_l, Zplus_mod_idemp_l. f_equal. lia.
Qed.

Lemma digest_to_field_le bs : digest_to_field bs = le_val bs mod field_order.
Proof. unfold digest_to_field, be_val. by rewrite rev_involutive. Qed.

Lemma bind_preimage_cases us bs pub : bytes_are us bs → Z.of_nat (length bs) < 2 ^ 56 →
  (digest_to_field (blake2b_sum 32 bs) = value pub →
    circuit_ok (bind_preimage us pub) (λ _, True)) ∧
  (digest_to_field (blake2b_sum 32 bs) ≠ value pub → rejects (bind_preimage us pub)).
Proof.
  intros Hb Hl. rewrite digest_to_field_le, blake2b_sum_spec by (lia || apply Hb).
  pose proof (Blake2b_spec us bs 32 Hb ltac:(lia) Hl) as Hh. unfold bind_preimage. split; intros E.
  - step (exact Hh) as digest Hd. apply ok_assert_equal; [|done].
    by rewrite (bytesToFieldLE_val _ _ Hd).
  - eapply rejects_bind; [apply Hh|]. cbv beta. intros digest Hd. apply rejects_assert_equal.
    by rewrite (bytesToFieldLE_val _ _ Hd).
Qed.

Lemma bind_preimage_rejects us pub : Z.of_nat (length us) < 2 ^ 56 →
  ¬ Forall is_byte (value <$> us) → rejects (bind_preimage us pub).
Proof. intros Hl Hb. by apply rejects_bind_l, Blake2b_rejects. Qed.

Lemma Credential_ok bits e : value <$> bits = bits_of 256 (le_val (KL e)) → Ext_wf e →
  le_val (KL e) < 2 ^ 255 →
  circuit_ok (Credential bits) (λ '(_, c), bytes_are c (leaf_credential e)).
Proof.
  intros Hb Hw Hlt. pose proof (bytes32_bound _ (wf_KL _ Hw)) as Hr.
  pose proof (key_bytes_ok _ _ Hb (conj (proj1 Hr) Hlt)) as Hk.
  assert (Credential bits = ((g ← ScalarMulBaseBits bits; enc ← Compress g;
      for_range 0 32 (λ i A, b ← bapi_ValueOf (enc !!! i); mret (A ++ [b])) []) ≫= λ A,
      c ← Blake2b A 28; mret (A, take 28 c))) as ->.
  { unfold Credential. rewrite <- circuit_bind_assoc. f_equal.
    apply functional_extensionality. intros g. by rewrite <- circuit_bind_assoc. }
  step (exact Hk) as A HA.
  destruct (RefCompress_bytes (ref_of (ed_mul (le_val (KL e)) ed_base)) _ eq_refl) as (_ & Hl & _).
  step (apply (Blake2b_spec A _ 28 HA); [lia|rewrite Hl; lia]) as c Hc.
  apply ok_ret. apply bytes_are_take_all; [exact Hc|].
  exact (Nat.eq_le_incl _ _ (proj2 (leaf_credential_wf e))).
Qed.

(** ** From wires to a credential *)

Definition wires_path (p : PathWitness var) : Path :=
  {| Account := value (wAccount p); Role := value (wRole p); Index := value (wIndex p) |}.

(** Byte wires of a clamped master. *)
Definition master_valid (kl kr cc : list U8) : Prop :=
  Forall is_byte (value <$> kl ++ kr ++ cc) ∧ icarus_clamped (le_val (value <$> kl)).

#[export] Instance master_valid_dec kl kr cc : Decision (master_valid kl kr cc).
Proof. unfold master_valid, icarus_clamped. apply _. Defined.

Lemma chain_valid_iff kl kr cc p :
  chain_valid kl kr cc (wAccount p) (wRole p) (wIndex p) ↔
  master_valid kl kr cc ∧ validatePath (wires_path p) = Ok tt.
Proof.
  unfold chain_valid, master_valid. rewrite validatePath_Ok, !fmap_app, !Forall_app. cbn. tauto.
Qed.

#[export] Instance validatePath_dec path : Decision (validatePath path = Ok tt).
Proof. destruct (validatePath path) as [[]|e]; [by left|by right]. Defined.

Section master.
Variables kl kr cc : list U8.
Hypotheses (Lkl : length kl = 32%nat) (Lkr : length kr = 32%nat) (Lcc : length cc = 32%nat).
#[local] Abbreviation master := (value <$> kl ++ kr ++ cc).

Lemma length_master : length master = 96%nat.
Proof. rewrite length_fmap, !length_app. lia. Qed.

Lemma take_master : take 32 master = value <$> kl.
Proof. rewrite fmap_app. apply take_app_length'. by rewrite length_fmap. Qed.

Lemma deriveCredential_cases p :
  (master_valid kl kr cc ∧ validatePath (wires_path p) = Ok tt →
    circuit_ok (deriveCredential kl kr cc p) (λ C, ∃ credential,
      DeriveCredential master (wires_path p) = Ok credential ∧ bytes_are C credential ∧
      length credential = 28%nat)) ∧
  (¬ (master_valid kl kr cc ∧ validatePath (wires_path p) = Ok tt) →
    rejects (deriveCredential kl kr cc p)).
Proof.
  rewrite <- chain_valid_iff. split; intros Hv; unfold deriveCredential.
  - pose proof (chain_valid_bound kl kr cc (wAccount p) (wRole p) (wIndex p) Lkl Lkr Lcc Hv) as Hm.
    pose proof (DeriveRef_leaf kl kr cc (wAccount p) (wRole p) (wIndex p) Lkl Lkr Lcc Hm) as Hd.
    destruct (path_bounds _ (value (wAccount p)) (value (wRole p)) (value (wIndex p)) Hm)
      as (_ & _ & _ & Hp & Hlt).
    set (leaf := leaf_ext (master_ext kl kr cc) (value (wAccount p)) (value (wRole p)) (value (wIndex p)))
      in *.
    assert (Ext_wf leaf) as Hw by exact (child_wf _ _ _).
    assert (le_val (KL leaf) < 2 ^ 255) as Hlt'.
    { unfold leaf, leaf_ext. rewrite child_KL_val; [exact Hlt|apply Hp|exact Hlt]. }
    step (exact (DeriveChain_ok kl kr cc _ _ _ Lkl Lkr Lcc Hv)) as l [_ Hl].
    step (exact (Credential_ok _ _ Hl Hw Hlt')) as [A C] HC. apply ok_ret.
    exists (leaf_credential leaf). split; [|split; [exact HC|apply leaf_credential_wf]].
    apply chain_valid_iff in Hv as [[Hb Hcl] Hpath].
    destruct (DeriveCredential_clamped master (wires_path p) Hb length_master) as (Hd' & Hc');
      [by rewrite take_master|done|].
    assert (path_leaf master (wires_path p) = leaf) as Heq
      by exact (Some_inj _ _ (eq_trans (eq_sym Hd') Hd)).
    exact (eq_trans Hc' (f_equal (λ l, Ok (leaf_credential l)) Heq)).
  - apply rejects_bind_l. by apply DeriveChain_rejects.
Qed.

(** Derive one credential, then bind it: [good] is what the binding accepts. *)
Lemma owner_cases p (k : list U8 → Circuit unit) (good : list Z → Prop) :
  (∀ cred, Decision (good cred)) →
  (∀ C cred, bytes_are C cred → length cred = 28%nat →
    (good cred → circuit_ok (k C) (λ _, True)) ∧ (¬ good cred → rejects (k C))) →
  let owns := master_valid kl kr cc ∧
    ∃ cred, DeriveCredential master (wires_path p) = Ok cred ∧ good cred in
  (owns → circuit_ok (deriveCredential kl kr cc p ≫= k) (λ _, True)) ∧
  (¬ owns → rejects (deriveCredential kl kr cc p ≫= k)).
Proof.
  intros Hdec Hk owns. destruct (deriveCredential_cases p) as [Hok Hrej]. split.
  - intros (Hm & cred & Hd & Hg). pose proof (DeriveCredential_valid_path _ _ _ Hd) as Hp.
    step (exact (Hok (conj Hm Hp))) as C (cred' & Hd' & HC & Hl).
    rewrite Hd in Hd'. injection Hd' as <-. by apply (Hk C cred).
  - intros Hn. destruct (decide (master_valid kl kr cc ∧ validatePath (wires_path p) = Ok tt)) as [Hv|Hv];
      [|by apply rejects_bind_l, Hrej].
    eapply rejects_bind; [exact (proj1 (Hok Hv))|]. cbv beta. intros C (cred & Hd & HC & Hl).
    apply (Hk C cred HC Hl). intros Hg. apply Hn. split; [apply Hv|eauto].
Qed.

(** Several credentials, in the order of the paths. *)
Lemma deriveCredentials_cases i ps :
  let valid := Forall (λ p, master_valid kl kr cc ∧ validatePath (wires_path p) = Ok tt) ps in
  (valid → circuit_ok (deriveCredentials_loop kl kr cc ps) (λ Cs, ∃ creds,
    derive_all master i (wires_path <$> ps) = Ok creds ∧ Forall2 bytes_are Cs creds ∧
    Forall (λ c, length c = 28%nat) creds ∧ length creds = length ps)) ∧
  (¬ valid → rejects (deriveCredentials_loop kl kr cc ps)).
Proof.
  cbv zeta. revert i. induction ps as [|p ps IH]; intros i.
  { split; [intros _; apply ok_ret; by exists []|intros []; constructor]. }
  destruct (deriveCredential_cases p) as [Hok Hrej]. destruct (IH (S i)) as [IHok IHrej].
  cbn [deriveCredentials_loop fmap list_fmap derive_all]. rewrite Forall_cons. split.
  - intros [Hp Hps]. step (exact (Hok Hp)) as C (cred & Hd & HC & Hl).
    step (exact (IHok Hps)) as Cs (creds & Hds & HCs & Hls & Hlen). apply ok_ret.
    exists (cred :: creds). rewrite Hd. cbn [map_err mbind result_bind]. rewrite Hds. cbn.
    split; [done|]. split; [by constructor|]. split; [by constructor|]. by rewrite Hlen.
  - intros Hn. destruct (decide (master_valid kl kr cc ∧ validatePath (wires_path p) = Ok tt)) as [Hp|Hp];
      [|by apply rejects_bind_l, Hrej].
    eapply rejects_bind; [exact (proj1 (Hok Hp))|]. cbv beta. intros C _.
    apply rejects_bind_l, IHrej. tauto.
Qed.
End master.

(** ** The three circuits *)

Lemma const_bytes_are bs : forallb (λ b, (0 <=? b) && (b <? 256)) bs = true →
  bytes_are (NewU8Array bs) bs.
Proof.
  intros Hb. apply NewU8Array_are, Forall_forall. intros b Hin.
  rewrite forallb_forall in Hb. specialize (Hb b (proj1 (list_elem_of_In _ _) Hin)).
  apply andb_true_iff in Hb as [Hlo Hhi]. unfold is_digit. lia.
Qed.

(** [deriveCredential] is the common first half of the two single-credential circuits. *)
Lemma derive_then_bind kl kr cc p (k : list U8 → Circuit unit) :
  (leaf ← DeriveChain kl kr cc (wAccount p) (wRole p) (wIndex p);
   '(_, credential) ← Credential (leafKLbits leaf); k credential) =
  (deriveCredential kl kr cc p ≫= k).
Proof.
  unfold deriveCredential. rewrite <- circuit_bind_assoc. f_equal.
  apply functional_extensionality. intros leaf. rewrite <- circuit_bind_assoc. f_equal.
  apply functional_extensionality. by intros [A C].
Qed.

Definition circuit_shape (c : OwnershipCircuit var) : Prop :=
  length (MasterKL c) = 32%nat ∧ length (MasterKR c) = 32%nat ∧ length (MasterCC c) = 32%nat.

(** The 96 bytes on the master wires. *)
Definition circuit_master (c : OwnershipCircuit var) : list Z :=
  value <$> MasterKL c ++ MasterKR c ++ MasterCC c.

(** The statement the proof makes about its public input. *)
Definition owns (c : OwnershipCircuit var) : Prop :=
  master_valid (MasterKL c) (MasterKR c) (MasterCC c) ∧
  ∃ credential, DeriveCredential (circuit_master c) (wires_path (CPath c)) = Ok credential ∧
    PublicInputForCredential credential = Ok (value (Pub c)).

Lemma PublicInputForCredential_28 cred z : length cred = 28%nat →
  PublicInputForCredential cred = Ok z ↔ digest_to_field (blake2b_sum 32 (Domain ++ cred)) = z.
Proof.
  intros Hl. unfold PublicInputForCredential, PublicInputDigestForCredential. rewrite Hl. cbn.
  split; [by intros [= <-]|by intros <-].
Qed.

(** Close the goal with the hypothesis that it is, without computing. *)
Ltac exact_hyp := match goal with H : ?P |- ?Q => constr_eq P Q; exact H end.

Lemma Define_cases c : circuit_shape c →
  (owns c → circuit_ok (Define c) (λ _, True)) ∧ (¬ owns c → rejects (Define c)).
Proof.
  intros (Lkl & Lkr & Lcc). unfold Define. rewrite derive_then_bind.
  destruct (owner_cases _ _ _ Lkl Lkr Lcc (CPath c) (λ cred, BindCredential cred (Pub c))
    (λ cred, PublicInputForCredential cred = Ok (value (Pub c)))) as [Hok Hrej].
  - intros cred. destruct (PublicInputForCredential cred) as [z|e]; [|by right].
    destruct (Z.eq_dec z (value (Pub c))) as [->|Hne]; [by left|]. right. congruence.
  - intros C cred HC Hl. rewrite PublicInputForCredential_28 by done.
    destruct (bind_preimage_cases (NewU8Array Domain ++ C) (Domain ++ cred) (Pub c)) as [Ho Hr].
    + apply bytes_are_app; [by apply const_bytes_are|done].
    + rewrite length_app, Hl. change (length Domain) with 17%nat. lia.
    + unfold BindCredential. cbv zeta. split; exact_hyp.
  - split; [exact Hok|exact Hrej].
Qed.

(** C1 The ownership circuit proves ownership.  [Define] accepts a witness exactly when
    the wires hold the bytes of a clamped 96-byte master key from which
    [DeriveCredential] computes, on the witnessed path, a credential whose
    [PublicInputForCredential] is the public input; the honest prover then succeeds,
    and every other witness is refused whatever the hints answer. *)
Theorem Define_exact c : circuit_shape c →
  (owns c → circuit_ok (Define c) (λ _, True)) ∧ (¬ owns c → rejects (Define c)).
Proof. exact (Define_cases c). Qed.

(** *** With a destination address *)

Definition owns_to (c : DestCircuit var) : Prop :=
  let o := dOwner c in
  master_valid (MasterKL o) (MasterKR o) (MasterCC o) ∧
  ∃ credential, DeriveCredential (circuit_master o) (wires_path (CPath o)) = Ok credential ∧
    Forall is_byte (value <$> Destination c) ∧
    PublicInputForCredentialDestination credential (value <$> Destination c) = Ok (value (Pub o)).

Lemma PublicInputForDestination_ok cred dest z : length cred = 28%nat → length dest = 58%nat →
  PublicInputForCredentialDestination cred dest = Ok z ↔
  digest_to_field (blake2b_sum 32 (DestDomain ++ cred ++ dest)) = z.
Proof.
  intros Hl Hd. unfold PublicInputForCredentialDestination, PublicInputDigestForCredentialDestination.
  rewrite Hl, Hd. cbn. split; [by intros [= <-]|by intros <-].
Qed.

Lemma DefineDest_cases c : circuit_shape (dOwner c) → length (Destination c) = 58%nat →
  (owns_to c → circuit_ok (DefineDest c) (λ _, True)) ∧ (¬ owns_to c → rejects (DefineDest c)).
Proof.
  intros (Lkl & Lkr & Lcc) Ld. unfold DefineDest. cbv zeta. rewrite derive_then_bind.
  assert (length (value <$> Destination c) = 58%nat) as Ldv by by rewrite length_fmap.
  destruct (owner_cases _ _ _ Lkl Lkr Lcc (CPath (dOwner c))
    (λ cred, bindCredentialDestination cred (Destination c) (Pub (dOwner c)))
    (λ cred, Forall is_byte (value <$> Destination c) ∧
       PublicInputForCredentialDestination cred (value <$> Destination c) = Ok (value (Pub (dOwner c)))))
    as [Hok Hrej].
  - intros cred. apply and_dec; [apply _|].
    destruct (PublicInputForCredentialDestination _ _) as [z|e]; [|by right].
    destruct (Z.eq_dec z (value (Pub (dOwner c)))) as [->|Hne]; [by left|]. right. congruence.
  - intros C cred HC Hl. rewrite PublicInputForDestination_ok by done.
    set (us := NewU8Array DestDomain ++ C ++ Destination c).
    destruct (decide (Forall is_byte (value <$> Destination c))) as [Hb|Hb].
    + destruct (bind_preimage_cases us (DestDomain ++ cred ++ (value <$> Destination c)) (Pub (dOwner c)))
        as [Ho Hr].
      * apply bytes_are_app; [by apply const_bytes_are|]. by apply bytes_are_app.
      * rewrite !length_app, Hl, Ldv. change (length DestDomain) with 29%nat. lia.
      * subst us. unfold bindCredentialDestination. cbv zeta. split.
        -- intros [_ E]. specialize (Ho E). exact_hyp.
        -- intros Hn. assert (¬ digest_to_field (blake2b_sum 32 (DestDomain ++ cred ++ (value <$> Destination c))) = value (Pub (dOwner c))) as Hn' by tauto.
           specialize (Hr Hn'). exact_hyp.
    + split; [tauto|]. intros _. apply bind_preimage_rejects.
      * unfold us. rewrite !length_app, Ld, (bytes_are_length _ _ HC), Hl.
        rewrite (bytes_are_length _ _ (const_bytes_are DestDomain eq_refl)).
        change (length DestDomain) with 29%nat. lia.
      * unfold us. rewrite !fmap_app, !Forall_app. tauto.
  - split; [exact Hok|exact Hrej].
Qed.

Lemma PublicInputDest_length cred dest z : PublicInputForCredentialDestination cred dest = Ok z →
  length cred = 28%nat ∧ length dest = 58%nat.
Proof.
  unfold PublicInputForCredentialDestination, PublicInputDigestForCredentialDestination.
  destruct (Nat.eqb_spec (length cred) CredentialLen), (Nat.eqb_spec (length dest) DestinationAddressV1Len); done.
Qed.

(** Two texts with one public input: a collision of BLAKE2b-256 modulo the field. *)
Definition input_collision (x y : list Z) : Prop :=
  x ≠ y ∧ digest_to_field (blake2b_sum 32 x) = digest_to_field (blake2b_sum 32 y).

Lemma same_input x y : digest_to_field (blake2b_sum 32 x) = digest_to_field (blake2b_sum 32 y) →
  x = y ∨ input_collision x y.
Proof. destruct (decide (x = y)); [by left|by right]. Qed.

Lemma owns_to_binds c c' : length (Destination c) = 58%nat → length (Destination c') = 58%nat →
  owns_to c → owns_to c' → value (Pub (dOwner c)) = value (Pub (dOwner c')) →
  ∃ cred cred', DeriveCredential (circuit_master (dOwner c)) (wires_path (CPath (dOwner c))) = Ok cred ∧
    DeriveCredential (circuit_master (dOwner c')) (wires_path (CPath (dOwner c'))) = Ok cred' ∧
    (cred = cred' ∧ value <$> Destination c = value <$> Destination c' ∨
     input_collision (DestDomain ++ cred ++ (value <$> Destination c))
                     (DestDomain ++ cred' ++ (value <$> Destination c'))).
Proof.
  intros Hl Hl' (_ & cred & Hd & _ & Hp) (_ & cred' & Hd' & _ & Hp') Hpub. exists cred, cred'.
  split; [done|]. split; [done|]. pose proof (PublicInputDest_length _ _ _ Hp) as [Hc Hn].
  pose proof (PublicInputDest_length _ _ _ Hp') as [Hc' Hn'].
  apply PublicInputForDestination_ok in Hp; [|done..]. apply PublicInputForDestination_ok in Hp'; [|done..].
  destruct (same_input (DestDomain ++ cred ++ (value <$> Destination c))
    (DestDomain ++ cred' ++ (value <$> Destination c'))) as [He|?]; [congruence|left|by right].
  apply app_inv_head in He. apply app_inj_1 in He; [done|lia].
Qed.

(** C6 The destination circuit binds the destination address.  [DefineDest] accepts
    exactly the witnesses whose clamped master derives, on the witnessed path, a
    credential that together with the 58 destination bytes hashes to the public input;
    and two accepted witnesses with one public input are for the same credential and the
    same destination, unless the two texts hashed are a collision of BLAKE2b-256 modulo
    the field. *)
Theorem DefineDest_exact c : circuit_shape (dOwner c) → length (Destination c) = 58%nat →
  (owns_to c → circuit_ok (DefineDest c) (λ _, True)) ∧ (¬ owns_to c → rejects (DefineDest c)) ∧
  ∀ c', length (Destination c') = 58%nat → owns_to c → owns_to c' →
    value (Pub (dOwner c)) = value (Pub (dOwner c')) →
    ∃ cred cred', DeriveCredential (circuit_master (dOwner c)) (wires_path (CPath (dOwner c))) = Ok cred ∧
      DeriveCredential (circuit_master (dOwner c')) (wires_path (CPath (dOwner c'))) = Ok cred' ∧
      (cred = cred' ∧ value <$> Destination c = value <$> Destination c' ∨
       input_collision (DestDomain ++ cred ++ (value <$> Destination c))
                       (DestDomain ++ cred' ++ (value <$> Destination c'))).
Proof.
  intros Hs Hl. destruct (DefineDest_cases c Hs Hl) as [Ha Hr]. split; [exact Ha|]. split; [exact Hr|].
  intros c' Hl'. exact (owns_to_binds c c' Hl Hl').
Qed.
End bind.
