(* ===== verification/OwnershipMultiCorrect.v ===== *)
(** * The multi-credential circuit and the honest prover

    [DefineMulti] against [DeriveCredentials] and its public input, the acceptance of
    honest assignments, and the circuit identifiers. *)
From Stdlib Require Import String.
From S2P Require Import Prelude.
From S2P Require Import Gnark.
From S2P Require Import CkdArith.
From S2P Require Import Sha512Correct.
From S2P Require Import Blake2bSpec.
From S2P Require Import Blake2b.
From S2P Require Import Blake2bCorrect.
From S2P Require Import Ed25519.
From S2P Require Import Ckd.
From S2P Require Import ChainCorrect.
From S2P Require Import GoText.
From S2P Require Import Ownership.
From S2P Require Import OwnershipCircuit.
From S2P Require Import OwnershipCircuitCorrect.

Lemma ValidateCredentialCount_Ok n : ValidateCredentialCount n = Ok tt ↔ 1 <= n <= 65535.
Proof.
  unfold ValidateCredentialCount, MaxCredentialCount, guard_err.
  destruct (Z.ltb_spec n 1), (Z.ltb_spec 65535 n); cbn; (split; [done || lia|done || lia]).
Qed.

Lemma append_credentials_ok i creds : Forall (λ c, length c = 28%nat) creds →
  append_credentials i creds = Ok (concat creds).
Proof.
  intros Hc. revert i. induction Hc as [|c creds Hl _ IH]; intros i; [done|].
  cbn [append_credentials]. rewrite Hl. cbn. by rewrite IH.
Qed.

Lemma length_concat_28 (creds : list (list Z)) : Forall (λ c, length c = 28%nat) creds →
  length (concat creds) = (28 * length creds)%nat.
Proof. induction 1 as [|c creds Hl _ IH]; [done|]. cbn. rewrite length_app, IH, Hl. lia. Qed.

Section multi_theorems.
Context `{EmulatedField P 255} `{XCryptoBlake2b}.

(** The wire count the circuit hashes. *)
Definition count_bytes (n : Z) : list Z := [byte (Z.shiftr n 8); byte n].

Lemma credentialCountU16BE_ok n : 1 <= n <= 65535 → credentialCountU16BE n = Some (count_bytes n).
Proof. intros Hn. unfold credentialCountU16BE. by rewrite (proj2 (ValidateCredentialCount_Ok n)). Qed.

Lemma bytes_are_concat Cs creds : Forall2 bytes_are Cs creds → bytes_are (concat Cs) (concat creds).
Proof. induction 1 as [|C c Cs creds HC _ IH]; [done|]. by apply bytes_are_app. Qed.

Lemma PublicInputForCredentials_ok creds dest z :
  1 <= Z.of_nat (length creds) <= 65535 → Forall (λ c, length c = 28%nat) creds →
  length dest = 58%nat →
  PublicInputForCredentialsDestination creds dest = Ok z ↔
  digest_to_field (blake2b_sum 32
    (MultiDomain ++ count_bytes (Z.of_nat (length creds)) ++ concat creds ++ dest)) = z.
Proof.
  intros Hn Hc Hd. unfold PublicInputForCredentialsDestination, PublicInputDigestForCredentialsDestination.
  rewrite (proj2 (ValidateCredentialCount_Ok _)) by done. cbn [mbind result_bind].
  rewrite Hd. cbn [Nat.eqb negb DestinationAddressV1Len]. rewrite credentialCountU16BE_ok by done.
  rewrite append_credentials_ok by done. cbn. split; [by intros [= <-]|by intros <-].
Qed.

Definition multi_shape (c : MultiCircuit var) : Prop :=
  length (mKL c) = 32%nat ∧ length (mKR c) = 32%nat ∧ length (mCC c) = 32%nat ∧
  length (mDestination c) = 58%nat.

(** One master key, every path, the destination, one public input. *)
Definition owns_all (c : MultiCircuit var) : Prop :=
  master_valid (mKL c) (mKR c) (mCC c) ∧ Forall is_byte (value <$> mDestination c) ∧
  ∃ credentials,
    DeriveCredentials (value <$> mKL c ++ mKR c ++ mCC c) (wires_path <$> Paths c) = Ok credentials ∧
    PublicInputForCredentialsDestination credentials (value <$> mDestination c) = Ok (value (mPub c)).

Lemma derive_all_paths master i paths creds : derive_all master i paths = Ok creds →
  Forall (λ p, validatePath p = Ok tt) paths.
Proof.
  revert i creds. induction paths as [|p paths IH]; intros i creds; [constructor|].
  cbn [derive_all]. intros (c & Hc & (cs & Hcs & _)%bind_Ok)%bind_Ok. constructor; [|by eapply IH].
  destruct (DeriveCredential master p) as [d|e] eqn:E; [|done].
  by eapply DeriveCredential_valid_path.
Qed.

(** Binding derived credentials to the public input. *)
Lemma bind_credentials_cases c Cs creds : multi_shape c →
  1 <= Z.of_nat (length creds) <= 65535 → Forall2 bytes_are Cs creds →
  Forall (λ c, length c = 28%nat) creds →
  let good := Forall is_byte (value <$> mDestination c) ∧
    PublicInputForCredentialsDestination creds (value <$> mDestination c) = Ok (value (mPub c)) in
  (good → circuit_ok (bindCredentialsDestination Cs (mDestination c) (mPub c)) (λ _, True)) ∧
  (¬ good → rejects (bindCredentialsDestination Cs (mDestination c) (mPub c))).
Proof.
  intros (_ & _ & _ & Ld) Hn HCs Hl. cbv zeta.
  assert (length (value <$> mDestination c) = 58%nat) as Ldv by by rewrite length_fmap.
  rewrite PublicInputForCredentials_ok by done. unfold bindCredentialsDestination.
  rewrite (Forall2_length _ _ _ HCs), credentialCountU16BE_ok by done.
  cbn [circuit_of_option].
  match goal with |- context [mret ?x ≫= ?f] => change (mret x ≫= f) with (f x) end. cbv beta.
  set (n := Z.of_nat (length creds)) in *.
  assert (bytes_are (NewU8Array MultiDomain ++ NewU8Array (count_bytes n) ++ concat Cs)
    (MultiDomain ++ count_bytes n ++ concat creds)) as Hpre.
  { apply bytes_are_app; [by apply const_bytes_are|]. apply bytes_are_app; [|by apply bytes_are_concat].
    apply NewU8Array_are. repeat constructor; apply byte_is_byte. }
  assert (∀ T (x y z w : list T), x ++ y ++ z ++ w = (x ++ y ++ z) ++ w) as Hassoc
    by (intros; by rewrite <- !app_assoc).
  rewrite (Hassoc Z), (Hassoc var). pose proof (length_concat_28 creds Hl) as Hlc.
  assert (length (MultiDomain ++ count_bytes n ++ concat creds) = (25 + 28 * length creds)%nat) as Hlen.
  { rewrite !length_app, Hlc. reflexivity. }
  destruct (decide (Forall is_byte (value <$> mDestination c))) as [Hb|Hb].
  - destruct (bind_preimage_cases _ ((MultiDomain ++ count_bytes n ++ concat creds) ++
      (value <$> mDestination c)) (mPub c) (bytes_are_app _ _ _ _ Hpre (conj eq_refl Hb))) as [Ho Hr].
    { rewrite length_app, Hlen, Ldv. lia. }
    split; [intros [_ E]; exact (Ho E)|intros Hg; apply Hr; tauto].
  - split; [tauto|]. intros _. apply bind_preimage_rejects.
    + rewrite length_app, (bytes_are_length _ _ Hpre), Hlen, Ld. lia.
    + rewrite fmap_app, Forall_app. tauto.
Qed.

Lemma DefineMulti_cases c : multi_shape c →
  (owns_all c → circuit_ok (DefineMulti c) (λ _, True)) ∧ (¬ owns_all c → rejects (DefineMulti c)).
Proof.
  intros Hs. pose proof Hs as (Lkl & Lkr & Lcc & Ld). unfold DefineMulti, owns_all, DeriveCredentials.
  rewrite length_fmap. set (n := Z.of_nat (length (Paths c))).
  destruct (ValidateCredentialCount n) as [[]|e] eqn:Hn; cbn [mbind result_bind]; last first.
  { split; [by intros (_ & _ & creds & ? & _)|by intros _ t]. }
  apply ValidateCredentialCount_Ok in Hn.
  destruct (deriveCredentials_cases _ _ _ Lkl Lkr Lcc 0 (Paths c)) as [Hok Hrej].
  assert (∀ Cs creds, Forall2 bytes_are Cs creds → Forall (λ c, length c = 28%nat) creds →
    length creds = length (Paths c) → _) as Hbind by
    (intros Cs creds HCs Hl Hlen; refine (bind_credentials_cases c Cs creds Hs _ HCs Hl);
     rewrite Hlen; exact Hn).
  split.
  - intros (Hm & Hb & creds & Hd & Hp).
    assert (Forall (λ p, master_valid (mKL c) (mKR c) (mCC c) ∧ validatePath (wires_path p) = Ok tt)
      (Paths c)) as Hall.
    { apply derive_all_paths in Hd. rewrite Forall_fmap in Hd.
      eapply Forall_impl; [exact Hd|]. intros p Hpp. by split. }
    step (exact (Hok Hall)) as Cs (creds' & Hd' & HCs & Hl & Hlen).
    rewrite Hd in Hd'. injection Hd' as <-.
    exact (proj1 (Hbind Cs creds HCs Hl Hlen) (conj Hb Hp)).
  - intros Hno.
    destruct (decide (Forall (λ p, master_valid (mKL c) (mKR c) (mCC c) ∧
      validatePath (wires_path p) = Ok tt) (Paths c))) as [Hall|Hall];
      [|by apply rejects_bind_l, Hrej].
    eapply rejects_bind; [exact (proj1 (Hok Hall))|]. cbv beta. intros Cs (creds & Hd & HCs & Hl & Hlen).
    apply (Hbind Cs creds HCs Hl Hlen). intros [Hb Hp]. apply Hno. split; [|eauto].
    destruct (Paths c) as [|p ps] eqn:E; [cbn in n; lia|]. by apply Forall_cons in Hall as [[? _] _].
Qed.

(** C5 One proof, many credentials.  For any number of paths, [DefineMulti] accepts
    exactly the witnesses whose single clamped master derives, path by path, the
    credentials that [PublicInputForCredentialsDestination] hashes, in that order and
    with their count and the 58 destination bytes, to the public input; outside
    1..65535 paths there is no circuit. *)
Theorem DefineMulti_exact c : multi_shape c →
  (owns_all c → circuit_ok (DefineMulti c) (λ _, True)) ∧
  (¬ owns_all c → rejects (DefineMulti c)).
Proof. exact (DefineMulti_cases c). Qed.
End multi_theorems.

(** ** Honest assignments *)

Section assignments.
Context `{EmulatedField P 255} `{XCryptoBlake2b}.

(** The witness a prover builds from an assignment: [assign] puts an integer on a wire. *)
Variable assign : Z → var.
Hypothesis value_assign : ∀ z, value (assign z) = z mod field_order.

Definition assign_path (p : PathWitness Z) : PathWitness var :=
  {| wAccount := assign (wAccount p); wRole := assign (wRole p); wIndex := assign (wIndex p) |}.
Definition assign_circuit (c : OwnershipCircuit Z) : OwnershipCircuit var :=
  {| MasterKL := assign <$> MasterKL c; MasterKR := assign <$> MasterKR c;
     MasterCC := assign <$> MasterCC c; CPath := assign_path (CPath c); Pub := assign (Pub c) |}.

Lemma value_assign_small z : 0 <= z < 2 ^ 254 → value (assign z) = z.
Proof.
  intros Hz. rewrite value_assign. apply Z.mod_small. pose proof field_order_large. lia.
Qed.

Lemma assign_bytes bs : Forall is_byte bs → value <$> (assign <$> bs) = bs.
Proof.
  induction 1 as [|b bs Hb _ IH]; [done|]. cbn. cbn in IH. rewrite IH. f_equal.
  apply value_assign_small. unfold is_digit in Hb. lia.
Qed.

Definition path_range (p : Path) : Prop := 0 <= Account p ∧ 0 <= Role p ∧ 0 <= Index p.

Lemma assign_path_ok p : path_range p → validatePath p = Ok tt →
  wires_path (assign_path (path_witness p)) = p.
Proof.
  intros (? & ? & ?) (? & ? & ?)%validatePath_Ok. destruct p as [a r i]. cbn in *.
  unfold wires_path. cbn. by rewrite !value_assign_small by lia.
Qed.

(** The witness of an honest prover. *)
Definition honest_circuit (master : list Z) (path : Path) (pub : Z) : OwnershipCircuit Z := {|
  MasterKL := take 32 master; MasterKR := take 32 (drop 32 master); MasterCC := take 32 (drop 64 master);
  CPath := path_witness path; Pub := pub |}.

Lemma fill_master (master : list Z) k : length master = 96%nat → (k <= 64)%nat →
  fillU8 32 (take 32 (drop k master)) = Some (take 32 (drop k master)).
Proof.
  intros Hl Hk. unfold fillU8. rewrite length_take, length_drop, Hl. by rewrite (proj2 (Nat.eqb_eq _ _)) by lia.
Qed.

Lemma Assignment_honest master path pub : length master = 96%nat → validatePath path = Ok tt →
  Assignment master path pub = Ok (honest_circuit master path pub).
Proof.
  intros Hl Hp. unfold Assignment. rewrite Hl, Hp. cbn [Nat.eqb negb mbind result_bind].
  pose proof (fill_master master 0 Hl ltac:(lia)) as Hf0. rewrite drop_0 in Hf0. by rewrite Hf0, !fill_master by lia.
Qed.

Lemma DestAssignment_honest master path dest pub credential : length master = 96%nat → length dest = 58%nat →
  DeriveCredential master path = Ok credential →
  DestAssignment master path dest (Some pub) = Ok {| dOwner := honest_circuit master path pub; Destination := dest |}.
Proof.
  intros Hl Hd Hc. unfold DestAssignment. rewrite Hl, Hd, Hc. cbn [Nat.eqb negb DestinationAddressV1Len map_err mbind result_bind].
  pose proof (fill_master master 0 Hl ltac:(lia)) as Hf0. rewrite drop_0 in Hf0. rewrite Hf0, !fill_master by lia.
  unfold fillU8. by rewrite Hd.
Qed.

(** Its wires carry the master key, the path and the public input. *)
Lemma honest_wires master path pub :
  Forall is_byte master → length master = 96%nat → icarus_clamped (le_val (take 32 master)) →
  path_range path → validatePath path = Ok tt → 0 <= pub < field_order →
  let c := assign_circuit (honest_circuit master path pub) in
  circuit_shape c ∧ circuit_master c = master ∧ wires_path (CPath c) = path ∧ value (Pub c) = pub ∧
  master_valid (MasterKL c) (MasterKR c) (MasterCC c).
Proof.
  intros Hb Hl Hcl Hr Hp Hpub c. assert (circuit_shape c) as Hsh.
  { unfold circuit_shape, c. cbn [assign_circuit honest_circuit MasterKL MasterKR MasterCC].
    rewrite !length_fmap, !length_take, !length_drop, Hl. done. }
  assert (circuit_master c = master) as Hm.
  { unfold circuit_master, c. cbn [assign_circuit honest_circuit MasterKL MasterKR MasterCC].
    rewrite !fmap_app, !assign_bytes by eauto using Forall_take, Forall_drop.
    rewrite (take_ge (drop 64 master)) by (rewrite length_drop; lia).
    change (drop 64 master) with (drop (32 + 32) master). rewrite <- drop_drop.
    by rewrite take_drop, take_drop. }
  split_and!; [done|done|by apply assign_path_ok| |].
  - change (Pub c) with (assign pub). by rewrite (value_assign pub), Z.mod_small.
  - split; [change (Forall is_byte (circuit_master c)); by rewrite Hm|].
    unfold c. cbn [assign_circuit honest_circuit MasterKL]. by rewrite assign_bytes by eauto using Forall_take.
Qed.

Lemma Assignment_ok master path pub :
  Forall is_byte master → length master = 96%nat →
  icarus_clamped (le_val (take 32 master)) → path_range path → validatePath path = Ok tt →
  0 <= pub < field_order →
  ∃ credential c, DeriveCredential master path = Ok credential ∧ length credential = 28%nat ∧
    Assignment master path pub = Ok c ∧
    (PublicInputForCredential credential = Ok pub →
      circuit_ok (Define (assign_circuit c)) (λ _, True)) ∧
    (PublicInputForCredential credential ≠ Ok pub → rejects (Define (assign_circuit c))).
Proof.
  intros Hb Hl Hcl Hr Hp Hpub. destruct (DeriveCredential_clamped master path Hb Hl Hcl Hp) as [_ Hd].
  destruct (honest_wires master path pub Hb Hl Hcl Hr Hp Hpub) as (Hsh & Hm & Hw & Hz & Hv).
  exists (leaf_credential (path_leaf master path)), (honest_circuit master path pub).
  split; [exact Hd|]. split; [apply leaf_credential_wf|]. split; [by apply Assignment_honest|].
  set (c := assign_circuit _) in *.
  assert (owns c ↔ PublicInputForCredential (leaf_credential (path_leaf master path)) = Ok pub) as Howns.
  { unfold owns. rewrite Hm, Hw, Hd, Hz. split; [by intros (_ & cred & [= <-] & ?)|eauto]. }
  destruct (Define_cases c Hsh) as [Hok Hrej]. split; intros Hpi.
  - apply Hok. by apply Howns.
  - apply Hrej. by rewrite Howns.
Qed.

(** The same for a destination. *)
Definition assign_destination (c : DestCircuit Z) : DestCircuit var :=
  {| dOwner := assign_circuit (dOwner c); Destination := assign <$> Destination c |}.

Lemma DestAssignment_ok master path dest pub credential :
  Forall is_byte master → length master = 96%nat →
  icarus_clamped (le_val (take 32 master)) → path_range path →
  Forall is_byte dest → length dest = 58%nat →
  DeriveCredential master path = Ok credential → 0 <= pub < field_order →
  PublicInputForCredentialDestination credential dest = Ok pub →
  ∃ c, DestAssignment master path dest (Some pub) = Ok c ∧
    circuit_ok (DefineDest (assign_destination c)) (λ _, True).
Proof.
  intros Hb Hl Hcl Hr Hdb Hdl Hd Hpub Hpi.
  assert (validatePath path = Ok tt) as Hp.
  { unfold DeriveCredential in Hd. destruct (negb _); [done|]. by apply bind_Ok in Hd as ([] & Hd & _). }
  destruct (honest_wires master path pub Hb Hl Hcl Hr Hp Hpub) as (Hsh & Hm & Hw & Hz & Hv).
  eexists. split; [by eapply DestAssignment_honest|].
  apply DefineDest_cases; [exact Hsh|by cbn; rewrite length_fmap|].
  unfold owns_to. cbn [assign_destination dOwner Destination]. rewrite Hm, Hw, Hz, Hd, assign_bytes by done. eauto.
Qed.

(** C9 Honest proofs are complete and bind one public input.  From 96 clamped master
    bytes and a CIP-1852 path, [Assignment] of the derived credential's public input
    builds a witness the circuit accepts, and the same witness with any other field
    element as public input is refused for every prover. *)
Theorem Assignment_complete master path pub :
  Forall is_byte master → length master = 96%nat →
  icarus_clamped (le_val (take 32 master)) → path_range path → validatePath path = Ok tt →
  0 <= pub < field_order →
  ∃ credential c, DeriveCredential master path = Ok credential ∧ length credential = 28%nat ∧
    Assignment master path pub = Ok c ∧
    (PublicInputForCredential credential = Ok pub →
      circuit_ok (Define (assign_circuit c)) (λ _, True)) ∧
    (PublicInputForCredential credential ≠ Ok pub → rejects (Define (assign_circuit c))).
Proof. exact (Assignment_ok master path pub). Qed.
End assignments.

(** ** Identifiers *)

Lemma CircuitID_reads_back n : - 2 ^ 63 <= n < 2 ^ 63 →
  CircuitCountFromID (CircuitIDForCount n) = (if decide (1 <= n <= 65535) then Some n else None) ∧
  IsCircuitID (CircuitIDForCount n) = bool_decide (1 <= n <= 65535).
Proof.
  intros Hn.
  assert (CircuitCountFromID (CircuitIDForCount n) =
    (if decide (1 <= n <= 65535) then Some n else None)) as Hc.
  { unfold CircuitCountFromID, CircuitIDForCount. rewrite HasPrefix_app.
    rewrite (app_assoc id_prefix), HasSuffix_app. cbn [negb orb].
    rewrite <- (app_assoc id_prefix), TrimPrefix_app, TrimSuffix_app, Atoi_Itoa by done.
    cbn [mbind option_bind]. destruct (ValidateCredentialCount n) as [[]|e] eqn:E; cbn [is_ok].
    - apply ValidateCredentialCount_Ok in E. by rewrite decide_True.
    - rewrite decide_False; [done|]. intros Hr%ValidateCredentialCount_Ok. congruence. }
  split; [done|]. unfold IsCircuitID. rewrite Hc. apply bool_decide_ext.
  case_decide; split; try done; by intros [? ?].
Qed.

(** Circuit identifiers of the multi-credential family are read back: for every
    supported count [CircuitCountFromID] of [CircuitIDForCount] is that count, and
    an identifier of an unsupported count is refused. *)
Theorem CircuitID_round_trip n : - 2 ^ 63 <= n < 2 ^ 63 →
  CircuitCountFromID (CircuitIDForCount n) = (if decide (1 <= n <= 65535) then Some n else None) ∧
  IsCircuitID (CircuitIDForCount n) = bool_decide (1 <= n <= 65535).
Proof. exact (CircuitID_reads_back n). Qed.
