(* ===== verification/Discovery.v ===== *)
(** * Path discovery: [internal/circuit/ownership/discovery.go]

    One traversal of the public key tree resolves many credentials.  The mutable part
    ([remaining], [found], [scanned] and the progress callbacks) is a state; an early
    [return] is an exit of the monad. *)
From stdpp Require Import gmap.
From S2P Require Import Prelude.
From S2P Require Import Gnark.
From S2P Require Import Blake2bSpec.
From S2P Require Import Ed25519.
From S2P Require Import Ckd.
From S2P Require Import Ownership.

Record discoveryBranch := { b_account : Z; b_role : Z; b_parent : XPub }.
Record indexBand := { band_start : Z; band_end : Z }.

Record DiscoveryOptions := { Search : SearchOptions; ProgressEvery : Z }.

(** [DiscoveryProgress] without its clock fields. *)
Record DiscoveryProgress := { pScanned : Z; pTotal : Z; pMatched : Z; pTargets : Z }.

#[export] Instance XPub_inhabited : Inhabited XPub :=
  populate {| PublicKey := replicate 32 0; ChainCode := replicate 32 0 |}.

Inductive discovery_error :=
| DErrMasterLength (n : nat)             (* "master xprv is %d bytes, want 96" *)
| DErrTargetLength (n : nat)             (* "target credential is %d bytes, want 28" *)
| DErrSchedule (e : ownership_error)     (* from scanValues *)
| DErrDRepRole                           (* "role 3 is the DRep role but ..." *)
| DErrRole (role : Z)                    (* "role %d outside ... role range 0..2" *)
| DErrIndex (index : Z)                  (* "index %d outside allowed range 0..%d" *)
| DErrRoot (e : ckd_error)
| DErrPanic                              (* a run-time panic *)
| DErrAccountKey (e : ckd_error)         (* "derive account public key: %w" *)
| DErrRoleKey (e : ckd_error)            (* "derive credential role public key: %w" *)
| DErrCandidate (e : ckd_error)          (* "derive credential candidate: %w" *)
| DErrCancelled                          (* ctx.Err() *)
| DErrReverify (e : ownership_error)     (* "re-verify discovered path: %w" *)
| DErrDisagreed                          (* "optimized discovery disagreed with ..." *)
| ErrCredentialsNotFound (found : gmap (list Z) Path).

(** ** The schedule *)

Fixpoint bands_loop (ends : list Z) (start maxIndex : Z) (bands : list indexBand) : list indexBand :=
  match ends with
  | [] => bands
  | candidateEnd :: ends =>
      let bend := if maxIndex <? candidateEnd then maxIndex else candidateEnd in
      if bend <? start then bands_loop ends start maxIndex bands
      else
        let bands := bands ++ [{| band_start := start; band_end := bend |}] in
        if (bend =? maxIndex) || (bend =? 2 ^ 32 - 1) then bands
        else bands_loop ends (u32 (bend + 1)) maxIndex bands
  end.

Definition discoveryIndexBands (search : SearchOptions) :
    result discovery_error (list indexBand * Z) :=
  if 0 <=? oIndex search then
    if 2 ^ 31 <=? oIndex search then Err (DErrIndex (oIndex search))
    else let value := u32 (oIndex search) in
         Ok ([{| band_start := value; band_end := value |}], 1)
  else Ok (bands_loop [19; 99; MaxIndex search] 0 (MaxIndex search) [], MaxIndex search + 1).

Definition discoveryRoles (role : Z) : result discovery_error (list Z) :=
  if role =? -1 then Ok [0; 1; 2]
  else if (role =? 0) || (role =? 1) || (role =? 2) then Ok [u32 role]
  else if role =? 3 then Err DErrDRepRole
  else Err (DErrRole role).

Definition discoverySchedule (fuel : nat) (search : SearchOptions) :
    result discovery_error (list Z * list Z * list indexBand * Z) :=
  accounts ← map_err DErrSchedule
    (scanValues fuel (oAccount search) 0 (MaxAccount search) ScanAccount (2 ^ 31 - 1));
  roles ← discoveryRoles (oRole search);
  '(bands, indexCount) ← discoveryIndexBands search;
  let total := (Z.of_nat (length accounts) * Z.of_nat (length roles) * indexCount) mod 2 ^ 64 in
  Ok (accounts, roles, bands, total).

(** ** The traversal's state *)

Record scan_state := {
  remaining : gset (list Z);
  found : gmap (list Z) Path;
  scanned : Z;                           (* uint64 *)
  progress : list DiscoveryProgress }.   (* the callback's arguments, in order *)

Inductive scan_exit := Found | Failed (e : discovery_error).

Definition Scan (A : Type) : Type := scan_state → result scan_exit A * scan_state.
#[export] Instance scan_ret : MRet Scan := λ A a st, (Ok a, st).
#[export] Instance scan_bind : MBind Scan := λ A B f m st,
  match m st with (Ok a, st) => f a st | (Err e, st) => (Err e, st) end.
Definition scan_get : Scan scan_state := λ st, (Ok st, st).
Definition scan_modify (f : scan_state → scan_state) : Scan unit := λ st, (Ok tt, f st).
Definition scan_exit_with {A} (e : scan_exit) : Scan A := λ st, (Err e, st).
Definition scan_lift {E A} (wrap : E → discovery_error) (r : result E A) : Scan A :=
  match r with Ok a => mret a | Err e => scan_exit_with (Failed (wrap e)) end.

Fixpoint for_each {A} (xs : list A) (f : A → Scan unit) : Scan unit :=
  match xs with [] => mret tt | x :: xs => _ ← f x; for_each xs f end.

Definition record_match (credential : list Z) (path : Path) (st : scan_state) : scan_state :=
  {| remaining := remaining st ∖ {[credential]}; found := <[credential := path]> (found st);
     scanned := scanned st; progress := progress st |}.
Definition count_candidate (st : scan_state) : scan_state :=
  {| remaining := remaining st; found := found st;
     scanned := (scanned st + 1) mod 2 ^ 64; progress := progress st |}.

(** [emitDiscoveryProgress]: the callback's counters. *)
Definition emitDiscoveryProgress (total : Z) (st : scan_state) : scan_state :=
  {| remaining := remaining st; found := found st; scanned := scanned st;
     progress := progress st ++ [{| pScanned := scanned st; pTotal := total;
       pMatched := Z.of_nat (size (found st));
       pTargets := Z.of_nat (size (remaining st) + size (found st)) |}] |}.

Section discovery.
Context `{Edwards25519} `{XCryptoBlake2b}.

(** ** Branches *)

Definition ckd_or_panic {A} (o : option A) : result discovery_error A :=
  match o with Some a => Ok a | None => Err DErrPanic end.

(** The account keys, in a map. *)
Fixpoint account_keys (coin : Ext) (accounts : list Z) (byAccount : gmap Z XPub) :
    result discovery_error (gmap Z XPub) :=
  match accounts with
  | [] => Ok byAccount
  | account :: accounts =>
      accountPrivate ← ckd_or_panic (DerivePrivateChild coin (Z.lor (2 ^ 31) account) true);
      accountPublic ← map_err DErrAccountKey (XPubFromPrivate accountPrivate);
      account_keys coin accounts (<[account := accountPublic]> byAccount)
  end.

Fixpoint role_branches (byAccount : gmap Z XPub) (role : Z) (accounts : list Z) :
    result discovery_error (list discoveryBranch) :=
  match accounts with
  | [] => Ok []
  | account :: accounts =>
      rolePublic ← map_err DErrRoleKey (DerivePublicChild (byAccount !!! account) role);
      branches ← role_branches byAccount role accounts;
      Ok ({| b_account := account; b_role := role; b_parent := rolePublic |} :: branches)
  end.

Fixpoint all_branches (byAccount : gmap Z XPub) (roles accounts : list Z) :
    result discovery_error (list discoveryBranch) :=
  match roles with
  | [] => Ok []
  | role :: roles =>
      bs ← role_branches byAccount role accounts;
      rest ← all_branches byAccount roles accounts;
      Ok (bs ++ rest)
  end.

Definition prepareDiscoveryBranches (masterXPrv : list Z) (accounts roles : list Z) :
    result discovery_error (list discoveryBranch) :=
  root ← map_err DErrRoot (RootExt masterXPrv);
  purpose ← ckd_or_panic (DerivePrivateChild root (Z.lor (2 ^ 31) 1852) true);
  coin ← ckd_or_panic (DerivePrivateChild purpose (Z.lor (2 ^ 31) 1815) true);
  byAccount ← account_keys coin accounts ∅;
  all_branches byAccount roles accounts.

(** ** The traversal *)

(** [cancelled n]: [ctx.Err()] at the check before candidate [n]. *)
Variable cancelled : Z → bool.
Variable masterXPrv : list Z.
Variables total progressEvery : Z.

Definition candidate (index : Z) (branch : discoveryBranch) : Scan unit :=
  st ← scan_get;
  if cancelled (scanned st) then scan_exit_with (Failed DErrCancelled) else
  child ← scan_lift DErrCandidate (DerivePublicChild (b_parent branch) index);
  let credential := blake2b_sum 28 (PublicKey child) in
  _ ← scan_modify count_candidate;
  _ ← (if decide (credential ∈ remaining st) then
         let path := {| Account := b_account branch; Role := b_role branch; Index := index |} in
         canonical ← scan_lift DErrReverify (DeriveCredential masterXPrv path);
         if decide (canonical ≠ credential) then scan_exit_with (Failed DErrDisagreed) else
         _ ← scan_modify (record_match credential path);
         st ← scan_get;
         if decide (remaining st = ∅) then
           _ ← scan_modify (emitDiscoveryProgress total);
           scan_exit_with Found
         else mret tt
       else mret tt);
  st ← scan_get;
  if scanned st mod progressEvery =? 0 then scan_modify (emitDiscoveryProgress total)
  else mret tt.

(** The loop breaks at [^uint32(0)], so [index++] never wraps. *)
Definition band_indexes (band : indexBand) : list Z :=
  seqZ (band_start band) (band_end band - band_start band + 1).

Definition traverse (bands : list indexBand) (branches : list discoveryBranch) : Scan unit :=
  for_each bands (λ band,
    _ ← for_each (band_indexes band) (λ index, for_each branches (candidate index));
    scan_modify (emitDiscoveryProgress total)).
End discovery.

Section discover.
Context `{Edwards25519} `{XCryptoBlake2b}.

Fixpoint target_set (targets : list (list Z)) (remaining : gset (list Z)) :
    result discovery_error (gset (list Z)) :=
  match targets with
  | [] => Ok remaining
  | raw :: targets =>
      if negb (length raw =? 28)%nat then Err (DErrTargetLength (length raw))
      else target_set targets (remaining ∪ {[raw]})
  end.

Definition DiscoverCredentialPaths (fuel : nat) (cancelled : Z → bool) (masterXPrv : list Z)
    (targetCredentials : list (list Z)) (opts : DiscoveryOptions) :
    result discovery_error (gmap (list Z) Path) * list DiscoveryProgress :=
  if negb (length masterXPrv =? 96)%nat then (Err (DErrMasterLength (length masterXPrv)), []) else
  match target_set targetCredentials ∅ with
  | Err e => (Err e, [])
  | Ok remaining =>
      if decide (remaining = ∅) then (Ok ∅, []) else
      match discoverySchedule fuel (Search opts) with
      | Err e => (Err e, [])
      | Ok (accounts, roles, bands, total) =>
          match prepareDiscoveryBranches masterXPrv accounts roles with
          | Err e => (Err e, [])
          | Ok branches =>
              let progressEvery := if ProgressEvery opts =? 0 then 32 else ProgressEvery opts in
              let st := emitDiscoveryProgress total
                {| remaining := remaining; found := ∅; scanned := 0; progress := [] |} in
              match traverse cancelled masterXPrv total progressEvery bands branches st with
              | (Err Found, st) => (Ok (found st), progress st)
              | (Err (Failed e), st) => (Err e, progress st)
              | (Ok _, st) => (Err (ErrCredentialsNotFound (found st)), progress st)
              end
          end
      end
  end.

(** The single-target form. *)
Definition DiscoverCredentialPath (fuel : nat) (cancelled : Z → bool)
    (masterXPrv targetCredential : list Z) (opts : DiscoveryOptions) :
    result discovery_error Path :=
  match (DiscoverCredentialPaths fuel cancelled masterXPrv [targetCredential] opts).1 with
  | Err e => Err e
  | Ok paths =>
      match paths !! targetCredential with
      | Some path => Ok path
      | None => Err (ErrCredentialsNotFound ∅)
      end
  end.

(** The retained name of the first API. *)
Definition DiscoverPaymentPaths := DiscoverCredentialPaths.
End discover.
