(* ===== verification/OwnershipCorrect.v ===== *)
(** * Properties of the host-side ownership code

    Scanning and searching paths, the master key of a seed phrase, explicit paths and
    the text forms of public inputs and keys. *)
From Stdlib Require Import String.
From S2P Require Import Prelude.
From S2P Require Import Gnark.
From S2P Require Import CkdArith.
From S2P Require Import Sha512Spec.
From S2P Require Import Blake2bSpec.
From S2P Require Import Ed25519.
From S2P Require Import Ckd.
From S2P Require Import GoText.
From S2P Require Import Ownership.
From S2P Require Import OwnershipCircuit.
From S2P Require Import OwnershipCircuitCorrect.

(** ** Scanning *)

Lemma scan_loop_ok fuel v scanMax values :
  0 <= v <= scanMax + 1 → scanMax < 2 ^ 32 - 1 →
  (Z.to_nat (scanMax + 1 - v) < fuel)%nat →
  scan_loop fuel v scanMax values = Some (values ++ seqZ v (scanMax + 1 - v)).
Proof.
  revert v values. induction fuel as [|fuel IH]; intros v values Hv Hm Hf; [lia|].
  cbn [scan_loop]. destruct (Z.leb_spec v scanMax) as [Hle|Hgt].
  - unfold u32. rewrite Z.mod_small by lia. rewrite IH by lia.
    rewrite (seqZ_cons v (scanMax + 1 - v)) by lia. rewrite <- app_assoc. cbn [app].
    do 4 f_equal; lia.
  - replace (scanMax + 1 - v) with 0 by lia. by rewrite app_nil_r.
Qed.

Lemma scan_loop_stuck fuel v values : 0 <= v < 2 ^ 32 →
  scan_loop fuel v (2 ^ 32 - 1) values = None.
Proof.
  revert v values. induction fuel as [|fuel IH]; intros v values Hv; [done|].
  cbn [scan_loop]. rewrite (proj2 (Z.leb_le _ _)) by lia. apply IH. unfold u32.
  apply Z.mod_pos_bound. lia.
Qed.

(** The values a search option stands for. *)
Definition option_values (explicit scanMax : Z) : list Z :=
  if 0 <=? explicit then [explicit] else seqZ 0 (scanMax + 1).

Lemma scanValues_ok fuel explicit scanMax name explicitMax :
  explicit <= explicitMax → explicitMax < 2 ^ 32 → 0 <= scanMax < 2 ^ 32 - 1 →
  (Z.to_nat (scanMax + 1) < fuel)%nat →
  scanValues fuel explicit 0 scanMax name explicitMax = Ok (option_values explicit scanMax).
Proof.
  intros He Hm Hs Hf. unfold scanValues, option_values.
  destruct (Z.leb_spec 0 explicit) as [Hnn|Hneg].
  - unfold u32. rewrite Z.mod_small by lia.
    rewrite (proj2 (Z.ltb_ge explicitMax explicit)), (proj2 (Z.ltb_ge explicit 0)) by lia. done.
  - rewrite scan_loop_ok by lia. by rewrite Z.sub_0_r.
Qed.

(** [scanValues] enumerates what it says.  An explicit value in range is the only
    candidate, an explicit value above the maximum is an error, and without one the
    loop over [uint32] produces [0..scanMax] in order with [scanMax + 2] iterations;
    but for [scanMax = 2^32 - 1] the counter wraps and no number of iterations ends
    the loop. *)
Theorem scanValues_exact explicit scanMax name explicitMax :
  0 <= scanMax < 2 ^ 32 → 0 <= explicitMax < 2 ^ 32 →
  (0 <= explicit → ∀ fuel, scanValues fuel explicit 0 scanMax name explicitMax =
     (if explicit <=? explicitMax then Ok [explicit]
      else Err (ErrScanRange name explicit 0 explicitMax))) ∧
  (explicit < 0 → scanMax < 2 ^ 32 - 1 → ∀ fuel, (Z.to_nat scanMax + 1 < fuel)%nat →
     scanValues fuel explicit 0 scanMax name explicitMax = Ok (seqZ 0 (scanMax + 1))) ∧
  (explicit < 0 → scanMax = 2 ^ 32 - 1 → ∀ fuel,
     scanValues fuel explicit 0 scanMax name explicitMax = Err OutOfFuel).
Proof.
  intros Hs Hm. repeat split_and; intros He.
  - intros fuel. unfold scanValues. rewrite (proj2 (Z.leb_le 0 explicit)) by done.
    destruct (Z.leb_spec explicit explicitMax) as [Hle|Hgt].
    + unfold u32. rewrite Z.mod_small by lia.
      rewrite (proj2 (Z.ltb_ge explicitMax explicit)), (proj2 (Z.ltb_ge explicit 0)) by lia. done.
    + by rewrite (proj2 (Z.ltb_lt explicitMax explicit)) by lia.
  - intros Hlt fuel Hf. rewrite scanValues_ok by lia. unfold option_values.
    by rewrite (proj2 (Z.leb_gt 0 explicit)).
  - intros -> fuel. unfold scanValues. rewrite (proj2 (Z.leb_gt 0 explicit)) by done.
    by rewrite scan_loop_stuck by lia.
Qed.

(** ** Searching *)

Section search.
Context `{XCryptoBlake2b}.

(** The options of a search that stays inside the supported paths. *)
Definition search_ok (opts : SearchOptions) : Prop :=
  oAccount opts < 2 ^ 31 ∧ oRole opts <= 2 ∧ oIndex opts < 2 ^ 31 ∧
  0 <= MaxAccount opts < 2 ^ 31 ∧ 0 <= MaxIndex opts < 2 ^ 31.

Definition searched (opts : SearchOptions) : list Path :=
  search_order (option_values (oAccount opts) (MaxAccount opts)) (option_values (oRole opts) 2)
    (option_values (oIndex opts) (MaxIndex opts)).

(** The first path of an order that derives a credential. *)
Definition first_match (master target : list Z) (order : list Path) (p : Path) : Prop :=
  ∃ before after, order = before ++ p :: after ∧ DeriveCredential master p = Ok target ∧
    Forall (λ q, DeriveCredential master q ≠ Ok target) before.

Lemma option_values_range explicit scanMax n v :
  explicit < n → scanMax < n → v ∈ option_values explicit scanMax → 0 <= v < n.
Proof.
  intros He Hs. unfold option_values. destruct (Z.leb_spec 0 explicit).
  - rewrite list_elem_of_singleton. lia.
  - rewrite elem_of_seqZ. lia.
Qed.

Lemma search_order_elem accounts roles indexes p : p ∈ search_order accounts roles indexes ↔
  Account p ∈ accounts ∧ Role p ∈ roles ∧ Index p ∈ indexes.
Proof.
  unfold search_order. rewrite list_elem_of_bind. setoid_rewrite list_elem_of_bind.
  setoid_rewrite list_elem_of_bind. setoid_rewrite list_elem_of_singleton. split.
  - intros (a & (r & (i & -> & ?) & ?) & ?). done.
  - intros (? & ? & ?). exists (Account p). split; [|done]. exists (Role p). split; [|done].
    exists (Index p). by destruct p.
Qed.

Lemma searched_valid opts p : search_ok opts → p ∈ searched opts →
  validatePath p = Ok tt ∧ 0 <= Account p ∧ 0 <= Role p ∧ 0 <= Index p.
Proof.
  intros (Ha & Hr & Hi & HA & HI) (Ea & Er & Ei)%search_order_elem.
  apply (option_values_range _ _ (2 ^ 31)) in Ea; [|lia..].
  apply (option_values_range _ _ 3) in Er; [|lia..].
  apply (option_values_range _ _ (2 ^ 31)) in Ei; [|lia..].
  split; [apply validatePath_Ok; lia|lia].
Qed.

Lemma find_first_ok master target paths :
  Forall (λ p, ∃ c, DeriveCredential master p = Ok c) paths →
  match find_first master target paths with
  | Ok p => first_match master target paths p
  | Err e => e = ErrTargetNotFound ∧ Forall (λ q, DeriveCredential master q ≠ Ok target) paths
  end.
Proof.
  induction 1 as [|p paths [c Hc] _ IH]; cbn [find_first]; [by split|].
  rewrite Hc. cbn [mbind result_bind]. destruct (decide (c = target)) as [->|Hne].
  { exists [], paths. by repeat split. }
  assert (DeriveCredential master p ≠ Ok target) as Hp by congruence.
  destruct (find_first master target paths) as [q|e].
  - destruct IH as (before & after & -> & Hq & Hb). exists (p :: before), after.
    repeat split; [done|]. by constructor.
  - destruct IH as [-> Hall]. split; [done|]. by constructor.
Qed.

(** [FindPath] is an exhaustive, ordered search.  From a clamped master and options
    inside the supported ranges it terminates within [max(MaxAccount, MaxIndex) + 4]
    loop iterations, never with an internal error: it returns the first path, in
    account-major order, whose [DeriveCredential] is the target, and reports "not
    found" only when no searched path derives it. *)
Theorem FindPath_first_match master target opts fuel :
  Forall is_byte master → length master = 96%nat →
  icarus_clamped (le_val (take 32 master)) → length target = 28%nat → search_ok opts →
  (Z.to_nat (Z.max (MaxAccount opts) (MaxIndex opts)) + 4 <= fuel)%nat →
  match FindPath fuel master target opts with
  | Ok p => first_match master target (searched opts) p
  | Err e => e = ErrTargetNotFound ∧
             Forall (λ q, DeriveCredential master q ≠ Ok target) (searched opts)
  end.
Proof.
  intros Hb Hl Hc Ht Hopts Hf. pose proof Hopts as (Ha & Hr & Hi & HA & HI).
  unfold FindPath. rewrite Ht. cbn [Nat.eqb negb].
  rewrite !scanValues_ok by lia. cbn [mbind result_bind].
  apply find_first_ok, Forall_forall. intros p Hp.
  destruct (searched_valid _ _ Hopts Hp) as [Hv _].
  destruct (DeriveCredential_clamped master p Hb Hl Hc Hv). eauto.
Qed.

(** An explicit path is accepted exactly when it derives the target: for every
    master, path and 28-byte target [ValidateExplicitCredentialPath] succeeds iff
    [DeriveCredential] returns that target, and otherwise reports the derivation's
    own error or the mismatch. *)
Theorem ValidateExplicitCredentialPath_exact master target path :
  (ValidateExplicitCredentialPath master target path = Ok tt ↔
    length target = 28%nat ∧ DeriveCredential master path = Ok target) ∧
  (∀ e, length target = 28%nat → DeriveCredential master path = Err e →
    ValidateExplicitCredentialPath master target path = Err e) ∧
  (∀ c, length target = 28%nat → DeriveCredential master path = Ok c → c ≠ target →
    ValidateExplicitCredentialPath master target path = Err ErrExplicitPathMismatch).
Proof.
  unfold ValidateExplicitCredentialPath.
  destruct (Nat.eqb_spec (length target) 28) as [Hl|Hl]; cbn [negb]; [|by repeat split; intros; naive_solver].
  destruct (DeriveCredential master path) as [c|e]; cbn [mbind result_bind]; last first.
  { repeat split; naive_solver. }
  unfold guard_err. case_bool_decide as Hd.
  - repeat split; [done|naive_solver..].
  - subst c. repeat split; naive_solver.
Qed.
End search.

(** ** Master keys *)

Lemma land_low_clear b : is_byte b → Z.land b 0xF8 mod 8 = 0 ∧ is_byte (Z.land b 0xF8).
Proof.
  intros Hb. split.
  - change 8 with (2 ^ 3). rewrite <- Z.land_ones, <- Z.land_assoc by lia.
    change (Z.land 0xF8 (Z.ones 3)) with 0. apply Z.land_0_r.
  - by apply (land_range 8).
Qed.

Lemma clamp_top b : is_byte b → Z.lor (Z.land b 0x1F) 0x40 / 2 ^ 5 = 2 ∧
  is_byte (Z.lor (Z.land b 0x1F) 0x40).
Proof.
  intros Hb. split; [|apply (lor_range 8); [lia|by apply (land_range 8)|done]].
  rewrite <- Z.shiftr_div_pow2, Z.shiftr_lor, Z.shiftr_land by lia.
  change (Z.shiftr 0x1F 5) with 0. by rewrite Z.land_0_r.
Qed.

Lemma clamp_master_eq b0 mid b31 tl : length mid = 30%nat →
  clamp_master (b0 :: mid ++ b31 :: tl) =
  Z.land b0 0xF8 :: mid ++ Z.lor (Z.land b31 0x1F) 0x40 :: tl.
Proof.
  intros Hm. unfold clamp_master.
  assert (∀ x y, (x :: mid ++ y :: tl) !!! 31%nat = y) as Hget.
  { intros x y. apply list_lookup_total_correct. change (x :: mid ++ y :: tl) with ((x :: mid) ++ y :: tl).
    rewrite lookup_app_r; cbn [Datatypes.length]; rewrite Hm; done || lia. }
  assert (∀ x y z, <[31%nat := z]> (x :: mid ++ y :: tl) = x :: mid ++ z :: tl) as Hset.
  { intros x y z. change (x :: mid ++ y :: tl) with ((x :: mid) ++ y :: tl).
    rewrite insert_app_r_alt; cbn [Datatypes.length]; rewrite Hm; done || lia. }
  change ((b0 :: mid ++ b31 :: tl) !!! 0%nat) with b0.
  change (<[0%nat := ?x]> (b0 :: mid ++ b31 :: tl)) with (x :: mid ++ b31 :: tl).
  by rewrite Hget, Hset, Hget, Hset.
Qed.

Lemma clamp_master_spec raw : Forall is_byte raw → length raw = 96%nat →
  Forall is_byte (clamp_master raw) ∧ length (clamp_master raw) = 96%nat ∧
  icarus_clamped (le_val (take 32 (clamp_master raw))).
Proof.
  intros Hb Hl.
  destruct raw as [|b0 raw]; [done|]. apply Forall_cons in Hb as [Hb0 Hb].
  cbn [Datatypes.length] in Hl. injection Hl as Hl.
  destruct (lookup_lt_is_Some_2 raw 30) as [b31 H31]; [lia|].
  destruct (list_elem_of_split_length _ _ _ H31) as (mid & tl & -> & Hmid).
  apply Forall_app in Hb as [Hbm Hbt]. apply Forall_cons in Hbt as [Hb31 Hbt].
  rewrite clamp_master_eq by done.
  destruct (land_low_clear b0 Hb0) as [Hlow Hb0']. destruct (clamp_top b31 Hb31) as [Htop Hb31'].
  set (x := Z.land b0 0xF8) in *. set (y := Z.lor (Z.land b31 0x1F) 0x40) in *.
  split; [constructor; [done|]; apply Forall_app; by split; [|constructor]|].
  rewrite length_app in Hl. cbn [Datatypes.length] in Hl.
  split; [cbn [Datatypes.length]; rewrite length_app; cbn [Datatypes.length]; lia|].
  assert (take 32 (x :: mid ++ y :: tl) = x :: mid ++ [y]) as ->.
  { change (x :: mid ++ y :: tl) with ((x :: mid) ++ [y] ++ tl). rewrite app_assoc.
    apply take_app_length'. cbn [Datatypes.length app]. rewrite length_app, <- Hmid. done. }
  cbn [digits_val]. rewrite digits_val_app, <- Hmid. cbn [digits_val].
  pose proof (digits_val_bound 256 ltac:(lia) _ Hbm) as Hm. rewrite <- Hmid in Hm.
  change (256 ^ Z.of_nat 30) with (2 ^ 240) in *. unfold is_digit in Hb0'.
  replace (x + 256 * (le_val mid + 2 ^ 240 * (y + 256 * 0))) with
    (x + 256 * le_val mid + y * 2 ^ 248) by lia.
  set (X := x + 256 * le_val mid). assert (0 <= X < 2 ^ 248) as HX by (unfold X; lia).
  split.
  - unfold X. replace (x + 256 * le_val mid + y * 2 ^ 248) with
      (x + (32 * le_val mid + y * 2 ^ 245) * 8) by lia.
    rewrite Z.mod_add by lia. exact Hlow.
  - change (2 ^ 253) with (2 ^ 248 * 2 ^ 5). rewrite <- Z.div_div by lia.
    rewrite Z.div_add, (Z.div_small X) by lia. exact Htop.
Qed.

(** Every master key from a seed phrase can be proved from: when the phrase decodes,
    [MasterXPrvFromSeedPhrase] returns 96 bytes whose left half carries the Icarus
    clamp the circuit asserts, so [DeriveCredential] succeeds on every valid path; the
    result depends on the phrase only up to the white space between its words. *)
Theorem MasterXPrvFromSeedPhrase_clamped `{XCryptoBlake2b} `{SeedLib} phrase master path :
  MasterXPrvFromSeedPhrase phrase = Ok master → validatePath path = Ok tt →
  Forall is_byte master ∧ length master = 96%nat ∧ icarus_clamped (le_val (take 32 master)) ∧
  (∃ credential, DeriveCredential master path = Ok credential ∧ length credential = 28%nat) ∧
  ∀ phrase', Fields phrase' = Fields phrase → MasterXPrvFromSeedPhrase phrase' = Ok master.
Proof.
  unfold MasterXPrvFromSeedPhrase. intros Hm Hp.
  destruct (EntropyFromMnemonic (Join (Fields phrase) (str " "))) as [entropy|] eqn:E; [|done].
  injection Hm as <-.
  destruct (pbkdf2_Key_bytes [] entropy 4096 96) as [Hb Hl].
  destruct (clamp_master_spec _ Hb Hl) as (Hb' & Hl' & Hc).
  repeat split_and; [done..| |].
  - destruct (DeriveCredential_clamped _ path Hb' Hl' Hc Hp) as [_ Hd].
    eexists. split; [exact Hd|apply leaf_credential_wf].
  - intros phrase' ->. by rewrite E.
Qed.

(** ** Text forms *)

Lemma visible_text n base : 2 <= base <= 16 → Forall visible (Text base n).
Proof.
  intros Hb. unfold Text. destruct (Z.ltb_spec n 0).
  - constructor; [unfold visible; lia|]. eapply Forall_impl; [apply numeral_chars; lia|by intros ? []].
  - eapply Forall_impl; [apply numeral_chars; lia|by intros ? []].
Qed.

Lemma text_reads_back `{Field} n bs : Forall is_byte bs →
  ParsePublicInputHex (PublicInputHex n) =
    (if decide (0 <= n < field_order) then Ok n else Err ErrPublicInputRange) ∧
  (∀ s, s = hex_EncodeToString bs ∨ s = str "0x" ++ hex_EncodeToString bs →
    DecodeMasterXPrvHex s =
      (if decide (length bs = 96%nat) then Ok bs else Err (ErrMasterXPrvLength (length bs))) ∧
    DecodeCredentialHex s =
      (if decide (length bs = 28%nat) then Ok bs else Err (ErrTargetLength (length bs))) ∧
    DecodeDestinationAddressV1Hex s =
      (if decide (length bs = 58%nat) then Ok bs else Err (ErrDestinationLength (length bs)))).
Proof.
  intros Hb. split.
  - unfold ParsePublicInputHex, PublicInputHex. fold (trim_0x (str "0x" ++ Text 16 n)).
    rewrite trim_0x_prefixed by (apply visible_text; lia).
    rewrite decide_False, SetString_Text.
    + destruct (Z.ltb_spec n 0), (Z.leb_spec field_order n); cbn [orb]; case_decide; done || lia.
    + lia.
    + unfold Text. destruct (n <? 0) eqn:E; [done|]. apply Z.ltb_ge in E.
      by apply numeral_chars.
  - intros s Hs.
    assert (hex_DecodeString (TrimPrefix (TrimSpace s) (str "0x")) = Some bs) as Hd.
    { fold (trim_0x s). rewrite <- (hex_round_trip bs Hb). f_equal.
      pose proof (hex_chars bs Hb) as Hc. destruct Hs as [->| ->].
      - by apply trim_0x_bare.
      - apply trim_0x_prefixed. eapply Forall_impl; [exact Hc|by intros ? []]. }
    unfold DecodeMasterXPrvHex, DecodeCredentialHex, DecodeDestinationAddressV1Hex,
      DestinationAddressV1Len. rewrite Hd.
    repeat split_and; case_decide as E; rewrite ?E; try done;
      by rewrite (proj2 (Nat.eqb_neq _ _) E).
Qed.

(** Public inputs and keys survive their text form.  [ParsePublicInputHex] reads back
    what [PublicInputHex] prints for every element of the field and refuses every
    other integer, and the master-key, credential and destination decoders read back
    the hexadecimal of any byte string of the right length, with or without the
    [0x] prefix, and report any other length. *)
Theorem text_round_trips `{Field} n bs : Forall is_byte bs →
  ParsePublicInputHex (PublicInputHex n) =
    (if decide (0 <= n < field_order) then Ok n else Err ErrPublicInputRange) ∧
  (∀ s, s = hex_EncodeToString bs ∨ s = str "0x" ++ hex_EncodeToString bs →
    DecodeMasterXPrvHex s =
      (if decide (length bs = 96%nat) then Ok bs else Err (ErrMasterXPrvLength (length bs))) ∧
    DecodeCredentialHex s =
      (if decide (length bs = 28%nat) then Ok bs else Err (ErrTargetLength (length bs))) ∧
    DecodeDestinationAddressV1Hex s =
      (if decide (length bs = 58%nat) then Ok bs else Err (ErrDestinationLength (length bs)))).
Proof. exact (text_reads_back n bs). Qed.
