(* ===== verification/DiscoveryCorrect.v ===== *)
(** * Discovery finds what canonical derivation defines

    The traversal of public keys in [Discovery.v] against [DeriveCredential]: every
    credential is resolved to the first path, in index-major order, that derives it. *)
From Stdlib Require Import FunctionalExtensionality.
From stdpp Require Import gmap.
From S2P Require Import Prelude.
From S2P Require Import Gnark.
From S2P Require Import CkdArith.
From S2P Require Import Sha512Spec.
From S2P Require Import Blake2bSpec.
From S2P Require Import Ed25519.
From S2P Require Import EdPoly.
From S2P Require Import EdCurve.
From S2P Require Import Ed25519Group.
From S2P Require Import Ed25519Correct.
From S2P Require Import Ckd.
From S2P Require Import CkdCircuit.
From S2P Require Import ChainCorrect.
From S2P Require Import Ownership.
From S2P Require Import OwnershipCircuitCorrect.
From S2P Require Import Discovery.
From S2P Require Import OwnershipCorrect.

(** ** The order of the search *)

Definition discovery_roles (role : Z) : list Z := if role =? -1 then [0; 1; 2] else [role].

Definition discovery_order (opts : SearchOptions) : list Path :=
  index ← option_values (oIndex opts) (MaxIndex opts);
  role ← discovery_roles (oRole opts);
  account ← option_values (oAccount opts) (MaxAccount opts);
  [{| Account := account; Role := role; Index := index |}].

Definition discovery_ok (opts : SearchOptions) : Prop :=
  oAccount opts < 2 ^ 31 ∧ -1 <= oRole opts <= 2 ∧ oIndex opts < 2 ^ 31 ∧
  0 <= MaxAccount opts < 2 ^ 31 ∧ 0 <= MaxIndex opts < 2 ^ 31.

(** The bands cut the index range without gap or overlap. *)
Lemma bands_cover maxIndex : 0 <= maxIndex < 2 ^ 31 →
  (bands_loop [19; 99; maxIndex] 0 maxIndex [] ≫= band_indexes) = seqZ 0 (maxIndex + 1).
Proof.
  intros Hm. cbn [bands_loop]. unfold u32.
  assert (∀ a b, seqZ a (b - a + 1) = band_indexes {| band_start := a; band_end := b |}) as Hband
    by done.
  destruct (Z.ltb_spec maxIndex 19).
  { rewrite (proj2 (Z.ltb_ge maxIndex 0)), Z.eqb_refl by lia. cbn [orb app mbind list_bind].
    rewrite app_nil_r, <- Hband. by rewrite Z.sub_0_r. }
  rewrite (proj2 (Z.ltb_ge 19 0)) by lia. destruct (Z.eqb_spec 19 maxIndex) as [<-|].
  { reflexivity. }
  change (19 =? 2 ^ 32 - 1) with false. cbn [orb app]. change ((19 + 1) mod 2 ^ 32) with 20.
  destruct (Z.ltb_spec maxIndex 99).
  { rewrite (proj2 (Z.ltb_ge maxIndex 20)), Z.eqb_refl by lia. cbn [orb app mbind list_bind].
    rewrite app_nil_r, <- !Hband. change (19 - 0 + 1) with 20.
    rewrite <- (seqZ_app 0 20) by lia. f_equal. lia. }
  rewrite (proj2 (Z.ltb_ge 99 20)) by lia. destruct (Z.eqb_spec 99 maxIndex) as [<-|].
  { reflexivity. }
  change (99 =? 2 ^ 32 - 1) with false. cbn [orb app]. change ((99 + 1) mod 2 ^ 32) with 100.
  rewrite Z.ltb_irrefl, (proj2 (Z.ltb_ge maxIndex 100)), Z.eqb_refl by lia.
  cbn [orb app mbind list_bind]. rewrite app_nil_r, <- !Hband.
  change (19 - 0 + 1) with 20. change (99 - 20 + 1) with 80. change 100 with (20 + 80) at 1.
  rewrite <- (seqZ_app 20 80), <- (seqZ_app 0 20) by lia. f_equal. lia.
Qed.

Lemma discoverySchedule_ok fuel opts : discovery_ok opts →
  (Z.to_nat (MaxAccount opts) + 1 < fuel)%nat →
  ∃ bands total, discoverySchedule fuel opts =
    Ok (option_values (oAccount opts) (MaxAccount opts), discovery_roles (oRole opts), bands, total) ∧
    (bands ≫= band_indexes) = option_values (oIndex opts) (MaxIndex opts).
Proof.
  intros (Ha & Hr & Hi & HA & HI) Hf. unfold discoverySchedule.
  rewrite scanValues_ok by lia. cbn [map_err mbind result_bind].
  assert (discoveryRoles (oRole opts) = Ok (discovery_roles (oRole opts))) as ->.
  { unfold discoveryRoles, discovery_roles.
    assert (oRole opts = -1 ∨ oRole opts = 0 ∨ oRole opts = 1 ∨ oRole opts = 2) as [->|[->|[->| ->]]]
      by lia; done. }
  unfold discoveryIndexBands, option_values. destruct (Z.leb_spec 0 (oIndex opts)).
  - rewrite (proj2 (Z.leb_gt (2 ^ 31) (oIndex opts))) by done.
    assert (u32 (oIndex opts) = oIndex opts) as -> by (apply Z.mod_small; lia).
    cbn [mbind result_bind]. do 2 eexists. split; [reflexivity|].
    cbn [mbind list_bind]. unfold band_indexes. cbn [band_start band_end].
    by rewrite Z.sub_diag.
  - cbn [mbind result_bind]. do 2 eexists. split; [reflexivity|]. by apply bands_cover.
Qed.

(** ** The abstract result *)

Section first_path.
Context `{XCryptoBlake2b}.

(** The first path of an order deriving a credential. *)
Fixpoint first_path (master : list Z) (order : list Path) (c : list Z) : option Path :=
  match order with
  | [] => None
  | p :: order => if decide (DeriveCredential master p = Ok c) then Some p else first_path master order c
  end.

Lemma first_path_app master l1 l2 c : first_path master (l1 ++ l2) c =
  match first_path master l1 c with Some p => Some p | None => first_path master l2 c end.
Proof. induction l1 as [|p l1 IH]; [done|]. cbn. by case_decide. Qed.

(** The specification of discovery: a partial map from targets to first paths. *)
Definition discovers (master : list Z) (targets : gset (list Z)) (order : list Path)
    (found : gmap (list Z) Path) : Prop :=
  ∀ c, found !! c = if decide (c ∈ targets) then first_path master order c else None.
End first_path.

Lemma list_bind_assoc {A B C} (xs : list A) (f : A → list B) (g : B → list C) :
  ((xs ≫= f) ≫= g) = (xs ≫= λ x, f x ≫= g).
Proof.
  induction xs as [|x xs IH]; [done|]. cbn [mbind list_bind].
  assert (∀ l1 l2 : list B, ((l1 ++ l2) ≫= g) = (l1 ≫= g) ++ (l2 ≫= g)) as Happ.
  { intros l1 l2. induction l1 as [|b l1 IH1]; [done|]. cbn. cbn in IH1.
    by rewrite IH1, app_assoc. }
  fold (mbind (M := list) f xs). rewrite Happ. cbn [mbind list_bind] in IH. by f_equal.
Qed.

Lemma scan_bind_assoc {A B C} (m : Scan A) (f : A → Scan B) (g : B → Scan C) :
  ((m ≫= f) ≫= g) = (m ≫= λ a, f a ≫= g).
Proof.
  apply functional_extensionality. intros st. unfold mbind, scan_bind.
  by destruct (m st) as [[a|e] st'].
Qed.

Lemma for_each_app {A} (xs ys : list A) f :
  for_each (xs ++ ys) f = (for_each xs f ≫= λ _, for_each ys f).
Proof. induction xs as [|x xs IH]; [done|]. cbn [app for_each]. by rewrite IH, scan_bind_assoc. Qed.

(** One loop over the pairs is the two nested loops. *)
Lemma for_each_bind2 {A B C} (xs : list A) (ys : list B) (g : A → B → C) f :
  for_each (x ← xs; y ← ys; [g x y]) f = for_each xs (λ x, for_each ys (λ y, f (g x y))).
Proof.
  induction xs as [|x xs IH]; [done|]. cbn [mbind list_bind for_each] in *.
  rewrite for_each_app, <- IH. f_equal. clear.
  induction ys as [|y ys IH]; [done|]. cbn. by rewrite IH.
Qed.

(** ** Branches carry the account and role keys *)

Section discovery_theorems.
Context `{Edwards25519Laws} `{XCryptoBlake2b}.
Variable master : list Z.
Hypotheses (Hbytes : Forall is_byte master) (Hlen : length master = 96%nat)
  (Hclamp : icarus_clamped (le_val (take 32 master))).
#[local] Abbreviation m := (split96 master).

Lemma master_bound : hop_bound 0 m.
Proof. by apply clamped_bound. Qed.

(** The public half of a state. *)
Definition pub_of (e : Ext) : XPub :=
  match XPubFromPrivate e with Ok p => p | Err _ => inhabitant end.

Lemma XPubFromPrivate_pub e : Ext_wf e → XPubFromPrivate e = Ok (pub_of e) ∧
  PublicKey (pub_of e) = RefCompress (ref_of (ed_mul (le_val (KL e)) ed_base)).
Proof.
  intros Hw. destruct (XPubFromPrivate_ok e Hw) as (s & Hs & Hp).
  unfold pub_of. rewrite Hs. split; [done|]. cbn [PublicKey]. by rewrite EBytes_val, Hp.
Qed.

Lemma DerivePublicChild_pub k e idx : hop_bound k e → k <= 4 → idx < 2 ^ 31 →
  DerivePublicChild (pub_of e) idx = Ok (pub_of (child_ext e idx false)).
Proof.
  intros He Hk Hi. destruct (DerivePublicChild_ok e idx _ (proj1 He) (deriveChild_hop k e idx false He Hk))
    as (pub & Hpub & Hd).
  destruct (XPubFromPrivate_pub e (proj1 He)) as [Hp _]. rewrite Hp in Hpub. injection Hpub as <-.
  rewrite Hd, (proj2 (Z.leb_gt _ _)) by lia. apply XPubFromPrivate_pub. exact (child_wf _ _ _).
Qed.

Lemma account_keys_ok accounts byAccount :
  ∃ byAccount', account_keys (coin_ext m) accounts byAccount = Ok byAccount' ∧
  ∀ a, a ∈ accounts ∨ byAccount !! a = Some (pub_of (account_ext m a)) →
    byAccount' !! a = Some (pub_of (account_ext m a)).
Proof.
  destruct (path_bounds m 0 0 0 master_bound) as (_ & Hcoin & _).
  revert byAccount. induction accounts as [|a accounts IH]; intros M.
  { exists M. split; [done|]. intros a [[]%not_elem_of_nil|?]; done. }
  cbn [account_keys]. unfold DerivePrivateChild. rewrite (Z.lor_comm (2 ^ 31)).
  change (2 ^ 31) with 0x80000000. rewrite (deriveChild_hop 2 _ _ _ Hcoin ltac:(lia)).
  cbn [ckd_or_panic mbind result_bind]. fold (account_ext m a).
  destruct (XPubFromPrivate_pub (account_ext m a) (child_wf _ _ _)) as [-> _].
  cbn [map_err mbind result_bind].
  destruct (IH (<[a := pub_of (account_ext m a)]> M)) as (M' & -> & HM'). exists M'. split; [done|].
  intros b [[->|Hb]%elem_of_cons|Hb]; apply HM'; [right; by rewrite lookup_insert_eq|by left|].
  destruct (decide (b = a)) as [->|Hne]; [right; by rewrite lookup_insert_eq|].
  right. by rewrite lookup_insert_ne.
Qed.

Definition branch_of (role account : Z) : discoveryBranch :=
  {| b_account := account; b_role := role; b_parent := pub_of (role_ext m account role) |}.

Lemma role_branches_ok byAccount role accounts : role < 2 ^ 31 →
  (∀ a, a ∈ accounts → byAccount !! a = Some (pub_of (account_ext m a))) →
  role_branches byAccount role accounts = Ok (branch_of role <$> accounts).
Proof.
  intros Hr. induction accounts as [|a accounts IH]; intros HM; [done|].
  cbn [role_branches]. rewrite (lookup_total_correct byAccount a _ (HM a ltac:(by left))).
  destruct (path_bounds m a 0 0 master_bound) as (_ & _ & Hacc & _).
  rewrite (DerivePublicChild_pub 3 _ _ Hacc ltac:(lia) Hr). cbn [map_err mbind result_bind].
  rewrite IH by (intros b Hb; apply HM; by right). done.
Qed.

Lemma bind_singletons {A B} (f : A → B) xs : (x ← xs; [f x]) = f <$> xs.
Proof. induction xs as [|x xs IH]; [done|]. cbn. cbn in IH. by rewrite IH. Qed.

Lemma all_branches_ok byAccount roles accounts : Forall (λ r, r < 2 ^ 31) roles →
  (∀ a, a ∈ accounts → byAccount !! a = Some (pub_of (account_ext m a))) →
  all_branches byAccount roles accounts =
    Ok (role ← roles; account ← accounts; [branch_of role account]).
Proof.
  intros Hr HM. induction Hr as [|r roles Hr _ IH]; [done|]. cbn [all_branches].
  rewrite role_branches_ok by done. cbn [mbind result_bind]. rewrite IH.
  by rewrite <- bind_singletons.
Qed.

Lemma prepare_ok accounts roles : Forall (λ r, r < 2 ^ 31) roles →
  prepareDiscoveryBranches master accounts roles =
    Ok (role ← roles; account ← accounts; [branch_of role account]).
Proof.
  intros Hr. unfold prepareDiscoveryBranches, RootExt. rewrite Hlen. cbn [Nat.eqb negb].
  cbn [map_err mbind result_bind]. unfold DerivePrivateChild.
  rewrite !(Z.lor_comm (2 ^ 31)). change (2 ^ 31) with 0x80000000.
  rewrite (deriveChild_hop 0 m _ _ master_bound ltac:(lia)). cbn [ckd_or_panic mbind result_bind].
  fold (purpose_ext m). destruct (path_bounds m 0 0 0 master_bound) as (Hp & _).
  rewrite (deriveChild_hop 1 _ _ _ Hp ltac:(lia)). cbn [ckd_or_panic mbind result_bind].
  fold (coin_ext m). destruct (account_keys_ok accounts ∅) as (M & -> & HM).
  cbn [mbind result_bind]. apply all_branches_ok; [done|]. intros a Ha. apply HM. by left.
Qed.

(** ** The traversal visits the order *)

Variable targets : gset (list Z).
Variables total progressEvery : Z.

(** After the candidates [done] the state records their first matches. *)
Definition Inv (done : list Path) (st : scan_state) : Prop :=
  discovers master targets done (found st) ∧
  (∀ c, c ∈ remaining st ↔ c ∈ targets ∧ found st !! c = None).

(** Some target is still missing. *)
Definition live (done : list Path) (st : scan_state) : Prop := Inv done st ∧ remaining st ≠ ∅.

(** [mm] visits the paths [ps], or stops with every target found on a prefix. *)
Definition runs (mm : Scan unit) (ps : list Path) : Prop := ∀ done st, live done st →
  match mm st with
  | (Ok _, st') => live (done ++ ps) st'
  | (Err Found, st') => remaining st' = ∅ ∧ ∃ pre suf, done ++ ps = pre ++ suf ∧ Inv pre st'
  | (Err (Failed _), _) => False
  end.

Lemma runs_ret : runs (mret tt) [].
Proof. intros done st HI. cbn. by rewrite app_nil_r. Qed.

Lemma runs_bind (m1 m2 : Scan unit) ps qs :
  runs m1 ps → runs m2 qs → runs (m1 ≫= λ _, m2) (ps ++ qs).
Proof.
  intros H1' H2' done st HI. unfold mbind, scan_bind. specialize (H1' done st HI).
  destruct (m1 st) as [[[]|[|e]] st1]; [| |done].
  - specialize (H2' _ _ H1'). rewrite <- app_assoc in H2'. exact H2'.
  - destruct H1' as (He & pre & suf & E & HI'). split; [done|].
    exists pre, (suf ++ qs). split; [|done]. by rewrite !app_assoc, E.
Qed.

Lemma runs_each {A} (xs : list A) (f : A → Scan unit) (g : A → list Path) :
  (∀ x, x ∈ xs → runs (f x) (g x)) → runs (for_each xs f) (xs ≫= g).
Proof.
  induction xs as [|x xs IH]; intros Hf; [exact runs_ret|]. cbn [for_each mbind list_bind].
  apply (runs_bind (f x) (for_each xs f)); [apply Hf; by left|].
  apply IH. intros y Hy. apply Hf. by right.
Qed.

Lemma runs_emit : runs (scan_modify (emitDiscoveryProgress total)) [].
Proof. intros done st HI. cbn. by rewrite app_nil_r. Qed.

Lemma first_path_snoc done p c : first_path master (done ++ [p]) c =
  match first_path master done c with
  | Some q => Some q
  | None => if decide (DeriveCredential master p = Ok c) then Some p else None
  end.
Proof. rewrite first_path_app. cbn. by case_decide. Qed.

(** Recording a match, or passing over a candidate, keeps the invariant. *)
Lemma Inv_match done st p c : Inv done st → DeriveCredential master p = Ok c →
  c ∈ remaining st → Inv (done ++ [p]) (record_match c p (count_candidate st)).
Proof.
  intros [Hf Hr] Hp [Hc Hn]%Hr. split; cbn [record_match count_candidate found remaining].
  - intros d. rewrite first_path_snoc, Hp. destruct (decide (d = c)) as [->|Hne].
    + rewrite lookup_insert_eq, decide_True by done. rewrite Hf, decide_True in Hn by done.
      by rewrite Hn, decide_True.
    + rewrite lookup_insert_ne, Hf by done. case_decide; [|done].
      rewrite (decide_False (P := Ok c = Ok d)) by congruence. by destruct (first_path _ _ _).
  - intros d. rewrite elem_of_difference, elem_of_singleton, Hr.
    destruct (decide (d = c)) as [->|Hne].
    + rewrite lookup_insert_eq. naive_solver.
    + rewrite lookup_insert_ne by done. naive_solver.
Qed.

Lemma Inv_pass done st p c : Inv done st → DeriveCredential master p = Ok c →
  c ∉ remaining st → Inv (done ++ [p]) (count_candidate st).
Proof.
  intros [Hf Hr] Hp Hc. split; [|exact Hr]. cbn [count_candidate found]. intros d.
  rewrite first_path_snoc, Hp, Hf. case_decide as Hd; [|done].
  destruct (first_path master done d) as [q|] eqn:E; [done|].
  rewrite decide_False; [done|]. intros [= <-]. apply Hc, Hr. split; [done|].
  by rewrite Hf, decide_True.
Qed.

Lemma candidate_runs account role index :
  0 <= account < 2 ^ 31 → 0 <= role <= 2 → 0 <= index < 2 ^ 31 →
  runs (candidate (λ _, false) master total progressEvery index (branch_of role account))
    [{| Account := account; Role := role; Index := index |}].
Proof.
  intros Ha Hr Hi done st [HI Hne]. unfold candidate. cbn [branch_of b_account b_role b_parent].
  set (p := {| Account := account; Role := role; Index := index |}).
  destruct (path_bounds m account role 0 master_bound) as (_ & _ & _ & Hrole & _).
  assert (validatePath p = Ok tt) as Hp by (apply validatePath_Ok; cbn; lia).
  destruct (DeriveCredential_clamped master p Hbytes Hlen Hclamp Hp) as [_ Hcred].
  unfold path_leaf in Hcred. cbn [Account Role Index p] in Hcred.
  rewrite (DerivePublicChild_pub 4 _ index Hrole ltac:(lia)) by lia.
  fold (leaf_ext m account role index).
  destruct (XPubFromPrivate_pub (leaf_ext m account role index) (child_wf _ _ _)) as [_ Hkey].
  unfold scan_get, scan_lift, scan_modify, scan_exit_with.
  unfold mbind, scan_bind, mret, scan_ret. cbv beta iota.
  rewrite Hkey, blake2b_sum_spec by (lia || by apply (RefCompress_bytes _ _ eq_refl)).
  fold (leaf_credential (leaf_ext m account role index)).
  set (c := leaf_credential (leaf_ext m account role index)) in *.
  destruct (decide (c ∈ remaining st)) as [Hc|Hc].
  - rewrite Hcred. cbv beta iota. rewrite decide_False by (intros Hx; by apply Hx).
    pose proof (Inv_match _ _ _ _ HI Hcred Hc) as HI'.
    destruct (decide (remaining (record_match c p (count_candidate st)) = ∅)) as [He|He].
    + split; [exact He|]. exists (done ++ [p]), []. split; [by rewrite app_nil_r|exact HI'].
    + destruct (_ =? 0); exact (conj HI' He).
  - pose proof (Inv_pass _ _ _ _ HI Hcred Hc) as HI'. destruct (_ =? 0); exact (conj HI' Hne).
Qed.

Lemma traverse_runs opts bands : discovery_ok opts →
  (bands ≫= band_indexes) = option_values (oIndex opts) (MaxIndex opts) →
  runs (traverse (λ _, false) master total progressEvery bands
    (role ← discovery_roles (oRole opts);
     account ← option_values (oAccount opts) (MaxAccount opts); [branch_of role account]))
    (discovery_order opts).
Proof.
  intros (Ha & Hr & Hi & HA & HI) Hb. unfold discovery_order. rewrite <- Hb.
  rewrite list_bind_assoc. apply runs_each. intros band Hband.
  match goal with |- runs _ ?ps => rewrite <- (app_nil_r ps) end.
  apply runs_bind; [|exact runs_emit].
  apply runs_each. intros index Hindex.
  assert (0 <= index < 2 ^ 31) as Hir.
  { apply (option_values_range (oIndex opts) (MaxIndex opts)); [lia|lia|]. rewrite <- Hb.
    apply list_elem_of_bind. by exists band. }
  rewrite (for_each_bind2 _ _ branch_of). apply runs_each. intros role Hrole. apply runs_each.
  intros account Hacc. apply candidate_runs.
  - by apply (option_values_range (oAccount opts) (MaxAccount opts)); [lia|lia|].
  - unfold discovery_roles in Hrole. destruct (Z.eqb_spec (oRole opts) (-1)).
    + rewrite !elem_of_cons in Hrole. destruct Hrole as [->|[->|[->|[]%not_elem_of_nil]]]; lia.
    + apply list_elem_of_singleton in Hrole. lia.
  - done.
Qed.
End discovery_theorems.

(** ** The theorem *)

Section discover_theorem.
Context `{Edwards25519Laws} `{XCryptoBlake2b}.

Lemma target_set_ok targets acc : Forall (λ t, length t = 28%nat) targets →
  target_set targets acc = Ok (acc ∪ list_to_set targets).
Proof.
  intros Ht. revert acc. induction Ht as [|t targets Hl _ IH]; intros acc; cbn [target_set].
  { f_equal. set_solver. }
  rewrite Hl. cbn [Nat.eqb negb]. rewrite IH. f_equal. cbn. set_solver.
Qed.

Lemma discovers_all master targets order pre suf found : order = pre ++ suf →
  discovers master targets pre found → (∀ c, c ∈ targets → found !! c ≠ None) →
  discovers master targets order found.
Proof.
  intros -> Hd Hall c. rewrite (Hd c). case_decide as Hc; [|done]. rewrite first_path_app.
  specialize (Hall c Hc). rewrite (Hd c), decide_True in Hall by done.
  by destruct (first_path master pre c).
Qed.

Lemma DiscoverCredentialPaths_finds master targets opts fuel :
  Forall is_byte master → length master = 96%nat →
  icarus_clamped (le_val (take 32 master)) →
  Forall (λ t, length t = 28%nat) targets → discovery_ok (Search opts) →
  (Z.to_nat (MaxAccount (Search opts)) + 1 < fuel)%nat →
  let spec := discovers master (list_to_set targets) (discovery_order (Search opts)) in
  match (DiscoverCredentialPaths fuel (λ _, false) master targets opts).1 with
  | Ok found => spec found ∧ ∀ c, c ∈ targets → found !! c ≠ None
  | Err (ErrCredentialsNotFound found) => spec found ∧ ∃ c, c ∈ targets ∧ found !! c = None
  | Err _ => False
  end.
Proof.
  intros Hb Hl Hc Ht Hok Hf spec. unfold DiscoverCredentialPaths. rewrite Hl. cbn [Nat.eqb negb].
  rewrite target_set_ok, union_empty_l_L by done.
  set (ts := list_to_set targets : gset (list Z)) in *.
  assert (∀ c, c ∈ ts ↔ c ∈ targets) as Hts by (intros c; unfold ts; set_solver).
  destruct (decide (ts = ∅)) as [He|He]; cbn [fst].
  { split; [|intros c Hct; apply Hts in Hct; set_solver]. intros c. rewrite lookup_empty.
    rewrite decide_False; [done|]. set_solver. }
  destruct (discoverySchedule_ok fuel (Search opts) Hok Hf) as (bands & total & -> & Hbands).
  rewrite (prepare_ok master Hb Hl Hc).
  2: { pose proof Hok as (_ & Hr & _). unfold discovery_roles. case_match;
       repeat constructor; lia. }
  set (st0 := emitDiscoveryProgress total _).
  assert (Inv master ts [] st0) as H0'.
  { split; cbn; [intros c; rewrite lookup_empty; by case_decide|].
    intros c. rewrite lookup_empty. tauto. }
  pose proof (traverse_runs master Hb Hl Hc ts total
    (if ProgressEvery opts =? 0 then 32 else ProgressEvery opts) (Search opts) bands Hok Hbands
    [] st0 (conj H0' He)) as Hrun.
  destruct (traverse _ _ _ _ _ _ st0) as [[[]|[|e]] st]; cbn [fst]; [| |done].
  - destruct Hrun as [[Hd Hr] Hne]. cbn [app] in Hd. split; [exact Hd|].
    apply set_choose_L in Hne as [c [Hct Hcn]%Hr]. exists c. split; [by apply Hts|done].
  - destruct Hrun as (Hre & pre & suf & E & Hd & Hr). cbn [app] in E.
    assert (∀ c, c ∈ ts → found st !! c ≠ None) as Hall.
    { intros c Hct Hcn. assert (c ∈ remaining st) as Hin by by apply Hr. set_solver. }
    split; [exact (discovers_all master ts _ pre suf _ E Hd Hall)|].
    intros c Hct. apply Hall. by apply Hts.
Qed.

(** C19 Discovery is exact.  From a clamped master, 28-byte targets and a schedule inside
    the supported ranges, the single public-key traversal of
    [DiscoverCredentialPaths] returns for every target the first path, in
    index-major, role, account order, on which canonical [DeriveCredential] yields
    it; it succeeds exactly when every target has such a path, otherwise it reports
    the credentials not found together with those it did find, and neither the
    derivations nor the cross-check against canonical derivation can fail. *)
Theorem DiscoverCredentialPaths_exact master targets opts fuel :
  Forall is_byte master → length master = 96%nat →
  icarus_clamped (le_val (take 32 master)) →
  Forall (λ t, length t = 28%nat) targets → discovery_ok (Search opts) →
  (Z.to_nat (MaxAccount (Search opts)) + 1 < fuel)%nat →
  let spec := discovers master (list_to_set targets) (discovery_order (Search opts)) in
  match (DiscoverCredentialPaths fuel (λ _, false) master targets opts).1 with
  | Ok found => spec found ∧ ∀ c, c ∈ targets → found !! c ≠ None
  | Err (ErrCredentialsNotFound found) => spec found ∧ ∃ c, c ∈ targets ∧ found !! c = None
  | Err _ => False
  end.
Proof. exact (DiscoverCredentialPaths_finds master targets opts fuel). Qed.
End discover_theorem.
