(* ===== verification/BatchTranscript.v ===== *)
(** * The batch transcript: [internal/batchtranscript/batchtranscript.go]

    A batch of reclaim proofs is verified with random coefficients derived from one
    transcript: the domain, the hash of the verifier key, the number of slots, and each
    proof with the digest of its public input.  The transcript is injective in all of
    these, and the challenges derived from it are non-zero scalars. *)
From stdpp Require Import strings.
From S2P Require Import Prelude.
From S2P Require Import Gnark.
From S2P Require Import GoText.
From S2P Require Import GoError.
From S2P Require Import Ownership.

Definition DomainV2 : list Z := str "ROOT-OWNERSHIP-POK-BATCH-v2".
Definition VKHashLen : nat := 32.
Definition ProofLen : nat := 336.
Definition DigestLen : nat := 32.
Definition MaxSlots : nat := Z.to_nat 65535.

(** [for i := range proofs]; the two lists have one length. *)
Fixpoint append_slots (transcript : list Z) (proofs publicInputDigests : list (list Z)) :
    result go_error (list Z) :=
  match proofs, publicInputDigests with
  | proof :: proofs, digest :: publicInputDigests =>
      _ ← check (negb (length proof =? ProofLen)%nat) "proof %d is %d bytes, want %d";
      _ ← check (negb (length digest =? DigestLen)%nat) "public input digest %d is %d bytes, want %d";
      append_slots (transcript ++ proof ++ digest) proofs publicInputDigests
  | _, _ => Ok transcript
  end.

Definition BuildV2 (vkHash : list Z) (proofs publicInputDigests : list (list Z)) :
    result go_error (list Z) :=
  _ ← check (negb (length vkHash =? VKHashLen)%nat) "verifier key hash is %d bytes, want %d";
  _ ← check (negb (length proofs =? length publicInputDigests)%nat)
        "proof/digest list lengths differ: %d proofs, %d digests";
  _ ← check (MaxSlots <? length proofs)%nat "batch has %d slots, maximum is %d";
  let n := Z.of_nat (length proofs) in
  append_slots (DomainV2 ++ vkHash ++ [byte (Z.shiftr n 8); byte n]) proofs publicInputDigests.

Section challenges.
Context `{Field} `{XCryptoBlake2b}.

Definition VKHash (verifierKey : list Z) : list Z := blake2b_sum 32 verifierKey.

(** [ecc.BLS12_381.ScalarField()] is the field the circuits are compiled over. *)
Definition challenge (input : list Z) : Z :=
  be_val (blake2b_sum 32 input) mod (field_order - 1) + 1.

Definition ChallengeV2 (transcript : list Z) : Z := challenge transcript.

Definition MergeChallengeV2 (transcript : list Z) : Z :=
  challenge (blake2b_sum 32 transcript ++ [0x01]).
End challenges.

(** ** Slots *)

(** The shapes [BuildV2] accepts. *)
Record batch_ok (vkHash : list Z) (proofs digests : list (list Z)) : Prop := {
  bt_vk : length vkHash = VKHashLen;
  bt_slots : length proofs = length digests;
  bt_max : (length proofs <= MaxSlots)%nat;
  bt_proofs : Forall (λ p, length p = ProofLen) proofs;
  bt_digests : Forall (λ d, length d = DigestLen) digests }.

Definition slots (proofs digests : list (list Z)) : list Z :=
  concat (zip_with (++) proofs digests).

Lemma append_slots_Ok t proofs digests r : length proofs = length digests →
  append_slots t proofs digests = Ok r ↔
  Forall (λ p, length p = ProofLen) proofs ∧ Forall (λ d, length d = DigestLen) digests ∧
  r = t ++ slots proofs digests.
Proof.
  revert t digests r. induction proofs as [|p proofs IH]; intros t [|d digests] r Hl; try done.
  - unfold slots. cbn. rewrite app_nil_r. naive_solver.
  - injection Hl as Hl. cbn [append_slots]. rewrite !Forall_cons.
    assert (slots (p :: proofs) (d :: digests) = (p ++ d) ++ slots proofs digests) as -> by done.
    split.
    + intros Ha. inv_checks.
      match goal with H : append_slots _ _ _ = _ |- _ => apply (IH _ _ _ Hl) in H as (? & ? & ->) end.
      rewrite <- !app_assoc. by split_and!.
    + intros ([? ?] & [? ?] & ->). pass_checks; [done..|].
      apply IH; [done|]. rewrite <- !app_assoc. by split_and!.
Qed.

(** The transcript, and when there is one. *)
Definition transcript_of (vkHash : list Z) (proofs digests : list (list Z)) : list Z :=
  DomainV2 ++ vkHash ++ be_bytes 2 (Z.of_nat (length proofs)) ++ slots proofs digests.

Lemma count_bytes n : [byte (Z.shiftr n 8); byte n] = be_bytes 2 n.
Proof. unfold be_bytes, byte. cbn. by rewrite Z.shiftr_div_pow2. Qed.

Lemma BuildV2_Ok vkHash proofs digests t : BuildV2 vkHash proofs digests = Ok t ↔
  batch_ok vkHash proofs digests ∧ t = transcript_of vkHash proofs digests.
Proof.
  unfold BuildV2, transcript_of. rewrite <- count_bytes. split.
  - intros Hb. inv_checks.
    match goal with H : append_slots _ _ _ = _ |- _ =>
      apply append_slots_Ok in H as (? & ? & ->); [|done] end.
    split; [done|]. by rewrite <- !app_assoc.
  - intros [[Hv Hn Hm Hp Hd] ->]. pass_checks; [done..|].
    apply append_slots_Ok; [done|]. by rewrite <- !app_assoc.
Qed.

Lemma slots_inj p1 d1 p2 d2 : length p1 = length p2 → length p1 = length d1 → length p2 = length d2 →
  Forall (λ p, length p = ProofLen) p1 → Forall (λ p, length p = ProofLen) p2 →
  Forall (λ d, length d = DigestLen) d1 → Forall (λ d, length d = DigestLen) d2 →
  slots p1 d1 = slots p2 d2 → p1 = p2 ∧ d1 = d2.
Proof.
  unfold slots. revert d1 p2 d2.
  induction p1 as [|p p1 IH]; intros [|d d1] [|p' p2] [|d' d2]; try done.
  cbn [zip_with concat length]. rewrite !Forall_cons.
  intros [= Hl] [= H1] [= H2] [Hp ?] [Hp' ?] [Hd ?] [Hd' ?]. rewrite <- !app_assoc. intros He.
  apply app_inj_1 in He as [-> He]; [|congruence]. apply app_inj_1 in He as [-> He]; [|congruence].
  by apply IH in He as [-> ->].
Qed.

Lemma transcript_of_inj v1 p1 d1 v2 p2 d2 : batch_ok v1 p1 d1 → batch_ok v2 p2 d2 →
  transcript_of v1 p1 d1 = transcript_of v2 p2 d2 → v1 = v2 ∧ p1 = p2 ∧ d1 = d2.
Proof.
  intros [Hv1 Hn1 Hm1 Hp1 Hd1] [Hv2 Hn2 Hm2 Hp2 Hd2] He. unfold transcript_of, MaxSlots in *.
  apply app_inv_head in He. apply app_inj_1 in He as [-> He]; [|congruence].
  apply app_inj_1 in He as [Hc He]; [|by rewrite !length_be_bytes].
  apply (f_equal be_val) in Hc. rewrite !be_val_be_bytes, !Z.mod_small in Hc by lia.
  split; [done|]. apply slots_inj; try done; lia.
Qed.

(** The batch transcript binds the whole batch.  [BuildV2] succeeds exactly on a
    32-byte key hash and at most 65535 slots of a 336-byte proof and a 32-byte digest;
    no two such batches have one transcript, not even a reordered or truncated one; and
    both challenges of any transcript are non-zero scalars below the group order. *)
Theorem BuildV2_exact `{Field} `{XCryptoBlake2b} :
  (∀ v p d, is_ok (BuildV2 v p d) = true ↔ batch_ok v p d) ∧
  (∀ v1 p1 d1 v2 p2 d2 t, BuildV2 v1 p1 d1 = Ok t → BuildV2 v2 p2 d2 = Ok t →
     v1 = v2 ∧ p1 = p2 ∧ d1 = d2) ∧
  (∀ t, 0 < ChallengeV2 t < field_order ∧ 0 < MergeChallengeV2 t < field_order).
Proof.
  split_and!.
  - intros v p d. split.
    + destruct (BuildV2 v p d) as [t|] eqn:E; [|done]. intros _. by apply BuildV2_Ok in E as [? _].
    + intros Hok. by rewrite (proj2 (BuildV2_Ok v p d _) (conj Hok eq_refl)).
  - intros v1 p1 d1 v2 p2 d2 t [H1 ->]%BuildV2_Ok [H2 He]%BuildV2_Ok. by apply transcript_of_inj.
  - assert (2 < field_order) as Hf.
    { pose proof field_bits. pose proof field_large.
      assert (2 ^ 2 <= 2 ^ (FieldBitLen - 1)) by (apply Z.pow_le_mono_r; lia). lia. }
    assert (∀ x, 0 < x mod (field_order - 1) + 1 < field_order) as Hm.
    { intros x. pose proof (Z.mod_pos_bound x (field_order - 1)). lia. }
    intros t. split; apply Hm.
Qed.
