(* ===== verification/Ranges.v ===== *)
(** * Half-open ranges that tile an interval

    Vectors, files and sections are cut into contiguous ranges that are processed apart
    and put together again: a list of ranges [tiles] an interval when each starts where
    the one before it ends.  What the pieces of a list give back is then the list. *)
From S2P Require Import Prelude.

Abbreviation range := (Z * Z)%type.

(** [l[lo:hi]] of a Go slice. *)
Definition slice {A} (r : range) (l : list A) : list A :=
  take (Z.to_nat (r.2 - r.1)) (drop (Z.to_nat r.1) l).

Fixpoint tiles (lo hi : Z) (rs : list range) : Prop :=
  match rs with
  | [] => lo = hi
  | (a, b) :: rs => a = lo ∧ lo <= b ∧ tiles b hi rs
  end.

Lemma tiles_le lo hi rs : tiles lo hi rs → lo <= hi.
Proof.
  revert lo. induction rs as [|[a b] rs IH]; intros lo; cbn; [lia|].
  intros (-> & Hb & Ht). apply IH in Ht. lia.
Qed.

Lemma tiles_app lo mid hi rs ss : tiles lo mid rs → tiles mid hi ss → tiles lo hi (rs ++ ss).
Proof.
  revert lo. induction rs as [|[a b] rs IH]; intros lo; cbn; [by intros ->|].
  intros (-> & Hb & Ht) Hs. auto.
Qed.

(** Every range lies inside. *)
Lemma tiles_inside lo hi rs r : tiles lo hi rs → r ∈ rs → lo <= r.1 <= r.2 ∧ r.2 <= hi.
Proof.
  revert lo. induction rs as [|[a b] rs IH]; intros lo Ht Hr; [by apply elem_of_nil in Hr|].
  destruct Ht as (-> & Hb & Ht). pose proof (tiles_le _ _ _ Ht).
  apply elem_of_cons in Hr as [->|Hr]; [cbn; lia|]. apply (IH b Ht) in Hr. lia.
Qed.

(** Empty ranges can be dropped. *)
Lemma tiles_nonempty lo hi rs : tiles lo hi rs → tiles lo hi (filter (λ r : range, r.1 < r.2) rs).
Proof.
  revert lo. induction rs as [|[a b] rs IH]; intros lo; [done|]. cbn [tiles].
  intros (-> & Hb & Ht). rewrite filter_cons. case_decide as Hd; cbn in Hd.
  - cbn [tiles]. auto.
  - assert (b = lo) as -> by lia. auto.
Qed.

Lemma slice_length {A} (r : range) (l : list A) : 0 <= r.1 <= r.2 → r.2 <= Z.of_nat (length l) →
  Z.of_nat (length (slice r l)) = r.2 - r.1.
Proof. intros Hr Hl. unfold slice. rewrite length_take, length_drop. lia. Qed.

Lemma slice_fmap {A B} (f : A → B) r (l : list A) : slice r (f <$> l) = f <$> slice r l.
Proof. unfold slice. by rewrite fmap_take, fmap_drop. Qed.

Lemma slice_zip {A B} r (l : list A) (k : list B) : slice r (zip l k) = zip (slice r l) (slice r k).
Proof.
  unfold slice. generalize (Z.to_nat (r.2 - r.1)) as m, (Z.to_nat r.1) as n. intros m n.
  assert (∀ n (l : list A) (k : list B), drop n (zip l k) = zip (drop n l) (drop n k)) as Hd.
  { clear. induction n as [|n IH]; intros [|a l] [|b k]; cbn; try done.
    - by destruct (drop n l). }
  rewrite Hd. generalize (drop n l) as l', (drop n k) as k'. clear.
  induction m as [|m IH]; intros [|a l] [|b k]; cbn; try done. by rewrite IH.
Qed.

Lemma slice_cons {A} a b c (l : list A) : 0 <= a <= b → b <= c → c <= Z.of_nat (length l) →
  slice (a, c) l = slice (a, b) l ++ slice (b, c) l.
Proof.
  intros Hab Hbc Hc. unfold slice. cbn [fst snd].
  replace (Z.to_nat (c - a)) with (Z.to_nat (b - a) + Z.to_nat (c - b))%nat by lia.
  rewrite <- take_take_drop, drop_drop. do 3 f_equal. lia.
Qed.

Lemma slice_empty {A} a (l : list A) : slice (a, a) l = [].
Proof. unfold slice. cbn. by rewrite Z.sub_diag. Qed.

Lemma slice_all {A} (l : list A) : slice (0, Z.of_nat (length l)) l = l.
Proof. unfold slice. cbn [fst snd]. by rewrite Z.sub_0_r, Nat2Z.id, take_ge. Qed.

(** The pieces, in order, are the list. *)
Lemma tiles_concat {A} (l : list A) lo hi rs : 0 <= lo → hi <= Z.of_nat (length l) →
  tiles lo hi rs → concat ((λ r, slice r l) <$> rs) = slice (lo, hi) l.
Proof.
  revert lo. induction rs as [|[a b] rs IH]; intros lo Hlo Hhi; cbn [tiles fmap list_fmap concat].
  - intros ->. by rewrite slice_empty.
  - intros (-> & Hb & Ht). pose proof (tiles_le _ _ _ Ht).
    fold (fmap (M:=list) (λ r, slice r l) rs). rewrite (IH b) by (done || lia).
    symmetry. apply slice_cons; lia.
Qed.

Lemma tiles_whole {A} (l : list A) rs : tiles 0 (Z.of_nat (length l)) rs →
  concat ((λ r, slice r l) <$> rs) = l.
Proof. intros Ht. rewrite (tiles_concat l 0 _ rs) by (done || lia). apply slice_all. Qed.
