(* ===== verification/Msm.v ===== *)
(** * Multi-exponentiation in parts: [internal/msmengine]

    [partition.go] (the ranges of a vector), [cpu.go] (the engine that fetches the points
    of a range at a time) and [serialize.go] (the worker message format and the kernel a
    worker runs).  The curve groups and their multi-exponentiation are gnark-crypto's.  In parts or whole, the result is the same. *)
From stdpp Require Import strings.
From S2P Require Import Prelude.
From S2P Require Import GoText.
From S2P Require Import GoError.
From S2P Require Import Ranges.

(** ** gnark-crypto *)

(** [fr.Element]: its canonical big-endian bytes. *)
Class ScalarField := {
  Scalar : Type;
  scalar_Bytes : Scalar → list Z;
  scalar_SetBytes : list Z → Scalar;
  scalar_IsZero : Scalar → bool;
  scalar_Bytes_length s : length (scalar_Bytes s) = 32%nat;
  scalar_SetBytes_Bytes s : scalar_SetBytes (scalar_Bytes s) = s;
}.

(** [G1] or [G2] of BLS12-381.  A point has one affine form and several Jacobian ones,
    equivalent to each other; [SetBytes] also requires the prime-order subgroup,
    [decode_on_curve] (the decoder with [NoSubgroupChecks], then [IsOnCurve]) does not. *)
Class CurveGroup `{ScalarField} := {
  Affine : Type;
  Jac : Type;
  jac_equiv :: Equiv Jac;
  jac_infinity : Jac;
  AddAssign : Jac → Jac → Jac;
  MultiExp : list Affine → list Scalar → result go_error Jac;
  FromJacobian : Jac → Affine;
  FromAffine : Affine → Jac;
  point_size : nat;
  RawBytes : Affine → list Z;
  SetBytes : list Z → option Affine;
  decode_on_curve : list Z → option Affine;
}.

(** ** [partition.go] *)

(** [for w := 0; w < workers; w++], from [w] with [count] iterations left. *)
Fixpoint partition_loop (n workers base : Z) (count : nat) (w lo : Z) : list range :=
  match count with
  | O => []
  | S count =>
      let hi := lo + base in
      let hi := if w =? workers - 1 then n else hi in
      let hi := if n <? hi then n else hi in
      (lo, hi) :: partition_loop n workers base count (w + 1) hi
  end.

Definition partitionRanges (n workers : Z) : list range :=
  let workers := if workers <? 1 then 1 else workers in
  let n := if n <? 0 then 0 else n in
  let base := n / workers in
  partition_loop n workers base (Z.to_nat workers) 0 0.

(** The result reuses the array of its argument, which no caller reads again. *)
Definition nonEmptyRanges (ranges : list range) : list range := filter (λ r : range, r.1 < r.2) ranges.

(** ** [cpu.go] *)

Definition cpuRangeChunks : Z := 4.

(** A progress report: scalars done, scalars in all. *)
Abbreviation progress := (Z * Z)%type.

Section engine.
Context `{CurveGroup}.

(** [combineG1] and [combineG2]. *)
Definition combine (parts : list Jac) : Jac := foldl AddAssign jac_infinity parts.

(** [MSMG1] and [MSMG2]; [reporting] when a progress function is installed. *)
Definition msm (reporting : bool) (points : list Affine) (scalars : list Scalar) :
    result go_error Jac * list progress :=
  match MultiExp points scalars with
  | Ok j => let n := Z.of_nat (length scalars) in (Ok j, if reporting then [(n, n)] else [])
  | Err e => (Err e, [])
  end.

(** [for _, r := range ranges] of [MSMG1Ranged] and [MSMG2Ranged]. *)
Fixpoint ranged_loop (name : string) (reporting : bool) (n : Z)
    (fetch : Z → Z → result go_error (list Affine)) (scalars : list Scalar)
    (ranges : list range) (sum : Jac) (done : Z) (reports : list progress) :
    result go_error Jac * list progress :=
  match ranges with
  | [] => (Ok sum, reports)
  | r :: ranges =>
      match fetch r.1 r.2 with
      | Err e => (Err (Wrap (name +:+ ": fetch [%d,%d)") e), reports)
      | Ok pts =>
          if negb (Z.of_nat (length pts) =? r.2 - r.1) then
            (Err (Fail (name +:+ ": fetch [%d,%d) returned %d points, want %d")), reports) else
          match MultiExp pts (slice r scalars) with
          | Err e => (Err e, reports)
          | Ok part =>
              let done := done + (r.2 - r.1) in
              ranged_loop name reporting n fetch scalars ranges (AddAssign sum part) done
                (reports ++ if reporting then [(done, n)] else [])
          end
      end
  end.

Definition msm_ranged (name : string) (reporting : bool) (n : Z)
    (fetch : Z → Z → result go_error (list Affine)) (scalars : list Scalar) :
    result go_error Jac * list progress :=
  if negb (Z.of_nat (length scalars) =? n) then (Err (Fail (name +:+ ": %d scalars vs n=%d")), []) else
  let ranges := nonEmptyRanges (partitionRanges n cpuRangeChunks) in
  match ranged_loop name reporting n fetch scalars ranges jac_infinity 0 [] with
  | (Ok sum, reports) =>
      (Ok sum, if reporting && bool_decide (ranges = []) then reports ++ [(0, n)] else reports)
  | failed => failed
  end.
End engine.

(** ** [serialize.go] *)

Definition scalarSize : nat := 32.

Section serialize.
Context `{CurveGroup}.

(** [marshalG1Points] and [marshalG2Points]. *)
Definition marshal_points (points : list Affine) : list Z := concat (RawBytes <$> points).
Definition marshalScalars (scalars : list Scalar) : list Z := concat (scalar_Bytes <$> scalars).

(** [n] consecutive items of [size] bytes. *)
Fixpoint read_items {A} (read : list Z → result go_error A) (size n : nat) (buf : list Z) :
    result go_error (list A) :=
  match n with
  | O => Ok []
  | S n => p ← read (take size buf); ps ← read_items read size n (drop size buf); Ok (p :: ps)
  end.

Definition read_point (decode : list Z → option Affine) (buf : list Z) : result go_error Affine :=
  match decode buf with Some p => Ok p | None => Err (Fail "invalid point") end.

(** [unmarshalG1Points] and [unmarshalG2Points]; with [decode_on_curve], their pinned
    forms. *)
Definition unmarshal_points (decode : list Z → option Affine) (buf : list Z) :
    result go_error (list Affine) :=
  if negb (length buf mod point_size =? 0)%nat then Err (Fail "point buffer len %d not a multiple of %d")
  else read_items (read_point decode) point_size (length buf / point_size) buf.

(** The scalars and how many are not zero. *)
Definition unmarshalScalarsWithStats (buf : list Z) : result go_error (list Scalar * nat) :=
  if negb (length buf mod scalarSize =? 0)%nat then Err (Fail "scalar buffer len %d not a multiple of %d")
  else
    scs ← read_items (λ b, Ok (scalar_SetBytes b)) scalarSize (length buf / scalarSize) buf;
    Ok (scs, length (filter (λ s, scalar_IsZero s = false) scs)).

Definition unmarshalScalars (buf : list Z) : result go_error (list Scalar) :=
  '(scs, _) ← unmarshalScalarsWithStats buf; Ok scs.

(** [marshalG1Jac]/[marshalG2Jac] and their inverses. *)
Definition marshal_jac (p : Jac) : list Z := RawBytes (FromJacobian p).
Definition unmarshal_jac (buf : list Z) : result go_error Jac :=
  aff ← read_point SetBytes buf; Ok (FromAffine aff).

(** [shardG1BytesTimed] and [shardG2BytesTimed], timings aside: the partial result and
    the number of non-zero scalars. *)
Definition shard_bytes (pinnedDecode : bool) (ptsBuf scsBuf : list Z) : result go_error (list Z * nat) :=
  pts ← unmarshal_points (if pinnedDecode then decode_on_curve else SetBytes) ptsBuf;
  '(scs, nonzero) ← unmarshalScalarsWithStats scsBuf;
  _ ← check (negb (length pts =? length scs)%nat) "shard: %d points vs %d scalars";
  partial ← if (0 <? length pts)%nat then MultiExp pts scs else Ok jac_infinity;
  Ok (marshal_jac partial, nonzero).
End serialize.

(** * A multi-exponentiation in parts is the multi-exponentiation

    The ranges of [partitionRanges] tile the vector, the partial sums add up in the group,
    and serialization loses nothing: every way the package splits the work yields the
    bytes of the unsplit result. *)

(** ** The documented behaviour of gnark-crypto *)

Class CurveGroupLaws `{CurveGroup} := {
  jac_equivalence :: Equivalence (≡@{Jac});
  AddAssign_proper :: Proper ((≡) ==> (≡) ==> (≡)) AddAssign;
  AddAssign_assoc x y z : AddAssign x (AddAssign y z) ≡ AddAssign (AddAssign x y) z;
  AddAssign_infinity_l x : AddAssign jac_infinity x ≡ x;
  AddAssign_infinity_r x : AddAssign x jac_infinity ≡ x;
  (** The multiple of a point. *)
  scale : Affine → Scalar → Jac;
  MultiExp_sum ps ss : length ps = length ss → ∃ j, MultiExp ps ss = Ok j ∧
    j ≡ foldr (λ ps acc, AddAssign (scale ps.1 ps.2) acc) jac_infinity (zip ps ss);
  (** Affine coordinates are unique, and the subgroup is closed. *)
  FromJacobian_proper j k : j ≡ k → FromJacobian j = FromJacobian k;
  FromAffine_FromJacobian j : FromAffine (FromJacobian j) ≡ j;
  in_subgroup : Affine → Prop;
  subgroup_infinity : in_subgroup (FromJacobian jac_infinity);
  subgroup_add j k : in_subgroup (FromJacobian j) → in_subgroup (FromJacobian k) →
    in_subgroup (FromJacobian (AddAssign j k));
  subgroup_scale p s : in_subgroup p → in_subgroup (FromJacobian (scale p s));
  (** Encodings. *)
  point_size_pos : (0 < point_size)%nat;
  RawBytes_length p : length (RawBytes p) = point_size;
  SetBytes_RawBytes p : in_subgroup p → SetBytes (RawBytes p) = Some p;
  decode_on_curve_RawBytes p : decode_on_curve (RawBytes p) = Some p;
}.

(** ** Ranges *)

Lemma partition_loop_tiles n workers base count w lo :
  0 <= lo <= n → 0 <= base → w + Z.of_nat count = workers → (0 < count)%nat →
  tiles lo n (partition_loop n workers base count w lo).
Proof.
  revert w lo. induction count as [|count IH]; intros w lo Hlo Hb Hw Hc; [lia|].
  cbn [partition_loop tiles]. destruct (Z.eqb_spec w (workers - 1)) as [Heq|Hne].
  - assert (count = 0%nat) as -> by lia. cbn. rewrite Z.ltb_irrefl. lia.
  - destruct (Z.ltb_spec n (lo + base)); (split; [done|]; split; [lia|]); apply IH; lia.
Qed.

Lemma partitionRanges_tiles n workers : 0 <= n → tiles 0 n (partitionRanges n workers).
Proof.
  intros Hn. unfold partitionRanges. rewrite (proj2 (Z.ltb_ge n 0)) by done.
  destruct (Z.ltb_spec workers 1); apply partition_loop_tiles; try lia; apply Z.div_pos; lia.
Qed.

Lemma nonEmptyRanges_tiles n workers : 0 <= n → tiles 0 n (nonEmptyRanges (partitionRanges n workers)).
Proof. intros Hn. by apply tiles_nonempty, partitionRanges_tiles. Qed.

Lemma nonEmptyRanges_pos n workers r : r ∈ nonEmptyRanges (partitionRanges n workers) → r.1 < r.2.
Proof. intros Hr. by apply list_elem_of_filter in Hr as [? _]. Qed.

(** ** Sums *)

Section sums.
Context `{CurveGroupLaws}.

Definition msum (ps : list (Affine * Scalar)) : Jac :=
  foldr (λ ps acc, AddAssign (scale ps.1 ps.2) acc) jac_infinity ps.

Lemma msum_app ps qs : msum (ps ++ qs) ≡ AddAssign (msum ps) (msum qs).
Proof.
  induction ps as [|p ps IH]; cbn [app msum foldr]; [by rewrite AddAssign_infinity_l|].
  fold (msum (ps ++ qs)) (msum ps). by rewrite IH, AddAssign_assoc.
Qed.

Lemma MultiExp_ok ps ss : length ps = length ss → ∃ j, MultiExp ps ss = Ok j ∧ j ≡ msum (zip ps ss).
Proof. apply MultiExp_sum. Qed.

Lemma combine_app j parts : foldl AddAssign j parts ≡ AddAssign j (combine parts).
Proof.
  unfold combine. revert j. induction parts as [|k parts IH]; intros j; cbn [foldl].
  - by rewrite AddAssign_infinity_r.
  - rewrite IH, (IH (AddAssign jac_infinity k)), AddAssign_infinity_l. by rewrite AddAssign_assoc.
Qed.

(** The partial sums of any tiling add up. *)
Lemma combine_parts ps ss rs parts : length ps = length ss →
  tiles 0 (Z.of_nat (length ps)) rs →
  Forall2 (λ r j, j ≡ msum (zip (slice r ps) (slice r ss))) rs parts →
  combine parts ≡ msum (zip ps ss).
Proof.
  intros Hl Ht Hp.
  assert (concat ((λ r, slice r (zip ps ss)) <$> rs) = zip ps ss) as <-.
  { apply tiles_whole. rewrite length_zip_with. by rewrite <- Hl, Nat.min_id. }
  clear Ht. unfold combine. induction Hp as [|r j rs parts Hj _ IH]; cbn [fmap list_fmap concat foldl];
    [done|].
  rewrite msum_app, slice_zip, <- Hj. fold (fmap (M:=list) (λ r, slice r (zip ps ss)) rs).
  rewrite <- IH. fold (combine parts). rewrite combine_app. by rewrite AddAssign_infinity_l.
Qed.

Lemma subgroup_msum ps : Forall (λ p, in_subgroup p.1) ps → in_subgroup (FromJacobian (msum ps)).
Proof.
  induction 1 as [|p ps Hp _ IH]; cbn [msum foldr]; [apply subgroup_infinity|].
  apply subgroup_add; [by apply subgroup_scale|done].
Qed.
End sums.

(** ** Serialization *)

Section codec.
Context `{CurveGroupLaws}.

Lemma read_items_concat {A B} (read : list Z → result go_error A) (write : B → list Z) (f : B → A)
    size (xs : list B) :
  (∀ x, x ∈ xs → read (write x) = Ok (f x)) → (∀ x, length (write x) = size) →
  read_items read size (length xs) (concat (write <$> xs)) = Ok (f <$> xs).
Proof.
  intros Hr Hs. induction xs as [|x xs IH]; [done|]. cbn [length read_items fmap list_fmap concat].
  rewrite <- (Hs x) at 1. rewrite take_app_length, Hr by (by left). cbn [mbind result_bind].
  rewrite <- (Hs x), drop_app_length, (Hs x). fold (write <$> xs). rewrite IH; [done|].
  intros y Hy. apply Hr. by right.
Qed.

Lemma length_concat_const {A} (write : A → list Z) size xs :
  (∀ x, length (write x) = size) → length (concat (write <$> xs)) = (length xs * size)%nat.
Proof.
  intros Hs. induction xs as [|x xs IH]; [done|]. cbn [fmap list_fmap concat length].
  fold (write <$> xs). rewrite length_app, Hs, IH. lia.
Qed.

Lemma unmarshal_marshal_points decode ps : (∀ p, p ∈ ps → decode (RawBytes p) = Some p) →
  unmarshal_points decode (marshal_points ps) = Ok ps.
Proof.
  intros Hd. unfold unmarshal_points, marshal_points. pose proof point_size_pos.
  rewrite (length_concat_const _ point_size) by apply RawBytes_length.
  rewrite Nat.Div0.mod_mul, Nat.div_mul by lia. cbn [negb Nat.eqb].
  rewrite (read_items_concat _ RawBytes id); [by rewrite list_fmap_id| |apply RawBytes_length].
  intros p Hp. unfold read_point. by rewrite Hd.
Qed.

Lemma unmarshal_marshal_scalars ss : ∃ nonzero,
  unmarshalScalarsWithStats (marshalScalars ss) = Ok (ss, nonzero).
Proof.
  unfold unmarshalScalarsWithStats, marshalScalars.
  rewrite (length_concat_const _ scalarSize) by apply scalar_Bytes_length.
  unfold scalarSize. rewrite Nat.Div0.mod_mul, Nat.div_mul by lia. cbn [negb Nat.eqb].
  rewrite (read_items_concat _ scalar_Bytes id); last (apply scalar_Bytes_length).
  - rewrite list_fmap_id. by eexists.
  - intros s _. by rewrite scalar_SetBytes_Bytes.
Qed.

Lemma unmarshal_marshal_jac j : in_subgroup (FromJacobian j) →
  ∃ k, unmarshal_jac (marshal_jac j) = Ok k ∧ k ≡ j.
Proof.
  intros Hj. unfold unmarshal_jac, marshal_jac, read_point. rewrite SetBytes_RawBytes by done.
  eexists. split; [reflexivity|]. apply FromAffine_FromJacobian.
Qed.
End codec.

(** ** The engines *)

Section engines.
Context `{CurveGroupLaws}.

(** [done] after each range, and [n] in all. *)
Fixpoint reports_of (n done : Z) (rs : list range) : list progress :=
  match rs with
  | [] => []
  | r :: rs => (done + (r.2 - r.1), n) :: reports_of n (done + (r.2 - r.1)) rs
  end.

Lemma ranged_loop_ok name reporting n fetch ps ss rs sum done reports :
  length ps = length ss → n = Z.of_nat (length ps) →
  (∀ r, r ∈ rs → 0 <= r.1 <= r.2 ∧ r.2 <= n) →
  (∀ r, r ∈ rs → fetch r.1 r.2 = Ok (slice r ps)) →
  ∃ parts, ranged_loop name reporting n fetch ss rs sum done reports =
      (Ok (foldl AddAssign sum parts), reports ++ if reporting then reports_of n done rs else []) ∧
    Forall2 (λ r j, j ≡ msum (zip (slice r ps) (slice r ss))) rs parts.
Proof.
  intros Hl Hn. revert sum done reports.
  induction rs as [|r rs IH]; intros sum done reports Hr Hf; cbn [ranged_loop reports_of].
  { exists []. split; [|done]. by destruct reporting; rewrite ?app_nil_r. }
  assert (0 <= r.1 <= r.2 ∧ r.2 <= n) as [Hr1 Hr2] by (apply Hr; by left).
  rewrite Hf by (by left). rewrite (slice_length r ps) by lia. rewrite Z.eqb_refl. cbn [negb].
  destruct (MultiExp_ok (slice r ps) (slice r ss)) as (j & -> & Hj).
  { apply Nat2Z.inj. rewrite !slice_length by lia. done. }
  destruct (IH (AddAssign sum j) (done + (r.2 - r.1))
    (reports ++ if reporting then [(done + (r.2 - r.1), n)] else [])) as (parts & -> & Hp).
  - intros q Hq. apply Hr. by right.
  - intros q Hq. apply Hf. by right.
  - exists (j :: parts). split; [|by constructor]. cbn [foldl]. f_equal.
    rewrite <- app_assoc. by destruct reporting.
Qed.

(** A fetch that fails, or returns too few or too many points, ends the loop. *)
Lemma ranged_loop_fails name reporting n fetch ss rs r sum done reports : r ∈ rs →
  (∀ pts, fetch r.1 r.2 = Ok pts → Z.of_nat (length pts) ≠ r.2 - r.1) →
  is_ok (ranged_loop name reporting n fetch ss rs sum done reports).1 = false.
Proof.
  intros Hr Hf. revert sum done reports.
  induction rs as [|q rs IH]; intros sum done reports; [by apply elem_of_nil in Hr|].
  cbn [ranged_loop]. destruct (fetch q.1 q.2) as [pts|] eqn:Eq; [|done].
  destruct (negb _) eqn:En; [done|]. destruct (MultiExp pts (slice q ss)); [|done].
  apply elem_of_cons in Hr as [->|Hr]; [|by apply IH].
  apply negb_false_iff, Z.eqb_eq in En. by apply Hf in Eq.
Qed.

(** The progress reports end at the total and never go back. *)
Lemma reports_of_last n lo hi rs : tiles lo hi rs → rs ≠ [] → last (reports_of n lo rs) = Some (hi, n).
Proof.
  revert lo. induction rs as [|[a b] rs IH]; intros lo; [done|]. intros (-> & Hb & Ht) _.
  cbn [reports_of fst snd]. replace (lo + (b - lo)) with b by lia. destruct rs as [|q rs].
  - by cbn in Ht |- *; subst.
  - rewrite last_cons. by rewrite (IH b Ht).
Qed.

Lemma marshal_jac_proper j k : j ≡ k → marshal_jac j = marshal_jac k.
Proof. intros Hj. unfold marshal_jac. by rewrite (FromJacobian_proper _ _ Hj). Qed.

(** The two results of a split and of an unsplit computation, as bytes. *)
Definition same_bytes (r : result go_error Jac) (s : result go_error Jac) : Prop :=
  ∃ j k, r = Ok j ∧ s = Ok k ∧ marshal_jac j = marshal_jac k.

Lemma msm_ranged_ok name reporting n fetch (ps : list Affine) (ss : list Scalar) :
  n = Z.of_nat (length ps) → length ss = length ps →
  (∀ r, 0 <= r.1 <= r.2 ∧ r.2 <= n → fetch r.1 r.2 = Ok (slice r ps)) →
  same_bytes (msm_ranged name reporting n fetch ss).1 (msm reporting ps ss).1 ∧
  (reporting = true → last (msm_ranged name reporting n fetch ss).2 = Some (n, n)).
Proof.
  intros Hn Hl Hf. pose proof (nonEmptyRanges_tiles n cpuRangeChunks ltac:(lia)) as Ht.
  unfold msm_ranged. set (rs := nonEmptyRanges _) in *. rewrite (proj2 (Z.eqb_eq _ n)) by lia. cbn [negb].
  destruct (ranged_loop_ok name reporting n fetch ps ss rs jac_infinity 0 []) as (parts & -> & Hp);
    [done..| |intros; apply Hf|]; [by intros r Hr; apply (tiles_inside _ _ _ _ Ht)|
      by apply (tiles_inside _ _ _ _ Ht)|].
  destruct (MultiExp_ok ps ss) as (j & Hj & Hs); [done|]. split.
  - exists (combine parts), j. unfold msm. rewrite Hj. split_and!; [done..|].
    apply marshal_jac_proper. rewrite Hs. apply (combine_parts ps ss rs); [done|by rewrite <- Hn|done].
  - intros ->. cbn [app snd andb]. case_bool_decide as Hrs; [|by apply reports_of_last].
    rewrite Hrs in Ht |- *. cbn in Ht |- *. by rewrite <- Ht.
Qed.

(** Fetching the points of a section range by range changes nothing.  For [n] scalars
    and a [fetch] that returns the points of each range it is asked for,
    [MSMG1Ranged]/[MSMG2Ranged] return, bit for bit, the result of [MSMG1]/[MSMG2] on the
    whole vector, and their last progress report is the total.  When the number of scalars
    is wrong, or when some range it needs cannot be fetched whole, they fail. *)
Theorem MSMRanged_exact name reporting n fetch (ps : list Affine) (ss : list Scalar) :
  n = Z.of_nat (length ps) →
  (length ss = length ps → (∀ r, 0 <= r.1 <= r.2 ∧ r.2 <= n → fetch r.1 r.2 = Ok (slice r ps)) →
    same_bytes (msm_ranged name reporting n fetch ss).1 (msm reporting ps ss).1 ∧
    (reporting = true → last (msm_ranged name reporting n fetch ss).2 = Some (n, n))) ∧
  (length ss ≠ length ps → is_ok (msm_ranged name reporting n fetch ss).1 = false) ∧
  (∀ r, r ∈ nonEmptyRanges (partitionRanges n cpuRangeChunks) →
     (∀ pts, fetch r.1 r.2 = Ok pts → Z.of_nat (length pts) ≠ r.2 - r.1) →
     is_ok (msm_ranged name reporting n fetch ss).1 = false).
Proof.
  intros Hn. split; [by apply msm_ranged_ok|]. unfold msm_ranged. split.
  - intros Hl. by rewrite (proj2 (Z.eqb_neq _ n)) by lia.
  - intros r Hr Hf. destruct (negb _); [done|].
    pose proof (ranged_loop_fails name reporting n fetch ss _ r jac_infinity 0 [] Hr Hf) as Hfail.
    by destruct (ranged_loop _ _ _ _ _ _ _ _ _) as [[] ?].
Qed.

(** One shard of a sharded multi-exponentiation: the range of points and scalars is
    serialized for a worker, and the worker's reply is read back. *)
Definition run_shard (pinnedDecode : bool) (points : list Affine) (scalars : list Scalar) (r : range) :
    result go_error Jac :=
  '(reply, _) ← shard_bytes pinnedDecode (marshal_points (slice r points)) (marshalScalars (slice r scalars));
  unmarshal_jac reply.

Lemma run_shard_ok pinned ps ss r : Forall in_subgroup ps → length ps = length ss →
  0 <= r.1 <= r.2 → r.2 <= Z.of_nat (length ps) →
  ∃ j, run_shard pinned ps ss r = Ok j ∧ j ≡ msum (zip (slice r ps) (slice r ss)).
Proof.
  intros Hg Hl Hr1 Hr2. unfold run_shard, shard_bytes.
  assert (Forall in_subgroup (slice r ps)) as Hs by (by apply Forall_take, Forall_drop).
  assert (length (slice r ps) = length (slice r ss)) as Hls.
  { apply Nat2Z.inj. by rewrite !slice_length by lia. }
  rewrite unmarshal_marshal_points; last first.
  { intros p Hp. destruct pinned; [apply decode_on_curve_RawBytes|].
    apply SetBytes_RawBytes. by apply (proj1 (Forall_forall _ _) Hs). }
  destruct (unmarshal_marshal_scalars (slice r ss)) as (nonzero & ->). cbn [mbind result_bind].
  rewrite Hls, Nat.eqb_refl. unfold check, guard_err. cbn [negb mbind result_bind].
  assert (∃ j, (if (0 <? length (slice r ss))%nat then MultiExp (slice r ps) (slice r ss)
      else Ok jac_infinity) = Ok j ∧ j ≡ msum (zip (slice r ps) (slice r ss))) as (j & -> & Hj).
  { destruct (Nat.ltb_spec 0 (length (slice r ss))); [by apply MultiExp_ok|].
    exists jac_infinity. split; [done|]. by rewrite (nil_length_inv (slice r ss)), zip_with_nil_r by lia. }
  cbn [mbind result_bind]. destruct (unmarshal_marshal_jac j) as (k & -> & Hk).
  - rewrite (FromJacobian_proper _ _ Hj). apply subgroup_msum.
    apply Forall_forall. intros [p s] Hp%elem_of_zip_l. by apply (proj1 (Forall_forall _ _) Hs).
  - exists k. split; [done|]. by rewrite Hk.
Qed.

(** Sharding over workers changes nothing either.  For points of the subgroup and any
    number of workers, each shard of [partitionRanges], serialized, computed by the
    worker's kernel (with or without the pinned decoding) and read back, succeeds, and
    [combineG1]/[combineG2] of the replies has the bytes of the unsplit result. *)
Theorem shards_exact pinned workers (ps : list Affine) (ss : list Scalar) :
  Forall in_subgroup ps → length ps = length ss →
  ∃ parts, mapM (run_shard pinned ps ss)
      (nonEmptyRanges (partitionRanges (Z.of_nat (length ps)) workers)) = Ok parts ∧
    same_bytes (Ok (combine parts)) (MultiExp ps ss).
Proof.
  intros Hg Hl. set (n := Z.of_nat (length ps)).
  pose proof (nonEmptyRanges_tiles n workers ltac:(lia)) as Ht. set (rs := nonEmptyRanges _) in *.
  assert (∃ parts, mapM (run_shard pinned ps ss) rs = Ok parts ∧
    Forall2 (λ r j, j ≡ msum (zip (slice r ps) (slice r ss))) rs parts) as (parts & Hm & Hp).
  { assert (∀ r, r ∈ rs → ∃ j, run_shard pinned ps ss r = Ok j ∧ j ≡ msum (zip (slice r ps) (slice r ss)))
      as Hr. { intros r Hr. apply (tiles_inside _ _ _ _ Ht) in Hr as [? ?]. by apply run_shard_ok. }
    clear Ht. induction rs as [|r rs' IH]; [by exists []|].
    destruct (Hr r) as (j & Hj & Hjs); [by left|]. destruct IH as (parts & Hps & Hpp).
    { intros q Hq. apply Hr. by right. }
    exists (j :: parts). cbn [mapM]. rewrite Hj. cbn [mbind result_bind]. rewrite Hps. split; [done|].
    by constructor. }
  exists parts. split; [done|]. destruct (MultiExp_ok ps ss) as (j & Hj & Hs); [done|].
  exists (combine parts), j. split_and!; [done..|]. apply marshal_jac_proper. rewrite Hs.
  by apply (combine_parts ps ss rs).
Qed.
End engines.
