(* ===== verification/MsmSchedule.v ===== *)
(** * Scheduling of sharded multi-exponentiations: [internal/msmengine]

    [shard_affinity.go] (which worker runs which shard), [async_contract.go] (waiting for a
    worker, retries, the bounded queue, and the single-use handle of an asynchronous
    result), and of [engine.go] and [selector.go] the classification of failures and the
    fallback to the CPU engine; with what they guarantee. *)
From stdpp Require Import strings.
From S2P Require Import Prelude.
From S2P Require Import GoText.
From S2P Require Import GoError.
From S2P Require Import Ranges.

(** ** [shard_affinity.go] *)

Record contiguousShardAffinity := { byWorker : list (list Z); workerByShard : list Z }.

(** [for i := range block], writing the worker of each shard. *)
Definition assign_block (workerSlot : Z) (block : list Z) (table : list Z) : list Z :=
  foldl (λ table shard, <[Z.to_nat shard := workerSlot]> table) table block.

(** [for workerSlot := 0; workerSlot < activeWorkers; workerSlot++] *)
Fixpoint affinity_loop (base extra : Z) (count : nat) (workerSlot nextShard : Z)
    (a : contiguousShardAffinity) : contiguousShardAffinity :=
  match count with
  | O => a
  | S count =>
      let blockSize := if workerSlot <? extra then base + 1 else base in
      let block := (λ i, nextShard + Z.of_nat i) <$> seq 0 (Z.to_nat blockSize) in
      affinity_loop base extra count (workerSlot + 1) (nextShard + blockSize)
        {| byWorker := <[Z.to_nat workerSlot := block]> (byWorker a);
           workerByShard := assign_block workerSlot block (workerByShard a) |}
  end.

Definition newContiguousShardAffinity (shardCount workerCount : Z) : contiguousShardAffinity :=
  if (shardCount <=? 0) || (workerCount <=? 0) then {| byWorker := []; workerByShard := [] |} else
  let activeWorkers := Z.min shardCount workerCount in
  affinity_loop (shardCount / activeWorkers) (shardCount mod activeWorkers) (Z.to_nat activeWorkers) 0 0
    {| byWorker := replicate (Z.to_nat workerCount) []; workerByShard := replicate (Z.to_nat shardCount) 0 |}.

(** A shard out of range panics. *)
Definition workerForShard (a : contiguousShardAffinity) (shard : Z) : option Z :=
  if shard <? 0 then None else workerByShard a !! Z.to_nat shard.

(** ** [async_contract.go]: waiting

    Durations are nanoseconds. *)

Definition minDuration (a b : Z) : Z := if a <? b then a else b.

Inductive wait_error :=
| ErrBadTimeout                       (* "async worker ... timeout must be positive" *)
| ErrAsyncWaitCancelled               (* errAsyncWaitCancelled *)
| ErrAbsoluteDeadline                 (* "worker reply exceeded absolute deadline %s" *)
| ErrNoProgress.                      (* "worker reply made no observed progress ..." *)

(** A [time.Timer]: when its channel delivers, and nothing once it has delivered. *)
Definition timer : Type := option Z.
Definition NewTimer (now d : Z) : timer := Some (now + d).
Definition timer_Reset (t : timer) (now d : Z) : timer := Some (now + d).

(** The loop at its [select], since [now], with the progress it saw last; or the call
    returned.  Times are since [started]. *)
Inductive wait_state (T : Type) :=
| Waiting (now lastProgress : Z) (t : timer)
| Returned (now : Z) (outcome : result wait_error T).
Arguments Waiting {_} _ _ _.
Arguments Returned {_} _ _.

(** Up to the loop. *)
Definition waitForAsyncResultWithProgress {T} (inactivityTimeout absoluteTimeout : Z) : wait_state T :=
  if inactivityTimeout <=? 0 then Returned 0 (Err ErrBadTimeout) else
  if absoluteTimeout <=? 0 then Returned 0 (Err ErrBadTimeout) else
  Waiting 0 0 (NewTimer 0 (minDuration inactivityTimeout absoluteTimeout)).

Definition waitForAsyncResult {T} (timeout : Z) : wait_state T := waitForAsyncResultWithProgress timeout timeout.

(** [case <-timer.C]: [elapsed] is [time.Since(started)], and [progress] what the function
    of that name would return at each time, if there is one. *)
Definition on_timer {T} (inactivityTimeout absoluteTimeout : Z) (progress : option (Z → Z))
    (elapsed lastProgress : Z) : wait_state T :=
  if absoluteTimeout <=? elapsed then Returned elapsed (Err ErrAbsoluteDeadline) else
  let currentProgress := match progress with Some f => f elapsed | None => lastProgress end in
  if currentProgress <=? lastProgress then Returned elapsed (Err ErrNoProgress) else
  let remaining := absoluteTimeout - elapsed in
  Waiting elapsed currentProgress (timer_Reset None elapsed (minDuration inactivityTimeout remaining)).

(** The [select] of the loop.  [result_at] is when a result is sent and which, [cancel_at]
    when the cancel channel is closed, if ever; a goroutine whose timer has delivered runs
    at most [late] later.  Of several cases that are ready, any may be taken. *)
Section select.
Context {T : Type} (inactivityTimeout absoluteTimeout : Z).
Context (result_at : option (Z * T)) (cancel_at : option Z) (progress : option (Z → Z)) (late : Z).

Definition wakes (now : Z) (t : timer) (at_ : Z) : Prop :=
  now <= at_ ∧ ∀ fires, t = Some fires → at_ <= Z.max now fires + late.

Inductive select_step : wait_state T → wait_state T → Prop :=
| select_result now lastProgress t sent r at_ : result_at = Some (sent, r) → sent <= at_ → wakes now t at_ →
    select_step (Waiting now lastProgress t) (Returned at_ (Ok r))
| select_cancel now lastProgress t closed at_ : cancel_at = Some closed → closed <= at_ → wakes now t at_ →
    select_step (Waiting now lastProgress t) (Returned at_ (Err ErrAsyncWaitCancelled))
| select_timer now lastProgress fires at_ : fires <= at_ → wakes now (Some fires) at_ →
    select_step (Waiting now lastProgress (Some fires))
      (on_timer inactivityTimeout absoluteTimeout progress at_ lastProgress).
End select.

(** The timeouts the workers are waited for with. *)
Definition asyncWorkerInactivityTimeout : Z := 5 * 60 * 10 ^ 9.
Definition asyncWorkerAbsoluteTimeout : Z := 20 * 60 * 10 ^ 9.

(** ** [async_contract.go]: retries and the queue *)

Definition millisecond : Z := 10 ^ 6.
Definition second : Z := 10 ^ 9.

Definition asyncRetryBackoff (attempt workerSlot : Z) : Z :=
  let attempt := if attempt <? 2 then 2 else attempt in
  let shift := attempt - 2 in
  let shift := if 3 <? shift then 3 else shift in
  let base := 250 * millisecond * Z.shiftl 1 shift in
  let jitter := Z.rem (i64 (workerSlot * 37 + attempt * 17)) 101 * millisecond in
  base + jitter.

Definition asyncQueueShardMultiplier : Z := 16.
Definition asyncQueueCapacity (shards : Z) : Z :=
  let shards := if shards <? 1 then 1 else shards in
  i64 (shards * asyncQueueShardMultiplier).

Definition asyncQueueHasCapacity (queued inFlight incoming shards : Z) : bool :=
  (0 <=? queued) && (0 <=? inFlight) && (0 <=? incoming) &&
  (i64 (i64 (queued + inFlight) + incoming) <=? asyncQueueCapacity shards).

(** ** [async_contract.go]: the single-use handle

    [complete] runs under the mutex in one step.  [collect] takes the mutex, marks the
    handle, waits for the channel without the mutex, and takes it again: a call is
    [CollectEnter] and, unless it was refused, [CollectLeave] once [done] is closed. *)

Section handle.
Context {E : Type}.

Record collectionState := { done_closed : bool; err : option E; completed : bool; collected : bool }.
Definition newCollectionState : collectionState :=
  {| done_closed := false; err := None; completed := false; collected := false |}.

Definition complete (s : collectionState) (e : option E) : collectionState :=
  if completed s then s else
  {| done_closed := true; err := e; completed := true; collected := collected s |}.

(** The refusal, or the mark. *)
Definition collect_enter (s : collectionState) : option collectionState :=
  if collected s then None else
  Some {| done_closed := done_closed s; err := err s; completed := completed s; collected := true |}.

Definition collect_leave (s : collectionState) : option (option E) :=
  if done_closed s then Some (err s) else None.

(** Calls of any number of goroutines, interleaved.  [waiting] are the calls between the
    two halves of [collect]; a label says what a call returned. *)
Inductive handle_label :=
| Completed (call : nat) (e : option E)
| CollectEntered (call : nat)
| CollectRefused (call : nat)              (* "async-msm-double-collect" *)
| CollectReturned (call : nat) (e : option E).

Inductive handle_step : collectionState * list nat → handle_label → collectionState * list nat → Prop :=
| step_complete s w call e : handle_step (s, w) (Completed call e) (complete s e, w)
| step_enter s w call s' : collect_enter s = Some s' →
    handle_step (s, w) (CollectEntered call) (s', call :: w)
| step_refuse s w call : collect_enter s = None → handle_step (s, w) (CollectRefused call) (s, w)
| step_leave s w1 call w2 e : collect_leave s = Some e →
    handle_step (s, w1 ++ call :: w2) (CollectReturned call e) (s, w1 ++ w2).

Inductive handle_trace : collectionState * list nat → list handle_label → Prop :=
| trace_new : handle_trace (newCollectionState, []) []
| trace_step c l c' tr : handle_trace c tr → handle_step c l c' → handle_trace c' (tr ++ [l]).
End handle.
Arguments collectionState : clear implicits.
Arguments handle_label : clear implicits.

(** ** [engine.go]: failures *)

(** The errors of the engines; [EJoin] is [errors.Join] of two. *)
Inductive engine_error :=
| EPlain (message : string)
| EWrap (label : string) (e : engine_error)
| EFailClosed (class : string) (e : engine_error)
| EWorker (code : string) (retryable replace : bool) (retryAfter : Z) (e : engine_error)
| EJoin (e1 e2 : engine_error).

(** [errors.As] for [*FailClosedError]. *)
Fixpoint as_fail_closed (e : engine_error) : bool :=
  match e with
  | EPlain _ => false
  | EFailClosed _ _ => true
  | EWrap _ e | EWorker _ _ _ _ e => as_fail_closed e
  | EJoin e1 e2 => as_fail_closed e1 || as_fail_closed e2
  end.

(** [errors.As] for [*sectionWorkerFailure]: the first in a depth-first search. *)
Fixpoint as_worker_failure (e : engine_error) : option (bool * bool * Z) :=
  match e with
  | EPlain _ => None
  | EWorker _ retryable replace retryAfter _ => Some (retryable, replace, retryAfter)
  | EWrap _ e | EFailClosed _ e => as_worker_failure e
  | EJoin e1 e2 => match as_worker_failure e1 with Some f => Some f | None => as_worker_failure e2 end
  end.

Definition sectionWorkerRetry (e : engine_error) : bool * bool * Z :=
  default (false, false, 0) (as_worker_failure e).

(** The class of a failure, whether it may be retried, whether the worker is replaced, and
    the delay it may ask for. *)
Definition worker_failure_policy (code : string) (advertisedRetryable : bool) (retryAfter : Z) :
    string * bool * bool * Z :=
  if decide (code = "chunk-integrity") then ("chunk-digest-mismatch", false, false, retryAfter)
  else if decide (code = "chunk-fetch-network" ∨ code = "chunk-fetch-http") then
    ("range-fetch-aborted", advertisedRetryable, false, retryAfter)
  else if decide (code = "worker-terminated" ∨ code = "worker-initialization") then
    ("worker-terminated", advertisedRetryable, true, retryAfter)
  else ("sharded-worker-error", false, false, 0).

Definition classifyTypedSectionWorkerError (code : string) (advertisedRetryable : bool) (retryAfter : Z)
    (e : option engine_error) : option engine_error :=
  match e with
  | None => None
  | Some e =>
      let '(class, retryable, replace, retryAfter) :=
        worker_failure_policy code advertisedRetryable retryAfter in
      let retryAfter := if (retryAfter <? 0) || (30 * second <? retryAfter) then 0 else retryAfter in
      Some (EFailClosed class (EWorker code retryable replace retryAfter e))
  end.

Definition workerReplyIntegrityError : engine_error :=
  EFailClosed "worker-reply-integrity"
    (EPlain "shardedMSM: worker reply id %d != requested %d (stale or crossed reply)").

Definition workerPartialIntegrityError (e : option engine_error) : option engine_error :=
  EFailClosed "worker-partial-invalid" <$> e.

(** [timings["w7_applied"]] when it is present and a number. *)
Definition validateW7WorkerAcknowledgement (requested : bool) (w7_applied : option Z) : option engine_error :=
  if negb requested then None else
  if decide (w7_applied = Some 1) then None else
  Some (EFailClosed "w7-worker-capability"
    (EPlain "shardedMSM: opt_w7 requested but Worker did not acknowledge w7_applied=1")).

(** ** [selector.go] *)

Record Probe := { WebGPU : bool; SharedMem : bool; Workers : Z }.
Record Options := {
  ForceCPU : bool; WorkerCount : Z; ShardCount : Z; RangeFetchConcurrency : Z; OptW7 : bool }.

Inductive engine :=
| CpuMSM
| ShardedMSM (workers shards rangeFetchConcurrency : Z) (optW7 : bool).

Definition makeShardedEngineWithOptions (workers : Z) (opts : Options) : engine :=
  let shards := if ShardCount opts <=? 0 then workers else ShardCount opts in
  let concurrency := if RangeFetchConcurrency opts <=? 0 then 1 else RangeFetchConcurrency opts in
  ShardedMSM workers shards concurrency (OptW7 opts).

Definition SelectWithOptions (p : Probe) (opts : Options) : engine :=
  if ForceCPU opts then CpuMSM else
  let workers := if 0 <? WorkerCount opts then WorkerCount opts else Workers p in
  if SharedMem p && (1 <? workers) then makeShardedEngineWithOptions workers opts else CpuMSM.

(** [run] and [beforeRetry] act on a state [W]. *)
Definition WithFallbackReload {W} (primary : engine)
    (beforeRetry : option (W → option engine_error * W)) (run : engine → W → option engine_error * W)
    (w : W) : option engine_error * W :=
  match run primary w with
  | (None, w) => (None, w)
  | (Some primaryErr, w) =>
      if as_fail_closed primaryErr then (Some primaryErr, w) else
      let '(reloadErr, w) := match beforeRetry with Some f => f w | None => (None, w) end in
      match reloadErr with
      | Some e => (Some (EJoin (EWrap "primary %s prove" primaryErr) (EWrap "prepare cpu retry" e)), w)
      | None =>
          match run CpuMSM w with
          | (None, w) => (None, w)
          | (Some e, w) => (Some (EJoin (EWrap "primary %s prove" primaryErr) (EWrap "cpu retry prove" e)), w)
          end
      end
  end.

Definition WithFallback {W} (primary : engine) (run : engine → W → option engine_error * W) (w : W) :
    option engine_error * W := WithFallbackReload primary None run w.

(** * Schedules cover every shard once, and waits and handles end once

    The affinity of shards to workers, the wait for a worker's reply, the single-use
    handle under any interleaving, and the failures that may never be retried. *)

(** ** Affinity *)

Definition zrange (lo : Z) (m : nat) : list Z := (λ i, lo + Z.of_nat i) <$> seq 0 m.

Lemma zrange_app lo m k : zrange lo (m + k) = zrange lo m ++ zrange (lo + Z.of_nat m) k.
Proof.
  unfold zrange. rewrite seq_app, fmap_app. f_equal. rewrite Nat.add_0_l.
  replace (seq m k) with (Nat.add m <$> seq 0 k) by (rewrite fmap_add_seq; f_equal; lia).
  rewrite <- list_fmap_compose. apply list_fmap_ext. intros ? i _. cbn. lia.
Qed.

Lemma length_zrange lo m : length (zrange lo m) = m.
Proof. unfold zrange. by rewrite length_fmap, length_seq. Qed.

Lemma zrange_S lo m : zrange lo (S m) = lo :: zrange (lo + 1) m.
Proof.
  change (S m) with (1 + m)%nat. rewrite zrange_app. unfold zrange at 1. cbn. by rewrite Z.add_0_r.
Qed.

Lemma elem_of_zrange lo m x : x ∈ zrange lo m ↔ lo <= x < lo + Z.of_nat m.
Proof.
  unfold zrange. rewrite list_elem_of_fmap. setoid_rewrite elem_of_seq. split.
  - intros (i & -> & ?). lia.
  - intros ?. exists (Z.to_nat (x - lo)). lia.
Qed.

(** Writing a block of the table. *)
Lemma assign_block_spec w lo m (pre rest : list Z) : lo = Z.of_nat (length pre) → (m <= length rest)%nat →
  assign_block w (zrange lo m) (pre ++ rest) = pre ++ replicate m w ++ drop m rest.
Proof.
  unfold assign_block. revert lo pre rest.
  induction m as [|m IH]; intros lo pre rest Hlo Hm; [done|]. rewrite zrange_S. cbn [foldl].
  destruct rest as [|x rest]; [cbn in Hm; lia|].
  rewrite Hlo, Nat2Z.id, insert_app_r_alt by lia. rewrite Nat.sub_diag. cbn [insert list_insert].
  rewrite cons_middle, app_assoc, (IH _ (pre ++ [w]) rest).
  - cbn [replicate drop]. by rewrite <- app_assoc.
  - rewrite length_app. cbn. lia.
  - cbn in Hm. lia.
Qed.

Section blocks.
Context (base extra : Z) (Hbase : 0 <= base) (Hextra : 0 <= extra).

Definition block_size (w : nat) : nat := Z.to_nat (if Z.of_nat w <? extra then base + 1 else base).
(** The first shard of block [w]. *)
Fixpoint block_start (w : nat) : Z :=
  match w with O => 0 | S w => block_start w + Z.of_nat (block_size w) end.
Definition block (w : nat) : list Z := zrange (block_start w) (block_size w).
Definition owners (k : nat) : list Z := concat ((λ w, replicate (block_size w) (Z.of_nat w)) <$> seq 0 k).

Lemma blocks_S {A} (f : nat → list A) k : concat (f <$> seq 0 (S k)) = concat (f <$> seq 0 k) ++ f k.
Proof. rewrite seq_S, fmap_app, concat_app. cbn. by rewrite app_nil_r. Qed.

Lemma block_start_nonneg w : 0 <= block_start w.
Proof. induction w as [|w IH]; cbn; lia. Qed.

Lemma length_owners k : Z.of_nat (length (owners k)) = block_start k.
Proof.
  unfold owners. induction k as [|k IH]; [done|]. rewrite blocks_S, length_app, length_replicate. cbn. lia.
Qed.

Lemma concat_blocks k : concat (block <$> seq 0 k) = zrange 0 (Z.to_nat (block_start k)).
Proof.
  induction k as [|k IH]; [done|]. rewrite blocks_S, IH. cbn [block_start].
  pose proof (block_start_nonneg k). rewrite Z2Nat.inj_add, Nat2Z.id, zrange_app by lia.
  rewrite Z2Nat.id by done. done.
Qed.

Lemma block_start_closed k : block_start k = Z.of_nat k * base + Z.min (Z.of_nat k) extra.
Proof.
  induction k as [|k IH]; [cbn; lia|]. cbn [block_start]. rewrite IH. unfold block_size.
  destruct (Z.ltb_spec (Z.of_nat k) extra); rewrite Z2Nat.id by lia; lia.
Qed.

Lemma block_start_mono j k : (j <= k)%nat → block_start j <= block_start k.
Proof. induction 1 as [|k _ IH]; cbn [block_start]; lia. Qed.

(** The table names the block of a shard. *)
Lemma owners_lookup w k shard : (w < k)%nat → shard ∈ block w →
  owners k !! Z.to_nat shard = Some (Z.of_nat w).
Proof.
  intros Hw Hs. apply elem_of_zrange in Hs. pose proof (block_start_nonneg w).
  induction k as [|k IH]; [lia|]. unfold owners. rewrite blocks_S. fold (owners k).
  pose proof (length_owners k) as Hl. destruct (decide (w = k)) as [->|].
  - rewrite lookup_app_r by lia. apply lookup_replicate. split; [done|lia].
  - apply lookup_app_l_Some, IH. lia.
Qed.

(** The loop after its first [k] workers. *)
Definition affinity_after (k idle slots : nat) : contiguousShardAffinity :=
  {| byWorker := (block <$> seq 0 k) ++ replicate idle [];
     workerByShard := owners k ++ replicate slots 0 |}.

Lemma affinity_loop_spec count k idle slots :
  (count <= idle)%nat → block_start k + Z.of_nat slots = block_start (k + count) →
  affinity_loop base extra count (Z.of_nat k) (block_start k) (affinity_after k idle slots) =
  affinity_after (k + count) (idle - count) 0.
Proof.
  revert k idle slots. induction count as [|count IH]; intros k idle slots Hi Hs; cbn [affinity_loop].
  { rewrite Nat.add_0_r, Nat.sub_0_r in *. by replace slots with 0%nat by lia. }
  pose proof (block_start_mono (S k) (k + S count) ltac:(lia)) as Hm. cbn [block_start] in Hm.
  destruct idle as [|idle]; [lia|].
  rewrite <- Nat.add_succ_comm. cbn [Nat.sub]. rewrite <- (IH (S k) idle (slots - block_size k)%nat).
  - cbn [block_start]. f_equal; [lia| |].
    + unfold block_size. destruct (_ <? _); rewrite Z2Nat.id; lia.
    + unfold affinity_after. cbn [byWorker workerByShard].
      change ((λ i, block_start k + Z.of_nat i) <$> seq 0 (Z.to_nat (if Z.of_nat k <? extra then base + 1 else base)))
        with (block k). f_equal.
      * rewrite Nat2Z.id, insert_app_r_alt by (rewrite length_fmap, length_seq; done).
        rewrite length_fmap, length_seq, Nat.sub_diag. cbn [replicate insert list_insert].
        rewrite seq_S, fmap_app, <- app_assoc. done.
      * unfold block. rewrite assign_block_spec; [|by rewrite length_owners|rewrite length_replicate; lia].
        unfold owners. rewrite blocks_S, drop_replicate, <- app_assoc. done.
  - lia.
  - replace (S k + count)%nat with (k + S count)%nat by lia.
    rewrite <- Hs, Nat2Z.inj_sub by lia. cbn [block_start]. lia.
Qed.
End blocks.

(** The result, in closed form. *)
Lemma affinity_closed shardCount workerCount : 0 < shardCount → 0 < workerCount →
  let active := Z.min shardCount workerCount in
  let base := shardCount / active in
  let extra := shardCount mod active in
  newContiguousShardAffinity shardCount workerCount =
    affinity_after base extra (Z.to_nat active) (Z.to_nat workerCount - Z.to_nat active) 0 ∧
  block_start base extra (Z.to_nat active) = shardCount ∧ 0 < base ∧ 0 <= extra < active.
Proof.
  intros Hs Hw active base extra. assert (0 < active <= shardCount) as Ha by lia.
  assert (0 < base) as Hb by (apply Z.div_str_pos; lia).
  assert (0 <= extra < active) as He by (apply Z.mod_pos_bound; lia).
  assert (block_start base extra (Z.to_nat active) = shardCount) as Hst.
  { rewrite block_start_closed, Z2Nat.id, Z.min_r by lia. unfold base, extra.
    pose proof (Z.div_mod shardCount active ltac:(lia)). lia. }
  split_and!; [|done..|lia|lia]. unfold newContiguousShardAffinity.
  rewrite (proj2 (Z.leb_gt _ _) Hs), (proj2 (Z.leb_gt _ _) Hw). cbn [orb].
  fold active base extra.
  pose proof (affinity_loop_spec base extra ltac:(lia) (Z.to_nat active) 0
    (Z.to_nat workerCount) (Z.to_nat shardCount)) as Hloop.
  cbn [block_start Nat.add Z.of_nat] in Hloop. rewrite Hst in Hloop.
  unfold affinity_after at 1, owners in Hloop. cbn [seq fmap list_fmap concat app] in Hloop.
  apply Hloop; lia.
Qed.

(** Shards are assigned once, contiguously and evenly.  For positive counts, the blocks
    of the workers, in order, are exactly the shards [0, 1, ...]; [workerForShard] names
    the worker whose block holds the shard, and fails exactly on shards out of range; the
    first [min(shards, workers)] workers get [shards / min] or one more, the others get
    none.  Otherwise there is no block at all. *)
Theorem affinity_exact shardCount workerCount :
  let a := newContiguousShardAffinity shardCount workerCount in
  (0 < shardCount → 0 < workerCount →
    let active := Z.min shardCount workerCount in
    length (byWorker a) = Z.to_nat workerCount ∧
    concat (byWorker a) = zrange 0 (Z.to_nat shardCount) ∧
    (∀ w b shard, byWorker a !! w = Some b → shard ∈ b → workerForShard a shard = Some (Z.of_nat w)) ∧
    (∀ shard, is_Some (workerForShard a shard) ↔ 0 <= shard < shardCount) ∧
    (∀ w b, byWorker a !! w = Some b →
      (Z.of_nat w < active → shardCount / active <= Z.of_nat (length b) <= shardCount / active + 1 ∧ b ≠ []) ∧
      (active <= Z.of_nat w → b = []))) ∧
  (shardCount <= 0 ∨ workerCount <= 0 → byWorker a = [] ∧ ∀ shard, workerForShard a shard = None).
Proof.
  intros a. split.
  - intros Hs Hw active. pose proof (affinity_closed shardCount workerCount Hs Hw) as Hc.
    cbv zeta in Hc. fold active in Hc. set (base := shardCount / active) in *.
    set (extra := shardCount mod active) in *. destruct Hc as (Ha & Hst & Hb & He).
    assert (0 < active <= workerCount) as Hact by lia. fold a in Ha.
    assert (0 <= base ∧ 0 <= extra) as [Hb0 He0] by lia.
    pose proof (length_owners base extra (Z.to_nat active)) as Hlo. rewrite Hst in Hlo.
    assert (∀ w b, byWorker a !! w = Some b → (Z.of_nat w < active ∧ b = block base extra w) ∨
      (active <= Z.of_nat w ∧ b = [])) as Hblk.
    { intros w b. rewrite Ha. cbn [byWorker affinity_after]. intros [Hw1|[Hw1 Hw2]]%lookup_app_Some.
      - apply list_lookup_fmap_Some in Hw1 as (w' & -> & Hw').
        apply lookup_seq in Hw' as [-> ?]. left. split; [lia|done].
      - rewrite length_fmap, length_seq in Hw1. apply lookup_replicate in Hw2 as [-> _]. right. split; [lia|done]. }
    split_and!.
    + rewrite Ha. cbn. rewrite length_app, length_fmap, length_seq, length_replicate. lia.
    + rewrite Ha. cbn [byWorker affinity_after]. rewrite concat_app, concat_blocks, Hst.
      rewrite (proj2 (concat_nil_Forall _)); [by rewrite app_nil_r|]. by apply Forall_replicate.
    + intros w b shard Hb' Hin. destruct (Hblk w b Hb') as [[Hlt ->]|[_ ->]]; [|by apply elem_of_nil in Hin].
      pose proof (owners_lookup base extra w (Z.to_nat active) shard ltac:(lia) Hin) as Hown.
      apply elem_of_zrange in Hin. pose proof (block_start_nonneg base extra w).
      unfold workerForShard. rewrite (proj2 (Z.ltb_ge shard 0)) by lia.
      rewrite Ha. cbn [workerByShard affinity_after replicate]. by rewrite app_nil_r.
    + intros shard. unfold workerForShard. rewrite Ha. cbn [workerByShard affinity_after replicate].
      rewrite app_nil_r. destruct (Z.ltb_spec shard 0).
      * split; [by intros [? ?]|lia].
      * rewrite lookup_lt_is_Some. lia.
    + intros w b Hb'. destruct (Hblk w b Hb') as [[Hlt ->]|[Hge ->]]; (split; [|lia || done]); [|lia].
      intros _. unfold block. rewrite length_zrange. unfold block_size.
      assert (base <= (if Z.of_nat w <? extra then base + 1 else base) <= base + 1) by (destruct (_ <? _); lia).
      split; [lia|]. intros Hnil. apply (f_equal length) in Hnil. rewrite length_zrange in Hnil. cbn in Hnil. lia.
  - intros Hz. unfold a, newContiguousShardAffinity.
    destruct (Z.leb_spec shardCount 0), (Z.leb_spec workerCount 0); cbn [orb]; try lia.
    all: split; [done|]; intros shard; unfold workerForShard; destruct (shard <? 0); done.
Qed.

(** ** Waiting *)

Section waits.
Context {T : Type} (inactivity absolute : Z).
Context (result_at : option (Z * T)) (cancel_at : option Z) (progress : option (Z → Z)) (late : Z).
Notation step := (select_step inactivity absolute result_at cancel_at progress late).
Notation start := (waitForAsyncResultWithProgress (T:=T) inactivity absolute).

(** Why a call that last renewed its lease at [since], having seen [seen], returns at [t]. *)
Definition return_reason (since seen t : Z) (outcome : result wait_error T) : Prop :=
  match outcome with
  | Ok r => ∃ sent, result_at = Some (sent, r) ∧ sent <= t
  | Err ErrAsyncWaitCancelled => ∃ closed, cancel_at = Some closed ∧ closed <= t
  | Err ErrAbsoluteDeadline => absolute <= t
  | Err ErrNoProgress => since + inactivity <= t < absolute ∧ ∀ f, progress = Some f → f t <= seen
  | Err ErrBadTimeout => False
  end.

Lemma minDuration_min a b : minDuration a b = Z.min a b.
Proof. unfold minDuration. destruct (Z.ltb_spec a b); lia. Qed.

Lemma wait_refuses_timeout : inactivity <= 0 ∨ absolute <= 0 → start = Returned 0 (Err ErrBadTimeout).
Proof.
  unfold waitForAsyncResultWithProgress. destruct (Z.leb_spec inactivity 0), (Z.leb_spec absolute 0); done || lia.
Qed.

Context (inactivity_pos : 0 < inactivity) (absolute_pos : 0 < absolute) (late_nonneg : 0 <= late).

(** After [n] steps the timer is armed, never past the deadline, and [n] leases ran out;
    or the call returned. *)
Definition lease_inv (n : nat) (s : wait_state T) : Prop :=
  match s with
  | Waiting now _ t => Z.of_nat n * inactivity <= now < absolute ∧
      t = Some (now + Z.min inactivity (absolute - now))
  | Returned _ _ => (Z.of_nat n - 1) * inactivity < absolute
  end.

Lemma on_timer_inv n now at_ seen : Z.of_nat n * inactivity <= now < absolute →
  now + Z.min inactivity (absolute - now) <= at_ →
  lease_inv (S n) (on_timer inactivity absolute progress at_ seen).
Proof.
  intros Hn Hat. unfold on_timer. destruct (Z.leb_spec absolute at_); [cbn; nia|].
  destruct (_ <=? _); [cbn; nia|]. unfold timer_Reset. rewrite minDuration_min. cbn. split; [nia|done].
Qed.

Lemma lease_inv_step n s s' : lease_inv n s → step s s' → lease_inv (S n) s'.
Proof.
  intros Hi Hs. destruct Hs as [now seen t sent r at_ _ _ _|now seen t closed at_ _ _ _|now seen fires at_ Hf _].
  - destruct Hi as [Hi _]. cbn. nia.
  - destruct Hi as [Hi _]. cbn. nia.
  - destruct Hi as [Hi [= ->]]. by apply (on_timer_inv n now).
Qed.

Lemma lease_inv_steps k n s s' : lease_inv k s → nsteps step n s s' → lease_inv (k + n) s'.
Proof.
  intros Hi Hn. revert k Hi. induction Hn as [s|n s s1 s2 Hs _ IH]; intros k Hi; [by rewrite Nat.add_0_r|].
  rewrite <- Nat.add_succ_comm. by apply IH, (lease_inv_step k s).
Qed.

Lemma lease_inv_start : lease_inv 0 start.
Proof.
  unfold waitForAsyncResultWithProgress, NewTimer. rewrite minDuration_min.
  rewrite (proj2 (Z.leb_gt _ _) inactivity_pos), (proj2 (Z.leb_gt _ _) absolute_pos). cbn. split; [lia|].
  by rewrite Z.sub_0_r.
Qed.

Lemma armed_state since seen t : rtc step start (Waiting since seen t) →
  since < absolute ∧ t = Some (since + Z.min inactivity (absolute - since)).
Proof. intros [n Hn]%rtc_nsteps_1. apply (lease_inv_steps 0 n _ _ lease_inv_start) in Hn as [Hn ->].
  split; [lia|done].
Qed.

(** C38 A wait for a worker cannot hang, and ends for a reason.  With positive timeouts,
    and whatever the worker, the canceller and the progress counter do: a call that has
    not returned can always go on, because its timer is armed; it goes on at the latest
    when the inactivity timeout since its last look at the counter or the absolute
    deadline is over, up to the delay of the scheduler; it renews its lease only before
    the deadline, after the inactivity timeout, and for strictly more progress; and after
    fewer than [absolute / inactivity] renewals it has returned - a result that was sent,
    a cancellation that was made, the deadline when it is over, or no progress when a
    whole inactivity timeout passed without. *)
Theorem wait_terminates :
  (∀ since seen t, rtc step start (Waiting since seen t) →
     red step (Waiting since seen t) ∧
     (∀ at_ outcome, step (Waiting since seen t) (Returned at_ outcome) →
        since <= at_ <= Z.min (since + inactivity) absolute + late ∧ return_reason since seen at_ outcome) ∧
     (∀ at_ seen' t', step (Waiting since seen t) (Waiting at_ seen' t') →
        since + inactivity <= at_ < absolute ∧ seen < seen' ∧ ∃ f, progress = Some f ∧ f at_ = seen')) ∧
  (∀ n s, nsteps step n start s → (Z.of_nat n - 1) * inactivity < absolute).
Proof.
  split.
  - intros since seen t [Hr ->]%armed_state. set (fires := since + _). assert (since < fires) as Hf by lia. split_and!.
    + eexists. apply (select_timer _ _ _ _ _ _ since seen fires fires); [done|]. split; [lia|]. intros ? [= <-]. lia.
    + intros at_ outcome Hs. inversion Hs as [? ? ? sent r ? Hsent Hle [Hw Hl]|? ? ? closed ? Hclosed Hle [Hw Hl]
        |? ? ? at' Hle [Hw Hl]]; subst; specialize (Hl _ eq_refl); unfold fires in *.
      * split; [lia|by exists sent].
      * split; [lia|by exists closed].
      * match goal with Ht : on_timer _ _ _ _ _ = _ |- _ => revert Ht end.
        unfold on_timer. destruct (Z.leb_spec absolute at'); [intros [= -> <-]; cbn; lia|].
        destruct (Z.leb_spec (match progress with Some f => f at' | None => seen end) seen) as [Hp|]; [|done].
        intros [= -> <-]. split; [lia|]. split; [lia|]. intros f Hfp. by rewrite Hfp in Hp.
    + intros at_ seen' t' Hs. inversion Hs as [| |? ? ? at' Hle _]; subst.
      match goal with Ht : on_timer _ _ _ _ _ = _ |- _ => revert Ht end.
      unfold on_timer. destruct (Z.leb_spec absolute at'); [done|]. destruct progress as [f|].
      * destruct (Z.leb_spec (f at') seen); [done|]. intros [= -> <- _]. unfold fires in *. split; [lia|]. split; [done|by exists f].
      * by rewrite Z.leb_refl.
  - intros n s Hn. apply (lease_inv_steps 0 n _ _ lease_inv_start) in Hn. destruct s; cbn in Hn; [nia|done].
Qed.
End waits.

(** ** The single-use handle *)

Section handle.
Context {E : Type}.

Definition entered (l : handle_label E) : bool := match l with CollectEntered _ => true | _ => false end.
Definition returned (l : handle_label E) : bool := match l with CollectReturned _ _ => true | _ => false end.

(** The argument of the first [complete]. *)
Fixpoint first_completion (tr : list (handle_label E)) : option (option E) :=
  match tr with
  | [] => None
  | Completed _ e :: _ => Some e
  | _ :: tr => first_completion tr
  end.

Lemma first_completion_snoc tr l : first_completion (tr ++ [l]) =
  match first_completion tr with
  | Some e => Some e
  | None => match l with Completed _ e => Some e | _ => None end
  end.
Proof. induction tr as [|[] tr IH]; cbn; [by destruct l|done|exact IH..]. Qed.

Definition count (f : handle_label E → bool) (tr : list (handle_label E)) : nat := length (filter f tr).

Lemma count_snoc f tr l : count f (tr ++ [l]) = (count f tr + if f l then 1 else 0)%nat.
Proof.
  unfold count. rewrite filter_app, length_app. cbn. destruct (decide _) as [H|H]; destruct (f l); naive_solver.
Qed.

(** What every interleaving keeps. *)
Record handle_inv (s : collectionState E) (w : list nat) (tr : list (handle_label E)) : Prop := {
  hi_completed : completed s = bool_decide (is_Some (first_completion tr));
  hi_done : done_closed s = completed s;
  hi_err : ∀ e, first_completion tr = Some e → err s = e;
  hi_collected : collected s = bool_decide (0 < count entered tr)%nat;
  hi_entered : (count entered tr <= 1)%nat;
  hi_waiting : (length w + count returned tr = count entered tr)%nat;
  hi_calls : ∀ call, call ∈ w → CollectEntered call ∈ tr;
  hi_returned : ∀ call e, CollectReturned call e ∈ tr → first_completion tr = Some e ∧ CollectEntered call ∈ tr }.

Lemma handle_invariant c tr : handle_trace c tr → handle_inv c.1 c.2 tr.
Proof.
  induction 1 as [|c l c' tr _ [Ic Id Ie Ico Ien Iw Ica Ir] Hs].
  { split; try done; cbn; intros; first [lia|by match goal with H : _ ∈ [] |- _ => apply elem_of_nil in H end]. }
  assert (∀ x, x ∈ tr → x ∈ tr ++ [l]) as Hin by (intros x Hx; apply elem_of_app; by left).
  assert (∀ call e, returned l = false → CollectReturned call e ∈ tr ++ [l] → CollectReturned call e ∈ tr) as Hold.
  { intros call e Hl [Hx|Hx%list_elem_of_singleton]%elem_of_app; [done|]. by subst l. }
  inversion Hs as [s w call e|s w call s' He|s w call He|s w1 call w2 e He]; subst; cbn [fst snd] in *.
  - assert (first_completion (tr ++ [Completed call e]) =
      Some (default e (first_completion tr))) as Hf.
    { rewrite first_completion_snoc. by destruct (first_completion tr). }
    unfold complete. destruct (completed s) eqn:Ec.
    + symmetry in Ic. apply bool_decide_eq_true in Ic as [e0 He0]. rewrite He0 in Hf.
      split; rewrite ?Hf, ?count_snoc; cbn [entered returned]; rewrite ?Nat.add_0_r; try (done || congruence).
      * by intros e' [= <-]; apply Ie.
      * intros call' Hc. apply Hin. by apply Ica.
      * intros call' e' Hr. apply (Hold _ _ eq_refl), Ir in Hr as [Hr ?]. rewrite He0 in Hr. split; [done|by apply Hin].
    + symmetry in Ic. apply bool_decide_eq_false in Ic. destruct (first_completion tr) eqn:E0; [by destruct Ic|].
      split; rewrite ?Hf, ?count_snoc; cbn [entered returned]; rewrite ?Nat.add_0_r; try (done || congruence).
      * by intros e' [= <-].
      * intros call' Hc. apply Hin. by apply Ica.
      * intros call' e' Hr. apply (Hold _ _ eq_refl), Ir in Hr as [? ?]. done.
  - unfold collect_enter in He. destruct (collected s) eqn:Ec; [done|]. injection He as <-.
    symmetry in Ico. apply bool_decide_eq_false in Ico.
    split; rewrite ?first_completion_snoc, ?count_snoc; cbn [entered returned length done_closed completed err collected];
      rewrite ?Nat.add_0_r; try lia.
    + by destruct (first_completion tr).
    + done.
    + destruct (first_completion tr); [exact Ie|done].
    + symmetry. apply bool_decide_eq_true. lia.
    + intros call' [->|Hc]%elem_of_cons; [apply elem_of_app; right; by left|]. apply Hin. by apply Ica.
    + intros call' e' Hr. apply (Hold _ _ eq_refl), Ir in Hr as [-> ?]. split; [done|by apply Hin].
  - split; rewrite ?first_completion_snoc, ?count_snoc; cbn [entered returned]; rewrite ?Nat.add_0_r; try (done || congruence).
    + by destruct (first_completion tr).
    + destruct (first_completion tr); [exact Ie|done].
    + intros call' Hc. apply Hin. by apply Ica.
    + intros call' e' Hr. apply (Hold _ _ eq_refl), Ir in Hr as [-> ?]. split; [done|by apply Hin].
  - unfold collect_leave in He. destruct (done_closed s) eqn:Ed; [|done]. injection He as He.
    rewrite <- Id in Ic. symmetry in Ic. apply bool_decide_eq_true in Ic as [e0 He0].
    split; rewrite ?first_completion_snoc, ?He0, ?count_snoc; cbn [entered returned]; rewrite ?Nat.add_0_r; try (done || congruence).
    + intros e' [= <-]. by apply Ie.
    + rewrite length_app in Iw |- *. cbn in Iw. lia.
    + intros call' Hc. apply Hin, Ica. apply elem_of_app in Hc as [?|?]; apply elem_of_app; [by left|right; by right].
    + assert (CollectEntered call ∈ tr) as Hent.
      { apply Ica, elem_of_app. right. by left. }
      intros call' e' [Hr|Hr%list_elem_of_singleton]%elem_of_app.
      * apply Ir in Hr as [Hr ?]. rewrite He0 in Hr. split; [done|by apply Hin].
      * injection Hr as -> ->. split; [|by apply Hin]. by rewrite <- He, (Ie e0 He0).
Qed.

(** C33 An asynchronous result is collected once.  Whatever the interleaving of any number
    of calls to [complete] and [collect], at most one [collect] is let in; it returns
    only after a [complete], with the error of the FIRST one, whatever later ones say;
    every other [collect] is refused; and the call that was let in can return as soon
    as there was a completion. *)
Theorem collected_once (s : collectionState E) (w : list nat) (tr : list (handle_label E)) :
  handle_trace (s, w) tr →
  (count entered tr <= 1)%nat ∧ (count returned tr <= 1)%nat ∧
  (∀ call e, CollectReturned call e ∈ tr → first_completion tr = Some e ∧ CollectEntered call ∈ tr) ∧
  (∀ call l c', handle_step (s, w) l c' → l = CollectEntered call → count entered tr = 0%nat) ∧
  (∀ call e, call ∈ w → first_completion tr = Some e →
     ∃ c', handle_step (s, w) (CollectReturned call e) c').
Proof.
  intros Ht. destruct (handle_invariant _ _ Ht) as [Ic Id Ie Ico Ien Iw Ica Ir]. cbn [fst snd] in *.
  split_and!; [done|lia|done| |].
  - intros call l c' Hs ->. inversion Hs as [|? ? ? ? He| |]; subst. unfold collect_enter in He.
    destruct (collected s); [done|]. symmetry in Ico. apply bool_decide_eq_false in Ico. lia.
  - intros call e Hc He. apply list_elem_of_split in Hc as (w1 & w2 & ->). eexists.
    apply step_leave. unfold collect_leave. rewrite Id, Ic, bool_decide_eq_true_2 by eauto.
    by rewrite (Ie e He).
Qed.
End handle.

(** ** Failures that are never retried *)

(** Failures are retried only where that is safe.  A classified worker failure always
    fails closed, so the fallback returns it as it is after the single run, without
    reloading or running the CPU engine; it is marked retryable only for the network
    and termination codes and only when the worker advertised it, and its delay is at
    most thirty seconds.  Any other error is followed by exactly one reload and one run
    of the CPU engine, and success of that run is success. *)
Theorem fallback_exact {W} primary beforeRetry (run : engine → W → option engine_error * W) w :
  (∀ code advertised after e w', let f := classifyTypedSectionWorkerError code advertised after (Some e) in
     (run primary w = (f, w') → WithFallbackReload primary beforeRetry run w = (f, w')) ∧
     (∀ e', f = Some e' → let '(retryable, replace, delay) := sectionWorkerRetry e' in
        (retryable = true → advertised = true ∧
           code ∈ ["chunk-fetch-network"; "chunk-fetch-http"; "worker-terminated"; "worker-initialization"]) ∧
        (replace = true → code ∈ ["worker-terminated"; "worker-initialization"]) ∧
        0 <= delay <= 30 * second)) ∧
  (∀ w', run primary w = (None, w') → WithFallbackReload primary beforeRetry run w = (None, w')) ∧
  (∀ e w', run primary w = (Some e, w') → as_fail_closed e = false →
     let '(reloadErr, w2) := match beforeRetry with Some f => f w' | None => (None, w') end in
     (is_Some reloadErr → is_Some (WithFallbackReload primary beforeRetry run w).1 ∧
        (WithFallbackReload primary beforeRetry run w).2 = w2) ∧
     (reloadErr = None → (WithFallbackReload primary beforeRetry run w).2 = (run CpuMSM w2).2 ∧
        ((WithFallbackReload primary beforeRetry run w).1 = None ↔ (run CpuMSM w2).1 = None))).
Proof.
  split_and!.
  - intros code advertised after e w' f. subst f. cbn [classifyTypedSectionWorkerError].
    destruct (worker_failure_policy code advertised after) as [[[class retryable] replace] delay] eqn:Ep.
    split.
    + intros Hr. unfold WithFallbackReload. by rewrite Hr.
    + intros e' [= <-]. cbn. unfold worker_failure_policy in Ep.
      assert (0 <= (if (delay <? 0) || (30 * second <? delay) then 0 else delay) <= 30 * second) as Hdelay.
      { unfold second. destruct (_ || _) eqn:Eb; [lia|]. bool_to_prop. lia. }
      repeat case_decide; simplify_eq; (split; [intros ?|split; [intros ?|exact Hdelay]]); try done;
        try (split; [done|]); set_solver.
  - intros w' Hr. unfold WithFallbackReload. by rewrite Hr.
  - intros e w' Hr Hf. unfold WithFallbackReload. rewrite Hr, Hf.
    destruct beforeRetry as [f|]; [destruct (f w') as [reloadErr w2]|];
      (split; [intros [e' He']; simplify_eq; by split; eauto|]);
      intros He; simplify_eq; destruct (run CpuMSM _) as [[] ?]; cbn; split; done.
Qed.
