(* ===== verification/PkIndex.v ===== *)
(** * The proving-key index: [internal/proofassets/pkindex.go]

    A proving key is a file of several gigabytes that is read by section.  [BuildPKIndex]
    walks it once and records where each section of points starts; [streampk/range.go]
    reads parts of sections through the index.  A file is its bytes, and a position in it. *)
From stdpp Require Import strings gmap.
From S2P Require Import Prelude.
From S2P Require Import GoText.
From S2P Require Import GoError.
From S2P Require Import Ranges.

Definition DomainHeaderBytes : Z := 169.
Definition G1RawBytes : Z := 96.
Definition G2RawBytes : Z := 192.

Record PKSection := { sec_Name : list Z; sec_Offset : Z; sec_Len : Z; sec_ElemSize : Z }.
#[export] Instance PKSection_eq_dec : EqDecision PKSection.
Proof. solve_decision. Defined.

Abbreviation sections := (gmap (list Z) PKSection).

Record PKIndex := {
  ix_Sections : sections;
  ix_DomainCardinality : Z;
  ix_NbWires : Z;
  ix_NbInfinityA : Z;
  ix_NbInfinityB : Z;
  ix_NbCommitmentKeys : Z;
  ix_FileSize : Z }.

(** ** Reading *)

(** An open file: what is done with its content from a position, and the next position. *)
Definition FileReader (A : Type) : Type := list Z → Z → result go_error (A * Z).
#[export] Instance reader_ret : MRet FileReader := λ A a content pos, Ok (a, pos).
#[export] Instance reader_bind : MBind FileReader := λ A B f m content pos,
  match m content pos with Ok (a, pos) => f a content pos | Err e => Err e end.

Definition reader_within {A} (label : string) (m : FileReader A) : FileReader A :=
  λ content pos, within label (m content pos).
Definition reader_check (fails : bool) (message : string) : FileReader unit :=
  λ content pos, if fails then Err (Fail message) else Ok (tt, pos).

(** [io.ReadFull] into a buffer of [k] bytes. *)
Definition read_full (k : Z) : FileReader (list Z) := λ content pos,
  if Z.of_nat (length content) <? pos + k then Err (Fail "unexpected EOF")
  else Ok (slice (pos, pos + k) content, pos + k).

(** [f.Seek(k, io.SeekCurrent)]; a position past the end of the file is allowed. *)
Definition seek_current (k : Z) : FileReader Z := λ content pos,
  if (pos + k <? 0) || (2 ^ 63 <=? pos + k) then Err (Fail "seek: invalid argument")
  else Ok (pos + k, pos + k).

Definition readBEUint32 : FileReader Z := b ← read_full 4; mret (be_val b).
Definition readBEUint64 : FileReader Z := b ← read_full 8; mret (be_val b).

Definition readSection (name : list Z) (elemSize : Z) : FileReader PKSection :=
  count ← readBEUint32;
  off ← seek_current 0;
  let payloadLen := i64 (count * elemSize) in
  _ ← seek_current payloadLen;
  mret {| sec_Name := name; sec_Offset := off; sec_Len := payloadLen; sec_ElemSize := elemSize |}.

(** [for _, name := range names], each a section of [elemSize]. *)
Fixpoint read_sections (names : list (list Z)) (elemSize : Z) (secs : sections) : FileReader sections :=
  match names with
  | [] => mret secs
  | name :: names =>
      sec ← reader_within "G1.%s" (readSection name elemSize);
      read_sections names elemSize (<[name := sec]> secs)
  end.

(** [commitmentSectionName] of [keysource.go], written out in [BuildPKIndex]. *)
Definition commitmentSectionName (base : list Z) (i : Z) : list Z :=
  if 0 <? i then base ++ str "_" ++ Itoa i else base.

(** [for i := 0; i < int(idx.NbCommitmentKeys); i++], [n] iterations from [i]. *)
Fixpoint read_commitments (n : nat) (i : Z) (secs : sections) : FileReader sections :=
  match n with
  | O => mret secs
  | S n =>
      let basisName := commitmentSectionName (str "Basis") i in
      let sigmaName := commitmentSectionName (str "BasisExpSigma") i in
      basis ← reader_within "commitment key %d Basis" (readSection basisName G1RawBytes);
      sigma ← reader_within "commitment key %d BasisExpSigma" (readSection sigmaName G1RawBytes);
      read_commitments n (i + 1) (<[sigmaName := sigma]> (<[basisName := basis]> secs))
  end.

Definition build_index : FileReader PKIndex := λ content,
  (domain ← reader_within "read domain header" (read_full DomainHeaderBytes);
   _ ← reader_within "seek past G1 singletons" (seek_current (3 * G1RawBytes));
   secs ← read_sections [str "A"; str "B"; str "Z"; str "K"] G1RawBytes ∅;
   _ ← reader_within "seek past G2 singletons" (seek_current (2 * G2RawBytes));
   sec ← reader_within "G2.B" (readSection (str "G2B") G2RawBytes);
   nbWires ← reader_within "read nbWires" readBEUint64;
   nbInfinityA ← reader_within "read NbInfinityA" readBEUint64;
   nbInfinityB ← reader_within "read NbInfinityB" readBEUint64;
   _ ← reader_check ((2 ^ 63 - 1) / 2 <? nbWires) "nbWires %d would overflow int64";
   _ ← reader_within "seek past infinity bitmaps" (seek_current (i64 (nbWires * 2)));
   nbCommitmentKeys ← reader_within "read nbCommitmentKeys" readBEUint32;
   secs ← read_commitments (Z.to_nat nbCommitmentKeys) 0 (<[str "G2B" := sec]> secs);
   off ← reader_within "read final offset" (seek_current 0);
   _ ← reader_check (negb (off =? Z.of_nat (length content))) "index ended at byte %d, file size is %d";
   mret {| ix_Sections := secs; ix_DomainCardinality := be_val (take 8 domain); ix_NbWires := nbWires;
           ix_NbInfinityA := nbInfinityA; ix_NbInfinityB := nbInfinityB;
           ix_NbCommitmentKeys := nbCommitmentKeys; ix_FileSize := Z.of_nat (length content) |}) content.

(** The index of the file with this content. *)
Definition BuildPKIndex (content : list Z) : result go_error PKIndex :=
  '(idx, _) ← build_index content 0; Ok idx.

(** ** Validation *)

Definition validate_section (fileSize : Z) (entry : list Z * PKSection) : checked :=
  let (name, sec) := entry in
  _ ← check (bool_decide (sec_Name sec = [])) "section %q has empty name";
  _ ← check (differs (sec_Name sec) name) "section map key %q does not match name %q";
  _ ← check ((sec_Offset sec <? 0) || (sec_Len sec <? 0)) "section %q has negative offset or length";
  _ ← check (negb (sec_ElemSize sec =? G1RawBytes) && negb (sec_ElemSize sec =? G2RawBytes))
        "section %q has elem_size %d";
  _ ← check (negb (Z.rem (sec_Len sec) (sec_ElemSize sec) =? 0))
        "section %q length %d is not divisible by elem_size %d";
  check (fileSize <? i64 (sec_Offset sec + sec_Len sec)) "section %q exceeds file size".

Definition required_sections : list (list Z) := [str "A"; str "B"; str "Z"; str "K"; str "G2B"].

Definition ValidatePKIndex `{MapOrder} (idx : PKIndex) : checked :=
  _ ← check (ix_FileSize idx <=? 0) "index file_size is required";
  _ ← each required_sections (λ name,
        check (bool_decide (ix_Sections idx !! name = None)) "index missing section %q");
  each (map_order (map_to_list (ix_Sections idx))) (validate_section (ix_FileSize idx)).

(** ** [streampk/range.go]: reading through the index *)

(** [io.ReaderAt], as it is used: [n] bytes from an offset, all of them or an error. *)
Definition ReaderAt : Type := Z → Z → result go_error (list Z).

(** An [os.File] with this content. *)
Definition file_reader (content : list Z) : ReaderAt := λ n off,
  if (off <? 0) || ((0 <? n) && (Z.of_nat (length content) <? off + n)) then Err (Fail "EOF")
  else Ok (slice (off, off + n) content).

Record RangeStats := {
  st_Requests : Z; st_Bytes : Z; st_StatusOK : Z; st_StatusPC : Z; st_Errors : Z }.

(** The counters after a request for [n] bytes that was answered with [status] (none when
    there was no answer), and had [errors] errors. *)
Definition count_request (n : Z) (status : option Z) (errors : Z) (st : RangeStats) : RangeStats := {|
  st_Requests := u64 (st_Requests st + 1);
  st_Bytes := u64 (st_Bytes st + n);
  st_StatusOK := if decide (status = Some 200) then u64 (st_StatusOK st + 1) else st_StatusOK st;
  st_StatusPC := if decide (status = Some 206) then u64 (st_StatusPC st + 1) else st_StatusPC st;
  st_Errors := u64 (st_Errors st + errors) |}.

(** What a server answers to a request for a range of bytes (both ends included): a status
    and a body. *)
Definition http_server : Type := Z → Z → result go_error (Z * list Z).

(** [io.ReadFull] of [n > 0] bytes from a body. *)
Definition body_full (n : Z) (body : list Z) : result go_error (list Z) :=
  if Z.of_nat (length body) <? n
  then Err (Fail (if bool_decide (body = []) then "EOF" else "unexpected EOF"))
  else Ok (take (Z.to_nat n) body).

(** [ReadAt] of [httpRangeAt], with the counters it leaves. *)
Definition httpRangeAt_ReadAt (server : http_server) (st : RangeStats) (n off : Z)
    : result go_error (list Z) * RangeStats :=
  if n =? 0 then (Ok [], st) else
  match server off (off + n - 1) with
  | Err e => (Err (Wrap "range request" e), count_request n None 1 st)
  | Ok (status, body) =>
      if status =? 206 then (body_full n body, count_request n (Some status) 0 st)
      else if status =? 200 then
        if Z.of_nat (length body) <? off
        then (Err (Wrap "discard prefix from 200 response" (Fail "EOF")), count_request n (Some status) 1 st)
        else (body_full n (drop (Z.to_nat off) body), count_request n (Some status) 0 st)
      else (Err (Fail "range request status %d"), count_request n (Some status) 1 st)
  end.

Definition http_reader (server : http_server) (st : RangeStats) : ReaderAt := λ n off,
  (httpRangeAt_ReadAt server st n off).1.

Record Source := { src_idx : PKIndex; src_ra : ReaderAt }.

Definition OpenFile `{MapOrder} (content : list Z) : result go_error Source :=
  idx ← BuildPKIndex content;
  _ ← ValidatePKIndex idx;
  Ok {| src_idx := idx; src_ra := file_reader content |}.

Definition OpenURL `{MapOrder} (idx : PKIndex) (server : http_server) (st : RangeStats) : result go_error Source :=
  _ ← ValidatePKIndex idx;
  Ok {| src_idx := idx; src_ra := http_reader server st |}.

Definition SectionBytes (s : Source) (name : list Z) (maxBytes : Z) : result go_error (list Z) :=
  match ix_Sections (src_idx s) !! name with
  | None => Err (Fail "section %q not found")
  | Some sec =>
      _ ← check ((0 <=? maxBytes) && (maxBytes <? sec_Len sec)) "section %q is %d bytes, max is %d";
      within "read section %q" (src_ra s (sec_Len sec) (sec_Offset sec))
  end.

Definition SectionRange (s : Source) (name : list Z) (lo hi : Z) : result go_error (list Z) :=
  match ix_Sections (src_idx s) !! name with
  | None => Err (Fail "section %q not found")
  | Some sec =>
      let total := Z.quot (sec_Len sec) (sec_ElemSize sec) in
      _ ← check ((lo <? 0) || (hi <? lo) || (total <? hi)) "section range %q [%d,%d) out of bounds (len=%d)";
      let n := i64 ((hi - lo) * sec_ElemSize sec) in
      if n =? 0 then Ok [] else
      let off := i64 (sec_Offset sec + i64 (lo * sec_ElemSize sec)) in
      within "read section range %q" (src_ra s n off)
  end.

(** [PrefixLength(n)]: the length prefix gnark's decoder expects. *)
Definition PrefixLength (n : Z) : list Z := be_bytes 4 n.
