(* ===== verification/PkIndexCorrect.v ===== *)
(** * The index describes the file

    A proving key is laid out as a list of items, some of which are sections.  The index
    exists exactly for such files, lists the sections at their positions, is valid, and
    reads through it give back the points. *)
From stdpp Require Import strings gmap.
From S2P Require Import Prelude.
From S2P Require Import GoText.
From S2P Require Import GoError.
From S2P Require Import Ranges.
From S2P Require Import PkIndex.

(** ** Layouts *)

Inductive pk_item :=
| Raw (bs : list Z)
| Vec (name : list Z) (elem : Z) (payload : list Z).

Abbreviation len l := (Z.of_nat (length l)).

(** A section is preceded by the number of its points. *)
Definition item_bytes (i : pk_item) : list Z :=
  match i with Raw bs => bs | Vec _ elem payload => be_bytes 4 (len payload / elem) ++ payload end.
Definition items_bytes (l : list pk_item) : list Z := concat (item_bytes <$> l).

Definition item_wf (i : pk_item) : Prop :=
  match i with
  | Raw _ => True
  | Vec _ elem payload => ∃ count, 0 <= count < 2 ^ 32 ∧ len payload = count * elem
  end.

(** The sections of a layout that starts at [off], with what they hold. *)
Fixpoint sections_at (off : Z) (l : list pk_item) : list (PKSection * list Z) :=
  match l with
  | [] => []
  | i :: l =>
      match i with
      | Raw _ => []
      | Vec name elem payload =>
          [({| sec_Name := name; sec_Offset := off + 4; sec_Len := len payload; sec_ElemSize := elem |}, payload)]
      end ++ sections_at (off + len (item_bytes i)) l
  end.

Lemma items_bytes_app l1 l2 : items_bytes (l1 ++ l2) = items_bytes l1 ++ items_bytes l2.
Proof. unfold items_bytes. by rewrite fmap_app, concat_app. Qed.

Lemma items_bytes_cons i l : items_bytes (i :: l) = item_bytes i ++ items_bytes l.
Proof. done. Qed.

Lemma sections_at_app off l1 l2 :
  sections_at off (l1 ++ l2) = sections_at off l1 ++ sections_at (off + len (items_bytes l1)) l2.
Proof.
  revert off. induction l1 as [|i l1 IH]; intros off; cbn [app sections_at].
  - cbn. by rewrite Z.add_0_r.
  - rewrite IH, items_bytes_cons, length_app, <- app_assoc. do 3 f_equal. lia.
Qed.

(** A section is where it says. *)
Lemma sections_at_slice pre l sec payload : (sec, payload) ∈ sections_at (len pre) l →
  slice (sec_Offset sec, sec_Offset sec + sec_Len sec) (pre ++ items_bytes l) = payload ∧
  sec_Len sec = len payload ∧ len pre <= sec_Offset sec ∧
  sec_Offset sec + sec_Len sec <= len (pre ++ items_bytes l).
Proof.
  revert pre. induction l as [|i l IH]; intros pre Hin; [by apply elem_of_nil in Hin|].
  cbn [sections_at] in Hin. apply elem_of_app in Hin as [Hin|Hin].
  - destruct i as [|name elem p]; [by apply elem_of_nil in Hin|].
    apply list_elem_of_singleton in Hin as [= -> ->]. cbn [sec_Offset sec_Len].
    rewrite items_bytes_cons. cbn [item_bytes]. split_and!; [|done|lia|].
    + unfold slice. cbn [fst snd]. rewrite <- app_assoc, app_assoc.
      rewrite drop_app_length' by (rewrite length_app, length_be_bytes; lia).
      apply take_app_length'. lia.
    + rewrite !length_app, length_be_bytes. lia.
  - rewrite items_bytes_cons, app_assoc.
    rewrite <- Nat2Z.inj_add, <- length_app in Hin.
    destruct (IH (pre ++ item_bytes i) Hin) as (? & ? & Hle & ?). rewrite length_app in Hle.
    split_and!; try done; lia.
Qed.

(** ** The layout of a proving key *)

Record proving_key := {
  pk_header : list Z;                      (* the FFT domain *)
  pk_g1 : list Z;                          (* alpha, beta, delta *)
  pk_A : list Z; pk_B : list Z; pk_Z : list Z; pk_K : list Z;
  pk_g2 : list Z;                          (* beta, delta *)
  pk_G2B : list Z;
  pk_wires : Z; pk_infinityA : Z; pk_infinityB : Z;
  pk_bitmaps : list Z;
  pk_commitments : list (list Z * list Z) }.

(** The sections of the commitment keys, numbered from [i]. *)
Fixpoint commitment_items (i : Z) (keys : list (list Z * list Z)) : list pk_item :=
  match keys with
  | [] => []
  | (basis, sigma) :: keys =>
      Vec (commitmentSectionName (str "Basis") i) G1RawBytes basis ::
      Vec (commitmentSectionName (str "BasisExpSigma") i) G1RawBytes sigma ::
      commitment_items (i + 1) keys
  end.

Definition pk_layout (pk : proving_key) : list pk_item :=
  [Raw (pk_header pk); Raw (pk_g1 pk)] ++
  [Vec (str "A") G1RawBytes (pk_A pk); Vec (str "B") G1RawBytes (pk_B pk);
   Vec (str "Z") G1RawBytes (pk_Z pk); Vec (str "K") G1RawBytes (pk_K pk)] ++
  [Raw (pk_g2 pk); Vec (str "G2B") G2RawBytes (pk_G2B pk);
   Raw (be_bytes 8 (pk_wires pk)); Raw (be_bytes 8 (pk_infinityA pk)); Raw (be_bytes 8 (pk_infinityB pk));
   Raw (pk_bitmaps pk); Raw (be_bytes 4 (len (pk_commitments pk)))] ++
  commitment_items 0 (pk_commitments pk).

Record pk_wf (pk : proving_key) : Prop := {
  wf_header : len (pk_header pk) = DomainHeaderBytes;
  wf_g1 : len (pk_g1 pk) = 3 * G1RawBytes;
  wf_g2 : len (pk_g2 pk) = 2 * G2RawBytes;
  wf_vectors : Forall item_wf (pk_layout pk);
  wf_wires : 0 <= pk_wires pk <= (2 ^ 63 - 1) / 2;
  wf_infinityA : 0 <= pk_infinityA pk < 2 ^ 64;
  wf_infinityB : 0 <= pk_infinityB pk < 2 ^ 64;
  wf_bitmaps : len (pk_bitmaps pk) = 2 * pk_wires pk;
  wf_commitments : len (pk_commitments pk) < 2 ^ 32 }.

(** The sections of the index, in the order they are recorded. *)
Definition record_sections (l : list (PKSection * list Z)) (secs : sections) : sections :=
  foldl (λ secs e, <[sec_Name e.1 := e.1]> secs) secs l.

Definition index_of (pk : proving_key) : PKIndex := {|
  ix_Sections := record_sections (sections_at 0 (pk_layout pk)) ∅;
  ix_DomainCardinality := be_val (take 8 (pk_header pk));
  ix_NbWires := pk_wires pk;
  ix_NbInfinityA := pk_infinityA pk;
  ix_NbInfinityB := pk_infinityB pk;
  ix_NbCommitmentKeys := len (pk_commitments pk);
  ix_FileSize := len (items_bytes (pk_layout pk)) |}.

(** ** What the readers consume *)

Section consumption.
Context (content : list Z) (Hbytes : Forall is_byte content) (Hsize : len content < 2 ^ 63).

(** The bytes from [pos] to [pos'] are [x]. *)
Record consumes (pos : Z) (x : list Z) (pos' : Z) : Prop := {
  con_pos : 0 <= pos;
  con_next : pos' = pos + len x;
  con_end : pos' <= len content;
  con_bytes : slice (pos, pos') content = x }.

Lemma consumes_slice pos pos' : 0 <= pos <= pos' → pos' <= len content →
  consumes pos (slice (pos, pos') content) pos'.
Proof. intros. split; try done; [lia|]. rewrite slice_length; cbn; lia. Qed.

Lemma consumes_app pos x y pos'' : consumes pos (x ++ y) pos'' ↔
  ∃ pos', consumes pos x pos' ∧ consumes pos' y pos''.
Proof.
  split.
  - intros [H0 Hn He Hb]. rewrite length_app in Hn. exists (pos + len x).
    rewrite (slice_cons pos (pos + len x)) in Hb by lia.
    apply app_inj_1 in Hb as [Hx Hy]; [split; split; try done; lia|].
    apply Nat2Z.inj. rewrite slice_length; cbn; lia.
  - intros (pos' & [H0 Hn He Hx] & [H0' Hn' He' Hy]). split; [done|rewrite length_app; lia|done|].
    rewrite (slice_cons pos pos' pos'') by lia. by rewrite Hx, Hy.
Qed.

Lemma consumes_whole x : consumes 0 x (len content) ↔ x = content.
Proof.
  split.
  - intros [_ _ _ Hb]. by rewrite slice_all in Hb.
  - intros ->. split; try done. apply slice_all.
Qed.

Lemma consumes_is_byte pos x pos' : consumes pos x pos' → Forall is_byte x.
Proof. intros [_ _ _ <-]. by apply Forall_take, Forall_drop. Qed.

Lemma read_full_Ok k pos x pos' : 0 <= k → 0 <= pos →
  read_full k content pos = Ok (x, pos') ↔ consumes pos x pos' ∧ len x = k.
Proof.
  intros Hk Hp. unfold read_full. destruct (Z.ltb_spec (len content) (pos + k)) as [Hlt|Hle].
  - split; [done|]. intros [[_ -> He _] <-]. lia.
  - split.
    + intros [= <- <-]. assert (len (slice (pos, pos + k) content) = k) as Hl by (rewrite slice_length; cbn; lia).
      split; [|done]. apply consumes_slice; lia.
    + intros [[_ -> _ Hb] <-]. by rewrite Hb.
Qed.

Lemma seek_Ok k pos q pos' : 0 <= k → 0 <= pos → pos' <= len content →
  seek_current k content pos = Ok (q, pos') ↔ q = pos' ∧ pos' = pos + k.
Proof.
  intros Hk Hp He. unfold seek_current. rewrite (proj2 (Z.ltb_ge (pos + k) 0)) by lia. cbn [orb].
  destruct (Z.leb_spec (2 ^ 63) (pos + k)); [|naive_solver]. split; [done|]. intros [_ ->]. lia.
Qed.

Lemma reader_bind_Ok {A B} (m : FileReader A) (f : A → FileReader B) pos b pos'' :
  (m ≫= f) content pos = Ok (b, pos'') ↔
  ∃ a pos', m content pos = Ok (a, pos') ∧ f a content pos' = Ok (b, pos'').
Proof.
  unfold mbind at 1, reader_bind. destruct (m content pos) as [[a pos']|e]; [|split; [done|by intros (? & ? & ? & ?)]].
  split; [by eauto|]. by intros (? & ? & [= <- <-] & ?).
Qed.

Lemma reader_within_Ok {A} label (m : FileReader A) pos a pos' :
  reader_within label m content pos = Ok (a, pos') ↔ m content pos = Ok (a, pos').
Proof. apply within_Ok. Qed.

Lemma be_val_bound bs : Forall is_byte bs → 0 <= be_val bs < 256 ^ len bs.
Proof.
  intros Hb. unfold be_val. rewrite <- (length_rev bs).
  apply digits_val_bound; [lia|by apply Forall_rev].
Qed.

(** [n] big-endian bytes. *)
Lemma read_be_Ok n pos v pos' : 0 <= pos →
  (b ← read_full (Z.of_nat n); mret (be_val b)) content pos = Ok (v, pos') ↔
  consumes pos (be_bytes n v) pos' ∧ 0 <= v < 256 ^ Z.of_nat n.
Proof.
  intros Hp. rewrite reader_bind_Ok. split.
  - intros (b & pos1 & [Hc Hl]%read_full_Ok & [= <- <-]); [|lia|done].
    pose proof (consumes_is_byte _ _ _ Hc) as Hb. apply Nat2Z.inj in Hl. subst n.
    rewrite be_bytes_be_val by done. split; [done|]. by apply be_val_bound.
  - intros [Hc Hv]. exists (be_bytes n v), pos'. rewrite read_full_Ok by lia.
    rewrite length_be_bytes. split; [done|]. cbn. by rewrite be_val_be_bytes, Z.mod_small.
Qed.

Definition point_elem (elem : Z) : Prop := elem = G1RawBytes ∨ elem = G2RawBytes.

Lemma section_size elem count : point_elem elem → 0 <= count < 2 ^ 32 →
  i64 (count * elem) = count * elem ∧ 0 <= count * elem < 2 ^ 40 ∧ count * elem / elem = count.
Proof.
  intros [->| ->] Hc; unfold G1RawBytes, G2RawBytes in *; rewrite Z.div_mul by done;
    (split; [apply i64_small; lia|]); lia.
Qed.

Lemma readSection_mono name elem pos sec pos' : point_elem elem → 0 <= pos →
  readSection name elem content pos = Ok (sec, pos') → pos <= pos'.
Proof.
  intros He Hp. unfold readSection. rewrite reader_bind_Ok.
  intros (count & p1 & [[_ Hn _ _] Hv]%(read_be_Ok 4) & H); [|done]. rewrite length_be_bytes in Hn.
  pose proof (section_size elem count He Hv) as (Hi & ? & _).
  rewrite reader_bind_Ok in H. destruct H as (off & p2 & H2 & H). unfold seek_current in H2, H.
  destruct (_ || _); [done|]. injection H2 as <- <-. rewrite reader_bind_Ok in H.
  destruct H as (off & p3 & H3 & [= _ <-]). destruct (_ || _); [done|]. injection H3 as _ <-. lia.
Qed.

Lemma readSection_Ok name elem pos sec pos' : point_elem elem → 0 <= pos → pos' <= len content →
  readSection name elem content pos = Ok (sec, pos') ↔
  ∃ p, item_wf (Vec name elem p) ∧ consumes pos (item_bytes (Vec name elem p)) pos' ∧
    sec = {| sec_Name := name; sec_Offset := pos + 4; sec_Len := len p; sec_ElemSize := elem |}.
Proof.
  intros He Hp Hend. unfold readSection. rewrite reader_bind_Ok. cbn [item_wf item_bytes]. split.
  - intros (count & p1 & [Hc Hv]%(read_be_Ok 4) & H); [|done]. change (256 ^ Z.of_nat 4) with (2 ^ 32) in Hv.
    pose proof (section_size elem count He Hv) as (Hi & Hr & Hd).
    destruct Hc as [_ Hn He1 Hb]. rewrite length_be_bytes in Hn.
    rewrite reader_bind_Ok in H. destruct H as (off & p2 & H2 & H).
    apply seek_Ok in H2 as [-> ->]; [|lia|lia|unfold seek_current in H2; destruct (_ || _); [done|];
      injection H2 as _ <-; lia].
    rewrite reader_bind_Ok in H. destruct H as (off & p3 & H3 & [= <- <-]).
    apply seek_Ok in H3 as [-> Hp3]; [|lia..]. rewrite Hi in Hp3.
    rewrite Z.add_0_r in *. exists (slice (p1, p3) content).
    assert (len (slice (p1, p3) content) = count * elem) as Hl by (rewrite slice_length; cbn; lia).
    rewrite Hl, Hd, Hi. split_and!; [by eauto| |f_equal; lia].
    apply consumes_app. exists p1. split; [split; rewrite ?length_be_bytes; done || lia|].
    apply consumes_slice; lia.
  - intros (p & (count & Hv & Hl) & Hc & ->). pose proof (section_size elem count He Hv) as (Hi & Hr & Hd).
    rewrite Hl, Hd in Hc. apply consumes_app in Hc as (p1 & Hc1 & [? Hn2 ? ?]).
    exists count, p1. split; [by apply (read_be_Ok 4)|]. destruct Hc1 as [_ Hn1 _ _].
    rewrite length_be_bytes in Hn1. rewrite reader_bind_Ok. exists p1, p1. rewrite seek_Ok by lia.
    split; [lia|]. rewrite reader_bind_Ok. exists pos', pos'. rewrite Hi, seek_Ok by lia.
    split; [lia|]. rewrite Hl. replace p1 with (pos + 4) by lia. done.
Qed.

(** The vectors of one element size. *)
Definition vectors (elem : Z) (names ps : list (list Z)) : list pk_item :=
  zip_with (λ name p, Vec name elem p) names ps.

Lemma read_sections_mono names elem secs pos secs' pos' : point_elem elem → 0 <= pos →
  read_sections names elem secs content pos = Ok (secs', pos') → pos <= pos'.
Proof.
  intros He. revert secs pos. induction names as [|name names IH]; intros secs pos Hp; cbn [read_sections].
  { intros [= _ <-]. done. }
  rewrite reader_bind_Ok. intros (sec & p1 & H1%reader_within_Ok & H2).
  apply readSection_mono in H1; [|done..]. apply IH in H2; lia.
Qed.

Lemma read_sections_Ok names elem secs pos secs' pos' : point_elem elem → 0 <= pos → pos' <= len content →
  read_sections names elem secs content pos = Ok (secs', pos') ↔
  ∃ ps, length ps = length names ∧ Forall item_wf (vectors elem names ps) ∧
    consumes pos (items_bytes (vectors elem names ps)) pos' ∧
    secs' = record_sections (sections_at pos (vectors elem names ps)) secs.
Proof.
  intros He. revert secs pos. induction names as [|name names IH]; intros secs pos Hp Hend.
  - cbn [read_sections]. split.
    + intros [= <- <-]. exists []. split_and!; [done|constructor| |done]. split; cbn; try lia.
      by rewrite slice_empty.
    + intros ([|] & ? & _ & [_ Hn _ _] & ->); [|done]. cbn in Hn. rewrite Z.add_0_r in Hn. by subst.
  - cbn [read_sections]. rewrite reader_bind_Ok. split.
    + intros (sec & p1 & H1%reader_within_Ok & H2).
      pose proof (readSection_mono _ _ _ _ _ He Hp H1). pose proof (read_sections_mono _ _ _ p1 _ _ He ltac:(lia) H2).
      apply readSection_Ok in H1 as (p & Hw & Hc & ->); [|done|done|lia].
      apply IH in H2 as (ps & Hl & Hws & Hcs & ->); [|lia|done]. exists (p :: ps). cbn [length vectors zip_with].
      destruct Hc as [? Hn ? ?]. split_and!; [by rewrite Hl|by constructor| |].
      * rewrite items_bytes_cons. apply consumes_app. by exists p1.
      * cbn [sections_at app]. unfold record_sections. cbn [foldl fst sec_Name]. by rewrite Hn.
    + intros ([|p ps] & Hl & Hw & Hc & ->); [done|]. cbn [length vectors zip_with] in *.
      apply Forall_cons in Hw as [Hw Hws]. rewrite items_bytes_cons in Hc.
      apply consumes_app in Hc as (p1 & Hc & Hcs). pose proof Hc as [? Hn ? ?]. pose proof Hcs as [? ? ? ?].
      eexists _, p1. rewrite reader_within_Ok, readSection_Ok by (done || lia). split; [by exists p|].
      apply IH; [lia|done|]. exists ps. injection Hl as Hl. split_and!; [done..|].
      cbn [sections_at app]. unfold record_sections. cbn [foldl fst sec_Name]. by rewrite Hn.
Qed.

Lemma read_commitments_mono n i secs pos secs' pos' : 0 <= pos →
  read_commitments n i secs content pos = Ok (secs', pos') → pos <= pos'.
Proof.
  revert i secs pos. induction n as [|n IH]; intros i secs pos Hp; cbn [read_commitments].
  { intros [= _ <-]. done. }
  rewrite reader_bind_Ok. intros (basis & p1 & H1%reader_within_Ok & H2). rewrite reader_bind_Ok in H2.
  destruct H2 as (sigma & p2 & H2%reader_within_Ok & H3). apply readSection_mono in H1; [|by left|done].
  apply readSection_mono in H2; [|by left|lia]. apply IH in H3; lia.
Qed.

Lemma read_commitments_Ok n i secs pos secs' pos' : 0 <= pos → pos' <= len content →
  read_commitments n i secs content pos = Ok (secs', pos') ↔
  ∃ keys, length keys = n ∧ Forall item_wf (commitment_items i keys) ∧
    consumes pos (items_bytes (commitment_items i keys)) pos' ∧
    secs' = record_sections (sections_at pos (commitment_items i keys)) secs.
Proof.
  revert i secs pos. induction n as [|n IH]; intros i secs pos Hp Hend; cbn [read_commitments].
  - split.
    + intros [= <- <-]. exists []. split_and!; [done|constructor| |done]. split; cbn; try lia.
      by rewrite slice_empty.
    + intros ([|] & ? & _ & [_ Hn _ _] & ->); [|done]. cbn in Hn. rewrite Z.add_0_r in Hn. by subst.
  - rewrite reader_bind_Ok. split.
    + intros (basis & p1 & H1%reader_within_Ok & H2). rewrite reader_bind_Ok in H2.
      destruct H2 as (sigma & p2 & H2%reader_within_Ok & H3).
      pose proof (readSection_mono _ _ _ _ _ (or_introl eq_refl) Hp H1).
      pose proof (readSection_mono _ _ p1 _ _ (or_introl eq_refl) ltac:(lia) H2).
      pose proof (read_commitments_mono _ _ _ p2 _ _ ltac:(lia) H3).
      apply readSection_Ok in H1 as (b & Hwb & Hcb & ->); [|by left|done|lia].
      apply readSection_Ok in H2 as (s & Hws & Hcs & ->); [|by left|lia|lia].
      apply IH in H3 as (keys & Hl & Hw & Hc & ->); [|lia|done]. exists ((b, s) :: keys).
      cbn [length commitment_items]. destruct Hcb as [? Hnb ? ?], Hcs as [? Hns ? ?].
      split_and!; [by rewrite Hl|by repeat constructor| |].
      * rewrite !items_bytes_cons. apply consumes_app. exists p1. split; [done|]. apply consumes_app. by exists p2.
      * cbn [sections_at app]. unfold record_sections. cbn [foldl fst sec_Name]. by rewrite <- Hnb, <- Hns.
    + intros ([|[b s] keys] & Hl & Hw & Hc & ->); [done|]. cbn [length commitment_items] in *.
      apply Forall_cons in Hw as [Hwb Hw]. apply Forall_cons in Hw as [Hws Hw].
      rewrite !items_bytes_cons in Hc. apply consumes_app in Hc as (p1 & Hcb & Hc).
      apply consumes_app in Hc as (p2 & Hcs & Hc). pose proof Hcb as [? Hnb ? ?].
      pose proof Hcs as [? Hns ? ?]. pose proof Hc as [? ? ? ?]. injection Hl as Hl.
      eexists _, p1. rewrite reader_within_Ok, readSection_Ok by (lia || by left). split; [by exists b|].
      rewrite reader_bind_Ok. eexists _, p2. rewrite reader_within_Ok, readSection_Ok by (lia || by left).
      split; [by exists s|]. apply IH; [lia|done|]. exists keys. split_and!; [done..|].
      cbn [sections_at app]. unfold record_sections. cbn [foldl fst sec_Name]. by rewrite <- Hnb, <- Hns.
Qed.
End consumption.

(** ** The index *)

Lemma record_sections_app l1 l2 secs :
  record_sections (l1 ++ l2) secs = record_sections l2 (record_sections l1 secs).
Proof. unfold record_sections. by rewrite foldl_app. Qed.

Definition g1_vectors (pk : proving_key) : list pk_item :=
  vectors G1RawBytes [str "A"; str "B"; str "Z"; str "K"] [pk_A pk; pk_B pk; pk_Z pk; pk_K pk].

Lemma index_sections pk p2 p4 p10 :
  p2 = len (pk_header pk) + len (pk_g1 pk) →
  p4 = p2 + len (items_bytes (g1_vectors pk)) + len (pk_g2 pk) →
  p10 = p4 + len (item_bytes (Vec (str "G2B") G2RawBytes (pk_G2B pk))) + 24 + len (pk_bitmaps pk) + 4 →
  record_sections (sections_at 0 (pk_layout pk)) ∅ =
  record_sections (sections_at p10 (commitment_items 0 (pk_commitments pk)))
    (<[str "G2B" := {| sec_Name := str "G2B"; sec_Offset := p4 + 4; sec_Len := len (pk_G2B pk);
                       sec_ElemSize := G2RawBytes |}]>
      (record_sections (sections_at p2 (g1_vectors pk)) ∅)).
Proof.
  intros -> -> ->. unfold pk_layout.
  change [Vec (str "A") G1RawBytes (pk_A pk); Vec (str "B") G1RawBytes (pk_B pk);
    Vec (str "Z") G1RawBytes (pk_Z pk); Vec (str "K") G1RawBytes (pk_K pk)] with (g1_vectors pk).
  generalize (g1_vectors pk) as vecs. intros vecs. rewrite !sections_at_app, !record_sections_app.
  change (record_sections (sections_at 0 [Raw (pk_header pk); Raw (pk_g1 pk)]) ∅) with (∅ : sections).
  set (g2b := Vec (str "G2B") G2RawBytes (pk_G2B pk)).
  assert (len (items_bytes [Raw (pk_header pk); Raw (pk_g1 pk)]) = len (pk_header pk) + len (pk_g1 pk)) as ->.
  { unfold items_bytes. cbn [item_bytes fmap list_fmap concat]. rewrite !length_app. cbn [length]. lia. }
  match goal with |- context [len (items_bytes (Raw (pk_g2 pk) :: ?l))] =>
    assert (len (items_bytes (Raw (pk_g2 pk) :: l)) =
      len (pk_g2 pk) + len (item_bytes g2b) + 24 + len (pk_bitmaps pk) + 4) as -> end.
  { unfold items_bytes, g2b. cbn [item_bytes fmap list_fmap concat].
    rewrite !length_app, !length_be_bytes. cbn [length]. lia. }
  rewrite Z.add_0_l, !Z.add_assoc. reflexivity.
Qed.

Lemma seek_inv k content pos q pos' : seek_current k content pos = Ok (q, pos') → q = pos' ∧ pos' = pos + k.
Proof. unfold seek_current. destruct (_ || _); [done|]. by intros [= <- <-]. Qed.

Lemma reader_check_Ok c m content pos u pos' : reader_check c m content pos = Ok (u, pos') ↔ c = false ∧ pos' = pos.
Proof. unfold reader_check. destruct c, u; naive_solver. Qed.

Lemma consumes_items content pos i l pos'' : consumes content pos (items_bytes (i :: l)) pos'' ↔
  ∃ pos', consumes content pos (item_bytes i) pos' ∧ consumes content pos' (items_bytes l) pos''.
Proof. rewrite items_bytes_cons. apply consumes_app. Qed.

Lemma consumes_items_app content pos l1 l2 pos'' : consumes content pos (items_bytes (l1 ++ l2)) pos'' ↔
  ∃ pos', consumes content pos (items_bytes l1) pos' ∧ consumes content pos' (items_bytes l2) pos''.
Proof. rewrite items_bytes_app. apply consumes_app. Qed.

Section build.
Context (content : list Z) (Hbytes : Forall is_byte content) (Hsize : len content < 2 ^ 63).

Lemma wires_offset w : 0 <= w <= (2 ^ 63 - 1) / 2 → i64 (w * 2) = 2 * w.
Proof. intros Hw. change ((2 ^ 63 - 1) / 2) with (2 ^ 62 - 1) in Hw. rewrite i64_small; lia. Qed.

Lemma build_index_forward idx pos : build_index content 0 = Ok (idx, pos) →
  ∃ pk, pk_wf pk ∧ content = items_bytes (pk_layout pk) ∧ idx = index_of pk.
Proof.
  unfold build_index. rewrite reader_bind_Ok.
  intros (header & p1 & H1%reader_within_Ok & H). rewrite reader_bind_Ok in H.
  destruct H as (? & p2 & [-> H2]%reader_within_Ok%seek_inv & H). rewrite reader_bind_Ok in H.
  destruct H as (secs & p3 & H3 & H). rewrite reader_bind_Ok in H.
  destruct H as (? & p4 & [-> H4]%reader_within_Ok%seek_inv & H). rewrite reader_bind_Ok in H.
  destruct H as (g2b & p5 & H5%reader_within_Ok & H). rewrite reader_bind_Ok in H.
  destruct H as (w & p6 & H6%reader_within_Ok & H). rewrite reader_bind_Ok in H.
  destruct H as (ia & p7 & H7%reader_within_Ok & H). rewrite reader_bind_Ok in H.
  destruct H as (ib & p8 & H8%reader_within_Ok & H). rewrite reader_bind_Ok in H.
  destruct H as (? & ? & [Hw ->]%reader_check_Ok & H). rewrite reader_bind_Ok in H.
  destruct H as (? & p9 & [-> H9]%reader_within_Ok%seek_inv & H). rewrite reader_bind_Ok in H.
  destruct H as (nk & p10 & H10%reader_within_Ok & H). rewrite reader_bind_Ok in H.
  destruct H as (secs' & p11 & H11 & H). rewrite reader_bind_Ok in H.
  destruct H as (? & p12 & [-> H12]%reader_within_Ok%seek_inv & H). rewrite reader_bind_Ok in H.
  destruct H as (? & ? & [Hend ->]%reader_check_Ok & [= <- _]).
  apply negb_false_iff, Z.eqb_eq in Hend. apply Z.ltb_ge in Hw.
  change (3 * G1RawBytes) with 288 in H2. change (2 * G2RawBytes) with 384 in H4.
  apply (read_full_Ok content 169 0) in H1 as [C1 L1]; [|lia..]. pose proof C1 as [_ N1 _ _].
  pose proof (read_sections_mono content Hbytes _ _ _ p2 _ _ (or_introl eq_refl) ltac:(lia) H3) as M3.
  pose proof (readSection_mono content Hbytes _ _ p4 _ _ (or_intror eq_refl) ltac:(lia) H5) as M5.
  apply (read_be_Ok content Hbytes 8) in H6 as [C6 W6]; [|lia]. pose proof C6 as [_ N6 E6 _].
  apply (read_be_Ok content Hbytes 8) in H7 as [C7 W7]; [|lia]. pose proof C7 as [_ N7 E7 _].
  apply (read_be_Ok content Hbytes 8) in H8 as [C8 W8]; [|lia]. pose proof C8 as [_ N8 E8 _].
  rewrite length_be_bytes in N6, N7, N8. rewrite (wires_offset w) in H9 by lia.
  apply (read_be_Ok content Hbytes 4) in H10 as [C10 W10]; [|lia]. pose proof C10 as [_ N10 E10 _].
  rewrite length_be_bytes in N10.
  pose proof (read_commitments_mono content Hbytes _ _ _ p10 _ _ ltac:(lia) H11) as M11.
  apply (read_sections_Ok content Hbytes Hsize) in H3 as (ps & L3 & F3 & C3 & ->); [|by left|lia|lia].
  destruct ps as [|pA [|pB [|pZ [|pK [|]]]]]; try done.
  apply (readSection_Ok content Hbytes Hsize) in H5 as (pG2B & F5 & C5 & ->); [|by right|lia|lia].
  apply (read_commitments_Ok content Hbytes Hsize) in H11 as (keys & L11 & F11 & C11 & ->); [|lia|lia].
  pose proof C3 as [_ N3 _ _]. pose proof C5 as [_ N5 _ _]. pose proof C11 as [_ N11 _ _].
  set (pk := {| pk_header := header; pk_g1 := slice (p1, p2) content; pk_A := pA; pk_B := pB; pk_Z := pZ;
    pk_K := pK; pk_g2 := slice (p3, p4) content; pk_G2B := pG2B; pk_wires := w; pk_infinityA := ia;
    pk_infinityB := ib; pk_bitmaps := slice (p8, p9) content; pk_commitments := keys |}).
  assert (len (slice (p1, p2) content) = 288) as Lg1 by (rewrite slice_length; cbn; unfold G1RawBytes in *; lia).
  assert (len (slice (p3, p4) content) = 384) as Lg2 by (rewrite slice_length; cbn; unfold G2RawBytes in *; lia).
  assert (len (slice (p8, p9) content) = 2 * w) as Lb by (rewrite slice_length; cbn; lia).
  assert (len keys = nk) as Lk by lia.
  assert (content = items_bytes (pk_layout pk)) as Hc.
  { symmetry. apply (consumes_whole content). unfold pk_layout. rewrite consumes_items_app.
    exists p2. split.
    { rewrite consumes_items. exists p1. split; [done|]. rewrite consumes_items. exists p2.
      split; [apply consumes_slice; unfold G1RawBytes in *; lia|].
      split; [lia|cbn; lia|lia|apply slice_empty]. }
    rewrite consumes_items_app. exists p3. split; [exact C3|]. rewrite consumes_items_app. exists p10. split; [|replace (len content) with p11 by lia; exact C11].
    rewrite consumes_items. exists p4. split; [apply consumes_slice; unfold G2RawBytes in *; lia|].
    rewrite consumes_items. exists p5. split; [exact C5|].
    rewrite consumes_items. exists p6. split; [exact C6|].
    rewrite consumes_items. exists p7. split; [exact C7|].
    rewrite consumes_items. exists p8. split; [exact C8|].
    rewrite consumes_items. exists p9. split; [apply consumes_slice; lia|].
    rewrite consumes_items. exists p10. split; [cbn [item_bytes pk_commitments pk]; by rewrite Lk|].
    split; [lia|cbn; lia|lia|apply slice_empty]. }
  exists pk. split; [|split; [done|]].
  - split; try done; cbn [pk pk_wires pk_infinityA pk_infinityB pk_commitments]; [|lia..].
    unfold pk_layout. rewrite !Forall_app. split_and!; [by repeat constructor|exact F3| |exact F11].
    constructor; [done|]. constructor; [exact F5|]. by repeat constructor.
  - unfold index_of. rewrite <- Hc. f_equal.
    + rewrite (index_sections pk p2 p4 p10); [done|cbn [pk pk_header pk_g1]; unfold G1RawBytes in *; lia| |].
      * cbn [pk pk_g2]. change (g1_vectors pk) with (vectors G1RawBytes [str "A"; str "B"; str "Z"; str "K"] [pA; pB; pZ; pK]).
        unfold G2RawBytes in *. lia.
      * cbn [pk pk_G2B pk_bitmaps]. lia.
    + cbn. lia.
Qed.

Lemma seek_to k pos pos' : 0 <= k → 0 <= pos → pos' = pos + k → pos' <= len content →
  seek_current k content pos = Ok (pos', pos').
Proof. intros. by apply (seek_Ok content Hsize). Qed.

Lemma consumes_len pos x pos' : consumes content pos x pos' → 0 <= pos ∧ pos' = pos + len x ∧ pos' <= len content.
Proof. by intros []. Qed.

Lemma build_index_backward pk : pk_wf pk → content = items_bytes (pk_layout pk) →
  build_index content 0 = Ok (index_of pk, len content).
Proof.
  intros [Lh Lg1 Lg2 Fv Ww Wa Wb Lbm Lk] Hc.
  assert (consumes content 0 (items_bytes (pk_layout pk)) (len content)) as C by (by apply consumes_whole).
  unfold pk_layout in C, Fv. rewrite !Forall_app in Fv. destruct Fv as (_ & F3 & Fg & Fc).
  apply Forall_cons in Fg as [_ Fg]. apply Forall_cons in Fg as [F5 _].
  change [Vec (str "A") G1RawBytes (pk_A pk); Vec (str "B") G1RawBytes (pk_B pk);
    Vec (str "Z") G1RawBytes (pk_Z pk); Vec (str "K") G1RawBytes (pk_K pk)] with (g1_vectors pk) in *.
  apply consumes_items_app in C as (p2 & C1 & C). apply consumes_items in C1 as (p1 & C1 & C2).
  cbn [item_bytes] in C1. rewrite (items_bytes_cons (Raw _) []) in C2. cbn [item_bytes items_bytes fmap list_fmap concat] in C2.
  rewrite app_nil_r in C2. apply consumes_items_app in C as (p3 & C3 & C).
  apply consumes_items_app in C as (p10 & C & C11).
  apply consumes_items in C as (p4 & C4 & C). apply consumes_items in C as (p5 & C5 & C).
  apply consumes_items in C as (p6 & C6 & C). apply consumes_items in C as (p7 & C7 & C).
  apply consumes_items in C as (p8 & C8 & C). apply consumes_items in C as (p9 & C9 & C10).
  rewrite (items_bytes_cons (Raw _) []) in C10. cbn [item_bytes items_bytes fmap list_fmap concat] in C4, C6, C7, C8, C9, C10.
  rewrite app_nil_r in C10.
  pose proof (consumes_len _ _ _ C1) as (? & N1 & E1). pose proof (consumes_len _ _ _ C2) as (? & N2 & E2).
  pose proof (consumes_len _ _ _ C3) as (? & N3 & E3). pose proof (consumes_len _ _ _ C4) as (? & N4 & E4).
  pose proof (consumes_len _ _ _ C5) as (? & N5 & E5). pose proof (consumes_len _ _ _ C6) as (? & N6 & E6).
  pose proof (consumes_len _ _ _ C7) as (? & N7 & E7). pose proof (consumes_len _ _ _ C8) as (? & N8 & E8).
  pose proof (consumes_len _ _ _ C9) as (? & N9 & E9). pose proof (consumes_len _ _ _ C10) as (? & N10 & E10).
  pose proof (consumes_len _ _ _ C11) as (? & N11 & _).
  rewrite length_be_bytes in N6, N7, N8, N10.
  change (3 * G1RawBytes) with 288 in Lg1. change (2 * G2RawBytes) with 384 in Lg2.
  unfold build_index. rewrite reader_bind_Ok. exists (pk_header pk), p1.
  split; [apply reader_within_Ok, read_full_Ok; [done|done|]; by split|].
  rewrite reader_bind_Ok. exists p2, p2. split; [apply reader_within_Ok, seek_to; try done; change (3 * G1RawBytes) with 288; lia|].
  rewrite reader_bind_Ok. eexists _, p3.
  split; [apply (read_sections_Ok content Hbytes Hsize); [by left|done|done|];
    exists [pk_A pk; pk_B pk; pk_Z pk; pk_K pk]; split_and!; [done|exact F3|exact C3|reflexivity]|].
  rewrite reader_bind_Ok. exists p4, p4. split; [apply reader_within_Ok, seek_to; try done; change (2 * G2RawBytes) with 384; lia|].
  rewrite reader_bind_Ok. eexists _, p5.
  split; [apply reader_within_Ok, (readSection_Ok content Hbytes Hsize); [by right|done|done|];
    exists (pk_G2B pk); split_and!; [exact F5|exact C5|reflexivity]|].
  rewrite reader_bind_Ok. exists (pk_wires pk), p6.
  split; [apply reader_within_Ok, (read_be_Ok content Hbytes 8); [done|]; split; [done|]; change (256 ^ Z.of_nat 8) with (2 ^ 64); lia|].
  rewrite reader_bind_Ok. exists (pk_infinityA pk), p7.
  split; [apply reader_within_Ok, (read_be_Ok content Hbytes 8); [done|]; by split|].
  rewrite reader_bind_Ok. exists (pk_infinityB pk), p8.
  split; [apply reader_within_Ok, (read_be_Ok content Hbytes 8); [done|]; by split|].
  rewrite reader_bind_Ok. exists tt, p8. split; [apply reader_check_Ok; split; [apply Z.ltb_ge; lia|done]|].
  rewrite reader_bind_Ok. exists p9, p9.
  split; [apply reader_within_Ok; rewrite wires_offset by done; apply seek_to; lia|].
  rewrite reader_bind_Ok. exists (len (pk_commitments pk)), p10.
  split; [apply reader_within_Ok, (read_be_Ok content Hbytes 4); [done|]; split; [done|]; change (256 ^ Z.of_nat 4) with (2 ^ 32); lia|].
  rewrite reader_bind_Ok. eexists _, (len content).
  split; [apply (read_commitments_Ok content Hbytes Hsize); [done|done|]; exists (pk_commitments pk);
    split_and!; [by rewrite Nat2Z.id|exact Fc|exact C11|reflexivity]|].
  rewrite reader_bind_Ok. exists (len content), (len content).
  split; [apply reader_within_Ok, seek_to; lia|].
  rewrite reader_bind_Ok. exists tt, (len content). split; [apply reader_check_Ok; by rewrite Z.eqb_refl|].
  unfold index_of. rewrite <- Hc. rewrite (index_sections pk p2 p4 p10); [reflexivity|lia|lia|].
  cbn [item_bytes] in *. rewrite !length_app, !length_be_bytes in *. lia.
Qed.

Lemma BuildPKIndex_Ok idx : BuildPKIndex content = Ok idx ↔
  ∃ pk, pk_wf pk ∧ content = items_bytes (pk_layout pk) ∧ idx = index_of pk.
Proof.
  unfold BuildPKIndex. rewrite bind_Ok. split.
  - intros ([idx' pos] & Hb & [= ->]). by apply build_index_forward in Hb.
  - intros (pk & Hw & Hc & ->). exists (index_of pk, len content). split; [|done]. by apply build_index_backward.
Qed.
End build.

(** ** Names *)

Definition item_names (l : list pk_item) : list (list Z) :=
  omap (λ i, match i with Raw _ => None | Vec name _ _ => Some name end) l.

Lemma sections_at_names off l : (λ e : PKSection * list Z, sec_Name e.1) <$> sections_at off l = item_names l.
Proof.
  revert off. induction l as [|[bs|name elem p] l IH]; intros off; [done|exact (IH _)|].
  cbn [sections_at app fmap list_fmap item_names omap list_omap]. f_equal. apply IH.
Qed.

Lemma sections_at_items off l s p : (s, p) ∈ sections_at off l →
  ∃ name elem, Vec name elem p ∈ l ∧ sec_Name s = name ∧ sec_Len s = len p ∧ sec_ElemSize s = elem.
Proof.
  revert off. induction l as [|i l IH]; intros off Hin; [by apply elem_of_nil in Hin|].
  cbn [sections_at] in Hin. apply elem_of_app in Hin as [Hin|Hin].
  - destruct i as [|name elem q]; [by apply elem_of_nil in Hin|].
    apply list_elem_of_singleton in Hin as [= -> ->]. exists name, elem. by split; [left|].
  - apply IH in Hin as (name & elem & ? & ?). exists name, elem. by split; [right|].
Qed.

Lemma record_sections_fresh l secs name : name ∉ ((λ e : PKSection * list Z, sec_Name e.1) <$> l) →
  record_sections l secs !! name = secs !! name.
Proof.
  unfold record_sections. revert secs. induction l as [|[s p] l IH]; intros secs Hn; [done|].
  cbn [foldl fst fmap list_fmap] in *. apply not_elem_of_cons in Hn as [Hne Hn].
  rewrite IH by done. by rewrite lookup_insert_ne.
Qed.

Lemma record_sections_lookup l secs s p : NoDup ((λ e : PKSection * list Z, sec_Name e.1) <$> l) →
  (s, p) ∈ l → record_sections l secs !! sec_Name s = Some s.
Proof.
  revert secs. induction l as [|[s' p'] l IH]; intros secs Hnd Hin; [by apply elem_of_nil in Hin|].
  cbn [fmap list_fmap fst] in Hnd. apply NoDup_cons in Hnd as [Hn Hnd].
  change (record_sections ((s', p') :: l) secs) with (record_sections l (<[sec_Name s' := s']> secs)).
  apply elem_of_cons in Hin as [[= -> ->]|Hin]; [|by apply IH].
  rewrite record_sections_fresh by done. apply lookup_insert_eq.
Qed.

Lemma record_sections_inv l secs name s : record_sections l secs !! name = Some s →
  (∃ p, (s, p) ∈ l ∧ sec_Name s = name) ∨ secs !! name = Some s.
Proof.
  unfold record_sections. revert secs. induction l as [|[s' p'] l IH]; intros secs; [by right|].
  cbn [foldl fst]. intros [(p & Hin & Hn)|Hl]%IH.
  - left. exists p. by split; [right|].
  - destruct (decide (sec_Name s' = name)) as [Heq|Hne].
    + rewrite Heq, lookup_insert_eq in Hl. injection Hl as ->. left. exists p'. by split; [left|].
    + rewrite lookup_insert_ne in Hl by done. by right.
Qed.

Lemma commitmentSectionName_inj base1 base2 i j :
  base1 ∈ [str "Basis"; str "BasisExpSigma"] → base2 ∈ [str "Basis"; str "BasisExpSigma"] →
  0 <= i < 2 ^ 63 → 0 <= j < 2 ^ 63 →
  commitmentSectionName base1 i = commitmentSectionName base2 j → base1 = base2 ∧ i = j.
Proof.
  intros H1 H2 Hi Hj. unfold commitmentSectionName.
  destruct (Z.ltb_spec 0 i), (Z.ltb_spec 0 j);
    rewrite ?elem_of_cons, elem_of_nil in H1; rewrite ?elem_of_cons, elem_of_nil in H2;
    destruct H1 as [->|[->|[]]], H2 as [->|[->|[]]]; intros He;
    try (split; [done|lia]); try discriminate He.
  all: split; [done|]; repeat apply app_inv_head in He; apply Itoa_inj; try lia; done.
Qed.

Lemma commitment_names i keys name : 0 <= i → i + len keys < 2 ^ 63 → name ∈ item_names (commitment_items i keys) →
  ∃ base j, base ∈ [str "Basis"; str "BasisExpSigma"] ∧ i <= j < i + len keys ∧
    name = commitmentSectionName base j.
Proof.
  revert i. induction keys as [|[b s] keys IH]; intros i Hi Hmax; [intros []%elem_of_nil|].
  cbn [commitment_items item_names omap list_omap length] in *. intros [->|[->|Hin]%elem_of_cons]%elem_of_cons.
  - exists (str "Basis"), i. split; [by left|]. split; [lia|done].
  - exists (str "BasisExpSigma"), i. split; [by right; left|]. split; [lia|done].
  - apply IH in Hin as (base & j & ? & ? & ?); [|lia..]. exists base, j. split_and!; try done; lia.
Qed.

Lemma commitment_names_NoDup i keys : 0 <= i → i + len keys < 2 ^ 63 → NoDup (item_names (commitment_items i keys)).
Proof.
  revert i. induction keys as [|[b s] keys IH]; intros i Hi Hmax; [constructor|].
  cbn [commitment_items item_names omap list_omap length] in *.
  assert (∀ base, base ∈ [str "Basis"; str "BasisExpSigma"] →
    commitmentSectionName base i ∉ item_names (commitment_items (i + 1) keys)) as Hno.
  { intros base Hb (base' & j & Hb' & Hj & He)%commitment_names; [|lia..].
    apply commitmentSectionName_inj in He as [_ ->]; try done; lia. }
  apply NoDup_cons. split; [|apply NoDup_cons; split; [apply Hno; by right; left|apply IH; lia]].
  intros [He|Hin]%elem_of_cons; [|by apply (Hno (str "Basis")); [left|]].
  apply commitmentSectionName_inj in He as [? _]; [done|by left|by right; left|lia..].
Qed.

Lemma layout_names pk : pk_wf pk → NoDup (item_names (pk_layout pk)).
Proof.
  intros Hw. pose proof (wf_commitments pk Hw).
  change (item_names (pk_layout pk)) with
    ([str "A"; str "B"; str "Z"; str "K"; str "G2B"] ++ item_names (commitment_items 0 (pk_commitments pk))).
  apply NoDup_app. split_and!; [by apply (bool_decide_unpack _)| |apply commitment_names_NoDup; lia].
  intros name Hn (base & j & Hb & _ & ->)%commitment_names; [|lia..]. unfold commitmentSectionName in Hn.
  rewrite !elem_of_cons, !elem_of_nil in Hb. rewrite !elem_of_cons, !elem_of_nil in Hn.
  destruct (0 <? j), Hb as [->|[->|[]]]; repeat destruct Hn as [Hn|Hn]; done.
Qed.

Lemma layout_elems pk name elem p : Vec name elem p ∈ pk_layout pk → point_elem elem.
Proof.
  unfold pk_layout. rewrite !elem_of_app, !elem_of_cons, elem_of_nil. intros Hin.
  assert (∀ i keys, Vec name elem p ∈ commitment_items i keys → elem = G1RawBytes) as Hk.
  { clear. intros i keys. revert i. induction keys as [|[b s] keys IH]; intros i; [intros []%elem_of_nil|].
    cbn [commitment_items]. intros [[= -> -> ->]|[[= -> -> ->]|Hin]%elem_of_cons]%elem_of_cons; [done..|by apply IH in Hin]. }
  unfold point_elem. naive_solver.
Qed.

(** ** The index is valid *)

Lemma index_lookup pk s p : pk_wf pk → (s, p) ∈ sections_at 0 (pk_layout pk) →
  ix_Sections (index_of pk) !! sec_Name s = Some s.
Proof.
  intros Hw Hin. cbn [ix_Sections index_of]. apply (record_sections_lookup _ _ s p); [|done].
  rewrite sections_at_names. by apply layout_names.
Qed.

Lemma index_inv pk name s : ix_Sections (index_of pk) !! name = Some s →
  ∃ p, (s, p) ∈ sections_at 0 (pk_layout pk) ∧ sec_Name s = name.
Proof.
  intros [H|H]%record_sections_inv; [done|]. by rewrite lookup_empty in H.
Qed.

Lemma name_has_section name off l : name ∈ item_names l → ∃ s p, (s, p) ∈ sections_at off l ∧ sec_Name s = name.
Proof.
  rewrite <- (sections_at_names off), list_elem_of_fmap. intros ([s p] & -> & Hin). by exists s, p.
Qed.

Lemma layout_section pk s p : pk_wf pk → (s, p) ∈ sections_at 0 (pk_layout pk) →
  ∃ count, 0 <= count < 2 ^ 32 ∧ point_elem (sec_ElemSize s) ∧ sec_Len s = count * sec_ElemSize s ∧
    len p = sec_Len s ∧ 0 <= sec_Offset s ∧ sec_Offset s + sec_Len s <= len (items_bytes (pk_layout pk)) ∧
    slice (sec_Offset s, sec_Offset s + sec_Len s) (items_bytes (pk_layout pk)) = p.
Proof.
  intros Hw Hin. destruct (sections_at_slice [] _ _ _ Hin) as (Hs & Hl & H0 & He).
  apply sections_at_items in Hin as (name & elem & Hv & _ & _ & ->).
  pose proof (layout_elems _ _ _ _ Hv) as Hp. 
  destruct (proj1 (Forall_forall _ _) (wf_vectors pk Hw) _ Hv) as (count & Hc & Hlen). exists count. cbn in *. split_and!; try done; lia.
Qed.

Lemma item_names_nonempty pk name : pk_wf pk → name ∈ item_names (pk_layout pk) → name ≠ [].
Proof.
  intros Hw. pose proof (wf_commitments pk Hw).
  change (item_names (pk_layout pk)) with
    ([str "A"; str "B"; str "Z"; str "K"; str "G2B"] ++ item_names (commitment_items 0 (pk_commitments pk))).
  intros [Hn|Hn]%elem_of_app.
  - rewrite !elem_of_cons, elem_of_nil in Hn. repeat destruct Hn as [->|Hn]; done.
  - apply commitment_names in Hn as (base & j & Hb & _ & ->); [|lia..].
    rewrite !elem_of_cons, elem_of_nil in Hb. unfold commitmentSectionName.
    by destruct (0 <? j), Hb as [->|[->|[]]].
Qed.

Lemma layout_length pk : pk_wf pk → 0 < len (items_bytes (pk_layout pk)).
Proof.
  intros Hw. unfold pk_layout. cbn [app]. rewrite items_bytes_cons, length_app. cbn [item_bytes].
  pose proof (wf_header pk Hw). unfold DomainHeaderBytes in *. lia.
Qed.

Lemma index_valid `{MapOrder} pk : pk_wf pk → len (items_bytes (pk_layout pk)) < 2 ^ 63 →
  ValidatePKIndex (index_of pk) = Ok tt.
Proof.
  intros Hw Hsize. pose proof (layout_length pk Hw). unfold ValidatePKIndex. autorewrite with checks.
  cbn [ix_FileSize index_of]. split_and!; [apply Z.leb_gt; lia| |].
  - apply each_from_Ok. intros k name Hk. apply list_elem_of_lookup_2 in Hk. apply check_Ok, bool_decide_eq_false.
    assert (name ∈ item_names (pk_layout pk)) as Hn.
    { change (item_names (pk_layout pk)) with (required_sections ++ item_names (commitment_items 0 (pk_commitments pk))).
      apply elem_of_app. by left. }
    apply (name_has_section name 0) in Hn as (s & p & Hin & <-).
    by rewrite (index_lookup pk s p).
  - apply each_from_Ok. intros k [name s] Hk. apply list_elem_of_lookup_2 in Hk.
    rewrite map_order_perm in Hk. apply elem_of_map_to_list, index_inv in Hk as (p & Hin & <-).
    assert (sec_Name s ∈ item_names (pk_layout pk)) as Hn.
    { rewrite <- (sections_at_names 0). apply list_elem_of_fmap. by exists (s, p). }
    apply item_names_nonempty in Hn; [|done].
    pose proof (layout_section pk s p Hw Hin) as (count & Hc & He & Hl & _ & Hoff & Hend & _).
    assert (0 <= sec_Len s) by (rewrite Hl; destruct He as [->| ->]; unfold G1RawBytes, G2RawBytes; lia).
    unfold validate_section. autorewrite with checks. split_and!; tests_out; try (done || lia).
    + apply andb_false_iff. destruct He as [->| ->]; [by left|by right].
    + rewrite Hl. apply Z.rem_mul. destruct He as [->| ->]; done.
    + rewrite i64_small; lia.
Qed.

(** C23 A proving key opens, and nothing else does: a file that opens is a domain, the three
    points, the four vectors of G1, the two points, the vector of G2, the wires and the
    commitment keys, to the last byte, and its index is the positions of the vectors. *)
Theorem OpenFile_exact `{MapOrder} content s : Forall is_byte content → len content < 2 ^ 63 →
  OpenFile content = Ok s ↔
  ∃ pk, pk_wf pk ∧ content = items_bytes (pk_layout pk) ∧
    s = {| src_idx := index_of pk; src_ra := file_reader content |}.
Proof.
  intros Hb Hsize. unfold OpenFile. rewrite bind_Ok. split.
  - intros (idx & (pk & Hw & -> & ->)%BuildPKIndex_Ok & Hr); [|done..].
    apply bind_Ok in Hr as ([] & _ & [= <-]). by exists pk.
  - intros (pk & Hw & -> & ->). exists (index_of pk). split; [apply BuildPKIndex_Ok; try done; by exists pk|].
    apply bind_Ok. exists tt. split; [|done]. by apply index_valid.
Qed.

(** ** Readers *)

(** The reader gives the bytes of the content. *)
Definition serves (ra : ReaderAt) (content : list Z) : Prop :=
  ∀ n off, 0 <= n → 0 <= off → off + n <= len content → ra n off = Ok (slice (off, off + n) content).

(** A server that has the content and answers with the range, or with all of it. *)
Definition honest (server : http_server) (content : list Z) : Prop :=
  ∀ off last, 0 <= off <= last → last < len content →
    server off last = Ok (206, slice (off, last + 1) content) ∨ server off last = Ok (200, content).

Lemma file_serves content : serves (file_reader content) content.
Proof.
  intros n off Hn Ho He. unfold file_reader.
  rewrite (proj2 (Z.ltb_ge off 0)), (proj2 (Z.ltb_ge (len content) (off + n))) by lia.
  by rewrite andb_false_r.
Qed.

Lemma body_full_Ok n body : 0 <= n <= len body → body_full n body = Ok (take (Z.to_nat n) body).
Proof. intros Hn. unfold body_full. by rewrite (proj2 (Z.ltb_ge (len body) n)) by lia. Qed.

Lemma http_serves server st content : honest server content → serves (http_reader server st) content.
Proof.
  intros Hh n off Hn Ho He. unfold http_reader, httpRangeAt_ReadAt.
  destruct (Z.eqb_spec n 0) as [->|Hne]; [by rewrite Z.add_0_r, slice_empty|].
  destruct (Hh off (off + n - 1)) as [-> | ->]; try lia; cbn [Z.eqb Pos.eqb].
  - replace (off + n - 1 + 1) with (off + n) by lia. cbn [fst].
    assert (len (slice (off, off + n) content) = n) as Hl by (rewrite slice_length; cbn; lia).
    rewrite body_full_Ok by lia. f_equal. apply take_ge. lia.
  - rewrite (proj2 (Z.ltb_ge (len content) off)) by lia. cbn [fst].
    rewrite body_full_Ok by (rewrite length_drop; lia). unfold slice. cbn. do 2 f_equal. lia.
Qed.

Section reads.
Context (pk : proving_key) (Hw : pk_wf pk) (Hsize : len (items_bytes (pk_layout pk)) < 2 ^ 63).
Context (ra : ReaderAt) (Hra : serves ra (items_bytes (pk_layout pk))).
Abbreviation source := {| src_idx := index_of pk; src_ra := ra |}.

Lemma SectionBytes_read s p maxBytes : (s, p) ∈ sections_at 0 (pk_layout pk) →
  SectionBytes source (sec_Name s) maxBytes =
  if (0 <=? maxBytes) && (maxBytes <? len p) then Err (Fail "section %q is %d bytes, max is %d") else Ok p.
Proof.
  intros Hin. pose proof (layout_section pk s p Hw Hin) as (count & Hc & He & Hl & Hlen & H0 & Hend & Hs).
  unfold SectionBytes. cbn [src_idx src_ra]. rewrite (index_lookup pk s p) by done. rewrite Hlen.
  destruct (_ && _); [done|]. cbn. rewrite Hra by lia. by rewrite Hs.
Qed.

Lemma slice_slice {A} a b c d (l : list A) : 0 <= a → 0 <= c <= d → a + d <= b →
  slice (c, d) (slice (a, b) l) = slice (a + c, a + d) l.
Proof.
  intros Ha Hc Hd. unfold slice. cbn [fst snd]. rewrite skipn_firstn_comm, drop_drop, take_take.
  do 2 f_equal; [|f_equal]; lia.
Qed.

Lemma SectionRange_read s p lo hi : (s, p) ∈ sections_at 0 (pk_layout pk) →
  SectionRange source (sec_Name s) lo hi =
  if (0 <=? lo) && (lo <=? hi) && (hi <=? len p / sec_ElemSize s)
  then Ok (slice (lo * sec_ElemSize s, hi * sec_ElemSize s) p)
  else Err (Fail "section range %q [%d,%d) out of bounds (len=%d)").
Proof.
  intros Hin. pose proof (layout_section pk s p Hw Hin) as (count & Hc & He & Hl & Hlen & H0 & Hend & Hs).
  assert (0 < sec_ElemSize s <= 192) as Hpos by (destruct He as [->| ->]; done).
  unfold SectionRange. cbn [src_idx src_ra]. rewrite (index_lookup pk s p) by done.
  rewrite Hlen, Hl, Z.quot_mul, Z.div_mul by lia.
  destruct (Z.leb_spec 0 lo), (Z.ltb_spec lo 0), (Z.leb_spec lo hi), (Z.ltb_spec hi lo),
    (Z.leb_spec hi count), (Z.ltb_spec count hi); try lia; try done.
  cbn [orb andb check guard_err mbind result_bind].
  rewrite Z.mul_sub_distr_r.
  assert (0 <= lo * sec_ElemSize s) as Ha by (by apply Z.mul_nonneg_nonneg; lia).
  assert (lo * sec_ElemSize s <= hi * sec_ElemSize s) as Hb by (apply Z.mul_le_mono_nonneg_r; lia).
  assert (hi * sec_ElemSize s <= sec_Len s) as Hd by (rewrite Hl; apply Z.mul_le_mono_nonneg_r; lia).
  rewrite <- Hs. generalize dependent (hi * sec_ElemSize s). generalize dependent (lo * sec_ElemSize s).
  intros a Ha b Hab Hb. rewrite (i64_small a), (i64_small (b - a)), i64_small by lia. destruct (Z.eqb_spec (b - a) 0).
  - assert (a = b) as -> by lia. by rewrite slice_empty.
  - rewrite Hra by lia. cbn. f_equal. rewrite slice_slice by lia. f_equal. f_equal; lia.
Qed.
End reads.

(** C39 Reading a section: through any reader that gives the bytes of the key, a section is the
    payload it was indexed for, unless it is larger than the caller allows; a range of a
    section is the bytes of the points from [lo] to [hi], an error exactly when [lo] and
    [hi] are not a range of its points; and ranges that tile the section give it back. *)
Theorem SectionRange_exact pk ra s p maxBytes lo hi rs : pk_wf pk → len (items_bytes (pk_layout pk)) < 2 ^ 63 →
  serves ra (items_bytes (pk_layout pk)) → (s, p) ∈ sections_at 0 (pk_layout pk) →
  tiles 0 (len p / sec_ElemSize s) rs →
  let source := {| src_idx := index_of pk; src_ra := ra |} in
  SectionBytes source (sec_Name s) maxBytes =
    (if (0 <=? maxBytes) && (maxBytes <? len p) then Err (Fail "section %q is %d bytes, max is %d") else Ok p) ∧
  SectionRange source (sec_Name s) lo hi =
    (if (0 <=? lo) && (lo <=? hi) && (hi <=? len p / sec_ElemSize s)
     then Ok (slice (lo * sec_ElemSize s, hi * sec_ElemSize s) p)
     else Err (Fail "section range %q [%d,%d) out of bounds (len=%d)")) ∧
  ∃ pieces, Forall2 (λ r b, SectionRange source (sec_Name s) r.1 r.2 = Ok b) rs pieces ∧ concat pieces = p.
Proof.
  intros Hw Hsize Hra Hin Ht source. split; [by apply SectionBytes_read|]. split; [by apply SectionRange_read|].
  pose proof (layout_section pk s p Hw Hin) as (count & Hc & He & Hl & Hlen & _).
  assert (0 < sec_ElemSize s) as Hpos by (destruct He as [->| ->]; done).
  set (scale := λ r : range, (r.1 * sec_ElemSize s, r.2 * sec_ElemSize s)).
  exists ((λ r, slice (scale r) p) <$> rs). split.
  - apply Forall2_fmap_r, Forall_Forall2_diag, Forall_forall. intros r Hr.
    pose proof (tiles_inside _ _ _ _ Ht Hr). unfold source. rewrite (SectionRange_read pk Hw Hsize ra Hra s p) by done.
    by rewrite !(proj2 (Z.leb_le _ _)) by lia.
  - rewrite Hlen, Hl, Z.div_mul in Ht by lia.
    rewrite (list_fmap_compose scale (λ r, slice r p)). apply tiles_whole. rewrite Hlen, Hl.
    clear -Ht Hpos. change (tiles (0 * sec_ElemSize s) (count * sec_ElemSize s) (scale <$> rs)).
    revert Ht. generalize 0. induction rs as [|[x y] rs IH]; intros a; cbn; [by intros ->|].
    intros (-> & Hy & Ht). split_and!; [done|nia|by apply IH].
Qed.

(** A key that is read over HTTP is the file: from a server that has the file, whether it
    answers with the range or with the whole file, the index opens and every read of a
    section of the index gives what the file gives. *)
Theorem OpenURL_reads_as_file `{MapOrder} content server st s : Forall is_byte content → len content < 2 ^ 63 →
  OpenFile content = Ok s → honest server content →
  ∃ s', OpenURL (src_idx s) server st = Ok s' ∧ ∀ name maxBytes lo hi,
    SectionBytes s' name maxBytes = SectionBytes s name maxBytes ∧
    SectionRange s' name lo hi = SectionRange s name lo hi.
Proof.
  intros Hb Hsize Ho Hh. unfold OpenFile in Ho. apply bind_Ok in Ho as (idx & Hi & Hr).
  apply BuildPKIndex_Ok in Hi as (pk & Hw & Hc & ->); [|done..].
  apply bind_Ok in Hr as ([] & Hv & [= <-]). cbn [src_idx]. rewrite Hc in Hsize.
  exists {| src_idx := index_of pk; src_ra := http_reader server st |}.
  split; [apply bind_Ok; by exists tt|]. intros name maxBytes lo hi.
  pose proof (http_serves server st content Hh) as Hu. pose proof (file_serves content) as Hf.
  rewrite Hc in Hu, Hf |- *. destruct (ix_Sections (index_of pk) !! name) as [sec|] eqn:Hn.
  - apply index_inv in Hn as (p & Hin & <-).
    split; [rewrite !(SectionBytes_read pk Hw) with (p := p)|rewrite !(SectionRange_read pk Hw Hsize) with (p := p)]; done.
  - unfold SectionBytes, SectionRange. cbn [src_idx]. by rewrite Hn.
Qed.
