(* ===== verification/KeySource.v ===== *)
(** * A proving key that stays in its file: [internal/streampk/keysource.go]

    [OpenKeyFile] and [OpenKeyURL] read the small fields of a proving key through its
    index and leave the vectors of points where they are; [G1], [G2], [G1Range] and
    [G2Range] decode them, whole or in part, when the prover asks. *)
From stdpp Require Import strings gmap.
From S2P Require Import Prelude.
From S2P Require Import GoText.
From S2P Require Import GoError.
From S2P Require Import Ranges.
From S2P Require Import Msm.
From S2P Require Import PkIndex.
From S2P Require Import PkIndexCorrect.

(** ** gnark-crypto *)

(** [curve.NewDecoder(r, curve.NoSubgroupChecks())]: [Decode(&p)] of one point, with what
    it leaves unread, and [Decode(&points)] of a slice with its length before it. *)
Class PointDecoder {SF : ScalarField} (G : @CurveGroup SF) := {
  decode_point : list Z → result go_error (Affine * list Z);
  decode_points : list Z → result go_error (list Affine);
}.

(** [fft.Domain]; [dom_read precompute] is [ReadFrom] or [ReadFromWithoutPrecompute], with
    what it leaves unread, and [dom_new] is [fft.NewDomain] without tables. *)
Class FFTDomain := {
  Domain : Type;
  Element : Type;
  Element_eq_dec :: EqDecision Element;
  dom_Cardinality : Domain → Z;
  dom_CardinalityInv : Domain → Element;
  dom_Generator : Domain → Element;
  dom_GeneratorInv : Domain → Element;
  dom_FrMultiplicativeGen : Domain → Element;
  dom_FrMultiplicativeGenInv : Domain → Element;
  dom_read : bool → list Z → result go_error (Domain * list Z);
  dom_generator : Z → result go_error Element;
  dom_new : Z → Domain;
}.

Section domain.
Context `{FFTDomain}.

Definition element_differs (a b : Element) : bool := bool_decide (a ≠ b).

Definition validateCanonicalDomain (domain : Domain) : checked :=
  let n := dom_Cardinality domain in
  _ ← check ((n =? 0) || negb (Z.land n (u64 (n - 1)) =? 0))
        "canonical field cardinality mismatch: %d is not a power of two";
  _ ← within "canonical field cardinality mismatch" (dom_generator n);
  let expected := dom_new n in
  _ ← check (negb (n =? dom_Cardinality expected)) "canonical field cardinality mismatch";
  _ ← check (element_differs (dom_CardinalityInv domain) (dom_CardinalityInv expected))
        "canonical field cardinalityInv mismatch";
  _ ← check (element_differs (dom_Generator domain) (dom_Generator expected))
        "canonical field generator mismatch";
  _ ← check (element_differs (dom_GeneratorInv domain) (dom_GeneratorInv expected))
        "canonical field generatorInv mismatch";
  _ ← check (element_differs (dom_FrMultiplicativeGen domain) (dom_FrMultiplicativeGen expected))
        "canonical field shift mismatch";
  check (element_differs (dom_FrMultiplicativeGenInv domain) (dom_FrMultiplicativeGenInv expected))
    "canonical field shiftInv mismatch".

Definition decodeDomainHeader (header : list Z) (precompute : bool) : result go_error Domain :=
  _ ← check (negb (Z.of_nat (length header) =? DomainHeaderBytes)) "decode domain: header size %d, want %d";
  _ ← check (1 <? nth (Z.to_nat (DomainHeaderBytes - 1)) header 0)
        "decode domain: precompute flag byte %d is not canonical";
  '(domain, rest) ← within "decode domain" (dom_read precompute header);
  _ ← check (negb (length rest =? 0)%nat) "decode domain: %d trailing bytes";
  _ ← within "decode domain" (validateCanonicalDomain domain);
  Ok domain.
End domain.

(** ** A section of points *)

Section points.
Context {SF : ScalarField} (G : @CurveGroup SF) {D : PointDecoder G}.

(** [decodeG1Section] and [decodeG2Section]: the points of a section, with the length the
    decoder expects put before them. *)
Definition decode_section (label : string) (bytes : list Z) (nPoints : Z) : result go_error (list Affine) :=
  within label (decode_points (PrefixLength nPoints ++ bytes)).

(** [G1(name)] and [G2(name)], of points of [rawBytes] bytes.  The section reader gives
    the decoder the bytes of the section, in pieces of the buffer's size. *)
Definition section_points (label : string) (rawBytes : Z) (s : Source) (name : list Z) :
    result go_error (list Affine) :=
  match ix_Sections (src_idx s) !! name with
  | None => Err (Fail "section %q not found")
  | Some sec =>
      let nPoints := Z.quot (sec_Len sec) rawBytes in
      bytes ← within label (src_ra s (sec_Len sec) (sec_Offset sec));
      decode_section label bytes nPoints
  end.

(** [G1Range(name, lo, hi)] and [G2Range]. *)
Definition section_range_points (label : string) (s : Source) (name : list Z) (lo hi : Z) :
    result go_error (list Affine) :=
  match ix_Sections (src_idx s) !! name with
  | None => Err (Fail "section %q not found")
  | Some sec =>
      let nTotal := Z.quot (sec_Len sec) (sec_ElemSize sec) in
      _ ← check ((lo <? 0) || (hi <? lo) || (nTotal <? hi)) "range %s [%d,%d) out of bounds (len=%d)";
      let nPoints := hi - lo in
      if nPoints =? 0 then Ok [] else
      let off := i64 (sec_Offset sec + i64 (lo * sec_ElemSize sec)) in
      let length := i64 (nPoints * sec_ElemSize sec) in
      bytes ← within label (src_ra s length off);
      decode_section label bytes nPoints
  end.

(** [n] times [Decode(&p)] from one decoder. *)
Fixpoint decode_singletons (n : nat) (bytes : list Z) : result go_error (list Affine) :=
  match n with
  | O => Ok []
  | S n => '(p, rest) ← decode_point bytes; ps ← decode_singletons n rest; Ok (p :: ps)
  end.
End points.

(** ** The key source *)

Section keysource.
Context {SF : ScalarField} (G1 G2 : @CurveGroup SF) {D1 : PointDecoder G1} {D2 : PointDecoder G2}.
Context `{FFTDomain} `{MapOrder}.

Record KeySource := {
  ks_source : Source;
  ks_domain : Domain;
  ks_g1 : list (@Affine _ G1);      (* alpha, beta, delta *)
  ks_g2 : list (@Affine _ G2);      (* beta, delta *)
  ks_infinityA : list bool;
  ks_infinityB : list bool;
  ks_nbCommitmentKeys : Z }.

(** A section of the index that validation required; a Go map gives the zero value for a
    missing key. *)
Definition section_or_zero (idx : PKIndex) (name : list Z) : PKSection :=
  default {| sec_Name := []; sec_Offset := 0; sec_Len := 0; sec_ElemSize := 0 |} (ix_Sections idx !! name).

Definition loadSmallFields (source : Source) (precompute : bool) : result go_error KeySource :=
  let idx := src_idx source in
  _ ← ValidatePKIndex idx;
  domainBuf ← within "read domain header" (src_ra source DomainHeaderBytes 0);
  domain ← decodeDomainHeader domainBuf precompute;
  g1Singletons ← within "read G1 singletons" (src_ra source (3 * G1RawBytes) DomainHeaderBytes);
  g1 ← within "decode G1 singletons" (decode_singletons G1 3 g1Singletons);
  let kSec := section_or_zero idx (str "K") in
  let g2Off := i64 (sec_Offset kSec + sec_Len kSec) in
  g2Singletons ← within "read G2 singletons" (src_ra source (2 * G2RawBytes) g2Off);
  g2 ← within "decode G2 singletons" (decode_singletons G2 2 g2Singletons);
  let g2bSec := section_or_zero idx (str "G2B") in
  let infOff := i64 (sec_Offset g2bSec + sec_Len g2bSec) in
  _ ← check ((2 ^ 31 - 1) / 2 <? ix_NbWires idx) "nbWires %d overflows int on wasm32";
  let nbWires := ix_NbWires idx in
  infBuf ← within "read infinity bitmaps" (src_ra source (24 + 2 * nbWires) infOff);
  Ok {| ks_source := source; ks_domain := domain; ks_g1 := g1; ks_g2 := g2;
        ks_infinityA := (λ b, negb (b =? 0)) <$> slice (24, 24 + nbWires) infBuf;
        ks_infinityB := (λ b, negb (b =? 0)) <$> slice (24 + nbWires, 24 + 2 * nbWires) infBuf;
        ks_nbCommitmentKeys := ix_NbCommitmentKeys idx |}.

Definition OpenKeyFile (content : list Z) (precompute : bool) : result go_error KeySource :=
  idx ← BuildPKIndex content;
  loadSmallFields {| src_idx := idx; src_ra := file_reader content |} precompute.

Definition OpenKeyURL (idx : PKIndex) (server : http_server) (st : RangeStats) (precompute : bool) :
    result go_error KeySource :=
  _ ← ValidatePKIndex idx;
  within "open proving key URL %s"
    (loadSmallFields {| src_idx := idx; src_ra := http_reader server st |} precompute).

Definition ks_G1 (ks : KeySource) : list Z → result go_error (list (@Affine _ G1)) :=
  section_points G1 "decode G1 section" G1RawBytes (ks_source ks).
Definition ks_G2 (ks : KeySource) : list Z → result go_error (list (@Affine _ G2)) :=
  section_points G2 "decode G2 section" G2RawBytes (ks_source ks).
Definition G1Range (ks : KeySource) : list Z → Z → Z → result go_error (list (@Affine _ G1)) :=
  section_range_points G1 "decode G1 section" (ks_source ks).
Definition G2Range (ks : KeySource) : list Z → Z → Z → result go_error (list (@Affine _ G2)) :=
  section_range_points G2 "decode G2 section" (ks_source ks).

Definition SectionPointCount (ks : KeySource) (name : list Z) : result go_error Z :=
  match ix_Sections (src_idx (ks_source ks)) !! name with
  | None => Err (Fail "section %q not found")
  | Some sec => Ok (Z.quot (sec_Len sec) (sec_ElemSize sec))
  end.

(** [for i := 0; i < int(ks.idx.NbCommitmentKeys); i++], appending a count each, [n]
    iterations from [i]. *)
Fixpoint commitment_counts (ks : KeySource) (base : list Z) (n : nat) (i : Z) : result go_error (list Z) :=
  match n with
  | O => Ok []
  | S n =>
      c ← SectionPointCount ks (commitmentSectionName base i);
      cs ← commitment_counts ks base n (i + 1);
      Ok (c :: cs)
  end.

(** The multi-exponentiations of one proof, in call order. *)
Definition ProveMSMScalarTotals (ks : KeySource) : result go_error (list Z) :=
  let k := Z.to_nat (ix_NbCommitmentKeys (src_idx (ks_source ks))) in
  basis ← commitment_counts ks (str "Basis") k 0;
  sigma ← commitment_counts ks (str "BasisExpSigma") k 0;
  g2b ← SectionPointCount ks (str "G2B");
  a ← SectionPointCount ks (str "A");
  b ← SectionPointCount ks (str "B");
  zCount ← SectionPointCount ks (str "Z");
  let sizeH := i64 (u64 (dom_Cardinality (ks_domain ks) - 1)) in
  _ ← check ((sizeH <? 0) || (zCount <? sizeH)) "section H size %d outside section Z length %d";
  kCount ← SectionPointCount ks (str "K");
  Ok (basis ++ sigma ++ [g2b; a; b] ++ [sizeH; kCount]).
End keysource.

(** * A streamed key gives the points of the key

    What [loadSmallFields] reads at the offsets it computes are the small fields, every
    vector and every part of a vector decodes to the points that were written, and a
    multi-exponentiation over a streamed vector is the one over the vector. *)

(** ** The documented behaviour of the decoder: raw points are read back. *)
Class PointDecoderLaws {SF : ScalarField} (G : @CurveGroup SF) `{!PointDecoder G} := {
  decode_point_raw p rest : decode_point (RawBytes p ++ rest) = Ok (p, rest);
  decode_points_raw ps : Z.of_nat (length ps) < 2 ^ 32 →
    decode_points (be_bytes 4 (Z.of_nat (length ps)) ++ concat (RawBytes <$> ps)) = Ok ps;
}.

(** ** Where things are *)

Lemma layout_slice l1 l2 l3 :
  slice (len (items_bytes l1), len (items_bytes l1) + len (items_bytes l2)) (items_bytes (l1 ++ l2 ++ l3)) =
  items_bytes l2.
Proof.
  rewrite !items_bytes_app. unfold slice. cbn [fst snd].
  rewrite drop_app_length' by lia. apply take_app_length'. lia.
Qed.

Lemma serves_items ra l1 l2 l3 n off : serves ra (items_bytes (l1 ++ l2 ++ l3)) →
  off = len (items_bytes l1) → n = len (items_bytes l2) → ra n off = Ok (items_bytes l2).
Proof.
  intros Hra -> ->. rewrite Hra; [by rewrite layout_slice|lia|lia|].
  rewrite !items_bytes_app, !length_app. lia.
Qed.

(** A vector that is followed by [l2] ends where [l2] starts. *)
Lemma section_end pk l1 name elem p l2 : pk_wf pk → pk_layout pk = l1 ++ Vec name elem p :: l2 →
  section_or_zero (index_of pk) name =
  {| sec_Name := name; sec_Offset := len (items_bytes l1) + 4; sec_Len := len p; sec_ElemSize := elem |} ∧
  len (items_bytes l1) + 4 + len p = len (items_bytes (l1 ++ [Vec name elem p])).
Proof.
  intros Hw Hl. split.
  - unfold section_or_zero. set (s := {| sec_Name := name |}).
    change name with (sec_Name s). rewrite (index_lookup pk s p); [done|done|].
    rewrite Hl, sections_at_app. apply elem_of_app. right. cbn [sections_at app]. by left.
  - rewrite items_bytes_app, items_bytes_cons, !length_app. cbn [item_bytes].
    rewrite length_app, length_be_bytes. cbn. lia.
Qed.

Lemma read_after pk ra l1 name elem p l2 l3 n : pk_wf pk → len (items_bytes (pk_layout pk)) < 2 ^ 63 →
  serves ra (items_bytes (pk_layout pk)) → pk_layout pk = l1 ++ Vec name elem p :: l2 ++ l3 →
  n = len (items_bytes l2) →
  let sec := section_or_zero (index_of pk) name in
  ra n (i64 (sec_Offset sec + sec_Len sec)) = Ok (items_bytes l2).
Proof.
  intros Hw Hsize Hra Hl Hn sec. destruct (section_end pk l1 name elem p (l2 ++ l3) Hw Hl) as [Hs He].
  assert (pk_layout pk = (l1 ++ [Vec name elem p]) ++ l2 ++ l3) as Hl' by (by rewrite Hl, <- app_assoc).
  rewrite Hl' in Hra, Hsize. apply (serves_items ra _ _ _ _ _ Hra); [|done].
  unfold sec. rewrite Hs. cbn [sec_Offset sec_Len]. rewrite He.
  rewrite items_bytes_app, length_app in Hsize. apply i64_small. lia.
Qed.

Lemma small_fields_at pk ra : pk_wf pk → len (items_bytes (pk_layout pk)) < 2 ^ 63 →
  serves ra (items_bytes (pk_layout pk)) →
  let k := section_or_zero (index_of pk) (str "K") in
  let g2b := section_or_zero (index_of pk) (str "G2B") in
  ra DomainHeaderBytes 0 = Ok (pk_header pk) ∧
  ra (3 * G1RawBytes) DomainHeaderBytes = Ok (pk_g1 pk) ∧
  ra (2 * G2RawBytes) (i64 (sec_Offset k + sec_Len k)) = Ok (pk_g2 pk) ∧
  ra (24 + 2 * pk_wires pk) (i64 (sec_Offset g2b + sec_Len g2b)) =
    Ok (be_bytes 8 (pk_wires pk) ++ be_bytes 8 (pk_infinityA pk) ++ be_bytes 8 (pk_infinityB pk) ++ pk_bitmaps pk).
Proof.
  intros Hw Hsize Hra k g2b. subst k g2b. pose proof Hw as [Lh Lg1 Lg2 _ Ww _ _ Lb _].
  assert (∀ bs, items_bytes [Raw bs] = bs) as Hone by (intros bs; apply app_nil_r). split_and!.
  - rewrite (serves_items ra [] [Raw (pk_header pk)] _ _ _ Hra); [by rewrite Hone|done|by rewrite Hone].
  - rewrite (serves_items ra [Raw (pk_header pk)] [Raw (pk_g1 pk)] _ _ _ Hra); by rewrite Hone.
  - rewrite <- (Hone (pk_g2 pk)). apply (read_after pk ra
      ([Raw (pk_header pk); Raw (pk_g1 pk)] ++ [Vec (str "A") G1RawBytes (pk_A pk);
        Vec (str "B") G1RawBytes (pk_B pk); Vec (str "Z") G1RawBytes (pk_Z pk)])
      _ G1RawBytes (pk_K pk) [Raw (pk_g2 pk)]
      ([Vec (str "G2B") G2RawBytes (pk_G2B pk); Raw (be_bytes 8 (pk_wires pk)); Raw (be_bytes 8 (pk_infinityA pk));
        Raw (be_bytes 8 (pk_infinityB pk)); Raw (pk_bitmaps pk); Raw (be_bytes 4 (len (pk_commitments pk)))] ++
        commitment_items 0 (pk_commitments pk))); try done. by rewrite Hone.
  - set (l2 := [Raw (be_bytes 8 (pk_wires pk)); Raw (be_bytes 8 (pk_infinityA pk));
      Raw (be_bytes 8 (pk_infinityB pk)); Raw (pk_bitmaps pk)]).
    assert (items_bytes l2 = be_bytes 8 (pk_wires pk) ++ be_bytes 8 (pk_infinityA pk) ++
      be_bytes 8 (pk_infinityB pk) ++ pk_bitmaps pk) as Hl2.
    { unfold items_bytes, l2. cbn [fmap list_fmap item_bytes concat]. by rewrite app_nil_r. }
    rewrite <- Hl2. apply (read_after pk ra
      ([Raw (pk_header pk); Raw (pk_g1 pk)] ++ [Vec (str "A") G1RawBytes (pk_A pk); Vec (str "B") G1RawBytes (pk_B pk);
        Vec (str "Z") G1RawBytes (pk_Z pk); Vec (str "K") G1RawBytes (pk_K pk)] ++ [Raw (pk_g2 pk)])
      _ G2RawBytes (pk_G2B pk) l2 ([Raw (be_bytes 4 (len (pk_commitments pk)))] ++ commitment_items 0 (pk_commitments pk)));
      [done..|].
    rewrite Hl2, !length_app, !length_be_bytes. lia.
Qed.

Lemma vec_section off l name elem p : Vec name elem p ∈ l →
  ∃ s, (s, p) ∈ sections_at off l ∧ sec_Name s = name ∧ sec_ElemSize s = elem.
Proof.
  revert off. induction l as [|i l IH]; intros off Hin; [by apply elem_of_nil in Hin|].
  cbn [sections_at]. setoid_rewrite elem_of_app. apply elem_of_cons in Hin as [<-|Hin].
  - eexists. split; [left; by apply list_elem_of_singleton|done].
  - destruct (IH (off + len (item_bytes i)) Hin) as (s & Hs & ?). exists s. by split; [right|].
Qed.

Lemma commitment_vecs i keys j b s : keys !! j = Some (b, s) →
  Vec (commitmentSectionName (str "Basis") (i + Z.of_nat j)) G1RawBytes b ∈ commitment_items i keys ∧
  Vec (commitmentSectionName (str "BasisExpSigma") (i + Z.of_nat j)) G1RawBytes s ∈ commitment_items i keys.
Proof.
  revert i j. induction keys as [|[b' s'] keys IH]; intros i [|j]; try done; cbn [commitment_items lookup list_lookup].
  - intros [= -> ->]. rewrite Z.add_0_r. by split; [left|right; left].
  - intros Hj. destruct (IH (i + 1) j Hj) as [H1 H2].
    replace (i + Z.of_nat (S j)) with (i + 1 + Z.of_nat j) by lia. by split; do 2 right.
Qed.

(** ** Vectors of points *)

Lemma drop_concat {A} (k n : nat) (ls : list (list A)) : (∀ l, l ∈ ls → length l = k) →
  drop (n * k) (concat ls) = concat (drop n ls).
Proof.
  revert n. induction ls as [|l ls IH]; intros n Hk; [cbn; by rewrite !drop_nil|].
  destruct n as [|n]; [done|]. cbn [concat drop]. rewrite <- IH by (intros; apply Hk; by right).
  change (S n * k)%nat with (k + n * k)%nat. rewrite <- drop_drop. f_equal.
  apply drop_app_length'. symmetry. apply Hk. by left.
Qed.

Lemma take_concat {A} (k n : nat) (ls : list (list A)) : (∀ l, l ∈ ls → length l = k) →
  take (n * k) (concat ls) = concat (take n ls).
Proof.
  revert n. induction ls as [|l ls IH]; intros n Hk; [cbn; by rewrite !take_nil|].
  destruct n as [|n]; [done|]. cbn [concat take]. rewrite <- IH by (intros; apply Hk; by right).
  change (S n * k)%nat with (k + n * k)%nat. assert (k = length l) as Hl by (symmetry; apply Hk; by left).
  rewrite Hl at 1. by rewrite firstn_app_2.
Qed.

Section points.
Context `{CurveGroupLaws} `{!PointDecoder _} `{!PointDecoderLaws _}.

Lemma RawBytes_concat_length ps : length (concat (RawBytes <$> ps)) = (length ps * point_size)%nat.
Proof. apply length_concat_const, RawBytes_length. Qed.

Lemma slice_points lo hi ps : 0 <= lo <= hi →
  slice (lo * Z.of_nat point_size, hi * Z.of_nat point_size) (concat (RawBytes <$> ps)) =
  concat (RawBytes <$> slice (lo, hi) ps).
Proof.
  intros Hr. unfold slice. cbn [fst snd]. rewrite <- Z.mul_sub_distr_r.
  rewrite !Z2Nat.inj_mul, !Nat2Z.id by lia.
  assert (∀ qs : list Affine, ∀ l, l ∈ (RawBytes <$> qs) → length l = point_size) as Hk.
  { intros qs l (p & -> & _)%list_elem_of_fmap. apply RawBytes_length. }
  rewrite drop_concat by apply Hk. rewrite <- fmap_drop, take_concat by apply Hk. by rewrite <- fmap_take.
Qed.

Context (pk : proving_key) (Hw : pk_wf pk) (Hsize : len (items_bytes (pk_layout pk)) < 2 ^ 63).
Context (ra : ReaderAt) (Hra : serves ra (items_bytes (pk_layout pk))).
Context (s : PKSection) (ps : list Affine).
Context (Hin : (s, concat (RawBytes <$> ps)) ∈ sections_at 0 (pk_layout pk)).
Context (Helem : sec_ElemSize s = Z.of_nat point_size).
Abbreviation source := {| src_idx := index_of pk; src_ra := ra |}.

Lemma section_count : Z.of_nat (length ps) < 2 ^ 32 ∧ sec_Len s = Z.of_nat (length ps) * sec_ElemSize s.
Proof.
  destruct (layout_section pk _ _ Hw Hin) as (count & Hc & _ & Hl & Hlen & _).
  pose proof point_size_pos. rewrite RawBytes_concat_length in Hlen. rewrite Helem in *.
  assert (count = Z.of_nat (length ps)) as -> by nia. lia.
Qed.

Lemma section_points_read label :
  section_points _ label (Z.of_nat point_size) source (sec_Name s) = Ok ps.
Proof.
  destruct section_count as [Hc Hl]. pose proof point_size_pos.
  destruct (layout_section pk _ _ Hw Hin) as (_ & _ & _ & _ & Hlen & Hoff & Hend & Hs).
  unfold section_points. cbn [src_idx src_ra]. rewrite (index_lookup pk s _ Hw Hin).
  rewrite Hra by lia. cbn [within map_err mbind result_bind]. rewrite Hs, Hl, Helem, Z.quot_mul by lia.
  unfold decode_section, PrefixLength. by rewrite decode_points_raw.
Qed.

Lemma section_range_points_read label lo hi :
  section_range_points _ label source (sec_Name s) lo hi =
  if (0 <=? lo) && (lo <=? hi) && (hi <=? Z.of_nat (length ps)) then Ok (slice (lo, hi) ps)
  else Err (Fail "range %s [%d,%d) out of bounds (len=%d)").
Proof.
  destruct section_count as [Hc Hl]. pose proof point_size_pos.
  pose proof (SectionRange_read pk Hw Hsize ra Hra s _ lo hi Hin) as Hr.
  unfold section_range_points. unfold SectionRange in Hr. cbn [src_idx src_ra] in *.
  rewrite (index_lookup pk s _ Hw Hin) in *.
  rewrite RawBytes_concat_length, Hl, Helem, Nat2Z.inj_mul, Z.quot_mul, Z.div_mul in Hr by lia.
  rewrite Hl, Helem, Z.quot_mul by lia.
  destruct (Z.leb_spec 0 lo), (Z.ltb_spec lo 0), (Z.leb_spec lo hi), (Z.ltb_spec hi lo),
    (Z.leb_spec hi (Z.of_nat (length ps))), (Z.ltb_spec (Z.of_nat (length ps)) hi); try lia; try done.
  cbn [orb andb check guard_err mbind result_bind] in *.
  destruct (Z.eqb_spec (hi - lo) 0).
  { assert (lo = hi) as -> by lia. by rewrite slice_empty. }
  assert ((hi - lo) * Z.of_nat point_size ≠ 0) as Hne by nia.
  destruct (layout_section pk _ _ Hw Hin) as (_ & _ & _ & _ & _ & Hoff & Hend & _).
  rewrite (i64_small ((hi - lo) * _)) in * by nia. rewrite (proj2 (Z.eqb_neq _ _) Hne) in Hr.
  destruct (ra _ _) as [bytes|e]; [|done]. cbn [within map_err mbind result_bind] in *.
  injection Hr as ->. rewrite slice_points by lia. unfold decode_section, PrefixLength.
  replace (hi - lo) with (Z.of_nat (length (slice (lo, hi) ps))) by (rewrite slice_length; cbn; lia).
  rewrite decode_points_raw; [done|]. rewrite slice_length; cbn; lia.
Qed.
End points.

Lemma slice_take {A} (r : range) n (l : list A) : 0 <= r.1 <= r.2 → r.2 <= n → slice r (take (Z.to_nat n) l) = slice r l.
Proof.
  intros Hr Hn. unfold slice. rewrite skipn_firstn_comm, take_take. f_equal. lia.
Qed.

(** ** The key source *)

Section keysource.
Context {SF : ScalarField} (G1 G2 : @CurveGroup SF) {L1 : @CurveGroupLaws SF G1} {L2 : @CurveGroupLaws SF G2}.
Context {D1 : PointDecoder G1} {D2 : PointDecoder G2} `{!PointDecoderLaws G1, !PointDecoderLaws G2}.
Context (Hraw1 : Z.of_nat (@point_size _ G1) = G1RawBytes) (Hraw2 : Z.of_nat (@point_size _ G2) = G2RawBytes).
Context `{FFTDomain} `{MapOrder}.

Lemma decode_singletons_raw (G : @CurveGroup SF) {D : PointDecoder G} `{!PointDecoderLaws G} (ps : list Affine) n :
  length ps = n → decode_singletons G n (concat (RawBytes <$> ps)) = Ok ps.
Proof.
  intros <-. induction ps as [|p ps IH]; [done|]. cbn [decode_singletons length fmap list_fmap concat].
  rewrite decode_point_raw. cbn [mbind result_bind]. fold (fmap (M:=list) RawBytes ps). by rewrite IH.
Qed.

(** Opening a key for streaming finds its small fields.  From any reader that gives the
    bytes of a proving key of at most 2^30 - 1 wires whose domain header decodes, whose
    G1 points are [alpha, beta, delta] and whose G2 points are [beta, delta], the offsets
    computed from the index lead to exactly those points, the two infinity bitmaps and the
    number of commitment keys; with more wires opening is an error, not a truncation. *)
Theorem loadSmallFields_exact pk ra precompute domain g1 g2 : pk_wf pk →
  len (items_bytes (pk_layout pk)) < 2 ^ 63 → serves ra (items_bytes (pk_layout pk)) →
  decodeDomainHeader (pk_header pk) precompute = Ok domain →
  pk_g1 pk = concat (RawBytes <$> g1) → pk_g2 pk = concat (RawBytes <$> g2) →
  let source := {| src_idx := index_of pk; src_ra := ra |} in
  loadSmallFields G1 G2 source precompute =
  if (2 ^ 31 - 1) / 2 <? pk_wires pk then Err (Fail "nbWires %d overflows int on wasm32")
  else Ok {| ks_source := source; ks_domain := domain; ks_g1 := g1; ks_g2 := g2;
             ks_infinityA := (λ b, negb (b =? 0)) <$> take (Z.to_nat (pk_wires pk)) (pk_bitmaps pk);
             ks_infinityB := (λ b, negb (b =? 0)) <$> drop (Z.to_nat (pk_wires pk)) (pk_bitmaps pk);
             ks_nbCommitmentKeys := len (pk_commitments pk) |}.
Proof.
  intros Hw Hsize Hra Hd H1 H2 source. unfold loadSmallFields. cbn [src_idx src_ra source].
  rewrite (index_valid pk) by done. cbn [mbind result_bind].
  pose proof (small_fields_at pk ra Hw Hsize Hra) as (-> & -> & -> & Hr3).
  cbn [within map_err mbind result_bind]. rewrite Hd. cbn [mbind result_bind].
  pose proof (wf_g1 pk Hw) as Lg1. pose proof (wf_g2 pk Hw) as Lg2.
  rewrite H1 in Lg1 |- *. rewrite H2 in Lg2 |- *. rewrite (RawBytes_concat_length (H0 := G1)) in Lg1. rewrite (RawBytes_concat_length (H0 := G2)) in Lg2.
  rewrite (decode_singletons_raw G1 g1 3) by (unfold G1RawBytes in *; nia). cbn [within map_err mbind result_bind].
  rewrite (decode_singletons_raw G2 g2 2) by (unfold G2RawBytes in *; nia). cbn [within map_err mbind result_bind].
  cbn [ix_NbWires index_of]. destruct (_ <? _); [done|]. cbn [check guard_err mbind result_bind].
  rewrite Hr3. cbn [within map_err mbind result_bind]. pose proof (wf_wires pk Hw). pose proof (wf_bitmaps pk Hw).
  do 2 f_equal.
  - f_equal. unfold slice. cbn [fst snd]. rewrite !app_assoc.
    rewrite drop_app_length' by (by rewrite !length_app, !length_be_bytes). f_equal. lia.
  - f_equal. unfold slice. cbn [fst snd]. rewrite !app_assoc.
    rewrite drop_app_ge by (rewrite !length_app, !length_be_bytes; lia).
    rewrite !length_app, !length_be_bytes. rewrite take_ge; [f_equal; lia|].
    rewrite length_drop. lia.
Qed.

Section streamed.
Context (pk : proving_key) (Hw : pk_wf pk) (Hsize : len (items_bytes (pk_layout pk)) < 2 ^ 63).
Context (ks : KeySource G1 G2) (Hidx : src_idx (ks_source _ _ ks) = index_of pk).
Context (Hra : serves (src_ra (ks_source _ _ ks)) (items_bytes (pk_layout pk))).

Lemma streamed_source : ks_source _ _ ks = {| src_idx := index_of pk; src_ra := src_ra (ks_source _ _ ks) |}.
Proof. clear Hra. rewrite <- Hidx. by destruct (ks_source _ _ ks). Qed.

Lemma streamed_G1Range s ps lo hi : (s, concat (RawBytes <$> ps)) ∈ sections_at 0 (pk_layout pk) →
  sec_ElemSize s = G1RawBytes →
  G1Range G1 G2 ks (sec_Name s) lo hi =
  if (0 <=? lo) && (lo <=? hi) && (hi <=? Z.of_nat (length ps)) then Ok (slice (lo, hi) ps)
  else Err (Fail "range %s [%d,%d) out of bounds (len=%d)").
Proof.
  intros Hin He. unfold G1Range. rewrite streamed_source.
  apply (section_range_points_read (H0 := G1) pk Hw Hsize _ Hra s ps Hin). by rewrite Hraw1.
Qed.

Lemma streamed_G2Range s ps lo hi : (s, concat (RawBytes <$> ps)) ∈ sections_at 0 (pk_layout pk) →
  sec_ElemSize s = G2RawBytes →
  G2Range G1 G2 ks (sec_Name s) lo hi =
  if (0 <=? lo) && (lo <=? hi) && (hi <=? Z.of_nat (length ps)) then Ok (slice (lo, hi) ps)
  else Err (Fail "range %s [%d,%d) out of bounds (len=%d)").
Proof.
  intros Hin He. unfold G2Range. rewrite streamed_source.
  apply (section_range_points_read (H0 := G2) pk Hw Hsize _ Hra s ps Hin). by rewrite Hraw2.
Qed.

Lemma SectionPointCount_read s p : (s, p) ∈ sections_at 0 (pk_layout pk) →
  SectionPointCount G1 G2 ks (sec_Name s) = Ok (len p / sec_ElemSize s).
Proof.
  intros Hin. unfold SectionPointCount. rewrite Hidx, (index_lookup pk s p Hw Hin).
  destruct (layout_section pk _ _ Hw Hin) as (count & Hc & He & Hl & -> & _).
  assert (0 < sec_ElemSize s) by (destruct He as [->| ->]; done).
  by rewrite Hl, Z.quot_mul, Z.div_mul by lia.
Qed.

Lemma vec_count name elem p : Vec name elem p ∈ pk_layout pk →
  SectionPointCount G1 G2 ks name = Ok (len p / elem).
Proof.
  intros Hv. destruct (vec_section 0 _ _ _ _ Hv) as (s & Hin & <- & <-). by apply SectionPointCount_read.
Qed.

Lemma commitment_counts_read base (part : list Z * list Z → list Z) keys i :
  (∀ j key, keys !! j = Some key →
     Vec (commitmentSectionName base (i + Z.of_nat j)) G1RawBytes (part key) ∈ pk_layout pk) →
  commitment_counts G1 G2 ks base (length keys) i = Ok ((λ key, len (part key) / G1RawBytes) <$> keys).
Proof.
  revert i. induction keys as [|key keys IH]; intros i Hv; [done|]. cbn [commitment_counts length].
  rewrite (vec_count _ G1RawBytes (part key)); [|rewrite <- (Z.add_0_r i); by apply (Hv 0%nat)].
  cbn [mbind result_bind]. rewrite IH; [done|]. intros j k Hk. specialize (Hv (S j) k Hk).
  by replace (i + 1 + Z.of_nat j) with (i + Z.of_nat (S j)) by lia.
Qed.
End streamed.

(** A vector of points that was written to a key, and is read from it through any
    reader, whole or a range at a time, in G1 and in G2: what comes back is the points,
    and a range is refused exactly when it is not a range of them. *)
Theorem streamed_points_exact pk ks s1 ps1 s2 ps2 lo hi : pk_wf pk →
  len (items_bytes (pk_layout pk)) < 2 ^ 63 → src_idx (ks_source G1 G2 ks) = index_of pk →
  serves (src_ra (ks_source _ _ ks)) (items_bytes (pk_layout pk)) →
  (s1, concat (RawBytes <$> ps1)) ∈ sections_at 0 (pk_layout pk) → sec_ElemSize s1 = G1RawBytes →
  (s2, concat (RawBytes <$> ps2)) ∈ sections_at 0 (pk_layout pk) → sec_ElemSize s2 = G2RawBytes →
  let part {A} (ps : list A) :=
    if (0 <=? lo) && (lo <=? hi) && (hi <=? Z.of_nat (length ps)) then Ok (slice (lo, hi) ps)
    else Err (Fail "range %s [%d,%d) out of bounds (len=%d)") in
  ks_G1 G1 G2 ks (sec_Name s1) = Ok ps1 ∧ G1Range G1 G2 ks (sec_Name s1) lo hi = part ps1 ∧
  ks_G2 G1 G2 ks (sec_Name s2) = Ok ps2 ∧ G2Range G1 G2 ks (sec_Name s2) lo hi = part ps2.
Proof.
  intros Hw Hsize Hi Hra Hs1 He1 Hs2 He2 part. unfold ks_G1, ks_G2. split_and!.
  - rewrite (streamed_source pk ks Hi), <- Hraw1.
    apply (section_points_read (H0 := G1) pk Hw _ Hra s1 ps1 Hs1); by rewrite ?Hraw1.
  - by apply (streamed_G1Range pk).
  - rewrite (streamed_source pk ks Hi), <- Hraw2.
    apply (section_points_read (H0 := G2) pk Hw _ Hra s2 ps2 Hs2); by rewrite ?Hraw2.
  - by apply (streamed_G2Range pk).
Qed.

(** C29 A multi-exponentiation over a streamed vector.  [MSMG1Ranged], fetching through
    [G1Range] the first [n] points of a section of the key, a range at a time, gives bit
    for bit the multi-exponentiation of those points, and reports all of it done. *)
Theorem streamed_msm_exact pk ks s ps ss name reporting : pk_wf pk →
  len (items_bytes (pk_layout pk)) < 2 ^ 63 → src_idx (ks_source G1 G2 ks) = index_of pk →
  serves (src_ra (ks_source _ _ ks)) (items_bytes (pk_layout pk)) →
  (s, concat (RawBytes <$> ps)) ∈ sections_at 0 (pk_layout pk) → sec_ElemSize s = G1RawBytes →
  (length ss <= length ps)%nat →
  let n := Z.of_nat (length ss) in
  let run := msm_ranged name reporting n (G1Range G1 G2 ks (sec_Name s)) ss in
  same_bytes run.1 (msm reporting (take (length ss) ps) ss).1 ∧ (reporting = true → last run.2 = Some (n, n)).
Proof.
  intros Hw Hsize Hi Hra Hs He Hn n run. apply msm_ranged_ok; [rewrite length_take; lia..|].
  intros r Hr. rewrite (streamed_G1Range pk Hw Hsize ks Hi Hra s ps r.1 r.2 Hs He).
  rewrite !(proj2 (Z.leb_le _ _)) by lia. cbn [andb]. destruct r as [a b].
  rewrite <- (slice_take _ n) by (cbn in *; lia). unfold n. by rewrite Nat2Z.id.
Qed.

(** The announced sizes of a proof's multi-exponentiations are the numbers of points of
    the vectors, in call order; the quotient polynomial's is the domain size less one, and
    has to fit in its vector. *)
Theorem ProveMSMScalarTotals_exact pk ks : pk_wf pk → src_idx (ks_source G1 G2 ks) = index_of pk →
  0 < dom_Cardinality (ks_domain _ _ ks) < 2 ^ 63 →
  let g1 p := len p / G1RawBytes in
  let sizeH := dom_Cardinality (ks_domain _ _ ks) - 1 in
  ProveMSMScalarTotals G1 G2 ks =
  if g1 (pk_Z pk) <? sizeH then Err (Fail "section H size %d outside section Z length %d")
  else Ok ((g1 <$> (fst <$> pk_commitments pk)) ++ (g1 <$> (snd <$> pk_commitments pk)) ++
           [len (pk_G2B pk) / G2RawBytes; g1 (pk_A pk); g1 (pk_B pk); sizeH; g1 (pk_K pk)]).
Proof.
  intros Hw Hi Hd g1 sizeH. unfold ProveMSMScalarTotals. rewrite Hi. cbn [ix_NbCommitmentKeys index_of].
  rewrite Nat2Z.id.
  assert (∀ i, i ∈ commitment_items 0 (pk_commitments pk) → i ∈ pk_layout pk) as Hc
    by (intros i ?; unfold pk_layout; rewrite !elem_of_app; by right; right; right).
  rewrite (commitment_counts_read pk Hw ks Hi (str "Basis") fst);
    [|intros j [b s] Hj; by apply Hc, (commitment_vecs _ _ _ _ _ Hj)].
  rewrite (commitment_counts_read pk Hw ks Hi (str "BasisExpSigma") snd);
    [|intros j [b s] Hj; by apply Hc, (commitment_vecs _ _ _ _ _ Hj)].
  cbn [mbind result_bind].
  assert (∀ i, i ∈ take 13 (pk_layout pk) → i ∈ pk_layout pk) as Ht
    by (intros i ?; rewrite <- (take_drop 13 (pk_layout pk)); apply elem_of_app; by left).
  rewrite (vec_count pk Hw ks Hi (str "G2B") G2RawBytes (pk_G2B pk)) by (apply Ht; cbn; set_solver).
  rewrite (vec_count pk Hw ks Hi (str "A") G1RawBytes (pk_A pk)) by (apply Ht; cbn; set_solver).
  rewrite (vec_count pk Hw ks Hi (str "B") G1RawBytes (pk_B pk)) by (apply Ht; cbn; set_solver).
  rewrite (vec_count pk Hw ks Hi (str "Z") G1RawBytes (pk_Z pk)) by (apply Ht; cbn; set_solver).
  cbn [mbind result_bind]. unfold u64. rewrite Z.mod_small, i64_small by lia.
  rewrite (proj2 (Z.ltb_ge (dom_Cardinality _ - 1) 0)) by lia. cbn [orb]. fold sizeH. fold (g1 (pk_Z pk)).
  destruct (_ <? _); [done|]. cbn [check guard_err mbind result_bind].
  rewrite (vec_count pk Hw ks Hi (str "K") G1RawBytes (pk_K pk)) by (apply Ht; cbn; set_solver).
  cbn [mbind result_bind app]. by rewrite <- !list_fmap_compose.
Qed.
End keysource.
