(* ===== verification/Artifact.v ===== *)
(** * Artifacts and digests: [internal/artifact], [proofassets/digest.go]

    The manifest of a key bundle, the proof artifact a prover writes and a verifier
    reads, and the digests that pin files.  Strings are their bytes. *)
From stdpp Require Import strings gmap.
From S2P Require Import Prelude.
From S2P Require Import Gnark.
From S2P Require Import Blake2bSpec.
From S2P Require Import Blake2bCorrect.
From S2P Require Import GoText.
From S2P Require Import GoError.
From S2P Require Import Sha256.
From S2P Require Import Ownership.

Definition ManifestSchema : list Z := str "proof-tool-key-manifest-v1".
Definition ProofSchema : list Z := str "root-ownership-proof-artifact-v1".

Record KeyManifest := {
  km_Schema : list Z;
  km_KeyVersion : list Z;
  km_CircuitID : list Z;
  km_Curve : list Z;
  km_Backend : list Z;
  km_VKHash : list Z;
  km_ProvingKeySHA256 : list Z;
  km_ProvingKeyBlake2b256 : list Z;
  km_ProvingKeySize : Z;
  km_VerifyingKeySHA256 : list Z;
  km_VerifyingKeySize : Z;
  km_ConstraintSystemHash : list Z;
  km_CircuitSourceCommit : list Z;
  km_ProofToolVersion : list Z;
  km_GnarkVersion : list Z;
  km_SetupTranscriptHash : list Z;
  km_PublishedAt : list Z;
  km_ArtifactURLs : option (gmap (list Z) (list Z));     (* nil, or a map *)
  km_SignatureKeyID : list Z }.
#[export] Instance KeyManifest_eq_dec : EqDecision KeyManifest.
Proof. solve_decision. Defined.

(** Three [uint32]. *)
Abbreviation PathMetadata := Path (only parsing).

Record CardanoProof := {
  cp_Format : list Z;
  cp_ProofHex : list Z;
  cp_PublicInputDigestHex : list Z }.

Record ProofArtifact := {
  pa_Schema : list Z;
  pa_CircuitID : list Z;
  pa_VKHash : list Z;
  pa_TargetCredential : list Z;
  pa_TargetCredentials : list (list Z);
  pa_DestinationAddressEncoding : list Z;
  pa_DestinationAddress : list Z;
  pa_CredentialCount : Z;
  pa_PublicInputEncoding : list Z;
  pa_PublicInput : list Z;
  pa_Proof : list Z;
  pa_Cardano : option CardanoProof;
  pa_Path : option PathMetadata;
  pa_Paths : list PathMetadata }.

(** What leaves the owner's machine: the paths are removed. *)
Definition BackendProofArtifact (value : ProofArtifact) : ProofArtifact := {|
  pa_Schema := pa_Schema value;
  pa_CircuitID := pa_CircuitID value;
  pa_VKHash := pa_VKHash value;
  pa_TargetCredential := pa_TargetCredential value;
  pa_TargetCredentials := pa_TargetCredentials value;
  pa_DestinationAddressEncoding := pa_DestinationAddressEncoding value;
  pa_DestinationAddress := pa_DestinationAddress value;
  pa_CredentialCount := pa_CredentialCount value;
  pa_PublicInputEncoding := pa_PublicInputEncoding value;
  pa_PublicInput := pa_PublicInput value;
  pa_Proof := pa_Proof value;
  pa_Cardano := pa_Cardano value;
  pa_Path := None;
  pa_Paths := [] |}.

(** ** Digests *)

Record FileDigest := { SHA256 : list Z; Blake2b256 : list Z; Size : Z }.
#[export] Instance FileDigest_eq_dec : EqDecision FileDigest.
Proof. solve_decision. Defined.

Section digests.
Context `{XCryptoBlake2b}.

Definition sha256_string (raw : list Z) : list Z := str "sha256:" ++ hex_EncodeToString (sha256_Sum256 raw).
Definition blake2b256_string (raw : list Z) : list Z :=
  str "blake2b256:" ++ hex_EncodeToString (blake2b_sum 32 raw).

(** [digestFromReader], and [digestFile] of [internal/prover], on what is read. *)
Definition DigestBytes (raw : list Z) : FileDigest := {|
  SHA256 := sha256_string raw;
  Blake2b256 := blake2b256_string raw;
  Size := Z.of_nat (length raw) |}.
End digests.

(** ** Files *)

(** A directory: the contents of its files, by name. *)
Abbreviation directory := (gmap (list Z) (list Z)).

Definition read_file (dir : directory) (name : list Z) : result go_error (list Z) :=
  match dir !! name with Some content => Ok content | None => Err (Fail "no such file or directory") end.

Definition DigestFile `{XCryptoBlake2b} (dir : directory) (name : list Z) : result go_error FileDigest :=
  raw ← within "open %s" (read_file dir name);
  Ok (DigestBytes raw).

Definition filesExist (dir : directory) (names : list (list Z)) : bool :=
  forallb (λ name, bool_decide (is_Some (dir !! name))) names.

(** [strictjson.Unmarshal] into a [KeyManifest], and [json.MarshalIndent] of one. *)
Class ManifestJSON := {
  manifest_Unmarshal : list Z → result go_error KeyManifest;
  manifest_MarshalIndent : KeyManifest → list Z;
}.

Definition ReadKeyManifest `{ManifestJSON} (dir : directory) (name : list Z) : result go_error KeyManifest :=
  raw ← within "read %s" (read_file dir name);
  m ← within "parse %s" (manifest_Unmarshal raw);
  _ ← check (differs (km_Schema m) ManifestSchema) "manifest schema %q, want %q";
  Ok m.

(** * What a digest pins

    The printed digests of byte strings are visible text, and equal digests are equal
    files, or a collision of the hash. *)

Lemma visible_not_blank s : Forall visible s → s ≠ [] → blank s = false.
Proof. intros Hv Hs. apply bool_decide_eq_false. by rewrite TrimSpace_visible. Qed.

Lemma hex_visible bs : Forall is_byte bs → Forall visible (hex_EncodeToString bs).
Proof. intros Hb. eapply Forall_impl; [by apply hex_chars|]. by intros c [? _]. Qed.

Section digests.
Context `{XCryptoBlake2b}.

Lemma blake2b_sum_wf raw : Forall is_byte raw →
  Forall is_byte (blake2b_sum 32 raw) ∧ length (blake2b_sum 32 raw) = 32%nat.
Proof. intros Hb. rewrite blake2b_sum_spec by (done || lia). apply RefBlake2b_wf. lia. Qed.

Lemma sha256_string_not_blank raw : blank (sha256_string raw) = false.
Proof.
  apply visible_not_blank; [|done]. apply Forall_app. split; [repeat constructor; done|].
  apply hex_visible, sha256_bytes.
Qed.

Lemma blake2b256_string_not_blank raw : Forall is_byte raw → blank (blake2b256_string raw) = false.
Proof.
  intros Hb. apply visible_not_blank; [|done]. apply Forall_app. split; [repeat constructor; done|].
  by apply hex_visible, blake2b_sum_wf.
Qed.

Lemma sha256_string_inj x y : sha256_string x = sha256_string y → sha256_Sum256 x = sha256_Sum256 y.
Proof. intros He%app_inv_head. apply hex_inj in He; [done|apply sha256_bytes..]. Qed.

Lemma blake2b256_string_inj x y : Forall is_byte x → Forall is_byte y →
  blake2b256_string x = blake2b256_string y → blake2b_sum 32 x = blake2b_sum 32 y.
Proof. intros Hx Hy He%app_inv_head. by apply hex_inj in He; [|apply blake2b_sum_wf..]. Qed.
End digests.
