(* ===== verification/Prover.v ===== *)
(** * Proofs, keys and their bundle: [internal/prover/prover.go]

    The byte layouts that the Cardano contract reads, and the directory that holds a
    verifying key, a proving key and the manifest that pins them.  Setup, proving and
    verification are gnark's. *)
From stdpp Require Import strings gmap.
From S2P Require Import Prelude.
From S2P Require Import Gnark.
From S2P Require Import GoText.
From S2P Require Import GoError.
From S2P Require Import Ownership.
From S2P Require Import OwnershipCircuit.
From S2P Require Import Ranges.
From S2P Require Import Artifact.

Definition DefaultKeyVersion : list Z := str "ownership-v2".
Definition DefaultDestinationKeyVersion : list Z := str "ownership-destination-v3".
Definition ProofToolVersion : list Z := str "0.1.0".
Definition GnarkVersion : list Z := str "v0.16.3".

(** [CircuitID] of [ownership] and of [ownershipdest]. *)
Definition CircuitID : list Z := str "root-ownership-v2/bls12-381/groth16".
Definition DestCircuitID : list Z := str "root-ownership-destination-v3/bls12-381/groth16".

Definition g1Len : nat := 48.
Definition g2Len : nat := 96.
Definition CardanoProofLen : nat := 2 * g1Len + g2Len.
Definition CardanoVKLen : nat := g1Len + 3 * g2Len + 2 * g1Len.
Definition CardanoVKCommitmentLen : nat := CardanoVKLen + g1Len + 2 * g2Len.
Definition CardanoProofCommitmentLen : nat := CardanoProofLen + 2 * g1Len + g1Len.
Definition K2Off : nat := CardanoVKLen.
Definition CKGOff : nat := K2Off + g1Len.
Definition CKGSNOff : nat := CKGOff + g2Len.
Definition CmtOff : nat := CardanoProofLen.
Definition PokOff : nat := CmtOff + 2 * g1Len.

(** ** gnark *)

(** [groth16_bls12381.Proof] and [groth16_bls12381.VerifyingKey]: the fields that are
    read. *)
Record BlsProof (G1 G2 : Type) := {
  Ar : G1; Krs : G1; Bs : G2;
  Commitments : list G1; CommitmentPok : G1 }.
Arguments Ar {_ _} _.
Arguments Krs {_ _} _.
Arguments Bs {_ _} _.
Arguments Commitments {_ _} _.
Arguments CommitmentPok {_ _} _.

Record BlsVK (G1 G2 : Type) := {
  Alpha : G1; Beta : G2; Gamma : G2; Delta : G2; K : list G1;
  CommitmentKeys : list (G2 * G2);                 (* G, GSigmaNeg *)
  PublicAndCommitmentCommitted : list (list Z) }.
Arguments Alpha {_ _} _.
Arguments Beta {_ _} _.
Arguments Gamma {_ _} _.
Arguments Delta {_ _} _.
Arguments K {_ _} _.
Arguments CommitmentKeys {_ _} _.
Arguments PublicAndCommitmentCommitted {_ _} _.

(** The circuits that are compiled, and an assignment of one. *)
Inductive circuit_name := OwnershipC | DestinationC | MultiC (count : Z).
Inductive Witness :=
| OwnershipW (c : OwnershipCircuit Z)
| DestinationW (c : DestCircuit Z)
| MultiW (c : MultiCircuit Z).

Class Groth16 := {
  G1Point : Type;
  G2Point : Type;
  Proof : Type;
  VerifyingKey : Type;
  ProvingKey : Type;
  ConstraintSystem : Type;
  g1_Bytes : G1Point → list Z;                     (* compressed *)
  g1_Marshal : G1Point → list Z;                   (* both coordinates *)
  g2_Bytes : G2Point → list Z;
  as_BlsProof : Proof → option (BlsProof G1Point G2Point);
  as_BlsVK : VerifyingKey → option (BlsVK G1Point G2Point);
  proof_WriteTo : Proof → list Z;
  proof_ReadFrom : list Z → result go_error Proof;
  vk_WriteTo : VerifyingKey → list Z;
  vk_ReadFrom : list Z → result go_error VerifyingKey;
  pk_WriteRawTo : ProvingKey → list Z;
  pk_UnsafeReadFrom : list Z → result go_error ProvingKey;
  ccs_ReadFrom : list Z → result go_error ConstraintSystem;
  frontend_Compile : circuit_name → result go_error ConstraintSystem;
  (** [groth16.Setup] draws its secrets, [toxic], and [groth16.Prove] its blinding. *)
  groth16_Setup : ConstraintSystem → list Z → result go_error (ProvingKey * VerifyingKey);
  groth16_Prove : ConstraintSystem → ProvingKey → Witness → list Z → result go_error Proof;
  groth16_Verify : Proof → VerifyingKey → list Z → result go_error unit;
  fr_Hash : list Z → list Z → Z → result go_error (list Z);
}.

Section prover.
Context `{Groth16} `{Field}.

Definition Compile (circuit : circuit_name) : result go_error ConstraintSystem :=
  within "compile" (frontend_Compile circuit).

Definition Prove (ccs : ConstraintSystem) (pk : ProvingKey) (assignment : Witness) (blinding : list Z) :
    result go_error Proof :=
  within "groth16 prove" (groth16_Prove ccs pk assignment blinding).

(** [VerifyProof]: the public witness of an ownership circuit is its public input. *)
Definition VerifyProof (vk : VerifyingKey) (proof : Proof) (pub : Z) : checked :=
  within "groth16 verify" (groth16_Verify proof vk [pub mod field_order]).

Definition MarshalProof (proof : Proof) : list Z := b64_EncodeToString (proof_WriteTo proof).

Definition UnmarshalProof (encoded : list Z) : result go_error Proof :=
  match b64_DecodeString encoded with
  | None => Err (Wrap "decode proof" (Fail "illegal base64 data"))
  | Some raw => within "read proof" (proof_ReadFrom raw)
  end.

(** ** Cardano layouts *)

Definition wrong_length (out : list Z) (n : nat) : bool := negb (length out =? n)%nat.

Definition SerializeProof (proof : Proof) : result go_error (list Z) :=
  match as_BlsProof proof with
  | None => Err (Fail "serialize proof: want *groth16_bls12381.Proof, got %T")
  | Some cp =>
      let out := g1_Bytes (Ar cp) ++ g2_Bytes (Bs cp) ++ g1_Bytes (Krs cp) in
      _ ← check (wrong_length out CardanoProofLen) "serialize proof: got %d bytes, want %d";
      Ok out
  end.

Definition SerializeVK (vk : VerifyingKey) : result go_error (list Z) :=
  match as_BlsVK vk with
  | None => Err (Fail "serialize vk: want *groth16_bls12381.VerifyingKey, got %T")
  | Some cvk =>
      match K cvk with
      | ic0 :: ic1 :: _ =>
          let out := g1_Bytes (Alpha cvk) ++ g2_Bytes (Beta cvk) ++ g2_Bytes (Gamma cvk) ++
                     g2_Bytes (Delta cvk) ++ g1_Bytes ic0 ++ g1_Bytes ic1 in
          _ ← check (wrong_length out CardanoVKLen) "serialize vk: got %d bytes, want %d";
          Ok out
      | _ => Err (Fail "serialize vk: need K[0],K[1] for one public input, got %d IC points")
      end
  end.

Definition SerializeVKCommitment (vk : VerifyingKey) : result go_error (list Z * list (list Z)) :=
  match as_BlsVK vk with
  | None => Err (Fail "serialize vk(c): want *groth16_bls12381.VerifyingKey, got %T")
  | Some cvk =>
      match K cvk, CommitmentKeys cvk with
      | _ :: _ :: k2 :: _, [(ckG, ckGSN)] =>
          vanilla ← SerializeVK vk;
          let out := vanilla ++ g1_Bytes k2 ++ g2_Bytes ckG ++ g2_Bytes ckGSN in
          _ ← check (wrong_length out CardanoVKCommitmentLen) "serialize vk(c): got %d bytes, want %d";
          Ok (out, PublicAndCommitmentCommitted cvk)
      | _ :: _ :: _ :: _, _ => Err (Fail "serialize vk(c): need exactly 1 CommitmentKey, got %d")
      | _, _ => Err (Fail "serialize vk(c): need K[0..2] for one public input plus one commitment, got %d IC points")
      end
  end.

Definition SerializeProofCommitment (proof : Proof) : result go_error (list Z) :=
  match as_BlsProof proof with
  | None => Err (Fail "serialize proof(c): want *groth16_bls12381.Proof, got %T")
  | Some cp =>
      match Commitments cp with
      | [c] =>
          vanilla ← SerializeProof proof;
          let cmt := g1_Marshal c in
          _ ← check (wrong_length cmt (2 * g1Len)) "serialize proof(c): commitment Marshal = %d bytes, want %d";
          let out := vanilla ++ cmt ++ g1_Bytes (CommitmentPok cp) in
          _ ← check (wrong_length out CardanoProofCommitmentLen) "serialize proof(c): got %d bytes, want %d";
          Ok out
      | _ => Err (Fail "serialize proof(c): need exactly 1 commitment, got %d")
      end
  end.

Definition vanilla_format : list Z := str "groth16-bls12-381".
Definition commitment_format : list Z := str "groth16-bls12-381-bsb22".

Definition SerializeCardanoProof (proof : Proof) : result go_error (list Z * list Z) :=
  match as_BlsProof proof with
  | None => Err (Fail "serialize cardano proof: want *groth16_bls12381.Proof, got %T")
  | Some cp =>
      match Commitments cp with
      | [] => out ← SerializeProof proof; Ok (out, vanilla_format)
      | _ => out ← SerializeProofCommitment proof; Ok (out, commitment_format)
      end
  end.

Definition SerializeCardanoVK (vk : VerifyingKey) : result go_error (list Z * list Z) :=
  match as_BlsVK vk with
  | None => Err (Fail "serialize cardano vk: want *groth16_bls12381.VerifyingKey, got %T")
  | Some cvk =>
      match CommitmentKeys cvk with
      | [] => out ← SerializeVK vk; Ok (out, vanilla_format)
      | _ => '(out, _) ← SerializeVKCommitment vk; Ok (out, commitment_format)
      end
  end.

Definition CardanoProofArtifactWithDigest (proof : Proof) (publicInputDigest : list Z) :
    result go_error CardanoProof :=
  _ ← check (wrong_length publicInputDigest 32) "public input digest is %d bytes, want 32";
  '(proofBytes, format) ← SerializeCardanoProof proof;
  Ok {| cp_Format := format;
        cp_ProofHex := hex_EncodeToString proofBytes;
        cp_PublicInputDigestHex := hex_EncodeToString publicInputDigest |}.

Definition CommitmentDst : list Z := str "bsb22-commitment".

Definition CommitmentChallenge (proof : Proof) : result go_error (list Z * list Z) :=
  match as_BlsProof proof with
  | None => Err (Fail "commitment challenge: want *groth16_bls12381.Proof, got %T")
  | Some cp =>
      match Commitments cp with
      | [c] =>
          es ← within "commitment challenge: fr.Hash" (fr_Hash (g1_Marshal c) CommitmentDst 1);
          Ok (be_bytes 32 (default 0 (es !! 0%nat)), CommitmentDst)
      | _ => Err (Fail "commitment challenge: need exactly 1 commitment, got %d")
      end
  end.

Context `{XCryptoBlake2b} `{ManifestJSON}.

(** The error of a computation on credentials, as text. *)
Definition from_ownership {A} (label : string) (r : result ownership_error A) : result go_error A :=
  map_err (λ _, Fail label) r.

Definition CardanoProofArtifact (proof : Proof) (credential : list Z) : result go_error CardanoProof :=
  digest ← from_ownership "credential is %d bytes, want 28" (PublicInputDigestForCredential credential);
  CardanoProofArtifactWithDigest proof digest.

(** ** Key bundles *)

Record keyConfig := { kc_KeyVersion : list Z; kc_CircuitID : list Z; kc_DirName : list Z }.

Record OwnershipBundle := {
  ob_Manifest : KeyManifest;
  ob_ProvingKey : option ProvingKey;
  ob_VerifyingKey : VerifyingKey }.

Record BundleStatus := {
  bs_State : list Z;
  bs_Ready : bool;
  bs_KeyVersion : list Z;
  bs_VKHash : list Z;
  bs_Error : option go_error;
  bs_Manifest : option KeyManifest }.

Definition validateManifest (manifest : KeyManifest) (cfg : keyConfig) : checked :=
  _ ← check (blank (km_KeyVersion manifest)) "manifest key_version is required";
  _ ← check (differs (km_KeyVersion manifest) (kc_KeyVersion cfg)) "manifest key version %q, want %q";
  _ ← check (differs (km_CircuitID manifest) (kc_CircuitID cfg)) "manifest circuit id %q, want %q";
  _ ← check (differs (km_Curve manifest) (str "BLS12-381")) "manifest curve %q, want BLS12-381";
  _ ← check (differs (km_Backend manifest) (str "groth16")) "manifest backend %q, want groth16";
  check (differs (km_GnarkVersion manifest) GnarkVersion) "manifest gnark version %q, want %q".

Definition validateProvingKeyFile (manifest : KeyManifest) (dir : directory) (name : list Z) : checked :=
  _ ← check (blank (km_ProvingKeySHA256 manifest)) "manifest proving_key_sha256 is required";
  _ ← check (blank (km_ProvingKeyBlake2b256 manifest)) "manifest proving_key_blake2b256 is required";
  _ ← check (km_ProvingKeySize manifest <=? 0) "manifest proving_key_size is required";
  digest ← DigestFile dir name;
  _ ← check (differs (SHA256 digest) (km_ProvingKeySHA256 manifest))
        "proving key sha256 mismatch: manifest %s, file %s";
  _ ← check (differs (Blake2b256 digest) (km_ProvingKeyBlake2b256 manifest))
        "proving key blake2b256 mismatch: manifest %s, file %s";
  check (negb (Size digest =? km_ProvingKeySize manifest)) "proving key size mismatch: manifest %d, file %d".

Definition validateVerifyingKeyFile (manifest : KeyManifest) (dir : directory) (name : list Z) : checked :=
  _ ← check (blank (km_VKHash manifest)) "manifest vk_hash is required";
  _ ← check (blank (km_VerifyingKeySHA256 manifest)) "manifest verifying_key_sha256 is required";
  _ ← check (km_VerifyingKeySize manifest <=? 0) "manifest verifying_key_size is required";
  digest ← DigestFile dir name;
  _ ← check (differs (Blake2b256 digest) (km_VKHash manifest))
        "verifying key hash mismatch: manifest %s, file %s";
  _ ← check (differs (SHA256 digest) (km_VerifyingKeySHA256 manifest))
        "verifying key sha256 mismatch: manifest %s, file %s";
  check (negb (Size digest =? km_VerifyingKeySize manifest)) "verifying key size mismatch: manifest %d, file %d".

(** [ownershipBundlePaths], below the bundle's directory. *)
Definition manifestPath : list Z := str "manifest.json".
Definition pkPath : list Z := str "ownership.pk".
Definition vkPath : list Z := str "ownership.vk".

Definition LoadVK (dir : directory) (name : list Z) : result go_error VerifyingKey :=
  raw ← within "open %s" (read_file dir name);
  within "read vk %s" (vk_ReadFrom raw).

Definition LoadPK (dir : directory) (name : list Z) : result go_error ProvingKey :=
  raw ← within "open %s" (read_file dir name);
  within "read pk %s" (pk_UnsafeReadFrom raw).

Definition loadVerifier (dir : directory) (cfg : keyConfig) : result go_error OwnershipBundle :=
  manifest ← ReadKeyManifest dir manifestPath;
  _ ← validateManifest manifest cfg;
  _ ← validateVerifyingKeyFile manifest dir vkPath;
  vk ← LoadVK dir vkPath;
  Ok {| ob_Manifest := manifest; ob_ProvingKey := None; ob_VerifyingKey := vk |}.

Definition loadProver (dir : directory) (cfg : keyConfig) : result go_error OwnershipBundle :=
  manifest ← ReadKeyManifest dir manifestPath;
  _ ← validateManifest manifest cfg;
  _ ← validateProvingKeyFile manifest dir pkPath;
  _ ← validateVerifyingKeyFile manifest dir vkPath;
  pk ← LoadPK dir pkPath;
  vk ← LoadVK dir vkPath;
  Ok {| ob_Manifest := manifest; ob_ProvingKey := Some pk; ob_VerifyingKey := vk |}.

Definition invalid_bundle (manifest : option KeyManifest) (e : go_error) : BundleStatus := {|
  bs_State := str "invalid"; bs_Ready := false; bs_KeyVersion := []; bs_VKHash := [];
  bs_Error := Some e; bs_Manifest := manifest |}.

Definition inspectBundle (dir : directory) (requireProvingKey : bool) (cfg : keyConfig) : BundleStatus :=
  if negb (filesExist dir [manifestPath; vkPath]) || (requireProvingKey && negb (filesExist dir [pkPath]))
  then {| bs_State := str "missing"; bs_Ready := false; bs_KeyVersion := []; bs_VKHash := [];
          bs_Error := Some (Fail "key bundle is missing"); bs_Manifest := None |} else
  match ReadKeyManifest dir manifestPath with
  | Err e => invalid_bundle None e
  | Ok manifest =>
      match (_ ← validateManifest manifest cfg;
             _ ← (if requireProvingKey then validateProvingKeyFile manifest dir pkPath else Ok tt);
             validateVerifyingKeyFile manifest dir vkPath) with
      | Err e => invalid_bundle (Some manifest) e
      | Ok _ => {| bs_State := str "ready"; bs_Ready := true; bs_KeyVersion := km_KeyVersion manifest;
                   bs_VKHash := km_VKHash manifest; bs_Error := None; bs_Manifest := Some manifest |}
      end
  end.

(** The manifest of fresh keys, published at a time. *)
Definition fresh_manifest (cfg : keyConfig) (pkDigest vkDigest : FileDigest) (now : list Z) : KeyManifest := {|
  km_Schema := ManifestSchema;
  km_KeyVersion := kc_KeyVersion cfg;
  km_CircuitID := kc_CircuitID cfg;
  km_Curve := str "BLS12-381";
  km_Backend := str "groth16";
  km_VKHash := Blake2b256 vkDigest;
  km_ProvingKeySHA256 := SHA256 pkDigest;
  km_ProvingKeyBlake2b256 := Blake2b256 pkDigest;
  km_ProvingKeySize := Size pkDigest;
  km_VerifyingKeySHA256 := SHA256 vkDigest;
  km_VerifyingKeySize := Size vkDigest;
  km_ConstraintSystemHash := [];
  km_CircuitSourceCommit := [];
  km_ProofToolVersion := ProofToolVersion;
  km_GnarkVersion := GnarkVersion;
  km_SetupTranscriptHash := [];
  km_PublishedAt := now;
  km_ArtifactURLs := None;
  km_SignatureKeyID := str "local-dev-unsigned" |}.

(** [loadOrCreateBundle], with the directory it leaves; [toxic] is what setup draws and
    [now] the time. *)
Definition loadOrCreateBundle (dir : directory) (ccs : ConstraintSystem) (cfg : keyConfig)
    (toxic now : list Z) : result go_error OwnershipBundle * directory :=
  if filesExist dir [manifestPath; pkPath; vkPath] then (loadProver dir cfg, dir) else
  match within "groth16 setup" (groth16_Setup ccs toxic) with
  | Err e => (Err e, dir)
  | Ok (pk, vk) =>
      let dir := <[pkPath := pk_WriteRawTo pk]> dir in
      let dir := <[vkPath := vk_WriteTo vk]> dir in
      match DigestFile dir pkPath, DigestFile dir vkPath with
      | Ok pkDigest, Ok vkDigest =>
          let manifest := fresh_manifest cfg pkDigest vkDigest now in
          (Ok {| ob_Manifest := manifest; ob_ProvingKey := Some pk; ob_VerifyingKey := vk |},
           <[manifestPath := manifest_MarshalIndent manifest ++ [10]]> dir)
      | Err e, _ | _, Err e => (Err e, dir)
      end
  end.

(** [LoadOwnershipDestinationCCS]; a nil manifest is [None]. *)
Definition DestinationConstraintSystemFile : list Z := str "ownership-destination.ccs".

Definition LoadOwnershipDestinationCCS (dir : directory) (manifest : option KeyManifest) :
    result go_error ConstraintSystem :=
  _ ← within "frozen constraint system %s" (read_file dir DestinationConstraintSystemFile);
  match manifest with
  | None => Err (Fail "bundle contains %s but the key manifest does not pin constraint_system_hash")
  | Some m =>
      _ ← check (bool_decide (km_ConstraintSystemHash m = []))
            "bundle contains %s but the key manifest does not pin constraint_system_hash";
      digest ← DigestFile dir DestinationConstraintSystemFile;
      _ ← check (differs (Blake2b256 digest) (km_ConstraintSystemHash m))
            "constraint system hash mismatch: manifest %s, file %s";
      raw ← read_file dir DestinationConstraintSystemFile;
      within "read frozen constraint system" (ccs_ReadFrom raw)
  end.
End prover.

(** The three circuits' bundles. *)
Definition ownershipKeyConfig : keyConfig := {|
  kc_KeyVersion := DefaultKeyVersion; kc_CircuitID := CircuitID;
  kc_DirName := DefaultKeyVersion |}.
Definition ownershipDestinationKeyConfig : keyConfig := {|
  kc_KeyVersion := DefaultDestinationKeyVersion;
  kc_CircuitID := DestCircuitID;
  kc_DirName := DefaultDestinationKeyVersion |}.
Definition ownershipMultiKeyConfigForCount (count : Z) : keyConfig := {|
  kc_KeyVersion := KeyVersionForCount count; kc_CircuitID := CircuitIDForCount count;
  kc_DirName := KeyVersionForCount count |}.

(** * Layouts and bundles

    The Cardano layouts have fixed lengths and offsets, from which every field is read
    back; a bundle loads exactly when its files are the ones its manifest pins. *)

(** ** The documented behaviour of gnark's encodings *)

Class Groth16Encodings `{Groth16} := {
  g1_Bytes_length p : length (g1_Bytes p) = g1Len;
  g1_Marshal_length p : length (g1_Marshal p) = (2 * g1Len)%nat;
  g2_Bytes_length p : length (g2_Bytes p) = g2Len;
  proof_bytes proof : Forall is_byte (proof_WriteTo proof);
  proof_ReadFrom_WriteTo proof : proof_ReadFrom (proof_WriteTo proof) = Ok proof;
  vk_WriteTo_nonempty vk : vk_WriteTo vk ≠ [];
  vk_ReadFrom_WriteTo vk : vk_ReadFrom (vk_WriteTo vk) = Ok vk;
  pk_WriteRawTo_nonempty pk : pk_WriteRawTo pk ≠ [];
  pk_UnsafeReadFrom_WriteRawTo pk : pk_UnsafeReadFrom (pk_WriteRawTo pk) = Ok pk;
}.

Class ManifestJSONLaws `{ManifestJSON} := {
  manifest_round_trip m : km_ArtifactURLs m = None →
    manifest_Unmarshal (manifest_MarshalIndent m ++ [10]) = Ok m;
}.

(** ** Proofs *)

Section encodings.
Context `{Groth16Encodings}.

Lemma proof_text_round_trip proof : UnmarshalProof (MarshalProof proof) = Ok proof.
Proof.
  unfold UnmarshalProof, MarshalProof. rewrite b64_round_trip by apply proof_bytes.
  by rewrite proof_ReadFrom_WriteTo.
Qed.

(** The bytes at an offset of a concatenation. *)
Definition bytes_at {A} (off n : nat) (out : list A) : list A := take n (drop off out).

Lemma bytes_at_app {A} (off n : nat) (x y z : list A) : length x = off → length y = n →
  bytes_at off n (x ++ y ++ z) = y.
Proof. intros <- <-. unfold bytes_at. by rewrite drop_app_length, take_app_length. Qed.

Ltac layout_lengths := rewrite ?length_app, ?g1_Bytes_length, ?g1_Marshal_length, ?g2_Bytes_length.

(** One field of a layout: it lies between the fields before and behind it. *)
Lemma bytes_at_concat {A} (off n : nat) (xs : list (list A)) y zs : length (concat xs) = off → length y = n →
  bytes_at off n (concat (xs ++ y :: zs)) = y.
Proof. intros Hx Hy. rewrite concat_app. cbn [concat]. by apply bytes_at_app. Qed.

Lemma SerializeProof_layout proof cp : as_BlsProof proof = Some cp →
  ∃ out, SerializeProof proof = Ok out ∧ length out = CardanoProofLen ∧
    out = g1_Bytes (Ar cp) ++ g2_Bytes (Bs cp) ++ g1_Bytes (Krs cp).
Proof.
  intros Hcp. unfold SerializeProof. rewrite Hcp. eexists.
  assert (length (g1_Bytes (Ar cp) ++ g2_Bytes (Bs cp) ++ g1_Bytes (Krs cp)) = CardanoProofLen) as Hl
    by (by layout_lengths).
  split; [|split; [exact Hl|reflexivity]]. unfold wrong_length. by rewrite Hl, Nat.eqb_refl.
Qed.

(** The proof that the Cardano contract reads.  A proof without commitment is its three
    points in 192 bytes; one with a commitment is 336 bytes, the three points, the
    commitment's coordinates at [CmtOff] and the proof of knowledge at [PokOff]; a proof
    with more commitments is refused. *)
Theorem SerializeCardanoProof_layout proof cp : as_BlsProof proof = Some cp →
  match Commitments cp with
  | [] => ∃ out, SerializeCardanoProof proof = Ok (out, vanilla_format) ∧ length out = 192%nat ∧
      bytes_at 0 48 out = g1_Bytes (Ar cp) ∧ bytes_at 48 96 out = g2_Bytes (Bs cp) ∧
      bytes_at 144 48 out = g1_Bytes (Krs cp)
  | [c] => ∃ out, SerializeCardanoProof proof = Ok (out, commitment_format) ∧ length out = 336%nat ∧
      bytes_at 0 48 out = g1_Bytes (Ar cp) ∧ bytes_at 48 96 out = g2_Bytes (Bs cp) ∧
      bytes_at 144 48 out = g1_Bytes (Krs cp) ∧ bytes_at CmtOff 96 out = g1_Marshal c ∧
      bytes_at PokOff 48 out = g1_Bytes (CommitmentPok cp)
  | _ => is_ok (SerializeCardanoProof proof) = false
  end.
Proof.
  intros Hcp. unfold SerializeCardanoProof, SerializeProofCommitment. rewrite Hcp.
  destruct (SerializeProof_layout proof cp Hcp) as (out & Hout & Hl & Heq). rewrite Hout.
  destruct (Commitments cp) as [|c [|]]; cbn [mbind result_bind]; [..|done].
  - exists out. split; [done|]. split; [done|].
    assert (out = concat [g1_Bytes (Ar cp); g2_Bytes (Bs cp); g1_Bytes (Krs cp)]) as ->
      by (rewrite Heq; cbn; by rewrite app_nil_r).
    split_and!; [apply (bytes_at_concat _ _ [])|apply (bytes_at_concat _ _ [_])|apply (bytes_at_concat _ _ [_; _])];
      cbn [concat]; by layout_lengths.
  - unfold wrong_length. rewrite g1_Marshal_length, Nat.eqb_refl. cbn [negb check guard_err mbind result_bind].
    assert (length (out ++ g1_Marshal c ++ g1_Bytes (CommitmentPok cp)) = CardanoProofCommitmentLen) as Hl'
      by (rewrite length_app, Hl; by layout_lengths).
    rewrite Hl', Nat.eqb_refl. eexists. split; [reflexivity|]. split; [exact Hl'|].
    assert (out ++ g1_Marshal c ++ g1_Bytes (CommitmentPok cp) = concat [g1_Bytes (Ar cp); g2_Bytes (Bs cp);
      g1_Bytes (Krs cp); g1_Marshal c; g1_Bytes (CommitmentPok cp)]) as ->
      by (rewrite Heq; cbn; by rewrite app_nil_r, <- !app_assoc).
    split_and!; [apply (bytes_at_concat _ _ [])|apply (bytes_at_concat _ _ [_])|apply (bytes_at_concat _ _ [_; _])
      |apply (bytes_at_concat _ _ [_; _; _])|apply (bytes_at_concat _ _ [_; _; _; _])];
      cbn [concat]; by layout_lengths.
Qed.

(** The verifying key that the Cardano contract reads: 432 bytes, or, for a circuit with
    one commitment, 672 bytes with the third point of [K] at [K2Off] and the commitment
    key at [CKGOff] and [CKGSNOff]. *)
Theorem SerializeCardanoVK_layout vk cvk ic0 ic1 ks : as_BlsVK vk = Some cvk → K cvk = ic0 :: ic1 :: ks →
  let fields := [g1_Bytes (Alpha cvk); g2_Bytes (Beta cvk); g2_Bytes (Gamma cvk); g2_Bytes (Delta cvk);
                 g1_Bytes ic0; g1_Bytes ic1] in
  match CommitmentKeys cvk, ks with
  | [], _ => SerializeCardanoVK vk = Ok (concat fields, vanilla_format) ∧ length (concat fields) = 432%nat
  | [(g, gSigmaNeg)], k2 :: _ => ∃ out, SerializeCardanoVK vk = Ok (out, commitment_format) ∧
      length out = 672%nat ∧ take K2Off out = concat fields ∧ bytes_at K2Off 48 out = g1_Bytes k2 ∧
      bytes_at CKGOff 96 out = g2_Bytes g ∧ bytes_at CKGSNOff 96 out = g2_Bytes gSigmaNeg
  | _, _ => is_ok (SerializeCardanoVK vk) = false
  end.
Proof.
  intros Hvk HK fields.
  assert (length (concat fields) = CardanoVKLen) as Hl
    by (unfold fields; cbn [concat]; rewrite app_nil_r; by layout_lengths).
  assert (SerializeVK vk = Ok (concat fields)) as Hser.
  { unfold SerializeVK. rewrite Hvk, HK.
    replace (g1_Bytes (Alpha cvk) ++ _) with (concat fields) by (unfold fields; cbn [concat]; by rewrite app_nil_r).
    unfold wrong_length. by rewrite Hl, Nat.eqb_refl. }
  revert Hl Hser. generalize (concat fields) as out0. clear fields. intros out0 Hl Hser.
  unfold SerializeCardanoVK, SerializeVKCommitment. rewrite Hvk, HK, Hser.
  destruct (CommitmentKeys cvk) as [|[g gs] [|]], ks as [|k2 ks]; try done.
  cbn [mbind result_bind].
  assert (length (out0 ++ g1_Bytes k2 ++ g2_Bytes g ++ g2_Bytes gs) = CardanoVKCommitmentLen) as Hl'
    by (rewrite length_app, Hl; by layout_lengths).
  unfold wrong_length. rewrite Hl', Nat.eqb_refl. eexists. split; [reflexivity|]. split; [exact Hl'|].
  split; [by apply take_app_length'|].
  assert (out0 ++ g1_Bytes k2 ++ g2_Bytes g ++ g2_Bytes gs =
    concat [out0; g1_Bytes k2; g2_Bytes g; g2_Bytes gs]) as -> by (cbn; by rewrite app_nil_r).
  split_and!; [apply (bytes_at_concat _ _ [_])|apply (bytes_at_concat _ _ [_; _])|apply (bytes_at_concat _ _ [_; _; _])];
    cbn [concat]; rewrite ?app_nil_r, ?length_app, ?Hl; by layout_lengths.
Qed.
End encodings.

(** ** Bundles *)

Section bundles.
Context `{Groth16} `{XCryptoBlake2b} `{ManifestJSON}.

(** The file is the one that these pins describe. *)
Definition pinned (sha blake : list Z) (size : Z) (raw : list Z) : Prop :=
  sha256_string raw = sha ∧ blake2b256_string raw = blake ∧ Z.of_nat (length raw) = size ∧ 0 < size.

Definition manifest_for (cfg : keyConfig) (m : KeyManifest) : Prop :=
  blank (kc_KeyVersion cfg) = false ∧ km_KeyVersion m = kc_KeyVersion cfg ∧ km_CircuitID m = kc_CircuitID cfg ∧
  km_Curve m = str "BLS12-381" ∧ km_Backend m = str "groth16" ∧ km_GnarkVersion m = GnarkVersion.

Lemma validateManifest_Ok m cfg : validateManifest m cfg = Ok tt ↔ manifest_for cfg m.
Proof.
  unfold validateManifest, manifest_for. autorewrite with checks. rewrite !differs_false.
  split; [intros (Hb & Hv & ?); rewrite Hv in Hb; naive_solver|intros (Hb & Hv & ?); rewrite Hv; naive_solver].
Qed.

Lemma DigestFile_Ok dir name d : DigestFile dir name = Ok d ↔ ∃ raw, dir !! name = Some raw ∧ d = DigestBytes raw.
Proof.
  unfold DigestFile, read_file. destruct (dir !! name) as [raw|]; cbn; [|naive_solver].
  split; [intros [= <-]; by exists raw|by intros (? & [= <-] & ->)].
Qed.

Lemma validateVerifyingKeyFile_Ok m dir : (∀ raw, dir !! vkPath = Some raw → Forall is_byte raw) →
  validateVerifyingKeyFile m dir vkPath = Ok tt ↔
  ∃ raw, dir !! vkPath = Some raw ∧ pinned (km_VerifyingKeySHA256 m) (km_VKHash m) (km_VerifyingKeySize m) raw.
Proof.
  intros Hbytes. unfold validateVerifyingKeyFile, pinned. split.
  - intros Hv. inv_checks. match goal with H : DigestFile _ _ = Ok _ |- _ => apply DigestFile_Ok in H as (raw & ? & ->) end.
    exists raw. cbn in *. split_and!; try done. by apply Z.leb_gt.
  - intros (raw & Hr & <- & <- & <- & Hs). autorewrite with checks.
    rewrite sha256_string_not_blank, blake2b256_string_not_blank by auto.
    rewrite (proj2 (DigestFile_Ok dir vkPath (DigestBytes raw))) by eauto. cbn [mbind result_bind].
    autorewrite with checks. rewrite !differs_false. cbn. rewrite Z.eqb_refl, Z.leb_gt. done.
Qed.

Lemma validateProvingKeyFile_Ok m dir : (∀ raw, dir !! pkPath = Some raw → Forall is_byte raw) →
  validateProvingKeyFile m dir pkPath = Ok tt ↔
  ∃ raw, dir !! pkPath = Some raw ∧
    pinned (km_ProvingKeySHA256 m) (km_ProvingKeyBlake2b256 m) (km_ProvingKeySize m) raw.
Proof.
  intros Hbytes. unfold validateProvingKeyFile, pinned. split.
  - intros Hv. inv_checks. match goal with H : DigestFile _ _ = Ok _ |- _ => apply DigestFile_Ok in H as (raw & ? & ->) end.
    exists raw. cbn in *. split_and!; try done. by apply Z.leb_gt.
  - intros (raw & Hr & <- & <- & <- & Hs). autorewrite with checks.
    rewrite sha256_string_not_blank, blake2b256_string_not_blank by auto.
    rewrite (proj2 (DigestFile_Ok dir pkPath (DigestBytes raw))) by eauto. cbn [mbind result_bind].
    autorewrite with checks. rewrite !differs_false. cbn. rewrite Z.eqb_refl, Z.leb_gt. done.
Qed.

Lemma read_file_Ok label dir name raw : within label (read_file dir name) = Ok raw ↔ dir !! name = Some raw.
Proof. unfold read_file. destruct (dir !! name); cbn; naive_solver. Qed.

Lemma ReadKeyManifest_Ok dir m : ReadKeyManifest dir manifestPath = Ok m ↔
  ∃ raw, dir !! manifestPath = Some raw ∧ manifest_Unmarshal raw = Ok m ∧ km_Schema m = ManifestSchema.
Proof.
  unfold ReadKeyManifest. rewrite bind_Ok. split.
  - intros (raw & Hr%read_file_Ok & Hr2). inv_checks. by exists raw.
  - intros (raw & Hr & Hm & Hs). exists raw. rewrite read_file_Ok. split; [done|].
    apply bind_Ok. exists m. rewrite within_Ok. split; [done|]. pass_checks; done.
Qed.

(** What a directory of key files has to hold for verification. *)
Definition verifying_bundle (dir : directory) (cfg : keyConfig) (m : KeyManifest) (vk : VerifyingKey) : Prop :=
  (∃ raw, dir !! manifestPath = Some raw ∧ manifest_Unmarshal raw = Ok m) ∧ km_Schema m = ManifestSchema ∧
  manifest_for cfg m ∧
  ∃ raw, dir !! vkPath = Some raw ∧ pinned (km_VerifyingKeySHA256 m) (km_VKHash m) (km_VerifyingKeySize m) raw ∧
    vk_ReadFrom raw = Ok vk.

Definition byte_files (dir : directory) : Prop := map_Forall (λ _ raw, Forall is_byte raw) dir.

Lemma loadVerifier_Ok dir cfg b : byte_files dir → loadVerifier dir cfg = Ok b ↔
  ∃ m vk, verifying_bundle dir cfg m vk ∧
    b = {| ob_Manifest := m; ob_ProvingKey := None; ob_VerifyingKey := vk |}.
Proof.
  intros Hb. unfold loadVerifier, LoadVK. split.
  - intros H'. apply bind_Ok in H' as (m & (rm & Hm & Hu & Hs)%ReadKeyManifest_Ok & H').
    apply bind_Ok in H' as ([] & Hf%validateManifest_Ok & H').
    apply bind_Ok in H' as ([] & (raw & Hr & Hp)%validateVerifyingKeyFile_Ok & H'); [|intros ?; apply Hb].
    apply bind_Ok in H' as (vk & Hvk & [= <-]). apply bind_Ok in Hvk as (raw' & Hr'%read_file_Ok & Hvk%within_Ok).
    assert (raw' = raw) as -> by congruence. exists m, vk. split; [|done]. split_and!; eauto.
  - intros (m & vk & ((rm & Hm & Hu) & Hs & Hf & raw & Hr & Hp & Hvk) & ->).
    apply bind_Ok. exists m. split; [apply ReadKeyManifest_Ok; eauto|].
    apply bind_Ok. exists tt. split; [by apply validateManifest_Ok|].
    apply bind_Ok. exists tt. split; [apply validateVerifyingKeyFile_Ok; [intros ?; apply Hb|]; eauto|].
    apply bind_Ok. exists vk. split; [|done]. apply bind_Ok. exists raw. by rewrite read_file_Ok, within_Ok.
Qed.

(** A verifying key loads exactly when the manifest is one for this circuit, version and
    backend, and the key file is the one it pins, by both hashes and by size.  Two keys
    that load under one [vk_hash] are one key, or a collision of BLAKE2b-256. *)
Theorem loadVerifier_exact dir1 dir2 cfg1 cfg2 : byte_files dir1 → byte_files dir2 →
  (∀ b, loadVerifier dir1 cfg1 = Ok b ↔ ∃ m vk, verifying_bundle dir1 cfg1 m vk ∧
    b = {| ob_Manifest := m; ob_ProvingKey := None; ob_VerifyingKey := vk |}) ∧
  (∀ b1 b2, loadVerifier dir1 cfg1 = Ok b1 → loadVerifier dir2 cfg2 = Ok b2 →
    km_VKHash (ob_Manifest b1) = km_VKHash (ob_Manifest b2) →
    ob_VerifyingKey b1 = ob_VerifyingKey b2 ∨
    ∃ x y, dir1 !! vkPath = Some x ∧ dir2 !! vkPath = Some y ∧ x ≠ y ∧ blake2b_sum 32 x = blake2b_sum 32 y).
Proof.
  intros Hb1 Hb2. split; [intros; by apply loadVerifier_Ok|].
  intros b1 b2 (m1 & vk1 & (_ & _ & _ & x & Hx & (_ & Hh1 & _) & Hv1) & ->)%loadVerifier_Ok
    (m2 & vk2 & (_ & _ & _ & y & Hy & (_ & Hh2 & _) & Hv2) & ->)%loadVerifier_Ok Hh; [|done..]. cbn [ob_Manifest ob_VerifyingKey] in *.
  destruct (decide (x = y)) as [->|Hne]; [left; congruence|right]. exists x, y. split_and!; try done.
  apply blake2b256_string_inj; [by eapply Hb1|by eapply Hb2|congruence].
Qed.

Section fresh.
Context `{!Groth16Encodings} `{!ManifestJSONLaws}.
Context (vk_bytes : ∀ vk, Forall is_byte (vk_WriteTo vk)) (pk_bytes : ∀ pk, Forall is_byte (pk_WriteRawTo pk)).
Context (manifest_bytes : ∀ m, Forall is_byte (manifest_MarshalIndent m)).

Lemma pinned_DigestBytes raw : raw ≠ [] →
  pinned (SHA256 (DigestBytes raw)) (Blake2b256 (DigestBytes raw)) (Size (DigestBytes raw)) raw.
Proof. intros Hne. split_and!; try done. cbn. destruct raw; [done|cbn; lia]. Qed.

Lemma fresh_bundle_loads dir ccs cfg toxic now pk vk : byte_files dir → blank (kc_KeyVersion cfg) = false →
  filesExist dir [manifestPath; pkPath; vkPath] = false → groth16_Setup ccs toxic = Ok (pk, vk) →
  ∃ b dir', loadOrCreateBundle dir ccs cfg toxic now = (Ok b, dir') ∧
    ob_ProvingKey b = Some pk ∧ ob_VerifyingKey b = vk ∧
    loadProver dir' cfg = Ok b ∧
    loadVerifier dir' cfg = Ok {| ob_Manifest := ob_Manifest b; ob_ProvingKey := None; ob_VerifyingKey := vk |} ∧
    bs_Ready (inspectBundle dir' true cfg) = true ∧
    bs_VKHash (inspectBundle dir' true cfg) = km_VKHash (ob_Manifest b) ∧
    ∀ ccs' toxic' now', loadOrCreateBundle dir' ccs' cfg toxic' now' = (Ok b, dir').
Proof.
  intros Hb Hv Hno Hsetup.
  set (rpk := pk_WriteRawTo pk). set (rvk := vk_WriteTo vk).
  set (m := fresh_manifest cfg (DigestBytes rpk) (DigestBytes rvk) now).
  set (dir' := <[manifestPath := manifest_MarshalIndent m ++ [10]]> (<[vkPath := rvk]> (<[pkPath := rpk]> dir))).
  set (b := {| ob_Manifest := m; ob_ProvingKey := Some pk; ob_VerifyingKey := vk |}). exists b, dir'.
  assert (dir' !! manifestPath = Some (manifest_MarshalIndent m ++ [10])) as Hm by apply lookup_insert_eq.
  assert (dir' !! vkPath = Some rvk) as Hvk
    by (unfold dir'; rewrite lookup_insert_ne by done; apply lookup_insert_eq).
  assert (dir' !! pkPath = Some rpk) as Hpk
    by (unfold dir'; rewrite !lookup_insert_ne by done; apply lookup_insert_eq).
  assert (ReadKeyManifest dir' manifestPath = Ok m) as Hread
    by (apply ReadKeyManifest_Ok; eexists; split_and!; [exact Hm|by apply manifest_round_trip|done]).
  assert (validateManifest m cfg = Ok tt) as Hval by (by apply validateManifest_Ok).
  assert (validateProvingKeyFile m dir' pkPath = Ok tt) as Hvp.
  { apply validateProvingKeyFile_Ok; [intros ? ?; simplify_eq; apply pk_bytes|].
    exists rpk. split; [done|]. apply pinned_DigestBytes, pk_WriteRawTo_nonempty. }
  assert (validateVerifyingKeyFile m dir' vkPath = Ok tt) as Hvv.
  { apply validateVerifyingKeyFile_Ok; [intros ? ?; simplify_eq; apply vk_bytes|].
    exists rvk. split; [done|]. apply pinned_DigestBytes, vk_WriteTo_nonempty. }
  assert (LoadPK dir' pkPath = Ok pk) as Hlp
    by (unfold LoadPK, read_file; rewrite Hpk; cbn; unfold rpk; by rewrite pk_UnsafeReadFrom_WriteRawTo).
  assert (LoadVK dir' vkPath = Ok vk) as Hlv
    by (unfold LoadVK, read_file; rewrite Hvk; cbn; unfold rvk; by rewrite vk_ReadFrom_WriteTo).
  assert (loadProver dir' cfg = Ok b) as Hload.
  { unfold loadProver. rewrite Hread. cbn [mbind result_bind]. by rewrite Hval, Hvp, Hvv, Hlp, Hlv. }
  assert (filesExist dir' [manifestPath; pkPath; vkPath] = true) as Hex.
  { unfold filesExist. cbn [forallb]. rewrite Hm, Hpk, Hvk. done. }
  split_and!; try done.
  - unfold loadOrCreateBundle. rewrite Hno, Hsetup. cbn [within map_err].
    unfold DigestFile, read_file. rewrite !lookup_insert_ne, lookup_insert_eq by done.
    cbn [within map_err mbind result_bind]. rewrite lookup_insert_eq. reflexivity.
  - unfold loadVerifier. rewrite Hread. cbn [mbind result_bind]. by rewrite Hval, Hvv, Hlv.
  - unfold inspectBundle, filesExist. cbn [forallb]. rewrite Hm, Hvk, Hpk, Hread. cbn [mbind result_bind].
    by rewrite Hval, Hvp, Hvv.
  - unfold inspectBundle, filesExist. cbn [forallb]. rewrite Hm, Hvk, Hpk, Hread. cbn [mbind result_bind].
    by rewrite Hval, Hvp, Hvv.
  - intros ccs' toxic' now'. unfold loadOrCreateBundle. by rewrite Hex, Hload.
Qed.

(** Fresh keys load.  When setup succeeds in a directory without a bundle,
    [loadOrCreateBundle] leaves a directory from which the prover and the verifier load
    the same keys and the same manifest, which inspects as ready, and in which asking
    for a bundle again neither runs setup nor changes anything. *)
Theorem created_bundle_loads dir ccs cfg toxic now pk vk : byte_files dir → blank (kc_KeyVersion cfg) = false →
  filesExist dir [manifestPath; pkPath; vkPath] = false → groth16_Setup ccs toxic = Ok (pk, vk) →
  ∃ b dir', loadOrCreateBundle dir ccs cfg toxic now = (Ok b, dir') ∧
    ob_ProvingKey b = Some pk ∧ ob_VerifyingKey b = vk ∧
    loadProver dir' cfg = Ok b ∧
    loadVerifier dir' cfg = Ok {| ob_Manifest := ob_Manifest b; ob_ProvingKey := None; ob_VerifyingKey := vk |} ∧
    bs_Ready (inspectBundle dir' true cfg) = true ∧
    bs_VKHash (inspectBundle dir' true cfg) = km_VKHash (ob_Manifest b) ∧
    ∀ ccs' toxic' now', loadOrCreateBundle dir' ccs' cfg toxic' now' = (Ok b, dir').
Proof. exact (fresh_bundle_loads dir ccs cfg toxic now pk vk). Qed.
End fresh.
End bundles.
