(* ===== verification/Commands.v ===== *)
(** * The commands: [cmd/proof-tool/main.go]

    [prove], [prove-destination], [prove-multi], the three [verify] commands and
    [export-cardano], after their flags are parsed: what they compute, and what they do
    to the key directory.  [context.Background()] is never cancelled. *)
From stdpp Require Import strings gmap.
From S2P Require Import Prelude.
From S2P Require Import Gnark.
From S2P Require Import Ckd.
From S2P Require Import GoText.
From S2P Require Import GoError.
From S2P Require Import Ownership.
From S2P Require Import OwnershipCircuit.
From S2P Require Import Discovery.
From S2P Require Import Artifact.
From S2P Require Import Prover.

(** The errors of the packages a command calls. *)
Inductive cmd_error :=
| CmdErr (e : go_error)
| CmdOwnership (e : ownership_error)
| CmdDest (e : dest_error)
| CmdDiscovery (e : discovery_error).

Definition require (fails : bool) (message : string) : result cmd_error unit :=
  guard_err fails (CmdErr (Fail message)).

Definition DestPublicInputEncoding : list Z := str "single-credential-destination-v1".
Definition MultiPublicInputEncoding : list Z := str "multi-credential-fixed-v1".
Definition DestinationAddressEncoding : list Z := str "destination-address-v1".

(** ** Flags *)

(** [strings.FieldsFunc(s, p)]. *)
Fixpoint fields_func (p : Z → bool) (s cur : list Z) : list (list Z) :=
  match s with
  | [] => if decide (cur = []) then [] else [cur]
  | c :: s => if p c then (if decide (cur = []) then [] else [cur]) ++ fields_func p s []
              else fields_func p s (cur ++ [c])
  end.

(** [strconv.ParseUint(s, 10, 32)]. *)
Definition ParseUint32 (s : list Z) : option Z :=
  if bool_decide (s = []) || negb (forallb (λ c, (48 <=? c) && (c <=? 57)) s) then None else
  n ← SetString 10 s;
  if n <? 2 ^ 32 then Some n else None.

Definition parsePathPart (value : list Z) (message : string) : result go_error Z :=
  match ParseUint32 (TrimSpace value) with Some n => Ok n | None => Err (Fail message) end.

(** [Set] and the printed form of one path of a [pathListFlag]. *)
Definition pathListFlag_Set (value : list Z) : result go_error Path :=
  match fields_func (λ r, (r =? 47) || (r =? 44)) (TrimSpace value) [] with
  | [a; r; i] =>
      account ← parsePathPart a "account path component %q is invalid";
      role ← parsePathPart r "role path component %q is invalid";
      index ← parsePathPart i "index path component %q is invalid";
      Ok {| Account := account; Role := role; Index := index |}
  | _ => Err (Fail "path %q must be account/role/index")
  end.
Definition path_String (p : Path) : list Z :=
  Itoa (Account p) ++ str "/" ++ Itoa (Role p) ++ str "/" ++ Itoa (Index p).

(** [decodeCredentialList]. *)
Fixpoint decode_credentials (values : list (list Z)) : result cmd_error (list (list Z)) :=
  match values with
  | [] => Ok []
  | value :: values =>
      credential ← map_err CmdOwnership (DecodeCredentialHex value);
      rest ← decode_credentials values;
      Ok (credential :: rest)
  end.
Definition decodeCredentialList (values : list (list Z)) : result cmd_error (list (list Z)) :=
  _ ← map_err CmdDest (ValidateCredentialCount (Z.of_nat (length values)));
  decode_credentials values.

Definition decodeMultiPaths (values : list Path) (wantCount : nat) : result cmd_error (list Path) :=
  _ ← map_err CmdDest (ValidateCredentialCount (Z.of_nat wantCount));
  _ ← require (negb (length values =? wantCount)%nat) "--path must be repeated exactly %d times";
  Ok values.

Definition encodeHexList (values : list (list Z)) : list (list Z) := hex_EncodeToString <$> values.

Section commands.
Context `{Groth16} `{Edwards25519} `{XCryptoBlake2b} `{Field} `{ManifestJSON}.

(** ** Proving *)

(** The end of the three proving commands: compile, load or create the bundle, prove and
    encode; with the directory of the keys.  [toxic], [now] and [blinding] are what setup,
    the clock and the prover draw. *)
Definition prove_assignment (dir : directory) (circuit : circuit_name) (cfg : keyConfig)
    (assignment : Witness) (publicInputDigest : result cmd_error (list Z)) (toxic now blinding : list Z) :
    result cmd_error (list Z * list Z * CardanoProof) * directory :=
  match Compile circuit with
  | Err e => (Err (CmdErr e), dir)
  | Ok ccs =>
      let (loaded, dir) := loadOrCreateBundle dir ccs cfg toxic now in
      (bundle ← map_err CmdErr loaded;
       match ob_ProvingKey bundle with
       | None => Err (CmdErr (Fail "nil proving key"))
       | Some pk =>
           proof ← map_err CmdErr (Prove ccs pk assignment blinding);
           let encodedProof := MarshalProof proof in
           digest ← publicInputDigest;
           cardanoProof ← map_err CmdErr (CardanoProofArtifactWithDigest proof digest);
           Ok (km_VKHash (ob_Manifest bundle), encodedProof, cardanoProof)
       end, dir)
  end.

(** [if err != nil { return err }] before the keys are touched. *)
Definition after {A B : Type} (r : result cmd_error A) (dir : directory)
    (k : A → result cmd_error B * directory) : result cmd_error B * directory :=
  match r with Ok a => k a | Err e => (Err e, dir) end.

Definition cmdProve (dir : directory) (fuel : nat) (masterHex targetHex : list Z) (search : SearchOptions)
    (toxic now blinding : list Z) : result cmd_error ProofArtifact * directory :=
  after (_ ← require (bool_decide (masterHex = [])) "--master-xprv is required";
         _ ← require (bool_decide (targetHex = [])) "--target-credential is required";
         master ← map_err CmdOwnership (DecodeMasterXPrvHex masterHex);
         target ← map_err CmdOwnership (DecodeCredentialHex targetHex);
         path ← map_err CmdDiscovery (DiscoverCredentialPath fuel (λ _, false) master target
                  {| Search := search; ProgressEvery := 0 |});
         publicInput ← map_err CmdOwnership (PublicInputForCredential target);
         assignment ← map_err CmdOwnership (Assignment master path publicInput);
         Ok (target, path, publicInput, assignment)) dir
  (λ '(target, path, publicInput, assignment),
    let (proved, dir) := prove_assignment dir OwnershipC ownershipKeyConfig (OwnershipW assignment)
      (map_err CmdOwnership (PublicInputDigestForCredential target)) toxic now blinding in
    ('(vkHash, encodedProof, cardanoProof) ← proved;
     Ok {| pa_Schema := ProofSchema; pa_CircuitID := CircuitID; pa_VKHash := vkHash;
           pa_TargetCredential := hex_EncodeToString target; pa_TargetCredentials := [];
           pa_DestinationAddressEncoding := []; pa_DestinationAddress := []; pa_CredentialCount := 0;
           pa_PublicInputEncoding := []; pa_PublicInput := PublicInputHex publicInput;
           pa_Proof := encodedProof; pa_Cardano := Some cardanoProof;
           pa_Path := Some path; pa_Paths := [] |}, dir)).

Definition cmdProveDestination (dir : directory) (fuel : nat) (masterHex targetHex destinationHex : list Z)
    (search : SearchOptions) (toxic now blinding : list Z) : result cmd_error ProofArtifact * directory :=
  after (_ ← require (bool_decide (masterHex = [])) "--master-xprv is required";
         _ ← require (bool_decide (targetHex = [])) "--target-credential is required";
         _ ← require (bool_decide (destinationHex = [])) "--destination-address-bytes is required";
         master ← map_err CmdOwnership (DecodeMasterXPrvHex masterHex);
         target ← map_err CmdOwnership (DecodeCredentialHex targetHex);
         destination ← map_err CmdDest (DecodeDestinationAddressV1Hex destinationHex);
         path ← map_err CmdDiscovery (DiscoverCredentialPath fuel (λ _, false) master target
                  {| Search := search; ProgressEvery := 0 |});
         publicInput ← map_err CmdDest (PublicInputForCredentialDestination target destination);
         assignment ← map_err CmdDest (DestAssignment master path destination (Some publicInput));
         Ok (target, destination, path, publicInput, assignment)) dir
  (λ '(target, destination, path, publicInput, assignment),
    let (proved, dir) := prove_assignment dir DestinationC ownershipDestinationKeyConfig (DestinationW assignment)
      (map_err CmdDest (PublicInputDigestForCredentialDestination target destination)) toxic now blinding in
    ('(vkHash, encodedProof, cardanoProof) ← proved;
     Ok {| pa_Schema := ProofSchema; pa_CircuitID := DestCircuitID; pa_VKHash := vkHash;
           pa_TargetCredential := hex_EncodeToString target; pa_TargetCredentials := [];
           pa_DestinationAddressEncoding := DestinationAddressEncoding;
           pa_DestinationAddress := hex_EncodeToString destination; pa_CredentialCount := 0;
           pa_PublicInputEncoding := DestPublicInputEncoding; pa_PublicInput := PublicInputHex publicInput;
           pa_Proof := encodedProof; pa_Cardano := Some cardanoProof;
           pa_Path := Some path; pa_Paths := [] |}, dir)).

Definition cmdProveMulti (dir : directory) (masterHex destinationHex : list Z) (targetFlags : list (list Z))
    (pathFlags : list Path) (toxic now blinding : list Z) : result cmd_error ProofArtifact * directory :=
  let count := Z.of_nat (length targetFlags) in
  after (_ ← require (bool_decide (masterHex = [])) "--master-xprv is required";
         _ ← require (bool_decide (destinationHex = [])) "--destination-address-bytes is required";
         master ← map_err CmdOwnership (DecodeMasterXPrvHex masterHex);
         targets ← decodeCredentialList targetFlags;
         paths ← decodeMultiPaths pathFlags (length targets);
         destination ← map_err CmdDest (DecodeDestinationAddressV1Hex destinationHex);
         derived ← map_err CmdDest (DeriveCredentials master paths);
         _ ← require (bool_decide (targets ≠ derived)) "target credential %d does not match path %d/%d/%d";
         publicInput ← map_err CmdDest (PublicInputForCredentialsDestination targets destination);
         assignment ← map_err CmdDest (MultiAssignment master paths destination (Some publicInput));
         Ok (targets, destination, paths, publicInput, assignment)) dir
  (λ '(targets, destination, paths, publicInput, assignment),
    let (proved, dir) := prove_assignment dir (MultiC count) (ownershipMultiKeyConfigForCount count)
      (MultiW assignment)
      (map_err CmdDest (PublicInputDigestForCredentialsDestination targets destination)) toxic now blinding in
    ('(vkHash, encodedProof, cardanoProof) ← proved;
     Ok {| pa_Schema := ProofSchema; pa_CircuitID := CircuitIDForCount count; pa_VKHash := vkHash;
           pa_TargetCredential := []; pa_TargetCredentials := encodeHexList targets;
           pa_DestinationAddressEncoding := DestinationAddressEncoding;
           pa_DestinationAddress := hex_EncodeToString destination; pa_CredentialCount := count;
           pa_PublicInputEncoding := MultiPublicInputEncoding; pa_PublicInput := PublicInputHex publicInput;
           pa_Proof := encodedProof; pa_Cardano := Some cardanoProof;
           pa_Path := None; pa_Paths := paths |}, dir)).

(** ** Verifying *)

(** [ReadProof], after the JSON is decoded. *)
Definition readProofSchema (p : ProofArtifact) : result cmd_error unit :=
  require (differs (pa_Schema p) ProofSchema) "proof schema %q, want %q".

Definition validateSingleProofArtifact (p : ProofArtifact) : result cmd_error (Z * list Z) :=
  _ ← require (differs (pa_CircuitID p) CircuitID) "artifact circuit id %q, want %q";
  target ← map_err CmdOwnership (DecodeCredentialHex (pa_TargetCredential p));
  publicInput ← map_err CmdOwnership (PublicInputForCredential target);
  _ ← require (differs (PublicInputHex publicInput) (pa_PublicInput p))
        "artifact public input %s does not match recomputed %s";
  Ok (publicInput, target).

Definition validateDestinationProofArtifact (p : ProofArtifact) : result cmd_error (Z * list Z) :=
  _ ← require (differs (pa_CircuitID p) DestCircuitID) "artifact circuit id %q, want %q";
  _ ← require (differs (pa_PublicInputEncoding p) DestPublicInputEncoding)
        "artifact public input encoding %q, want %q";
  _ ← require (differs (pa_DestinationAddressEncoding p) DestinationAddressEncoding)
        "artifact destination address encoding %q, want %q";
  credential ← map_err CmdOwnership (DecodeCredentialHex (pa_TargetCredential p));
  destination ← map_err CmdDest (DecodeDestinationAddressV1Hex (pa_DestinationAddress p));
  publicInput ← map_err CmdDest (PublicInputForCredentialDestination credential destination);
  _ ← require (differs (PublicInputHex publicInput) (pa_PublicInput p))
        "artifact public input %s does not match recomputed %s";
  publicInputDigest ← map_err CmdDest (PublicInputDigestForCredentialDestination credential destination);
  Ok (publicInput, publicInputDigest).

Definition validateMultiProofArtifact (p : ProofArtifact) : result cmd_error (Z * list Z * Z) :=
  match CircuitCountFromID (pa_CircuitID p) with
  | None => Err (CmdErr (Fail "artifact circuit id %q is not a supported multi circuit id"))
  | Some count =>
      _ ← require (negb (pa_CredentialCount p =? count)) "artifact credential count %d, want %d";
      _ ← require (differs (pa_PublicInputEncoding p) MultiPublicInputEncoding)
            "artifact public input encoding %q, want %q";
      _ ← require (differs (pa_DestinationAddressEncoding p) DestinationAddressEncoding)
            "artifact destination address encoding %q, want %q";
      credentials ← decodeCredentialList (pa_TargetCredentials p);
      _ ← require (negb (Z.of_nat (length credentials) =? count)) "artifact target credential count %d, want %d";
      destination ← map_err CmdDest (DecodeDestinationAddressV1Hex (pa_DestinationAddress p));
      publicInput ← map_err CmdDest (PublicInputForCredentialsDestination credentials destination);
      _ ← require (differs (PublicInputHex publicInput) (pa_PublicInput p))
            "artifact public input %s does not match recomputed %s";
      publicInputDigest ← map_err CmdDest (PublicInputDigestForCredentialsDestination credentials destination);
      Ok (publicInput, publicInputDigest, count)
  end.

(** The end of the verifying commands: the proof, against the bundle of [dir]. *)
Definition verify_in_bundle (dir : directory) (cfg : keyConfig) (p : ProofArtifact) (publicInput : Z) :
    result cmd_error (OwnershipBundle * Proof) :=
  bundle ← map_err CmdErr (loadVerifier dir cfg);
  _ ← require (differs (pa_VKHash p) (km_VKHash (ob_Manifest bundle)))
        "artifact vk hash %s does not match bundled %s";
  proof ← map_err CmdErr (UnmarshalProof (pa_Proof p));
  _ ← map_err CmdErr (VerifyProof (ob_VerifyingKey bundle) proof publicInput);
  Ok (bundle, proof).

Definition cmdVerify (dir : directory) (p : ProofArtifact) : result cmd_error unit :=
  _ ← readProofSchema p;
  '(publicInput, _) ← validateSingleProofArtifact p;
  _ ← verify_in_bundle dir ownershipKeyConfig p publicInput;
  Ok tt.

Definition cmdVerifyDestination (dir : directory) (p : ProofArtifact) : result cmd_error unit :=
  _ ← readProofSchema p;
  '(publicInput, _) ← validateDestinationProofArtifact p;
  _ ← verify_in_bundle dir ownershipDestinationKeyConfig p publicInput;
  Ok tt.

(** [ownershipmulti.PublicAssignment] only fails for a count that is out of range. *)
Definition cmdVerifyMulti (dir : directory) (p : ProofArtifact) : result cmd_error unit :=
  _ ← readProofSchema p;
  '(publicInput, _, count) ← validateMultiProofArtifact p;
  bundle ← map_err CmdErr (loadVerifier dir (ownershipMultiKeyConfigForCount count));
  _ ← require (differs (pa_VKHash p) (km_VKHash (ob_Manifest bundle)))
        "artifact vk hash %s does not match bundled %s";
  proof ← map_err CmdErr (UnmarshalProof (pa_Proof p));
  _ ← map_err CmdDest (ValidateCredentialCount count);
  map_err CmdErr (VerifyProof (ob_VerifyingKey bundle) proof publicInput).

(** ** Exporting for the contract *)

(** [proof.hex], [vk.hex], [pub.hex] and [format.txt], in a directory. *)
Definition export_files (proof : Proof) (vk : VerifyingKey) (publicInputDigest : list Z) (outDir : directory) :
    result cmd_error directory :=
  '(proofBytes, proofFormat) ← map_err CmdErr (SerializeCardanoProof proof);
  '(vkBytes, vkFormat) ← map_err CmdErr (SerializeCardanoVK vk);
  _ ← require (differs proofFormat vkFormat) "cardano proof format %q does not match vk format %q";
  Ok (<[str "format.txt" := proofFormat ++ [10]]>
     (<[str "pub.hex" := hex_EncodeToString publicInputDigest ++ [10]]>
     (<[str "vk.hex" := hex_EncodeToString vkBytes ++ [10]]>
     (<[str "proof.hex" := hex_EncodeToString proofBytes ++ [10]]> outDir)))).

(** Here the verifying key is taken by its hash alone. *)
Definition exportCardanoSingle (p : ProofArtifact) (dir outDir : directory) : result cmd_error directory :=
  '(publicInput, target) ← validateSingleProofArtifact p;
  publicInputDigest ← map_err CmdOwnership (PublicInputDigestForCredential target);
  vkDigest ← map_err CmdErr (DigestFile dir vkPath);
  _ ← require (differs (pa_VKHash p) (Blake2b256 vkDigest)) "artifact vk hash %s does not match %s hash %s";
  verifyingKey ← map_err CmdErr (LoadVK dir vkPath);
  proof ← map_err CmdErr (UnmarshalProof (pa_Proof p));
  _ ← map_err CmdErr (VerifyProof verifyingKey proof publicInput);
  export_files proof verifyingKey publicInputDigest outDir.

Definition exportCardanoDestination (p : ProofArtifact) (dir outDir : directory) : result cmd_error directory :=
  '(publicInput, publicInputDigest) ← validateDestinationProofArtifact p;
  '(bundle, proof) ← verify_in_bundle dir ownershipDestinationKeyConfig p publicInput;
  export_files proof (ob_VerifyingKey bundle) publicInputDigest outDir.

Definition exportCardanoMulti (p : ProofArtifact) (dir outDir : directory) : result cmd_error directory :=
  '(publicInput, publicInputDigest, count) ← validateMultiProofArtifact p;
  bundle ← map_err CmdErr (loadVerifier dir (ownershipMultiKeyConfigForCount count));
  _ ← require (differs (pa_VKHash p) (km_VKHash (ob_Manifest bundle)))
        "artifact vk hash %s does not match bundled %s";
  proof ← map_err CmdErr (UnmarshalProof (pa_Proof p));
  _ ← map_err CmdDest (ValidateCredentialCount count);
  _ ← map_err CmdErr (VerifyProof (ob_VerifyingKey bundle) proof publicInput);
  export_files proof (ob_VerifyingKey bundle) publicInputDigest outDir.

Definition cmdExportCardano (p : ProofArtifact) (dir outDir : directory) : result cmd_error directory :=
  _ ← readProofSchema p;
  if bool_decide (pa_CircuitID p = CircuitID) then exportCardanoSingle p dir outDir
  else if bool_decide (pa_CircuitID p = DestCircuitID) then exportCardanoDestination p dir outDir
  else if IsCircuitID (pa_CircuitID p) then exportCardanoMulti p dir outDir
  else Err (CmdErr (Fail "artifact circuit id %q is not supported")).
End commands.
