(* ===== verification/Verifier.v ===== *)
(** * The verification service: [internal/verifier]

    [verifier.go] ([VerifyArtifact] and the verifiers behind it), [fixture.go],
    [pinned.go] and the request handlers of [server.go]. *)
From stdpp Require Import strings gmap.
From S2P Require Import Prelude.
From S2P Require Import Gnark.
From S2P Require Import GoText.
From S2P Require Import GoError.
From S2P Require Import Ownership.
From S2P Require Import Artifact.
From S2P Require Import Prover.

Section verifier.
Context `{Groth16} `{Field} `{XCryptoBlake2b}.

(** ** Verifiers *)

(** [ProofVerifier]; [VerifyEncodedProof] is there when the value also is an
    [EncodedProofVerifier]. *)
Record ProofVerifier := {
  pv_VKHash : list Z;
  pv_VerifyProof : Proof → Z → checked;
  pv_VerifyEncodedProof : option (list Z → Z → checked) }.

(** [BundleVerifier], on a bundle of [LoadOwnershipVerifier]. *)
Definition BundleVerifier (bundle : OwnershipBundle) : ProofVerifier := {|
  pv_VKHash := km_VKHash (ob_Manifest bundle);
  pv_VerifyProof := VerifyProof (ob_VerifyingKey bundle);
  pv_VerifyEncodedProof := None |}.

Definition LoadBundleVerifier `{ManifestJSON} (keysDir : directory) : result go_error ProofVerifier :=
  bundle ← loadVerifier keysDir ownershipKeyConfig;
  Ok (BundleVerifier bundle).

Definition FixtureVKHash : list Z := str "blake2b256:fixture-verifier".

Definition FixtureVerifier : ProofVerifier := {|
  pv_VKHash := FixtureVKHash;
  pv_VerifyProof := λ _ _, Err (Fail "fixture verifier requires encoded proof verification");
  pv_VerifyEncodedProof := Some (λ encodedProof _,
    check (differs encodedProof (str "fixture-proof")) "fixture proof mismatch") |}.

(** [LoadPinnedVerifier]: the pinned key is retired. *)
Definition LoadPinnedVerifier : result go_error ProofVerifier :=
  Err (Fail "pinned ownership-v1 verifier retired: it was compiled with a gnark version affected by GHSA-3mvx-pp85-pm65").

(** ** Requests and responses *)

Record VerifyRequest := { vq_Artifact : ProofArtifact; vq_ExpectedTargetCredential : list Z }.

(** Why an artifact is not verified. *)
Inductive reason :=
| NotConfigured                     (* "verifier is not configured" *)
| UnsupportedSchema                 (* "artifact schema %q is not supported" *)
| UnsupportedCircuit                (* "artifact circuit id %q is not supported" *)
| CredentialError (e : ownership_error)
| ExpectedInvalid                   (* "expected target credential is invalid" *)
| ExpectedMismatch                  (* "artifact target credential does not match ..." *)
| PublicInputMismatch               (* "artifact public input does not match ..." *)
| VKHashMismatch                    (* "artifact verifying key hash does not match ..." *)
| MalformedProof                    (* "artifact proof is malformed" *)
| NotVerified                       (* "proof did not verify" *)
| BadRequest.                       (* "request body is not a valid verification request" *)

Record VerifyResponse := {
  vr_Verified : bool;
  vr_Reason : option reason;
  vr_CircuitID : list Z;
  vr_VKHash : list Z;
  vr_TargetCredential : list Z;
  vr_PublicInput : list Z }.

Definition failed (r : reason) : VerifyResponse := {|
  vr_Verified := false; vr_Reason := Some r; vr_CircuitID := CircuitID;
  vr_VKHash := []; vr_TargetCredential := []; vr_PublicInput := [] |}.

Definition failedWithPublic (r : reason) (vkHash targetCredential publicInput : list Z) : VerifyResponse := {|
  vr_Verified := false; vr_Reason := Some r; vr_CircuitID := CircuitID;
  vr_VKHash := vkHash; vr_TargetCredential := targetCredential; vr_PublicInput := publicInput |}.

Definition verified (vkHash targetCredential publicInput : list Z) : VerifyResponse := {|
  vr_Verified := true; vr_Reason := None; vr_CircuitID := CircuitID;
  vr_VKHash := vkHash; vr_TargetCredential := targetCredential; vr_PublicInput := publicInput |}.

(** The expected credential of a request against the target of its artifact. *)
Definition check_expected (expected : list Z) (target : list Z) : result reason unit :=
  if blank expected then Ok tt else
  match DecodeCredentialHex expected with
  | Err _ => Err ExpectedInvalid
  | Ok expected => guard_err (differs target expected) ExpectedMismatch
  end.

(** The proof of an artifact, encoded or decoded. *)
Definition check_proof (v : ProofVerifier) (proof : list Z) (publicInput : Z) : result reason unit :=
  match pv_VerifyEncodedProof v with
  | Some verifyEncoded => map_err (λ _, NotVerified) (verifyEncoded proof publicInput)
  | None =>
      match UnmarshalProof proof with
      | Err _ => Err MalformedProof
      | Ok proof => map_err (λ _, NotVerified) (pv_VerifyProof v proof publicInput)
      end
  end.

(** [VerifyArtifact]; a nil verifier is [None]. *)
Definition VerifyArtifact (req : VerifyRequest) (proofVerifier : option ProofVerifier) : VerifyResponse :=
  match proofVerifier with
  | None => failed NotConfigured
  | Some v =>
      let proofArtifact := BackendProofArtifact (vq_Artifact req) in
      if differs (pa_Schema proofArtifact) ProofSchema then failed UnsupportedSchema else
      if differs (pa_CircuitID proofArtifact) CircuitID then failed UnsupportedCircuit else
      match DecodeCredentialHex (pa_TargetCredential proofArtifact) with
      | Err e => failed (CredentialError e)
      | Ok target =>
          let targetHex := hex_EncodeToString target in
          match check_expected (vq_ExpectedTargetCredential req) target with
          | Err ExpectedInvalid => failed ExpectedInvalid
          | Err r => failedWithPublic r (pv_VKHash v) targetHex []
          | Ok _ =>
              match PublicInputForCredential target with
              | Err e => failed (CredentialError e)
              | Ok publicInput =>
                  let publicInputHex := PublicInputHex publicInput in
                  if differs (pa_PublicInput proofArtifact) publicInputHex
                  then failedWithPublic PublicInputMismatch (pv_VKHash v) targetHex publicInputHex else
                  if differs (pa_VKHash proofArtifact) (pv_VKHash v)
                  then failedWithPublic VKHashMismatch (pv_VKHash v) targetHex publicInputHex else
                  match check_proof v (pa_Proof proofArtifact) publicInput with
                  | Err r => failedWithPublic r (pv_VKHash v) targetHex publicInputHex
                  | Ok _ => verified (pv_VKHash v) targetHex publicInputHex
                  end
              end
          end
      end
  end.

(** ** The server *)

Record Server := { sv_Verifier : ProofVerifier; sv_AllowedOrigins : gset (list Z) }.

Definition NewServer (proofVerifier : ProofVerifier) (allowedOrigins : list (list Z)) : Server := {|
  sv_Verifier := proofVerifier;
  sv_AllowedOrigins := list_to_set (filter (λ o, o ≠ []) (TrimSpace <$> allowedOrigins)) |}.

(** A request, as the handlers see it: its method, path and [Origin] header (empty when
    absent), and what the JSON decoder makes of its body, limited to 10 MiB and without
    unknown fields. *)
Record http_request := {
  rq_method : list Z;
  rq_path : list Z;
  rq_origin : list Z;
  rq_body : option VerifyRequest }.

Inductive http_body :=
| NoContent
| MethodNotAllowed
| NotFound
| Health (circuit_id vk_hash : list Z)
| Verification (r : VerifyResponse).

Record http_response := {
  rs_status : Z;
  rs_allow_origin : option (list Z);           (* Access-Control-Allow-Origin *)
  rs_body : http_body }.

Definition handleHealth (s : Server) (r : http_request) : Z * http_body :=
  if differs (rq_method r) (str "GET") then (405, MethodNotAllowed)
  else (200, Health CircuitID (pv_VKHash (sv_Verifier s))).

Definition handleVerify (s : Server) (r : http_request) : Z * http_body :=
  if differs (rq_method r) (str "POST") then (405, MethodNotAllowed) else
  match rq_body r with
  | None => (400, Verification (failed BadRequest))
  | Some req => (200, Verification (VerifyArtifact req (Some (sv_Verifier s))))
  end.

(** The routes of [Handler]. *)
Definition route (s : Server) (r : http_request) : Z * http_body :=
  if bool_decide (rq_path r ∈ [str "/api/health"; str "/health"]) then handleHealth s r
  else if bool_decide (rq_path r ∈ [str "/api/verify"; str "/verify"]) then handleVerify s r
  else (404, NotFound).

(** [withCORS] around the routes. *)
Definition Handler (s : Server) (r : http_request) : http_response :=
  let allow := if decide (rq_origin r ∈ sv_AllowedOrigins s) then Some (rq_origin r) else None in
  let (status, body) :=
    if bool_decide (rq_method r = str "OPTIONS") then (204, NoContent) else route s r in
  {| rs_status := status; rs_allow_origin := allow; rs_body := body |}.
End verifier.
