(* ===== verification/Helper.v ===== *)
(** * The local helper: [internal/helper/helper.go], [fixture.go]

    A program on the owner's machine that proves for a website: what a request must hold
    before it becomes the input of a proof, and the generators that prove.  The
    generator with real keys keeps the proving key of the destination circuit in memory
    between requests. *)
From stdpp Require Import strings gmap.
From S2P Require Import Prelude.
From S2P Require Import Gnark.
From S2P Require Import Ckd.
From S2P Require Import GoText.
From S2P Require Import GoError.
From S2P Require Import GoJson.
From S2P Require Import Ownership.
From S2P Require Import OwnershipCircuit.
From S2P Require Import Discovery.
From S2P Require Import Artifact.
From S2P Require Import Prover.
From S2P Require Import Commands.
From S2P Require Import Verifier.

Definition DestinationProfileSingle : list Z := str "single-destination".
Definition defaultMaxIndex : Z := 5000.

(** ** Requests *)

Record ProveRequest := {
  pr_MasterXPrvBase64 : list Z;
  pr_TargetCredential : list Z;
  pr_Account : option Z;
  pr_Role : option Z;
  pr_Index : option Z;
  pr_MaxAccount : option Z;
  pr_MaxIndex : option Z;
  pr_IncludeDebugPath : bool }.

(** [ProveInput] without its callback. *)
Record ProveInput := {
  pi_MasterXPrv : list Z;
  pi_TargetCredential : list Z;
  pi_Search : SearchOptions;
  pi_IncludeDebugPath : bool }.

Record DestinationProofRequest := {
  dr_OutRef : list Z;
  dr_TargetCredential : list Z;
  dr_DestinationAddressEncoding : list Z;
  dr_DestinationAddress : list Z }.
Record DestinationSearchRequest := { ds_MaxAccount : option Z; ds_MaxIndex : option Z }.
Record ProveDestinationRequest := {
  pd_PreflightOnly : bool;
  pd_MasterXPrvBase64 : list Z;
  pd_Profile : list Z;
  pd_Requests : list DestinationProofRequest;
  pd_Search : option DestinationSearchRequest;
  pd_IncludeDebugPath : bool }.

Record DestinationProofInput := {
  di_OutRef : list Z;
  di_TargetCredential : list Z;
  di_DestinationAddressEncoding : list Z;
  di_DestinationAddress : list Z }.
Record ProveDestinationInput := {
  dp_MasterXPrv : list Z;
  dp_Profile : list Z;
  dp_Requests : list DestinationProofInput;
  dp_Search : SearchOptions;
  dp_IncludeDebugPath : bool }.

Record DestinationProofArtifactItem := { it_OutRef : list Z; it_Artifact : ProofArtifact }.
Record ProveDestinationResponse := { rp_Profile : list Z; rp_Artifacts : list DestinationProofArtifactItem }.

(** The errors of a request that cannot become an input. *)
Inductive input_error :=
| InputErr (e : cmd_error)
| InputItem (i : nat) (field : string) (e : cmd_error).     (* "requests[%d].field: %w" *)

Definition input_check (fails : bool) (message : string) : result input_error unit :=
  guard_err fails (InputErr (CmdErr (Fail message))).

Definition decodeMasterXPrvBase64 (value : list Z) : result input_error (list Z) :=
  match b64_DecodeString (TrimSpace value) with
  | None => Err (InputErr (CmdErr (Fail "master xprv is invalid")))
  | Some master =>
      _ ← input_check (negb (length master =? 96)%nat) "master xprv is %d bytes, want 96";
      Ok master
  end.

Definition optionalInt (value : option Z) (message : string) : result input_error Z :=
  match value with
  | None => Ok (-1)
  | Some v => _ ← input_check (2 ^ 31 - 1 <? v) message; Ok v
  end.

Definition buildSearchOptions (req : ProveRequest) : result input_error SearchOptions :=
  account ← optionalInt (pr_Account req) "account must be <= %d";
  role ← optionalInt (pr_Role req) "role must be <= %d";
  index ← optionalInt (pr_Index req) "index must be <= %d";
  Ok {| oAccount := account; oRole := role; oIndex := index;
        MaxAccount := default 9 (pr_MaxAccount req); MaxIndex := default defaultMaxIndex (pr_MaxIndex req) |}.

Definition buildDestinationSearchOptions (req : option DestinationSearchRequest) : SearchOptions := {|
  oAccount := -1; oRole := -1; oIndex := -1;
  MaxAccount := default 9 (r ← req; ds_MaxAccount r);
  MaxIndex := default defaultMaxIndex (r ← req; ds_MaxIndex r) |}.

Definition BuildInput (req : ProveRequest) : result input_error ProveInput :=
  master ← decodeMasterXPrvBase64 (pr_MasterXPrvBase64 req);
  target ← map_err (λ e, InputErr (CmdOwnership e)) (DecodeCredentialHex (pr_TargetCredential req));
  search ← buildSearchOptions req;
  Ok {| pi_MasterXPrv := master; pi_TargetCredential := target; pi_Search := search;
        pi_IncludeDebugPath := pr_IncludeDebugPath req |}.

(** One item of [BuildDestinationInput], and the loop over them. *)
Definition build_item (i : nat) (item : DestinationProofRequest) : result input_error DestinationProofInput :=
  let outRef := TrimSpace (dr_OutRef item) in
  _ ← guard_err (bool_decide (outRef = [])) (InputItem i "out_ref" (CmdErr (Fail "is required")));
  target ← map_err (λ e, InputItem i "target_credential" (CmdOwnership e)) (DecodeCredentialHex (dr_TargetCredential item));
  _ ← guard_err (differs (dr_DestinationAddressEncoding item) DestinationAddressEncoding)
        (InputItem i "destination_address_encoding" (CmdErr (Fail "%q, want %q")));
  destination ← map_err (λ e, InputItem i "destination_address" (CmdDest e))
    (DecodeDestinationAddressV1Hex (dr_DestinationAddress item));
  Ok {| di_OutRef := outRef; di_TargetCredential := target;
        di_DestinationAddressEncoding := dr_DestinationAddressEncoding item; di_DestinationAddress := destination |}.
Fixpoint build_items (i : nat) (items : list DestinationProofRequest) : result input_error (list DestinationProofInput) :=
  match items with
  | [] => Ok []
  | item :: items =>
      input ← build_item i item;
      inputs ← build_items (S i) items;
      Ok (input :: inputs)
  end.

Definition BuildDestinationInput (req : ProveDestinationRequest) : result input_error ProveDestinationInput :=
  master ← decodeMasterXPrvBase64 (pd_MasterXPrvBase64 req);
  _ ← input_check (differs (pd_Profile req) DestinationProfileSingle) "profile %q, want %q";
  _ ← input_check (bool_decide (length (pd_Requests req) = 0%nat)) "requests must contain at least one proof request";
  requests ← build_items 0 (pd_Requests req);
  Ok {| dp_MasterXPrv := master; dp_Profile := pd_Profile req; dp_Requests := requests;
        dp_Search := buildDestinationSearchOptions (pd_Search req);
        dp_IncludeDebugPath := pd_IncludeDebugPath req |}.

(** ** Generators *)

Inductive gen_error :=
| ErrPathNotFound
| GenCancelled                                              (* ctx.Err() *)
| GenFailed (e : cmd_error).

Record LocalProofProgress := {
  lp_Stage : list Z;
  lp_Current : Z;
  lp_Total : Z;
  lp_Discovery : option DiscoveryProgress }.

Record KeyStatus := {
  ky_State : list Z;
  ky_Ready : bool;
  ky_KeyVersion : list Z;
  ky_VKHash : list Z;
  ky_Error : option go_error }.

(** Where the context of a request is found to be cancelled: on entry, before each
    candidate of discovery, and before each item. *)
Record context := { cx_entry : bool; cx_candidate : Z → bool; cx_item : nat → bool }.

(** The interfaces [Generator], [DestinationGenerator], [KeyStatusReporter] and
    [DestinationKeyStatusReporter], the last three optional: an operation takes the state
    of the generator, and gives the arguments of the progress callback, in order. *)
Record Generator (S : Type) := {
  GenerateProof : context → ProveInput → S → result gen_error ProofArtifact * list LocalProofProgress * S;
  GenerateDestinationProofs : option (context → ProveDestinationInput → S →
    result gen_error (list DestinationProofArtifactItem) * list LocalProofProgress * S);
  gen_KeyStatus : option (S → KeyStatus);
  gen_DestinationKeyStatus : option (S → KeyStatus) }.
Arguments GenerateProof {_} _.
Arguments GenerateDestinationProofs {_} _.
Arguments gen_KeyStatus {_} _.
Arguments gen_DestinationKeyStatus {_} _.

(** [paymentCredentialKey]: the bytes as a map key. *)
Definition paymentCredentialKey (raw : list Z) : result gen_error (list Z) :=
  if (length raw =? 28)%nat then Ok raw
  else Err (GenFailed (CmdErr (Fail "target credential is %d bytes, want 28"))).

Definition stage (name : string) (current total : Z) : LocalProofProgress :=
  {| lp_Stage := str name; lp_Current := current; lp_Total := total; lp_Discovery := None |}.
Definition discoveryProgressAdapter (p : DiscoveryProgress) : LocalProofProgress :=
  {| lp_Stage := str "locating-keys"; lp_Current := 0; lp_Total := 0; lp_Discovery := Some p |}.

(** What a failed discovery is to a caller. *)
Definition discovery_failure (e : discovery_error) : gen_error :=
  match e with
  | ErrCredentialsNotFound _ => ErrPathNotFound
  | DErrCancelled => GenCancelled
  | e => GenFailed (CmdDiscovery e)
  end.

(** The failures of an operation that is called without its labels. *)
Definition gen_go {A} (r : result go_error A) : result gen_error A := map_err (λ e, GenFailed (CmdErr e)) r.
Definition gen_own {A} (r : result ownership_error A) : result gen_error A := map_err (λ e, GenFailed (CmdOwnership e)) r.
Definition gen_dest {A} (r : result dest_error A) : result gen_error A := map_err (λ e, GenFailed (CmdDest e)) r.

(** [errors.Is(err, fs.ErrNotExist)]. *)
Fixpoint is_not_exist (e : go_error) : bool :=
  match e with
  | Fail message => String.eqb message "no such file or directory"
  | Wrap _ e => is_not_exist e
  end.

(** *** The fixture *)

Section fixture.
Context `{Field} `{XCryptoBlake2b}.

Definition fixture_key (version : string) : KeyStatus := {|
  ky_State := str "fixture"; ky_Ready := true; ky_KeyVersion := str version;
  ky_VKHash := FixtureVKHash; ky_Error := None |}.

Definition fixture_proof (input : ProveInput) : result gen_error ProofArtifact :=
  publicInput ← gen_own (PublicInputForCredential (pi_TargetCredential input));
  Ok {| pa_Schema := ProofSchema; pa_CircuitID := CircuitID; pa_VKHash := FixtureVKHash;
        pa_TargetCredential := hex_EncodeToString (pi_TargetCredential input); pa_TargetCredentials := [];
        pa_DestinationAddressEncoding := []; pa_DestinationAddress := []; pa_CredentialCount := 0;
        pa_PublicInputEncoding := []; pa_PublicInput := PublicInputHex publicInput;
        pa_Proof := str "fixture-proof"; pa_Cardano := None;
        pa_Path := Some {| Account := 0; Role := 0; Index := 0 |}; pa_Paths := [] |}.

Definition fixture_item (request : DestinationProofInput) : result gen_error DestinationProofArtifactItem :=
  publicInput ← gen_dest (PublicInputForCredentialDestination (di_TargetCredential request) (di_DestinationAddress request));
  publicInputDigest ← gen_dest (PublicInputDigestForCredentialDestination (di_TargetCredential request) (di_DestinationAddress request));
  Ok {| it_OutRef := di_OutRef request;
        it_Artifact := {|
          pa_Schema := ProofSchema; pa_CircuitID := DestCircuitID; pa_VKHash := FixtureVKHash;
          pa_TargetCredential := hex_EncodeToString (di_TargetCredential request); pa_TargetCredentials := [];
          pa_DestinationAddressEncoding := DestinationAddressEncoding;
          pa_DestinationAddress := hex_EncodeToString (di_DestinationAddress request); pa_CredentialCount := 0;
          pa_PublicInputEncoding := DestPublicInputEncoding; pa_PublicInput := PublicInputHex publicInput;
          pa_Proof := str "fixture-destination-proof";
          pa_Cardano := Some {| cp_Format := str "fixture";
            cp_ProofHex := hex_EncodeToString (str "fixture-destination-proof");
            cp_PublicInputDigestHex := hex_EncodeToString publicInputDigest |};
          pa_Path := Some {| Account := 0; Role := 0; Index := 0 |}; pa_Paths := [] |} |}.

Definition FixtureGenerator : Generator unit := {|
  GenerateProof _ input st := (fixture_proof input, [], st);
  GenerateDestinationProofs := Some (λ _ input st, (mapM fixture_item (dp_Requests input), [], st));
  gen_KeyStatus := Some (λ _, fixture_key "fixture");
  gen_DestinationKeyStatus := Some (λ _, fixture_key "fixture-destination") |}.
End fixture.

(** *** The generator with keys *)

(** [defaultKeyDir], with what [os.UserCacheDir] gives (nothing on an error). *)
Definition defaultKeyDir (userCacheDir : option (list Z)) (name : list Z) : list Z :=
  match userCacheDir with
  | Some ((_ :: _) as dir) => path_Clean (dir ++ str "/proof-tool/" ++ name)
  | _ => path_Clean (str ".proof-tool/" ++ name)
  end.

Record OwnershipGenerator := {
  og_KeysDir : list Z;
  og_DestinationKeysDir : list Z;
  og_AllowCreateKeys : bool }.

Definition destinationKeysDir (g : OwnershipGenerator) : list Z :=
  if blank (og_DestinationKeysDir g) then og_KeysDir g else og_DestinationKeysDir g.

Section generator.
Context `{Groth16} `{Edwards25519} `{XCryptoBlake2b} `{Field} `{ManifestJSON}.

(** The directories of the machine, by path, and the cache of the destination prover. *)
Record gen_state := {
  gs_dirs : gmap (list Z) directory;
  gs_destCache : option (OwnershipBundle * ConstraintSystem) }.

Variable userCacheDir : option (list Z).
Variable g : OwnershipGenerator.
Variable fuel : nat.                                        (* enough to list the accounts *)

Definition key_dir (dir : list Z) (cfg : keyConfig) : list Z :=
  if decide (dir = []) then defaultKeyDir userCacheDir (kc_DirName cfg) else dir.
Definition files_of (dirs : gmap (list Z) directory) (dir : list Z) (cfg : keyConfig) : directory :=
  default ∅ (dirs !! key_dir dir cfg).

(** [acquireDestinationProver] on the files of the key directory: the bundle and the
    frozen constraint system, or a compiled one when there is none. *)
Definition load_destination (dir : directory) : result go_error (OwnershipBundle * ConstraintSystem) :=
  bundle ← loadProver dir ownershipDestinationKeyConfig;
  ccs ← match LoadOwnershipDestinationCCS dir (Some (ob_Manifest bundle)) with
        | Ok ccs => Ok ccs
        | Err e => if negb (is_not_exist e) then Err e else Compile DestinationC
        end;
  Ok (bundle, ccs).

Definition acquireDestinationProver (st : gen_state) : result go_error (OwnershipBundle * ConstraintSystem) * gen_state :=
  match gs_destCache st with
  | Some cached => (Ok cached, st)
  | None =>
      match load_destination (files_of (gs_dirs st) (destinationKeysDir g) ownershipDestinationKeyConfig) with
      | Err e => (Err e, st)
      | Ok loaded => (Ok loaded, {| gs_dirs := gs_dirs st; gs_destCache := Some loaded |})
      end
  end.

(** The background load at the start; a failure is left to the first request. *)
Definition WarmDestinationProver (st : gen_state) : gen_state := (acquireDestinationProver st).2.

(** The idle timer fires. *)
Definition evictDestinationProver (st : gen_state) : gen_state :=
  {| gs_dirs := gs_dirs st; gs_destCache := None |}.

(** [GenerateProof], after the path is found: the bundle is loaded first, or created last. *)
Definition prove_single (input : ProveInput) (path : Path) (toxic now blinding : list Z) (st : gen_state) :
    result gen_error ProofArtifact * list LocalProofProgress * gen_state :=
  let target := pi_TargetCredential input in
  let files := files_of (gs_dirs st) (og_KeysDir g) ownershipKeyConfig in
  match (loaded ← (if og_AllowCreateKeys g then Ok None
                   else gen_go (b ← loadProver files ownershipKeyConfig; Ok (Some b)));
         publicInput ← gen_own (PublicInputForCredential target);
         assignment ← gen_own (Assignment (pi_MasterXPrv input) path publicInput);
         ccs ← gen_go (Compile OwnershipC);
         Ok (loaded, publicInput, assignment, ccs)) with
  | Err e => (Err e, [], st)
  | Ok (loaded, publicInput, assignment, ccs) =>
      let (bundle, files') :=
        match loaded with
        | Some b => (Ok b, files)
        | None => loadOrCreateBundle files ccs ownershipKeyConfig toxic now
        end in
      let st := match loaded with
                | Some _ => st
                | None => {| gs_dirs := <[key_dir (og_KeysDir g) ownershipKeyConfig := files']> (gs_dirs st);
                             gs_destCache := gs_destCache st |}
                end in
      match bundle with
      | Err e => (Err (GenFailed (CmdErr e)), [], st)
      | Ok bundle =>
          match (match ob_ProvingKey bundle with
                 | None => Err (GenFailed (CmdErr (Fail "nil proving key")))
                 | Some pk => gen_go (Prove ccs pk (OwnershipW assignment) blinding)
                 end) with
          | Err e => (Err e, [stage "prove" 0 1], st)
          | Ok proof =>
              (cardanoProof ← gen_go (CardanoProofArtifact proof target);
               Ok {| pa_Schema := ProofSchema; pa_CircuitID := CircuitID; pa_VKHash := km_VKHash (ob_Manifest bundle);
                     pa_TargetCredential := hex_EncodeToString target; pa_TargetCredentials := [];
                     pa_DestinationAddressEncoding := []; pa_DestinationAddress := []; pa_CredentialCount := 0;
                     pa_PublicInputEncoding := []; pa_PublicInput := PublicInputHex publicInput;
                     pa_Proof := MarshalProof proof; pa_Cardano := Some cardanoProof;
                     pa_Path := Some path; pa_Paths := [] |},
               [stage "prove" 0 1; stage "prove" 1 1], st)
          end
      end
  end.

(** [toxic], [now] and [blinding]: what setup, the clock and the prover draw. *)
Definition OwnershipGenerator_GenerateProof (toxic now blinding : list Z) (ctx : context) (input : ProveInput)
    (st : gen_state) : result gen_error ProofArtifact * list LocalProofProgress * gen_state :=
  if cx_entry ctx then (Err GenCancelled, [], st) else
  let (paths, found) := DiscoverCredentialPaths fuel (cx_candidate ctx) (pi_MasterXPrv input)
    [pi_TargetCredential input] {| Search := pi_Search input; ProgressEvery := 0 |} in
  let located := discoveryProgressAdapter <$> found in
  match (paths ← map_err discovery_failure paths;
         credentialKey ← paymentCredentialKey (pi_TargetCredential input);
         Ok (default {| Account := 0; Role := 0; Index := 0 |} (paths !! credentialKey))) with
  | Err e => (Err e, located, st)
  | Ok path =>
      let '(r, progress, st) := prove_single input path toxic now blinding st in
      (r, located ++ stage "open-keys" 0 1 :: progress, st)
  end.

(** One item of [GenerateDestinationProofs]: the artifact and whether proving had begun. *)
Definition destination_item (bundle : OwnershipBundle) (ccs : ConstraintSystem) (paths : gmap (list Z) Path)
    (master : list Z) (blinding : list Z) (request : DestinationProofInput) :
    result gen_error DestinationProofArtifactItem * bool :=
  match (credentialKey ← paymentCredentialKey (di_TargetCredential request);
         path ← match paths !! credentialKey with Some path => Ok path | None => Err ErrPathNotFound end;
         publicInput ← gen_dest (PublicInputForCredentialDestination (di_TargetCredential request) (di_DestinationAddress request));
         assignment ← gen_dest (DestAssignment master path (di_DestinationAddress request) (Some publicInput));
         Ok (path, publicInput, assignment)) with
  | Err e => (Err e, false)
  | Ok (path, publicInput, assignment) =>
      (proof ← match ob_ProvingKey bundle with
               | None => Err (GenFailed (CmdErr (Fail "nil proving key")))
               | Some pk => gen_go (Prove ccs pk (DestinationW assignment) blinding)
               end;
       publicInputDigest ← gen_dest (PublicInputDigestForCredentialDestination (di_TargetCredential request) (di_DestinationAddress request));
       cardanoProof ← gen_go (CardanoProofArtifactWithDigest proof publicInputDigest);
       Ok {| it_OutRef := di_OutRef request;
             it_Artifact := {|
               pa_Schema := ProofSchema; pa_CircuitID := DestCircuitID; pa_VKHash := km_VKHash (ob_Manifest bundle);
               pa_TargetCredential := hex_EncodeToString (di_TargetCredential request); pa_TargetCredentials := [];
               pa_DestinationAddressEncoding := di_DestinationAddressEncoding request;
               pa_DestinationAddress := hex_EncodeToString (di_DestinationAddress request); pa_CredentialCount := 0;
               pa_PublicInputEncoding := DestPublicInputEncoding; pa_PublicInput := PublicInputHex publicInput;
               pa_Proof := MarshalProof proof; pa_Cardano := Some cardanoProof;
               pa_Path := Some path; pa_Paths := [] |} |}, true)
  end.

Fixpoint destination_items (bundle : OwnershipBundle) (ccs : ConstraintSystem) (paths : gmap (list Z) Path)
    (master : list Z) (blinding : nat → list Z) (ctx : context) (total : Z) (i : nat) (requests : list DestinationProofInput) :
    result gen_error (list DestinationProofArtifactItem) * list LocalProofProgress :=
  match requests with
  | [] => (Ok [], [stage "done" total total])
  | request :: requests =>
      if cx_item ctx i then (Err GenCancelled, []) else
      match destination_item bundle ccs paths master (blinding i) request with
      | (Err e, begun) => (Err e, if begun then [stage "prove" (Z.of_nat i) total] else [])
      | (Ok item, _) =>
          let (items, progress) := destination_items bundle ccs paths master blinding ctx total (S i) requests in
          (items ← items; Ok (item :: items),
           stage "prove" (Z.of_nat i) total :: stage "prove" (Z.of_nat i + 1) total :: progress)
      end
  end.

Definition OwnershipGenerator_GenerateDestinationProofs (blinding : nat → list Z) (ctx : context)
    (input : ProveDestinationInput) (st : gen_state) :
    result gen_error (list DestinationProofArtifactItem) * list LocalProofProgress * gen_state :=
  if cx_entry ctx then (Err GenCancelled, [], st) else
  let (paths, found) := DiscoverCredentialPaths fuel (cx_candidate ctx) (dp_MasterXPrv input)
    (di_TargetCredential <$> dp_Requests input) {| Search := dp_Search input; ProgressEvery := 0 |} in
  let located := discoveryProgressAdapter <$> found in
  match map_err discovery_failure paths with
  | Err e => (Err e, located, st)
  | Ok paths =>
      let total := Z.of_nat (length (dp_Requests input)) in
      let (acquired, st) := acquireDestinationProver st in
      match acquired with
      | Err e => (Err (GenFailed (CmdErr e)), located ++ [stage "open-keys" 0 total], st)
      | Ok (bundle, ccs) =>
          let (items, progress) := destination_items bundle ccs paths (dp_MasterXPrv input) blinding ctx total 0 (dp_Requests input) in
          (items, located ++ stage "open-keys" 0 total :: progress, st)
      end
  end.

Definition key_status (status : BundleStatus) : KeyStatus := {|
  ky_State := bs_State status; ky_Ready := bs_Ready status; ky_KeyVersion := bs_KeyVersion status;
  ky_VKHash := bs_VKHash status; ky_Error := bs_Error status |}.

Definition ownership_generator (toxic now blinding : list Z) (blindings : nat → list Z) : Generator gen_state := {|
  GenerateProof := OwnershipGenerator_GenerateProof toxic now blinding;
  GenerateDestinationProofs := Some (OwnershipGenerator_GenerateDestinationProofs blindings);
  gen_KeyStatus := Some (λ st, key_status (inspectBundle (files_of (gs_dirs st) (og_KeysDir g) ownershipKeyConfig)
                                             true ownershipKeyConfig));
  gen_DestinationKeyStatus := Some (λ st, key_status
    (inspectBundle (files_of (gs_dirs st) (destinationKeysDir g) ownershipDestinationKeyConfig)
       true ownershipDestinationKeyConfig)) |}.
End generator.
