(* ===== verification/HelperServer.v ===== *)
(** * The helper's HTTP service: [internal/helper/server.go]

    Which websites may use the helper, the token that pairs it with one browser, and the
    handlers.  The service is over any generator; a request is answered from the state of
    the generator and leaves one behind. *)
From stdpp Require Import strings gmap sorting.
From S2P Require Import Prelude.
From S2P Require Import GoText.
From S2P Require Import GoError.
From S2P Require Import GoJson.
From S2P Require Import Ownership.
From S2P Require Import OwnershipCircuit.
From S2P Require Import Discovery.
From S2P Require Import Artifact.
From S2P Require Import Prover.
From S2P Require Import Commands.
From S2P Require Import Helper.

(** ** Origins *)

Record originPattern := {
  op_scheme : list Z;
  op_hostPrefix : list Z;
  op_hostSuffix : list Z;
  op_port : list Z }.

Definition star : Z := 42.
Definition colon : Z := 58.
Definition dot : Z := 46.

Definition compileOriginPattern (raw : list Z) : option originPattern :=
  '(scheme, rest) ← Cut raw (str "://");
  if negb (bool_decide (scheme = str "http") || bool_decide (scheme = str "https")) then None else
  if bool_decide (rest = []) || ContainsAny rest (str "/?#") then None else
  let '(host, port) := default (rest, []) (CutLast rest colon) in
  if negb (Count host star =? 1)%nat then None else
  '(hostPrefix, hostSuffix) ← Cut host [star];
  Some {| op_scheme := scheme; op_hostPrefix := hostPrefix; op_hostSuffix := hostSuffix; op_port := port |}.

Definition pattern_String (p : originPattern) : list Z :=
  let host := op_hostPrefix p ++ [star] ++ op_hostSuffix p in
  op_scheme p ++ str "://" ++ (if decide (op_port p = []) then host else host ++ [colon] ++ op_port p).

Record Server := {
  hs_Token : list Z;
  hs_AllowedOrigins : gset (list Z);
  hs_originPatterns : list originPattern;
  hs_HasShutdown : bool }.                    (* Shutdown != nil *)

Fixpoint configure_origins (allowed : list (list Z)) (origins : gset (list Z)) (patterns : list originPattern) :
    gset (list Z) * list originPattern :=
  match allowed with
  | [] => (origins, patterns)
  | origin :: allowed =>
      let origin := TrimSpace origin in
      if decide (origin = []) then configure_origins allowed origins patterns else
      if bool_decide (star ∈ origin) then
        match compileOriginPattern origin with
        | Some pattern => configure_origins allowed origins (patterns ++ [pattern])
        | None => configure_origins allowed origins patterns
        end
      else configure_origins allowed (origins ∪ {[origin]}) patterns
  end.

Definition NewServer (token : list Z) (allowedOrigins : list (list Z)) (hasShutdown : bool) : Server :=
  let '(origins, patterns) := configure_origins allowedOrigins ∅ [] in
  {| hs_Token := token; hs_AllowedOrigins := origins; hs_originPatterns := patterns; hs_HasShutdown := hasShutdown |}.

Section origins.
Context `{URLParser}.

(** One pattern against the parsed origin. *)
Definition pattern_matches (u : URL) (p : originPattern) : bool :=
  if differs (op_scheme p) (url_Scheme u) || differs (op_port p) (url_Port u) then false else
  let host := url_Hostname u in
  if (length host <=? length (op_hostPrefix p) + length (op_hostSuffix p))%nat then false else
  if negb (HasPrefix host (op_hostPrefix p)) || negb (HasSuffix host (op_hostSuffix p)) then false else
  let wildcard := drop (length (op_hostPrefix p)) (take (length host - length (op_hostSuffix p)) host) in
  negb (bool_decide (wildcard = []) || Contains wildcard [dot]).

Definition patternOriginAllowed (s : Server) (origin : list Z) : bool :=
  if decide (hs_originPatterns s = []) then false else
  match url_Parse origin with
  | None => false
  | Some u => existsb (pattern_matches u) (hs_originPatterns s)
  end.

Definition isLoopbackOrigin (origin : URL) : bool :=
  if differs (url_Scheme origin) (str "http") && differs (url_Scheme origin) (str "https") then false else
  bool_decide (url_Hostname origin ∈ [str "127.0.0.1"; str "localhost"; str "::1"]).

Definition loopbackDevOriginAllowed (s : Server) (origin : list Z) : bool :=
  match url_Parse origin with
  | None => false
  | Some requestOrigin =>
      isLoopbackOrigin requestOrigin &&
      existsb (λ allowed, match url_Parse allowed with
                          | None => false
                          | Some allowedOrigin => bool_decide (url_Scheme allowedOrigin = url_Scheme requestOrigin) &&
                                                  isLoopbackOrigin allowedOrigin
                          end) (elements (hs_AllowedOrigins s))
  end.

Definition originAllowed (s : Server) (origin : list Z) : bool :=
  bool_decide (origin ∈ hs_AllowedOrigins s) || patternOriginAllowed s origin || loopbackDevOriginAllowed s origin.
End origins.

Definition tokenAllowed (s : Server) (token : list Z) : bool :=
  if bool_decide (hs_Token s = []) || bool_decide (token = []) then false else bool_decide (token = hs_Token s).

Definition allowedOrigins (s : Server) : list (list Z) :=
  merge_sort string_le (elements (hs_AllowedOrigins s) ++ (pattern_String <$> hs_originPatterns s)).

(** ** Responses *)

Inductive error_text := Text (message : string) | OfInput (e : input_error).

Record ProfileStatus := { ps_KeyVersion : list Z; ps_KeyHash : list Z; ps_KeyReady : bool; ps_KeyState : list Z;
                          ps_KeyError : option go_error; ps_Compatibility : list Z }.
Record StatusResponse := {
  ss_KeyVersion : list Z; ss_KeyHash : list Z; ss_KeyReady : bool; ss_KeyState : list Z;
  ss_KeyError : option go_error; ss_Compatibility : list Z;
  ss_DestinationCapability : bool;             (* prove-destination-preflight-v1 *)
  ss_DestinationProfile : option ProfileStatus;
  ss_SupportedOrigins : list (list Z) }.

Inductive DestinationProgressEvent :=
| ProgressEvent (p : LocalProofProgress)
| ResultEvent (r : ProveDestinationResponse)
| ErrorEvent (code message : string).

Inductive response_body :=
| NoBody
| PlainText (message : string)                                 (* http.Error, or the mux *)
| ErrorBody (code : string) (message : error_text)
| HealthBody
| StatusBody (s : StatusResponse)
| ProofBody (artifact : ProofArtifact) (debugArtifact : option ProofArtifact)
| PreflightBody
| DestinationBody (r : ProveDestinationResponse)
| StreamBody (events : list DestinationProgressEvent)
| ShutdownBody.

Record http_response := {
  hp_status : Z;
  hp_body : response_body;
  hp_allow_origin : option (list Z);            (* Access-Control-Allow-Origin *)
  hp_private_network : bool }.                  (* Access-Control-Allow-Private-Network *)

(** [hr_flusher]: the connection can stream.  [hr_write_fails n]: writing the event after
    [n] others fails. *)
Record http_request := {
  hr_method : list Z;
  hr_path : list Z;
  hr_origin : list Z;
  hr_token : list Z;                            (* X-Proof-Tool-Token *)
  hr_accept : list Z;
  hr_private_network : list Z;                  (* Access-Control-Request-Private-Network *)
  hr_body : list Z;
  hr_context : context;
  hr_flusher : bool;
  hr_write_fails : nat → bool }.

(** The JSON decoder, with unknown fields disallowed. *)
Class HelperJSON := {
  json_ProveRequest : list Z → option ProveRequest;
  json_ProveDestinationRequest : list Z → option ProveDestinationRequest }.

(** [http.MaxBytesReader(w, r.Body, 1<<20)]. *)
Definition limited (body : list Z) : list Z := take (Z.to_nat (2 ^ 20)) body.

Definition compatibilityForKey (key : KeyStatus) : list Z :=
  if ky_Ready key then str "ready"
  else if bool_decide (ky_State key = str "missing") then str "key_missing"
  else if bool_decide (ky_State key = str "downloading") then str "key_downloading"
  else if bool_decide (ky_State key = str "invalid") then str "update_required"
  else str "not_ready".

Definition errorMapping (e : gen_error) : Z * string * string :=
  match e with
  | ErrPathNotFound => (404, "path_not_found", "No matching credential was found in the searched account range.")
  | GenCancelled => (408, "request_cancelled", "The proof request was cancelled.")
  | GenFailed _ => (500, "proof_failed", "The local helper could not generate the proof.")
  end%string.

Definition destinationProofResponse (input : ProveDestinationInput) (results : list DestinationProofArtifactItem) :
    ProveDestinationResponse := {|
  rp_Profile := dp_Profile input;
  rp_Artifacts := (λ result, {|
    it_OutRef := it_OutRef result;
    it_Artifact := if dp_IncludeDebugPath input then it_Artifact result
                   else BackendProofArtifact (it_Artifact result) |}) <$> results |}.

Definition acceptsDestinationProgress (accept : list Z) : bool :=
  existsb (λ value, bool_decide (TrimSpace (default [] (head (split_on 59 value))) = str "application/x-ndjson"))
    (split_on 44 accept).

(** ** The stream *)

(** [destinationProgressWriter]: what was written, and whether a write has failed. *)
Record progress_writer := { pw_written : list DestinationProgressEvent; pw_failed : bool }.

Definition writer_write (fails : nat → bool) (w : progress_writer) (event : DestinationProgressEvent) : progress_writer :=
  if pw_failed w then w
  else if fails (length (pw_written w)) then {| pw_written := pw_written w; pw_failed := true |}
  else {| pw_written := pw_written w ++ [event]; pw_failed := false |}.

Definition streamDestinationProofs (fails : nat → bool) (input : ProveDestinationInput)
    (results : result gen_error (list DestinationProofArtifactItem)) (progress : list LocalProofProgress) :
    list DestinationProgressEvent :=
  let w := foldl (writer_write fails) {| pw_written := []; pw_failed := false |} (ProgressEvent <$> progress) in
  pw_written
    match results with
    | Err e => if pw_failed w then w else
               let '(_, code, message) := errorMapping e in writer_write fails w (ErrorEvent code message)
    | Ok results => writer_write fails w (ResultEvent (destinationProofResponse input results))
    end.

(** ** Handlers *)

Section server.
Context `{URLParser} `{HelperJSON} {S : Type}.
Variable gen : Generator S.
Variable s : Server.

(** The state of the generator, whether the shutdown was asked for, and how often it was
    started. *)
Record server_state := { st_gen : S; st_shutdownCalled : bool; st_shutdowns : nat }.
Definition with_gen (st : server_state) (g : S) : server_state :=
  {| st_gen := g; st_shutdownCalled := st_shutdownCalled st; st_shutdowns := st_shutdowns st |}.

Definition answer : Type := (Z * response_body) * server_state.
Definition reply (status : Z) (body : response_body) (st : server_state) : answer := ((status, body), st).
Definition writeError (status : Z) (code message : string) (st : server_state) : answer :=
  reply status (ErrorBody code (Text message)) st.
Definition method_not_allowed (st : server_state) : answer := reply 405 (PlainText "method not allowed") st.

Definition handleHealth (r : http_request) (st : server_state) : answer :=
  if differs (hr_method r) (str "GET") then method_not_allowed st else reply 200 HealthBody st.

Definition handleStatus (r : http_request) (st : server_state) : answer :=
  if differs (hr_method r) (str "GET") then method_not_allowed st else
  let key := match gen_KeyStatus gen with
             | Some status => status (st_gen st)
             | None => {| ky_State := str "unknown"; ky_Ready := false; ky_KeyVersion := []; ky_VKHash := []; ky_Error := None |}
             end in
  let destinationProfile := (λ status : S → KeyStatus,
    let status := status (st_gen st) in
    {| ps_KeyVersion := ky_KeyVersion status; ps_KeyHash := ky_VKHash status; ps_KeyReady := ky_Ready status;
       ps_KeyState := ky_State status; ps_KeyError := ky_Error status;
       ps_Compatibility := compatibilityForKey status |}) <$> gen_DestinationKeyStatus gen in
  reply 200 (StatusBody {|
    ss_KeyVersion := ky_KeyVersion key; ss_KeyHash := ky_VKHash key; ss_KeyReady := ky_Ready key;
    ss_KeyState := ky_State key; ss_KeyError := ky_Error key; ss_Compatibility := compatibilityForKey key;
    ss_DestinationCapability := bool_decide (is_Some (GenerateDestinationProofs gen));
    ss_DestinationProfile := destinationProfile;
    ss_SupportedOrigins := allowedOrigins s |}) st.

(** The guards shared by the handlers that need a paired browser. *)
Definition guarded (r : http_request) (unpaired : string) (st : server_state) (k : server_state → answer) : answer :=
  if differs (hr_method r) (str "POST") then method_not_allowed st else
  if negb (originAllowed s (hr_origin r))
  then writeError 403 "origin_not_allowed" "This website is not allowed to use the local helper." st else
  if negb (tokenAllowed s (hr_token r)) then writeError 401 "token_required" unpaired st else
  k st.

Definition generator_error (e : gen_error) (st : server_state) : answer :=
  let '(status, code, message) := errorMapping e in writeError status code message st.

Definition handleProve (r : http_request) (st : server_state) : answer :=
  guarded r "Open Proof Helper again so this browser can connect automatically." st (λ st,
    match json_ProveRequest (limited (hr_body r)) with
    | None => writeError 400 "invalid_request" "The proof request was not valid JSON." st
    | Some req =>
        match BuildInput req with
        | Err e => reply 400 (ErrorBody "invalid_request" (OfInput e)) st
        | Ok input =>
            let '(proved, _, g) := GenerateProof gen (hr_context r) input (st_gen st) in
            let st := with_gen st g in
            match proved with
            | Err e => generator_error e st
            | Ok proofArtifact =>
                reply 200 (ProofBody (BackendProofArtifact proofArtifact)
                             (if pi_IncludeDebugPath input then Some proofArtifact else None)) st
            end
        end
    end).

(** A preflight that carries anything else. *)
Definition loaded_preflight (req : ProveDestinationRequest) : bool :=
  differs (pd_MasterXPrvBase64 req) [] || differs (pd_Profile req) [] ||
  negb (length (pd_Requests req) =? 0)%nat || bool_decide (is_Some (pd_Search req)) || pd_IncludeDebugPath req.

Definition handleProveDestination (r : http_request) (st : server_state) : answer :=
  guarded r "Open Proof Helper again so this browser can connect automatically." st (λ st,
    match GenerateDestinationProofs gen with
    | None => writeError 503 "profile_unavailable" "The local helper does not support destination-bound proofs." st
    | Some generate =>
        match json_ProveDestinationRequest (limited (hr_body r)) with
        | None => writeError 400 "invalid_request" "The destination proof request was not valid JSON." st
        | Some req =>
            if pd_PreflightOnly req then
              if loaded_preflight req
              then writeError 400 "invalid_request" "A destination preflight must not include proof inputs or recovery secrets." st
              else reply 200 PreflightBody st
            else
            match BuildDestinationInput req with
            | Err e => reply 400 (ErrorBody "invalid_request" (OfInput e)) st
            | Ok input =>
                if acceptsDestinationProgress (hr_accept r) && negb (hr_flusher r)
                then writeError 501 "streaming_unavailable" "The local helper cannot stream proof progress on this connection." st
                else
                let '(results, progress, g) := generate (hr_context r) input (st_gen st) in
                let st := with_gen st g in
                if acceptsDestinationProgress (hr_accept r)
                then reply 200 (StreamBody (streamDestinationProofs (hr_write_fails r) input results progress)) st
                else match results with
                     | Err e => generator_error e st
                     | Ok results => reply 200 (DestinationBody (destinationProofResponse input results)) st
                     end
            end
        end
    end).

(** [CompareAndSwap]: the first call starts the shutdown. *)
Definition handleShutdown (r : http_request) (st : server_state) : answer :=
  guarded r "The local helper is not paired with this browser." st (λ st,
    reply 200 ShutdownBody
      (if hs_HasShutdown s && negb (st_shutdownCalled st)
       then {| st_gen := st_gen st; st_shutdownCalled := true; st_shutdowns := 1 + st_shutdowns st |}
       else st)).

Definition route (r : http_request) (st : server_state) : answer :=
  if bool_decide (hr_path r = str "/health") then handleHealth r st
  else if bool_decide (hr_path r = str "/status") then handleStatus r st
  else if bool_decide (hr_path r = str "/prove") then handleProve r st
  else if bool_decide (hr_path r = str "/prove-destination") then handleProveDestination r st
  else if bool_decide (hr_path r = str "/shutdown") then handleShutdown r st
  else reply 404 (PlainText "404 page not found") st.

(** [withCORS] around the routes. *)
Definition Handler (r : http_request) (st : server_state) : http_response * server_state :=
  let allowed := originAllowed s (hr_origin r) in
  let '((status, body), st) :=
    if bool_decide (hr_method r = str "OPTIONS") then reply 204 NoBody st else route r st in
  ({| hp_status := status; hp_body := body;
      hp_allow_origin := if allowed then Some (hr_origin r) else None;
      hp_private_network := allowed && bool_decide (hr_private_network r = str "true") |}, st).

(** Requests one after another. *)
Fixpoint serve (rs : list http_request) (st : server_state) : list http_response * server_state :=
  match rs with
  | [] => ([], st)
  | r :: rs => let (resp, st) := Handler r st in let (resps, st) := serve rs st in (resp :: resps, st)
  end.
End server.
