(* ===== verification/HelperCorrect.v ===== *)
(** * Who may use the helper, and what it tells

    The origins that are let in, the guards before the generator is called, what a
    response can disclose, and the stream of progress. *)
From stdpp Require Import strings gmap sorting.
From S2P Require Import Prelude.
From S2P Require Import GoText.
From S2P Require Import GoError.
From S2P Require Import Ownership.
From S2P Require Import OwnershipCircuit.
From S2P Require Import Discovery.
From S2P Require Import Artifact.
From S2P Require Import Prover.
From S2P Require Import Commands.
From S2P Require Import Helper.
From S2P Require Import HelperServer.

(** ** Origins *)

(** A DNS label: not empty, and without a dot. *)
Definition one_label (label : list Z) : Prop := label ≠ [] ∧ dot ∉ label.

(** [scheme://prefix*suffix] or [scheme://prefix*suffix:port], with one star in the host. *)
Definition pattern_text (p : originPattern) (raw : list Z) : Prop :=
  (op_scheme p = str "http" ∨ op_scheme p = str "https") ∧
  star ∉ op_hostPrefix p ∧ star ∉ op_hostSuffix p ∧
  ∃ port, raw = op_scheme p ++ str "://" ++ op_hostPrefix p ++ star :: op_hostSuffix p ++ port ∧
    (∀ c, c ∈ str "/?#" → c ∉ op_hostPrefix p ++ star :: op_hostSuffix p ++ port) ∧
    (port = [] ∧ op_port p = [] ∧ colon ∉ op_hostPrefix p ++ op_hostSuffix p ∨
     port = colon :: op_port p ∧ colon ∉ op_port p).

(** A URL whose host has one label in the place of the star. *)
Definition in_family (p : originPattern) (u : URL) : Prop :=
  url_Scheme u = op_scheme p ∧ url_Port u = op_port p ∧
  ∃ label, one_label label ∧ url_Hostname u = op_hostPrefix p ++ label ++ op_hostSuffix p.

Definition loopback (u : URL) : Prop :=
  (url_Scheme u = str "http" ∨ url_Scheme u = str "https") ∧
  url_Hostname u ∈ [str "127.0.0.1"; str "localhost"; str "::1"].

Lemma star_in_host h1 h2 t : star ∉ h1 → star ∉ h2 → Cut (h1 ++ star :: h2) [star] = Some t ↔ t = (h1, h2).
Proof.
  intros H1 H2. rewrite (proj2 (Cut_byte (h1 ++ star :: h2) star h1 h2)) by done. naive_solver.
Qed.

Lemma star_once host h1 h2 : Cut host [star] = Some (h1, h2) → Count host star = 1%nat → star ∉ h2.
Proof.
  intros [-> _]%Cut_byte. rewrite Count_app. change (star :: h2) with ([star] ++ h2). rewrite Count_app.
  change (Count [star] star) with 1%nat. intros E. apply Count_0. lia.
Qed.

Lemma star_counted h1 h2 : star ∉ h1 → star ∉ h2 → Count (h1 ++ star :: h2) star = 1%nat.
Proof.
  intros E1%Count_0 E2%Count_0. rewrite Count_app. change (star :: h2) with ([star] ++ h2).
  rewrite Count_app, E1, E2. done.
Qed.

Lemma scheme_tests (scheme : list Z) : negb (bool_decide (scheme = str "http") || bool_decide (scheme = str "https")) = false ↔
  scheme = str "http" ∨ scheme = str "https".
Proof. rewrite negb_false_iff, orb_true_iff, !bool_decide_eq_true. done. Qed.

Lemma authority_tests rest : bool_decide (rest = []) || ContainsAny rest (str "/?#") = false ↔
  rest ≠ [] ∧ ∀ c, c ∈ str "/?#" → c ∉ rest.
Proof. rewrite orb_false_iff, bool_decide_eq_false, ContainsAny_false. done. Qed.

(** A pattern compiles exactly from its text. *)
Lemma compileOriginPattern_exact raw p : compileOriginPattern raw = Some p ↔ pattern_text p raw.
Proof.
  unfold compileOriginPattern. split.
  - destruct (Cut raw (str "://")) as [[scheme rest]|] eqn:Hcut; [|done]. cbn [mbind option_bind].
    destruct (negb (_ || _)) eqn:Hs; [done|]. apply scheme_tests in Hs.
    destruct (_ || ContainsAny rest _) eqn:Ha; [done|]. apply authority_tests in Ha as [_ Ha].
    apply Cut_Some in Hcut. destruct (default (rest, []) (CutLast rest colon)) as [host port] eqn:Hc.
    destruct (Nat.eqb_spec (Count host star) 1) as [Hone|]; [|done]. cbn [negb].
    destruct (Cut host [star]) as [[h1 h2]|] eqn:Hstar; [|done]. cbn [mbind option_bind]. intros [= <-].
    pose proof (star_once _ _ _ Hstar Hone) as H2. apply Cut_byte in Hstar as [-> H1].
    unfold pattern_text. cbn [op_scheme op_hostPrefix op_hostSuffix op_port]. split_and!; [done|done|done|].
    destruct (CutLast rest colon) as [[h q]|] eqn:Hl; cbn in Hc.
    + injection Hc as -> ->. apply CutLast_iff in Hl as [-> Hq]. exists (colon :: port). rewrite <- !app_assoc in Ha. cbn in Ha.
      rewrite <- !app_assoc in Hcut. cbn in Hcut. split_and!; [done|done|]. by right.
    + injection Hc as -> <-. apply CutLast_None in Hl. exists []. rewrite app_nil_r. split_and!; [done|done|]. left. split_and!; [done|done|].
      set_solver.
  - intros (Hs & H1 & H2 & port & -> & Ha & Hp). destruct p as [scheme h1 h2 q]. cbn [op_scheme op_hostPrefix op_hostSuffix op_port] in *.
    assert (colon ∉ scheme) as Hcolon by (destruct Hs as [-> | ->]; by vm_compute; set_solver).
    assert (Cut (scheme ++ str "://" ++ h1 ++ star :: h2 ++ port) (str "://") = Some (scheme, h1 ++ star :: h2 ++ port)) as ->
      by exact (Cut_head scheme colon (str "//") _ Hcolon).
    cbn [mbind option_bind]. rewrite (proj2 (scheme_tests scheme) Hs), (proj2 (authority_tests _)).
    2:{ split; [by destruct h1|done]. }
    assert (default (h1 ++ star :: h2 ++ port, []) (CutLast (h1 ++ star :: h2 ++ port) colon) = (h1 ++ star :: h2, q)) as ->.
    { destruct Hp as [(-> & -> & Hc)|[-> Hc]].
      - rewrite app_nil_r, (proj2 (CutLast_None _ _)); [done|]. unfold star, colon in *. set_solver.
      - rewrite (proj2 (CutLast_iff _ colon (h1 ++ star :: h2) q)); [done|]. split; [by rewrite <- app_assoc|done]. }
    rewrite star_counted by done. cbn [Nat.eqb negb]. by rewrite (proj2 (star_in_host h1 h2 _ H1 H2) eq_refl).
Qed.

Lemma wildcard_cut (h p s : list Z) : (length p + length s < length h)%nat → (∃ t, h = p ++ t) → (∃ t, h = t ++ s) →
  h = p ++ drop (length p) (take (length h - length s) h) ++ s.
Proof.
  intros Hl [t ->] [t' E]. assert (t = drop (length p) t' ++ s) as ->.
  { apply (f_equal (drop (length p))) in E. rewrite drop_app_length in E. rewrite E, drop_app_le; [done|].
    apply (f_equal length) in E. rewrite length_drop, !length_app in *. lia. }
  f_equal. rewrite !length_app in *. rewrite app_assoc, take_app_length' by (rewrite length_app; lia).
  by rewrite drop_app_length.
Qed.

Lemma pattern_matches_exact u p : pattern_matches u p = true ↔ in_family p u.
Proof.
  unfold pattern_matches, in_family, one_label. split.
  - destruct (differs _ _ || differs _ _) eqn:Hd; [done|]. tests_in.
    destruct (Nat.leb_spec (length (url_Hostname u)) (length (op_hostPrefix p) + length (op_hostSuffix p))); [done|].
    destruct (negb _ || negb _) eqn:Hps; [done|]. rewrite orb_false_iff, !negb_false_iff in Hps.
    destruct Hps as [Hp%HasPrefix_iff Hs%HasSuffix_iff]. rewrite negb_true_iff. intros Hw. tests_in. split_and!; [done|done|].
    eexists. split; [|by apply wildcard_cut]. split; [done|]. apply elem_of_Contains. by apply Contains_false.
  - intros (<- & <- & label & [Hne Hdot] & E). rewrite (proj2 (differs_false _ _)), (proj2 (differs_false _ _)) by done.
    cbn [orb]. rewrite E. destruct (Nat.leb_spec (length (op_hostPrefix p ++ label ++ op_hostSuffix p))
      (length (op_hostPrefix p) + length (op_hostSuffix p))) as [Hl|_].
    { rewrite !length_app in Hl. destruct label; [done|]. cbn in Hl. lia. }
    rewrite HasPrefix_app, app_assoc, HasSuffix_app. cbn [negb orb].
    rewrite take_app_length' by (rewrite !length_app; lia). rewrite drop_app_length, negb_true_iff, orb_false_iff.
    split; [by apply bool_decide_eq_false|]. apply Contains_false. by apply elem_of_Contains.
Qed.

Lemma isLoopbackOrigin_exact u : isLoopbackOrigin u = true ↔ loopback u.
Proof.
  unfold isLoopbackOrigin, loopback. destruct (differs (url_Scheme u) (str "http") && _) eqn:Hd.
  - split; [done|]. apply andb_true_iff in Hd as [H1 H2]. unfold differs in *. rewrite bool_decide_eq_true in *. tauto.
  - rewrite bool_decide_eq_true. apply andb_false_iff in Hd. rewrite !differs_false in Hd. tauto.
Qed.

(** What the configuration of the allowed origins is. *)
Definition listed (configured : list (list Z)) (o : list Z) : Prop :=
  ∃ c, c ∈ configured ∧ TrimSpace c = o ∧ o ≠ [] ∧ star ∉ o.
Definition family (configured : list (list Z)) (p : originPattern) : Prop :=
  ∃ c, c ∈ configured ∧ pattern_text p (TrimSpace c).

Lemma listed_cons c cs o : listed (c :: cs) o ↔ (TrimSpace c = o ∧ o ≠ [] ∧ star ∉ o) ∨ listed cs o.
Proof.
  unfold listed. split.
  - intros (c' & [->|Hc]%elem_of_cons & Hx); [by left|right; by exists c'].
  - intros [Hx|(c' & Hc & Hx)]; [exists c|exists c']; rewrite elem_of_cons; tauto.
Qed.

Lemma family_cons c cs p : family (c :: cs) p ↔ pattern_text p (TrimSpace c) ∨ family cs p.
Proof.
  unfold family. split.
  - intros (c' & [->|Hc]%elem_of_cons & Hx); [by left|right; by exists c'].
  - intros [Hx|(c' & Hc & Hx)]; [exists c|exists c']; rewrite elem_of_cons; tauto.
Qed.

Lemma pattern_text_star p raw : pattern_text p raw → raw ≠ [] ∧ star ∈ raw.
Proof. intros (_ & _ & _ & port & -> & _). split; [by destruct (op_scheme p)|set_solver]. Qed.

Lemma configure_origins_exact configured : ∀ origins patterns,
  let r := configure_origins configured origins patterns in
  (∀ o, o ∈ r.1 ↔ o ∈ origins ∨ listed configured o) ∧ (∀ p, p ∈ r.2 ↔ p ∈ patterns ∨ family configured p).
Proof.
  induction configured as [|c configured IH]; intros origins patterns.
  { cbn. unfold listed, family. set_solver. }
  cbn [configure_origins]. setoid_rewrite listed_cons. setoid_rewrite family_cons.
  pose proof (λ p, pattern_text_star p (TrimSpace c)) as Hp.
  destruct (decide (TrimSpace c = [])) as [He|He].
  { destruct (IH origins patterns) as [I1 I2]. split; intros x; rewrite ?I1, ?I2; [|specialize (Hp x); tauto].
    assert (TrimSpace c = x → x = []) by congruence. tauto. }
  case_bool_decide as Hs.
  - assert (∀ x, TrimSpace c = x → star ∈ x) as Hx by (intros x; congruence).
    destruct (compileOriginPattern (TrimSpace c)) as [q|] eqn:Hq.
    + destruct (IH origins (patterns ++ [q])) as [I1 I2]. split; intros x; rewrite ?I1, ?I2; [specialize (Hx x); tauto|].
      rewrite elem_of_app, list_elem_of_singleton, <- compileOriginPattern_exact, Hq. assert (Some q = Some x ↔ x = q) by naive_solver. tauto.
    + destruct (IH origins patterns) as [I1 I2]. split; intros x; rewrite ?I1, ?I2; [specialize (Hx x); tauto|].
      rewrite <- compileOriginPattern_exact, Hq. assert (¬ None = Some x) by done. tauto.
  - destruct (IH (origins ∪ {[TrimSpace c]}) patterns) as [I1 I2]. split; intros x; rewrite ?I1, ?I2; [|specialize (Hp x); tauto].
    rewrite elem_of_union, elem_of_singleton. assert (x = TrimSpace c → x ≠ [] ∧ star ∉ x) by (by intros ->).
    assert (x = TrimSpace c ↔ TrimSpace c = x) by (split; congruence). tauto.
Qed.

Section guards.
Context `{URLParser} `{HelperJSON}.

(** C35 Only configured websites may use the helper: an origin is allowed exactly when it is
    one that was configured; or its URL is in the family of a configured pattern, the
    host of the pattern with ONE label for the star; or it is a loopback origin, and so
    is a configured one of the same scheme.  A pattern that is not well formed allows
    nothing. *)
Theorem origin_exact token configured hasShutdown o :
  originAllowed (NewServer token configured hasShutdown) o = true ↔
  listed configured o ∨
  (∃ u p, url_Parse o = Some u ∧ family configured p ∧ in_family p u) ∨
  (∃ u c u', url_Parse o = Some u ∧ loopback u ∧ listed configured c ∧ url_Parse c = Some u' ∧ loopback u' ∧
     url_Scheme u' = url_Scheme u).
Proof.
  unfold originAllowed, patternOriginAllowed, loopbackDevOriginAllowed, NewServer.
  pose proof (configure_origins_exact configured ∅ []) as [I1 I2].
  destruct (configure_origins configured ∅ []) as [origins patterns]. cbn in I1, I2 |- *.
  rewrite !orb_true_iff, bool_decide_eq_true.
  match goal with |- (?a ∨ ?b) ∨ ?c ↔ ?a' ∨ ?b' ∨ ?c' => enough ((a ↔ a') ∧ (b ↔ b') ∧ (c ↔ c')) by tauto end.
  split_and!.
  - rewrite I1. set_solver.
  - assert (∀ p, p ∈ patterns ↔ family configured p) as I3 by (intros p; rewrite I2; set_solver).
    transitivity (∃ u, url_Parse o = Some u ∧ existsb (pattern_matches u) patterns = true).
    { destruct (decide (patterns = [])) as [->|]; [cbn; naive_solver|]. destruct (url_Parse o); naive_solver. }
    setoid_rewrite existsb_exists. setoid_rewrite <- list_elem_of_In. setoid_rewrite I3.
    setoid_rewrite pattern_matches_exact. naive_solver.
  - assert (∀ c, c ∈ elements origins ↔ listed configured c) as I3 by (intros c; rewrite elem_of_elements, I1; set_solver).
    destruct (url_Parse o) as [u|]; [|naive_solver]. rewrite andb_true_iff, isLoopbackOrigin_exact, existsb_exists.
    setoid_rewrite <- list_elem_of_In. setoid_rewrite I3. split.
    + intros [Hl (c & Hc & Hu)]. destruct (url_Parse c) as [u'|] eqn:Hp; [|done].
      apply andb_true_iff in Hu as [Hs%bool_decide_eq_true Hl'%isLoopbackOrigin_exact]. naive_solver.
    + intros (u1 & c & u' & [= <-] & Hl & Hc & Hp & Hl' & Hs). split; [done|]. exists c. split; [done|].
      rewrite Hp, andb_true_iff, bool_decide_eq_true, isLoopbackOrigin_exact. done.
Qed.

(** ** Guards *)

Context {S : Type}.
Variable gen : Generator S.
Variable s : Server.

(** A request of a browser that is paired with the helper, on an allowed website. *)
Definition authorized (r : http_request) : Prop :=
  hr_method r = str "POST" ∧ originAllowed s (hr_origin r) = true ∧ hs_Token s ≠ [] ∧ hr_token r = hs_Token s.
#[export] Instance authorized_dec r : Decision (authorized r).
Proof. unfold authorized. apply _. Defined.

(** What anybody may be told. *)
Definition public_body (b : response_body) : Prop :=
  match b with NoBody | PlainText _ | ErrorBody _ (Text _) | HealthBody | StatusBody _ => True | _ => False end.

Lemma tokenAllowed_iff token : tokenAllowed s token = true ↔ hs_Token s ≠ [] ∧ token = hs_Token s.
Proof.
  unfold tokenAllowed. destruct (decide (hs_Token s = [])) as [->|Hn]; [naive_solver|].
  rewrite (bool_decide_eq_false_2 (hs_Token s = [])) by done. cbn [orb].
  case_bool_decide as Ht; [subst; naive_solver|]. rewrite bool_decide_eq_true. naive_solver.
Qed.

Lemma guarded_authorized r m st k : authorized r → guarded (S:=S) s r m st k = k st.
Proof.
  intros (Hm & Ho & Ht). apply tokenAllowed_iff in Ht. unfold guarded.
  by rewrite (proj2 (differs_false _ _) Hm), Ho, Ht.
Qed.

Lemma guarded_refuses r m st k : ¬ authorized r → let a := guarded (S:=S) s r m st k in a.2 = st ∧ public_body a.1.2.
Proof.
  intros Hn. unfold guarded. destruct (differs (hr_method r) _) eqn:Hm; [done|]. apply differs_false in Hm.
  destruct (originAllowed s (hr_origin r)) eqn:Ho; [|done]. destruct (tokenAllowed s (hr_token r)) eqn:Ht; [|done].
  destruct Hn. by apply tokenAllowed_iff in Ht.
Qed.

Lemma route_refuses r st : ¬ authorized r → let a := route gen s r st in a.2 = st ∧ public_body a.1.2.
Proof.
  intros Hn. unfold route. repeat case_bool_decide; try (by apply guarded_refuses); try done;
    [unfold handleHealth|unfold handleStatus]; by destruct (differs _ _).
Qed.

Lemma Handler_refuses r st : ¬ authorized r →
  let a := Handler gen s r st in a.2 = st ∧ public_body (hp_body a.1).
Proof.
  intros Hn. pose proof (route_refuses r st Hn) as Hr. unfold Handler. case_bool_decide; [done|].
  by destruct (route gen s r st) as [[status body] st'].
Qed.

(** C13 A website that is not allowed, or that is not paired with the helper, has no
    influence on it and learns nothing from it but its status: leaving out the requests that are not
    authorised from a history changes neither the state the history ends in nor an
    answer to an authorised request; each other request gets an empty, plain, health, status
    or fixed error answer; and an answer is readable for the website exactly when
    its origin is allowed. *)
Theorem helper_guarded rs st :
  let keep := filter authorized rs in
  (serve gen s rs st).2 = (serve gen s keep st).2 ∧
  filter (λ p, authorized p.1) (zip rs (serve gen s rs st).1) = zip keep (serve gen s keep st).1 ∧
  Forall2 (λ r resp, (¬ authorized r → public_body (hp_body resp)) ∧
    ∀ o, hp_allow_origin resp = Some o ↔ o = hr_origin r ∧ originAllowed s o = true) rs (serve gen s rs st).1.
Proof.
  revert st. induction rs as [|r rs IH]; intros st; [by repeat constructor|]. cbn [serve].
  destruct (Handler gen s r st) as [resp st'] eqn:Hh. destruct (serve gen s rs st') as [resps st''] eqn:Hs.
  pose proof (Handler_refuses r st) as Href. rewrite Hh in Href.
  assert (∀ o, hp_allow_origin resp = Some o ↔ o = hr_origin r ∧ originAllowed s o = true) as Ho.
  { unfold Handler in Hh. destruct (if bool_decide _ then _ else _) as [[status body] st1]. injection Hh as <- <-.
    cbn [hp_allow_origin]. intros o. destruct (originAllowed s (hr_origin r)) eqn:Ha; split; naive_solver congruence. }
  destruct (IH st') as (I1 & I2 & I3). rewrite Hs in I1, I2, I3. cbn [fst snd zip zip_with] in *.
  rewrite !filter_cons. cbn [fst]. destruct (decide (authorized r)) as [Hr|Hr].
  - cbn [serve]. rewrite Hh. destruct (serve gen s (filter authorized rs) st') as [resps1 st1]. cbn [fst snd zip zip_with] in *.
    split_and!; [done|by rewrite I2|]. constructor; [tauto|done].
  - destruct (Href Hr) as [E Hp]. cbn in E, Hp. subst st'. split_and!; [done|done|]. constructor; [tauto|done].
Qed.

(** *** Shutting down *)

Definition shutdown_request (r : http_request) : Prop := authorized r ∧ hr_path r = str "/shutdown".
#[export] Instance shutdown_request_dec r : Decision (shutdown_request r).
Proof. unfold shutdown_request. apply _. Defined.

(** A request leaves a flag and a count of shutdowns. *)
Definition shutdown_state (st : server_state (S:=S)) : bool * nat := (st_shutdownCalled st, st_shutdowns st).

Lemma guarded_keeps r m st k : (∀ st, shutdown_state (k st).2 = shutdown_state st) →
  shutdown_state (guarded (S:=S) s r m st k).2 = shutdown_state st.
Proof. intros Hk. unfold guarded. by repeat (destruct (_ : bool); [done|]). Qed.

Lemma handleProve_keeps r st : shutdown_state (handleProve gen s r st).2 = shutdown_state st.
Proof.
  unfold handleProve. apply guarded_keeps. intros st1. destruct (json_ProveRequest _); [|done].
  destruct (BuildInput _); [|done]. destruct (GenerateProof _ _ _ _) as [[[proof|e] ?] ?]; [done|].
  unfold generator_error. by destruct (errorMapping e) as [[? ?] ?].
Qed.

Lemma handleProveDestination_keeps r st : shutdown_state (handleProveDestination gen s r st).2 = shutdown_state st.
Proof.
  unfold handleProveDestination. apply guarded_keeps. intros st1. destruct (GenerateDestinationProofs gen); [|done].
  destruct (json_ProveDestinationRequest _) as [req|]; [|done]. destruct (pd_PreflightOnly req).
  { by destruct (loaded_preflight req). }
  destruct (BuildDestinationInput req); [|done]. destruct (_ && negb _); [done|].
  destruct (p _ _ _) as [[results ?] ?]. destruct (acceptsDestinationProgress _); [done|].
  destruct results as [|e]; [done|]. unfold generator_error. by destruct (errorMapping e) as [[? ?] ?].
Qed.

Lemma Handler_shutdown r st : hs_HasShutdown s = true → shutdown_state (Handler gen s r st).2 =
  if decide (shutdown_request r)
  then (true, if st_shutdownCalled st then st_shutdowns st else Datatypes.S (st_shutdowns st)) else shutdown_state st.
Proof.
  intros Hs. destruct (decide (shutdown_request r)) as [[Ha Hp]|Hn].
  - unfold Handler. rewrite bool_decide_eq_false_2 by (destruct Ha as [-> _]; done). unfold route. rewrite Hp.
    rewrite !(bool_decide_eq_false_2 (str "/shutdown" = _)), (bool_decide_eq_true_2 (str "/shutdown" = _)) by done.
    unfold handleShutdown. rewrite guarded_authorized by done. rewrite Hs. unfold shutdown_state.
    destruct (st_shutdownCalled st) eqn:Hc; cbn; by rewrite ?Hc.
  - unfold Handler. case_bool_decide; [done|].
    assert (shutdown_state (route gen s r st).2 = shutdown_state st) as <-.
    { unfold route. case_bool_decide; [unfold handleHealth; by destruct (differs _ _)|].
      case_bool_decide; [unfold handleStatus; by destruct (differs _ _)|].
      case_bool_decide; [apply handleProve_keeps|]. case_bool_decide; [apply handleProveDestination_keeps|].
      case_bool_decide as Hp; [|done]. unfold handleShutdown.
      destruct (decide (authorized r)); [by destruct Hn|]. by rewrite (proj1 (guarded_refuses r _ st _ n)). }
    by destruct (route gen s r st) as [[? ?] ?].
Qed.

(** The shutdown is started once: over any history it is started by the first authorised
    request for it, never again, and by nothing else. *)
Theorem shutdown_once rs st : hs_HasShutdown s = true →
  st_shutdowns (serve gen s rs st).2 =
  (st_shutdowns st + if st_shutdownCalled st then 0 else if decide (Exists shutdown_request rs) then 1 else 0)%nat.
Proof.
  intros Hs. revert st. induction rs as [|r rs IH]; intros st.
  { cbn [serve]. destruct (st_shutdownCalled st); [cbn; lia|]. destruct (decide (Exists shutdown_request [])) as [He%Exists_nil|]; [done|cbn; lia]. }
  cbn [serve]. pose proof (Handler_shutdown r st Hs) as Hh. destruct (Handler gen s r st) as [resp st'].
  specialize (IH st'). destruct (serve gen s rs st') as [resps st'']. cbn [snd] in *. rewrite IH. unfold shutdown_state in Hh.
  destruct (decide (Exists shutdown_request (r :: rs))) as [He|He]; rewrite Exists_cons in He;
    destruct (decide (shutdown_request r)); injection Hh as -> ->;
    destruct (st_shutdownCalled st), (decide (Exists shutdown_request rs)); try tauto; lia.
Qed.
End guards.

(** ** The stream *)

(** What is to be written: the progress, then the results or the error. *)
Definition stream_events (input : ProveDestinationInput) (results : result gen_error (list DestinationProofArtifactItem))
    (progress : list LocalProofProgress) : list DestinationProgressEvent :=
  (ProgressEvent <$> progress) ++
  [match results with
   | Ok results => ResultEvent (destinationProofResponse input results)
   | Err e => let '(_, code, message) := errorMapping e in ErrorEvent code message
   end].

(** The writer has written the events before the first write that fails. *)
Definition written_before_failure (fails : nat → bool) (events : list DestinationProgressEvent) (w : progress_writer) : Prop :=
  ∃ n, pw_written w = take n events ∧ (n <= length events)%nat ∧ (∀ i, (i < n)%nat → fails i = false) ∧
    (if pw_failed w then fails n = true ∧ (n < length events)%nat else n = length events).

Lemma writer_write_invariant fails events w e : written_before_failure fails events w →
  written_before_failure fails (events ++ [e]) (writer_write fails w e).
Proof.
  intros (n & Hw & Hn & Hok & Hf). unfold writer_write. destruct (pw_failed w) eqn:Hfailed.
  - exists n. rewrite Hfailed, length_app. cbn. destruct Hf. split_and!; [by rewrite take_app_le|lia|done|done|lia].
  - subst n. rewrite firstn_all in Hw. rewrite Hw. destruct (fails (length events)) eqn:He; cbn [pw_written pw_failed].
    + exists (length events). rewrite take_app_length, length_app. cbn. split_and!; [done|lia|exact Hok|exact He|lia].
    + exists (Datatypes.S (length events)). rewrite length_app. cbn. split_and!; [by rewrite take_ge by (rewrite length_app; cbn; lia)|lia| |lia].
      intros i Hi. destruct (decide (i = length events)) as [->|]; [done|apply Hok; lia].
Qed.

Lemma writer_writes_invariant fails more events w : written_before_failure fails events w →
  written_before_failure fails (events ++ more) (foldl (writer_write fails) w more).
Proof.
  revert events w. induction more as [|e more IH]; intros events w Hw; [by rewrite app_nil_r|].
  cbn [foldl]. rewrite cons_middle, app_assoc. by apply IH, writer_write_invariant.
Qed.

Lemma stream_prefix fails input results progress :
  let events := stream_events input results progress in
  ∃ n, streamDestinationProofs fails input results progress = take n events ∧
    (∀ i, (i < n)%nat → fails i = false) ∧ (n = length events ∨ (n < length events)%nat ∧ fails n = true).
Proof.
  cbn zeta. unfold streamDestinationProofs.
  assert (written_before_failure fails [] {| pw_written := []; pw_failed := false |}) as H0
    by (exists 0%nat; cbn; split_and!; [done|lia|intros; lia|done]).
  pose proof (writer_writes_invariant fails (ProgressEvent <$> progress) [] _ H0) as Hw. cbn [app] in Hw.
  set (w := foldl _ _ _) in *. clearbody w.
  pose proof (writer_write_invariant fails _ w (match results with
   | Ok results => ResultEvent (destinationProofResponse input results)
   | Err e => let '(_, code, message) := errorMapping e in ErrorEvent code message end) Hw) as (n & Ht & Hn & Hok & Hf).
  exists n. split_and!; [|done|destruct (pw_failed _) in Hf; [right; tauto|by left]].
  unfold stream_events. rewrite <- Ht. destruct results as [results|e]; [done|].
  destruct (errorMapping e) as [[? code] message]. unfold writer_write. by destruct (pw_failed w) eqn:E; rewrite ?E.
Qed.

(** The stream of progress is a prefix of the events, progress first and the results or
    the error last, and ends before the end only where a write failed: nothing is
    written after a failed write. *)
Theorem stream_exact fails input results progress :
  let events := stream_events input results progress in
  ∃ n, streamDestinationProofs fails input results progress = take n events ∧
    (∀ i, (i < n)%nat → fails i = false) ∧ (n = length events ∨ (n < length events)%nat ∧ fails n = true).
Proof. apply stream_prefix. Qed.

(** ** What is disclosed *)

(** The artifacts of an answer. *)
Definition event_artifacts (e : DestinationProgressEvent) : list ProofArtifact :=
  match e with ResultEvent r => it_Artifact <$> rp_Artifacts r | _ => [] end.
Definition body_artifacts (b : response_body) : list ProofArtifact :=
  match b with
  | ProofBody a debug => a :: option_list debug
  | DestinationBody r => it_Artifact <$> rp_Artifacts r
  | StreamBody events => events ≫= event_artifacts
  | _ => []
  end.
Definition pathless (a : ProofArtifact) : Prop := pa_Path a = None ∧ pa_Paths a = [].

Section disclosed.
Context `{URLParser} `{HelperJSON} {S : Type}.
Variable gen : Generator S.
Variable s : Server.

(** The request asks for the paths. *)
Definition asks_for_paths (r : http_request) : Prop :=
  (∃ req, json_ProveRequest (limited (hr_body r)) = Some req ∧ pr_IncludeDebugPath req = true) ∨
  (∃ req, json_ProveDestinationRequest (limited (hr_body r)) = Some req ∧ pd_IncludeDebugPath req = true).

#[local] Instance flag_dec {A} (o : option A) (f : A → bool) : Decision (∃ a, o = Some a ∧ f a = true).
Proof.
  destruct o as [a|]; [|right; by intros (? & ? & _)].
  destruct (f a) eqn:E; [left; by exists a|right; intros (a' & [= <-] & E'); congruence].
Defined.
#[export] Instance asks_for_paths_dec r : Decision (asks_for_paths r).
Proof. unfold asks_for_paths. apply _. Defined.

Lemma backend_pathless a : pathless (BackendProofArtifact a).
Proof. done. Qed.

Lemma BuildInput_debug req input : BuildInput req = Ok input → pi_IncludeDebugPath input = pr_IncludeDebugPath req.
Proof. unfold BuildInput. intros Hb. repeat (apply bind_Ok in Hb as (? & _ & Hb)). by injection Hb as <-. Qed.

Lemma BuildDestinationInput_debug req input : BuildDestinationInput req = Ok input →
  dp_IncludeDebugPath input = pd_IncludeDebugPath req.
Proof. unfold BuildDestinationInput. intros Hb. repeat (apply bind_Ok in Hb as (? & _ & Hb)). by injection Hb as <-. Qed.

Lemma destination_response_pathless input results : dp_IncludeDebugPath input = false →
  Forall pathless (it_Artifact <$> rp_Artifacts (destinationProofResponse input results)).
Proof.
  intros Hd. unfold destinationProofResponse. rewrite Hd. cbn [rp_Artifacts]. rewrite Forall_fmap, Forall_fmap.
  apply Forall_true. intros x. apply backend_pathless.
Qed.

Lemma streamed_pathless fails input results progress : dp_IncludeDebugPath input = false →
  Forall pathless (streamDestinationProofs fails input results progress ≫= event_artifacts).
Proof.
  intros Hd. destruct (stream_prefix fails input results progress) as (n & -> & _).
  apply Forall_bind, Forall_take. unfold stream_events. apply Forall_app. split.
  - rewrite Forall_fmap. apply Forall_true. constructor.
  - apply Forall_singleton. destruct results as [results|e]; [by apply destination_response_pathless|].
    destruct (errorMapping e) as [[? ?] ?]. constructor.
Qed.

Lemma guarded_body (P : response_body → Prop) r m st k :
  (∀ a b, P (ErrorBody a (Text b))) → (∀ a, P (PlainText a)) → (∀ st, P (k st).1.2) → P (guarded (S:=S) s r m st k).1.2.
Proof. intros H1 H2 Hk. unfold guarded. repeat (destruct (_ : bool); [cbn; done || apply H1 || apply H2|]). apply Hk. Qed.

Lemma handleProve_pathless r st : ¬ asks_for_paths r → Forall pathless (body_artifacts (handleProve gen s r st).1.2).
Proof.
  intros Hn. unfold handleProve. apply (guarded_body (λ b, Forall pathless (body_artifacts b))); [constructor..|]. intros st1.
  destruct (json_ProveRequest _) as [req|] eqn:Hj; [|constructor]. destruct (BuildInput req) as [input|] eqn:Hb; [|constructor].
  destruct (GenerateProof _ _ _ _) as [[[proof|e] ?] ?]; [|unfold generator_error; destruct (errorMapping e) as [[? ?] ?]; constructor].
  destruct (pi_IncludeDebugPath input) eqn:Hd; [|cbn; by repeat constructor].
  apply BuildInput_debug in Hb. destruct Hn. left. exists req. by rewrite <- Hb.
Qed.

Lemma handleProveDestination_pathless r st : ¬ asks_for_paths r →
  Forall pathless (body_artifacts (handleProveDestination gen s r st).1.2).
Proof.
  intros Hn. unfold handleProveDestination. apply (guarded_body (λ b, Forall pathless (body_artifacts b))); [constructor..|].
  intros st1. destruct (GenerateDestinationProofs gen); [|constructor].
  destruct (json_ProveDestinationRequest _) as [req|] eqn:Hj; [|constructor]. destruct (pd_PreflightOnly req).
  { destruct (loaded_preflight req); constructor. }
  destruct (BuildDestinationInput req) as [input|] eqn:Hb; [|constructor]. destruct (_ && negb _); [constructor|].
  destruct (p _ _ _) as [[results progress] ?].
  assert (dp_IncludeDebugPath input = false) as Hd.
  { destruct (dp_IncludeDebugPath input) eqn:Hd; [|done]. apply BuildDestinationInput_debug in Hb. destruct Hn. right.
    exists req. by rewrite <- Hb. }
  destruct (acceptsDestinationProgress _); [by apply streamed_pathless|].
  destruct results as [|e]; [by apply destination_response_pathless|]. unfold generator_error.
  destruct (errorMapping e) as [[? ?] ?]. constructor.
Qed.

(** Where a credential lies below the master key stays on the machine: no artifact of an
    answer, streamed or not, carries a derivation path, unless the request asks for
    the paths. *)
Theorem paths_private r st :
  Forall pathless (body_artifacts (hp_body (Handler gen s r st).1)) ∨ asks_for_paths r.
Proof.
  assert (Forall pathless (body_artifacts (route gen s r st).1.2) ∨ asks_for_paths r) as Hr.
  { destruct (decide (asks_for_paths r)) as [|Hn]; [by right|left]. unfold route.
    case_bool_decide; [unfold handleHealth; destruct (differs _ _); constructor|].
    case_bool_decide; [unfold handleStatus; destruct (differs _ _); constructor|].
    case_bool_decide; [by apply handleProve_pathless|]. case_bool_decide; [by apply handleProveDestination_pathless|].
    case_bool_decide; [|constructor].
    apply (guarded_body (λ b, Forall pathless (body_artifacts b))); constructor. }
  unfold Handler. case_bool_decide; [left; constructor|]. by destruct (route gen s r st) as [[? ?] ?].
Qed.
End disclosed.
