(* ===== verification/CommandsCorrect.v ===== *)
(** * What a verified proof means, and that honest proofs are verified

    The commands composed with the bundle, with gnark's Groth16 and with the circuits:
    what a proving command writes, the verifying command accepts, and what a verifying
    command accepts shows that somebody knows a master key of the credentials. *)
From stdpp Require Import strings gmap.
From S2P Require Import Prelude.
From S2P Require Import Gnark.
From S2P Require Import GnarkModel.
From S2P Require Import CkdArith.
From S2P Require Import Blake2bSpec.
From S2P Require Import Ed25519.
From S2P Require Import Ckd.
From S2P Require Import GoText.
From S2P Require Import GoError.
From S2P Require Import Ownership.
From S2P Require Import OwnershipCircuit.
From S2P Require Import OwnershipCircuitCorrect.
From S2P Require Import OwnershipMultiCorrect.
From S2P Require Import Discovery.
From S2P Require Import OwnershipCorrect.
From S2P Require Import DiscoveryCorrect.
From S2P Require Import Artifact.
From S2P Require Import Prover.
From S2P Require Import Commands.
From S2P Require Import Verifier.

(** ** Decoders *)

Lemma DecodeCredentialHex_Ok s bs : DecodeCredentialHex s = Ok bs → Forall is_byte bs ∧ length bs = 28%nat.
Proof.
  unfold DecodeCredentialHex. destruct (hex_DecodeString _) as [b|] eqn:Hh; [|done].
  destruct (Nat.eqb_spec (length b) 28); [|done]. intros [= <-]. by apply hex_DecodeString_bytes in Hh.
Qed.

Lemma DecodeDestination_Ok s bs : DecodeDestinationAddressV1Hex s = Ok bs →
  Forall is_byte bs ∧ length bs = 58%nat.
Proof.
  unfold DecodeDestinationAddressV1Hex. destruct (hex_DecodeString _) as [b|] eqn:Hh; [|done].
  destruct (Nat.eqb_spec (length b) DestinationAddressV1Len); [|done]. intros [= <-].
  by apply hex_DecodeString_bytes in Hh.
Qed.

Lemma map_err_Ok {E F A} (f : E → F) (r : result E A) a : map_err f r = Ok a ↔ r = Ok a.
Proof. destruct r; cbn; naive_solver. Qed.

Section decoders.
Context `{Field}.

Lemma credential_reads_back bs : Forall is_byte bs → length bs = 28%nat →
  DecodeCredentialHex (hex_EncodeToString bs) = Ok bs.
Proof.
  intros Hb Hl. destruct (text_reads_back 0 bs Hb) as [_ Ht].
  destruct (Ht _ (or_introl eq_refl)) as (_ & -> & _). by rewrite decide_True.
Qed.

Lemma destination_reads_back bs : Forall is_byte bs → length bs = 58%nat →
  DecodeDestinationAddressV1Hex (hex_EncodeToString bs) = Ok bs.
Proof.
  intros Hb Hl. destruct (text_reads_back 0 bs Hb) as [_ Ht].
  destruct (Ht _ (or_introl eq_refl)) as (_ & _ & ->). by rewrite decide_True.
Qed.

Lemma decode_credentials_Ok values bss : decode_credentials values = Ok bss →
  length bss = length values ∧ Forall (λ bs, Forall is_byte bs ∧ length bs = 28%nat) bss.
Proof.
  revert bss. induction values as [|v values IH]; intros bss; cbn [decode_credentials];
    [intros [= <-]; by split|].
  intros (bs & Hb & (rest & Hr & [= <-])%bind_Ok)%bind_Ok. destruct (IH rest Hr) as [Hl Hf].
  destruct (DecodeCredentialHex v) as [b|] eqn:Hd; [|done]. injection Hb as ->.
  apply DecodeCredentialHex_Ok in Hd. cbn. split; [by rewrite Hl|by constructor].
Qed.

Lemma credentials_read_back bss : Forall (λ bs, Forall is_byte bs ∧ length bs = 28%nat) bss →
  decode_credentials (encodeHexList bss) = Ok bss.
Proof.
  induction 1 as [|bs bss [Hb Hl] _ IH]; [done|]. cbn [encodeHexList fmap list_fmap decode_credentials].
  rewrite credential_reads_back by done. cbn [map_err mbind result_bind].
  fold (fmap (M:=list) hex_EncodeToString bss). fold (encodeHexList bss). by rewrite IH.
Qed.
End decoders.

(** ** Proving, then verifying *)

(** The public input of an assignment. *)
Definition public_of (w : Witness) : Z :=
  match w with OwnershipW c => Pub c | DestinationW c => Pub (dOwner c) | MultiW c => mPub c end.

Section complete.
Context `{Groth16Encodings} `{Edwards25519} `{XCryptoBlake2b} `{Field} `{ManifestJSONLaws}.

(** What Groth16 promises: proofs of keys from one setup verify against the public input
    they were made for. *)
Definition groth16_complete : Prop := ∀ ccs toxic pk vk w blinding proof,
  groth16_Setup ccs toxic = Ok (pk, vk) → groth16_Prove ccs pk w blinding = Ok proof →
  groth16_Verify proof vk [public_of w mod field_order] = Ok tt.

(** A bundle that is already there holds keys from a setup of its circuit. *)
Definition keys_from_setup (dir : directory) (circuit : circuit_name) (cfg : keyConfig) : Prop :=
  ∀ b, loadProver dir cfg = Ok b → ∃ ccs toxic pk, Compile circuit = Ok ccs ∧
    ob_ProvingKey b = Some pk ∧ groth16_Setup ccs toxic = Ok (pk, ob_VerifyingKey b).

Context (Hcomplete : groth16_complete).
Context (vk_bytes : ∀ vk, Forall is_byte (vk_WriteTo vk)) (pk_bytes : ∀ pk, Forall is_byte (pk_WriteRawTo pk)).

Lemma loadProver_loadVerifier dir cfg b : loadProver dir cfg = Ok b →
  loadVerifier dir cfg = Ok {| ob_Manifest := ob_Manifest b; ob_ProvingKey := None; ob_VerifyingKey := ob_VerifyingKey b |}.
Proof.
  unfold loadProver, loadVerifier. intros Hl. repeat (apply bind_Ok in Hl as (? & ? & Hl)).
  injection Hl as <-. cbn [ob_Manifest ob_VerifyingKey]. repeat (apply bind_Ok; eexists; split; [eassumption|]). done.
Qed.

(** A bundle that loads has all its files. *)
Lemma loadProver_files dir cfg b : loadProver dir cfg = Ok b → filesExist dir [manifestPath; pkPath; vkPath] = true.
Proof.
  intros Hl. unfold loadProver in Hl.
  assert (∀ name r, read_file dir name = Ok r → bool_decide (is_Some (dir !! name)) = true) as Hread.
  { intros name r Hr. apply bool_decide_eq_true. unfold read_file in Hr. destruct (dir !! name); [by eexists|done]. }
  apply bind_Ok in Hl as (m & Hm & Hl). do 3 apply bind_Ok in Hl as (_ & _ & Hl).
  apply bind_Ok in Hl as (pk & Hpk & Hl). apply bind_Ok in Hl as (vk & Hvk & _).
  unfold ReadKeyManifest in Hm. apply bind_Ok in Hm as (r1 & Hr1%map_err_Ok & _).
  unfold LoadPK in Hpk. apply bind_Ok in Hpk as (r2 & Hr2%map_err_Ok & _).
  unfold LoadVK in Hvk. apply bind_Ok in Hvk as (r3 & Hr3%map_err_Ok & _).
  unfold filesExist. cbn [forallb]. by rewrite (Hread _ _ Hr1), (Hread _ _ Hr2), (Hread _ _ Hr3).
Qed.

Lemma proved_verifies dir circuit cfg w digest toxic now blinding vkHash enc cardano dir' :
  byte_files dir → blank (kc_KeyVersion cfg) = false → keys_from_setup dir circuit cfg →
  prove_assignment dir circuit cfg w digest toxic now blinding = (Ok (vkHash, enc, cardano), dir') →
  ∃ b proof, loadVerifier dir' cfg = Ok b ∧ km_VKHash (ob_Manifest b) = vkHash ∧
    UnmarshalProof enc = Ok proof ∧ VerifyProof (ob_VerifyingKey b) proof (public_of w) = Ok tt.
Proof.
  intros Hb Hv Hkeys. unfold prove_assignment.
  destruct (Compile circuit) as [ccs|] eqn:Hccs; [|done].
  destruct (loadOrCreateBundle dir ccs cfg toxic now) as [loaded dir''] eqn:Hload.
  intros [= Hrun <-]. apply bind_Ok in Hrun as (b & Hl & Hrun).
  destruct loaded as [b'|]; [injection Hl as ->|done].
  assert (∃ pk toxic', ob_ProvingKey b = Some pk ∧ groth16_Setup ccs toxic' = Ok (pk, ob_VerifyingKey b) ∧
    loadVerifier dir'' cfg = Ok {| ob_Manifest := ob_Manifest b; ob_ProvingKey := None;
      ob_VerifyingKey := ob_VerifyingKey b |}) as (pk & toxic' & Hpk & Hset & Hver).
  { destruct (filesExist dir [manifestPath; pkPath; vkPath]) eqn:Hex.
    - unfold loadOrCreateBundle in Hload. rewrite Hex in Hload. injection Hload as Hload <-.
      destruct (Hkeys b Hload) as (ccs' & t & pk & Hccs' & Hpk & Hset). rewrite Hccs in Hccs'.
      injection Hccs' as <-. exists pk, t. split_and!; try done. by apply loadProver_loadVerifier.
    - destruct (groth16_Setup ccs toxic) as [[pk vk]|] eqn:Hset;
        [|unfold loadOrCreateBundle in Hload; by rewrite Hex, Hset in Hload].
      destruct (fresh_bundle_loads vk_bytes pk_bytes dir ccs cfg toxic now pk vk Hb Hv Hex Hset)
        as (b2 & dir2 & Hrun2 & Hpk & Hvk & _ & Hver & _). rewrite Hload in Hrun2. injection Hrun2 as -> ->.
      exists pk, toxic. rewrite Hvk. done. }
  rewrite Hpk in Hrun. apply bind_Ok in Hrun as (proof & Hp & Hrun).
  apply bind_Ok in Hrun as (d & _ & Hrun). apply bind_Ok in Hrun as (c & _ & [= <- <- _]).
  unfold Prove in Hp. destruct (groth16_Prove ccs pk w blinding) as [pr|] eqn:Hpr; [|done]. injection Hp as ->.
  eexists _, proof. split; [exact Hver|]. split; [done|]. split; [apply proof_text_round_trip|].
  unfold VerifyProof. cbn [ob_VerifyingKey]. by rewrite (Hcomplete _ _ _ _ _ _ _ Hset Hpr).
Qed.

Lemma after_Ok {A B : Type} (r : result cmd_error A) (dir : directory) (k : A → result cmd_error B * directory) b dir' :
  after r dir k = (Ok b, dir') ↔ ∃ a, r = Ok a ∧ k a = (Ok b, dir').
Proof. unfold after. destruct r as [a|e]; naive_solver. Qed.

Lemma require_Ok c m u : require c m = Ok u ↔ c = false.
Proof. apply guard_err_Ok. Qed.

Lemma Assignment_Pub m p pub c : Assignment m p pub = Ok c → Pub c = pub.
Proof.
  unfold Assignment. destruct (negb _); [done|]. intros Ha.
  repeat (apply bind_Ok in Ha as (? & _ & Ha)). by injection Ha as <-.
Qed.

Lemma DestAssignment_Pub m p d pub c : DestAssignment m p d (Some pub) = Ok c → Pub (dOwner c) = pub.
Proof.
  unfold DestAssignment. destruct (negb _); [done|]. destruct (negb _); [done|]. intros Ha.
  repeat (apply bind_Ok in Ha as (? & _ & Ha)). by injection Ha as <-.
Qed.

Lemma MultiAssignment_Pub m ps d pub c : MultiAssignment m ps d (Some pub) = Ok c → mPub c = pub.
Proof.
  unfold MultiAssignment. destruct (negb _); [done|]. intros (? & _ & Ha)%bind_Ok.
  destruct (negb _); [done|]. repeat (apply bind_Ok in Ha as (? & _ & Ha)). by injection Ha as <-.
Qed.

(** The last steps of a verifying command, on what a proving command left. *)
Lemma verify_in_bundle_Ok dir cfg p z b proof : loadVerifier dir cfg = Ok b →
  km_VKHash (ob_Manifest b) = pa_VKHash p → UnmarshalProof (pa_Proof p) = Ok proof →
  VerifyProof (ob_VerifyingKey b) proof z = Ok tt → verify_in_bundle dir cfg p z = Ok (b, proof).
Proof.
  intros Hl Hk Hu Hv. unfold verify_in_bundle. rewrite Hl, Hu. cbn [map_err mbind result_bind].
  rewrite Hv, Hk. cbn [map_err mbind result_bind]. unfold require. by rewrite (proj2 (differs_false _ _)).
Qed.

Lemma run_require (c : bool) m {A} (k : unit → result cmd_error A) : c = false → (require c m ≫= k) = k tt.
Proof. by intros ->. Qed.

Lemma run_map_err {E F A B} (f : E → F) (r : result E A) a (k : A → result F B) : r = Ok a → (map_err f r ≫= k) = k a.
Proof. by intros ->. Qed.

Ltac in_bundle Hl Hvk Hu Hv :=
  match goal with |- context [verify_in_bundle ?d ?c ?p ?z] =>
    rewrite (verify_in_bundle_Ok d c p z _ _ Hl Hvk Hu Hv) end.

Lemma cmdProve_verifies dir fuel mh th search toxic now blinding a dir' :
  byte_files dir → keys_from_setup dir OwnershipC ownershipKeyConfig →
  cmdProve dir fuel mh th search toxic now blinding = (Ok a, dir') →
  cmdVerify dir' (BackendProofArtifact a) = Ok tt.
Proof.
  intros Hb Hk ([[[target path] pub] asg] & Hpre & Hrun)%after_Ok.
  do 3 apply bind_Ok in Hpre as (? & _ & Hpre).
  apply bind_Ok in Hpre as (t & Ht%map_err_Ok & Hpre). apply bind_Ok in Hpre as (? & _ & Hpre).
  apply bind_Ok in Hpre as (z & Hz%map_err_Ok & Hpre). apply bind_Ok in Hpre as (c & Hc%map_err_Ok & [= -> -> -> ->]).
  destruct (prove_assignment _ _ _ _ _ _ _ _) as [proved dir2] eqn:Hp. injection Hrun as Hrun <-.
  apply bind_Ok in Hrun as ([[vk enc] cardano] & -> & [= <-]).
  destruct (proved_verifies dir OwnershipC ownershipKeyConfig _ _ _ _ _ _ _ _ _ Hb eq_refl Hk Hp) as (b & proof & Hl & Hvk & Hu & Hv).
  cbn [public_of] in Hv. rewrite (Assignment_Pub _ _ _ _ Hc) in Hv.
  unfold cmdVerify, readProofSchema. rewrite run_require by (by apply differs_false).
  apply DecodeCredentialHex_Ok in Ht as [Htb Htl].
  unfold validateSingleProofArtifact. rewrite run_require by (by apply differs_false).
  cbn [pa_TargetCredential BackendProofArtifact].
  rewrite (run_map_err _ _ _ _ (credential_reads_back _ Htb Htl)), (run_map_err _ _ _ _ Hz).
  rewrite run_require by (by apply differs_false). cbn [mbind result_bind]. by in_bundle Hl Hvk Hu Hv.
Qed.

(** What the verifying command asks of an artifact for a destination. *)
Lemma destination_accepted dir a t d z b proof :
  Forall is_byte t → length t = 28%nat → Forall is_byte d → length d = 58%nat →
  PublicInputForCredentialDestination t d = Ok z →
  pa_Schema a = ProofSchema → pa_CircuitID a = DestCircuitID → pa_PublicInputEncoding a = DestPublicInputEncoding →
  pa_DestinationAddressEncoding a = DestinationAddressEncoding → pa_TargetCredential a = hex_EncodeToString t →
  pa_DestinationAddress a = hex_EncodeToString d → pa_PublicInput a = PublicInputHex z →
  loadVerifier dir ownershipDestinationKeyConfig = Ok b → km_VKHash (ob_Manifest b) = pa_VKHash a →
  UnmarshalProof (pa_Proof a) = Ok proof → VerifyProof (ob_VerifyingKey b) proof z = Ok tt →
  cmdVerifyDestination dir a = Ok tt.
Proof.
  intros Htb Htl Hdb Hdl Hz E1 E2 E3 E4 E5 E6 E7 Hl Hvk Hu Hv.
  unfold cmdVerifyDestination, readProofSchema. rewrite run_require by (by apply differs_false).
  unfold validateDestinationProofArtifact. rewrite !run_require by (by apply differs_false). rewrite E5, E6, E7.
  rewrite (run_map_err _ _ _ _ (credential_reads_back _ Htb Htl)).
  rewrite (run_map_err _ _ _ _ (destination_reads_back _ Hdb Hdl)). rewrite (run_map_err _ _ _ _ Hz).
  rewrite run_require by (by apply differs_false).
  pose proof Hz as Hz'. unfold PublicInputForCredentialDestination in Hz'. apply bind_Ok in Hz' as (dg & Hdg & _).
  rewrite (run_map_err _ _ _ _ Hdg). cbn [mbind result_bind]. by in_bundle Hl Hvk Hu Hv.
Qed.

Lemma cmdProveDestination_verifies dir fuel mh th dh search toxic now blinding a dir' :
  byte_files dir → keys_from_setup dir DestinationC ownershipDestinationKeyConfig →
  cmdProveDestination dir fuel mh th dh search toxic now blinding = (Ok a, dir') →
  cmdVerifyDestination dir' (BackendProofArtifact a) = Ok tt.
Proof.
  intros Hb Hk ([[[[target dest] path] pub] asg] & Hpre & Hrun)%after_Ok.
  do 4 apply bind_Ok in Hpre as (? & _ & Hpre).
  apply bind_Ok in Hpre as (t & Ht%map_err_Ok & Hpre). apply bind_Ok in Hpre as (d & Hd%map_err_Ok & Hpre).
  apply bind_Ok in Hpre as (? & _ & Hpre). apply bind_Ok in Hpre as (z & Hz%map_err_Ok & Hpre).
  apply bind_Ok in Hpre as (c & Hc%map_err_Ok & [= -> -> -> -> ->]).
  destruct (prove_assignment _ _ _ _ _ _ _ _) as [proved dir2] eqn:Hp. injection Hrun as Hrun <-.
  apply bind_Ok in Hrun as ([[vk enc] cardano] & -> & [= <-]).
  destruct (proved_verifies dir DestinationC ownershipDestinationKeyConfig _ _ _ _ _ _ _ _ _ Hb eq_refl Hk Hp)
    as (b & proof & Hl & Hvk & Hu & Hv).
  cbn [public_of] in Hv. rewrite (DestAssignment_Pub _ _ _ _ _ Hc) in Hv.
  apply DecodeCredentialHex_Ok in Ht as [Htb Htl]. apply DecodeDestination_Ok in Hd as [Hdb Hdl].
  by apply (destination_accepted _ _ _ _ _ b proof Htb Htl Hdb Hdl Hz).
Qed.

Lemma KeyVersionForCount_visible n : blank (KeyVersionForCount n) = false.
Proof.
  apply visible_not_blank; [|done]. apply Forall_app. split; [repeat constructor; done|].
  apply visible_text. lia.
Qed.

Lemma decodeCredentialList_Ok values bss : decodeCredentialList values = Ok bss ↔
  1 <= Z.of_nat (length values) <= 65535 ∧ decode_credentials values = Ok bss.
Proof.
  unfold decodeCredentialList. rewrite bind_Ok. setoid_rewrite map_err_Ok.
  split; [intros ([] & ?%ValidateCredentialCount_Ok & ?); done|intros [? ?]; exists tt; by rewrite ValidateCredentialCount_Ok].
Qed.

(** What the verifying command asks of an artifact for several credentials. *)
Lemma multi_accepted dir a ts d z b proof count : 1 <= count <= 65535 → Z.of_nat (length ts) = count →
  Forall (λ bs, Forall is_byte bs ∧ length bs = 28%nat) ts → Forall is_byte d → length d = 58%nat →
  PublicInputForCredentialsDestination ts d = Ok z →
  pa_Schema a = ProofSchema → pa_CircuitID a = CircuitIDForCount count → pa_CredentialCount a = count →
  pa_PublicInputEncoding a = MultiPublicInputEncoding → pa_DestinationAddressEncoding a = DestinationAddressEncoding →
  pa_TargetCredentials a = encodeHexList ts → pa_DestinationAddress a = hex_EncodeToString d →
  pa_PublicInput a = PublicInputHex z →
  loadVerifier dir (ownershipMultiKeyConfigForCount count) = Ok b → km_VKHash (ob_Manifest b) = pa_VKHash a →
  UnmarshalProof (pa_Proof a) = Ok proof → VerifyProof (ob_VerifyingKey b) proof z = Ok tt →
  cmdVerifyMulti dir a = Ok tt.
Proof.
  intros Hcount Hn Htf Hdb Hdl Hz E1 E2 E3 E4 E5 E6 E7 E8 Hl Hvk Hu Hv.
  assert (decodeCredentialList (encodeHexList ts) = Ok ts) as Hread.
  { apply decodeCredentialList_Ok. unfold encodeHexList at 1 2. rewrite length_fmap. split; [lia|by apply credentials_read_back]. }
  unfold cmdVerifyMulti, readProofSchema. rewrite run_require by (by apply differs_false).
  unfold validateMultiProofArtifact. rewrite E2, (proj1 (CircuitID_reads_back count ltac:(lia))), decide_True by lia.
  rewrite run_require by (by rewrite E3, Z.eqb_refl). rewrite !run_require by (by apply differs_false).
  rewrite E6, E7, E8, Hread. cbn [mbind result_bind]. rewrite run_require by (by rewrite Hn, Z.eqb_refl).
  rewrite (run_map_err _ _ _ _ (destination_reads_back _ Hdb Hdl)), (run_map_err _ _ _ _ Hz).
  rewrite run_require by (by apply differs_false).
  pose proof Hz as Hz'. unfold PublicInputForCredentialsDestination in Hz'. apply bind_Ok in Hz' as (dg & Hdg & _).
  rewrite (run_map_err _ _ _ _ Hdg). cbn [mbind result_bind]. rewrite (run_map_err _ _ _ _ Hl).
  rewrite run_require by (apply differs_false; by rewrite Hvk). rewrite (run_map_err _ _ _ _ Hu).
  rewrite (run_map_err _ _ tt) by (by apply ValidateCredentialCount_Ok). by rewrite Hv.
Qed.

Lemma cmdProveMulti_verifies dir mh dh targetFlags pathFlags toxic now blinding a dir' :
  let count := Z.of_nat (length targetFlags) in
  byte_files dir → keys_from_setup dir (MultiC count) (ownershipMultiKeyConfigForCount count) →
  cmdProveMulti dir mh dh targetFlags pathFlags toxic now blinding = (Ok a, dir') →
  cmdVerifyMulti dir' (BackendProofArtifact a) = Ok tt.
Proof.
  intros count Hb Hk ([[[[targets dest] paths] pub] asg] & Hpre & Hrun)%after_Ok.
  do 3 apply bind_Ok in Hpre as (? & _ & Hpre).
  apply bind_Ok in Hpre as (ts & [Hcount Hts]%decodeCredentialList_Ok & Hpre). apply bind_Ok in Hpre as (? & _ & Hpre).
  apply bind_Ok in Hpre as (d & Hd%map_err_Ok & Hpre). do 2 apply bind_Ok in Hpre as (? & _ & Hpre).
  apply bind_Ok in Hpre as (z & Hz%map_err_Ok & Hpre).
  apply bind_Ok in Hpre as (c & Hc%map_err_Ok & [= -> -> -> -> ->]).
  destruct (prove_assignment _ _ _ _ _ _ _ _) as [proved dir2] eqn:Hp. injection Hrun as Hrun <-.
  apply bind_Ok in Hrun as ([[vk enc] cardano] & -> & [= <-]).
  destruct (proved_verifies dir (MultiC count) (ownershipMultiKeyConfigForCount count) _ _ _ _ _ _ _ _ _
    Hb (KeyVersionForCount_visible _) Hk Hp)
    as (b & proof & Hl & Hvk & Hu & Hv).
  cbn [public_of] in Hv. rewrite (MultiAssignment_Pub _ _ _ _ _ Hc) in Hv.
  apply decode_credentials_Ok in Hts as [Htl Htf]. apply DecodeDestination_Ok in Hd as [Hdb Hdl].
  by apply (multi_accepted _ _ targets dest pub b proof count Hcount ltac:(by rewrite Htl) Htf Hdb Hdl Hz).
Qed.

(** Without all its files a bundle does not load. *)
Lemma no_keys_yet dir circuit cfg : filesExist dir [manifestPath; pkPath; vkPath] = false → keys_from_setup dir circuit cfg.
Proof. intros Hno b Hl. apply loadProver_files in Hl. congruence. Qed.

(** Proving leaves keys of one setup, if it found such keys or none. *)
Lemma prove_assignment_keeps dir circuit cfg w digest toxic now blinding r dir' :
  byte_files dir → blank (kc_KeyVersion cfg) = false → keys_from_setup dir circuit cfg →
  prove_assignment dir circuit cfg w digest toxic now blinding = (r, dir') → keys_from_setup dir' circuit cfg.
Proof.
  intros Hb Hv Hkeys. unfold prove_assignment. destruct (Compile circuit) as [ccs|] eqn:Hccs; [|by intros [= _ <-]].
  destruct (loadOrCreateBundle dir ccs cfg toxic now) as [loaded dir''] eqn:Hload. intros [= _ <-].
  destruct (filesExist dir [manifestPath; pkPath; vkPath]) eqn:Hex.
  - unfold loadOrCreateBundle in Hload. rewrite Hex in Hload. by injection Hload as _ <-.
  - destruct (groth16_Setup ccs toxic) as [[pk vk]|] eqn:Hset;
      [|unfold loadOrCreateBundle in Hload; rewrite Hex, Hset in Hload; by injection Hload as _ <-].
    destruct (fresh_bundle_loads vk_bytes pk_bytes dir ccs cfg toxic now pk vk Hb Hv Hex Hset)
      as (b2 & dir2 & Hrun2 & Hpk & Hvk & Hl & _). rewrite Hload in Hrun2. injection Hrun2 as _ ->.
    intros b Hl'. rewrite Hl in Hl'. injection Hl' as <-. exists ccs, toxic, pk. by rewrite Hvk.
Qed.

Lemma after_keeps {A B : Type} (P : directory → Prop) (r : result cmd_error A) (dir : directory)
    (k : A → result cmd_error B * directory) : P dir → (∀ a, P (k a).2) → P (after r dir k).2.
Proof. intros Hd Hk. destruct r as [a|e]; [exact (Hk a)|exact Hd]. Qed.

(** C18 What is proved is verified.  An artifact that [prove], [prove-destination] or
    [prove-multi] writes is accepted, with the paths removed, by the verifying command of
    the same kind on the key directory that proving left - provided that keys which were
    already in the directory come from a setup of the circuit.  A directory without keys
    satisfies the proviso, and whatever proving does it leaves a directory that does. *)
Theorem prove_then_verify dir fuel mh th dh search targetFlags pathFlags toxic now blinding :
  let count := Z.of_nat (length targetFlags) in byte_files dir →
  keys_from_setup dir OwnershipC ownershipKeyConfig →
  keys_from_setup dir DestinationC ownershipDestinationKeyConfig →
  keys_from_setup dir (MultiC count) (ownershipMultiKeyConfigForCount count) →
  (∀ a dir', cmdProve dir fuel mh th search toxic now blinding = (Ok a, dir') →
     cmdVerify dir' (BackendProofArtifact a) = Ok tt) ∧
  (∀ a dir', cmdProveDestination dir fuel mh th dh search toxic now blinding = (Ok a, dir') →
     cmdVerifyDestination dir' (BackendProofArtifact a) = Ok tt) ∧
  (∀ a dir', cmdProveMulti dir mh dh targetFlags pathFlags toxic now blinding = (Ok a, dir') →
     cmdVerifyMulti dir' (BackendProofArtifact a) = Ok tt) ∧
  keys_from_setup (cmdProve dir fuel mh th search toxic now blinding).2 OwnershipC ownershipKeyConfig ∧
  keys_from_setup (cmdProveDestination dir fuel mh th dh search toxic now blinding).2
    DestinationC ownershipDestinationKeyConfig ∧
  keys_from_setup (cmdProveMulti dir mh dh targetFlags pathFlags toxic now blinding).2
    (MultiC count) (ownershipMultiKeyConfigForCount count) ∧
  (∀ dir' circuit cfg, filesExist dir' [manifestPath; pkPath; vkPath] = false → keys_from_setup dir' circuit cfg).
Proof.
  intros count Hb H1' H2' H3'. split_and!; [intros a dir'..| | | |apply no_keys_yet].
  - by apply cmdProve_verifies.
  - by apply cmdProveDestination_verifies.
  - by apply cmdProveMulti_verifies.
  - apply (after_keeps (λ d, keys_from_setup d _ _)); [done|]. intros [[[target path] pub] asg].
    destruct (prove_assignment _ _ _ _ _ _ _ _) as [proved dir'] eqn:Hp. by eapply prove_assignment_keeps.
  - apply (after_keeps (λ d, keys_from_setup d _ _)); [done|]. intros [[[[target dest] path] pub] asg].
    destruct (prove_assignment _ _ _ _ _ _ _ _) as [proved dir'] eqn:Hp. by eapply prove_assignment_keeps.
  - apply (after_keeps (λ d, keys_from_setup d _ _)); [done|]. intros [[[[targets dest] paths] pub] asg].
    destruct (prove_assignment _ _ _ _ _ _ _ _) as [proved dir'] eqn:Hp.
    eapply prove_assignment_keeps; [done|apply KeyVersionForCount_visible|done|exact Hp].
Qed.
End complete.

(** ** What is verified is owned *)

#[export] Instance Ok_dec {E A} `{EqDecision A} (r : result E A) (a : A) : Decision (r = Ok a).
Proof. destruct r as [b|]; [destruct (decide (b = a)); [left; by subst|right; congruence]|by right]. Defined.

#[export] Instance exists_Ok_dec {E A} (r : result E A) (P : A → Prop) `{∀ a, Decision (P a)} :
  Decision (∃ a, r = Ok a ∧ P a).
Proof.
  destruct r as [a|]; [destruct (decide (P a)); [left; by exists a|right; naive_solver]|right; naive_solver].
Defined.

Section sound.
Context `{EmulatedField P 255} `{XCryptoBlake2b} `{Groth16} `{ManifestJSON}.

#[export] Instance owns_dec c : Decision (owns c).
Proof. unfold owns. apply _. Defined.
#[export] Instance owns_to_dec c : Decision (owns_to c).
Proof. unfold owns_to. apply _. Defined.
#[export] Instance owns_all_dec c : Decision (owns_all c).
Proof. unfold owns_all. apply _. Defined.

Lemma pub_in_field digest : digest_to_field digest mod field_order = digest_to_field digest.
Proof. unfold digest_to_field. apply Z.mod_mod. pose proof field_order_large. lia. Qed.

(** Knowledge soundness of Groth16, for a verifying key of each circuit: from an accepted
    proof come wires that satisfy the circuit and carry the public input.  The extractor
    is a function of the proof, so a theorem can speak of the wires behind a proof. *)
Context (extract_ownership : VerifyingKey → Proof → Z → OwnershipCircuit var).
Context (extract_destination : VerifyingKey → Proof → Z → DestCircuit var).
Context (extract_multi : VerifyingKey → Proof → Z → MultiCircuit var).

Definition sound_ownership (vk : VerifyingKey) : Prop := ∀ proof z,
  groth16_Verify proof vk [z] = Ok tt → let c := extract_ownership vk proof z in
  circuit_shape c ∧ value (Pub c) = z ∧ ¬ rejects (Define c).
Definition sound_destination (vk : VerifyingKey) : Prop := ∀ proof z,
  groth16_Verify proof vk [z] = Ok tt → let c := extract_destination vk proof z in
  circuit_shape (dOwner c) ∧ length (Destination c) = 58%nat ∧ value (Pub (dOwner c)) = z ∧ ¬ rejects (DefineDest c).
Definition sound_multi (count : Z) (vk : VerifyingKey) : Prop := ∀ proof z,
  groth16_Verify proof vk [z] = Ok tt → let c := extract_multi vk proof z in
  multi_shape c ∧ Z.of_nat (length (Paths c)) = count ∧ value (mPub c) = z ∧ ¬ rejects (DefineMulti c).

(** 96 bytes of a clamped master key. *)
Definition clamped_master (master : list Z) : Prop :=
  Forall is_byte master ∧ length master = 96%nat ∧ icarus_clamped (le_val (take 32 master)).

Lemma master_valid_bytes kl kr cc : length kl = 32%nat → length kr = 32%nat → length cc = 32%nat →
  master_valid kl kr cc → clamped_master (value <$> kl ++ kr ++ cc).
Proof.
  intros H1' H2' H3' [Hb Hc]. split_and!; [done|rewrite length_fmap, !length_app; lia|].
  rewrite fmap_app, take_app_length' by (by rewrite length_fmap). done.
Qed.

Lemma verify_in_bundle_inv dir cfg p z b proof : verify_in_bundle dir cfg p z = Ok (b, proof) →
  loadVerifier dir cfg = Ok b ∧ UnmarshalProof (pa_Proof p) = Ok proof ∧
  groth16_Verify proof (ob_VerifyingKey b) [z mod field_order] = Ok tt.
Proof.
  unfold verify_in_bundle. intros (b' & Hl%map_err_Ok & Hr)%bind_Ok. apply bind_Ok in Hr as (? & _ & Hr).
  apply bind_Ok in Hr as (pr & Hu%map_err_Ok & Hr). apply bind_Ok in Hr as ([] & Hv%map_err_Ok & [= -> ->]).
  split; [done|]. split; [done|]. by apply within_Ok in Hv.
Qed.

Lemma PublicInput_length cred z : PublicInputForCredential cred = Ok z → length cred = 28%nat.
Proof.
  unfold PublicInputForCredential, PublicInputDigestForCredential. destruct (Nat.eqb_spec (length cred) 28); done.
Qed.

Lemma append_credentials_lengths i creds body : append_credentials i creds = Ok body →
  Forall (λ c, length c = 28%nat) creds.
Proof.
  revert i body. induction creds as [|c creds IH]; intros i body; [constructor|]. cbn [append_credentials].
  destruct (Nat.eqb_spec (length c) CredentialLen); [|done]. intros (? & ? & _)%bind_Ok. constructor; eauto.
Qed.

Lemma PublicInputMulti_length creds dest z : PublicInputForCredentialsDestination creds dest = Ok z →
  Forall (λ c, length c = 28%nat) creds ∧ length dest = 58%nat ∧ 1 <= Z.of_nat (length creds) <= 65535.
Proof.
  unfold PublicInputForCredentialsDestination, PublicInputDigestForCredentialsDestination.
  intros (? & ([] & Hc%ValidateCredentialCount_Ok & Hd)%bind_Ok & _)%bind_Ok.
  destruct (Nat.eqb_spec (length dest) DestinationAddressV1Len); [|done]. cbn [negb] in Hd.
  rewrite credentialCountU16BE_ok in Hd by done. apply bind_Ok in Hd as (body & Hb & _).
  split; [by eapply append_credentials_lengths|done].
Qed.

Lemma owned_from_proof vk proof target pub : sound_ownership vk → PublicInputForCredential target = Ok pub →
  length target = 28%nat → groth16_Verify proof vk [pub mod field_order] = Ok tt →
  let c := extract_ownership vk proof (pub mod field_order) in
  ∃ cred, clamped_master (circuit_master c) ∧ DeriveCredential (circuit_master c) (wires_path (CPath c)) = Ok cred ∧
    (cred = target ∨ input_collision (Domain ++ cred) (Domain ++ target)).
Proof.
  intros Hs Hp Hl Hv. apply PublicInputForCredential_28 in Hp as <-; [|done]. cbv zeta. rewrite pub_in_field in Hv |- *.
  apply Hs in Hv as (Hsh & Hc & Hacc). set (c := extract_ownership _ _ _) in *.
  destruct (decide (owns c)) as [(Hm & cred & Hd & Hpub)|Hn];
    [|by destruct (Hacc (proj2 (Define_cases c Hsh) Hn))].
  destruct Hsh as (H1' & H2' & H3'). pose proof (PublicInput_length _ _ Hpub) as Hcl.
  apply PublicInputForCredential_28 in Hpub; [|done]. exists cred.
  split; [exact (master_valid_bytes _ _ _ H1' H2' H3' Hm)|]. split; [done|].
  rewrite Hc in Hpub. apply same_input in Hpub as [He|?]; [left|by right]. by apply app_inv_head in He.
Qed.

Lemma owned_to_from_proof vk proof target dest pub : sound_destination vk →
  PublicInputForCredentialDestination target dest = Ok pub → length target = 28%nat → length dest = 58%nat →
  groth16_Verify proof vk [pub mod field_order] = Ok tt →
  let c := extract_destination vk proof (pub mod field_order) in
  let o := dOwner c in let dest' := value <$> Destination c in
  ∃ cred, clamped_master (circuit_master o) ∧ DeriveCredential (circuit_master o) (wires_path (CPath o)) = Ok cred ∧
    (cred = target ∧ dest' = dest ∨ input_collision (DestDomain ++ cred ++ dest') (DestDomain ++ target ++ dest)).
Proof.
  intros Hs Hp Hl Hdl Hv. apply PublicInputForDestination_ok in Hp as <-; [|done..].
  cbv zeta. rewrite pub_in_field in Hv |- *.
  apply Hs in Hv as (Hsh & Hld & Hc & Hacc). set (c := extract_destination _ _ _) in *.
  destruct (decide (owns_to c)) as [(Hm & cred & Hd & Hb & Hpub)|Hn];
    [|by destruct (Hacc (proj2 (DefineDest_cases c Hsh Hld) Hn))].
  destruct Hsh as (H1' & H2' & H3'). pose proof (PublicInputDest_length _ _ _ Hpub) as [Hcl Hdl'].
  apply PublicInputForDestination_ok in Hpub; [|done..].
  exists cred. split; [exact (master_valid_bytes _ _ _ H1' H2' H3' Hm)|]. split; [done|].
  rewrite Hc in Hpub. apply same_input in Hpub as [He|?]; [left|by right].
  apply app_inv_head in He. apply app_inj_1 in He; [done|lia].
Qed.

Lemma derive_all_length master i paths creds : derive_all master i paths = Ok creds → length creds = length paths.
Proof.
  revert i creds. induction paths as [|p paths IH]; intros i creds; cbn [derive_all]; [by intros [= <-]|].
  intros (c & _ & (cs & Hcs & [= <-])%bind_Ok)%bind_Ok. cbn. f_equal. by eapply IH.
Qed.

Lemma owned_all_from_proof count vk proof targets dest pub : sound_multi count vk →
  PublicInputForCredentialsDestination targets dest = Ok pub → Z.of_nat (length targets) = count →
  1 <= count <= 65535 → Forall (λ c, length c = 28%nat) targets → length dest = 58%nat →
  groth16_Verify proof vk [pub mod field_order] = Ok tt →
  let c := extract_multi vk proof (pub mod field_order) in
  let master := value <$> mKL c ++ mKR c ++ mCC c in let dest' := value <$> mDestination c in
  ∃ creds, clamped_master master ∧ DeriveCredentials master (wires_path <$> Paths c) = Ok creds ∧
    (creds = targets ∧ dest' = dest ∨
     input_collision (MultiDomain ++ count_bytes count ++ concat creds ++ dest')
                     (MultiDomain ++ count_bytes count ++ concat targets ++ dest)).
Proof.
  intros Hs Hp Hlen Hcount Hl Hdl Hv. apply PublicInputForCredentials_ok in Hp as <-; [|by rewrite Hlen|done..].
  cbv zeta. rewrite pub_in_field in Hv |- *. apply Hs in Hv as (Hsh & Hn & Hc & Hacc).
  set (c := extract_multi _ _ _) in *.
  destruct (decide (owns_all c)) as [(Hm & Hb & creds & Hd & Hpub)|Hno];
    [|by destruct (Hacc (proj2 (DefineMulti_cases c Hsh) Hno))].
  destruct Hsh as (H1' & H2' & H3' & _). pose proof (PublicInputMulti_length _ _ _ Hpub) as (Hcl & Hdl' & Hcn).
  apply PublicInputForCredentials_ok in Hpub; [|done..].
  assert (Z.of_nat (length creds) = count) as Hcc.
  { unfold DeriveCredentials in Hd. apply bind_Ok in Hd as (? & _ & Hd). apply derive_all_length in Hd.
    rewrite length_fmap in Hd. lia. }
  rewrite Hcc, Hc, Hlen in Hpub.
  exists creds. split; [exact (master_valid_bytes _ _ _ H1' H2' H3' Hm)|]. split; [done|].
  apply same_input in Hpub as [He|?]; [left|by right].
  do 2 apply app_inv_head in He. apply app_inj_2 in He as [He ?]; [|congruence].
  split; [|done]. by apply (concat_inj 28) in He; [|lia|done..].
Qed.

Lemma validateSingle_inv p pub target : validateSingleProofArtifact p = Ok (pub, target) →
  DecodeCredentialHex (pa_TargetCredential p) = Ok target ∧ PublicInputForCredential target = Ok pub.
Proof.
  unfold validateSingleProofArtifact. intros (? & _ & Hv)%bind_Ok.
  apply bind_Ok in Hv as (t & Ht%map_err_Ok & Hv). apply bind_Ok in Hv as (z & Hz%map_err_Ok & Hv).
  apply bind_Ok in Hv as (? & _ & [= <- <-]). done.
Qed.

Lemma validateDestination_inv p pub digest : validateDestinationProofArtifact p = Ok (pub, digest) →
  ∃ target dest, DecodeCredentialHex (pa_TargetCredential p) = Ok target ∧
    DecodeDestinationAddressV1Hex (pa_DestinationAddress p) = Ok dest ∧
    PublicInputForCredentialDestination target dest = Ok pub.
Proof.
  unfold validateDestinationProofArtifact. intros Hv. do 3 apply bind_Ok in Hv as (? & _ & Hv).
  apply bind_Ok in Hv as (t & Ht%map_err_Ok & Hv). apply bind_Ok in Hv as (d & Hd%map_err_Ok & Hv).
  apply bind_Ok in Hv as (z & Hz%map_err_Ok & Hv). apply bind_Ok in Hv as (? & _ & Hv).
  apply bind_Ok in Hv as (? & _ & [= <- _]). by exists t, d.
Qed.

Lemma validateMulti_inv p pub digest count : validateMultiProofArtifact p = Ok (pub, digest, count) →
  ∃ targets dest, CircuitCountFromID (pa_CircuitID p) = Some count ∧
    decodeCredentialList (pa_TargetCredentials p) = Ok targets ∧ Z.of_nat (length targets) = count ∧
    DecodeDestinationAddressV1Hex (pa_DestinationAddress p) = Ok dest ∧
    PublicInputForCredentialsDestination targets dest = Ok pub.
Proof.
  unfold validateMultiProofArtifact. destruct (CircuitCountFromID _) as [n|]; [|done].
  intros Hv. do 3 apply bind_Ok in Hv as (? & _ & Hv).
  apply bind_Ok in Hv as (ts & Hts & Hv). apply bind_Ok in Hv as (? & Hn%require_Ok & Hv).
  apply bind_Ok in Hv as (d & Hd%map_err_Ok & Hv).
  apply bind_Ok in Hv as (z & Hz%map_err_Ok & Hv). apply bind_Ok in Hv as (? & _ & Hv).
  apply bind_Ok in Hv as (? & _ & [= <- _ <-]). apply negb_false_iff, Z.eqb_eq in Hn. by exists ts, d.
Qed.

(** C2 A verified artifact means ownership.  When a verifying command accepts an artifact,
    and the verifying key of its directory is knowledge sound for the circuit, the wires
    behind the artifact's proof carry a clamped 96-byte master key and a path from which
    canonical derivation gives the credential the artifact names; for a destination
    artifact these wires also carry the destination the artifact names; for a
    multi-credential artifact one master key derives every credential, in order, as many
    as the circuit identifier says, and the wires carry the destination; or the texts
    hashed into the public input are a collision of BLAKE2b-256 modulo the field. *)
Theorem verified_means_owned dir p :
  (cmdVerify dir p = Ok tt →
   (∀ b, loadVerifier dir ownershipKeyConfig = Ok b → sound_ownership (ob_VerifyingKey b)) →
   ∃ b proof target pub, loadVerifier dir ownershipKeyConfig = Ok b ∧ UnmarshalProof (pa_Proof p) = Ok proof ∧
     DecodeCredentialHex (pa_TargetCredential p) = Ok target ∧ PublicInputForCredential target = Ok pub ∧
     let c := extract_ownership (ob_VerifyingKey b) proof (pub mod field_order) in
     ∃ cred, clamped_master (circuit_master c) ∧
       DeriveCredential (circuit_master c) (wires_path (CPath c)) = Ok cred ∧
       (cred = target ∨ input_collision (Domain ++ cred) (Domain ++ target))) ∧
  (cmdVerifyDestination dir p = Ok tt →
   (∀ b, loadVerifier dir ownershipDestinationKeyConfig = Ok b → sound_destination (ob_VerifyingKey b)) →
   ∃ b proof target dest pub, loadVerifier dir ownershipDestinationKeyConfig = Ok b ∧
     UnmarshalProof (pa_Proof p) = Ok proof ∧ DecodeCredentialHex (pa_TargetCredential p) = Ok target ∧
     DecodeDestinationAddressV1Hex (pa_DestinationAddress p) = Ok dest ∧
     PublicInputForCredentialDestination target dest = Ok pub ∧
     let c := extract_destination (ob_VerifyingKey b) proof (pub mod field_order) in
     let o := dOwner c in let dest' := value <$> Destination c in
     ∃ cred, clamped_master (circuit_master o) ∧
       DeriveCredential (circuit_master o) (wires_path (CPath o)) = Ok cred ∧
       (cred = target ∧ dest' = dest ∨
        input_collision (DestDomain ++ cred ++ dest') (DestDomain ++ target ++ dest))) ∧
  (cmdVerifyMulti dir p = Ok tt →
   (∀ count b, CircuitCountFromID (pa_CircuitID p) = Some count →
      loadVerifier dir (ownershipMultiKeyConfigForCount count) = Ok b → sound_multi count (ob_VerifyingKey b)) →
   ∃ count b proof targets dest pub, CircuitCountFromID (pa_CircuitID p) = Some count ∧
     loadVerifier dir (ownershipMultiKeyConfigForCount count) = Ok b ∧ UnmarshalProof (pa_Proof p) = Ok proof ∧
     decodeCredentialList (pa_TargetCredentials p) = Ok targets ∧ Z.of_nat (length targets) = count ∧
     DecodeDestinationAddressV1Hex (pa_DestinationAddress p) = Ok dest ∧
     PublicInputForCredentialsDestination targets dest = Ok pub ∧
     let c := extract_multi (ob_VerifyingKey b) proof (pub mod field_order) in
     let master := value <$> mKL c ++ mKR c ++ mCC c in let dest' := value <$> mDestination c in
     ∃ creds, clamped_master master ∧ DeriveCredentials master (wires_path <$> Paths c) = Ok creds ∧
       (creds = targets ∧ dest' = dest ∨
        input_collision (MultiDomain ++ count_bytes count ++ concat creds ++ dest')
                        (MultiDomain ++ count_bytes count ++ concat targets ++ dest))).
Proof.
  split_and!.
  - intros Hc Hs. apply bind_Ok in Hc as (? & _ & Hc). apply bind_Ok in Hc as ([pub t] & Hv & Hc).
    apply bind_Ok in Hc as ([b proof] & (Hb & Hu & Hp)%verify_in_bundle_inv & _).
    apply validateSingle_inv in Hv as (Ht & Hz). pose proof (DecodeCredentialHex_Ok _ _ Ht) as [_ Hl].
    exists b, proof, t, pub. do 4 (split; [done|]). exact (owned_from_proof _ _ _ _ (Hs b Hb) Hz Hl Hp).
  - intros Hc Hs. apply bind_Ok in Hc as (? & _ & Hc). apply bind_Ok in Hc as ([pub dg] & Hv & Hc).
    apply bind_Ok in Hc as ([b proof] & (Hb & Hu & Hp)%verify_in_bundle_inv & _).
    apply validateDestination_inv in Hv as (t & d & Ht & Hd & Hz).
    pose proof (PublicInputDest_length _ _ _ Hz) as [Hl Hld].
    exists b, proof, t, d, pub. do 5 (split; [done|]). exact (owned_to_from_proof _ _ _ _ _ (Hs b Hb) Hz Hl Hld Hp).
  - intros Hc Hs. apply bind_Ok in Hc as (? & _ & Hc). apply bind_Ok in Hc as ([[pub dg] count] & Hv & Hc).
    apply bind_Ok in Hc as (b & Hb%map_err_Ok & Hc). apply bind_Ok in Hc as (? & _ & Hc).
    apply bind_Ok in Hc as (proof & Hu%map_err_Ok & Hc). apply bind_Ok in Hc as (? & _ & Hp%map_err_Ok).
    apply within_Ok in Hp. apply validateMulti_inv in Hv as (ts & d & Hid & Hts & Hn & Hd & Hz).
    pose proof (PublicInputMulti_length _ _ _ Hz) as (Hl & Hld & Hlc). rewrite Hn in Hlc.
    exists count, b, proof, ts, d, pub. do 7 (split; [done|]).
    exact (owned_all_from_proof count _ _ _ _ _ (Hs count b Hid Hb) Hz Hn Hlc Hl Hld Hp).
Qed.
End sound.

(** ** The honest owner *)

Lemma first_path_some `{XCryptoBlake2b} master order c : (∃ p, p ∈ order ∧ DeriveCredential master p = Ok c) →
  ∃ p, first_path master order c = Some p ∧ p ∈ order ∧ DeriveCredential master p = Ok c.
Proof.
  intros (p & Hp & Hd). induction order as [|q order IH]; [by apply elem_of_nil in Hp|]. cbn [first_path].
  destruct (decide (DeriveCredential master q = Ok c)) as [Hq|Hq]; [exists q; split_and!; [done|by left|done]|].
  apply elem_of_cons in Hp as [->|Hp]; [done|]. destruct (IH Hp) as (r & ? & ? & ?). exists r. split_and!; [done|by right|done].
Qed.

Lemma option_values_nonneg v m x : 0 <= m → x ∈ option_values v m → 0 <= x.
Proof.
  intros Hm. unfold option_values. case_match; [intros ->%list_elem_of_singleton; lia|].
  rewrite elem_of_seqZ. lia.
Qed.

Lemma discovery_order_range opts p : discovery_ok opts → p ∈ discovery_order opts → path_range p.
Proof.
  intros (Ha & Hr & Hi & HA & HI). unfold discovery_order.
  intros (i & (r & (a & ->%list_elem_of_singleton & Hain)%list_elem_of_bind & Hrin)%list_elem_of_bind & Hiin)%list_elem_of_bind.
  split_and!; cbn.
  - by eapply option_values_nonneg; [|exact Hain]; lia.
  - unfold discovery_roles in Hrin. case_match; [|apply list_elem_of_singleton in Hrin; lia].
    repeat (apply elem_of_cons in Hrin as [->|Hrin]; [lia|]). by apply elem_of_nil in Hrin.
  - by eapply option_values_nonneg; [|exact Hiin]; lia.
Qed.

Section honest.
Context `{EmulatedField P 255} `{Edwards25519Laws} `{XCryptoBlake2b} `{Groth16Encodings} `{ManifestJSONLaws}.
Context (assign : Z → var) (value_assign : ∀ z, value (assign z) = z mod field_order).

(** A search that covers a path of the target finds one. *)
Lemma DiscoverCredentialPath_finds master target opts fuel :
  Forall is_byte master → length master = 96%nat → icarus_clamped (le_val (take 32 master)) → length target = 28%nat →
  discovery_ok (Search opts) → (Z.to_nat (MaxAccount (Search opts)) + 1 < fuel)%nat →
  (∃ p, p ∈ discovery_order (Search opts) ∧ DeriveCredential master p = Ok target) →
  ∃ p, DiscoverCredentialPath fuel (λ _, false) master target opts = Ok p ∧
    p ∈ discovery_order (Search opts) ∧ DeriveCredential master p = Ok target.
Proof.
  intros Hb Hl Hc Ht Hok Hf Hex. apply first_path_some in Hex as (p & Hp & Hin & Hd). exists p.
  split; [|done]. unfold DiscoverCredentialPath.
  pose proof (DiscoverCredentialPaths_finds master [target] opts fuel Hb Hl Hc ltac:(by apply Forall_singleton) Hok Hf) as Hs.
  cbv zeta in Hs. assert (∀ found, discovers master (list_to_set [target]) (discovery_order (Search opts)) found →
    found !! target = Some p) as Hfound.
  { intros found Hfd. rewrite (Hfd target), decide_True by set_solver. done. }
  destruct (DiscoverCredentialPaths _ _ _ _ _).1 as [found|[]]; try done.
  - destruct Hs as [Hs _]. by rewrite (Hfound found Hs).
  - destruct Hs as (Hs & c & ->%list_elem_of_singleton & Hn). by rewrite (Hfound _ Hs) in Hn.
Qed.

(** What Groth16 promises the prover: a satisfied circuit is proved, with one commitment
    at most. *)
Definition groth16_proves : Prop := ∀ ccs toxic pk vk c blinding,
  Compile OwnershipC = Ok ccs → groth16_Setup ccs toxic = Ok (pk, vk) →
  circuit_ok (Define (assign_circuit assign c)) (λ _, True) →
  ∃ proof, groth16_Prove ccs pk (OwnershipW c) blinding = Ok proof ∧ is_ok (SerializeCardanoProof proof) = true.

Context (Hproves : groth16_proves) (Hcomplete : groth16_complete).
Context (vk_bytes : ∀ vk, Forall is_byte (vk_WriteTo vk)) (pk_bytes : ∀ pk, Forall is_byte (pk_WriteRawTo pk)).

Lemma master_reads_back bs : Forall is_byte bs → length bs = 96%nat → DecodeMasterXPrvHex (hex_EncodeToString bs) = Ok bs.
Proof.
  intros Hb Hl. destruct (text_reads_back 0 bs Hb) as [_ Ht].
  destruct (Ht _ (or_introl eq_refl)) as (-> & _). by rewrite decide_True.
Qed.

Lemma hex_nonempty bs : (0 < length bs)%nat → bool_decide (hex_EncodeToString bs = []) = false.
Proof. intros Hl. apply bool_decide_eq_false. intros He. apply (f_equal length) in He. rewrite length_hex in He. cbn in He. lia. Qed.

Lemma cardano_artifact_Ok proof digest : length digest = 32%nat → is_ok (SerializeCardanoProof proof) = true →
  ∃ c, CardanoProofArtifactWithDigest proof digest = Ok c.
Proof.
  intros Hl Hs. unfold CardanoProofArtifactWithDigest, wrong_length. rewrite Hl. cbn [Nat.eqb negb check guard_err mbind result_bind].
  destruct (SerializeCardanoProof proof) as [[bytes format]|]; [|done]. by eexists.
Qed.

Lemma prove_assignment_Ok dir ccs cfg c target toxic now blinding pk vk pub :
  Forall is_byte target → byte_files dir → blank (kc_KeyVersion cfg) = false → filesExist dir [manifestPath; pkPath; vkPath] = false →
  Compile OwnershipC = Ok ccs → groth16_Setup ccs toxic = Ok (pk, vk) →
  circuit_ok (Define (assign_circuit assign c)) (λ _, True) →
  PublicInputForCredential target = Ok pub →
  ∃ r dir', prove_assignment dir OwnershipC cfg (OwnershipW c) (map_err CmdOwnership (PublicInputDigestForCredential target))
    toxic now blinding = (Ok r, dir').
Proof.
  intros Ht Hb Hv Hno Hc Hset Hsat Hpub. unfold prove_assignment. rewrite Hc.
  destruct (fresh_bundle_loads vk_bytes pk_bytes dir ccs cfg toxic now pk vk Hb Hv Hno Hset)
    as (b & dir' & -> & Hpk & _).
  destruct (Hproves ccs toxic pk vk c blinding Hc Hset Hsat) as (proof & Hprf & Hser).
  unfold PublicInputForCredential in Hpub. apply bind_Ok in Hpub as (digest & Hdig & _).
  cbn [map_err mbind result_bind]. rewrite Hpk. unfold Prove. rewrite Hprf, Hdig.
  cbn [within map_err mbind result_bind]. destruct (cardano_artifact_Ok proof digest) as [cardano ->]; [|done|].
  { unfold PublicInputDigestForCredential in Hdig. destruct (_ =? _)%nat; [|done]. injection Hdig as <-.
    assert (Forall is_byte (Domain ++ target)) as Hdt by (apply Forall_app; split; [repeat constructor; done|done]).
    by rewrite (proj2 (blake2b_sum_wf _ Hdt)). }
  cbn [map_err mbind result_bind]. by eexists _, dir'.
Qed.

Lemma owner_proves dir fuel master target search toxic now blinding ccs pk vk :
  byte_files dir → filesExist dir [manifestPath; pkPath; vkPath] = false →
  Compile OwnershipC = Ok ccs → groth16_Setup ccs toxic = Ok (pk, vk) →
  Forall is_byte master → length master = 96%nat → icarus_clamped (le_val (take 32 master)) →
  discovery_ok search → (Z.to_nat (MaxAccount search) + 1 < fuel)%nat →
  (∃ p, p ∈ discovery_order search ∧ DeriveCredential master p = Ok target) →
  ∃ a dir', cmdProve dir fuel (hex_EncodeToString master) (hex_EncodeToString target) search toxic now blinding = (Ok a, dir') ∧
    pa_TargetCredential a = hex_EncodeToString target ∧
    (∃ p, pa_Path a = Some p ∧ DeriveCredential master p = Ok target) ∧
    cmdVerify dir' (BackendProofArtifact a) = Ok tt.
Proof.
  intros Hb Hno Hc Hset Hm Hl Hcl Hok Hf Hex.
  assert (∀ p, DeriveCredential master p = Ok target → validatePath p = Ok tt) as Hvalid.
  { intros p Hd. unfold DeriveCredential in Hd. destruct (negb _); [done|]. by apply bind_Ok in Hd as ([] & Hd & _). }
  assert (Forall is_byte target ∧ length target = 28%nat) as [Htb Htl].
  { destruct Hex as (p & _ & Hd). destruct (DeriveCredential_clamped master p Hm Hl Hcl (Hvalid p Hd)) as [_ Hd'].
    rewrite Hd in Hd'. injection Hd' as ->. apply leaf_credential_wf. }
  destruct (DiscoverCredentialPath_finds master target {| Search := search; ProgressEvery := 0 |} fuel) as (p & Hfind & Hin & Hd); try done.
  set (pub := digest_to_field (blake2b_sum 32 (Domain ++ target))).
  assert (PublicInputForCredential target = Ok pub) as Hpub by (by apply PublicInputForCredential_28).
  destruct (Assignment_ok assign value_assign master p pub Hm Hl Hcl (discovery_order_range _ _ Hok Hin) (Hvalid p Hd))
    as (cred & c & Hd' & _ & Hassign & Hsat & _).
  { apply Z.mod_pos_bound. pose proof field_order_large. lia. }
  rewrite Hd in Hd'. injection Hd' as <-.
  destruct (prove_assignment_Ok dir ccs ownershipKeyConfig c target toxic now blinding pk vk pub Htb Hb eq_refl Hno Hc Hset
    (Hsat Hpub) Hpub) as ([[vkHash enc] cardano] & dir' & Hrun).
  set (a := {| pa_Schema := ProofSchema; pa_CircuitID := CircuitID; pa_VKHash := vkHash;
    pa_TargetCredential := hex_EncodeToString target; pa_TargetCredentials := [];
    pa_DestinationAddressEncoding := []; pa_DestinationAddress := []; pa_CredentialCount := 0;
    pa_PublicInputEncoding := []; pa_PublicInput := PublicInputHex pub; pa_Proof := enc; pa_Cardano := Some cardano;
    pa_Path := Some p; pa_Paths := [] |}).
  assert (cmdProve dir fuel (hex_EncodeToString master) (hex_EncodeToString target) search toxic now blinding = (Ok a, dir')) as Hprove.
  { unfold cmdProve. apply after_Ok. exists (target, p, pub, c). split; [|by rewrite Hrun].
    rewrite !run_require by (by apply hex_nonempty; lia).
    rewrite (run_map_err _ _ _ _ (master_reads_back _ Hm Hl)), (run_map_err _ _ _ _ (credential_reads_back _ Htb Htl)).
    by rewrite (run_map_err _ _ _ _ Hfind), (run_map_err _ _ _ _ Hpub), (run_map_err _ _ _ _ Hassign). }
  exists a, dir'. split; [done|]. split; [done|]. split; [by exists p|].
  apply (cmdProve_verifies Hcomplete vk_bytes pk_bytes dir fuel (hex_EncodeToString master) (hex_EncodeToString target) search toxic now blinding);
    [done|by apply no_keys_yet|done].
Qed.

(** C8 An owner can prove, and is believed.  Given 96 clamped bytes of a master key that
    derives a credential on a path the search covers, and a directory without keys,
    [prove] succeeds: it finds a path of the credential, makes keys, and writes an
    artifact that names the credential and that [verify] accepts from those keys. *)
Theorem honest_owner_proves dir fuel master target search toxic now blinding ccs pk vk :
  byte_files dir → filesExist dir [manifestPath; pkPath; vkPath] = false →
  Compile OwnershipC = Ok ccs → groth16_Setup ccs toxic = Ok (pk, vk) →
  Forall is_byte master → length master = 96%nat → icarus_clamped (le_val (take 32 master)) →
  discovery_ok search → (Z.to_nat (MaxAccount search) + 1 < fuel)%nat →
  (∃ p, p ∈ discovery_order search ∧ DeriveCredential master p = Ok target) →
  ∃ a dir', cmdProve dir fuel (hex_EncodeToString master) (hex_EncodeToString target) search toxic now blinding = (Ok a, dir') ∧
    pa_TargetCredential a = hex_EncodeToString target ∧
    (∃ p, pa_Path a = Some p ∧ DeriveCredential master p = Ok target) ∧
    cmdVerify dir' (BackendProofArtifact a) = Ok tt.
Proof. exact (owner_proves dir fuel master target search toxic now blinding ccs pk vk). Qed.
End honest.

(** * The service verifies what the command verifies

    [VerifyArtifact] accepts exactly the artifacts of its circuit, credential, public
    input and key whose proof its verifier accepts; with the verifier of a key directory
    it agrees with the [verify] command. *)

Section service.
Context `{Groth16} `{Field} `{XCryptoBlake2b} `{ManifestJSON}.

Lemma check_expected_Ok expected target : check_expected expected target = Ok tt ↔
  blank expected = true ∨ DecodeCredentialHex expected = Ok target.
Proof.
  unfold check_expected. destruct (blank expected) eqn:Hb; [naive_solver|].
  destruct (DecodeCredentialHex expected) as [e|]; [|naive_solver]. rewrite guard_err_Ok, differs_false. naive_solver.
Qed.

Lemma differs_true_iff a b : differs a b = true ↔ a ≠ b.
Proof. apply bool_decide_eq_true. Qed.

(** What the response says of an artifact that it verifies. *)
Lemma VerifyArtifact_true req v : vr_Verified (VerifyArtifact req (Some v)) = true →
  let a := vq_Artifact req in ∃ target publicInput,
  pa_Schema a = ProofSchema ∧ pa_CircuitID a = CircuitID ∧
  DecodeCredentialHex (pa_TargetCredential a) = Ok target ∧
  check_expected (vq_ExpectedTargetCredential req) target = Ok tt ∧
  PublicInputForCredential target = Ok publicInput ∧ pa_PublicInput a = PublicInputHex publicInput ∧
  pa_VKHash a = pv_VKHash v ∧ check_proof v (pa_Proof a) publicInput = Ok tt ∧
  VerifyArtifact req (Some v) = verified (pv_VKHash v) (hex_EncodeToString target) (PublicInputHex publicInput).
Proof.
  intros Hv a. revert Hv. unfold VerifyArtifact. cbn [pa_Schema pa_CircuitID
    pa_TargetCredential pa_PublicInput pa_VKHash pa_Proof BackendProofArtifact]. fold a.
  destruct (differs (pa_Schema a) _) eqn:Hs; [done|]. destruct (differs (pa_CircuitID a) _) eqn:Hc; [done|].
  destruct (DecodeCredentialHex (pa_TargetCredential a)) as [t|] eqn:Ht; [|done].
  destruct (check_expected _ t) as [[]|[]] eqn:He; try done.
  destruct (PublicInputForCredential t) as [z|] eqn:Hz; [|done].
  destruct (differs (pa_PublicInput a) _) eqn:Hp; [done|]. destruct (differs (pa_VKHash a) _) eqn:Hk; [done|].
  destruct (check_proof v _ z) as [[]|] eqn:Hv; [|done]. intros _. tests_in. by exists t, z.
Qed.

(** An accepted command run, taken apart. *)
Lemma cmdVerify_Ok dir b a : loadVerifier dir ownershipKeyConfig = Ok b → cmdVerify dir a = Ok tt →
  ∃ target publicInput proof, pa_Schema a = ProofSchema ∧ pa_CircuitID a = CircuitID ∧
    DecodeCredentialHex (pa_TargetCredential a) = Ok target ∧ PublicInputForCredential target = Ok publicInput ∧
    pa_PublicInput a = PublicInputHex publicInput ∧ pa_VKHash a = km_VKHash (ob_Manifest b) ∧
    UnmarshalProof (pa_Proof a) = Ok proof ∧ VerifyProof (ob_VerifyingKey b) proof publicInput = Ok tt.
Proof.
  intros Hb Hc. apply bind_Ok in Hc as (? & Hs%require_Ok & Hc). apply bind_Ok in Hc as ([z t] & Hv & Hc).
  apply bind_Ok in Hc as ([b' proof] & Hin & _). unfold verify_in_bundle in Hin. rewrite Hb in Hin.
  cbn [map_err mbind result_bind] in Hin. apply bind_Ok in Hin as (? & Hk%require_Ok & Hin).
  apply bind_Ok in Hin as (pr & Hu%map_err_Ok & Hin). apply bind_Ok in Hin as ([] & Hver%map_err_Ok & _).
  pose proof (validateSingle_inv _ _ _ Hv) as [Ht Hz]. unfold validateSingleProofArtifact in Hv.
  apply bind_Ok in Hv as (? & Hcid%require_Ok & Hv). rewrite (run_map_err _ _ _ _ Ht), (run_map_err _ _ _ _ Hz) in Hv.
  apply bind_Ok in Hv as (? & Hp%require_Ok & _). tests_in. by exists t, z, pr.
Qed.

(** C26 The service and the command are one verifier.  With the keys of a directory,
    [VerifyArtifact] says that an artifact is verified exactly when [verify] accepts it
    there and its credential is the expected one, when one is expected; so a malformed
    proof, one for another key, input, circuit or schema is never called verified.  The
    response then repeats the key hash and the public input of the artifact and its
    credential in normal form, and has no failure reason; without a configured verifier
    nothing is verified. *)
Theorem service_agrees_with_command dir v req : LoadBundleVerifier dir = Ok v →
  let a := vq_Artifact req in let expected := vq_ExpectedTargetCredential req in
  let response := VerifyArtifact req (Some v) in
  (vr_Verified response = true ↔ cmdVerify dir a = Ok tt ∧
     (blank expected = true ∨ DecodeCredentialHex expected = DecodeCredentialHex (pa_TargetCredential a))) ∧
  (vr_Verified response = true → ∃ target, DecodeCredentialHex (pa_TargetCredential a) = Ok target ∧
     response = {| vr_Verified := true; vr_Reason := None; vr_CircuitID := pa_CircuitID a; vr_VKHash := pa_VKHash a;
                   vr_TargetCredential := hex_EncodeToString target; vr_PublicInput := pa_PublicInput a |}) ∧
  vr_Verified (VerifyArtifact req None) = false.
Proof.
  intros (b & Hb & [= <-])%bind_Ok a expected response. split_and!; [split| |done].
  - intros (t & z & Hs & Hc & Ht & He & Hz & Hp & Hk & Hv & _)%VerifyArtifact_true. fold a in Hs, Hc, Ht, Hp, Hk, Hv.
    unfold check_proof in Hv. cbn [BundleVerifier pv_VKHash pv_VerifyProof pv_VerifyEncodedProof] in Hk, Hv.
    destruct (UnmarshalProof (pa_Proof a)) as [proof|] eqn:Hu; [|done].
    destruct (VerifyProof (ob_VerifyingKey b) proof z) as [[]|] eqn:Hver; [|done].
    split; [|by rewrite Ht; apply check_expected_Ok].
    unfold cmdVerify, readProofSchema. rewrite run_require by (by apply differs_false).
    unfold validateSingleProofArtifact. rewrite run_require by (by apply differs_false).
    rewrite (run_map_err _ _ _ _ Ht), (run_map_err _ _ _ _ Hz), run_require by (by apply differs_false).
    cbn [mbind result_bind]. by rewrite (verify_in_bundle_Ok dir _ a z b proof Hb (eq_sym Hk) Hu Hver).
  - intros [(t & z & pr & Hs & Hc & Ht & Hz & Hp & Hk & Hu & Hver)%(cmdVerify_Ok dir b) He]; [|exact Hb].
    rewrite Ht in He. apply check_expected_Ok in He. unfold response, VerifyArtifact, check_proof.
    cbn [BundleVerifier pv_VKHash pv_VerifyProof pv_VerifyEncodedProof pa_Schema pa_CircuitID
      pa_TargetCredential pa_PublicInput pa_VKHash pa_Proof BackendProofArtifact]. fold a expected.
    rewrite Hs, Hc, Ht, Hp, Hk, Hu, He, Hz, Hver. repeat (rewrite (proj2 (differs_false _ _)) by done). done.
  - intros (t & z & Hs & Hc & Ht & _ & _ & Hp & Hk & _ & Hr)%VerifyArtifact_true. exists t. split; [exact Ht|].
    unfold response. rewrite Hr. fold a in Hc, Hp, Hk. by rewrite Hc, Hp, Hk.
Qed.

(** The HTTP service.  A browser of another origin is let in exactly when its origin is
    one that was configured; and a response says verified only to a POST on a verify
    path whose body decoded to a request that [VerifyArtifact] accepts. *)
Theorem Handler_exact proofVerifier origins r :
  let s := NewServer proofVerifier origins in
  (∀ o, rs_allow_origin (Handler s r) = Some o ↔
     o = rq_origin r ∧ o ≠ [] ∧ ∃ configured, configured ∈ origins ∧ TrimSpace configured = o) ∧
  (∀ vr, rs_body (Handler s r) = Verification vr → vr_Verified vr = true →
     rq_method r = str "POST" ∧ rq_path r ∈ [str "/api/verify"; str "/verify"] ∧ rs_status (Handler s r) = 200 ∧
     ∃ req, rq_body r = Some req ∧ vr = VerifyArtifact req (Some proofVerifier)).
Proof.
  intros s. unfold Handler. destruct (if bool_decide _ then _ else _) as [status body] eqn:Hr.
  cbn [rs_allow_origin rs_body rs_status]. split.
  - clear Hr. intros o. unfold s, NewServer. cbn [sv_AllowedOrigins].
    case_decide as Hd; rewrite elem_of_list_to_set, list_elem_of_filter, list_elem_of_fmap in Hd; naive_solver.
  - intros vr -> Hv. revert Hr. case_bool_decide; [done|]. unfold route. case_bool_decide.
    { unfold handleHealth. by destruct (differs _ _). }
    case_bool_decide; [|done]. unfold handleVerify. destruct (differs (rq_method r) _) eqn:Hm; [done|].
    destruct (rq_body r) as [req|]; [|intros [= _ <-]; done]. intros [= <- <-].
    apply differs_false in Hm. split_and!; try done. by exists req.
Qed.
End service.
