(* ===== verification/HelperProofs.v ===== *)
(** * What the helper proves, the verifier accepts

    The cache of the destination prover is never stale with respect to what the
    generator does, and every artifact of an answer to a proof request is accepted by the
    command that verifies it. *)
From stdpp Require Import strings gmap.
From S2P Require Import Prelude.
From S2P Require Import Gnark.
From S2P Require Import GnarkModel.
From S2P Require Import CkdArith.
From S2P Require Import Blake2bSpec.
From S2P Require Import Ed25519.
From S2P Require Import Ckd.
From S2P Require Import GoText.
From S2P Require Import GoError.
From S2P Require Import Ownership.
From S2P Require Import OwnershipCircuit.
From S2P Require Import OwnershipCircuitCorrect.
From S2P Require Import OwnershipMultiCorrect.
From S2P Require Import Discovery.
From S2P Require Import OwnershipCorrect.
From S2P Require Import DiscoveryCorrect.
From S2P Require Import Artifact.
From S2P Require Import Prover.
From S2P Require Import Commands.
From S2P Require Import Verifier.
From S2P Require Import Helper.
From S2P Require Import HelperServer.
From S2P Require Import HelperCorrect.
From S2P Require Import CommandsCorrect.

Section cache.
Context `{Groth16} `{Edwards25519} `{XCryptoBlake2b} `{Field} `{ManifestJSON}.
Variable userCacheDir : option (list Z).
Variable g : OwnershipGenerator.
Variable fuel : nat.

Definition destination_files (st : gen_state) : directory :=
  files_of userCacheDir (gs_dirs st) (destinationKeysDir g) ownershipDestinationKeyConfig.

(** What the generator, its warm-up and its idle timer do, one operation after another. *)
Inductive gen_step : gen_state → gen_state → Prop :=
| step_single toxic now blinding ctx input st :
    gen_step st (OwnershipGenerator_GenerateProof userCacheDir g fuel toxic now blinding ctx input st).2
| step_destination blinding ctx input st :
    gen_step st (OwnershipGenerator_GenerateDestinationProofs userCacheDir g fuel blinding ctx input st).2
| step_warm st : gen_step st (WarmDestinationProver userCacheDir g st)
| step_evict st : gen_step st (evictDestinationProver st).

(** A generator that has just been made has nothing in memory. *)
Definition started (st : gen_state) : Prop := gs_destCache st = None.

(** What is in memory is what the files hold. *)
Definition cache_current (st : gen_state) : Prop :=
  ∀ loaded, gs_destCache st = Some loaded → load_destination (destination_files st) = Ok loaded.

Lemma load_destination_files dir loaded : load_destination dir = Ok loaded →
  loadProver dir ownershipDestinationKeyConfig = Ok loaded.1.
Proof.
  unfold load_destination. intros (b & Hb & Hl)%bind_Ok. by apply bind_Ok in Hl as (ccs & _ & [= <-]).
Qed.

Lemma acquire_current st : cache_current st →
  (acquireDestinationProver userCacheDir g st).1 = load_destination (destination_files st) ∧
  cache_current (acquireDestinationProver userCacheDir g st).2 ∧
  gs_dirs (acquireDestinationProver userCacheDir g st).2 = gs_dirs st.
Proof.
  intros Hc. unfold acquireDestinationProver. fold (destination_files st).
  destruct (gs_destCache st) as [loaded|] eqn:Hcache; [by rewrite (Hc loaded Hcache)|].
  destruct (load_destination (destination_files st)) as [loaded|e] eqn:Hl; [|done].
  cbn [fst snd gs_dirs]. split_and!; [done| |done]. by intros ? [= <-].
Qed.

(** A directory from which something loads is not written to. *)
Lemma loads_not_created dir cfg ccs cfg' toxic now b : loadProver dir cfg = Ok b →
  (loadOrCreateBundle dir ccs cfg' toxic now).2 = dir.
Proof. intros Hl%loadProver_files. unfold loadOrCreateBundle. by rewrite Hl. Qed.

Lemma created_keeps st st' files : gs_destCache st' = gs_destCache st →
  gs_dirs st' = <[key_dir userCacheDir (og_KeysDir g) ownershipKeyConfig := files]> (gs_dirs st) →
  (∀ b, loadProver (files_of userCacheDir (gs_dirs st) (og_KeysDir g) ownershipKeyConfig) ownershipDestinationKeyConfig = Ok b →
     files = files_of userCacheDir (gs_dirs st) (og_KeysDir g) ownershipKeyConfig) →
  cache_current st → cache_current st'.
Proof.
  intros E1 E2 Hf Hc loaded Hl. rewrite E1 in Hl. specialize (Hc loaded Hl). unfold destination_files, files_of in *. rewrite E2.
  destruct (decide (key_dir userCacheDir (og_KeysDir g) ownershipKeyConfig =
                    key_dir userCacheDir (destinationKeysDir g) ownershipDestinationKeyConfig)) as [E|E].
  - rewrite E, lookup_insert_eq. cbn [default]. rewrite (Hf loaded.1); [by rewrite E|].
    rewrite E. by apply load_destination_files.
  - by rewrite lookup_insert_ne.
Qed.

Lemma prove_single_current input path toxic now blinding st : cache_current st →
  cache_current (prove_single userCacheDir g input path toxic now blinding st).2.
Proof.
  intros Hc. unfold prove_single.
  destruct (loaded ← _; _) as [[[[loaded publicInput] assignment] ccs]|e]; [|done].
  destruct loaded as [b|].
  { destruct (ob_ProvingKey b); [destruct (gen_go _)|]; done. }
  set (files := files_of userCacheDir (gs_dirs st) (og_KeysDir g) ownershipKeyConfig).
  pose proof (loads_not_created files ownershipDestinationKeyConfig ccs ownershipKeyConfig toxic now) as Hsame.
  destruct (loadOrCreateBundle files ccs ownershipKeyConfig toxic now) as [bundle files'].
  set (st1 := {| gs_dirs := <[key_dir userCacheDir (og_KeysDir g) ownershipKeyConfig := files']> (gs_dirs st);
                 gs_destCache := gs_destCache st |}).
  assert (cache_current st1) as Hst by (by apply (created_keeps st st1 files')).
  destruct bundle as [b|]; [|done]. destruct (ob_ProvingKey b); [destruct (gen_go _)|]; done.
Qed.

Lemma single_current toxic now blinding ctx input st : cache_current st →
  cache_current (OwnershipGenerator_GenerateProof userCacheDir g fuel toxic now blinding ctx input st).2.
Proof.
  intros Hc. unfold OwnershipGenerator_GenerateProof. destruct (cx_entry ctx); [done|].
  destruct (DiscoverCredentialPaths _ _ _ _ _) as [paths found]. destruct (paths ← _; _) as [path|e]; [|done].
  pose proof (prove_single_current input path toxic now blinding st Hc) as Hp. by destruct (prove_single _ _ _ _ _ _ _ _) as [[? ?] ?].
Qed.

Lemma destination_current blinding ctx input st : cache_current st →
  cache_current (OwnershipGenerator_GenerateDestinationProofs userCacheDir g fuel blinding ctx input st).2 ∧
  gs_dirs (OwnershipGenerator_GenerateDestinationProofs userCacheDir g fuel blinding ctx input st).2 = gs_dirs st.
Proof.
  intros Hc. unfold OwnershipGenerator_GenerateDestinationProofs. destruct (cx_entry ctx); [done|].
  destruct (DiscoverCredentialPaths _ _ _ _ _) as [paths found]. destruct (map_err _ paths) as [paths'|e]; [|done].
  destruct (acquire_current st Hc) as (_ & Hc' & Hd). destruct (acquireDestinationProver _ _ st) as [acquired st'].
  destruct acquired as [[b ccs]|e]; [|done]. by destruct (destination_items _ _ _ _ _ _ _ _ _).
Qed.

Lemma reachable_current st st' : started st → rtc gen_step st st' → cache_current st'.
Proof.
  intros Hs Hr. assert (cache_current st) as Hc by (intros loaded Hl; congruence). clear Hs.
  induction Hr as [|st1 st2 st3 Hstep _ IH]; [done|]. apply IH. destruct Hstep; [by apply single_current|by apply destination_current|by apply acquire_current|done].
Qed.

(** Keeping the prover in memory changes nothing.  In every state that the generator reaches
    from its start, by proofs of both kinds, warm-ups and evictions in any order, acquiring
    the destination prover gives exactly what loading it from the files at hand would
    give: the same bundle and constraint system, or the same error.  This holds where a
    proof of the other kind makes new keys, even in the same directory. *)
Theorem destination_cache_transparent st st' : started st → rtc gen_step st st' →
  (acquireDestinationProver userCacheDir g st').1 = load_destination (destination_files st').
Proof. intros Hs Hr. by apply acquire_current, (reachable_current st). Qed.
End cache.

(** ** Proofs *)

(** An answer that carries the artifacts of a proof request, at once or at the end of the stream. *)
Definition answers (b : response_body) (rp : ProveDestinationResponse) : Prop :=
  match b with
  | DestinationBody r => r = rp
  | StreamBody events => ResultEvent rp ∈ events
  | _ => False
  end.

Lemma build_item_Ok i q input : build_item i q = Ok input →
  di_OutRef input = TrimSpace (dr_OutRef q) ∧ DecodeCredentialHex (dr_TargetCredential q) = Ok (di_TargetCredential input) ∧
  DecodeDestinationAddressV1Hex (dr_DestinationAddress q) = Ok (di_DestinationAddress input) ∧
  di_DestinationAddressEncoding input = DestinationAddressEncoding.
Proof.
  unfold build_item. intros Hb. apply bind_Ok in Hb as (? & _ & Hb). apply bind_Ok in Hb as (t & Ht%map_err_Ok & Hb).
  apply bind_Ok in Hb as (? & He%guard_err_Ok & Hb). apply bind_Ok in Hb as (d & Hd%map_err_Ok & [= <-]).
  apply differs_false in He. done.
Qed.

Lemma build_items_Ok i qs inputs : build_items i qs = Ok inputs → Forall2 (λ q input, ∃ i, build_item i q = Ok input) qs inputs.
Proof.
  revert i inputs. induction qs as [|q qs IH]; intros i inputs; cbn [build_items]; [intros [= <-]; constructor|].
  intros (input & Hi & Hb)%bind_Ok. apply bind_Ok in Hb as (rest & Hr & [= <-]). constructor; [by exists i|by eapply IH].
Qed.

Lemma BuildDestinationInput_requests req input : BuildDestinationInput req = Ok input →
  Forall2 (λ q i, ∃ n, build_item n q = Ok i) (pd_Requests req) (dp_Requests input).
Proof.
  unfold BuildDestinationInput. intros Hb. do 3 apply bind_Ok in Hb as (? & _ & Hb).
  apply bind_Ok in Hb as (rs & Hr & [= <-]). by eapply build_items_Ok.
Qed.

Section proofs.
Context `{Groth16Encodings} `{Edwards25519} `{XCryptoBlake2b} `{Field} `{ManifestJSONLaws} `{URLParser} `{HelperJSON}.
Context (Hcomplete : groth16_complete).
Variable userCacheDir : option (list Z).
Variable g : OwnershipGenerator.
Variable fuel : nat.

(** The keys in a directory, and the constraint system proofs are made for, are from one
    setup. *)
Definition destination_keys_from_setup (dir : directory) : Prop := ∀ b ccs, load_destination dir = Ok (b, ccs) →
  ∃ toxic pk, ob_ProvingKey b = Some pk ∧ groth16_Setup ccs toxic = Ok (pk, ob_VerifyingKey b).

(** An artifact for a credential and a destination, accepted by [verify-destination]. *)
Definition accepted_for (dir : directory) (outRef target destination : list Z) (item : DestinationProofArtifactItem) : Prop :=
  it_OutRef item = outRef ∧
  pa_TargetCredential (it_Artifact item) = hex_EncodeToString target ∧
  pa_DestinationAddress (it_Artifact item) = hex_EncodeToString destination ∧
  cmdVerifyDestination dir (BackendProofArtifact (it_Artifact item)) = Ok tt.

Lemma destination_item_accepted dir b ccs paths master blinding q n input item begun :
  destination_keys_from_setup dir → load_destination dir = Ok (b, ccs) → build_item n q = Ok input →
  destination_item b ccs paths master blinding input = (Ok item, begun) →
  accepted_for dir (di_OutRef input) (di_TargetCredential input) (di_DestinationAddress input) item.
Proof.
  intros Hk Hl (_ & [Htb Htl]%DecodeCredentialHex_Ok & [Hdb Hdl]%DecodeDestination_Ok & He)%build_item_Ok Hi.
  destruct (Hk b ccs Hl) as (toxic & pk & Hpk & Hset). unfold destination_item in Hi.
  destruct (credentialKey ← _; _) as [[[path z] c]|e] eqn:Hpre; [|done]. rewrite Hpk in Hi. injection Hi as Hi _.
  apply bind_Ok in Hpre as (? & _ & Hpre). apply bind_Ok in Hpre as (p & _ & Hpre).
  apply bind_Ok in Hpre as (z' & Hz%map_err_Ok & Hpre). apply bind_Ok in Hpre as (c' & Hc%map_err_Ok & [= -> -> ->]).
  apply bind_Ok in Hi as (proof & Hproof%map_err_Ok & Hi). apply bind_Ok in Hi as (dg & _ & Hi).
  apply bind_Ok in Hi as (cardano & _ & [= <-]). unfold accepted_for. cbn [it_OutRef it_Artifact pa_TargetCredential pa_DestinationAddress].
  split_and!; [done..|].
  unfold Prove in Hproof. apply within_Ok in Hproof. pose proof (Hcomplete _ _ _ _ _ _ _ Hset Hproof) as Hv.
  cbn [public_of] in Hv. rewrite (DestAssignment_Pub _ _ _ _ _ Hc) in Hv.
  apply (destination_accepted dir _ (di_TargetCredential input) (di_DestinationAddress input) z
    {| ob_Manifest := ob_Manifest b; ob_ProvingKey := None; ob_VerifyingKey := ob_VerifyingKey b |} proof);
    [done..| |apply (loadProver_loadVerifier _ _ _ (load_destination_files _ _ Hl))|done|apply proof_text_round_trip|].
  - done.
  - unfold VerifyProof. by apply within_Ok.
Qed.

Lemma destination_items_accepted dir b ccs paths master blinding ctx total i qs inputs items progress :
  destination_keys_from_setup dir → load_destination dir = Ok (b, ccs) →
  Forall2 (λ q input, ∃ n, build_item n q = Ok input) qs inputs →
  destination_items b ccs paths master blinding ctx total i inputs = (Ok items, progress) →
  Forall2 (λ input item, accepted_for dir (di_OutRef input) (di_TargetCredential input) (di_DestinationAddress input) item) inputs items.
Proof.
  intros Hk Hl Hqs. revert i items progress. induction Hqs as [|q input qs inputs [n Hq] _ IH]; intros i items progress; cbn [destination_items].
  { intros [= <- _]. constructor. }
  destruct (cx_item ctx i); [done|]. destruct (destination_item _ _ _ _ _ _) as [[item|e] begun] eqn:Hi; [|done].
  destruct (destination_items _ _ _ _ _ _ _ (Datatypes.S i) _) as [[rest|e] prog] eqn:Hr; [|done]. intros [= <- _].
  constructor; [by eapply destination_item_accepted|by eapply IH].
Qed.

Lemma generated_accepted blinding ctx input qs st items progress st' :
  cache_current userCacheDir g st → destination_keys_from_setup (destination_files userCacheDir g st) →
  Forall2 (λ q input, ∃ n, build_item n q = Ok input) qs (dp_Requests input) →
  OwnershipGenerator_GenerateDestinationProofs userCacheDir g fuel blinding ctx input st = (Ok items, progress, st') →
  Forall2 (λ input item, accepted_for (destination_files userCacheDir g st)
    (di_OutRef input) (di_TargetCredential input) (di_DestinationAddress input) item) (dp_Requests input) items.
Proof.
  intros Hc Hk Hqs. unfold OwnershipGenerator_GenerateDestinationProofs. destruct (cx_entry ctx); [done|].
  destruct (DiscoverCredentialPaths _ _ _ _ _) as [paths found]. destruct (map_err _ paths) as [paths'|e]; [|done].
  destruct (acquire_current userCacheDir g st Hc) as (Ha & _). destruct (acquireDestinationProver _ _ st) as [acquired st1].
  cbn [fst] in Ha. destruct acquired as [[b ccs]|e]; [|done].
  destruct (destination_items _ _ _ _ _ _ _ _ _) as [r prog] eqn:Hi. intros [= -> _ _]. by eapply destination_items_accepted.
Qed.

Lemma response_accepted dir input qs items :
  Forall2 (λ input item, accepted_for dir (di_OutRef input) (di_TargetCredential input) (di_DestinationAddress input) item)
    (dp_Requests input) items →
  Forall2 (λ q input, ∃ n, build_item n q = Ok input) qs (dp_Requests input) →
  Forall2 (λ q item, ∃ t d, DecodeCredentialHex (dr_TargetCredential q) = Ok t ∧
    DecodeDestinationAddressV1Hex (dr_DestinationAddress q) = Ok d ∧ accepted_for dir (TrimSpace (dr_OutRef q)) t d item)
    qs (rp_Artifacts (destinationProofResponse input items)).
Proof.
  intros Hi Hq. unfold destinationProofResponse. cbn [rp_Artifacts]. generalize (dp_IncludeDebugPath input). intros debug. revert items Hi.
  induction Hq as [|q i qs inputs [n Hq] _ IH]; intros items; [intros ->%Forall2_nil_inv_l; constructor|].
  intros (item & items' & Ha & Hi & ->)%Forall2_cons_inv_l. constructor; [|by apply IH].
  apply build_item_Ok in Hq as (Ho & Ht & Hd & _). exists (di_TargetCredential i), (di_DestinationAddress i).
  rewrite <- Ho. split_and!; [done|done|]. destruct Ha as (? & ? & ? & ?). by destruct debug.
Qed.

Lemma answers_only_results fails input results progress rp :
  ResultEvent rp ∈ streamDestinationProofs fails input results progress →
  ∃ items, results = Ok items ∧ rp = destinationProofResponse input items.
Proof.
  destruct (stream_prefix fails input results progress) as (n & -> & _). intros Hin%elem_of_take. destruct Hin as (k & Hin & _).
  apply list_elem_of_lookup_2 in Hin. unfold stream_events in Hin. apply elem_of_app in Hin as [Hin|Hin%list_elem_of_singleton].
  { by apply list_elem_of_fmap in Hin as (? & ? & _). }
  destruct results as [items|e]; [injection Hin as ->; by exists items|]. by destruct (errorMapping e) as [[? ?] ?].
Qed.
(** Which answers the routes give. *)
Lemma guarded_answers {S} (s : Server) r m (st : server_state (S:=S)) k rp :
  answers (guarded s r m st k).1.2 rp → answers (k st).1.2 rp.
Proof. unfold guarded. by repeat (destruct (_ : bool); [done|]). Qed.

Lemma handleProveDestination_answers {S} (gen : Generator S) s r st rp : answers (handleProveDestination gen s r st).1.2 rp →
  ∃ generate req input items progress st', GenerateDestinationProofs gen = Some generate ∧
    json_ProveDestinationRequest (limited (hr_body r)) = Some req ∧ BuildDestinationInput req = Ok input ∧
    generate (hr_context r) input (st_gen st) = (Ok items, progress, st') ∧ rp = destinationProofResponse input items.
Proof.
  unfold handleProveDestination. intros Ha%guarded_answers. destruct (GenerateDestinationProofs gen) as [generate|]; [|done].
  destruct (json_ProveDestinationRequest _) as [req|]; [|done]. destruct (pd_PreflightOnly req).
  { by destruct (loaded_preflight req). }
  destruct (BuildDestinationInput req) as [input|] eqn:Hb; [|done]. destruct (_ && negb _); [done|].
  destruct (generate _ _ _) as [[results progress] st'] eqn:Hg. exists generate, req, input.
  assert (∃ items, results = Ok items ∧ rp = destinationProofResponse input items) as (items & -> & Hrp).
  { destruct (acceptsDestinationProgress _); [by apply answers_only_results in Ha|].
    destruct results as [items|e]; [by exists items|]. unfold generator_error in Ha. by destruct (errorMapping e) as [[? ?] ?]. }
  by exists items, progress, st'.
Qed.

Lemma Handler_answers {S} (gen : Generator S) s r st rp : answers (hp_body (Handler gen s r st).1) rp →
  answers (handleProveDestination gen s r st).1.2 rp.
Proof.
  unfold Handler. case_bool_decide; [done|]. assert (answers (route gen s r st).1.2 rp → answers (handleProveDestination gen s r st).1.2 rp) as Hr;
    [|by destruct (route gen s r st) as [[? ?] ?]].
  unfold route. case_bool_decide; [unfold handleHealth; by destruct (differs _ _)|].
  case_bool_decide; [unfold handleStatus; by destruct (differs _ _)|]. case_bool_decide.
  { unfold handleProve. intros Ha%guarded_answers. destruct (json_ProveRequest _); [|done]. destruct (BuildInput _); [|done].
    destruct (GenerateProof _ _ _ _) as [[[proof|e] ?] ?]; [done|]. unfold generator_error in Ha. by destruct (errorMapping e) as [[? ?] ?]. }
  case_bool_decide; [done|]. case_bool_decide; [|done]. unfold handleShutdown. by intros Ha%guarded_answers.
Qed.

Lemma answered_accepted toxic now blinding blindings s r st0 st rp :
  started st0 → rtc (gen_step userCacheDir g fuel) st0 (st_gen st) →
  destination_keys_from_setup (destination_files userCacheDir g (st_gen st)) →
  answers (hp_body (Handler (ownership_generator userCacheDir g fuel toxic now blinding blindings) s r st).1) rp →
  ∃ req, json_ProveDestinationRequest (limited (hr_body r)) = Some req ∧
    Forall2 (λ q item, ∃ t d, DecodeCredentialHex (dr_TargetCredential q) = Ok t ∧
      DecodeDestinationAddressV1Hex (dr_DestinationAddress q) = Ok d ∧
      accepted_for (destination_files userCacheDir g (st_gen st)) (TrimSpace (dr_OutRef q)) t d item)
      (pd_Requests req) (rp_Artifacts rp).
Proof.
  intros Hs Hr Hk Ha%Handler_answers.
  apply handleProveDestination_answers in Ha as (generate & req & input & items & progress & st' & Hgen & Hj & Hb & Hg & ->).
  injection Hgen as <-. exists req. split; [done|]. pose proof (BuildDestinationInput_requests _ _ Hb) as Hq.
  apply (response_accepted _ input _ items); [|done].
  eapply generated_accepted; [by eapply reachable_current|done|done|exact Hg].
Qed.
(** C21 What the helper proves for a website, the verifier accepts.  After any proofs and
    evictions since the start, when a request is answered with the artifacts of destination
    proofs, at once or at the end of a stream, there is one artifact per request of
    the parsed body, in order, with its reference; it names the credential and the
    destination of that request, and [verify-destination] accepts it from the key
    directory, provided that the keys there come from one setup and that Groth16 is
    complete. *)
Theorem helper_proofs_verify toxic now blinding blindings s r st0 st rp :
  started st0 → rtc (gen_step userCacheDir g fuel) st0 (st_gen st) →
  destination_keys_from_setup (destination_files userCacheDir g (st_gen st)) →
  answers (hp_body (Handler (ownership_generator userCacheDir g fuel toxic now blinding blindings) s r st).1) rp →
  ∃ req, json_ProveDestinationRequest (limited (hr_body r)) = Some req ∧
    Forall2 (λ q item, ∃ t d, DecodeCredentialHex (dr_TargetCredential q) = Ok t ∧
      DecodeDestinationAddressV1Hex (dr_DestinationAddress q) = Ok d ∧
      accepted_for (destination_files userCacheDir g (st_gen st)) (TrimSpace (dr_OutRef q)) t d item)
      (pd_Requests req) (rp_Artifacts rp).
Proof. exact (answered_accepted toxic now blinding blindings s r st0 st rp). Qed.
End proofs.

(** ** The owner is served *)

Lemma BuildDestinationInput_master req input : BuildDestinationInput req = Ok input →
  Forall is_byte (dp_MasterXPrv input) ∧ length (dp_MasterXPrv input) = 96%nat.
Proof.
  unfold BuildDestinationInput. intros (m & Hm & Hb)%bind_Ok. do 2 apply bind_Ok in Hb as (? & _ & Hb).
  apply bind_Ok in Hb as (rs & _ & [= <-]). cbn [dp_MasterXPrv]. unfold decodeMasterXPrvBase64 in Hm.
  destruct (b64_DecodeString _) as [bs|] eqn:Hd; [|done]. apply bind_Ok in Hm as ([] & Hl%guard_err_Ok & [= <-]).
  split; [by eapply b64_DecodeString_bytes|]. by apply negb_false_iff, Nat.eqb_eq in Hl.
Qed.

(** A request that nobody cancels. *)
Definition never_cancelled : context := {| cx_entry := false; cx_candidate := λ _, false; cx_item := λ _, false |}.

Section served.
Context `{EmulatedField P 255} `{Edwards25519Laws} `{XCryptoBlake2b} `{Groth16Encodings} `{ManifestJSONLaws} `{URLParser} `{HelperJSON}.
Context (assign : Z → var) (value_assign : ∀ z, value (assign z) = z mod field_order).

(** What Groth16 promises the prover of the destination circuit. *)
Definition groth16_proves_destination : Prop := ∀ ccs toxic pk vk c blinding,
  Compile DestinationC = Ok ccs → groth16_Setup ccs toxic = Ok (pk, vk) →
  circuit_ok (DefineDest (assign_destination assign c)) (λ _, True) →
  ∃ proof, groth16_Prove ccs pk (DestinationW c) blinding = Ok proof ∧ is_ok (SerializeCardanoProof proof) = true.

(** Keys of the destination circuit are there, from one setup. *)
Definition destination_ready (dir : directory) : Prop := ∃ b ccs toxic pk,
  load_destination dir = Ok (b, ccs) ∧ Compile DestinationC = Ok ccs ∧ ob_ProvingKey b = Some pk ∧
  groth16_Setup ccs toxic = Ok (pk, ob_VerifyingKey b).

Context (Hproves : groth16_proves_destination) (Hcomplete : groth16_complete).
Variable userCacheDir : option (list Z).
Variable g : OwnershipGenerator.
Variable fuel : nat.

Lemma ready_from_setup dir : destination_ready dir → destination_keys_from_setup dir.
Proof. intros (b & ccs & toxic & pk & Hl & _ & Hpk & Hs) b' ccs' Hl'. rewrite Hl in Hl'. injection Hl' as <- <-. by exists toxic, pk. Qed.

(** A path of a request's credential, in what discovery found. *)
Definition path_found (master : list Z) (paths : gmap (list Z) Path) (request : DestinationProofInput) : Prop :=
  ∃ p, paths !! di_TargetCredential request = Some p ∧ path_range p ∧ DeriveCredential master p = Ok (di_TargetCredential request).

Lemma destination_item_Ok b ccs toxic pk paths master blinding request n q :
  Compile DestinationC = Ok ccs → ob_ProvingKey b = Some pk → groth16_Setup ccs toxic = Ok (pk, ob_VerifyingKey b) →
  Forall is_byte master → length master = 96%nat → icarus_clamped (le_val (take 32 master)) →
  build_item n q = Ok request → path_found master paths request →
  ∃ item, destination_item b ccs paths master blinding request = (Ok item, true).
Proof.
  intros Hc Hpk Hset Hm Hl Hcl (_ & [Htb Htl]%DecodeCredentialHex_Ok & [Hdb Hdl]%DecodeDestination_Ok & _)%build_item_Ok (p & Hp & Hr & Hd).
  unfold destination_item, paymentCredentialKey. rewrite Htl. cbn [Nat.eqb mbind result_bind]. rewrite Hp. cbn [mbind result_bind].
  set (digest := blake2b_sum 32 (DestDomain ++ di_TargetCredential request ++ di_DestinationAddress request)).
  assert (PublicInputDigestForCredentialDestination (di_TargetCredential request) (di_DestinationAddress request) = Ok digest) as Hdig
    by (unfold PublicInputDigestForCredentialDestination; by rewrite Htl, Hdl).
  assert (PublicInputForCredentialDestination (di_TargetCredential request) (di_DestinationAddress request) = Ok (digest_to_field digest)) as Hpi
    by (by apply PublicInputForDestination_ok).
  destruct (DestAssignment_ok assign value_assign master p (di_DestinationAddress request) (digest_to_field digest) _
    Hm Hl Hcl Hr Hdb Hdl Hd) as (c & Ha & Hsat); [apply Z.mod_pos_bound; pose proof field_order_large; lia|done|].
  rewrite Hpi. cbn [gen_dest map_err mbind result_bind]. rewrite Ha. cbn [gen_dest map_err mbind result_bind]. rewrite Hpk, Hdig.
  destruct (Hproves ccs toxic pk _ c blinding Hc Hset Hsat) as (proof & Hpr & Hser). unfold Prove. rewrite Hpr.
  cbn [within gen_go gen_dest map_err mbind result_bind].
  destruct (cardano_artifact_Ok proof digest) as [cardano ->]; [|done|].
  { unfold digest. apply blake2b_sum_wf. rewrite !Forall_app. split_and!; [repeat constructor; done|done|done]. }
  cbn [gen_go map_err mbind result_bind]. by eexists.
Qed.

Lemma destination_items_Ok b ccs toxic pk paths master blinding total qs requests i :
  Compile DestinationC = Ok ccs → ob_ProvingKey b = Some pk → groth16_Setup ccs toxic = Ok (pk, ob_VerifyingKey b) →
  Forall is_byte master → length master = 96%nat → icarus_clamped (le_val (take 32 master)) →
  Forall2 (λ q input, ∃ n, build_item n q = Ok input) qs requests → Forall (path_found master paths) requests →
  ∃ items progress, destination_items b ccs paths master blinding never_cancelled total i requests = (Ok items, progress).
Proof.
  intros Hc Hpk Hset Hm Hl Hcl Hqs. revert i. induction Hqs as [|q request qs requests [n Hq] _ IH]; intros i Hf; [by eexists _, _|].
  apply Forall_cons in Hf as [Hp Hf]. cbn [destination_items never_cancelled cx_item].
  destruct (destination_item_Ok b ccs toxic pk paths master (blinding i) request n q Hc Hpk Hset Hm Hl Hcl Hq Hp) as [item ->].
  destruct (IH (Datatypes.S i) Hf) as (items & progress & ->). by eexists _, _.
Qed.

Lemma generates_all blinding input qs st : cache_current userCacheDir g st →
  destination_ready (destination_files userCacheDir g st) →
  Forall is_byte (dp_MasterXPrv input) → length (dp_MasterXPrv input) = 96%nat →
  icarus_clamped (le_val (take 32 (dp_MasterXPrv input))) →
  discovery_ok (dp_Search input) → (Z.to_nat (MaxAccount (dp_Search input)) + 1 < fuel)%nat →
  Forall2 (λ q input, ∃ n, build_item n q = Ok input) qs (dp_Requests input) →
  Forall (λ i, ∃ p, p ∈ discovery_order (dp_Search input) ∧
    DeriveCredential (dp_MasterXPrv input) p = Ok (di_TargetCredential i)) (dp_Requests input) →
  ∃ items progress st', OwnershipGenerator_GenerateDestinationProofs userCacheDir g fuel blinding never_cancelled input st =
    (Ok items, progress, st').
Proof.
  intros Hc (b & ccs & toxic & pk & Hload & Hcomp & Hpk & Hset) Hm Hl Hcl Hok Hf Hqs Hown.
  unfold OwnershipGenerator_GenerateDestinationProofs. cbn [cx_entry cx_candidate never_cancelled].
  assert (Forall (λ t, length t = 28%nat) (di_TargetCredential <$> dp_Requests input)) as Ht.
  { rewrite Forall_fmap. clear -Hqs. induction Hqs as [|q i qs rs [n Hq] _ IH]; constructor; [|done].
    apply build_item_Ok in Hq as (_ & [_ Ht]%DecodeCredentialHex_Ok & _). exact Ht. }
  pose proof (DiscoverCredentialPaths_finds (dp_MasterXPrv input) _ {| Search := dp_Search input; ProgressEvery := 0 |} fuel Hm Hl Hcl Ht Hok Hf) as Hd.
  cbn zeta in Hd. destruct (DiscoverCredentialPaths _ _ _ _ _) as [found progress]. cbn [fst Search] in Hd.
  assert (∀ paths, discovers (dp_MasterXPrv input) (list_to_set (di_TargetCredential <$> dp_Requests input)) (discovery_order (dp_Search input)) paths →
    Forall (path_found (dp_MasterXPrv input) paths) (dp_Requests input)) as Hfound.
  { intros paths Hp. rewrite Forall_forall in Hown |- *. intros i Hi. destruct (Hown i Hi) as (p & Hin & Hder).
    destruct (first_path_some (dp_MasterXPrv input) (discovery_order (dp_Search input)) (di_TargetCredential i)) as (p' & Hfp & Hin' & Hd'); [by exists p|].
    exists p'. split; [|split; [by apply (discovery_order_range (dp_Search input))|done]].
    rewrite (Hp (di_TargetCredential i)), decide_True; [done|]. apply elem_of_list_to_set, list_elem_of_fmap. by exists i. }
  assert (∃ paths, found = Ok paths ∧ Forall (path_found (dp_MasterXPrv input) paths) (dp_Requests input)) as (paths & -> & Hpaths).
  { destruct found as [paths|[]]; try done; [exists paths; split; [done|]; apply Hfound, Hd|].
    destruct Hd as [Hd (c & Hcin & Hn)]. apply Hfound in Hd. rewrite Forall_forall in Hd.
    apply list_elem_of_fmap in Hcin as (i & -> & Hi). destruct (Hd i Hi) as (p & Hp & _). congruence. }
  cbn [map_err]. destruct (acquire_current userCacheDir g st Hc) as [Ha _].
  destruct (acquireDestinationProver userCacheDir g st) as [acquired st']. cbn [fst] in Ha. rewrite Ha, Hload.
  destruct (destination_items_Ok b ccs toxic pk paths (dp_MasterXPrv input) blinding (Z.of_nat (length (dp_Requests input))) qs _ 0
    Hcomp Hpk Hset Hm Hl Hcl Hqs Hpaths) as (items & prog & ->). by eexists _, _, _.
Qed.

(** A stream without failures ends in the results. *)
Lemma stream_complete input items progress fails : (∀ n, fails n = false) →
  ResultEvent (destinationProofResponse input items) ∈ streamDestinationProofs fails input (Ok items) progress.
Proof.
  intros Hf. destruct (stream_prefix fails input (Ok items) progress) as (n & -> & _ & [->|[_ Hn]]); [|by rewrite Hf in Hn].
  rewrite firstn_all. unfold stream_events. apply elem_of_app. right. by apply list_elem_of_singleton.
Qed.

Lemma owner_served toxic now blinding blindings s r st0 st req input :
  started st0 → rtc (gen_step userCacheDir g fuel) st0 (st_gen st) →
  destination_ready (destination_files userCacheDir g (st_gen st)) →
  authorized s r → hr_path r = str "/prove-destination" → hr_context r = never_cancelled →
  (acceptsDestinationProgress (hr_accept r) = true → hr_flusher r = true ∧ ∀ n, hr_write_fails r n = false) →
  json_ProveDestinationRequest (limited (hr_body r)) = Some req → pd_PreflightOnly req = false →
  BuildDestinationInput req = Ok input →
  icarus_clamped (le_val (take 32 (dp_MasterXPrv input))) → discovery_ok (dp_Search input) →
  (Z.to_nat (MaxAccount (dp_Search input)) + 1 < fuel)%nat →
  Forall (λ i, ∃ p, p ∈ discovery_order (dp_Search input) ∧
    DeriveCredential (dp_MasterXPrv input) p = Ok (di_TargetCredential i)) (dp_Requests input) →
  let resp := (Handler (ownership_generator userCacheDir g fuel toxic now blinding blindings) s r st).1 in
  hp_status resp = 200 ∧ ∃ rp, answers (hp_body resp) rp ∧
    Forall2 (λ q item, ∃ t d, DecodeCredentialHex (dr_TargetCredential q) = Ok t ∧
      DecodeDestinationAddressV1Hex (dr_DestinationAddress q) = Ok d ∧
      accepted_for (destination_files userCacheDir g (st_gen st)) (TrimSpace (dr_OutRef q)) t d item)
      (pd_Requests req) (rp_Artifacts rp).
Proof.
  intros Hs Hr Hready Hauth Hpath Hctx Hstream Hj Hpre Hb Hcl Hok Hf Hown resp.
  destruct (BuildDestinationInput_master _ _ Hb) as [Hm Hl].
  destruct (generates_all blindings input _ (st_gen st) (reachable_current _ _ _ _ _ Hs Hr) Hready Hm Hl Hcl Hok Hf
    (BuildDestinationInput_requests _ _ Hb) Hown) as (items & progress & st' & Hgen).
  assert (hp_status resp = 200 ∧ answers (hp_body resp) (destinationProofResponse input items)) as [H200 Hans].
  { unfold resp, Handler. rewrite bool_decide_eq_false_2 by (destruct Hauth as [-> _]; done). unfold route. rewrite Hpath.
    rewrite !(bool_decide_eq_false_2 (str "/prove-destination" = _)), (bool_decide_eq_true_2 (str "/prove-destination" = _)) by done.
    unfold handleProveDestination. rewrite guarded_authorized by done. cbn [ownership_generator GenerateDestinationProofs].
    rewrite Hj, Hpre, Hb, Hctx. destruct (acceptsDestinationProgress (hr_accept r)) eqn:Ha.
    - destruct (Hstream eq_refl) as [-> Hw]. cbn [andb negb]. rewrite Hgen. split; [done|]. by apply stream_complete.
    - cbn [andb]. rewrite Hgen. done. }
  split; [done|]. exists (destinationProofResponse input items). split; [done|].
  destruct (answered_accepted Hcomplete userCacheDir g fuel toxic now blinding blindings s r st0 st _ Hs Hr (ready_from_setup _ Hready) Hans)
    as (req' & Hj' & Hall). assert (req' = req) as -> by congruence. done.
Qed.
(** C4 An owner is served.  On a helper that holds keys of the destination circuit, whatever
    it did before, an authorised request of a paired website, with a clamped
    master key and credentials that it derives on paths of a supported search, is
    answered with status 200 and one artifact per request, and [verify-destination]
    accepts each; over a stream too, if no write fails. *)
Theorem helper_serves_owner toxic now blinding blindings s r st0 st req input :
  started st0 → rtc (gen_step userCacheDir g fuel) st0 (st_gen st) →
  destination_ready (destination_files userCacheDir g (st_gen st)) →
  authorized s r → hr_path r = str "/prove-destination" → hr_context r = never_cancelled →
  (acceptsDestinationProgress (hr_accept r) = true → hr_flusher r = true ∧ ∀ n, hr_write_fails r n = false) →
  json_ProveDestinationRequest (limited (hr_body r)) = Some req → pd_PreflightOnly req = false →
  BuildDestinationInput req = Ok input →
  icarus_clamped (le_val (take 32 (dp_MasterXPrv input))) → discovery_ok (dp_Search input) →
  (Z.to_nat (MaxAccount (dp_Search input)) + 1 < fuel)%nat →
  Forall (λ i, ∃ p, p ∈ discovery_order (dp_Search input) ∧
    DeriveCredential (dp_MasterXPrv input) p = Ok (di_TargetCredential i)) (dp_Requests input) →
  let resp := (Handler (ownership_generator userCacheDir g fuel toxic now blinding blindings) s r st).1 in
  hp_status resp = 200 ∧ ∃ rp, answers (hp_body resp) rp ∧
    Forall2 (λ q item, ∃ t d, DecodeCredentialHex (dr_TargetCredential q) = Ok t ∧
      DecodeDestinationAddressV1Hex (dr_DestinationAddress q) = Ok d ∧
      accepted_for (destination_files userCacheDir g (st_gen st)) (TrimSpace (dr_OutRef q)) t d item)
      (pd_Requests req) (rp_Artifacts rp).
Proof. exact (owner_served toxic now blinding blindings s r st0 st req input). Qed.
End served.
