(* ===== verification/ChunkManifest.v ===== *)
(** * The chunk manifest: [internal/proofassets/chunk_manifest.go]

    A browser fetches the proving key in chunks from servers that are not trusted.  The
    manifest pins every chunk by its digests, the chunks together by a root, the sections
    of the key by an index, and the whole to a key manifest and a deployment.
    [GenerateChunkManifest] cuts a key and writes the manifest; [ValidateChunkManifest]
    checks one; [VerifyChunkFiles] checks the chunks in a directory. *)
From stdpp Require Import strings gmap sorting.
From S2P Require Import Prelude.
From S2P Require Import GoText.
From S2P Require Import GoError.
From S2P Require Import GoTime.
From S2P Require Import GoJson.
From S2P Require Import Ownership.
From S2P Require Import PkIndex.
From S2P Require Import Artifact.

Definition ChunkManifestSchema : list Z := str "proof-tool-proof-assets-chunk-manifest-v1".
Definition ProvingKeyIndexSchema : list Z := str "proof-tool-proving-key-index-v1".
Definition ReclaimDeploymentSchema : list Z := str "proof-tool-reclaim-deployment-v1".

(** ** The records *)

Record ChunkCoherence := {
  cc_KeyManifestSHA256 : list Z;
  cc_KeyManifestBlake2b256 : list Z;
  cc_KeyVersion : list Z;
  cc_CircuitID : list Z;
  cc_VKHash : list Z;
  cc_ProvingKeySize : Z;
  cc_ProvingKeySHA256 : list Z;
  cc_ProvingKeyBlake2b256 : list Z;
  cc_VerifyingKeySHA256 : list Z;
  cc_VerifyingKeySize : Z;
  cc_ConstraintSystemHash : list Z;
  cc_SetupTranscriptHash : list Z;
  cc_CircuitSourceCommit : list Z;
  cc_GnarkVersion : list Z;
  cc_ProofToolVersion : list Z;
  cc_CardanoVKFormat : list Z;
  cc_CardanoVKBlake2b256 : list Z;
  cc_MPCCeremonyID : list Z;
  cc_MPCCandidateID : list Z;
  cc_ProductionDecisionID : list Z;
  cc_MPCReleaseID : list Z;
  cc_ReleaseManifestSHA256 : list Z;
  cc_DeploymentID : list Z;
  cc_DeploymentSourceCommit : list Z }.

Record ChunkTransport := {
  ct_BaseURL : list Z;
  ct_ContentEncoding : list Z;
  ct_RequiresHTTPS : bool;
  ct_SupportsRange : bool }.

Record ChunkPin := {
  ch_Index : Z;
  ch_Offset : Z;
  ch_Size : Z;
  ch_Path : list Z;
  ch_SHA256 : list Z;
  ch_Blake2b256 : list Z }.

Record ChunkedProvingKey := {
  ck_Path : list Z;
  ck_ChunkSize : Z;
  ck_ChunksRootBlake2b256 : list Z;
  ck_Chunks : list ChunkPin }.

(** The sections are a list here; a [ManifestPKSection] has the fields of a [PKSection]. *)
Record ManifestProvingKeyIndex := {
  mi_Schema : list Z;
  mi_FileSize : Z;
  mi_SHA256 : list Z;
  mi_Blake2b256 : list Z;
  mi_Sections : list PKSection }.

Record CompressedAssetPin := {
  cz_Path : list Z;
  cz_Encoding : list Z;
  cz_Size : Z;
  cz_SHA256 : list Z;
  cz_Blake2b256 : list Z }.

Record AssetPin := {
  ap_Path : list Z;
  ap_Size : Z;
  ap_SHA256 : list Z;
  ap_Blake2b256 : list Z;
  ap_Compressed : option CompressedAssetPin }.

Record ChunkManifest := {
  cm_Schema : list Z;
  cm_Release : list Z;
  cm_Profile : list Z;
  cm_GeneratedAt : list Z;
  cm_SignatureKeyID : list Z;
  cm_Coherence : ChunkCoherence;
  cm_Transport : ChunkTransport;
  cm_ProvingKey : ChunkedProvingKey;
  cm_ProvingKeyIndex : ManifestProvingKeyIndex;
  cm_Assets : gmap (list Z) AssetPin }.

(** The structs [ReclaimGlobal], [Proof] and [Planning] are inlined. *)
Record ReclaimDeploymentManifest := {
  rd_Schema : list Z;
  rd_DeploymentID : list Z;
  rd_Network : list Z;
  rd_SourceCommit : list Z;
  rd_VerifierVKHash : list Z;
  rd_ProofProfile : list Z;
  rd_ProofSlotEncoding : list Z;
  rd_BatchTranscriptVKHash : list Z;
  rd_CircuitID : list Z;
  rd_KeyVersion : list Z;
  rd_DestinationAddressEncoding : list Z;
  rd_VKHash : list Z;
  rd_CardanoVKBlake2b256 : list Z;
  rd_SetupTranscriptHash : list Z;
  rd_MPCCeremonyID : list Z;
  rd_MPCCandidateID : list Z;
  rd_ProductionDecisionID : list Z;
  rd_MPCReleaseID : list Z;
  rd_ReleaseManifestSHA256 : list Z }.

Record ChunkManifestOptions := {
  co_KeyManifest : option KeyManifest;
  co_KeyManifestDigest : FileDigest;
  co_Deployment : option ReclaimDeploymentManifest;
  co_ProvingKeyPath : list Z;
  co_ProvingKeyName : list Z;
  co_ChunkOutDir : list Z;
  co_ChunkSize : Z;
  co_Release : list Z;
  co_Profile : list Z;
  co_BaseURL : list Z;
  co_SignatureKeyID : list Z;
  co_GeneratedAt : civil;                                 (* in UTC *)
  co_CardanoVKFormat : list Z;
  co_CardanoVKBlake2b256 : list Z;
  co_Assets : gmap (list Z) AssetPin }.

Record ChunkManifestExpectations := {
  ce_KeyManifest : option KeyManifest;
  ce_KeyManifestDigest : FileDigest;
  ce_Deployment : option ReclaimDeploymentManifest;
  ce_CardanoVKFormat : list Z;
  ce_CardanoVKBlake2b256 : list Z }.

Definition no_digest : FileDigest := {| SHA256 := []; Blake2b256 := []; Size := 0 |}.
Definition no_expectations : ChunkManifestExpectations := {|
  ce_KeyManifest := None; ce_KeyManifestDigest := no_digest; ce_Deployment := None;
  ce_CardanoVKFormat := []; ce_CardanoVKBlake2b256 := [] |}.
Definition no_pin : AssetPin :=
  {| ap_Path := []; ap_Size := 0; ap_SHA256 := []; ap_Blake2b256 := []; ap_Compressed := None |}.

(** ** Paths and digests *)

Definition safeRelativePath (value : list Z) : checked :=
  _ ← check (bool_decide (value = [])) "path is required";
  _ ← check (HasPrefix value (str "/") || Contains value [92] || Contains value (str "://") ||
             ContainsAny value (str "?#")) "%q is not a safe relative path";
  let clean := path_Clean value in
  check (bool_decide (clean = str ".") || differs clean value || HasPrefix clean (str "../") ||
         Contains clean (str "/../")) "%q is not a safe relative path".

Definition decodePrefixedDigest (prefix value : list Z) : result go_error (list Z) :=
  let wantPrefix := prefix ++ str ":" in
  _ ← check (negb (HasPrefix value wantPrefix)) "digest %q missing %q prefix";
  match hex_DecodeString (TrimPrefix value wantPrefix) with
  | Some raw => Ok raw
  | None => Err (Fail "encoding/hex: invalid byte")
  end.

Definition validateDigest (prefix value : list Z) : checked :=
  raw ← decodePrefixedDigest prefix value;
  check (negb (length raw =? 32)%nat) "digest is %d bytes, want 32".

Definition isSHA256ID (value : list Z) : bool :=
  if has_upper value || negb (HasPrefix value (str "sha256:")) then false
  else match hex_DecodeString (TrimPrefix value (str "sha256:")) with
       | Some raw => (length raw =? 32)%nat
       | None => false
       end.

(** ** Deployments and key manifests *)

Definition isMainnetDeployment (deployment : option ReclaimDeploymentManifest) : bool :=
  match deployment with
  | Some d => bool_decide (rd_Network d = str "Mainnet") || HasPrefix (rd_DeploymentID d) (str "mainnet:")
  | None => false
  end.

Definition validateMainnetReleaseManifestDigest (deployment : option ReclaimDeploymentManifest)
    (keyManifestDigest : FileDigest) : checked :=
  match deployment with
  | Some d =>
      if negb (isMainnetDeployment deployment) then Ok tt else
      check (differs (rd_ReleaseManifestSHA256 d) (SHA256 keyManifestDigest))
        "mainnet deployment release_manifest_sha256 %q, want exact signed key manifest %q"
  | None => Ok tt
  end.

Definition statementBoundV2 : list Z := str "full-proof-plus-public-input-digest-v2".

Definition ValidateReclaimDeployment (deployment : option ReclaimDeploymentManifest)
    (manifest : option KeyManifest) (cardanoVKBlake2b256 : list Z) : checked :=
  match deployment, manifest with
  | None, _ => Err (Fail "deployment manifest is required")
  | _, None => Err (Fail "key manifest is required")
  | Some d, Some manifest =>
      _ ← check (differs (rd_Schema d) ReclaimDeploymentSchema) "deployment manifest schema %q, want %q";
      _ ← check (blank (rd_DeploymentID d)) "deployment_id is required";
      _ ← check (differs (rd_VKHash d) (km_VKHash manifest)) "deployment proof.vk_hash %q, want %q";
      _ ← check (differs (rd_CircuitID d) (km_CircuitID manifest)) "deployment proof.circuit_id %q, want %q";
      _ ← check (differs (rd_KeyVersion d) (km_KeyVersion manifest)) "deployment proof.key_version %q, want %q";
      _ ← check (differs (rd_SetupTranscriptHash d) [] &&
                 differs (rd_SetupTranscriptHash d) (km_SetupTranscriptHash manifest))
            "deployment proof.setup_transcript_hash %q, want %q";
      _ ← check (differs cardanoVKBlake2b256 [] && differs (rd_CardanoVKBlake2b256 d) cardanoVKBlake2b256)
            "deployment proof.cardano_vk_blake2b256 %q, want %q";
      _ ← check (differs (rd_VerifierVKHash d) (rd_CardanoVKBlake2b256 d))
            "deployment reclaim_global.verifier_vk_hash %q, want Cardano VK hash %q";
      _ ← check (differs (rd_ProofSlotEncoding d) statementBoundV2)
            "deployment reclaim_global.proof_slot_encoding %q, want %q";
      _ ← check (bool_decide (rd_BatchTranscriptVKHash d = []))
            "deployment statement-bound V2 requires reclaim_global.batch_transcript_vk_hash";
      _ ← check (differs (rd_BatchTranscriptVKHash d) (rd_CardanoVKBlake2b256 d))
            "deployment reclaim_global.batch_transcript_vk_hash %q, want %q";
      if isMainnetDeployment deployment then
        _ ← check (bool_decide (rd_SetupTranscriptHash d = []))
              "mainnet deployment requires proof.setup_transcript_hash";
        _ ← each [rd_MPCCeremonyID d; rd_MPCCandidateID d; rd_ProductionDecisionID d; rd_MPCReleaseID d] (λ value,
              check (negb (isSHA256ID value)) "mainnet deployment %s must be an exact sha256 identity");
        within "mainnet deployment planning.release_manifest_sha256"
          (validateDigest (str "sha256") (rd_ReleaseManifestSHA256 d))
      else Ok tt
  end.

Definition checkKeyManifestPK (manifest : KeyManifest) (digest : FileDigest) : checked :=
  _ ← check (bool_decide (km_ProvingKeySHA256 manifest = []) || bool_decide (km_ProvingKeyBlake2b256 manifest = []) ||
             (km_ProvingKeySize manifest <=? 0))
        "key manifest must include proving key sha256, blake2b256, and size";
  _ ← check (differs (km_ProvingKeySHA256 manifest) (SHA256 digest)) "proving key sha256 mismatch: manifest %s, file %s";
  _ ← check (differs (km_ProvingKeyBlake2b256 manifest) (Blake2b256 digest))
        "proving key blake2b256 mismatch: manifest %s, file %s";
  check (negb (km_ProvingKeySize manifest =? Size digest)) "proving key size mismatch: manifest %d, file %d".

Definition ValidateKeyManifestAssetDigests (manifest : option KeyManifest) (vk ccs : FileDigest) : checked :=
  match manifest with
  | None => Err (Fail "key manifest is required")
  | Some manifest =>
      _ ← check (bool_decide (km_VKHash manifest = []) || bool_decide (km_VerifyingKeySHA256 manifest = []) ||
                 (km_VerifyingKeySize manifest <=? 0))
            "key manifest must include vk_hash, verifying key sha256, and verifying key size";
      _ ← check ((Size vk <=? 0) || bool_decide (SHA256 vk = []) || bool_decide (Blake2b256 vk = []))
            "ownership.vk asset pin with size, sha256, and blake2b256 is required";
      _ ← check (negb (Size vk =? km_VerifyingKeySize manifest)) "ownership.vk size mismatch: manifest %d, asset %d";
      _ ← check (differs (SHA256 vk) (km_VerifyingKeySHA256 manifest))
            "ownership.vk sha256 mismatch: manifest %s, asset %s";
      _ ← check (differs (Blake2b256 vk) (km_VKHash manifest)) "ownership.vk blake2b256 mismatch: manifest %s, asset %s";
      _ ← check (bool_decide (km_ConstraintSystemHash manifest = [])) "key manifest must include constraint_system_hash";
      _ ← check ((Size ccs <=? 0) || bool_decide (SHA256 ccs = []) || bool_decide (Blake2b256 ccs = []))
            "ownership-destination.ccs asset pin with size, sha256, and blake2b256 is required";
      check (differs (Blake2b256 ccs) (km_ConstraintSystemHash manifest))
        "ownership-destination.ccs blake2b256 mismatch: manifest %s, asset %s"
  end.

Definition fileDigestFromAssetPin (pin : AssetPin) : FileDigest :=
  {| SHA256 := ap_SHA256 pin; Blake2b256 := ap_Blake2b256 pin; Size := ap_Size pin |}.

(** [assets[name]]: the zero pin when there is none. *)
Definition asset_digest (assets : gmap (list Z) AssetPin) (name : string) : FileDigest :=
  fileDigestFromAssetPin (default no_pin (assets !! str name)).

Definition validateAgainstKeyManifest (m : ChunkManifest) (manifest : KeyManifest) : checked :=
  let c := cm_Coherence m in
  _ ← each [(cc_KeyVersion c, km_KeyVersion manifest); (cc_CircuitID c, km_CircuitID manifest);
            (cc_GnarkVersion c, km_GnarkVersion manifest); (cc_VKHash c, km_VKHash manifest);
            (cc_ProvingKeySHA256 c, km_ProvingKeySHA256 manifest);
            (cc_ProvingKeyBlake2b256 c, km_ProvingKeyBlake2b256 manifest);
            (cc_VerifyingKeySHA256 c, km_VerifyingKeySHA256 manifest);
            (cc_ConstraintSystemHash c, km_ConstraintSystemHash manifest)] (λ '(got, want),
        check (differs want [] && differs got want) "%s mismatch: manifest %q, expected %q");
  _ ← check ((0 <? km_ProvingKeySize manifest) && negb (cc_ProvingKeySize c =? km_ProvingKeySize manifest))
        "proving_key_size mismatch: manifest %d, expected %d";
  check ((0 <? km_VerifyingKeySize manifest) && negb (cc_VerifyingKeySize c =? km_VerifyingKeySize manifest))
    "verifying_key_size mismatch: manifest %d, expected %d".

(** ** The table of chunks *)

Definition chunksRootBlake2b256 `{XCryptoBlake2b} (chunks : list ChunkPin) : result go_error (list Z) :=
  raws ← mapM (λ chunk, within "chunk %d blake2b256" (decodePrefixedDigest (str "blake2b256") (ch_Blake2b256 chunk))) chunks;
  Ok (blake2b256_string (concat raws)).

(** The loop over the chunks; [last] is the index of the last, [next] where this one starts. *)
Fixpoint validate_table (chunk_size last : Z) (i next : Z) (chunks : list ChunkPin) : result go_error Z :=
  match chunks with
  | [] => Ok next
  | chunk :: chunks =>
      _ ← check (negb (ch_Index chunk =? i)) "chunk %d index is %d";
      _ ← check (negb (ch_Offset chunk =? next)) "chunk %d offset %d, want %d";
      _ ← check (ch_Size chunk <=? 0) "chunk %d size must be positive";
      _ ← check ((i <? last) && negb (ch_Size chunk =? chunk_size)) "chunk %d size %d, want chunk_size %d";
      _ ← within "chunk %d path" (safeRelativePath (ch_Path chunk));
      _ ← within "chunk %d sha256" (validateDigest (str "sha256") (ch_SHA256 chunk));
      _ ← within "chunk %d blake2b256" (validateDigest (str "blake2b256") (ch_Blake2b256 chunk));
      validate_table chunk_size last (i + 1) (i64 (next + ch_Size chunk)) chunks
  end.

Definition validateChunks `{XCryptoBlake2b} (pk : ChunkedProvingKey) (provingKeySize : Z) : checked :=
  _ ← within "proving key path" (safeRelativePath (ck_Path pk));
  _ ← check (ck_ChunkSize pk <=? 0) "proving key chunk_size must be positive";
  _ ← check (bool_decide (ck_Chunks pk = [])) "proving key chunks are required";
  next ← validate_table (ck_ChunkSize pk) (Z.of_nat (length (ck_Chunks pk)) - 1) 0 0 (ck_Chunks pk);
  _ ← check (negb (next =? provingKeySize)) "chunk table ends at %d, proving key size is %d";
  root ← chunksRootBlake2b256 (ck_Chunks pk);
  check (differs root (ck_ChunksRootBlake2b256 pk)) "chunks_root_blake2b256 mismatch: manifest %s, computed %s".

Record ChunkPinOptions := {
  po_SourcePath : list Z;
  po_ChunkSize : Z;
  po_PathPrefix : list Z;
  po_WriteFiles : bool }.

(** [fmt.Sprintf("%s%04d", prefix, n)] for [n] not negative. *)
Definition pad4 (n : Z) : list Z := replicate (4 - length (Itoa n)) 48 ++ Itoa n.
Definition chunk_name (prefix : list Z) (n : Z) : list Z := prefix ++ pad4 n.

Section build.
Context `{XCryptoBlake2b} (opts : ChunkPinOptions).

Definition chunk_pin (index offset : Z) (raw : list Z) : ChunkPin := {|
  ch_Index := index;
  ch_Offset := offset;
  ch_Size := Z.of_nat (length raw);
  ch_Path := chunk_name (po_PathPrefix opts) index;
  ch_SHA256 := SHA256 (DigestBytes raw);
  ch_Blake2b256 := Blake2b256 (DigestBytes raw) |}.

(** The loop, with what is left of the file: the chunks so far, with the files written. *)
Fixpoint chunk_loop (fuel : nat) (rest : list Z) (index offset : Z) (out : directory) : list ChunkPin * directory :=
  match fuel with
  | O => ([], out)
  | S fuel =>
      let raw := take (Z.to_nat (po_ChunkSize opts)) rest in
      let n := Z.of_nat (length raw) in
      if n =? 0 then ([], out) else
      let pin := chunk_pin index offset raw in
      let out := if po_WriteFiles opts then <[ch_Path pin := raw]> out else out in
      if n <? po_ChunkSize opts then ([pin], out) else
      let '(pins, out) := chunk_loop fuel (drop (Z.to_nat (po_ChunkSize opts)) rest) (index + 1) (i64 (offset + n)) out in
      (pin :: pins, out)
  end.
End build.

(** [src] holds the file to cut, [out] is the directory written to. *)
Definition BuildChunkPins `{XCryptoBlake2b} (opts : ChunkPinOptions) (src out : directory)
    : result go_error (list ChunkPin * list Z * directory) :=
  _ ← check (bool_decide (po_SourcePath opts = [])) "source path is required";
  _ ← check (po_ChunkSize opts <=? 0) "chunk size must be positive";
  let opts := if decide (po_PathPrefix opts = []) then
    {| po_SourcePath := po_SourcePath opts; po_ChunkSize := po_ChunkSize opts;
       po_PathPrefix := str "ownership.pk.part"; po_WriteFiles := po_WriteFiles opts |} else opts in
  _ ← check (2 ^ 63 - 1 <? po_ChunkSize opts) "chunk size %d exceeds maximum buffer size";
  content ← within "open proving key %s" (read_file src (po_SourcePath opts));
  let '(chunks, out) := chunk_loop opts (S (length content)) content 0 0 out in
  root ← chunksRootBlake2b256 chunks;
  Ok (chunks, root, out).

(** ** The index of the sections *)

Definition section_json (sec : PKSection) : json := JObj
  [ (str "name", JStr (sec_Name sec));
    (str "offset", JNum (sec_Offset sec));
    (str "len", JNum (sec_Len sec));
    (str "elem_size", JNum (sec_ElemSize sec)) ].

(** [manifestIndexDigestBody] *)
Definition index_body (schema : list Z) (fileSize : Z) (secs : list PKSection) : json := JObj
  [ (str "schema", JStr schema);
    (str "file_size", JNum fileSize);
    (str "sections", JArr (section_json <$> secs)) ].

Definition digestCanonicalJSON `{XCryptoBlake2b} (value : json) : FileDigest := DigestBytes (marshal value).

(** [sections[i].Name < sections[j].Name] sorts so that no later name is smaller. *)
Definition section_le (a b : PKSection) : Prop := string_ltb (sec_Name b) (sec_Name a) = false.
#[export] Instance section_le_dec : RelDecision section_le.
Proof. unfold section_le. solve_decision. Defined.

Definition ManifestIndexFromPKIndex `{XCryptoBlake2b, MapOrder} (idx : PKIndex) : result go_error ManifestProvingKeyIndex :=
  _ ← ValidatePKIndex idx;
  let secs := merge_sort section_le (map_order (map_to_list (ix_Sections idx))).*2 in
  let digest := digestCanonicalJSON (index_body ProvingKeyIndexSchema (ix_FileSize idx) secs) in
  Ok {| mi_Schema := ProvingKeyIndexSchema; mi_FileSize := ix_FileSize idx; mi_SHA256 := SHA256 digest;
        mi_Blake2b256 := Blake2b256 digest; mi_Sections := secs |}.

Definition validateManifestIndex `{XCryptoBlake2b, MapOrder} (idx : ManifestProvingKeyIndex) (provingKeySize : Z) : checked :=
  _ ← check (differs (mi_Schema idx) ProvingKeyIndexSchema) "proving key index schema %q, want %q";
  _ ← check (negb (mi_FileSize idx =? provingKeySize)) "proving key index file_size %d, proving key size %d";
  let secs := foldl (λ secs sec, <[sec_Name sec := sec]> secs) (∅ : sections) (mi_Sections idx) in
  _ ← ValidatePKIndex {| ix_Sections := secs; ix_DomainCardinality := 0; ix_NbWires := 0; ix_NbInfinityA := 0;
                         ix_NbInfinityB := 0; ix_NbCommitmentKeys := 0; ix_FileSize := mi_FileSize idx |};
  let digest := digestCanonicalJSON (index_body (mi_Schema idx) (mi_FileSize idx) (mi_Sections idx)) in
  _ ← check (differs (SHA256 digest) (mi_SHA256 idx)) "proving key index sha256 mismatch: manifest %s, computed %s";
  check (differs (Blake2b256 digest) (mi_Blake2b256 idx)) "proving key index blake2b256 mismatch: manifest %s, computed %s".

(** ** Assets and transport *)

Definition validateAssetPin (pin : AssetPin) : checked :=
  _ ← within "asset %s path" (safeRelativePath (ap_Path pin));
  _ ← check (ap_Size pin <=? 0) "asset %s size must be positive";
  _ ← within "asset %s sha256" (validateDigest (str "sha256") (ap_SHA256 pin));
  _ ← within "asset %s blake2b256" (validateDigest (str "blake2b256") (ap_Blake2b256 pin));
  match ap_Compressed pin with
  | None => Ok tt
  | Some c =>
      _ ← check (differs (cz_Encoding c) (str "zstd")) "asset %s compressed encoding %q is not supported";
      _ ← within "asset %s compressed path" (safeRelativePath (cz_Path c));
      _ ← check (bool_decide (cz_Path c = ap_Path pin)) "asset %s compressed path must differ from the identity path %q";
      _ ← check (cz_Size c <=? 0) "asset %s compressed size must be positive";
      _ ← check (ap_Size pin <=? cz_Size c) "asset %s compressed size %d is not smaller than identity size %d";
      _ ← within "asset %s compressed sha256" (validateDigest (str "sha256") (cz_SHA256 c));
      within "asset %s compressed blake2b256" (validateDigest (str "blake2b256") (cz_Blake2b256 c))
  end.

Definition validateTransport `{URLParser} (t : ChunkTransport) : checked :=
  _ ← check (differs (ct_ContentEncoding t) (str "identity")) "transport content_encoding %q, want identity";
  if decide (ct_BaseURL t = []) then Ok tt else
  match url_Parse (ct_BaseURL t) with
  | None => Err (Fail "transport base_url must be an absolute URL")
  | Some u =>
      _ ← check (bool_decide (url_Scheme u = []) || bool_decide (url_Host u = []))
            "transport base_url must be an absolute URL";
      check (ct_RequiresHTTPS t && differs (url_Scheme u) (str "https") &&
             differs (url_Hostname u) (str "127.0.0.1") && differs (url_Hostname u) (str "localhost"))
        "transport base_url must use https outside loopback"
  end.

(** ** The manifest *)

Section manifest.
Context `{XCryptoBlake2b, MapOrder, URLParser}.

Definition validate_own (m : ChunkManifest) : checked :=
  _ ← check (differs (cm_Schema m) ChunkManifestSchema) "chunk manifest schema %q, want %q";
  _ ← check (negb (RFC3339_parses (cm_GeneratedAt m))) "generated_at must be RFC3339";
  _ ← check (blank (cm_SignatureKeyID m)) "signature_key_id is required";
  _ ← validateTransport (cm_Transport m);
  _ ← validateChunks (cm_ProvingKey m) (cc_ProvingKeySize (cm_Coherence m));
  _ ← validateManifestIndex (cm_ProvingKeyIndex m) (cc_ProvingKeySize (cm_Coherence m));
  each (map_order (map_to_list (cm_Assets m))) (λ '(_, pin), validateAssetPin pin).

Definition validate_key (m : ChunkManifest) (manifest : option KeyManifest) : checked :=
  match manifest with
  | None => Ok tt
  | Some manifest =>
      _ ← validateAgainstKeyManifest m manifest;
      ValidateKeyManifestAssetDigests (Some manifest) (asset_digest (cm_Assets m) "ownership.vk")
        (asset_digest (cm_Assets m) "ownership-destination.ccs")
  end.

Definition validate_key_digest (c : ChunkCoherence) (d : FileDigest) : checked :=
  if negb (Size d =? 0) || differs (SHA256 d) [] || differs (Blake2b256 d) [] then
    _ ← check (differs (cc_KeyManifestSHA256 c) (SHA256 d)) "key manifest sha256 mismatch: manifest %s, expected %s";
    check (differs (cc_KeyManifestBlake2b256 c) (Blake2b256 d)) "key manifest blake2b256 mismatch: manifest %s, expected %s"
  else Ok tt.

Definition validate_deployment (c : ChunkCoherence) (deployment : option ReclaimDeploymentManifest) : checked :=
  match deployment with
  | None => Ok tt
  | Some d =>
      _ ← check (differs (cc_DeploymentID c) (rd_DeploymentID d)) "deployment id mismatch: manifest %q, expected %q";
      _ ← check (differs (cc_DeploymentSourceCommit c) (rd_SourceCommit d))
            "deployment source commit mismatch: manifest %q, expected %q";
      each [(cc_MPCCeremonyID c, rd_MPCCeremonyID d); (cc_MPCCandidateID c, rd_MPCCandidateID d);
            (cc_ProductionDecisionID c, rd_ProductionDecisionID d); (cc_MPCReleaseID c, rd_MPCReleaseID d);
            (cc_ReleaseManifestSHA256 c, rd_ReleaseManifestSHA256 d)] (λ '(got, want),
        check (differs got want) "%s mismatch: manifest %q, expected %q")
  end.

Definition ValidateChunkManifest (m : ChunkManifest) (expected : ChunkManifestExpectations) : checked :=
  _ ← validate_own m;
  _ ← validate_key m (ce_KeyManifest expected);
  _ ← validate_key_digest (cm_Coherence m) (ce_KeyManifestDigest expected);
  _ ← validate_deployment (cm_Coherence m) (ce_Deployment expected);
  _ ← check (differs (ce_CardanoVKFormat expected) [] &&
             differs (cc_CardanoVKFormat (cm_Coherence m)) (ce_CardanoVKFormat expected))
        "cardano vk format mismatch: manifest %q, expected %q";
  check (differs (ce_CardanoVKBlake2b256 expected) [] &&
         differs (cc_CardanoVKBlake2b256 (cm_Coherence m)) (ce_CardanoVKBlake2b256 expected))
    "cardano vk blake2b256 mismatch: manifest %s, expected %s".

Definition verify_chunk (dir : directory) (chunk : ChunkPin) : checked :=
  digest ← DigestFile dir (ch_Path chunk);
  _ ← check (negb (Size digest =? ch_Size chunk)) "chunk %d size mismatch: manifest %d, file %d";
  _ ← check (differs (SHA256 digest) (ch_SHA256 chunk)) "chunk %d sha256 mismatch: manifest %s, file %s";
  check (differs (Blake2b256 digest) (ch_Blake2b256 chunk)) "chunk %d blake2b256 mismatch: manifest %s, file %s".

Definition VerifyChunkFiles (m : ChunkManifest) (dir : directory) : checked :=
  _ ← ValidateChunkManifest m no_expectations;
  each (ck_Chunks (cm_ProvingKey m)) (verify_chunk dir).

Definition coherence_of (opts : ChunkManifestOptions) (k : KeyManifest) (d : ReclaimDeploymentManifest) : ChunkCoherence := {|
  cc_KeyManifestSHA256 := SHA256 (co_KeyManifestDigest opts);
  cc_KeyManifestBlake2b256 := Blake2b256 (co_KeyManifestDigest opts);
  cc_KeyVersion := km_KeyVersion k;
  cc_CircuitID := km_CircuitID k;
  cc_VKHash := km_VKHash k;
  cc_ProvingKeySize := km_ProvingKeySize k;
  cc_ProvingKeySHA256 := km_ProvingKeySHA256 k;
  cc_ProvingKeyBlake2b256 := km_ProvingKeyBlake2b256 k;
  cc_VerifyingKeySHA256 := km_VerifyingKeySHA256 k;
  cc_VerifyingKeySize := km_VerifyingKeySize k;
  cc_ConstraintSystemHash := km_ConstraintSystemHash k;
  cc_SetupTranscriptHash := km_SetupTranscriptHash k;
  cc_CircuitSourceCommit := km_CircuitSourceCommit k;
  cc_GnarkVersion := km_GnarkVersion k;
  cc_ProofToolVersion := km_ProofToolVersion k;
  cc_CardanoVKFormat := co_CardanoVKFormat opts;
  cc_CardanoVKBlake2b256 := co_CardanoVKBlake2b256 opts;
  cc_MPCCeremonyID := rd_MPCCeremonyID d;
  cc_MPCCandidateID := rd_MPCCandidateID d;
  cc_ProductionDecisionID := rd_ProductionDecisionID d;
  cc_MPCReleaseID := rd_MPCReleaseID d;
  cc_ReleaseManifestSHA256 := rd_ReleaseManifestSHA256 d;
  cc_DeploymentID := rd_DeploymentID d;
  cc_DeploymentSourceCommit := rd_SourceCommit d |}.

(** [now] is [time.Now().UTC()]. *)
Definition GenerateChunkManifest (opts : ChunkManifestOptions) (now : civil) (src out : directory)
    : result go_error (ChunkManifest * directory) :=
  match co_KeyManifest opts, co_Deployment opts with
  | None, _ => Err (Fail "key manifest is required")
  | _, None => Err (Fail "deployment manifest is required")
  | Some key, Some deployment =>
      _ ← check (bool_decide (co_ProvingKeyPath opts = [])) "proving key path is required";
      let pkName := if decide (co_ProvingKeyName opts = []) then str "ownership.pk" else co_ProvingKeyName opts in
      _ ← check (co_ChunkSize opts <=? 0) "chunk size must be positive";
      let generatedAt := if time_Equal (civil_Time (co_GeneratedAt opts)) zero_Time then now else co_GeneratedAt opts in
      _ ← check (blank (co_SignatureKeyID opts)) "signature key id is required";
      pkDigest ← DigestFile src (co_ProvingKeyPath opts);
      _ ← checkKeyManifestPK key pkDigest;
      _ ← ValidateReclaimDeployment (Some deployment) (Some key) (co_CardanoVKBlake2b256 opts);
      _ ← validateMainnetReleaseManifestDigest (Some deployment) (co_KeyManifestDigest opts);
      _ ← ValidateKeyManifestAssetDigests (Some key) (asset_digest (co_Assets opts) "ownership.vk")
            (asset_digest (co_Assets opts) "ownership-destination.ccs");
      content ← read_file src (co_ProvingKeyPath opts);
      idx ← BuildPKIndex content;
      _ ← check (negb (ix_FileSize idx =? Size pkDigest)) "index file size %d, proving key size %d";
      manifestIndex ← ManifestIndexFromPKIndex idx;
      '(chunks, root, out) ← BuildChunkPins {|
        po_SourcePath := co_ProvingKeyPath opts;
        po_ChunkSize := co_ChunkSize opts;
        po_PathPrefix := TrimSuffix pkName (str ".pk") ++ str ".pk.part";
        po_WriteFiles := differs (co_ChunkOutDir opts) [] |} src out;
      Ok ({| cm_Schema := ChunkManifestSchema;
             cm_Release := co_Release opts;
             cm_Profile := co_Profile opts;
             cm_GeneratedAt := format_RFC3339 generatedAt;
             cm_SignatureKeyID := co_SignatureKeyID opts;
             cm_Coherence := coherence_of opts key deployment;
             cm_Transport := {| ct_BaseURL := co_BaseURL opts; ct_ContentEncoding := str "identity";
                                ct_RequiresHTTPS := true; ct_SupportsRange := true |};
             cm_ProvingKey := {| ck_Path := pkName; ck_ChunkSize := co_ChunkSize opts;
                                 ck_ChunksRootBlake2b256 := root; ck_Chunks := chunks |};
             cm_ProvingKeyIndex := manifestIndex;
             cm_Assets := co_Assets opts |}, out)
  end.
End manifest.
