(* ===== verification/ChunkManifestCorrect.v ===== *)
(** * Chunks verify exactly when they are the key

    What [safeRelativePath] accepts; the table [BuildChunkPins] writes; the manifest
    [GenerateChunkManifest] writes is valid and its chunks verify; the root of a table
    pins the key. *)
From stdpp Require Import strings gmap sorting.
From S2P Require Import Prelude.
From S2P Require Import Gnark.
From S2P Require Import Blake2bSpec.
From S2P Require Import GoText.
From S2P Require Import GoError.
From S2P Require Import Sha256.
From S2P Require Import GoTime.
From S2P Require Import GoJson.
From S2P Require Import Ownership.
From S2P Require Import Ranges.
From S2P Require Import PkIndex.
From S2P Require Import PkIndexCorrect.
From S2P Require Import Artifact.
From S2P Require Import ChunkManifest.

(** ** Paths *)

Abbreviation slash := 47.

(** An element of a path that names a file or a directory. *)
Definition proper (e : list Z) : Prop := e ≠ [] ∧ e ≠ str "." ∧ e ≠ str ".." ∧ slash ∉ e.

Lemma split_on_cons sep s : ∃ e es, split_on sep s = e :: es.
Proof.
  induction s as [|c s (e & es & IH)]; cbn; [by eexists _, _|].
  destruct (c =? sep); [by eexists _, _|]. rewrite IH. by eexists _, _.
Qed.

Lemma Join_cons_cons e e' es sep : Join (e :: e' :: es) sep = e ++ sep ++ Join (e' :: es) sep.
Proof. done. Qed.

Lemma Join_split_on s : Join (split_on slash s) (str "/") = s.
Proof.
  induction s as [|c s IH]; [done|]. cbn [split_on]. destruct (split_on_cons slash s) as (e & es & E).
  rewrite E in IH |- *. destruct (Z.eqb_spec c slash) as [->|Hc].
  - by rewrite Join_cons_cons, IH.
  - destruct es as [|e' es]; [by cbn in IH |- *; rewrite IH|]. rewrite Join_cons_cons in IH |- *. by rewrite <- IH.
Qed.

Lemma split_on_none sep e : sep ∉ e → split_on sep e = [e].
Proof.
  induction e as [|c e IH]; cbn [split_on]; intros He; [done|].
  apply not_elem_of_cons in He as [Hc He]. rewrite (proj2 (Z.eqb_neq c sep)) by congruence. by rewrite IH.
Qed.

Lemma split_on_sep sep a s : split_on sep (a ++ sep :: s) = split_on sep a ++ split_on sep s.
Proof.
  induction a as [|c a IH]; cbn [app split_on]; [by rewrite Z.eqb_refl|].
  rewrite IH. destruct (split_on_cons sep a) as (e & es & ->). by destruct (c =? sep).
Qed.

Lemma split_on_app sep e s : sep ∉ e → split_on sep (e ++ sep :: s) = e :: split_on sep s.
Proof. intros He. by rewrite split_on_sep, split_on_none. Qed.

Lemma split_on_free sep s : Forall (λ e, sep ∉ e) (split_on sep s).
Proof.
  induction s as [|c s IH]; cbn [split_on]; [repeat constructor; apply not_elem_of_nil|].
  destruct (Z.eqb_spec c sep) as [->|Hc]; [constructor; [apply not_elem_of_nil|done]|].
  destruct (split_on_cons sep s) as (e & es & E). rewrite E in IH |- *. apply Forall_cons in IH as [He Hes].
  constructor; [|done]. apply not_elem_of_cons. split; congruence.
Qed.

Lemma split_on_Join es : Forall (λ e, slash ∉ e) es → es ≠ [] → split_on slash (Join es (str "/")) = es.
Proof.
  induction es as [|e es IH]; [done|]. intros [He Hes]%Forall_cons _.
  destruct es as [|e' es]; [by apply split_on_none|]. rewrite Join_cons_cons.
  change (e ++ str "/" ++ Join (e' :: es) (str "/")) with (e ++ slash :: Join (e' :: es) (str "/")).
  rewrite split_on_app by done. f_equal. by apply IH.
Qed.

(** What is left on the stack: proper elements, above some [..]. *)
Definition kept (stack : list (list Z)) : Prop :=
  ∃ es k, stack = es ++ replicate k (str "..") ∧ Forall proper es.

Lemma clean_step_kept stack e : slash ∉ e → kept stack → kept (clean_step false stack e).
Proof.
  intros He (es & k & -> & Hes). unfold clean_step. case_bool_decide as H1; [by exists es, k|].
  case_bool_decide as H2; [by exists es, k|]. cbn [orb]. case_bool_decide as H3; [subst e|].
  - destruct Hes as [|x es (Hx1 & Hx2 & Hx3 & Hx4) Hes]; cbn [app].
    + destruct k as [|k]; cbn [replicate]; [by exists [], 1%nat|].
      rewrite bool_decide_eq_true_2 by done. by exists [], (S (S k)).
    + rewrite bool_decide_eq_false_2 by done. by exists es, k.
  - exists (e :: es), k. split; [done|]. by constructor.
Qed.

Lemma clean_kept es : Forall (λ e, slash ∉ e) es → ∀ stack, kept stack → kept (foldl (clean_step false) stack es).
Proof. induction 1 as [|e es He _ IH]; intros stack Hs; [done|]. cbn. by apply IH, clean_step_kept. Qed.

Lemma clean_proper es : Forall proper es → ∀ stack, foldl (clean_step false) stack es = rev es ++ stack.
Proof.
  induction 1 as [|e es (H1 & H2 & H3 & H4) _ IH]; intros stack; [done|]. cbn [foldl rev].
  rewrite IH, <- app_assoc. unfold clean_step. by rewrite !bool_decide_eq_false_2.
Qed.

(** No backslash, query, fragment or scheme. *)
Definition plain (s : list Z) : Prop :=
  92 ∉ s ∧ 63 ∉ s ∧ 35 ∉ s ∧ ∀ a b : list Z, s ≠ a ++ str "://" ++ b.

Lemma not_plain_tests s : HasPrefix s (str "/") || Contains s [92] || Contains s (str "://") ||
  ContainsAny s (str "?#") = false ↔ head s ≠ Some slash ∧ plain s.
Proof.
  rewrite !orb_false_iff, HasPrefix_false, !Contains_false, elem_of_Contains, ContainsAny_false.
  unfold plain. split.
  - intros (((H1 & H2) & H3) & H4). split_and!; try done; [|apply H4..].
    + intros Hh. destruct s as [|c s]; [done|]. injection Hh as ->. by apply (H1 s).
    + by left.
    + right. by left.
  - intros (H1 & H2 & H3 & H4 & H5). split_and!; try done.
    + intros t ->. by apply H1.
    + intros c [->|[->|[]%elem_of_nil]%elem_of_cons]%elem_of_cons; done.
Qed.

Lemma kept_split stack : kept stack → stack ≠ [] → Forall (λ e, slash ∉ e) stack.
Proof.
  intros (es & k & -> & Hes) _. apply Forall_app. split.
  - eapply Forall_impl; [exact Hes|]. by intros e (? & ? & ? & ?).
  - apply Forall_replicate. intros H. by repeat apply elem_of_cons in H as [[=]|H]; apply elem_of_nil in H.
Qed.

Lemma proper_clean es : Forall proper es → es ≠ [] →
  path_Clean (Join es (str "/")) = Join es (str "/") ∧ Join es (str "/") ≠ [] ∧
  Join es (str "/") ≠ str "." ∧ head (Join es (str "/")) ≠ Some slash.
Proof.
  intros Hes Hne. destruct es as [|e es]; [done|]. assert (Hes' := Hes).
  apply Forall_cons in Hes' as [(He & Hd & Hdd & Hs) _].
  assert (head (Join (e :: es) (str "/")) ≠ Some slash ∧ Join (e :: es) (str "/") ≠ []) as [Hh Hn].
  { destruct e as [|c e]; [done|]. apply not_elem_of_cons in Hs as [Hc _].
    destruct es; cbn; (split; [congruence|done]). }
  split_and!; [|done| |done].
  - unfold path_Clean. rewrite bool_decide_eq_false_2 by done.
    assert (Forall (λ e, slash ∉ e) (e :: es)) as Hf by (eapply Forall_impl; [exact Hes|by intros ? (? & ? & ? & ?)]).
    rewrite split_on_Join, clean_proper, app_nil_r, rev_involutive by done.
    by rewrite bool_decide_eq_false_2.
  - intros E. destruct es as [|e' es]; [done|]. rewrite Join_cons_cons in E.
    destruct e as [|c e]; [done|]. injection E as -> E. by destruct e.
Qed.

Lemma clean_fixed s : path_Clean s = s → head s ≠ Some slash → s ≠ str "." →
  s = str ".." ∨ (∃ t, s = str "../" ++ t) ∨ Forall proper (split_on slash s).
Proof.
  intros Hc Hh Hd. unfold path_Clean in Hc. rewrite bool_decide_eq_false_2 in Hc by done.
  destruct (clean_kept (split_on slash s) (split_on_free slash s) []) as (es & k & E & Hes).
  { by exists [], 0%nat. }
  rewrite E in Hc. case_bool_decide as Ho; [congruence|].
  destruct k as [|k].
  - rewrite app_nil_r in Hc, Ho. right. right. rewrite <- Hc. apply Forall_rev in Hes.
    rewrite split_on_Join; [done| |by intros E'; rewrite E' in Ho].
    eapply Forall_impl; [exact Hes|by intros ? (? & ? & ? & ?)].
  - rewrite replicate_S_end, app_assoc, rev_app_distr in Hc. cbn [rev app] in Hc.
    destruct (rev (es ++ replicate k (str ".."))) as [|e l]; [by left|].
    right. left. rewrite Join_cons_cons in Hc. eexists. rewrite <- Hc. reflexivity.
Qed.

Lemma safe_iff value :
  safeRelativePath value = Ok tt ↔
  plain value ∧ (value = str ".." ∨ Forall proper (split_on slash value)).
Proof.
  unfold safeRelativePath. cbv zeta. autorewrite with checks. rewrite not_plain_tests, !orb_false_iff.
  rewrite HasPrefix_false, Contains_false, !bool_decide_eq_false, differs_false. split.
  - intros (Hne & (Hh & Hp) & ((Hd & Hc) & Hup) & _). rewrite Hc in Hd, Hup. split; [done|].
    destruct (clean_fixed value Hc Hh Hd) as [H|[[t H]|H]]; [by left| |by right]. by apply Hup in H.
  - intros (Hp & [->|Hv]).
    { change (path_Clean (str "..")) with (str ".."). split_and!; try done.
      all: intros * E; apply (f_equal length) in E; rewrite !length_app in E; cbn in E; lia. }
    destruct (proper_clean _ Hv) as (Hc & Hn & Hd & Hh).
    { by destruct (split_on_cons slash value) as (e & es & ->). }
    rewrite Join_split_on in Hc, Hn, Hd, Hh. rewrite Hc.
    assert (str ".." ∉ split_on slash value) as Hno.
    { intros Hin. eapply Forall_forall in Hv as (_ & _ & H & _); [|exact Hin]. done. }
    split_and!; try done.
    + intros t ->. change (str "../" ++ t) with (str ".." ++ slash :: t) in Hno.
      rewrite split_on_sep in Hno. apply Hno. by left.
    + intros a b ->. change (a ++ str "/../" ++ b) with (a ++ slash :: str ".." ++ slash :: b) in Hno.
      rewrite !split_on_sep in Hno. apply Hno, elem_of_app. right. by left.
Qed.

(** A path is accepted exactly when no character of it means something to a URL or to
    Windows, and each of its elements is a name, neither empty nor [.] nor [..]; or when
    it is [..] itself, which leads out of the directory. *)
Theorem safeRelativePath_exact value :
  safeRelativePath value = Ok tt ↔
  plain value ∧ (value = str ".." ∨ Forall proper (split_on slash value)).
Proof. exact (safe_iff value). Qed.

(** A safe path stays safe when characters that mean nothing are added at its end. *)
Definition tame (t : list Z) : Prop := Forall (λ c, c ∉ [slash; 92; 63; 35]) t ∧ (3 <= length t)%nat.

Lemma tame_free t c : tame t → c ∈ [slash; 92; 63; 35] → c ∉ t.
Proof. intros [Ht _] Hc Hin. eapply Forall_forall in Ht; [|exact Hin]. by apply Ht. Qed.

Lemma split_on_extend s : ∃ es e, split_on slash s = es ++ [e] ∧
  ∀ t, slash ∉ t → split_on slash (s ++ t) = es ++ [e ++ t].
Proof.
  induction s as [|c s (es & e & E & Ht)]; [exists [], []; split; [done|]; intros t; apply split_on_none|].
  cbn [app split_on]. destruct (c =? slash).
  - exists ([] :: es), e. rewrite E. split; [done|]. intros t Hf. by rewrite (Ht t Hf).
  - destruct es as [|e' es].
    + exists [], (c :: e). rewrite E. split; [done|]. intros t Hf. by rewrite (Ht t Hf).
    + exists ((c :: e') :: es), e. rewrite E. split; [done|]. intros t Hf. by rewrite (Ht t Hf).
Qed.

Lemma plain_extend s t : plain s → tame t → plain (s ++ t).
Proof.
  intros (H1 & H2 & H3 & H4) Ht. split_and!.
  1-3: rewrite not_elem_of_app; split; [done|]; apply tame_free; [done|set_solver].
  intros a b E. rewrite app_assoc in E. apply app_eq_app in E as (k & [[-> ->]|[E ->]]).
  - apply (H4 a k). by rewrite app_assoc.
  - destruct k as [|x k _] using rev_ind.
    { rewrite app_nil_r in E. apply (H4 a []). by rewrite app_nil_r. }
    change (str "://") with ([58; slash] ++ [slash]) in E. rewrite !app_assoc in E.
    apply app_inj_tail in E as [_ <-]. apply (tame_free _ slash Ht); [by left|].
    rewrite !elem_of_app. left. right. by left.
Qed.

Lemma safe_extend s t : safeRelativePath s = Ok tt → tame t → safeRelativePath (s ++ t) = Ok tt.
Proof.
  intros (Hp & Hs)%safe_iff Ht. apply safe_iff. split; [by apply plain_extend|]. right.
  assert (slash ∉ t) as Hf by (apply tame_free; [done|by left]).
  assert (∀ e, slash ∉ e → proper (e ++ t)) as Hlong.
  { destruct Ht as [_ Hl]. intros e He. split_and!; [| | |by apply not_elem_of_app];
      intros E; apply (f_equal length) in E; rewrite length_app in E; cbn in E; lia. }
  destruct (split_on_extend s) as (es & e & E & Hx). pose proof (split_on_free slash s) as Hfree.
  rewrite (Hx t Hf). rewrite E in Hfree, Hs. apply Forall_app in Hfree as [_ [He _]%Forall_cons].
  destruct Hs as [->|[Hs _]%Forall_app].
  - change (split_on slash (str "..")) with ([] ++ [str ".."]) in E. apply app_inj_tail in E as [<- <-].
    repeat constructor; by apply Hlong.
  - apply Forall_app. split; [done|]. repeat constructor; by apply Hlong.
Qed.

(** ** Numbered names *)

Lemma Itoa_digits n : 0 <= n → Forall (λ c, 48 <= c <= 57) (Itoa n).
Proof.
  intros Hn. unfold Itoa, Text. rewrite (proj2 (Z.ltb_ge n 0)) by lia. unfold numeral.
  destruct (numeral_digits_spec 10 ltac:(lia) _ _ (log2_fuel n Hn)) as (_ & Hd & _).
  apply Forall_fmap. eapply Forall_impl; [exact Hd|]. unfold is_digit, digit_char. intros d Hdd. cbn in Hdd |- *.
  rewrite (proj2 (Z.ltb_lt d 10)) by lia. lia.
Qed.

Lemma pad4_digits n : 0 <= n → Forall (λ c, 48 <= c <= 57) (pad4 n).
Proof.
  intros Hn. unfold pad4. apply Forall_app. split; [|by apply Itoa_digits]. apply Forall_replicate. lia.
Qed.

Lemma pad4_tame s n : tame s → 0 <= n → tame (s ++ pad4 n).
Proof.
  intros [Hs Hl] Hn. split; [|rewrite length_app; lia]. apply Forall_app. split; [done|].
  eapply Forall_impl; [by apply pad4_digits|]. intros c Hc Hin.
  repeat apply elem_of_cons in Hin as [->|Hin]; [lia..|by apply elem_of_nil in Hin].
Qed.

Lemma parse_pad4 n : 0 <= n → parse_numeral 10 (pad4 n) = Some n.
Proof.
  intros Hn. pose proof (numeral_parses 10 ltac:(lia) n Hn) as Hp.
  unfold pad4, Itoa, Text. rewrite (proj2 (Z.ltb_ge n 0)) by lia. revert Hp.
  generalize (4 - length (numeral 10 n))%nat as k. unfold parse_numeral.
  destruct (numeral 10 n) as [|c s] eqn:E; [done|]. intros k.
  destruct (mapM (char_digit 10) (c :: s)) as [ds|] eqn:Em; [|done]. cbn [mbind option_bind]. intros [= Hv].
  assert (mapM (char_digit 10) (replicate k 48 ++ c :: s) = Some (replicate k 0 ++ ds)) as Hm.
  { induction k as [|k IH]; [done|]. cbn [replicate app mapM]. cbn [mbind option_bind char_digit]. by rewrite IH. }
  destruct (replicate k 48 ++ c :: s) as [|x l] eqn:El; [by destruct k|]. rewrite Hm. cbn [mbind option_bind].
  f_equal. rewrite rev_app_distr, digits_val_app, Hv. enough (digits_val 10 (rev (replicate k 0)) = 0) as -> by lia.
  clear. induction k as [|k IH]; [done|]. rewrite replicate_S_end, rev_app_distr. cbn [rev app digits_val]. lia.
Qed.

Lemma chunk_name_inj prefix n m : 0 <= n → 0 <= m → chunk_name prefix n = chunk_name prefix m → n = m.
Proof.
  intros Hn Hm He%app_inv_head. apply (f_equal (parse_numeral 10)) in He.
  rewrite !parse_pad4 in He by done. by injection He.
Qed.

(** ** Digests of files *)

Section digests.
Context `{XCryptoBlake2b}.

Lemma decode_digest prefix bs : Forall is_byte bs →
  decodePrefixedDigest prefix (prefix ++ str ":" ++ hex_EncodeToString bs) = Ok bs.
Proof.
  intros Hb. unfold decodePrefixedDigest. rewrite app_assoc.
  rewrite (proj2 (HasPrefix_iff _ _)) by (by eexists). cbn [negb check guard_err mbind result_bind].
  by rewrite TrimPrefix_app, hex_round_trip.
Qed.

Lemma digest_valid prefix bs : Forall is_byte bs → length bs = 32%nat →
  validateDigest prefix (prefix ++ str ":" ++ hex_EncodeToString bs) = Ok tt.
Proof.
  intros Hb Hl. unfold validateDigest. rewrite decode_digest by done. cbn [mbind result_bind].
  by rewrite Hl.
Qed.

Lemma sha256_digest_valid raw : validateDigest (str "sha256") (sha256_string raw) = Ok tt.
Proof. apply (digest_valid (str "sha256") (sha256_Sum256 raw)); [apply sha256_bytes|apply length_sha256]. Qed.

Lemma blake2b_digest_valid raw : Forall is_byte raw →
  validateDigest (str "blake2b256") (blake2b256_string raw) = Ok tt.
Proof. intros Hr. by apply (digest_valid (str "blake2b256") (blake2b_sum 32 raw)); apply blake2b_sum_wf. Qed.

Lemma decode_blake2b_string raw : Forall is_byte raw →
  decodePrefixedDigest (str "blake2b256") (blake2b256_string raw) = Ok (blake2b_sum 32 raw).
Proof. intros Hr. by apply (decode_digest (str "blake2b256") (blake2b_sum 32 raw)), blake2b_sum_wf. Qed.

(** A table of valid digests has a root, the hash of the digests. *)
Lemma chunks_root (chunks : list ChunkPin) raws :
  Forall2 (λ c raw, decodePrefixedDigest (str "blake2b256") (ch_Blake2b256 c) = Ok raw) chunks raws →
  chunksRootBlake2b256 chunks = Ok (blake2b256_string (concat raws)).
Proof.
  intros Hf. unfold chunksRootBlake2b256.
  enough (mapM (λ c, within "chunk %d blake2b256" (decodePrefixedDigest (str "blake2b256") (ch_Blake2b256 c))) chunks = Ok raws)
    as -> by done.
  induction Hf as [|c raw chunks raws Hc _ IH]; [done|]. cbn [mapM]. rewrite Hc. cbn [within map_err mbind result_bind].
  by rewrite IH.
Qed.
End digests.

(** ** Cutting a file *)

(** Every piece has [cs] bytes, the last one at least one. *)
Fixpoint chunked (cs : Z) (pieces : list (list Z)) : Prop :=
  match pieces with
  | [] => True
  | p :: ps => 0 < len p <= cs ∧ (ps ≠ [] → len p = cs) ∧ chunked cs ps
  end.

Section build.
Context `{XCryptoBlake2b} (opts : ChunkPinOptions).
Abbreviation cs := (po_ChunkSize opts).

Fixpoint pins_of (i off : Z) (pieces : list (list Z)) : list ChunkPin :=
  match pieces with
  | [] => []
  | p :: ps => chunk_pin opts i off p :: pins_of (i + 1) (off + len p) ps
  end.

Fixpoint write_all (i : Z) (pieces : list (list Z)) (out : directory) : directory :=
  match pieces with
  | [] => out
  | p :: ps => write_all (i + 1) ps
                 (if po_WriteFiles opts then <[chunk_name (po_PathPrefix opts) i := p]> out else out)
  end.

Lemma chunk_loop_spec fuel : 0 < cs → ∀ rest i off out, (length rest < fuel)%nat → 0 <= off → off + len rest < 2 ^ 63 →
  ∃ pieces, concat pieces = rest ∧ chunked cs pieces ∧
    chunk_loop opts fuel rest i off out = (pins_of i off pieces, write_all i pieces out).
Proof.
  intros Hcs. induction fuel as [|fuel IH]; intros rest i off out Hf Ho Hs; [lia|]. cbn [chunk_loop]. cbv zeta.
  destruct (Z.eqb_spec (len (take (Z.to_nat cs) rest)) 0) as [E|E].
  { assert (rest = []) as -> by (destruct rest; [done|]; rewrite length_take in E; cbn [length] in E; lia).
    by exists []. }
  rewrite length_take in E |- *. destruct (Z.ltb_spec (Z.of_nat (Z.to_nat cs `min` length rest)) cs) as [Hl|Hl].
  - exists [rest]. rewrite take_ge by lia. cbn [concat chunked]. rewrite app_nil_r.
    repeat split; [lia..|done].
  - destruct (IH (drop (Z.to_nat cs) rest) (i + 1) (off + cs)
      (if po_WriteFiles opts then <[chunk_name (po_PathPrefix opts) i := take (Z.to_nat cs) rest]> out else out))
      as (ps & Hc & Hk & He); [rewrite ?length_drop; lia..|].
    exists (take (Z.to_nat cs) rest :: ps). cbn [concat chunked pins_of write_all].
    assert (len (take (Z.to_nat cs) rest) = cs) as Hn by (rewrite length_take; lia).
    rewrite Hn, Hc, take_drop. repeat split; [lia|lia|done|].
    replace (Z.of_nat (Z.to_nat cs `min` length rest)) with cs by lia.
    rewrite i64_small by lia. cbn [ch_Path chunk_pin]. by rewrite He.
Qed.

Lemma pins_root i off pieces : Forall (Forall is_byte) pieces →
  chunksRootBlake2b256 (pins_of i off pieces) = Ok (blake2b256_string (concat (blake2b_sum 32 <$> pieces))).
Proof.
  intros Hb. apply chunks_root. revert i off.
  induction Hb as [|p ps Hp _ IH]; intros i off; cbn [pins_of fmap list_fmap]; constructor; [|apply IH].
  by apply decode_blake2b_string.
Qed.

Hypothesis names_safe : ∀ n, 0 <= n → safeRelativePath (chunk_name (po_PathPrefix opts) n) = Ok tt.

Lemma pins_validate pieces : Forall (Forall is_byte) pieces → chunked cs pieces → ∀ i off,
  0 <= i → 0 <= off → off + len (concat pieces) < 2 ^ 63 →
  validate_table cs (i + len pieces - 1) i off (pins_of i off pieces) = Ok (off + len (concat pieces)).
Proof.
  induction 1 as [|p ps Hp _ IH]; intros Hk i off Hi Ho Hs; cbn [pins_of validate_table].
  { cbn. by rewrite Z.add_0_r. }
  destruct Hk as (Hn & Hfull & Hk). cbn [concat] in Hs. rewrite length_app in Hs.
  cbn [ch_Index ch_Offset ch_Size ch_Path ch_SHA256 ch_Blake2b256 chunk_pin].
  rewrite !Z.eqb_refl. cbn [negb check guard_err mbind result_bind].
  rewrite (proj2 (Z.leb_gt _ _)) by lia. cbn [check guard_err mbind result_bind].
  assert ((i <? i + len (p :: ps) - 1) && negb (len p =? cs) = false) as ->.
  { destruct ps as [|q ps]; [cbn; by rewrite (proj2 (Z.ltb_ge _ _)) by lia|].
    rewrite Hfull by done. by rewrite Z.eqb_refl, andb_false_r. }
  cbn [check guard_err mbind result_bind]. rewrite names_safe by done. cbn [within map_err mbind result_bind].
  cbn [SHA256 Blake2b256 DigestBytes]. rewrite sha256_digest_valid, blake2b_digest_valid by done.
  cbn [within map_err mbind result_bind]. rewrite i64_small by lia.
  replace (i + len (p :: ps) - 1) with (i + 1 + len ps - 1) by (cbn [length]; lia).
  rewrite IH by (done || lia). cbn [concat]. rewrite length_app. f_equal. lia.
Qed.
End build.

Section files.
Context `{XCryptoBlake2b} (opts : ChunkPinOptions) (Hwrite : po_WriteFiles opts = true).

Lemma write_all_other pieces : ∀ i out n, 0 <= i → 0 <= n < i →
  write_all opts i pieces out !! chunk_name (po_PathPrefix opts) n = out !! chunk_name (po_PathPrefix opts) n.
Proof.
  induction pieces as [|p ps IH]; intros i out n Hi Hn; [done|]. cbn [write_all]. rewrite Hwrite, IH by lia.
  apply lookup_insert_ne. intros He%chunk_name_inj; lia.
Qed.

Lemma write_all_lookup pieces : ∀ i off out, 0 <= i →
  Forall2 (λ c p, write_all opts i pieces out !! ch_Path c = Some p ∧ ch_Size c = len p ∧
                  ch_SHA256 c = sha256_string p ∧ ch_Blake2b256 c = blake2b256_string p)
    (pins_of opts i off pieces) pieces.
Proof.
  induction pieces as [|p ps IH]; intros i off out Hi; cbn [pins_of write_all]; constructor.
  - split_and!; [|done..]. cbn [ch_Path chunk_pin]. rewrite write_all_other, Hwrite by lia. apply lookup_insert_eq.
  - apply IH. lia.
Qed.
End files.

(** ** The index in the manifest *)

Lemma insert_all_record (l : list PKSection) secs :
  foldl (λ secs sec, <[sec_Name sec := sec]> secs) secs l = record_sections ((λ s, (s, [])) <$> l) secs.
Proof. unfold record_sections. revert secs. induction l as [|s l IH]; intros secs; [done|]. apply IH. Qed.

Lemma sections_of_map `{MapOrder} (m : sections) : (∀ name s, m !! name = Some s → sec_Name s = name) →
  foldl (λ secs sec, <[sec_Name sec := sec]> secs) ∅ (merge_sort section_le (map_order (map_to_list m)).*2) = m.
Proof.
  intros Hn. set (l := merge_sort section_le _). rewrite insert_all_record.
  assert (l ≡ₚ (map_to_list m).*2) as Hp by (unfold l; rewrite merge_sort_Permutation; by rewrite map_order_perm).
  assert (∀ s, s ∈ l ↔ m !! sec_Name s = Some s) as Hin.
  { intros s. rewrite Hp, list_elem_of_fmap. split.
    - intros ([name s'] & -> & Hs%elem_of_map_to_list). cbn. by rewrite (Hn _ _ Hs).
    - intros Hs. exists (sec_Name s, s). split; [done|]. by apply elem_of_map_to_list. }
  assert (NoDup (sec_Name <$> l)) as Hnd.
  { rewrite Hp, <- list_fmap_compose.
    replace ((sec_Name ∘ snd) <$> map_to_list m) with ((map_to_list m).*1); [apply NoDup_fst_map_to_list|].
    apply list_fmap_ext. intros i [name s] Hs. apply list_elem_of_lookup_2, elem_of_map_to_list in Hs. cbn.
    symmetry. by apply Hn. }
  apply map_eq. intros name. destruct (m !! name) as [s|] eqn:E.
  - pose proof (Hn _ _ E) as <-. apply (record_sections_lookup _ _ s []).
    + by rewrite <- list_fmap_compose.
    + apply list_elem_of_fmap. exists s. split; [done|]. by apply Hin.
  - apply eq_None_not_Some. intros [s Hs]. apply record_sections_inv in Hs as [(p & Hs & Hname)|Hs]; [|done].
    apply list_elem_of_fmap in Hs as (s' & [= -> ->] & Hs). apply Hin in Hs. congruence.
Qed.

(** The names in a valid index are the keys. *)
Lemma valid_index_names `{MapOrder} idx name s : ValidatePKIndex idx = Ok tt → ix_Sections idx !! name = Some s →
  sec_Name s = name.
Proof.
  unfold ValidatePKIndex. autorewrite with checks. intros (_ & _ & Hv) Hs.
  assert ((name, s) ∈ map_order (map_to_list (ix_Sections idx))) as (k & Hk)%list_elem_of_lookup.
  { rewrite map_order_perm. by apply elem_of_map_to_list. }
  apply (proj1 (each_from_Ok _ _ _) Hv) in Hk. unfold validate_section in Hk.
  autorewrite with checks in Hk. destruct Hk as (_ & Hd & _). by apply differs_false.
Qed.

Lemma manifest_index_valid `{XCryptoBlake2b, MapOrder} idx mi :
  ManifestIndexFromPKIndex idx = Ok mi → validateManifestIndex mi (ix_FileSize idx) = Ok tt.
Proof.
  unfold ManifestIndexFromPKIndex. intros ([] & Hv & [= <-])%bind_Ok. unfold validateManifestIndex.
  cbn [mi_Schema mi_FileSize mi_Sections mi_SHA256 mi_Blake2b256]. cbv zeta. autorewrite with checks.
  rewrite sections_of_map by (intros name s; by apply valid_index_names).
  split_and!; tests_out; done.
Qed.

(** ** What is generated verifies *)

Lemma build_pins `{XCryptoBlake2b} opts src out content :
  po_SourcePath opts ≠ [] → 0 < po_ChunkSize opts < 2 ^ 63 → po_PathPrefix opts ≠ [] →
  src !! po_SourcePath opts = Some content → Forall is_byte content → len content < 2 ^ 63 →
  ∃ pieces, concat pieces = content ∧ chunked (po_ChunkSize opts) pieces ∧ Forall (Forall is_byte) pieces ∧
    BuildChunkPins opts src out =
    Ok (pins_of opts 0 0 pieces, blake2b256_string (concat (blake2b_sum 32 <$> pieces)), write_all opts 0 pieces out).
Proof.
  intros Hp Hc Hpre Hs Hb Hl.
  destruct (chunk_loop_spec opts (S (length content)) ltac:(lia) content 0 0 out) as (pieces & Hcat & Hk & He); [lia..|].
  assert (Forall (Forall is_byte) pieces) as Hbs by (by apply Forall_concat; rewrite Hcat).
  exists pieces. split_and!; try done. unfold BuildChunkPins.
  rewrite bool_decide_eq_false_2 by done. cbn [check guard_err mbind result_bind].
  rewrite (proj2 (Z.leb_gt _ _)) by lia. cbn [check guard_err mbind result_bind]. cbv zeta.
  rewrite decide_False by done. rewrite (proj2 (Z.ltb_ge _ _)) by lia. cbn [check guard_err mbind result_bind].
  unfold read_file. rewrite Hs. cbn [within map_err mbind result_bind]. rewrite He.
  rewrite pins_root by done. done.
Qed.

Section table.
Context `{XCryptoBlake2b} (opts : ChunkPinOptions) (pieces : list (list Z)).
Hypothesis pieces_bytes : Forall (Forall is_byte) pieces.
Hypothesis pieces_chunked : chunked (po_ChunkSize opts) pieces.
Hypothesis pieces_size : 0 < len (concat pieces) < 2 ^ 63.
Hypothesis names_safe : ∀ n, 0 <= n → safeRelativePath (chunk_name (po_PathPrefix opts) n) = Ok tt.

Lemma length_pins : ∀ i off, length (pins_of opts i off pieces) = length pieces.
Proof. clear. induction pieces as [|p ps IH]; intros i off; [done|]. cbn [pins_of length]. by rewrite IH. Qed.

Lemma table_valid name : safeRelativePath name = Ok tt → 0 < po_ChunkSize opts →
  validateChunks {| ck_Path := name; ck_ChunkSize := po_ChunkSize opts;
    ck_ChunksRootBlake2b256 := blake2b256_string (concat (blake2b_sum 32 <$> pieces));
    ck_Chunks := pins_of opts 0 0 pieces |} (len (concat pieces)) = Ok tt.
Proof.
  intros Hn Hcs. unfold validateChunks. cbn [ck_Path ck_ChunkSize ck_ChunksRootBlake2b256 ck_Chunks].
  rewrite Hn. cbn [within map_err mbind result_bind].
  rewrite (proj2 (Z.leb_gt _ _)) by lia. cbn [check guard_err mbind result_bind].
  rewrite bool_decide_eq_false_2 by (destruct pieces; [cbn in pieces_size; lia|done]).
  cbn [check guard_err mbind result_bind]. rewrite length_pins.
  pose proof (pins_validate opts names_safe pieces pieces_bytes pieces_chunked 0 0) as Hv.
  rewrite !Z.add_0_l in Hv. rewrite Hv by lia. cbn [mbind result_bind]. rewrite Z.eqb_refl.
  cbn [negb check guard_err mbind result_bind]. rewrite pins_root by done. cbn [mbind result_bind].
  apply check_Ok, differs_false. done.
Qed.

Lemma chunks_verify out : po_WriteFiles opts = true →
  let written := write_all opts 0 pieces out in
  each (pins_of opts 0 0 pieces) (verify_chunk written) = Ok tt ∧
  mapM (read_file written) (ch_Path <$> pins_of opts 0 0 pieces) = Ok pieces.
Proof.
  intros Hw written. pose proof (write_all_lookup opts Hw pieces 0 0 out ltac:(lia)) as Hf. split.
  - apply each_from_Ok. intros k c Hc.
    destruct (Forall2_lookup_l _ _ _ _ _ Hf Hc) as (p & _ & Hp & Hz & Hsha & Hbl).
    unfold verify_chunk, DigestFile, read_file. fold written in Hp. rewrite Hp.
    cbn [within map_err mbind result_bind DigestBytes Size SHA256 Blake2b256].
    rewrite Hz, Hsha, Hbl, Z.eqb_refl. autorewrite with checks. split_and!; [done|by apply differs_false..].
  - fold written in Hf. clearbody written. clear -Hf. induction Hf as [|c p cs ps (Hp & _) _ IH]; [done|].
    assert (read_file written (ch_Path c) = Ok p) as Hr by (unfold read_file; by rewrite Hp).
    rewrite fmap_cons. cbn [mapM]. rewrite Hr. cbn [mbind result_bind]. by rewrite IH.
Qed.
End table.

Lemma key_chunk_names name n : safeRelativePath name = Ok tt → 0 <= n →
  safeRelativePath (chunk_name (TrimSuffix name (str ".pk") ++ str ".pk.part") n) = Ok tt.
Proof.
  assert (∀ t, forallb (λ c, bool_decide (c ∉ [slash; 92; 63; 35])) t = true → (3 <= length t)%nat → tame t) as Htame.
  { intros t Ht Hl. split; [|done]. apply Forall_forall. intros c Hc. rewrite forallb_forall in Ht.
    by apply list_elem_of_In, Ht, bool_decide_eq_true in Hc. }
  intros Hs Hn. unfold chunk_name, TrimSuffix.
  destruct (strip_prefix (rev (str ".pk")) (rev name)) as [s'|] eqn:E.
  - apply strip_prefix_Some, (f_equal (@rev Z)) in E. rewrite rev_app_distr, !rev_involutive in E. subst name.
    change (str ".pk.part") with (str ".pk" ++ str ".part"). rewrite <- !app_assoc, app_assoc.
    apply safe_extend; [done|]. apply pad4_tame; [|done]. by apply Htame; [vm_compute|cbn; lia].
  - rewrite <- app_assoc. apply safe_extend; [done|]. apply pad4_tame; [|done]. by apply Htame; [vm_compute|cbn; lia].
Qed.

Section generate.
Context `{XCryptoBlake2b, MapOrder, URLParser}.

(** [ProvingKeyName], or its default. *)
Definition key_name (opts : ChunkManifestOptions) : list Z :=
  if decide (co_ProvingKeyName opts = []) then str "ownership.pk" else co_ProvingKeyName opts.

Definition key_transport (opts : ChunkManifestOptions) : ChunkTransport :=
  {| ct_BaseURL := co_BaseURL opts; ct_ContentEncoding := str "identity"; ct_RequiresHTTPS := true; ct_SupportsRange := true |}.

(** What the verifier of a release knows of it. *)
Definition expectations_of (opts : ChunkManifestOptions) : ChunkManifestExpectations := {|
  ce_KeyManifest := co_KeyManifest opts; ce_KeyManifestDigest := co_KeyManifestDigest opts;
  ce_Deployment := co_Deployment opts; ce_CardanoVKFormat := co_CardanoVKFormat opts;
  ce_CardanoVKBlake2b256 := co_CardanoVKBlake2b256 opts |}.

(** The options the generator does not check itself. *)
Record options_ok (opts : ChunkManifestOptions) : Prop := {
  ok_chunk_size : co_ChunkSize opts < 2 ^ 63;
  ok_name : safeRelativePath (key_name opts) = Ok tt;
  ok_transport : validateTransport (key_transport opts) = Ok tt;
  ok_assets : map_Forall (λ _ pin, validateAssetPin pin = Ok tt) (co_Assets opts);
  ok_time : valid_civil (co_GeneratedAt opts) = true }.

(** The coherence of a generated manifest is that of its options. *)
Lemma coherence_expected opts m k d : co_KeyManifest opts = Some k → co_Deployment opts = Some d →
  cm_Coherence m = coherence_of opts k d → cm_Assets m = co_Assets opts →
  ValidateKeyManifestAssetDigests (Some k) (asset_digest (co_Assets opts) "ownership.vk")
    (asset_digest (co_Assets opts) "ownership-destination.ccs") = Ok tt →
  validate_own m = Ok tt → ValidateChunkManifest m (expectations_of opts) = Ok tt.
Proof.
  intros Hk Hd Hc Ha Hassets Hown. unfold ValidateChunkManifest, expectations_of. cbn [ce_KeyManifest ce_KeyManifestDigest
    ce_Deployment ce_CardanoVKFormat ce_CardanoVKBlake2b256].
  rewrite Hown, Hk, Hd. cbn [mbind result_bind]. autorewrite with checks. unfold validate_key, validate_key_digest, validate_deployment,
    validateAgainstKeyManifest. rewrite Hc, Ha. split_and!.
  - autorewrite with checks. split; [|done]. cbn [coherence_of cc_KeyVersion cc_CircuitID cc_GnarkVersion cc_VKHash
      cc_ProvingKeySHA256 cc_ProvingKeyBlake2b256 cc_VerifyingKeySHA256 cc_ConstraintSystemHash cc_ProvingKeySize cc_VerifyingKeySize].
    rewrite !Z.eqb_refl, !andb_false_r. split_and!; [|done..]. apply each_from_Ok. intros n [got want] Hn.
    assert (got = want) as ->.
    { repeat (destruct n as [|n]; [by injection Hn as <- <-|]). done. }
    apply check_tt, andb_false_iff. right. by apply differs_false.
  - cbn [coherence_of cc_KeyManifestSHA256 cc_KeyManifestBlake2b256]. destruct (_ || _); [|done].
    autorewrite with checks. split; by apply differs_false.
  - cbn [coherence_of cc_DeploymentID cc_DeploymentSourceCommit cc_MPCCeremonyID cc_MPCCandidateID cc_ProductionDecisionID
      cc_MPCReleaseID cc_ReleaseManifestSHA256]. autorewrite with checks. split_and!; [by apply differs_false..|].
    apply each_from_Ok. intros n [got want] Hn. assert (got = want) as ->.
    { repeat (destruct n as [|n]; [by injection Hn as <- <-|]). done. }
    apply check_tt. by apply differs_false.
  - apply andb_false_iff. right. by apply differs_false.
  - apply andb_false_iff. right. by apply differs_false.
Qed.

Lemma validate_own_enough m : ValidateChunkManifest m no_expectations = validate_own m.
Proof. unfold ValidateChunkManifest. by destruct (validate_own m) as [[]|]. Qed.

(** A generated manifest: the table of the pieces of the key, and the index of the key. *)
Lemma generated opts now src out m out' : GenerateChunkManifest opts now src out = Ok (m, out') →
  options_ok opts → valid_civil now = true →
  (∀ content, src !! co_ProvingKeyPath opts = Some content → Forall is_byte content ∧ len content < 2 ^ 63) →
  ∃ k d content pieces idx,
    co_KeyManifest opts = Some k ∧ co_Deployment opts = Some d ∧ src !! co_ProvingKeyPath opts = Some content ∧
    concat pieces = content ∧ BuildPKIndex content = Ok idx ∧ ManifestIndexFromPKIndex idx = Ok (cm_ProvingKeyIndex m) ∧
    ValidateChunkManifest m (expectations_of opts) = Ok tt ∧ validate_own m = Ok tt ∧
    (co_ChunkOutDir opts ≠ [] → each (ck_Chunks (cm_ProvingKey m)) (verify_chunk out') = Ok tt ∧
       mapM (read_file out') (ch_Path <$> ck_Chunks (cm_ProvingKey m)) = Ok pieces).
Proof.
  intros Hg Hok Hnow Hsrc. unfold GenerateChunkManifest in Hg.
  destruct (co_KeyManifest opts) as [k|] eqn:Hk; [|done]. destruct (co_Deployment opts) as [d|] eqn:Hd; [|done].
  apply bind_Ok in Hg as ([] & Hpath%check_Ok & Hg). cbv zeta in Hg. fold (key_name opts) in Hg.
  apply bind_Ok in Hg as ([] & Hcs%check_Ok & Hg). apply bind_Ok in Hg as ([] & Hkey%check_Ok & Hg).
  apply bind_Ok in Hg as (dg & Hdg & Hg). apply bind_Ok in Hg as ([] & Hpk & Hg).
  apply bind_Ok in Hg as ([] & _ & Hg). apply bind_Ok in Hg as ([] & _ & Hg).
  apply bind_Ok in Hg as ([] & Hassets & Hg). apply bind_Ok in Hg as (content & Hread & Hg).
  apply bind_Ok in Hg as (idx & Hidx & Hg). apply bind_Ok in Hg as ([] & Hsize%check_Ok & Hg).
  apply bind_Ok in Hg as (mi & Hmi & Hg). apply bind_Ok in Hg as ([[chunks root] o] & Hb & Hm). injection Hm as Hm <-.
  unfold DigestFile in Hdg. rewrite Hread in Hdg. cbn [within map_err mbind result_bind] in Hdg. injection Hdg as <-.
  unfold read_file in Hread. destruct (src !! co_ProvingKeyPath opts) as [c|] eqn:Hs; [|done]. injection Hread as ->.
  destruct (Hsrc content eq_refl) as [Hbytes Hlen]. destruct Hok as [Hmax Hname Htrans Hpins Htime].
  tests_in. cbn [Size DigestBytes] in Hsize.
  unfold checkKeyManifestPK in Hpk. autorewrite with checks in Hpk. destruct Hpk as (Hpos & _ & _ & Hpk).
  tests_in. cbn [Size DigestBytes] in Hpk.
  match type of Hb with BuildChunkPins ?o _ _ = _ => set (po := o) in * end.
  destruct (build_pins po src out content) as (pieces & Hcat & Hchunked & Hpb & Hbuild); try done.
  { cbn; lia. } { cbn. intros E. by apply app_nil in E as [_ ?]. }
  rewrite Hbuild in Hb. injection Hb as <- <- <-.
  assert (∀ n, 0 <= n → safeRelativePath (chunk_name (po_PathPrefix po) n) = Ok tt) as Hnames
    by (intros n; by apply key_chunk_names).
  assert (len (concat pieces) = km_ProvingKeySize k ∧ ix_FileSize idx = km_ProvingKeySize k) as [Hl1 Hl2]
    by (rewrite Hcat; lia).
  assert (validate_own m = Ok tt) as Hown.
  { unfold validate_own. rewrite <- Hm. cbn [cm_Schema cm_GeneratedAt cm_SignatureKeyID cm_Transport cm_ProvingKey
      cm_ProvingKeyIndex cm_Coherence cm_Assets coherence_of cc_ProvingKeySize]. autorewrite with checks. split_and!.
    - by apply differs_false.
    - rewrite format_RFC3339_parses; [done|]. by destruct (time_Equal _ _).
    - done.
    - exact Htrans.
    - rewrite <- Hl1. apply (table_valid po pieces); try done; cbn; lia.
    - rewrite <- Hl2. by apply manifest_index_valid.
    - apply each_from_Ok. intros n [name pin] Hn. apply (Hpins name). apply elem_of_map_to_list.
      rewrite <- (map_order_perm (map_to_list _)). by apply list_elem_of_lookup_2 in Hn. }
  assert (cm_ProvingKeyIndex m = mi ∧ ck_Chunks (cm_ProvingKey m) = pins_of po 0 0 pieces ∧
    cm_Coherence m = coherence_of opts k d ∧ cm_Assets m = co_Assets opts) as (-> & -> & Hc & Ha) by (by rewrite <- Hm).
  exists k, d, content, pieces, idx. split_and!; try done; [by apply (coherence_expected opts m k d)|].
  intros Hout. apply chunks_verify. cbn. by apply bool_decide_eq_true.
Qed.

(** C14 A generated manifest is valid, by itself and against the key manifest, the deployment
    and the verifying key it was generated for; the chunks written verify against it; put
    together in the order of the table they are the proving key; and its index is that of
    the key.  What the generator does not check is assumed of its options: the chunk size
    is an [int64], and the name of the key, the base URL and the asset pins are valid. *)
Theorem generated_manifest_verifies opts now src out m out' : GenerateChunkManifest opts now src out = Ok (m, out') →
  co_ChunkOutDir opts ≠ [] → options_ok opts → valid_civil now = true →
  (∀ content, src !! co_ProvingKeyPath opts = Some content → Forall is_byte content ∧ len content < 2 ^ 63) →
  ValidateChunkManifest m (expectations_of opts) = Ok tt ∧ VerifyChunkFiles m out' = Ok tt ∧
  ∃ pieces idx, mapM (read_file out') (ch_Path <$> ck_Chunks (cm_ProvingKey m)) = Ok pieces ∧
    src !! co_ProvingKeyPath opts = Some (concat pieces) ∧
    BuildPKIndex (concat pieces) = Ok idx ∧ ManifestIndexFromPKIndex idx = Ok (cm_ProvingKeyIndex m).
Proof.
  intros Hg Hout Hok Hnow Hsrc.
  destruct (generated _ _ _ _ _ _ Hg Hok Hnow Hsrc) as (k & d & content & pieces & idx & _ & _ & Hs & <- & Hi & Hmi & Hv & Hown & Hf).
  destruct (Hf Hout) as [Hver Hread]. split; [done|]. split; [|by exists pieces, idx].
  unfold VerifyChunkFiles. rewrite validate_own_enough, Hown. exact Hver.
Qed.
End generate.

(** ** What verifies is pinned *)

Section verified.
Context `{XCryptoBlake2b, MapOrder, URLParser}.

(** The file a pin was made for, or one with the same digests. *)
Definition matches (c : ChunkPin) (f : list Z) : Prop :=
  ch_Size c = len f ∧ ch_SHA256 c = sha256_string f ∧ ch_Blake2b256 c = blake2b256_string f.

(** The files of a directory are bytes. *)
Definition byte_dir (dir : directory) : Prop := map_Forall (λ _ f, Forall is_byte f) dir.

Lemma chunks_verified dir (chunks : list ChunkPin) : each chunks (verify_chunk dir) = Ok tt →
  ∃ files, mapM (read_file dir) (ch_Path <$> chunks) = Ok files ∧ Forall2 matches chunks files ∧
    (byte_dir dir → Forall (Forall is_byte) files).
Proof.
  unfold each. generalize 0%nat. induction chunks as [|c cs IH]; intros n Hv.
  { exists []. split_and!; [done|constructor|intros _; constructor]. }
  cbn [each_from] in Hv. apply bind_unit in Hv as [Hc Hv]. destruct (IH (S n) Hv) as (fs & Hr & Hm & Hb).
  unfold verify_chunk in Hc. apply bind_Ok in Hc as (dg & Hd & Hc). unfold DigestFile in Hd.
  apply bind_Ok in Hd as (f & Hf%within_Ok & [= <-]). autorewrite with checks in Hc.
  cbn [DigestBytes Size SHA256 Blake2b256] in Hc. destruct Hc as (Hsz & Hsha & Hbl). tests_in.
  exists (f :: fs). rewrite fmap_cons. cbn [mapM]. rewrite Hf. cbn [mbind result_bind]. rewrite Hr.
  split_and!; [done|by constructor|]. intros Hdir. constructor; [|by apply Hb].
  unfold read_file in Hf. destruct (dir !! ch_Path c) as [f'|] eqn:E; [|done]. injection Hf as <-. by apply (Hdir _ _ E).
Qed.

(** The table in a manifest whose files verify. *)
Lemma table_offsets chunk_size last chunks files : Forall2 matches chunks files → ∀ i next fin, 0 <= next →
  next + len (concat files) < 2 ^ 63 → validate_table chunk_size last i next chunks = Ok fin →
  fin = next + len (concat files) ∧
  ∀ k c f, chunks !! k = Some c → files !! k = Some f → ch_Offset c = next + len (concat (take k files)).
Proof.
  induction 1 as [|c f cs fs (Hz & _ & _) _ IH]; intros i next fin Hn Hs; cbn [validate_table].
  { intros [= <-]. split; [cbn; lia|done]. }
  cbn [concat] in Hs. rewrite length_app in Hs. intros Hv.
  apply bind_Ok in Hv as (_ & _ & Hv). apply bind_Ok in Hv as ([] & Ho & Hv). do 5 apply bind_Ok in Hv as (_ & _ & Hv).
  apply check_Ok in Ho. tests_in. rewrite Hz, i64_small in Hv by lia.
  destruct (IH (i + 1) (next + len f) fin ltac:(lia) ltac:(lia) Hv) as [-> Hk]. cbn [concat]. split; [rewrite length_app; lia|].
  intros [|k] c' f' Hc Hf; [injection Hc as <-; cbn; lia|]. cbn [take concat].
  rewrite (Hk k c' f' Hc Hf), length_app. lia.
Qed.

Lemma slice_concat {A} (l : list (list A)) k f : l !! k = Some f →
  slice (len (concat (take k l)), len (concat (take k l)) + len f) (concat l) = f.
Proof.
  intros Hk. rewrite <- (take_drop_middle l k f Hk) at 3. rewrite concat_app. cbn [concat].
  unfold slice. cbn [fst snd]. rewrite Nat2Z.id, drop_app_length.
  rewrite take_app_length'; [done|lia].
Qed.

(** When the chunks in a directory verify against a manifest, they are there, each with the
    size and the digests of its pin; together they have the size of the proving key, and in
    the file they make together each chunk lies at its offset. *)
Theorem VerifyChunkFiles_assembles m dir : VerifyChunkFiles m dir = Ok tt →
  ∃ files, mapM (read_file dir) (ch_Path <$> ck_Chunks (cm_ProvingKey m)) = Ok files ∧
    Forall2 matches (ck_Chunks (cm_ProvingKey m)) files ∧
    (len (concat files) < 2 ^ 63 → cc_ProvingKeySize (cm_Coherence m) = len (concat files) ∧
     ∀ k c f, ck_Chunks (cm_ProvingKey m) !! k = Some c → files !! k = Some f →
       slice (ch_Offset c, ch_Offset c + ch_Size c) (concat files) = f).
Proof.
  unfold VerifyChunkFiles. rewrite validate_own_enough. intros ([] & Hown & Hv)%bind_Ok.
  destruct (chunks_verified _ _ Hv) as (files & Hr & Hm & _). exists files. split; [done|]. split; [done|]. intros Hs.
  unfold validate_own in Hown. autorewrite with checks in Hown. destruct Hown as (_ & _ & _ & _ & Ht & _).
  unfold validateChunks in Ht. do 3 apply bind_Ok in Ht as (_ & _ & Ht). apply bind_Ok in Ht as (fin & Ht & Hc).
  apply bind_Ok in Hc as ([] & Hfin%check_Ok & _). tests_in. subst fin.
  destruct (table_offsets _ _ _ _ Hm 0 0 _ ltac:(lia) ltac:(lia) Ht) as [-> Ho]. split; [done|].
  intros k c f Hk Hf. rewrite (Ho k c f Hk Hf), Z.add_0_l.
  destruct (Forall2_lookup_lr _ _ _ _ _ _ Hm Hk Hf) as (-> & _ & _). by apply slice_concat.
Qed.

(** Two byte strings with one BLAKE2b-256 digest. *)
Definition collides (x y : list Z) : Prop := x ≠ y ∧ blake2b_sum 32 x = blake2b_sum 32 y.

Definition digest_list (files : list (list Z)) : list Z := concat (blake2b_sum 32 <$> files).

Lemma digest_list_pins files files' : Forall (Forall is_byte) files → Forall (Forall is_byte) files' →
  digest_list files = digest_list files' →
  files = files' ∨ ∃ k f f', files !! k = Some f ∧ files' !! k = Some f' ∧ collides f f'.
Proof.
  intros Hb Hb' He. apply (concat_inj 32) in He; [|lia|..].
  2,3: apply Forall_fmap; (eapply Forall_impl; [eassumption|]); intros f Hf; by apply blake2b_sum_wf.
  clear -He. revert files' He. induction files as [|f fs IH]; intros [|f' fs'] He; try done; [by left|].
  injection He as Hd He. destruct (decide (f = f')) as [->|Hne].
  - destruct (IH fs' He) as [->|(k & g & g' & ?)]; [by left|]. right. by exists (S k), g, g'.
  - right. by exists 0%nat, f, f'.
Qed.

Lemma verified_root m dir files : byte_dir dir → VerifyChunkFiles m dir = Ok tt →
  mapM (read_file dir) (ch_Path <$> ck_Chunks (cm_ProvingKey m)) = Ok files →
  Forall (Forall is_byte) files ∧
  ck_ChunksRootBlake2b256 (cm_ProvingKey m) = blake2b256_string (digest_list files).
Proof.
  unfold VerifyChunkFiles. rewrite validate_own_enough. intros Hdir ([] & Hown & Hv)%bind_Ok Hr.
  destruct (chunks_verified _ _ Hv) as (files' & Hr' & Hm & Hb). assert (files' = files) as -> by congruence.
  split; [by apply Hb|]. unfold validate_own in Hown. autorewrite with checks in Hown. destruct Hown as (_ & _ & _ & _ & Ht & _).
  unfold validateChunks in Ht. do 3 apply bind_Ok in Ht as (_ & _ & Ht). apply bind_Ok in Ht as (fin & _ & Ht).
  apply bind_Ok in Ht as (_ & _ & Ht). apply bind_Ok in Ht as (root & Hroot & Ht%check_Ok). tests_in. subst.
  rewrite (chunks_root _ (blake2b_sum 32 <$> files)) in Hroot; [by injection Hroot as <-|].
  apply Forall2_fmap_r. specialize (Hb Hdir). clear -Hm Hb. induction Hm as [|c f cs fs (_ & _ & Hd) _ IH]; [constructor|].
  apply Forall_cons in Hb as [Hf Hb]. constructor; [|by apply IH]. rewrite Hd. by apply decode_blake2b_string.
Qed.

(** C17 The root of the table pins the proving key: when chunks in two directories verify
    against two manifests with the same root, the files they make are the same; or
    BLAKE2b-256 has a collision, of two chunks at one place or of the two lists of digests. *)
Theorem chunks_root_pins_key m m' dir dir' files files' : byte_dir dir → byte_dir dir' →
  VerifyChunkFiles m dir = Ok tt → VerifyChunkFiles m' dir' = Ok tt →
  mapM (read_file dir) (ch_Path <$> ck_Chunks (cm_ProvingKey m)) = Ok files →
  mapM (read_file dir') (ch_Path <$> ck_Chunks (cm_ProvingKey m')) = Ok files' →
  ck_ChunksRootBlake2b256 (cm_ProvingKey m) = ck_ChunksRootBlake2b256 (cm_ProvingKey m') →
  concat files = concat files' ∨ collides (digest_list files) (digest_list files') ∨
  ∃ k f f', files !! k = Some f ∧ files' !! k = Some f' ∧ collides f f'.
Proof.
  intros Hd Hd' Hv Hv' Hr Hr' He.
  destruct (verified_root m dir files Hd Hv Hr) as [Hb Hroot].
  destruct (verified_root m' dir' files' Hd' Hv' Hr') as [Hb' Hroot'].
  rewrite Hroot, Hroot' in He.
  assert (∀ l, Forall (Forall is_byte) l → Forall is_byte (digest_list l)) as Hdl.
  { intros l Hl. apply Forall_concat, Forall_fmap. eapply Forall_impl; [exact Hl|]. intros f Hf. by apply blake2b_sum_wf. }
  apply blake2b256_string_inj in He; [|by apply Hdl..].
  destruct (decide (digest_list files = digest_list files')) as [E|E]; [|right; left; by split].
  destruct (digest_list_pins _ _ Hb Hb' E) as [->|Hc]; [by left|]. right. by right.
Qed.
End verified.
