(* ===== verification/MpcModel.v ===== *)
(** * The MPC ceremony records: [internal/mpcceremony/model.go]

    The digests, identities, policies and bindings every ceremony record is made of,
    their validation, and the canonical encoding that identifies a record by content.
    A record carries its own identifier: the SHA-256 of a domain tag and of its JSON
    with the identifier field empty.  That pattern, which the package repeats for every
    record type, is the class [ContentRecord]. *)
From stdpp Require Import strings.
From S2P Require Import Prelude.
From S2P Require Import GoText.
From S2P Require Import GoError.
From S2P Require Import Sha256.
From S2P Require Import GoTime.
From S2P Require Import GoJson.
From S2P Require Import Ownership.

(** A slice whose absence matters to its encoding: [nil] is [null]. *)
Definition JSlice {A} (f : A → json) (s : option (list A)) : json :=
  match s with Some l => JArr (f <$> l) | None => JNull end.
Definition slice_len {A} (s : option (list A)) : nat := length (default [] s).

(** ** Field checks *)

(** The two messages for a string that is not lowercase hexadecimal are one here:
    [strings.ToLower] changes other strings than those of ASCII, which are no
    hexadecimal either. *)
Definition validateHex (value : list Z) (bytes : nat) : checked :=
  _ ← check (negb (length value =? bytes * 2)%nat) "must contain %d lowercase hexadecimal bytes";
  check (has_upper value || bool_decide (hex_DecodeString value = None))
    "must use lowercase hexadecimal".

Definition validateTaggedHex (value : list Z) (prefix : list Z) (bytes : nat) : checked :=
  _ ← check (negb (HasPrefix value prefix)) "must start with %q";
  validateHex (TrimPrefix value prefix) bytes.

Definition decodeFixedHex (value : list Z) (bytes : nat) : result go_error (list Z) :=
  _ ← validateHex value bytes;
  match hex_DecodeString value with Some b => Ok b | None => Err (Fail "invalid byte") end.

Definition id_char (r : Z) : bool :=
  in_range 97 122 r || in_range 48 57 r || (r =? 45) || (r =? 95) || (r =? 46) || (r =? 58).

Definition validateID (label : string) (value : list Z) : checked :=
  _ ← check (bool_decide (value = []) || (128 <? length value)%nat)
        "%s must contain 1 to 128 characters";
  check (negb (forallb id_char value)) "%s %q contains an unsupported character".

Definition validateArtifactName (value : list Z) : checked :=
  _ ← check (bool_decide (value = []) || (512 <? length value)%nat || negb (utf8_ValidString value))
        "artifact name must be non-empty valid UTF-8 of at most 512 bytes";
  check (bool_decide (92 ∈ value) || HasPrefix value (str "/") ||
         bool_decide (path_Clean value ≠ value) || bool_decide (value = str "."))
    "artifact name %q must be a clean relative logical path".

Definition validateTimestamp (label : string) (value : list Z) : checked :=
  _ ← check (bool_decide (value = []) || negb (HasSuffix value (str "Z")))
        "%s must be a UTC RFC3339 timestamp ending in Z";
  match time_Parse value with
  | None => Err (Wrap label (Fail "parsing time"))
  | Some parsed =>
      check (bool_decide (time_Format parsed ≠ value))
        "%s is not a canonical RFC3339 timestamp"
  end.

Definition sha256_tag : list Z := str "sha256:".
Definition taggedSHA256 (data : list Z) : list Z := sha256_tag ++ hex_EncodeToString (sha256_Sum256 data).

(** [validateHashID] of [chain.go]. *)
Definition validateHashID (label : string) (value : list Z) : checked :=
  within label (validateTaggedHex value sha256_tag 32).

Definition isPowerOfTwo (value : Z) : bool :=
  negb (value =? 0) && (Z.land value (u64 (value - 1)) =? 0).

Definition canonicalHash (domain : list Z) (value : json) : list Z :=
  sha256_tag ++ hex_EncodeToString (sha256_Sum256 (domain ++ [0] ++ marshal value)).

(** ** Phases *)

Definition Phase1 : list Z := str "phase1".
Definition Phase2 : list Z := str "phase2".

Definition Phase_Validate (p : list Z) : checked :=
  check (negb (bool_decide (p = Phase1) || bool_decide (p = Phase2))) "unsupported phase %q".

(** ** Digests and artifacts *)

Record Digest := {
  dg_SHA256 : list Z;
  dg_Blake2b256 : list Z;
  dg_Size : Z }.
#[export] Instance Digest_eq_dec : EqDecision Digest.
Proof. solve_decision. Defined.

Definition Digest_json (r : Digest) : json := JObj
  [ (str "sha256", JStr (dg_SHA256 r));
    (str "blake2b256", JStr (dg_Blake2b256 r));
    (str "size", JNum (dg_Size r)) ].

Definition NewDigest `{XCryptoBlake2b} (data : list Z) : Digest :=
  {| dg_SHA256 := taggedSHA256 data;
     dg_Blake2b256 := str "blake2b256:" ++ hex_EncodeToString (blake2b_sum 32 data);
     dg_Size := Z.of_nat (length data) |}.

Definition Digest_Validate (d : Digest) : checked :=
  _ ← within "sha256" (validateTaggedHex (dg_SHA256 d) sha256_tag 32);
  _ ← within "blake2b256" (validateTaggedHex (dg_Blake2b256 d) (str "blake2b256:") 32);
  check (dg_Size d <=? 0) "size must be positive, got %d".

Record ArtifactRef := {
  ar_Name : list Z;
  ar_Digest : Digest }.
#[export] Instance ArtifactRef_eq_dec : EqDecision ArtifactRef.
Proof. solve_decision. Defined.

Definition ArtifactRef_json (r : ArtifactRef) : json := JObj
  [ (str "name", JStr (ar_Name r));
    (str "digest", Digest_json (ar_Digest r)) ].

Definition ArtifactRef_Validate (r : ArtifactRef) : checked :=
  _ ← validateArtifactName (ar_Name r);
  within "artifact %q digest" (Digest_Validate (ar_Digest r)).

(** ** Identities and policies *)

Record Identity := {
  id_ID : list Z;
  id_DisplayName : list Z;
  id_KeyID : list Z;
  id_Ed25519PublicKeyHex : list Z;
  id_PublicKeyFingerprint : list Z }.
#[export] Instance Identity_eq_dec : EqDecision Identity.
Proof. solve_decision. Defined.

Definition Identity_json (r : Identity) : json := JObj
  [ (str "id", JStr (id_ID r));
    (str "display_name", JStr (id_DisplayName r));
    (str "key_id", JStr (id_KeyID r));
    (str "ed25519_public_key_hex", JStr (id_Ed25519PublicKeyHex r));
    (str "public_key_fingerprint", JStr (id_PublicKeyFingerprint r)) ].

Definition Identity_Validate (i : Identity) : checked :=
  _ ← validateID "identity id" (id_ID i);
  _ ← check (bool_decide (TrimSpace (id_DisplayName i) = []) ||
             bool_decide (id_DisplayName i ≠ TrimSpace (id_DisplayName i)))
        "identity display_name must be non-empty and trimmed";
  _ ← check (negb (utf8_ValidString (id_DisplayName i)))
        "identity display_name must be valid UTF-8";
  _ ← validateID "identity key_id" (id_KeyID i);
  pub ← within "identity ed25519_public_key_hex" (decodeFixedHex (id_Ed25519PublicKeyHex i) 32);
  let want := taggedSHA256 pub in
  check (bool_decide (id_PublicKeyFingerprint i ≠ want))
    "identity public_key_fingerprint %q, want %q".

Definition NewIdentity (id displayName keyID publicKey : list Z) : result go_error Identity :=
  let result := {| id_ID := id; id_DisplayName := displayName; id_KeyID := keyID;
                   id_Ed25519PublicKeyHex := hex_EncodeToString publicKey;
                   id_PublicKeyFingerprint := taggedSHA256 publicKey |} in
  _ ← Identity_Validate result; Ok result.

Record Participant := {
  pt_Identity : Identity }.
#[export] Instance Participant_eq_dec : EqDecision Participant.
Proof. solve_decision. Defined.

Definition Participant_json (r : Participant) : json := JObj
  [ (str "identity", Identity_json (pt_Identity r)) ].

Definition Participant_Validate (p : Participant) : checked := Identity_Validate (pt_Identity p).

Definition MaxParticipants : Z := 20.

Record PhasePolicy := {
  pp_Participants : list (list Z);
  pp_Minimum : Z }.
#[export] Instance PhasePolicy_eq_dec : EqDecision PhasePolicy.
Proof. solve_decision. Defined.

Definition PhasePolicy_json (r : PhasePolicy) : json := JObj
  [ (str "participants", JArr (JStr <$> pp_Participants r));
    (str "minimum", JNum (pp_Minimum r)) ].

(** [seen] collects the participants scheduled so far. *)
Fixpoint policy_participants (roster : list (list Z)) (participants seen : list (list Z)) : checked :=
  match participants with
  | [] => Ok tt
  | participantID :: rest =>
      _ ← check (bool_decide (participantID ∉ roster)) "phase participant %d %q is not in the roster";
      _ ← check (bool_decide (participantID ∈ seen)) "phase participant %q is duplicated";
      policy_participants roster rest (participantID :: seen)
  end.

(** [roster]: the keys of the map of participants. *)
Definition PhasePolicy_Validate (p : PhasePolicy) (roster : list (list Z)) : checked :=
  let n := Z.of_nat (length (pp_Participants p)) in
  _ ← check (n =? 0) "phase participants must not be empty";
  _ ← check (MaxParticipants <? n) "phase participants exceed maximum %d";
  _ ← check ((pp_Minimum p =? 0) || (n <? pp_Minimum p))
        "phase minimum %d must be between 1 and %d";
  policy_participants roster (pp_Participants p) [].

(** ** Records identified by their content *)

(** What a record type provides: its JSON, its identifier field, and its checks, run
    with the identifier required ([true]) or required to be empty ([false]). *)
Class ContentRecord (A : Type) := {
  rec_json : A → json;
  rec_schema : list Z;
  rec_domain : list Z;
  rec_id : A → list Z;
  rec_set_id : list Z → A → A;
  rec_set_schema : list Z → A → A;
  rec_validate : bool → A → checked;
}.

Arguments rec_schema A {_}.
Arguments rec_domain A {_}.

Section content.
Context `{ContentRecord A}.

(** [Compute...ID] *)
Definition compute_id (record : A) : result go_error (list Z) :=
  let record := rec_set_id [] record in
  _ ← rec_validate false record;
  Ok (canonicalHash (rec_domain A) (rec_json record)).

(** [Validate] *)
Definition validate_record (r : A) : checked :=
  _ ← rec_validate true r;
  expected ← compute_id r;
  check (bool_decide (rec_id r ≠ expected)) "%s %q, want %q".

(** [New...] *)
Definition new_record (record : A) : result go_error A :=
  let record := rec_set_id [] (rec_set_schema (rec_schema A) record) in
  id ← compute_id record;
  let record := rec_set_id id record in
  _ ← validate_record record;
  Ok record.
End content.

(** [MarshalCanonical] of a record type with the given [Validate]. *)
Definition MarshalCanonical {A} (validate : A → checked) (to_json : A → json) (value : A) :
    result go_error (list Z) :=
  _ ← validate value;
  Ok (marshal (to_json value)).

(** The start of every [validate(requireID)]. *)
Definition check_schema_and_id (schema want : list Z) (requireID : bool) (label : string) (id : list Z) :
    checked :=
  _ ← check (bool_decide (schema ≠ want)) "schema %q, want %q";
  if requireID then validateHashID label id
  else check (bool_decide (id ≠ [])) "id must be empty while computing identity".
