(* ===== verification/MpcPreflight.v ===== *)
(** * Shapes, sizes and the preflight scanner: [internal/mpcceremony/preflight.go]

    Before a ceremony file reaches gnark's decoder, the package scans its canonical
    encoding against a shape computed locally.  This file models the sizes of the
    encodings, with the checked 64-bit arithmetic, and the scanner as a state monad on
    the bytes not read yet. *)
From stdpp Require Import strings.
From S2P Require Import Prelude.
From S2P Require Import GoText.
From S2P Require Import GoError.
From S2P Require Import Sha256.
From S2P Require Import GoTime.
From S2P Require Import GoJson.
From S2P Require Import Ownership.
From S2P Require Import MpcModel.

(** ** Limits *)

Definition MaxDomainN : Z := 2 ^ 32.
Definition MaxPhase2Commitments : Z := 255.
Definition MaxArtifactSize : Z := Z.shiftl 16 30.
Definition g1CompressedSize : Z := 48.
Definition g2CompressedSize : Z := 96.

(** [fmt.Errorf("%w: ...", Err...)] *)
Definition ErrInvalidShape (message : string) : go_error :=
  Wrap "invalid MPC artifact shape" (Fail message).
Definition ErrArtifactTooLarge : go_error := Wrap "MPC artifact exceeds size limit" (Fail "%d > %d bytes").
Definition ErrNonCanonicalPoint : go_error := Fail "non-canonical compressed BLS12-381 point".
Definition ErrTrailingData : go_error := Fail "trailing data after MPC artifact".

(** ** Shapes *)

Record Phase1Shape := { p1_DomainN : Z; p1_ChallengeLength : Z }.
Record CommonsShape := { cs_DomainN : Z }.

Record Phase2Shape := {
  p2_Commitments : Z;
  p2_PKK : Z;
  p2_Z : Z;
  p2_SigmaCKK : option (list Z);
  p2_ChallengeLength : Z }.
#[export] Instance Phase2Shape_eq_dec : EqDecision Phase2Shape.
Proof. solve_decision. Defined.

Definition Phase2Shape_json (r : Phase2Shape) : json := JObj
  [ (str "Commitments", JNum (p2_Commitments r));
    (str "PKK", JNum (p2_PKK r));
    (str "Z", JNum (p2_Z r));
    (str "SigmaCKK", JSlice JNum (p2_SigmaCKK r));
    (str "ChallengeLength", JNum (p2_ChallengeLength r)) ].

(** ** Checked arithmetic on [uint64] *)

Definition checkedAdd (a b : Z) : result go_error Z :=
  if 2 ^ 64 <=? a + b then Err (ErrInvalidShape "integer addition overflow") else Ok (u64 (a + b)).

Definition checkedMul (a b : Z) : result go_error Z :=
  if negb (Z.shiftr (a * b) 64 =? 0) then Err (ErrInvalidShape "integer multiplication overflow")
  else Ok (u64 (a * b)).

Definition checkedSub (a b : Z) : result go_error Z :=
  if a <? b then Err (ErrInvalidShape "integer subtraction underflow") else Ok (a - b).

Definition checkedArtifactSize (n : Z) : result go_error Z :=
  if 2 ^ 63 - 1 <? n then Err (ErrInvalidShape "byte length overflows int64")
  else if MaxArtifactSize <? n then Err ErrArtifactTooLarge
  else Ok n.

(** ** Sizes of the canonical encodings *)

Definition validateDomain (n : Z) : checked :=
  guard_err ((n <? 2) || (MaxDomainN <? n) || negb (Z.land n (u64 (n - 1)) =? 0))
    (ErrInvalidShape "domain %d must be a power of two in [2,%d]").

Definition ExpectedCommonsSize (s : CommonsShape) : result go_error Z :=
  _ ← validateDomain (cs_DomainN s);
  nBytes ← checkedMul (cs_DomainN s) 288;
  nBytes ← checkedSub nBytes 88;
  checkedArtifactSize nBytes.

Definition ExpectedPhase1Size (s : Phase1Shape) : result go_error Z :=
  commons ← ExpectedCommonsSize {| cs_DomainN := p1_DomainN s |};
  nBytes ← checkedAdd commons (3 * (g1CompressedSize + g2CompressedSize));
  nBytes ← checkedAdd nBytes (1 + p1_ChallengeLength s);
  checkedArtifactSize nBytes.

(** [for _, n := range s.SigmaCKK] *)
Fixpoint add_points (totalPoints : Z) (ns : list Z) : result go_error Z :=
  match ns with
  | [] => Ok totalPoints
  | n :: ns => totalPoints ← checkedAdd totalPoints n; add_points totalPoints ns
  end.

Definition check_commitments (s : Phase2Shape) : checked :=
  _ ← guard_err (MaxPhase2Commitments <? p2_Commitments s)
        (ErrInvalidShape "Phase 2 commitments %d exceed %d");
  guard_err (negb (Z.of_nat (slice_len (p2_SigmaCKK s)) =? p2_Commitments s))
    (ErrInvalidShape "%d SigmaCKK lengths for %d commitments").

Definition ExpectedPhase2Size (s : Phase2Shape) : result go_error Z :=
  _ ← check_commitments s;
  totalPoints ← add_points (u64 (p2_PKK s + p2_Z s)) (default [] (p2_SigmaCKK s));
  nBytes ← checkedMul totalPoints g1CompressedSize;
  nBytes ← checkedAdd nBytes (299 + p2_ChallengeLength s);
  perCommitment ← checkedMul (p2_Commitments s) 244;
  nBytes ← checkedAdd nBytes perCommitment;
  checkedArtifactSize nBytes.

Definition Phase1Shape_Validate (s : Phase1Shape) : checked :=
  _ ← validateDomain (p1_DomainN s);
  _ ← ExpectedPhase1Size s;
  Ok tt.

Definition CommonsShape_Validate (s : CommonsShape) : checked :=
  _ ← validateDomain (cs_DomainN s);
  _ ← ExpectedCommonsSize s;
  Ok tt.

Definition Phase2Shape_Validate (s : Phase2Shape) : checked :=
  _ ← check_commitments s;
  _ ← ExpectedPhase2Size s;
  Ok tt.

(** ** The scanner *)

(** The bytes not read yet and the number read; [expected] does not change. *)
Record preflightScanner := { s_rest : list Z; s_n : Z; s_expected : Z }.

Definition Scanner (A : Type) : Type := preflightScanner → result go_error (A * preflightScanner).
#[export] Instance scanner_ret : MRet Scanner := λ A a s, Ok (a, s).
#[export] Instance scanner_bind : MBind Scanner := λ A B f m s,
  match m s with Ok (a, s') => f a s' | Err e => Err e end.

Definition scan_within {A} (label : string) (m : Scanner A) : Scanner A := λ s, within label (m s).
Definition scan_fail {A} (e : go_error) : Scanner A := λ _, Err e.

(** [io.ReadFull] of [k] bytes. *)
Definition readFull (k : nat) : Scanner (list Z) := λ s,
  if (length (s_rest s) <? k)%nat then
    Err (Fail (if decide (s_rest s = []) then "EOF" else "unexpected EOF")) else
  let n := s_n s + Z.of_nat k in
  if s_expected s <? n then Err ErrTrailingData else
  Ok (take k (s_rest s), {| s_rest := drop k (s_rest s); s_n := n; s_expected := s_expected s |}).

Definition scan_uint16 : Scanner Z := b ← readFull 2; mret (be_val b).
Definition scan_uint32 : Scanner Z := b ← readFull 4; mret (be_val b).
Definition scan_uint64 : Scanner Z := b ← readFull 8; mret (be_val b).

(** The three flag bits of a compressed point, uncompressed forms excluded. *)
Definition canonical_flag (b : Z) : bool :=
  let flags := Z.land b 0xe0 in (flags =? 0x80) || (flags =? 0xa0) || (flags =? 0xc0).

Definition scan_point (size : Z) : Scanner unit :=
  encoded ← readFull (Z.to_nat size);
  if canonical_flag (encoded !!! 0%nat) then mret tt else scan_fail ErrNonCanonicalPoint.

Definition pointG1 : Scanner unit := scan_point g1CompressedSize.
Definition pointG2 : Scanner unit := scan_point g2CompressedSize.

Fixpoint scan_repeat (n : nat) (m : Scanner unit) : Scanner unit :=
  match n with
  | O => mret tt
  | S n => _ ← m; scan_repeat n m
  end.

Definition pointsG1 (n : Z) : Scanner unit := scan_repeat (Z.to_nat n) (scan_within "point %d" pointG1).
Definition pointsG2 (n : Z) : Scanner unit := scan_repeat (Z.to_nat n) (scan_within "point %d" pointG2).

Definition vectorG1 (name : string) (expected : Z) : Scanner unit :=
  n ← scan_within "%s length" scan_uint32;
  if negb (n =? expected) then scan_fail (ErrInvalidShape "%s length %d, expected %d") else
  scan_within name (pointsG1 n).

Definition updateProof (name : string) : Scanner unit :=
  _ ← scan_within name pointG1;
  scan_within name pointG2.

Definition scan_challenge (expected : Z) : Scanner (list Z) :=
  length ← scan_within "challenge length" (readFull 1);
  if negb (length !!! 0%nat =? expected) then
    scan_fail (ErrInvalidShape "challenge length %d, expected %d") else
  scan_within "challenge" (readFull (Z.to_nat expected)).

Definition scanCommonsBody (n : Z) : Scanner unit :=
  _ ← scan_within "SRS commons G2 Beta" pointG2;
  _ ← scan_within "SRS commons G1 Tau" (pointsG1 (u64 (2 * n - 2)));
  _ ← scan_within "SRS commons G2 Tau" (pointsG2 (u64 (n - 1)));
  _ ← scan_within "SRS commons G1 BetaTau" (pointsG1 n);
  scan_within "SRS commons G1 AlphaTau" (pointsG1 n).

Record ArtifactDigest := { ad_Size : Z; ad_SHA256 : list Z; ad_BLAKE2b256 : list Z; ad_Challenge : list Z }.

Section preflight.
Context `{XCryptoBlake2b}.

(** At the end of the input the tee has passed every byte to the two hashes. *)
Definition scan_finish (input challenge : list Z) : Scanner ArtifactDigest := λ s,
  if negb (s_n s =? s_expected s) then Err (ErrInvalidShape "read %d bytes, expected %d") else
  match s_rest s with
  | _ :: _ => Err ErrTrailingData
  | [] => Ok ({| ad_Size := s_expected s; ad_SHA256 := sha256_Sum256 input;
                 ad_BLAKE2b256 := blake2b_sum 32 input; ad_Challenge := challenge |}, s)
  end.

Definition run_scanner {A} (input : list Z) (expected : Z) (m : Scanner A) : result go_error A :=
  '(a, _) ← m {| s_rest := input; s_n := 0; s_expected := expected |}; Ok a.

Definition PreflightPhase1 (input : list Z) (s : Phase1Shape) : result go_error ArtifactDigest :=
  expected ← ExpectedPhase1Size s;
  run_scanner input expected (
    _ ← scan_repeat 3 (updateProof "Phase 1 update proof");
    n ← scan_within "Phase 1 domain" scan_uint64;
    if negb (n =? p1_DomainN s) then scan_fail (ErrInvalidShape "Phase 1 domain %d, expected %d") else
    _ ← scanCommonsBody n;
    challenge ← scan_challenge (p1_ChallengeLength s);
    scan_finish input challenge).

Definition PreflightCommons (input : list Z) (s : CommonsShape) : result go_error ArtifactDigest :=
  expected ← ExpectedCommonsSize s;
  run_scanner input expected (
    n ← scan_within "SRS commons domain" scan_uint64;
    if negb (n =? cs_DomainN s) then scan_fail (ErrInvalidShape "SRS commons domain %d, expected %d") else
    _ ← scanCommonsBody n;
    scan_finish input []).

(** [for i, want := range s.SigmaCKK] *)
Fixpoint scan_vectors (wants : list Z) : Scanner unit :=
  match wants with
  | [] => mret tt
  | want :: wants => _ ← vectorG1 "Phase 2 SigmaCKK[%d]" want; scan_vectors wants
  end.

Definition PreflightPhase2 (input : list Z) (s : Phase2Shape) : result go_error ArtifactDigest :=
  expected ← ExpectedPhase2Size s;
  run_scanner input expected (
    commitments ← scan_within "Phase 2 commitments" scan_uint16;
    if negb (commitments =? p2_Commitments s) then
      scan_fail (ErrInvalidShape "Phase 2 commitments %d, expected %d") else
    _ ← scan_within "Phase 2 G1 Delta" pointG1;
    _ ← vectorG1 "Phase 2 PKK" (p2_PKK s);
    _ ← vectorG1 "Phase 2 Z" (p2_Z s);
    _ ← scan_within "Phase 2 G2 Delta" pointG2;
    _ ← scan_vectors (default [] (p2_SigmaCKK s));
    _ ← scan_within "Phase 2 G2 Sigma" (pointsG2 (p2_Commitments s));
    _ ← updateProof "Phase 2 Delta proof";
    _ ← scan_repeat (Z.to_nat (p2_Commitments s)) (updateProof "Phase 2 Sigma proof[%d]");
    challenge ← scan_challenge (p2_ChallengeLength s);
    scan_finish input challenge).
End preflight.
