(* ===== verification/MpcPreflightCorrect.v ===== *)
(** * The preflight scanner accepts exactly the canonical layout

    The encoding of each artifact is described as a list of items: literal bytes (the
    lengths a shape fixes), compressed points with a canonical flag, and free bytes.
    A scan succeeds on exactly the inputs that match the layout, whose size is the one
    the package computes in advance with checked arithmetic. *)
From Stdlib Require Import FunctionalExtensionality.
From stdpp Require Import strings.
From S2P Require Import Prelude.
From S2P Require Import GoText.
From S2P Require Import GoError.
From S2P Require Import Sha256.
From S2P Require Import GoTime.
From S2P Require Import GoJson.
From S2P Require Import Ownership.
From S2P Require Import MpcModel.
From S2P Require Import MpcPreflight.

(** ** Layouts *)

Inductive item :=
| ILit (bs : list Z)
| IPoint (size : Z)
| IBytes (n : nat).

Definition item_size (i : item) : Z :=
  match i with ILit bs => Z.of_nat (length bs) | IPoint size => size | IBytes n => Z.of_nat n end.

Definition item_matches (i : item) (bs : list Z) : Prop :=
  match i with
  | ILit l => bs = l
  | IPoint size => length bs = Z.to_nat size ∧ canonical_flag (bs !!! 0%nat) = true
  | IBytes n => length bs = n
  end.

Fixpoint matches (l : list item) (bs : list Z) : Prop :=
  match l with
  | [] => bs = []
  | i :: l => ∃ b bs', bs = b ++ bs' ∧ item_matches i b ∧ matches l bs'
  end.

Definition layout_size (l : list item) : Z := foldr (λ i n, item_size i + n) 0 l.

(** No item has a negative size. *)
Definition item_ok (i : item) : Prop := 0 <= item_size i.

Lemma layout_size_app l1 l2 : layout_size (l1 ++ l2) = layout_size l1 + layout_size l2.
Proof. unfold layout_size. induction l1 as [|i l1 IH]; cbn in *; lia. Qed.

Lemma layout_size_nonneg l : Forall item_ok l → 0 <= layout_size l.
Proof. unfold layout_size, item_ok. induction 1; cbn in *; lia. Qed.

Lemma layout_size_replicate n i : layout_size (replicate n i) = Z.of_nat n * item_size i.
Proof. unfold layout_size. induction n as [|n IH]; [done|]. cbn [replicate foldr]. rewrite IH. lia. Qed.

Lemma item_matches_size i b : item_ok i → item_matches i b → Z.of_nat (length b) = item_size i.
Proof. destruct i; unfold item_ok; cbn; intros; [by subst| |by subst]. destruct H0 as [-> _]. lia. Qed.

Lemma matches_size l bs : Forall item_ok l → matches l bs → Z.of_nat (length bs) = layout_size l.
Proof.
  intros Hl. revert bs. induction Hl as [|i l Hi _ IH]; intros bs; cbn [matches]; [by intros ->|].
  intros (b & bs' & -> & Hb & Hm). rewrite length_app, Nat2Z.inj_add, (IH _ Hm).
  rewrite (item_matches_size i) by done. done.
Qed.

Lemma matches_app l1 l2 bs :
  matches (l1 ++ l2) bs ↔ ∃ b1 b2, bs = b1 ++ b2 ∧ matches l1 b1 ∧ matches l2 b2.
Proof.
  revert bs. induction l1 as [|i l1 IH]; intros bs; cbn [app matches].
  { split; [intros Hm; by exists [], bs|]. by intros (b1 & b2 & -> & -> & ?). }
  split.
  - intros (b & bs' & -> & Hb & (b1 & b2 & -> & H1 & H2)%IH).
    exists (b ++ b1), b2. rewrite app_assoc. naive_solver.
  - intros (b1 & b2 & -> & (b & bs' & -> & Hb & H1) & H2). exists b, (bs' ++ b2).
    rewrite app_assoc. split; [done|]. split; [done|]. apply IH. naive_solver.
Qed.

(** ** Reading a layout *)

Definition scanner_ok (s : preflightScanner) : Prop :=
  Forall is_byte (s_rest s) ∧ s_n s <= s_expected s.

(** The scanner consumes exactly the layout, within the expected size, and returns
    [out] of the bytes consumed. *)
Definition reads {A} (m : Scanner A) (l : list item) (out : list Z → A) : Prop :=
  ∀ s a s', scanner_ok s →
    m s = Ok (a, s') ↔
    ∃ bs, s_rest s = bs ++ s_rest s' ∧ matches l bs ∧ a = out bs ∧
      s_n s' = s_n s + Z.of_nat (length bs) ∧ s_expected s' = s_expected s ∧
      s_n s' <= s_expected s.

Lemma reads_ok {A} (m : Scanner A) l out s a s' : reads m l out → scanner_ok s →
  m s = Ok (a, s') → scanner_ok s'.
Proof.
  intros Hm Hs Hr. apply Hm in Hr as (bs & Hb & _ & _ & _ & He & Hle); [|done].
  destruct Hs as [Hf _]. rewrite Hb in Hf. apply Forall_app in Hf as [_ Hf]. split; [done|lia].
Qed.

Lemma reads_bind {A B} (m : Scanner A) (f : A → Scanner B) l1 l2 o1 (o2 : list Z → list Z → B) :
  Forall item_ok l1 → reads m l1 o1 → (∀ b, reads (f (o1 b)) l2 (o2 b)) →
  reads (m ≫= f) (l1 ++ l2)
    (λ bs, let k := Z.to_nat (layout_size l1) in o2 (take k bs) (drop k bs)).
Proof.
  intros Hl Hm Hf s b s' Hs. unfold mbind, scanner_bind. split.
  - destruct (m s) as [[a s1]|] eqn:E; [|done]. intros Hr.
    pose proof (reads_ok m l1 o1 s a s1 Hm Hs E) as Hs1.
    apply Hm in E as (b1 & E1 & M1 & -> & N1 & X1 & L1); [|done].
    apply Hf in Hr as (b2 & E2 & M2 & -> & N2 & X2 & L2); [|done].
    exists (b1 ++ b2). rewrite <- app_assoc, <- E2. split; [done|].
    split; [apply matches_app; naive_solver|]. split; [|rewrite length_app; lia].
    pose proof (matches_size _ _ Hl M1). by rewrite take_app_length', drop_app_length' by lia.
  - intros (bs & Eb & (b1 & b2 & -> & M1 & M2)%matches_app & -> & N & X & L).
    rewrite length_app in N. rewrite <- app_assoc in Eb.
    set (s1 := {| s_rest := b2 ++ s_rest s'; s_n := s_n s + Z.of_nat (length b1);
                  s_expected := s_expected s |}).
    assert (m s = Ok (o1 b1, s1)) as Hm1.
    { apply Hm; [done|]. exists b1. cbn. repeat split; try done; lia. }
    rewrite Hm1. pose proof (reads_ok m l1 o1 s _ s1 Hm Hs Hm1) as Hs1.
    pose proof (matches_size _ _ Hl M1). rewrite take_app_length', drop_app_length' by lia.
    apply Hf; [done|]. exists b2. cbn. repeat split; try done; lia.
Qed.

Lemma reads_ext {A} (m : Scanner A) l l' o o' : reads m l o → l = l' →
  (∀ b, matches l' b → o b = o' b) → reads m l' o'.
Proof.
  intros Hm <- Ho s a s' Hs. rewrite (Hm s a s' Hs).
  split; intros (bs & E & M & -> & R); exists bs; rewrite ?(Ho bs M) in *; naive_solver.
Qed.

Lemma reads_ret {A} (a : A) : reads (mret a) [] (λ _, a).
Proof.
  intros s x s' [_ Hle]. unfold mret, scanner_ret. split.
  - intros [= <- <-]. exists []. cbn. repeat split; lia.
  - intros (bs & Eb & -> & -> & N & X & L). cbn in *. destruct s, s'; cbn in *. do 3 f_equal; lia || done.
Qed.

Lemma reads_within {A} label (m : Scanner A) l o : reads m l o → reads (scan_within label m) l o.
Proof.
  intros Hm s a s' Hs. rewrite <- (Hm s a s' Hs). unfold scan_within, within.
  destruct (m s) as [[? ?]|]; cbn; naive_solver.
Qed.

Lemma reads_readFull k : reads (readFull k) [IBytes k] id.
Proof.
  intros s a s' [Hf Hle]. unfold readFull. split.
  - destruct (Nat.ltb_spec (length (s_rest s)) k); [done|].
    destruct (Z.ltb_spec (s_expected s) (s_n s + Z.of_nat k)); [done|].
    intros [= <- <-]. exists (take k (s_rest s)). cbn. rewrite take_drop, length_take.
    split; [done|]. split; [|repeat split; lia].
    exists (take k (s_rest s)), []. rewrite app_nil_r, length_take. repeat split; lia.
  - intros (bs & Eb & (b & b' & -> & Hb & ->) & -> & N & X & L). cbn in Hb. rewrite app_nil_r in *.
    rewrite Eb, length_app, (proj2 (Nat.ltb_ge _ _)) by lia.
    rewrite (proj2 (Z.ltb_ge _ _)) by lia. unfold id.
    rewrite take_app_length', drop_app_length' by done.
    destruct s'; cbn in *. do 3 f_equal; lia || done.
Qed.

Lemma reads_be_val k : reads (b ← readFull k; mret (be_val b)) [IBytes k] be_val.
Proof.
  eapply reads_ext; [eapply (reads_bind _ _ [IBytes k] [] id (λ b _, be_val b)) | reflexivity |].
  - repeat constructor. unfold item_ok. cbn. lia.
  - apply reads_readFull.
  - intros b. apply reads_ret.
  - intros b (c & d & -> & Hc & Hd). cbn in Hc, Hd |- *. subst d. rewrite app_nil_r.
    by rewrite take_ge by lia.
Qed.

(** A field of [k] bytes compared with a number the shape fixes. *)
Lemma reads_number {A} k want (e : go_error) (m : Z → Scanner A) label l o :
  0 <= want < 256 ^ Z.of_nat k → reads (m want) l o →
  reads (n ← scan_within label (b ← readFull k; mret (be_val b));
         if negb (n =? want) then scan_fail e else m n)
    (ILit (be_bytes k want) :: l) (λ bs, o (drop k bs)).
Proof.
  intros Hw Hm s a s' Hs.
  pose proof (reads_within label _ _ _ (reads_be_val k)) as Hr.
  set (num := scan_within label (b ← readFull k; mret (be_val b))) in *.
  assert (be_val (be_bytes k want) = want) as Hv by (rewrite be_val_be_bytes; apply Z.mod_small; lia).
  unfold mbind at 1, scanner_bind at 1. split.
  - destruct (num s) as [[n s1]|] eqn:E; [|done].
    pose proof (reads_ok num _ _ s n s1 Hr Hs E) as Hs1.
    apply Hr in E as (b1 & E1 & (b & b' & -> & Hb & ->) & -> & N1 & X1 & L1); [|done].
    cbn in Hb. rewrite app_nil_r in *.
    destruct (Z.eqb_spec (be_val b) want) as [Hbw|]; [|done]. cbn [negb]. intros Hr2.
    rewrite Hbw in Hr2. apply Hm in Hr2 as (b2 & E2 & M2 & -> & N2 & X2 & L2); [|done].
    assert (b = be_bytes k want) as ->.
    { rewrite <- Hbw, <- Hb. symmetry. apply be_bytes_be_val. destruct Hs as [Hf _].
      rewrite E1 in Hf. by apply Forall_app in Hf as [Hf _]. }
    exists (be_bytes k want ++ b2). rewrite <- app_assoc, <- E2. split; [done|].
    split; [by exists (be_bytes k want), b2|].
    rewrite drop_app_length' by (by rewrite length_be_bytes). split; [done|].
    rewrite length_app. lia.
  - intros (bs & Eb & (b & b2 & -> & -> & M2) & -> & N & X & L).
    rewrite <- app_assoc in Eb. rewrite length_app, length_be_bytes in N.
    set (s1 := {| s_rest := b2 ++ s_rest s'; s_n := s_n s + Z.of_nat k; s_expected := s_expected s |}).
    assert (num s = Ok (want, s1)) as Hm1.
    { apply Hr; [done|]. exists (be_bytes k want). rewrite length_be_bytes. split; [done|].
      split; [exists (be_bytes k want), []; rewrite app_nil_r; cbn; by rewrite length_be_bytes|].
      cbn. repeat split; try done; lia. }
    rewrite Hm1. pose proof (reads_ok num _ _ s _ s1 Hr Hs Hm1) as Hs1.
    rewrite Z.eqb_refl. cbn [negb]. rewrite drop_app_length' by (by rewrite length_be_bytes).
    apply Hm; [done|]. exists b2. cbn. repeat split; try done; lia.
Qed.

(** ** The pieces of the artifacts *)

Lemma reads_point size : 0 < size → reads (scan_point size) [IPoint size] (λ _, tt).
Proof.
  intros Hsz s [] s' Hs. pose proof (reads_readFull (Z.to_nat size)) as Hr.
  unfold scan_point, mbind, scanner_bind. split.
  - destruct (readFull (Z.to_nat size) s) as [[b s1]|] eqn:E; [|done].
    destruct (canonical_flag (b !!! 0%nat)) eqn:Hf; [|done]. intros [= ->].
    apply Hr in E as (b1 & E1 & (b' & b0 & -> & Hb & ->) & -> & N & X & L); [|done].
    unfold id in Hf. cbn in Hb. rewrite app_nil_r in *. exists b'. split; [done|].
    split; [|done]. exists b', []. by rewrite app_nil_r.
  - intros (bs & Eb & (b & b0 & -> & (Hb & Hf) & ->) & _ & N & X & L). rewrite app_nil_r in *.
    assert (readFull (Z.to_nat size) s = Ok (b, s')) as ->.
    { apply Hr; [done|]. exists b. split; [done|]. split; [|done].
      exists b, []. rewrite app_nil_r. by cbn. }
    by rewrite Hf.
Qed.

(** Sequencing two scans whose results are discarded. *)
Lemma reads_seq {A} (m : Scanner unit) (k : Scanner A) l1 l2 o :
  Forall item_ok l1 → reads m l1 (λ _, tt) → reads k l2 o →
  reads (_ ← m; k) (l1 ++ l2) (λ bs, o (drop (Z.to_nat (layout_size l1)) bs)).
Proof. intros Hl Hm Hk. by apply (reads_bind m (λ _, k) l1 l2 (λ _, tt) (λ _, o)). Qed.

Lemma reads_seq_unit (m k : Scanner unit) l1 l2 :
  Forall item_ok l1 → reads m l1 (λ _, tt) → reads k l2 (λ _, tt) →
  reads (_ ← m; k) (l1 ++ l2) (λ _, tt).
Proof. intros Hl Hm Hk. by apply (reads_seq m k l1 l2 (λ _, tt)). Qed.

Lemma reads_repeat n m l : Forall item_ok l → reads m l (λ _, tt) →
  reads (scan_repeat n m) (concat (replicate n l)) (λ _, tt).
Proof.
  intros Hl Hm. induction n as [|n IH]; [apply reads_ret|]. cbn [scan_repeat replicate concat].
  by apply reads_seq_unit.
Qed.

Abbreviation G1 := (IPoint g1CompressedSize).
Abbreviation G2 := (IPoint g2CompressedSize).

Lemma concat_replicate_1 {A} n (x : A) : concat (replicate n [x]) = replicate n x.
Proof. induction n as [|n IH]; [done|]. cbn. by rewrite IH. Qed.

Lemma reads_pointsG1 n : reads (pointsG1 n) (replicate (Z.to_nat n) G1) (λ _, tt).
Proof.
  rewrite <- concat_replicate_1. apply reads_repeat; [by repeat constructor|].
  apply reads_within, reads_point. done.
Qed.

Lemma reads_pointsG2 n : reads (pointsG2 n) (replicate (Z.to_nat n) G2) (λ _, tt).
Proof.
  rewrite <- concat_replicate_1. apply reads_repeat; [by repeat constructor|].
  apply reads_within, reads_point. done.
Qed.

Definition vector_layout (n : Z) : list item :=
  ILit (be_bytes 4 n) :: replicate (Z.to_nat n) G1.

Lemma reads_vectorG1 name n : 0 <= n < 2 ^ 32 → reads (vectorG1 name n) (vector_layout n) (λ _, tt).
Proof.
  intros Hn. unfold vectorG1, scan_uint32.
  apply (reads_number 4 n _ (λ n, scan_within name (pointsG1 n)) _ _ (λ _, tt)); [done|].
  apply reads_within, reads_pointsG1.
Qed.

Lemma reads_updateProof name : reads (updateProof name) [G1; G2] (λ _, tt).
Proof.
  apply (reads_seq_unit _ _ [G1] [G2]); [by repeat constructor|..]; by apply reads_within, reads_point.
Qed.

Definition challenge_layout (n : Z) : list item := [ILit (be_bytes 1 n); IBytes (Z.to_nat n)].

Lemma reads_challenge n : 0 <= n < 2 ^ 8 → reads (scan_challenge n) (challenge_layout n) (drop 1).
Proof.
  intros Hn. unfold scan_challenge.
  assert (∀ s, scanner_ok s →
    (length ← scan_within "challenge length" (readFull 1);
     if negb (length !!! 0%nat =? n) then scan_fail (ErrInvalidShape "challenge length %d, expected %d")
     else scan_within "challenge" (readFull (Z.to_nat n))) s =
    (m ← scan_within "challenge length" (b ← readFull 1; mret (be_val b));
     if negb (m =? n) then scan_fail (ErrInvalidShape "challenge length %d, expected %d")
     else scan_within "challenge" (readFull (Z.to_nat n))) s) as Heq.
  { intros s [Hf Hle]. unfold scan_within, within, mbind, scanner_bind, readFull.
    destruct (Nat.ltb_spec (length (s_rest s)) 1); [done|].
    destruct (s_expected s <? s_n s + Z.of_nat 1); [done|]. cbn [map_err].
    destruct (s_rest s) as [|b rest]; [cbn in *; lia|].
    assert (be_val (take 1 (b :: rest)) = b) as Hv by (change (b + 256 * 0 = b); lia).
    unfold mret, scanner_ret. cbn [map_err]. rewrite Hv. done. }
  intros s a s' Hs. rewrite (Heq s Hs). revert s a s' Hs.
  apply (reads_number 1 n _ (λ _, scan_within "challenge" (readFull (Z.to_nat n))) _ _ id); [done|].
  apply reads_within, reads_readFull.
Qed.

(** ** Sizes *)

Lemma land_pred_pow2 n : 0 < n → Z.land n (n - 1) = 0 ↔ ∃ k, 0 <= k ∧ n = 2 ^ k.
Proof.
  intros Hn. split.
  - intros Hl. exists (Z.log2 n). split; [apply Z.log2_nonneg|].
    destruct (Z.log2_spec n Hn) as [Hlo Hhi].
    destruct (Z.eq_dec n (2 ^ Z.log2 n)) as [|Hne]; [done|exfalso].
    assert (Z.log2 (n - 1) = Z.log2 n) as He.
    { apply Z.log2_unique; [apply Z.log2_nonneg|lia]. }
    assert (Z.testbit (Z.land n (n - 1)) (Z.log2 n) = true) as Hb.
    { rewrite Z.land_spec, Z.bit_log2 by done. rewrite <- He, Z.bit_log2; [done|].
      pose proof (Z.pow_pos_nonneg 2 (Z.log2 n) ltac:(lia) (Z.log2_nonneg n)). lia. }
    by rewrite Hl, Z.bits_0 in Hb.
  - intros (k & Hk & ->). replace (2 ^ k - 1) with (Z.ones k).
    + rewrite Z.land_ones by done. apply Z.mod_same. pose proof (Z.pow_pos_nonneg 2 k). lia.
    + rewrite Z.ones_equiv. lia.
Qed.

Definition domain_ok (n : Z) : Prop := ∃ k, 1 <= k <= 32 ∧ n = 2 ^ k.

Lemma domain_range n : domain_ok n → 2 <= n <= 2 ^ 32.
Proof.
  intros (k & Hk & ->). split; [apply (Z.pow_le_mono_r 2 1)|apply Z.pow_le_mono_r]; lia.
Qed.

Lemma validateDomain_ok n u : 0 <= n < 2 ^ 64 → validateDomain n = Ok u ↔ domain_ok n.
Proof.
  intros Hn. unfold validateDomain. rewrite guard_err_Ok, !Bool.orb_false_iff, !Z.ltb_ge,
    Bool.negb_false_iff, Z.eqb_eq. unfold MaxDomainN. split.
  - intros [[H1 H2] H3]. rewrite u64_small in H3 by lia.
    apply land_pred_pow2 in H3 as (k & Hk & ->); [|lia]. exists k. split; [|done].
    split; [|apply (Z.pow_le_mono_r_iff 2); lia].
    destruct (Z.eq_dec k 0) as [->|]; [cbn in *; lia|lia].
  - intros Hd. pose proof (domain_range n Hd). destruct Hd as (k & Hk & E). split; [lia|].
    rewrite u64_small by lia. apply land_pred_pow2; [lia|]. exists k. split; [lia|done].
Qed.

Lemma checkedAdd_ok a b : 0 <= a + b < 2 ^ 64 → checkedAdd a b = Ok (a + b).
Proof.
  intros Hab. unfold checkedAdd. rewrite (proj2 (Z.leb_gt _ _)) by lia. by rewrite u64_small.
Qed.

Lemma checkedMul_ok a b : 0 <= a * b < 2 ^ 64 → checkedMul a b = Ok (a * b).
Proof.
  intros Hab. unfold checkedMul. rewrite Z.shiftr_div_pow2, Z.div_small by lia. cbn.
  by rewrite u64_small.
Qed.

(** The size accepted, or the operational limit exceeded. *)
Definition within_limit (n : Z) : result go_error Z :=
  if n <=? MaxArtifactSize then Ok n else Err ErrArtifactTooLarge.

Lemma checkedArtifactSize_limit n : n < 2 ^ 63 → checkedArtifactSize n = within_limit n.
Proof.
  intros Hn. unfold checkedArtifactSize, within_limit. rewrite (proj2 (Z.ltb_ge _ _)) by lia.
  destruct (Z.ltb_spec MaxArtifactSize n), (Z.leb_spec n MaxArtifactSize); try lia; done.
Qed.

Lemma ExpectedCommonsSize_spec n : domain_ok n →
  ExpectedCommonsSize {| cs_DomainN := n |} = within_limit (288 * n - 88).
Proof.
  intros Hd. pose proof (domain_range n Hd). unfold ExpectedCommonsSize. cbn [cs_DomainN].
  rewrite (proj2 (validateDomain_ok n tt ltac:(lia)) Hd). cbn [mbind result_bind].
  rewrite checkedMul_ok by lia. cbn [mbind result_bind]. unfold checkedSub.
  rewrite (proj2 (Z.ltb_ge _ _)) by lia. cbn [mbind result_bind].
  rewrite checkedArtifactSize_limit by lia. f_equal. lia.
Qed.

Lemma ExpectedPhase1Size_spec n c : domain_ok n → 0 <= c < 256 →
  ExpectedPhase1Size {| p1_DomainN := n; p1_ChallengeLength := c |} = within_limit (288 * n + 345 + c).
Proof.
  intros Hd Hc. pose proof (domain_range n Hd). unfold ExpectedPhase1Size.
  cbn [p1_DomainN p1_ChallengeLength]. rewrite ExpectedCommonsSize_spec by done.
  unfold within_limit at 1. destruct (Z.leb_spec (288 * n - 88) MaxArtifactSize) as [Hle|Hgt].
  - cbn [mbind result_bind]. unfold MaxArtifactSize, g1CompressedSize, g2CompressedSize in *.
    cbn in Hle. rewrite checkedAdd_ok by lia. cbn [mbind result_bind].
    rewrite checkedAdd_ok by lia. cbn [mbind result_bind].
    rewrite checkedArtifactSize_limit by lia. f_equal. lia.
  - cbn. unfold within_limit. by rewrite (proj2 (Z.leb_gt _ _)) by lia.
Qed.

Definition sum_points (ns : list Z) : Z := foldr Z.add 0 ns.
Definition word32 (n : Z) : Prop := 0 <= n < 2 ^ 32.

Lemma sum_points_bound ns : Forall word32 ns →
  0 <= sum_points ns <= Z.of_nat (length ns) * (2 ^ 32 - 1).
Proof.
  unfold word32, sum_points. induction 1 as [|n ns Hn _ IH]; [cbn; lia|].
  cbn [foldr length]. lia.
Qed.

Lemma add_points_ok t ns : Forall word32 ns → 0 <= t → t + sum_points ns < 2 ^ 64 →
  add_points t ns = Ok (t + sum_points ns).
Proof.
  unfold word32, sum_points. intros Hns. revert t.
  induction Hns as [|n ns Hn Hns IH]; intros t Ht Hs; cbn [add_points foldr] in *; [f_equal; lia|].
  pose proof (sum_points_bound ns Hns) as Hb. unfold sum_points in Hb.
  rewrite checkedAdd_ok by lia. cbn [mbind result_bind]. rewrite IH by lia. f_equal. lia.
Qed.

(** What the Go types guarantee of a Phase 2 shape. *)
Record phase2_typed (s : Phase2Shape) : Prop := {
  p2t_Commitments : 0 <= p2_Commitments s < 2 ^ 16;
  p2t_PKK : word32 (p2_PKK s);
  p2t_Z : word32 (p2_Z s);
  p2t_SigmaCKK : Forall word32 (default [] (p2_SigmaCKK s));
  p2t_ChallengeLength : 0 <= p2_ChallengeLength s < 256 }.

Definition phase2_points (s : Phase2Shape) : Z :=
  p2_PKK s + p2_Z s + sum_points (default [] (p2_SigmaCKK s)).

Definition commitments_ok (s : Phase2Shape) : Prop :=
  p2_Commitments s <= 255 ∧ Z.of_nat (slice_len (p2_SigmaCKK s)) = p2_Commitments s.

Lemma check_commitments_ok s : check_commitments s = Ok tt ↔ commitments_ok s.
Proof.
  unfold check_commitments, commitments_ok, MaxPhase2Commitments. split.
  - intros Hc. inv_result. rewrite Z.ltb_ge, Bool.negb_false_iff, Z.eqb_eq in *. done.
  - intros [H1 H2]. rewrite (proj2 (Z.ltb_ge _ _)) by done. cbn.
    by rewrite (proj2 (Z.eqb_eq _ _)) by done.
Qed.

Lemma ExpectedPhase2Size_spec s : phase2_typed s → commitments_ok s →
  ExpectedPhase2Size s =
    within_limit (48 * phase2_points s + 299 + 244 * p2_Commitments s + p2_ChallengeLength s).
Proof.
  intros [Hc Hp Hz Hs Hl] Hok. unfold ExpectedPhase2Size.
  rewrite (proj2 (check_commitments_ok s) Hok). cbn [mbind result_bind].
  destruct Hok as [Hmax Hlen]. unfold slice_len in Hlen.
  pose proof (sum_points_bound _ Hs) as Hb. unfold phase2_points, g1CompressedSize, word32 in *.
  rewrite u64_small by lia. rewrite add_points_ok by (first [done|lia]).
  cbn [mbind result_bind]. rewrite !checkedMul_ok by lia. cbn [mbind result_bind].
  rewrite checkedAdd_ok by lia. cbn [mbind result_bind].
  rewrite checkedAdd_ok by lia. cbn [mbind result_bind].
  rewrite checkedArtifactSize_limit by lia. f_equal. lia.
Qed.

(** ** The layouts of the three artifacts *)

Definition commons_body (n : Z) : list item :=
  [G2] ++ replicate (Z.to_nat (2 * n - 2)) G1 ++ replicate (Z.to_nat (n - 1)) G2 ++
  replicate (Z.to_nat n) G1 ++ replicate (Z.to_nat n) G1.

Definition commons_layout (s : CommonsShape) : list item :=
  ILit (be_bytes 8 (cs_DomainN s)) :: commons_body (cs_DomainN s).

Definition phase1_layout (s : Phase1Shape) : list item :=
  concat (replicate 3 [G1; G2]) ++
  ILit (be_bytes 8 (p1_DomainN s)) :: commons_body (p1_DomainN s) ++
  challenge_layout (p1_ChallengeLength s).

Definition phase2_layout (s : Phase2Shape) : list item :=
  let c := Z.to_nat (p2_Commitments s) in
  ILit (be_bytes 2 (p2_Commitments s)) :: [G1] ++ vector_layout (p2_PKK s) ++
  vector_layout (p2_Z s) ++ [G2] ++ concat (vector_layout <$> default [] (p2_SigmaCKK s)) ++
  replicate c G2 ++ [G1; G2] ++ concat (replicate c [G1; G2]) ++
  challenge_layout (p2_ChallengeLength s).

Lemma items_lit l : item_ok (ILit l).
Proof. unfold item_ok; cbn; lia. Qed.
Lemma items_bytes n : item_ok (IBytes n).
Proof. unfold item_ok; cbn; lia. Qed.
Lemma items_G1 : item_ok G1.
Proof. done. Qed.
Lemma items_G2 : item_ok G2.
Proof. done. Qed.
Lemma items_concat_replicate n l : Forall item_ok l → Forall item_ok (concat (replicate n l)).
Proof. intros Hl. apply Forall_concat, Forall_replicate, Hl. Qed.

Create HintDb items.
#[export] Hint Resolve items_lit items_bytes items_G1 items_G2 Forall_app_2 Forall_replicate
  items_concat_replicate : items.
#[export] Hint Constructors Forall : items.

Lemma items_vector n : Forall item_ok (vector_layout n).
Proof. unfold vector_layout. auto with items. Qed.
Lemma items_challenge n : Forall item_ok (challenge_layout n).
Proof. unfold challenge_layout. auto with items. Qed.
Lemma items_commons n : Forall item_ok (commons_body n).
Proof. unfold commons_body. auto 10 with items. Qed.
Lemma items_vectors ns : Forall item_ok (concat (vector_layout <$> ns)).
Proof. apply Forall_concat, Forall_fmap, Forall_forall. intros. apply items_vector. Qed.
#[export] Hint Resolve items_vector items_challenge items_commons items_vectors : items.

(** ** Their sizes are the ones computed in advance *)

Lemma layout_size_cons i l : layout_size (i :: l) = item_size i + layout_size l.
Proof. done. Qed.

Lemma layout_size_concat_replicate n l : layout_size (concat (replicate n l)) = Z.of_nat n * layout_size l.
Proof.
  induction n as [|n IH]; [done|]. cbn [replicate concat]. rewrite layout_size_app, IH. lia.
Qed.

Lemma vector_layout_size n : 0 <= n → layout_size (vector_layout n) = 4 + 48 * n.
Proof.
  intros Hn. unfold vector_layout. rewrite layout_size_cons, layout_size_replicate.
  cbn [item_size]. rewrite length_be_bytes. unfold g1CompressedSize. lia.
Qed.

Lemma vectors_layout_size ns : Forall word32 ns →
  layout_size (concat (vector_layout <$> ns)) = 4 * Z.of_nat (length ns) + 48 * sum_points ns.
Proof.
  unfold word32, sum_points. induction 1 as [|n ns Hn _ IH]; [done|].
  cbn [fmap list_fmap concat length foldr].
  rewrite layout_size_app, vector_layout_size by lia. fold (fmap (M:=list) vector_layout ns).
  rewrite IH. lia.
Qed.

Lemma challenge_layout_size n : 0 <= n → layout_size (challenge_layout n) = 1 + n.
Proof.
  intros Hn. unfold challenge_layout. rewrite !layout_size_cons. cbn [item_size].
  rewrite length_be_bytes. change (layout_size []) with 0. lia.
Qed.

Lemma commons_body_size n : 2 <= n → layout_size (commons_body n) = 288 * n - 96.
Proof.
  intros Hn. unfold commons_body. rewrite !layout_size_app, !layout_size_replicate.
  change (layout_size [G2]) with 96. change (item_size G1) with 48. change (item_size G2) with 96.
  lia.
Qed.

Lemma commons_layout_size n : 2 <= n →
  layout_size (commons_layout {| cs_DomainN := n |}) = 288 * n - 88.
Proof.
  intros Hn. unfold commons_layout. cbn [cs_DomainN]. rewrite layout_size_cons, commons_body_size by done.
  cbn [item_size]. rewrite length_be_bytes. lia.
Qed.

Lemma phase1_layout_size n c : 2 <= n → 0 <= c →
  layout_size (phase1_layout {| p1_DomainN := n; p1_ChallengeLength := c |}) = 288 * n + 345 + c.
Proof.
  intros Hn Hc. unfold phase1_layout. cbn [p1_DomainN p1_ChallengeLength].
  rewrite layout_size_app, layout_size_cons, layout_size_app, commons_body_size,
    challenge_layout_size, layout_size_concat_replicate by done.
  change (layout_size [G1; G2]) with 144. cbn [item_size]. rewrite length_be_bytes. lia.
Qed.

Lemma phase2_layout_size s : phase2_typed s → commitments_ok s →
  layout_size (phase2_layout s) =
    48 * phase2_points s + 299 + 244 * p2_Commitments s + p2_ChallengeLength s.
Proof.
  intros [Hc Hp Hz Hs Hl] [_ Hlen]. unfold slice_len in Hlen. unfold word32 in *.
  unfold phase2_layout, phase2_points. cbv zeta.
  rewrite layout_size_cons, !layout_size_app, !layout_size_concat_replicate, layout_size_replicate,
    !vector_layout_size, challenge_layout_size, vectors_layout_size by (first [lia|done]).
  change (layout_size [G1; G2]) with 144. change (layout_size [G1]) with 48.
  change (layout_size [G2]) with 96. change (item_size G2) with 96. cbn [item_size].
  rewrite length_be_bytes. lia.
Qed.

(** ** The scans *)

Lemma reads_commons_body n : domain_ok n → reads (scanCommonsBody n) (commons_body n) (λ _, tt).
Proof.
  intros Hd. pose proof (domain_range n Hd). unfold scanCommonsBody, commons_body.
  rewrite !u64_small by lia.
  repeat (apply reads_seq_unit; [auto with items|first [apply reads_within, reads_point; done
    |apply reads_within, reads_pointsG1|apply reads_within, reads_pointsG2]|]).
  apply reads_within, reads_pointsG1.
Qed.

Lemma reads_vectors ns : Forall word32 ns →
  reads (scan_vectors ns) (concat (vector_layout <$> ns)) (λ _, tt).
Proof.
  induction 1 as [|n ns Hn _ IH]; [apply reads_ret|]. cbn [scan_vectors fmap list_fmap concat].
  apply reads_seq_unit; [auto with items|by apply reads_vectorG1|exact IH].
Qed.

Definition phase1_body (s : Phase1Shape) : Scanner (list Z) :=
  _ ← scan_repeat 3 (updateProof "Phase 1 update proof");
  n ← scan_within "Phase 1 domain" scan_uint64;
  if negb (n =? p1_DomainN s) then scan_fail (ErrInvalidShape "Phase 1 domain %d, expected %d") else
  _ ← scanCommonsBody n;
  scan_challenge (p1_ChallengeLength s).

Definition commons_scan (s : CommonsShape) : Scanner unit :=
  n ← scan_within "SRS commons domain" scan_uint64;
  if negb (n =? cs_DomainN s) then scan_fail (ErrInvalidShape "SRS commons domain %d, expected %d") else
  scanCommonsBody n.

Definition phase2_body (s : Phase2Shape) : Scanner (list Z) :=
  commitments ← scan_within "Phase 2 commitments" scan_uint16;
  if negb (commitments =? p2_Commitments s) then
    scan_fail (ErrInvalidShape "Phase 2 commitments %d, expected %d") else
  _ ← scan_within "Phase 2 G1 Delta" pointG1;
  _ ← vectorG1 "Phase 2 PKK" (p2_PKK s);
  _ ← vectorG1 "Phase 2 Z" (p2_Z s);
  _ ← scan_within "Phase 2 G2 Delta" pointG2;
  _ ← scan_vectors (default [] (p2_SigmaCKK s));
  _ ← scan_within "Phase 2 G2 Sigma" (pointsG2 (p2_Commitments s));
  _ ← updateProof "Phase 2 Delta proof";
  _ ← scan_repeat (Z.to_nat (p2_Commitments s)) (updateProof "Phase 2 Sigma proof[%d]");
  scan_challenge (p2_ChallengeLength s).

(** The challenge is the tail of the artifact. *)
Definition tail_bytes (c : Z) (bs : list Z) : list Z := drop (length bs - Z.to_nat c) bs.

Lemma reads_tail (m : Scanner (list Z)) l k c : Forall item_ok l → 0 <= c →
  layout_size l = Z.of_nat k + c → reads m l (drop k) → reads m l (tail_bytes c).
Proof.
  intros Hl Hc Hk Hm. eapply reads_ext; [exact Hm|done|]. intros b Hb. unfold tail_bytes.
  pose proof (matches_size _ _ Hl Hb). f_equal. lia.
Qed.

Lemma reads_seq_drop {A} (m : Scanner unit) (k : Scanner (list A)) l1 l2 d (o : nat → list Z → list A) :
  Forall item_ok l1 → reads m l1 (λ _, tt) → reads k l2 (o d) →
  (∀ a b l, o a (drop b l) = o (b + a)%nat l) →
  reads (_ ← m; k) (l1 ++ l2) (o (Z.to_nat (layout_size l1) + d)%nat).
Proof.
  intros Hl Hm Hk Ho. eapply reads_ext; [by apply reads_seq|done|]. intros b _. apply Ho.
Qed.

Lemma reads_seq_tail (m : Scanner unit) (k : Scanner (list Z)) l1 l2 d :
  Forall item_ok l1 → reads m l1 (λ _, tt) → reads k l2 (drop d) →
  reads (_ ← m; k) (l1 ++ l2) (drop (Z.to_nat (layout_size l1) + d)).
Proof. intros. apply (reads_seq_drop _ _ _ _ _ drop); try done. intros. by rewrite drop_drop. Qed.

Lemma reads_phase1 n c : domain_ok n → 0 <= c < 256 →
  let s := {| p1_DomainN := n; p1_ChallengeLength := c |} in
  reads (phase1_body s) (phase1_layout s) (tail_bytes c).
Proof.
  intros Hd Hc s. pose proof (domain_range n Hd).
  eapply reads_tail with (k := Z.to_nat (288 * n + 345)).
  { unfold s, phase1_layout. cbn [p1_DomainN p1_ChallengeLength]. auto 10 with items. }
  { lia. }
  { unfold s. rewrite phase1_layout_size by lia. lia. }
  unfold phase1_body, phase1_layout. cbn [p1_DomainN p1_ChallengeLength s].
  eapply reads_ext; [apply reads_seq_tail with (d := (Z.to_nat (288 * n - 96) + 1 + 8)%nat)|done|].
  - auto with items.
  - apply reads_repeat; [auto with items|apply reads_updateProof].
  - eapply reads_ext; [apply (reads_number 8 n _ (λ n, _ ← scanCommonsBody n; scan_challenge c) _
      (commons_body n ++ challenge_layout c) (drop (Z.to_nat (288 * n - 96) + 1)))|done|].
    + lia.
    + rewrite <- (commons_body_size n) by lia.
      apply reads_seq_tail; [auto with items|by apply reads_commons_body|by apply reads_challenge].
    + intros b _. cbv beta. rewrite drop_drop. f_equal. lia.
  - intros b _. f_equal. rewrite layout_size_concat_replicate.
    change (layout_size [G1; G2]) with 144. lia.
Qed.

Lemma reads_commons n : domain_ok n →
  reads (commons_scan {| cs_DomainN := n |}) (commons_layout {| cs_DomainN := n |}) (λ _, tt).
Proof.
  intros Hd. pose proof (domain_range n Hd).
  apply (reads_number 8 n _ scanCommonsBody _ _ (λ _, tt)); [lia|]. by apply reads_commons_body.
Qed.

Lemma items_phase2 s : Forall item_ok (phase2_layout s).
Proof.
  unfold phase2_layout. cbv zeta. apply Forall_cons. split; [apply items_lit|].
  repeat (apply Forall_app_2; [auto with items|]). auto with items.
Qed.

Lemma reads_phase2 s : phase2_typed s → commitments_ok s →
  reads (phase2_body s) (phase2_layout s) (tail_bytes (p2_ChallengeLength s)).
Proof.
  intros Hty Hok. pose proof (phase2_layout_size s Hty Hok) as Hsz.
  destruct Hty as [Hc Hp Hz Hs Hl]. pose proof (sum_points_bound _ Hs).
  unfold word32, phase2_points in *.
  set (c := Z.to_nat (p2_Commitments s)).
  set (rest := [G1] ++ vector_layout (p2_PKK s) ++ vector_layout (p2_Z s) ++ [G2] ++
    concat (vector_layout <$> default [] (p2_SigmaCKK s)) ++ replicate c G2 ++ [G1; G2] ++
    concat (replicate c [G1; G2]) ++ challenge_layout (p2_ChallengeLength s)).
  assert (phase2_layout s = ILit (be_bytes 2 (p2_Commitments s)) :: rest) as Hlay by done.
  assert (∃ k, reads (phase2_body s) (phase2_layout s) (drop k) ∧
    layout_size (phase2_layout s) = Z.of_nat k + p2_ChallengeLength s) as (k & Hk & Hks).
  2:{ apply reads_tail with (k := k); [apply items_phase2|lia|done|done]. }
  eexists. split.
  - eapply reads_ext; [eapply (reads_number 2 (p2_Commitments s))|reflexivity|].
    + lia.
    + repeat (apply reads_seq_tail; [auto with items|first
        [ apply reads_within, reads_point; done | by apply reads_vectorG1 | by apply reads_vectors
        | apply reads_within, reads_pointsG2 | apply reads_updateProof
        | apply reads_repeat; [auto with items|apply reads_updateProof] ]|]).
      by apply reads_challenge.
    + intros b _. cbv beta. rewrite drop_drop. reflexivity.
  - rewrite Hlay, layout_size_cons. unfold rest. rewrite !layout_size_app, !Nat2Z.inj_add, !Z2Nat.id
      by (apply layout_size_nonneg; auto with items).
    rewrite challenge_layout_size by lia. cbn [item_size]. rewrite length_be_bytes. fold c. lia.
Qed.

(** ** Whole inputs *)

Section preflight.
Context `{XCryptoBlake2b}.

(** The digest of an artifact accepted: its size, its two hashes and its challenge. *)
Definition artifact_digest (input challenge : list Z) : ArtifactDigest :=
  {| ad_Size := Z.of_nat (length input); ad_SHA256 := sha256_Sum256 input;
     ad_BLAKE2b256 := blake2b_sum 32 input; ad_Challenge := challenge |}.

Lemma run_reads {A} (body : Scanner A) l out (challenge : A → list Z) input d :
  Forall item_ok l → Forall is_byte input → reads body l out →
  run_scanner input (layout_size l) (x ← body; scan_finish input (challenge x)) = Ok d ↔
  matches l input ∧ d = artifact_digest input (challenge (out input)).
Proof.
  intros Hl Hb Hr. pose proof (layout_size_nonneg l Hl).
  set (s0 := {| s_rest := input; s_n := 0; s_expected := layout_size l |}).
  assert (scanner_ok s0) as Hs0 by done.
  unfold run_scanner. fold s0. unfold mbind, result_bind, scanner_bind. split.
  - destruct (body s0) as [[x s1]|] eqn:E; [|done].
    apply Hr in E as (bs & E1 & M & -> & N & X & L); [|done]. cbn in E1.
    unfold scan_finish. destruct (Z.eqb_spec (s_n s1) (s_expected s1)) as [Hn|]; [|done]. cbn [negb].
    destruct (s_rest s1) eqn:Er; [|done]. intros [= <-]. rewrite app_nil_r in E1. subst bs.
    split; [done|]. unfold artifact_digest. f_equal. rewrite X. cbn.
    symmetry. by apply matches_size.
  - intros [M ->]. pose proof (matches_size _ _ Hl M) as Hsz.
    assert (body s0 = Ok (out input, {| s_rest := []; s_n := layout_size l; s_expected := layout_size l |})) as ->.
    { apply Hr; [done|]. exists input. cbn [s_rest s_n s_expected s0]. rewrite app_nil_r.
      split; [reflexivity|]. split; [exact M|]. split; [reflexivity|].
      split; [lia|]. split; [reflexivity|lia]. }
    unfold scan_finish. cbn [s_rest s_n s_expected]. rewrite Z.eqb_refl. cbn [negb].
    unfold artifact_digest. rewrite Hsz. reflexivity.
Qed.

(** The scan of an artifact followed by the end of the input. *)
Lemma scanner_bind_assoc {A B C} (m : Scanner A) (f : A → Scanner B) (g : B → Scanner C) :
  (m ≫= f) ≫= g = (m ≫= λ a, f a ≫= g).
Proof.
  apply functional_extensionality. intros s. unfold mbind, scanner_bind. by destruct (m s) as [[]|].
Qed.

Lemma scanner_bind_ext {A B} (m : Scanner A) (f g : A → Scanner B) :
  (∀ a, f a = g a) → (m ≫= f) = (m ≫= g).
Proof. intros Hfg. f_equal. by apply functional_extensionality. Qed.

Lemma run_scanner_ext {A} input r (f g : Scanner A) : f = g →
  (size ← r; run_scanner input size f) = (size ← r; run_scanner input size g).
Proof. by intros ->. Qed.

Ltac fuse_scan :=
  apply run_scanner_ext;
  repeat (rewrite scanner_bind_assoc; apply scanner_bind_ext; intros ?);
  match goal with |- context [if ?b then _ else _] => destruct b end; [reflexivity|];
  repeat (rewrite scanner_bind_assoc; apply scanner_bind_ext; intros ?); reflexivity.

Lemma PreflightPhase1_body input s : PreflightPhase1 input s =
  (size ← ExpectedPhase1Size s; run_scanner input size (c ← phase1_body s; scan_finish input c)).
Proof. unfold PreflightPhase1, phase1_body. fuse_scan. Qed.

Lemma PreflightCommons_body input s : PreflightCommons input s =
  (size ← ExpectedCommonsSize s; run_scanner input size (_ ← commons_scan s; scan_finish input [])).
Proof. unfold PreflightCommons, commons_scan. fuse_scan. Qed.

Lemma PreflightPhase2_body input s : PreflightPhase2 input s =
  (size ← ExpectedPhase2Size s; run_scanner input size (c ← phase2_body s; scan_finish input c)).
Proof. unfold PreflightPhase2, phase2_body. fuse_scan. Qed.

Lemma within_limit_Ok n size : within_limit n = Ok size ↔ size = n ∧ n <= MaxArtifactSize.
Proof.
  unfold within_limit. destruct (Z.leb_spec n MaxArtifactSize).
  - split; [by intros [= ->]|by intros [-> _]].
  - split; [done|]. intros [_ ?]. lia.
Qed.

Lemma ExpectedPhase1Size_Ok n c size : 0 <= n < 2 ^ 64 → 0 <= c < 256 →
  ExpectedPhase1Size {| p1_DomainN := n; p1_ChallengeLength := c |} = Ok size ↔
  domain_ok n ∧ 288 * n + 345 + c <= MaxArtifactSize ∧ size = 288 * n + 345 + c.
Proof.
  intros Hn Hc. split.
  - intros He. assert (domain_ok n) as Hd.
    { unfold ExpectedPhase1Size, ExpectedCommonsSize in He. inv_result. by eapply validateDomain_ok. }
    rewrite ExpectedPhase1Size_spec in He by done. apply within_limit_Ok in He as [-> ?]. done.
  - intros (Hd & Hle & ->). rewrite ExpectedPhase1Size_spec by done. by apply within_limit_Ok.
Qed.

Lemma ExpectedCommonsSize_Ok n size : 0 <= n < 2 ^ 64 →
  ExpectedCommonsSize {| cs_DomainN := n |} = Ok size ↔
  domain_ok n ∧ 288 * n - 88 <= MaxArtifactSize ∧ size = 288 * n - 88.
Proof.
  intros Hn. split.
  - intros He. assert (domain_ok n) as Hd.
    { unfold ExpectedCommonsSize in He. inv_result. by eapply validateDomain_ok. }
    rewrite ExpectedCommonsSize_spec in He by done. apply within_limit_Ok in He as [-> ?]. done.
  - intros (Hd & Hle & ->). rewrite ExpectedCommonsSize_spec by done. by apply within_limit_Ok.
Qed.

Lemma ExpectedPhase2Size_Ok s size : phase2_typed s →
  ExpectedPhase2Size s = Ok size ↔
  commitments_ok s ∧ layout_size (phase2_layout s) <= MaxArtifactSize ∧
  size = layout_size (phase2_layout s).
Proof.
  intros Ht. split.
  - intros He. assert (commitments_ok s) as Hok.
    { unfold ExpectedPhase2Size in He. apply bind_Ok in He as ([] & He & _).
      by apply check_commitments_ok. }
    rewrite ExpectedPhase2Size_spec, <- phase2_layout_size in He by done.
    apply within_limit_Ok in He as [-> ?]. done.
  - intros (Hok & Hle & ->). rewrite ExpectedPhase2Size_spec, <- phase2_layout_size by done.
    by apply within_limit_Ok.
Qed.

(** The sizes computed before a ceremony file is read are the sizes of its canonical
    layout, and the 64-bit arithmetic that computes them never overflows.  For every
    domain and challenge length a Go shape can hold, [ExpectedPhase1Size] and
    [ExpectedCommonsSize] refuse exactly the domains that are no power of two between
    2 and [2^32], and otherwise return the size of the layout when it is within the
    limit of 16 GiB and [ErrArtifactTooLarge] when it is not; [ExpectedPhase2Size]
    refuses exactly a wrong number of commitments and else does the same, whatever
    32-bit vector lengths the shape lists. *)
Theorem ExpectedSizes_exact :
  (∀ n c, 0 <= n < 2 ^ 64 → 0 <= c < 256 →
    let s := {| p1_DomainN := n; p1_ChallengeLength := c |} in
    (domain_ok n → ExpectedPhase1Size s = within_limit (layout_size (phase1_layout s)) ∧
      ExpectedCommonsSize {| cs_DomainN := n |} =
        within_limit (layout_size (commons_layout {| cs_DomainN := n |}))) ∧
    (¬ domain_ok n → ¬ is_ok (ExpectedPhase1Size s) ∧ ¬ is_ok (ExpectedCommonsSize {| cs_DomainN := n |}))) ∧
  (∀ s, phase2_typed s →
    (commitments_ok s → ExpectedPhase2Size s = within_limit (layout_size (phase2_layout s))) ∧
    (¬ commitments_ok s → ¬ is_ok (ExpectedPhase2Size s))).
Proof.
  split; [intros n c Hn Hc s; split|intros s Hs; split].
  - intros Hd. pose proof (domain_range n Hd). split.
    + unfold s. by rewrite ExpectedPhase1Size_spec, phase1_layout_size by (done || lia).
    + by rewrite ExpectedCommonsSize_spec, commons_layout_size by (done || lia).
  - intros Hd. split; intros Hok.
    + destruct (ExpectedPhase1Size s) as [size|] eqn:E; [|done]. by apply ExpectedPhase1Size_Ok in E as [? _].
    + destruct (ExpectedCommonsSize _) as [size|] eqn:E; [|done]. by apply ExpectedCommonsSize_Ok in E as [? _].
  - intros Hok. by rewrite ExpectedPhase2Size_spec, phase2_layout_size.
  - intros Hn Hok. destruct (ExpectedPhase2Size s) as [size|] eqn:E; [|done].
    by apply ExpectedPhase2Size_Ok in E as [? _].
Qed.

(** C24 The preflight scan accepts a ceremony file exactly when it is a canonical
    encoding of the expected shape: on a byte string, each of the three preflights
    succeeds if and only if the shape is valid, its encoding is within the size limit
    and the whole input matches the layout - every length prefix equal to the one of
    the shape, every point compressed with a canonical flag, nothing missing and
    nothing trailing - and then it returns the length, the two hashes and the
    challenge bytes of that input. *)
Theorem Preflight_exact (input : list Z) : Forall is_byte input →
  (∀ n c d, 0 <= n < 2 ^ 64 → 0 <= c < 256 →
    let s := {| p1_DomainN := n; p1_ChallengeLength := c |} in
    PreflightPhase1 input s = Ok d ↔
    domain_ok n ∧ layout_size (phase1_layout s) <= MaxArtifactSize ∧ matches (phase1_layout s) input ∧
    d = artifact_digest input (tail_bytes c input)) ∧
  (∀ n d, 0 <= n < 2 ^ 64 →
    let s := {| cs_DomainN := n |} in
    PreflightCommons input s = Ok d ↔
    domain_ok n ∧ layout_size (commons_layout s) <= MaxArtifactSize ∧ matches (commons_layout s) input ∧
    d = artifact_digest input []) ∧
  (∀ s d, phase2_typed s →
    PreflightPhase2 input s = Ok d ↔
    commitments_ok s ∧ layout_size (phase2_layout s) <= MaxArtifactSize ∧
    matches (phase2_layout s) input ∧
    d = artifact_digest input (tail_bytes (p2_ChallengeLength s) input)).
Proof.
  intros Hb. split; [|split].
  - intros n c d Hn Hc s. rewrite PreflightPhase1_body, bind_Ok. unfold s.
    setoid_rewrite ExpectedPhase1Size_Ok; [|done..]. split.
    + intros (size & (Hd & Hle & ->) & Hr). pose proof (domain_range n Hd).
      rewrite <- phase1_layout_size in Hr, Hle by lia.
      apply (run_reads _ _ (tail_bytes c) id) in Hr as [? ?]; [done| |done|by apply reads_phase1].
      unfold phase1_layout. auto 10 with items.
    + intros (Hd & Hle & Hm & ->). pose proof (domain_range n Hd).
      rewrite phase1_layout_size in Hle by lia. eexists. split; [by eauto|].
      rewrite <- phase1_layout_size by lia.
      apply (run_reads _ _ (tail_bytes c) id); [|done|by apply reads_phase1|done].
      unfold phase1_layout. auto 10 with items.
  - intros n d Hn s. rewrite PreflightCommons_body, bind_Ok. unfold s.
    setoid_rewrite ExpectedCommonsSize_Ok; [|done..]. split.
    + intros (size & (Hd & Hle & ->) & Hr). pose proof (domain_range n Hd).
      rewrite <- commons_layout_size in Hr, Hle by lia.
      apply (run_reads _ _ (λ _, tt) (λ _, [])) in Hr as [? ?]; [done| |done|by apply reads_commons].
      unfold commons_layout. auto with items.
    + intros (Hd & Hle & Hm & ->). pose proof (domain_range n Hd).
      rewrite commons_layout_size in Hle by lia. eexists. split; [by eauto|].
      rewrite <- commons_layout_size by lia.
      apply (run_reads _ _ (λ _, tt) (λ _, [])); [|done|by apply reads_commons|done].
      unfold commons_layout. auto with items.
  - intros s d Hs. rewrite PreflightPhase2_body, bind_Ok.
    setoid_rewrite ExpectedPhase2Size_Ok; [|done..]. split.
    + intros (size & (Hok & Hle & ->) & Hr).
      apply (run_reads _ _ (tail_bytes (p2_ChallengeLength s)) id) in Hr as [? ?];
        [done|apply items_phase2|done|by apply reads_phase2].
    + intros (Hok & Hle & Hm & ->). eexists. split; [by eauto|].
      apply (run_reads _ _ (tail_bytes (p2_ChallengeLength s)) id);
        [apply items_phase2|done|by apply reads_phase2|done].
Qed.
End preflight.
