(* ===== verification/MpcDefinition.v ===== *)
(** * The ceremony definition: [internal/mpcceremony/definition.go]

    The bindings of [model.go] that only the definition uses - circuit, software,
    beacon - and the definition itself: who takes part, in which order, with which
    keys, and the identifier computed from all of it. *)
From stdpp Require Import strings.
From S2P Require Import Prelude.
From S2P Require Import GoText.
From S2P Require Import GoError.
From S2P Require Import Sha256.
From S2P Require Import GoTime.
From S2P Require Import GoJson.
From S2P Require Import Ownership.
From S2P Require Import MpcModel.
From S2P Require Import MpcPreflight.

(** ** Constants of [model.go] *)

Definition DefinitionSchema : list Z := str "proof-tool-mpc-ceremony-definition-v1".
Definition KeyVersionDestinationV3 : list Z := str "ownership-destination-v3".
Definition CircuitIDDestinationV3 : list Z := str "root-ownership-destination-v3/bls12-381/groth16".
Definition CurveBLS12381 : list Z := str "BLS12-381".
Definition BackendGroth16 : list Z := str "groth16".
Definition GnarkVersion : list Z := str "v0.16.3".
Definition GnarkCryptoVersion : list Z := str "v0.21.0".
Definition DrandVersion : list Z := str "v2.1.6".
Definition ProductionGoVersion : list Z := str "go1.26.5".
Definition ProductionGOOS : list Z := str "linux".
Definition ProductionGOARCH : list Z := str "amd64".
Definition ProductionGOAMD64 : list Z := str "v1".
Definition ProductionCompiler : list Z := str "gc".
Definition ProductionBuildMode : list Z := str "exe".
Definition BeaconProviderDrand : list Z := str "drand".
Definition BeaconNetworkQuicknet : list Z := str "quicknet-mainnet".
Definition BeaconQuicknetChainHash : list Z :=
  str "52db9ba70e0cc0f6eaf7803dd07447a1f5477735fd3f661792ba94600c84e971".
Definition BeaconQuicknetPublicKey : list Z :=
  str "83cf0f2896adee7eb8b5f01fcad3912212c437e0073e911fb90022d3e760183c8c4b450b6a0a6c3ac6a5776a2d1064510d1fec758c921cc22b0e17e63aaf4bcb5ed66304de9cf809bd274ca73bab4af5a6e9c76a4bc09e76eae8991ef5ece45a".
Definition BeaconQuicknetScheme : list Z := str "bls-unchained-g1-rfc9380".
Definition BeaconQuicknetGenesis : Z := 1692803367.
Definition BeaconQuicknetPeriod : Z := 3.
Definition BeaconExtractionV1 : list Z := str "sha256-domain-separated-length-prefixed-v1".
Definition ModeRehearsal : list Z := str "rehearsal".
Definition ModeProduction : list Z := str "production".
Definition ProductionMinimumWitnessLeadSeconds : Z := 24 * 60 * 60.

(** ** The circuit *)

Record CircuitBinding := {
  cb_KeyVersion : list Z;
  cb_CircuitID : list Z;
  cb_Curve : list Z;
  cb_Backend : list Z;
  cb_R1CS : ArtifactRef;
  cb_Constraints : Z;
  cb_InternalVariables : Z;
  cb_SecretVariables : Z;
  cb_PublicVariables : Z;
  cb_DomainSize : Z;
  cb_Phase2Shape : Phase2Shape }.
#[export] Instance CircuitBinding_eq_dec : EqDecision CircuitBinding.
Proof. solve_decision. Defined.

Definition CircuitBinding_json (r : CircuitBinding) : json := JObj
  [ (str "key_version", JStr (cb_KeyVersion r));
    (str "circuit_id", JStr (cb_CircuitID r));
    (str "curve", JStr (cb_Curve r));
    (str "backend", JStr (cb_Backend r));
    (str "r1cs", ArtifactRef_json (cb_R1CS r));
    (str "constraints", JNum (cb_Constraints r));
    (str "internal_variables", JNum (cb_InternalVariables r));
    (str "secret_variables", JNum (cb_SecretVariables r));
    (str "public_variables", JNum (cb_PublicVariables r));
    (str "domain_size", JNum (cb_DomainSize r));
    (str "phase2_shape", Phase2Shape_json (cb_Phase2Shape r)) ].

Definition CircuitBinding_Validate (b : CircuitBinding) : checked :=
  _ ← check (differs (cb_KeyVersion b) KeyVersionDestinationV3) "key_version %q, want %q";
  _ ← check (differs (cb_CircuitID b) CircuitIDDestinationV3) "circuit_id %q, want %q";
  _ ← check (differs (cb_Curve b) CurveBLS12381) "curve %q, want %q";
  _ ← check (differs (cb_Backend b) BackendGroth16) "backend %q, want %q";
  _ ← within "r1cs" (ArtifactRef_Validate (cb_R1CS b));
  _ ← check ((cb_Constraints b =? 0) || (cb_InternalVariables b =? 0) ||
             (cb_SecretVariables b =? 0) || (cb_PublicVariables b =? 0))
        "circuit counts must all be positive";
  _ ← check (negb (isPowerOfTwo (cb_DomainSize b)) || (cb_DomainSize b <? cb_Constraints b))
        "domain_size %d must be a power of two covering %d constraints";
  _ ← within "phase2_shape" (Phase2Shape_Validate (cb_Phase2Shape b));
  check (negb (p2_ChallengeLength (cb_Phase2Shape b) =? 0))
    "phase2_shape challenge_length %d, want 0 for deterministic genesis".

(** ** The software *)

Record SoftwareBinding := {
  sw_ProofToolVersion : list Z;
  sw_GnarkVersion : list Z;
  sw_GnarkCryptoVersion : list Z;
  sw_DrandVersion : list Z;
  sw_GoVersion : list Z;
  sw_GoOS : list Z;
  sw_GoArch : list Z;
  sw_GoAMD64 : list Z;
  sw_Compiler : list Z;
  sw_BuildMode : list Z;
  sw_CGOEnabled : bool;
  sw_TrimPath : bool;
  sw_SourceCommit : list Z;
  sw_SourceDirty : bool;
  sw_ToolBinary : Digest }.
#[export] Instance SoftwareBinding_eq_dec : EqDecision SoftwareBinding.
Proof. solve_decision. Defined.

Definition SoftwareBinding_json (r : SoftwareBinding) : json := JObj (
  [ (str "proof_tool_version", JStr (sw_ProofToolVersion r));
    (str "gnark_version", JStr (sw_GnarkVersion r));
    (str "gnark_crypto_version", JStr (sw_GnarkCryptoVersion r));
    (str "drand_version", JStr (sw_DrandVersion r));
    (str "go_version", JStr (sw_GoVersion r));
    (str "goos", JStr (sw_GoOS r));
    (str "goarch", JStr (sw_GoArch r)) ] ++
    (if bool_decide (sw_GoAMD64 r = []) then [] else [(str "goamd64", JStr (sw_GoAMD64 r))]) ++
    [ (str "compiler", JStr (sw_Compiler r));
    (str "build_mode", JStr (sw_BuildMode r));
    (str "cgo_enabled", JBool (sw_CGOEnabled r));
    (str "trimpath", JBool (sw_TrimPath r));
    (str "source_commit", JStr (sw_SourceCommit r));
    (str "source_dirty", JBool (sw_SourceDirty r));
    (str "tool_binary", Digest_json (sw_ToolBinary r)) ]).

Definition SoftwareBinding_Validate (b : SoftwareBinding) : checked :=
  _ ← check (blank (sw_ProofToolVersion b)) "proof_tool_version is required";
  _ ← check (differs (sw_GnarkVersion b) GnarkVersion) "gnark_version %q, want %q";
  _ ← check (differs (sw_GnarkCryptoVersion b) GnarkCryptoVersion)
        "gnark_crypto_version %q, want %q";
  _ ← check (differs (sw_DrandVersion b) DrandVersion) "drand_version %q, want %q";
  _ ← check (blank (sw_GoVersion b)) "go_version is required";
  _ ← check (blank (sw_GoOS b)) "goos is required";
  _ ← check (blank (sw_GoArch b)) "goarch is required";
  _ ← check (negb (differs (sw_GoArch b) ProductionGOARCH) && blank (sw_GoAMD64 b))
        "goamd64 is required for amd64 binaries";
  _ ← check (blank (sw_Compiler b)) "compiler is required";
  _ ← check (blank (sw_BuildMode b)) "build_mode is required";
  _ ← within "source_commit" (validateHex (sw_SourceCommit b) 20);
  within "tool_binary" (Digest_Validate (sw_ToolBinary b)).

(** [validateProductionBuildProfile] of [software.go]. *)
Definition validateProductionBuildProfile (goVersion goOS goArch goAMD64 compiler buildMode : list Z)
    (cgoEnabled trimPath : bool) : checked :=
  _ ← check (differs goVersion ProductionGoVersion) "running software go_version mismatch";
  _ ← check (differs goOS ProductionGOOS) "running software goos mismatch";
  _ ← check (differs goArch ProductionGOARCH) "running software goarch mismatch";
  _ ← check (differs goAMD64 ProductionGOAMD64) "running software goamd64 mismatch";
  _ ← check (differs compiler ProductionCompiler) "running software compiler mismatch";
  _ ← check (differs buildMode ProductionBuildMode) "running software build_mode mismatch";
  _ ← check cgoEnabled "running software cgo_enabled mismatch: production requires false";
  check (negb trimPath) "running software trimpath mismatch: production requires true".

(** ** The beacon *)

Record BeaconPolicy := {
  bp_Provider : list Z;
  bp_Network : list Z;
  bp_ChainHashHex : list Z;
  bp_PublicKeyHex : list Z;
  bp_Scheme : list Z;
  bp_GenesisTimeUnix : Z;
  bp_PeriodSeconds : Z;
  bp_Extraction : list Z;
  bp_MinimumChallengeBytes : Z;
  bp_MinimumWitnessLeadSeconds : Z;
  bp_FutureRoundRequired : bool }.
#[export] Instance BeaconPolicy_eq_dec : EqDecision BeaconPolicy.
Proof. solve_decision. Defined.

Definition BeaconPolicy_json (r : BeaconPolicy) : json := JObj
  [ (str "provider", JStr (bp_Provider r));
    (str "network", JStr (bp_Network r));
    (str "chain_hash_hex", JStr (bp_ChainHashHex r));
    (str "public_key_hex", JStr (bp_PublicKeyHex r));
    (str "scheme", JStr (bp_Scheme r));
    (str "genesis_time_unix", JNum (bp_GenesisTimeUnix r));
    (str "period_seconds", JNum (bp_PeriodSeconds r));
    (str "extraction", JStr (bp_Extraction r));
    (str "minimum_challenge_bytes", JNum (bp_MinimumChallengeBytes r));
    (str "minimum_witness_lead_seconds", JNum (bp_MinimumWitnessLeadSeconds r));
    (str "future_round_required", JBool (bp_FutureRoundRequired r)) ].

Definition BeaconPolicy_Validate (p : BeaconPolicy) : checked :=
  _ ← check (differs (bp_Provider p) BeaconProviderDrand) "beacon provider %q, want %q";
  _ ← check (differs (bp_Network p) BeaconNetworkQuicknet) "beacon network %q, want %q";
  _ ← check (differs (bp_ChainHashHex p) BeaconQuicknetChainHash)
        "beacon chain_hash_hex does not match pinned drand quicknet mainnet";
  _ ← check (differs (bp_PublicKeyHex p) BeaconQuicknetPublicKey)
        "beacon public_key_hex does not match pinned drand quicknet mainnet";
  _ ← within "beacon public_key_hex" (validateHex (bp_PublicKeyHex p) 96);
  _ ← check (differs (bp_Scheme p) BeaconQuicknetScheme) "beacon scheme %q, want %q";
  _ ← check (negb (bp_GenesisTimeUnix p =? BeaconQuicknetGenesis))
        "beacon genesis_time_unix %d, want %d";
  _ ← check (negb (bp_PeriodSeconds p =? BeaconQuicknetPeriod)) "beacon period_seconds %d, want %d";
  _ ← check (differs (bp_Extraction p) BeaconExtractionV1) "beacon extraction %q, want %q";
  _ ← check (negb (bp_MinimumChallengeBytes p =? 32))
        "beacon minimum_challenge_bytes must be exactly %d";
  _ ← check (bp_MinimumWitnessLeadSeconds p =? 0)
        "beacon minimum_witness_lead_seconds must be positive";
  check (negb (bp_FutureRoundRequired p)) "beacon future_round_required must be true".

(** ** The definition *)

Record CeremonyDefinition := {
  cd_Schema : list Z;
  cd_CeremonyID : list Z;
  cd_Mode : list Z;
  cd_CreatedAt : list Z;
  cd_SessionNonceHex : list Z;
  cd_Circuit : CircuitBinding;
  cd_Software : SoftwareBinding;
  cd_Coordinator : Identity;
  cd_ReleaseSigner : Identity;
  cd_Auditors : list Identity;
  cd_Roster : list Participant;
  cd_Phase1Policy : PhasePolicy;
  cd_Phase2Policy : PhasePolicy;
  cd_BeaconPolicy : BeaconPolicy;
  cd_Phase1Genesis : ArtifactRef }.
#[export] Instance CeremonyDefinition_eq_dec : EqDecision CeremonyDefinition.
Proof. solve_decision. Defined.

Definition CeremonyDefinition_json (r : CeremonyDefinition) : json := JObj
  [ (str "schema", JStr (cd_Schema r));
    (str "ceremony_id", JStr (cd_CeremonyID r));
    (str "mode", JStr (cd_Mode r));
    (str "created_at", JStr (cd_CreatedAt r));
    (str "session_nonce_hex", JStr (cd_SessionNonceHex r));
    (str "circuit", CircuitBinding_json (cd_Circuit r));
    (str "software", SoftwareBinding_json (cd_Software r));
    (str "coordinator", Identity_json (cd_Coordinator r));
    (str "release_signer", Identity_json (cd_ReleaseSigner r));
    (str "auditors", JArr (Identity_json <$> cd_Auditors r));
    (str "roster", JArr (Participant_json <$> cd_Roster r));
    (str "phase1_policy", PhasePolicy_json (cd_Phase1Policy r));
    (str "phase2_policy", PhasePolicy_json (cd_Phase2Policy r));
    (str "beacon_policy", BeaconPolicy_json (cd_BeaconPolicy r));
    (str "phase1_genesis", ArtifactRef_json (cd_Phase1Genesis r)) ].

Definition CeremonyDefinition_set_Schema (v : list Z) (r : CeremonyDefinition) : CeremonyDefinition :=
  {| cd_Schema := v; cd_CeremonyID := cd_CeremonyID r; cd_Mode := cd_Mode r; cd_CreatedAt :=
     cd_CreatedAt r; cd_SessionNonceHex := cd_SessionNonceHex r; cd_Circuit := cd_Circuit r;
     cd_Software := cd_Software r; cd_Coordinator := cd_Coordinator r; cd_ReleaseSigner :=
     cd_ReleaseSigner r; cd_Auditors := cd_Auditors r; cd_Roster := cd_Roster r;
     cd_Phase1Policy := cd_Phase1Policy r; cd_Phase2Policy := cd_Phase2Policy r;
     cd_BeaconPolicy := cd_BeaconPolicy r; cd_Phase1Genesis := cd_Phase1Genesis r |}.

Definition CeremonyDefinition_set_CeremonyID (v : list Z) (r : CeremonyDefinition) : CeremonyDefinition :=
  {| cd_Schema := cd_Schema r; cd_CeremonyID := v; cd_Mode := cd_Mode r; cd_CreatedAt :=
     cd_CreatedAt r; cd_SessionNonceHex := cd_SessionNonceHex r; cd_Circuit := cd_Circuit r;
     cd_Software := cd_Software r; cd_Coordinator := cd_Coordinator r; cd_ReleaseSigner :=
     cd_ReleaseSigner r; cd_Auditors := cd_Auditors r; cd_Roster := cd_Roster r;
     cd_Phase1Policy := cd_Phase1Policy r; cd_Phase2Policy := cd_Phase2Policy r;
     cd_BeaconPolicy := cd_BeaconPolicy r; cd_Phase1Genesis := cd_Phase1Genesis r |}.

(** The identifiers, keys and fingerprints taken so far: the key sets of the maps. *)
Record taken := { t_ids : list (list Z); t_keys : list (list Z); t_prints : list (list Z) }.

(** One identity joins those taken; [who] names its role in the messages. *)
Definition take_identity (who : string) (t : taken) (i : Identity) : result go_error taken :=
  _ ← check (bool_decide (id_ID i ∈ t_ids t)) (who +:+ " identity %q duplicates %s");
  _ ← check (bool_decide (id_KeyID i ∈ t_keys t)) (who +:+ " key %q duplicates %s");
  _ ← check (bool_decide (id_PublicKeyFingerprint i ∈ t_prints t))
        (who +:+ " public key duplicates %s");
  Ok {| t_ids := id_ID i :: t_ids t; t_keys := id_KeyID i :: t_keys t;
        t_prints := id_PublicKeyFingerprint i :: t_prints t |}.

(** [for index, auditor := range d.Auditors] *)
Fixpoint take_auditors (t : taken) (auditors : list Identity) : result go_error taken :=
  match auditors with
  | [] => Ok t
  | auditor :: auditors =>
      _ ← within "auditor %d" (Identity_Validate auditor);
      t ← take_identity "auditor" t auditor;
      take_auditors t auditors
  end.

(** [for index, participant := range d.Roster]; [roster] has the keys of the map. *)
Fixpoint take_roster (t : taken) (roster : list (list Z)) (participants : list Participant) :
    result go_error (list (list Z)) :=
  match participants with
  | [] => Ok roster
  | participant :: participants =>
      _ ← within "roster participant %d" (Participant_Validate participant);
      let id := id_ID (pt_Identity participant) in
      _ ← check (bool_decide (id ∈ roster)) "roster participant %q is duplicated";
      t ← take_identity "participant" t (pt_Identity participant);
      take_roster t (id :: roster) participants
  end.

(** The production profile of the software, when the mode requires it. *)
Definition validate_mode (d : CeremonyDefinition) : checked :=
  if bool_decide (cd_Mode d = ModeRehearsal) then Ok tt
  else if bool_decide (cd_Mode d = ModeProduction) then
    let s := cd_Software d in
    _ ← check (sw_SourceDirty s) "production ceremony requires a clean source tree";
    within "production software profile"
      (validateProductionBuildProfile (sw_GoVersion s) (sw_GoOS s) (sw_GoArch s) (sw_GoAMD64 s)
         (sw_Compiler s) (sw_BuildMode s) (sw_CGOEnabled s) (sw_TrimPath s))
  else Err (Fail "mode %q, want %q or %q").

Definition validate_production_policies (d : CeremonyDefinition) : checked :=
  _ ← check (bp_MinimumWitnessLeadSeconds (cd_BeaconPolicy d) <? ProductionMinimumWitnessLeadSeconds)
        "production beacon minimum_witness_lead_seconds %d is below required %d";
  _ ← check (length (cd_Roster d) <? 2)%nat
        "production ceremony requires at least two distinct roster participants";
  _ ← check (length (pp_Participants (cd_Phase1Policy d)) <? 2)%nat
        "production phase1 policy requires at least two scheduled participants";
  _ ← check (negb (pp_Minimum (cd_Phase1Policy d) =? Z.of_nat (length (pp_Participants (cd_Phase1Policy d)))))
        "production phase1 minimum must equal the complete scheduled participant count";
  _ ← check (length (pp_Participants (cd_Phase2Policy d)) <? 2)%nat
        "production phase2 policy requires at least two scheduled participants";
  check (negb (pp_Minimum (cd_Phase2Policy d) =? Z.of_nat (length (pp_Participants (cd_Phase2Policy d)))))
    "production phase2 minimum must equal the complete scheduled participant count".

(** The coordinator and the release signer open the three maps. *)
Definition initial_taken (d : CeremonyDefinition) : taken :=
  let c := cd_Coordinator d in let r := cd_ReleaseSigner d in
  {| t_ids := [id_ID r; id_ID c]; t_keys := [id_KeyID r; id_KeyID c];
     t_prints := [id_PublicKeyFingerprint r; id_PublicKeyFingerprint c] |}.

Definition CeremonyDefinition_validate (requireID : bool) (d : CeremonyDefinition) : checked :=
  _ ← check_schema_and_id (cd_Schema d) DefinitionSchema requireID "ceremony_id" (cd_CeremonyID d);
  _ ← validate_mode d;
  _ ← validateTimestamp "created_at" (cd_CreatedAt d);
  _ ← within "session_nonce_hex" (validateHex (cd_SessionNonceHex d) 32);
  _ ← within "circuit" (CircuitBinding_Validate (cd_Circuit d));
  _ ← within "software" (SoftwareBinding_Validate (cd_Software d));
  _ ← within "coordinator" (Identity_Validate (cd_Coordinator d));
  _ ← within "release_signer" (Identity_Validate (cd_ReleaseSigner d));
  _ ← check (bool_decide (id_ID (cd_ReleaseSigner d) = id_ID (cd_Coordinator d)) ||
             bool_decide (id_KeyID (cd_ReleaseSigner d) = id_KeyID (cd_Coordinator d)))
        "release signer must be distinct from coordinator";
  _ ← check (length (cd_Auditors d) <? 2)%nat "at least two independent auditors are required";
  _ ← check (bool_decide (id_PublicKeyFingerprint (cd_ReleaseSigner d) =
                          id_PublicKeyFingerprint (cd_Coordinator d)))
        "release signer public key duplicates %s";
  t ← take_auditors (initial_taken d) (cd_Auditors d);
  _ ← check ((length (cd_Roster d) =? 0)%nat || (MaxParticipants <? Z.of_nat (length (cd_Roster d))))
        "roster must contain between 1 and %d participants";
  roster ← take_roster t [] (cd_Roster d);
  _ ← within "phase1_policy" (PhasePolicy_Validate (cd_Phase1Policy d) roster);
  _ ← within "phase2_policy" (PhasePolicy_Validate (cd_Phase2Policy d) roster);
  _ ← (if bool_decide (cd_Mode d = ModeProduction) then validate_production_policies d else Ok tt);
  _ ← within "beacon_policy" (BeaconPolicy_Validate (cd_BeaconPolicy d));
  within "phase1_genesis" (ArtifactRef_Validate (cd_Phase1Genesis d)).

#[export] Instance CeremonyDefinition_content : ContentRecord CeremonyDefinition := {
  rec_json := CeremonyDefinition_json;
  rec_schema := DefinitionSchema;
  rec_domain := str "proof-tool/mpc-ceremony/root/v1";
  rec_id := cd_CeremonyID;
  rec_set_id := CeremonyDefinition_set_CeremonyID;
  rec_set_schema := CeremonyDefinition_set_Schema;
  rec_validate := CeremonyDefinition_validate;
}.

Definition ComputeCeremonyID (d : CeremonyDefinition) : result go_error (list Z) := compute_id d.
Definition CeremonyDefinition_Validate (d : CeremonyDefinition) : checked := validate_record d.
Definition FinalizeCeremonyDefinition (d : CeremonyDefinition) : result go_error CeremonyDefinition :=
  new_record d.

(** [append([]string(nil), ...)] copies: the same elements. *)
Definition clonePhasePolicy (p : PhasePolicy) : PhasePolicy :=
  {| pp_Participants := pp_Participants p; pp_Minimum := pp_Minimum p |}.

Record DefinitionOptions := {
  do_Mode : list Z;
  do_CreatedAt : list Z;
  do_SessionNonceHex : list Z;
  do_Circuit : CircuitBinding;
  do_Software : SoftwareBinding;
  do_Coordinator : Identity;
  do_ReleaseSigner : Identity;
  do_Auditors : list Identity;
  do_Roster : list Participant;
  do_Phase1Policy : PhasePolicy;
  do_Phase2Policy : PhasePolicy;
  do_BeaconPolicy : BeaconPolicy;
  do_Phase1Genesis : ArtifactRef }.

Definition assemble_definition (options : DefinitionOptions) : CeremonyDefinition :=
  {| cd_Schema := DefinitionSchema; cd_CeremonyID := [];
     cd_Mode := do_Mode options;
     cd_CreatedAt := do_CreatedAt options;
     cd_SessionNonceHex := do_SessionNonceHex options;
     cd_Circuit := do_Circuit options;
     cd_Software := do_Software options;
     cd_Coordinator := do_Coordinator options;
     cd_ReleaseSigner := do_ReleaseSigner options;
     cd_Auditors := do_Auditors options;
     cd_Roster := do_Roster options;
     cd_Phase1Policy := clonePhasePolicy (do_Phase1Policy options);
     cd_Phase2Policy := clonePhasePolicy (do_Phase2Policy options);
     cd_BeaconPolicy := do_BeaconPolicy options;
     cd_Phase1Genesis := do_Phase1Genesis options |}.

Definition NewCeremonyDefinition (options : DefinitionOptions) : result go_error CeremonyDefinition :=
  let definition := assemble_definition options in
  id ← ComputeCeremonyID definition;
  let definition := CeremonyDefinition_set_CeremonyID id definition in
  _ ← CeremonyDefinition_Validate definition;
  Ok definition.

Definition PolicyForPhase (d : CeremonyDefinition) (phase : list Z) : result go_error PhasePolicy :=
  if bool_decide (phase = Phase1) then Ok (cd_Phase1Policy d)
  else if bool_decide (phase = Phase2) then Ok (cd_Phase2Policy d)
  else Err (Fail "unsupported phase %q").

Definition ParticipantByID (d : CeremonyDefinition) (id : list Z) : option Participant :=
  List.find (λ p, bool_decide (id_ID (pt_Identity p) = id)) (cd_Roster d).

Definition ComputePhaseID (ceremonyID phase : list Z) (genesis : ArtifactRef) (parentSealID : list Z) :
    result go_error (list Z) :=
  _ ← validateHashID "ceremony_id" ceremonyID;
  _ ← Phase_Validate phase;
  _ ← within "genesis" (ArtifactRef_Validate genesis);
  _ ← check (bool_decide (phase = Phase1) && bool_decide (parentSealID ≠ []))
        "phase1 must not have a parent seal";
  _ ← (if bool_decide (phase = Phase2) then validateHashID "phase2 parent seal" parentSealID else Ok tt);
  Ok (canonicalHash (str "proof-tool/mpc-ceremony/phase/v1")
        (JObj [(str "ceremony_id", JStr ceremonyID); (str "phase", JStr phase);
               (str "genesis", ArtifactRef_json genesis); (str "parent_seal_id", JStr parentSealID)])).
