(* ===== verification/MpcSignature.v ===== *)
(** * Canonical decoding and detached signatures: [internal/mpcceremony]

    [UnmarshalCanonical] of [model.go] accepts the exact bytes [MarshalCanonical]
    writes; [attestation.go] signs such bytes with Ed25519 and verifies a detached
    signature under a key that is supplied, never taken from the signature. *)
From stdpp Require Import strings.
From S2P Require Import Prelude.
From S2P Require Import GoEd25519.
From S2P Require Import GoText.
From S2P Require Import GoError.
From S2P Require Import Sha256.
From S2P Require Import GoJson.
From S2P Require Import GoCodec.
From S2P Require Import MpcModel.
From S2P Require Import MpcPreflight.
From S2P Require Import MpcDefinition.

(** ** Codecs of the common records *)

Definition Digest_codec : codec Digest :=
  struct (field "sha256" string_codec (field "blake2b256" string_codec
      (field "size" int64_codec no_fields)))
    (λ '(s, (b, (n, _))), {| dg_SHA256 := s; dg_Blake2b256 := b; dg_Size := n |})
    (λ r, (dg_SHA256 r, (dg_Blake2b256 r, (dg_Size r, tt))))
    ltac:(by intros []) ltac:(by intros (?&?&?&[])).

Definition ArtifactRef_codec : codec ArtifactRef :=
  struct (field "name" string_codec (field "digest" Digest_codec no_fields))
    (λ '(n, (d, _)), {| ar_Name := n; ar_Digest := d |})
    (λ r, (ar_Name r, (ar_Digest r, tt)))
    ltac:(by intros []) ltac:(by intros (?&?&[])).

Definition Identity_codec : codec Identity :=
  struct (field "id" string_codec (field "display_name" string_codec (field "key_id" string_codec
      (field "ed25519_public_key_hex" string_codec (field "public_key_fingerprint" string_codec
      no_fields)))))
    (λ '(i, (d, (k, (p, (f, _))))),
      {| id_ID := i; id_DisplayName := d; id_KeyID := k; id_Ed25519PublicKeyHex := p;
         id_PublicKeyFingerprint := f |})
    (λ r, (id_ID r, (id_DisplayName r, (id_KeyID r, (id_Ed25519PublicKeyHex r,
      (id_PublicKeyFingerprint r, tt))))))
    ltac:(by intros []) ltac:(by intros (?&?&?&?&?&[])).

(** ** Canonical decoding *)

(** Whatever is not an encoding of a value of the type is refused by the decoder or by
    the comparison at the end; both are errors here. *)
Definition UnmarshalCanonical {A} (c : codec A) (validate : A → checked) (data : list Z) :
    result go_error A :=
  match j ← json_Parse data; dec c j with
  | None => Err (Wrap "decode canonical JSON" (Fail "invalid"))
  | Some v =>
      _ ← validate v;
      _ ← check (differs data (marshal (enc c v))) "JSON is valid but is not in canonical encoding";
      Ok v
  end.

(** ** Detached signatures *)

Definition DetachedSignatureSchema : list Z := str "proof-tool-mpc-detached-signature-v1".
Definition SignatureAlgorithm : list Z := str "Ed25519".

Record DetachedSignature := {
  ds_Schema : list Z;
  ds_Algorithm : list Z;
  ds_KeyID : list Z;
  ds_PublicKeyFingerprint : list Z;
  ds_SignedSHA256 : list Z;
  ds_SignatureHex : list Z }.
#[export] Instance DetachedSignature_eq_dec : EqDecision DetachedSignature.
Proof. solve_decision. Defined.

Definition DetachedSignature_codec : codec DetachedSignature :=
  struct (field "schema" string_codec (field "algorithm" string_codec (field "key_id" string_codec
      (field "public_key_fingerprint" string_codec (field "signed_sha256" string_codec
      (field "signature_hex" string_codec no_fields))))))
    (λ '(s, (a, (k, (f, (d, (h, _)))))),
      {| ds_Schema := s; ds_Algorithm := a; ds_KeyID := k; ds_PublicKeyFingerprint := f;
         ds_SignedSHA256 := d; ds_SignatureHex := h |})
    (λ r, (ds_Schema r, (ds_Algorithm r, (ds_KeyID r, (ds_PublicKeyFingerprint r,
      (ds_SignedSHA256 r, (ds_SignatureHex r, tt)))))))
    ltac:(by intros []) ltac:(by intros (?&?&?&?&?&?&[])).

Definition DetachedSignature_Validate (s : DetachedSignature) : checked :=
  _ ← check (differs (ds_Schema s) DetachedSignatureSchema) "signature schema %q, want %q";
  _ ← check (differs (ds_Algorithm s) SignatureAlgorithm) "signature algorithm %q, want %q";
  _ ← validateID "signature key_id" (ds_KeyID s);
  _ ← within "signature public_key_fingerprint"
        (validateTaggedHex (ds_PublicKeyFingerprint s) sha256_tag 32);
  _ ← within "signature signed_sha256" (validateTaggedHex (ds_SignedSHA256 s) sha256_tag 32);
  within "signature_hex" (validateHex (ds_SignatureHex s) SignatureSize).

Definition SignExact (data keyID privateKey : list Z) : result go_error DetachedSignature :=
  _ ← check (bool_decide (data = [])) "cannot sign empty data";
  _ ← validateID "signature key_id" keyID;
  _ ← check (negb (length privateKey =? PrivateKeySize)%nat) "Ed25519 private key is %d bytes, want %d";
  let publicKey := public_of_private privateKey in
  _ ← check (negb (length publicKey =? PublicKeySize)%nat) "derive Ed25519 public key";
  let signature := {|
    ds_Schema := DetachedSignatureSchema;
    ds_Algorithm := SignatureAlgorithm;
    ds_KeyID := keyID;
    ds_PublicKeyFingerprint := taggedSHA256 publicKey;
    ds_SignedSHA256 := taggedSHA256 data;
    ds_SignatureHex := hex_EncodeToString (default [] (Sign privateKey data)) |} in
  _ ← DetachedSignature_Validate signature;
  Ok signature.

Definition VerifyExact (data : list Z) (signature : DetachedSignature) (expectedKeyID publicKey : list Z) :
    checked :=
  _ ← DetachedSignature_Validate signature;
  _ ← check (bool_decide (data = [])) "signed data is empty";
  _ ← check (negb (length publicKey =? PublicKeySize)%nat) "Ed25519 public key is %d bytes, want %d";
  _ ← check (differs (ds_KeyID signature) expectedKeyID) "signature key_id %q, want %q";
  _ ← check (differs (ds_PublicKeyFingerprint signature) (taggedSHA256 publicKey))
        "signature public-key fingerprint mismatch";
  _ ← check (differs (ds_SignedSHA256 signature) (taggedSHA256 data))
        "signature signed-data digest mismatch";
  match hex_DecodeString (ds_SignatureHex signature) with
  | None => Err (Wrap "decode signature" (Fail "invalid byte"))
  | Some rawSignature =>
      check (negb (Verify publicKey data rawSignature)) "Ed25519 signature verification failed"
  end.

Section signed_records.
Context {A : Type} (c : codec A) (validate : A → checked).

(** The canonical bytes of the record and of its signature. *)
Definition SignRecord (record : A) (keyID privateKey : list Z) : result go_error (list Z * list Z) :=
  recordBytes ← MarshalCanonical validate (enc c) record;
  signature ← SignExact recordBytes keyID privateKey;
  signatureBytes ← MarshalCanonical DetachedSignature_Validate (enc DetachedSignature_codec) signature;
  Ok (recordBytes, signatureBytes).

Definition VerifySignedRecord (recordBytes signatureBytes expectedKeyID publicKey : list Z) :
    result go_error A :=
  signature ← within "signature"
    (UnmarshalCanonical DetachedSignature_codec DetachedSignature_Validate signatureBytes);
  _ ← VerifyExact recordBytes signature expectedKeyID publicKey;
  within "signed record" (UnmarshalCanonical c validate recordBytes).
End signed_records.

(** ** The keys of identities *)

(** [DecodePublicKeyHex] of [internal/keybundle]. *)
Definition DecodePublicKeyHex (value : list Z) : result go_error (list Z) :=
  match hex_DecodeString (TrimSpace value) with
  | None => Err (Wrap "decode manifest public key hex" (Fail "invalid byte"))
  | Some raw =>
      _ ← check (negb (length raw =? PublicKeySize)%nat) "manifest public key is %d bytes, want %d";
      Ok raw
  end.

(** [identityPublicKey] of [workflow.go]. *)
Definition identityPublicKey (identity : Identity) : result go_error (list Z) :=
  raw ← DecodePublicKeyHex (id_Ed25519PublicKeyHex identity);
  _ ← check (differs (id_PublicKeyFingerprint identity) (taggedSHA256 raw))
        "identity public-key fingerprint mismatch";
  Ok raw.

(** [auditorByID] of [audit.go]. *)
Definition auditorByID (definition : CeremonyDefinition) (id : list Z) : option Identity :=
  list_find (λ auditor, id_ID auditor = id) (cd_Auditors definition) ≫= λ p, Some p.2.
