(* ===== verification/MpcDecision.v ===== *)
(** * The production decision: [internal/mpcceremony/decision.go]

    The canonical, content-addressed record that states whether the ceremony's output
    may be used - GO only when every gate passed - with the evidence it pins by URI and
    digest, and its acceptance by the accountable signers. *)
From stdpp Require Import strings gmap sorting.
From S2P Require Import Prelude.
From S2P Require Import GoEd25519.
From S2P Require Import GoText.
From S2P Require Import GoError.
From S2P Require Import GoTime.
From S2P Require Import GoJson.
From S2P Require Import GoCodec.
From S2P Require Import Ownership.
From S2P Require Import MpcModel.
From S2P Require Import MpcPreflight.
From S2P Require Import MpcDefinition.
From S2P Require Import MpcSignature.

Definition ProductionDecisionSchema : list Z := str "proof-tool-mpc-production-decision-v1".
Definition ProductionDecisionDraftSchema : list Z := str "proof-tool-mpc-production-decision-draft-v1".
Definition ProductionDecisionSignatureSchema : list Z :=
  str "proof-tool-mpc-production-decision-signature-v1".
Definition MaxProductionReleaseArtifacts : nat := 4096.

Definition DecisionGO : list Z := str "GO".
Definition DecisionNOGO : list Z := str "NO-GO".
Definition GatePASS : list Z := str "PASS".
Definition GateFAIL : list Z := str "FAIL".
Definition GatePENDING : list Z := str "PENDING".

Definition requiredProductionGates : list (list Z) :=
  [ str "signed-release"; str "operational-evidence"; str "two-independent-audits";
    str "third-party-security-audit"; str "exact-k22-rehearsal"; str "mainnet-deployment-plan";
    str "formal-go-no-go-checklist"; str "participant-independence"; str "participant-host-security";
    str "participant-entropy"; str "participant-erasure"; str "public-witnessing";
    str "immutable-independent-mirrors"; str "live-twenty-party-ceremony" ].

(** [a <= b] on Go strings. *)
Definition string_leb (a b : list Z) : bool := negb (string_ltb b a).

(** [for i, x := range l { Validate; if i > 0 && key(x) <= previous { error }; previous = key(x) }] *)
Fixpoint each_ordered {A} (key : A → list Z) (validate : A → checked) (message : string)
    (previous : option (list Z)) (l : list A) : checked :=
  match l with
  | [] => Ok tt
  | x :: l =>
      _ ← validate x;
      _ ← check (match previous with Some p => string_leb (key x) p | None => false end) message;
      each_ordered key validate message (Some (key x)) l
  end.

(** ** Located artifacts *)

Section located.
Context `{URLParser}.

Definition validateImmutableEvidenceURI (value : list Z) : checked :=
  _ ← check (bool_decide (value = []) || (2048 <? length value)%nat || differs value (TrimSpace value))
        "evidence URI must be non-empty, trimmed, and at most 2048 bytes";
  match url_Parse value with
  | None => Err (Fail "evidence URI must use canonical URL encoding")
  | Some parsed =>
      _ ← check (differs (url_String parsed) value) "evidence URI must use canonical URL encoding";
      _ ← check (url_HasUser parsed || differs (url_Fragment parsed) [])
            "evidence URI must not contain userinfo or a fragment";
      _ ← check (differs (url_Scheme parsed) (str "https") && differs (url_Scheme parsed) (str "ipfs"))
            "evidence URI scheme %q is not an immutable-publication transport";
      check (bool_decide (url_Host parsed = [])) "evidence URI must contain a host or content identifier"
  end.
End located.

Record LocatedArtifactRef := {
  la_URI : list Z;
  la_Artifact : ArtifactRef }.
#[export] Instance LocatedArtifactRef_eq_dec : EqDecision LocatedArtifactRef.
Proof. solve_decision. Defined.

Definition LocatedArtifactRef_codec : codec LocatedArtifactRef :=
  struct (field "uri" string_codec (field "artifact" ArtifactRef_codec no_fields))
    (λ '(u, (a, _)), {| la_URI := u; la_Artifact := a |})
    (λ r, (la_URI r, (la_Artifact r, tt)))
    ltac:(by intros []) ltac:(by intros (?&?&[])).

Definition LocatedArtifactRef_Validate `{URLParser} (r : LocatedArtifactRef) : checked :=
  _ ← validateImmutableEvidenceURI (la_URI r);
  ArtifactRef_Validate (la_Artifact r).

Record SignedLocatedArtifact := {
  sl_Record : LocatedArtifactRef;
  sl_Signature : LocatedArtifactRef }.
#[export] Instance SignedLocatedArtifact_eq_dec : EqDecision SignedLocatedArtifact.
Proof. solve_decision. Defined.

Definition SignedLocatedArtifact_codec : codec SignedLocatedArtifact :=
  struct (field "record" LocatedArtifactRef_codec (field "signature" LocatedArtifactRef_codec no_fields))
    (λ '(r, (s, _)), {| sl_Record := r; sl_Signature := s |})
    (λ r, (sl_Record r, (sl_Signature r, tt)))
    ltac:(by intros []) ltac:(by intros (?&?&[])).

Definition SignedLocatedArtifact_Validate `{URLParser} (r : SignedLocatedArtifact) : checked :=
  _ ← within "record" (LocatedArtifactRef_Validate (sl_Record r));
  _ ← within "signature" (LocatedArtifactRef_Validate (sl_Signature r));
  check (bool_decide (sl_Record r = sl_Signature r)) "signed record and signature must be distinct artifacts".

(** ** The signed release *)

Record SignedReleaseEvidence := {
  re_ReleaseID : list Z;
  re_CandidateID : list Z;
  re_Manifest : LocatedArtifactRef;
  re_ManifestSignature : LocatedArtifactRef;
  re_ManifestPublicKey : LocatedArtifactRef;
  re_Candidate : SignedLocatedArtifact;
  re_FinalTranscript : LocatedArtifactRef;
  re_Artifacts : option (list LocatedArtifactRef) }.
#[export] Instance SignedReleaseEvidence_eq_dec : EqDecision SignedReleaseEvidence.
Proof. solve_decision. Defined.

Definition SignedReleaseEvidence_codec : codec SignedReleaseEvidence :=
  struct (field "release_id" string_codec (field "candidate_id" string_codec
      (field "manifest" LocatedArtifactRef_codec (field "manifest_signature" LocatedArtifactRef_codec
      (field "manifest_public_key" LocatedArtifactRef_codec (field "candidate" SignedLocatedArtifact_codec
      (field "final_transcript" LocatedArtifactRef_codec
      (field "artifacts" (slice_codec LocatedArtifactRef_codec) no_fields))))))))
    (λ '(i, (c, (m, (s, (k, (d, (t, (a, _)))))))),
      {| re_ReleaseID := i; re_CandidateID := c; re_Manifest := m; re_ManifestSignature := s;
         re_ManifestPublicKey := k; re_Candidate := d; re_FinalTranscript := t; re_Artifacts := a |})
    (λ r, (re_ReleaseID r, (re_CandidateID r, (re_Manifest r, (re_ManifestSignature r,
      (re_ManifestPublicKey r, (re_Candidate r, (re_FinalTranscript r, (re_Artifacts r, tt)))))))))
    ltac:(by intros []) ltac:(by intros (?&?&?&?&?&?&?&?&[])).

Definition SignedReleaseEvidence_set_ReleaseID (v : list Z) (r : SignedReleaseEvidence) :
    SignedReleaseEvidence :=
  {| re_ReleaseID := v; re_CandidateID := re_CandidateID r; re_Manifest := re_Manifest r;
     re_ManifestSignature := re_ManifestSignature r; re_ManifestPublicKey := re_ManifestPublicKey r;
     re_Candidate := re_Candidate r; re_FinalTranscript := re_FinalTranscript r;
     re_Artifacts := re_Artifacts r |}.

Definition computeSignedReleaseID (value : SignedReleaseEvidence) : result go_error (list Z) :=
  let value := SignedReleaseEvidence_set_ReleaseID [] value in
  _ ← validateHashID "candidate_id" (re_CandidateID value);
  Ok (canonicalHash (str "proof-tool/mpc-ceremony/signed-release/v1")
       (enc SignedReleaseEvidence_codec value)).

Section release.
Context `{URLParser, MapOrder}.

(** The literal map is ranged over in some order. *)
Definition SignedReleaseEvidence_Validate (r : SignedReleaseEvidence) : checked :=
  _ ← validateHashID "release_id" (re_ReleaseID r);
  expected ← computeSignedReleaseID r;
  _ ← check (differs (re_ReleaseID r) expected) "release_id %q, want %q";
  _ ← validateHashID "candidate_id" (re_CandidateID r);
  _ ← each (map_order [("manifest", re_Manifest r); ("manifest_signature", re_ManifestSignature r);
              ("manifest_public_key", re_ManifestPublicKey r); ("final_transcript", re_FinalTranscript r)])
        (λ '(label, ref), within label (LocatedArtifactRef_Validate ref));
  _ ← within "candidate" (SignedLocatedArtifact_Validate (re_Candidate r));
  let n := slice_len (re_Artifacts r) in
  _ ← check ((n <? 16)%nat || (MaxProductionReleaseArtifacts <? n)%nat)
        "signed release artifact tree must contain between 16 and %d files, got %d";
  each_ordered (λ ref, ar_Name (la_Artifact ref))
    (λ ref, within "release artifact %d" (LocatedArtifactRef_Validate ref))
    "release artifacts must be ordered by unique logical name" None (default [] (re_Artifacts r)).

Definition NewSignedReleaseEvidence (value : SignedReleaseEvidence) :
    result go_error SignedReleaseEvidence :=
  let value := SignedReleaseEvidence_set_ReleaseID [] value in
  id ← computeSignedReleaseID value;
  let value := SignedReleaseEvidence_set_ReleaseID id value in
  _ ← SignedReleaseEvidence_Validate value;
  Ok value.
End release.

(** The operator's draft has no [release_id]. *)
Record SignedReleaseEvidenceDraft := {
  rd_CandidateID : list Z;
  rd_Manifest : LocatedArtifactRef;
  rd_ManifestSignature : LocatedArtifactRef;
  rd_ManifestPublicKey : LocatedArtifactRef;
  rd_Candidate : SignedLocatedArtifact;
  rd_FinalTranscript : LocatedArtifactRef;
  rd_Artifacts : option (list LocatedArtifactRef) }.

Definition SignedReleaseEvidenceDraft_codec : codec SignedReleaseEvidenceDraft :=
  struct (field "candidate_id" string_codec
      (field "manifest" LocatedArtifactRef_codec (field "manifest_signature" LocatedArtifactRef_codec
      (field "manifest_public_key" LocatedArtifactRef_codec (field "candidate" SignedLocatedArtifact_codec
      (field "final_transcript" LocatedArtifactRef_codec
      (field "artifacts" (slice_codec LocatedArtifactRef_codec) no_fields)))))))
    (λ '(c, (m, (s, (k, (d, (t, (a, _))))))),
      {| rd_CandidateID := c; rd_Manifest := m; rd_ManifestSignature := s;
         rd_ManifestPublicKey := k; rd_Candidate := d; rd_FinalTranscript := t; rd_Artifacts := a |})
    (λ r, (rd_CandidateID r, (rd_Manifest r, (rd_ManifestSignature r,
      (rd_ManifestPublicKey r, (rd_Candidate r, (rd_FinalTranscript r, (rd_Artifacts r, tt))))))))
    ltac:(by intros []) ltac:(by intros (?&?&?&?&?&?&?&[])).

Definition SignedReleaseEvidenceDraft_release `{URLParser, MapOrder} (d : SignedReleaseEvidenceDraft) :
    result go_error SignedReleaseEvidence :=
  NewSignedReleaseEvidence
    {| re_ReleaseID := []; re_CandidateID := rd_CandidateID d; re_Manifest := rd_Manifest d;
       re_ManifestSignature := rd_ManifestSignature d; re_ManifestPublicKey := rd_ManifestPublicKey d;
       re_Candidate := rd_Candidate d; re_FinalTranscript := rd_FinalTranscript d;
       re_Artifacts := rd_Artifacts d |}.

(** ** Audits, rehearsal and source *)

Record ProductionAuditEvidence := {
  pa_AuditorID : list Z;
  pa_AuditorKeyID : list Z;
  pa_Audit : SignedLocatedArtifact }.
#[export] Instance ProductionAuditEvidence_eq_dec : EqDecision ProductionAuditEvidence.
Proof. solve_decision. Defined.

Definition ProductionAuditEvidence_codec : codec ProductionAuditEvidence :=
  struct (field "auditor_id" string_codec (field "auditor_key_id" string_codec
      (field "audit" SignedLocatedArtifact_codec no_fields)))
    (λ '(i, (k, (a, _))), {| pa_AuditorID := i; pa_AuditorKeyID := k; pa_Audit := a |})
    (λ r, (pa_AuditorID r, (pa_AuditorKeyID r, (pa_Audit r, tt))))
    ltac:(by intros []) ltac:(by intros (?&?&?&[])).

Definition ProductionAuditEvidence_Validate `{URLParser} (e : ProductionAuditEvidence) : checked :=
  _ ← validateID "auditor_id" (pa_AuditorID e);
  _ ← validateID "auditor_key_id" (pa_AuditorKeyID e);
  SignedLocatedArtifact_Validate (pa_Audit e).

Record ExternalAuditEvidence := {
  ea_Auditor : Identity;
  ea_Report : LocatedArtifactRef;
  ea_Signoff : LocatedArtifactRef }.
#[export] Instance ExternalAuditEvidence_eq_dec : EqDecision ExternalAuditEvidence.
Proof. solve_decision. Defined.

Definition ExternalAuditEvidence_codec : codec ExternalAuditEvidence :=
  struct (field "auditor" Identity_codec (field "report" LocatedArtifactRef_codec
      (field "signoff" LocatedArtifactRef_codec no_fields)))
    (λ '(i, (k, (a, _))), {| ea_Auditor := i; ea_Report := k; ea_Signoff := a |})
    (λ r, (ea_Auditor r, (ea_Report r, (ea_Signoff r, tt))))
    ltac:(by intros []) ltac:(by intros (?&?&?&[])).

Definition ExternalAuditEvidence_Validate `{URLParser} (e : ExternalAuditEvidence) : checked :=
  _ ← within "external auditor" (Identity_Validate (ea_Auditor e));
  _ ← within "external audit report" (LocatedArtifactRef_Validate (ea_Report e));
  _ ← within "external audit signoff" (LocatedArtifactRef_Validate (ea_Signoff e));
  check (bool_decide (ea_Report e = ea_Signoff e))
    "external audit report and signoff must be distinct artifacts".

Record K21RehearsalEvidence := {
  kr_KeyVersion : list Z;
  kr_CircuitID : list Z;
  kr_Curve : list Z;
  kr_Backend : list Z;
  kr_Constraints : Z;
  kr_DomainSize : Z;
  kr_Evidence : LocatedArtifactRef }.
#[export] Instance K21RehearsalEvidence_eq_dec : EqDecision K21RehearsalEvidence.
Proof. solve_decision. Defined.

Definition K21RehearsalEvidence_codec : codec K21RehearsalEvidence :=
  struct (field "key_version" string_codec (field "circuit_id" string_codec
      (field "curve" string_codec (field "backend" string_codec
      (field "constraints" uint64_codec (field "domain_size" uint64_codec
      (field "evidence" LocatedArtifactRef_codec no_fields)))))))
    (λ '(v, (i, (c, (b, (n, (d, (e, _))))))),
      {| kr_KeyVersion := v; kr_CircuitID := i; kr_Curve := c; kr_Backend := b;
         kr_Constraints := n; kr_DomainSize := d; kr_Evidence := e |})
    (λ r, (kr_KeyVersion r, (kr_CircuitID r, (kr_Curve r, (kr_Backend r,
      (kr_Constraints r, (kr_DomainSize r, (kr_Evidence r, tt))))))))
    ltac:(by intros []) ltac:(by intros (?&?&?&?&?&?&?&[])).

Definition K21RehearsalEvidence_Validate `{URLParser} (e : K21RehearsalEvidence) : checked :=
  _ ← check (differs (kr_KeyVersion e) KeyVersionDestinationV3 ||
             differs (kr_CircuitID e) CircuitIDDestinationV3 ||
             differs (kr_Curve e) CurveBLS12381 || differs (kr_Backend e) BackendGroth16)
        "K22 rehearsal must bind the exact ownership-destination-v3 BLS12-381 Groth16 circuit";
  _ ← check (kr_Constraints e =? 0) "K22 rehearsal constraint count must be positive";
  _ ← check (negb (kr_DomainSize e =? Z.shiftl 1 22)) "K22 rehearsal domain_size %d, want %d";
  LocatedArtifactRef_Validate (kr_Evidence e).

Record SourceReleaseEvidence := {
  sr_SourceCommit : list Z;
  sr_SignedTag : list Z;
  sr_SignatureFormat : list Z;
  sr_SignerFingerprintHex : list Z;
  sr_SignedTagObject : LocatedArtifactRef }.
#[export] Instance SourceReleaseEvidence_eq_dec : EqDecision SourceReleaseEvidence.
Proof. solve_decision. Defined.

Definition SourceReleaseEvidence_codec : codec SourceReleaseEvidence :=
  struct (field "source_commit" string_codec (field "signed_tag" string_codec
      (field "signature_format" string_codec (field "signer_fingerprint_hex" string_codec
      (field "signed_tag_object" LocatedArtifactRef_codec no_fields)))))
    (λ '(c, (t, (f, (p, (o, _))))),
      {| sr_SourceCommit := c; sr_SignedTag := t; sr_SignatureFormat := f;
         sr_SignerFingerprintHex := p; sr_SignedTagObject := o |})
    (λ r, (sr_SourceCommit r, (sr_SignedTag r, (sr_SignatureFormat r,
      (sr_SignerFingerprintHex r, (sr_SignedTagObject r, tt))))))
    ltac:(by intros []) ltac:(by intros (?&?&?&?&?&[])).

(** The characters of a tag; a rune outside ASCII has no byte among them. *)
Definition tag_char (r : Z) : bool :=
  in_range 97 122 r || in_range 65 90 r || in_range 48 57 r || bool_decide (r ∈ str "._/+@-").

Definition SourceReleaseEvidence_Validate `{URLParser} (e : SourceReleaseEvidence) : checked :=
  _ ← within "source_commit" (validateHex (sr_SourceCommit e) 20);
  _ ← check (bool_decide (sr_SignedTag e = []) || (160 <? length (sr_SignedTag e))%nat)
        "signed_tag must contain 1 to 160 characters";
  _ ← check (negb (forallb tag_char (sr_SignedTag e))) "signed_tag %q contains an unsupported character";
  _ ← check (differs (sr_SignatureFormat e) (str "openpgp-primary-key-v4"))
        "signature_format %q, want openpgp-primary-key-v4";
  _ ← within "signer_fingerprint_hex" (validateHex (sr_SignerFingerprintHex e) 20);
  LocatedArtifactRef_Validate (sr_SignedTagObject e).

(** ** Gates *)

Record ProductionGateResult := {
  pg_Gate : list Z;
  pg_Status : list Z;
  pg_Evidence : option (list LocatedArtifactRef);
  pg_Rationale : list Z }.
#[export] Instance ProductionGateResult_eq_dec : EqDecision ProductionGateResult.
Proof. solve_decision. Defined.

Definition ProductionGateResult_codec : codec ProductionGateResult :=
  struct (field "gate" string_codec (field "status" string_codec
      (field "evidence" (slice_codec LocatedArtifactRef_codec)
      (field "rationale" string_codec no_fields))))
    (λ '(g, (s, (e, (r, _)))),
      {| pg_Gate := g; pg_Status := s; pg_Evidence := e; pg_Rationale := r |})
    (λ r, (pg_Gate r, (pg_Status r, (pg_Evidence r, (pg_Rationale r, tt)))))
    ltac:(by intros []) ltac:(by intros (?&?&?&?&[])).

Definition ProductionGateResult_Validate `{URLParser} (g : ProductionGateResult) : checked :=
  _ ← (if bool_decide (pg_Status g = GatePASS) then
         check (slice_len (pg_Evidence g) =? 0)%nat "PASS gate %q requires immutable evidence"
       else if bool_decide (pg_Status g = GateFAIL) || bool_decide (pg_Status g = GatePENDING) then
         check (blank (pg_Rationale g) || differs (pg_Rationale g) (TrimSpace (pg_Rationale g)))
           "%s gate %q requires a non-empty trimmed rationale"
       else Err (Fail "unsupported production gate status %q"));
  _ ← check (32 <? slice_len (pg_Evidence g))%nat "gate %q has more than 32 evidence artifacts";
  _ ← each_ordered la_URI (λ ref, within "gate %q evidence %d" (LocatedArtifactRef_Validate ref))
        "gate %q evidence must be ordered by unique URI" None (default [] (pg_Evidence g));
  check (differs (pg_Rationale g) [] &&
         (differs (pg_Rationale g) (TrimSpace (pg_Rationale g)) || (2048 <? length (pg_Rationale g))%nat))
    "gate %q rationale must be trimmed and at most 2048 bytes".

(** [for index, expectedGate := range requiredProductionGates], with [allPass]; the
    lengths were compared before. *)
Fixpoint check_gates `{URLParser} (expected : list (list Z)) (gates : list ProductionGateResult)
    (allPass : bool) : result go_error bool :=
  match expected, gates with
  | expectedGate :: expected, gate :: gates =>
      _ ← check (differs (pg_Gate gate) expectedGate) "gate %d is %q, want %q";
      _ ← ProductionGateResult_Validate gate;
      check_gates expected gates (allPass && bool_decide (pg_Status gate = GatePASS))
  | _, _ => Ok allPass
  end.

(** ** The decision *)

Record ProductionDecision := {
  pd_Schema : list Z;
  pd_DecisionID : list Z;
  pd_CeremonyID : list Z;
  pd_Release : SignedReleaseEvidence;
  pd_SourceRelease : SourceReleaseEvidence;
  pd_OperationalEvidence : SignedLocatedArtifact;
  pd_Audits : option (list ProductionAuditEvidence);
  pd_ExternalAudits : option (list ExternalAuditEvidence);
  pd_K21Rehearsal : K21RehearsalEvidence;
  pd_MainnetDeploymentPlan : LocatedArtifactRef;
  pd_FormalChecklist : LocatedArtifactRef;
  pd_Gates : option (list ProductionGateResult);
  pd_Decision : list Z;
  pd_DecidedAt : list Z }.
#[export] Instance ProductionDecision_eq_dec : EqDecision ProductionDecision.
Proof. solve_decision. Defined.

Definition ProductionDecision_codec : codec ProductionDecision :=
  struct (field "schema" string_codec (field "decision_id" string_codec (field "ceremony_id" string_codec
      (field "release" SignedReleaseEvidence_codec (field "source_release" SourceReleaseEvidence_codec
      (field "operational_evidence" SignedLocatedArtifact_codec
      (field "audits" (slice_codec ProductionAuditEvidence_codec)
      (field "external_audits" (slice_codec ExternalAuditEvidence_codec)
      (field "k21_rehearsal" K21RehearsalEvidence_codec
      (field "mainnet_deployment_plan" LocatedArtifactRef_codec
      (field "formal_checklist" LocatedArtifactRef_codec
      (field "gates" (slice_codec ProductionGateResult_codec)
      (field "decision" string_codec (field "decided_at" string_codec no_fields))))))))))))))
    (λ '(s, (i, (c, (r, (o, (e, (a, (x, (k, (m, (f, (g, (d, (t, _)))))))))))))),
      {| pd_Schema := s; pd_DecisionID := i; pd_CeremonyID := c; pd_Release := r;
         pd_SourceRelease := o; pd_OperationalEvidence := e; pd_Audits := a; pd_ExternalAudits := x;
         pd_K21Rehearsal := k; pd_MainnetDeploymentPlan := m; pd_FormalChecklist := f;
         pd_Gates := g; pd_Decision := d; pd_DecidedAt := t |})
    (λ d, (pd_Schema d, (pd_DecisionID d, (pd_CeremonyID d, (pd_Release d, (pd_SourceRelease d,
      (pd_OperationalEvidence d, (pd_Audits d, (pd_ExternalAudits d, (pd_K21Rehearsal d,
      (pd_MainnetDeploymentPlan d, (pd_FormalChecklist d, (pd_Gates d, (pd_Decision d,
      (pd_DecidedAt d, tt)))))))))))))))
    ltac:(by intros []) ltac:(by intros (?&?&?&?&?&?&?&?&?&?&?&?&?&?&[])).

Definition ProductionDecision_set_DecisionID (v : list Z) (d : ProductionDecision) : ProductionDecision :=
  {| pd_Schema := pd_Schema d; pd_DecisionID := v; pd_CeremonyID := pd_CeremonyID d;
     pd_Release := pd_Release d; pd_SourceRelease := pd_SourceRelease d;
     pd_OperationalEvidence := pd_OperationalEvidence d; pd_Audits := pd_Audits d;
     pd_ExternalAudits := pd_ExternalAudits d; pd_K21Rehearsal := pd_K21Rehearsal d;
     pd_MainnetDeploymentPlan := pd_MainnetDeploymentPlan d; pd_FormalChecklist := pd_FormalChecklist d;
     pd_Gates := pd_Gates d; pd_Decision := pd_Decision d; pd_DecidedAt := pd_DecidedAt d |}.

Definition computeProductionDecisionID (value : ProductionDecision) : result go_error (list Z) :=
  let value := ProductionDecision_set_DecisionID [] value in
  _ ← check (differs (pd_Schema value) ProductionDecisionSchema) "production decision schema %q, want %q";
  Ok (canonicalHash (str "proof-tool/mpc-ceremony/production-decision/v1")
       (enc ProductionDecision_codec value)).

(** [d.Audits[i]]: out of range is a panic. *)
Definition index_slice {A} (s : option (list A)) (i : nat) : result go_error A :=
  match default [] s !! i with Some x => Ok x | None => Err (Fail "index out of range") end.

(** *** The evidence of a decision *)

Definition allLocatedArtifacts (d : ProductionDecision) : result go_error (list LocatedArtifactRef) :=
  a0 ← index_slice (pd_Audits d) 0;
  a1 ← index_slice (pd_Audits d) 1;
  let r := pd_Release d in
  Ok ([ re_Manifest r; re_ManifestSignature r; re_ManifestPublicKey r;
        sl_Record (re_Candidate r); sl_Signature (re_Candidate r); re_FinalTranscript r;
        sr_SignedTagObject (pd_SourceRelease d);
        sl_Record (pd_OperationalEvidence d); sl_Signature (pd_OperationalEvidence d);
        sl_Record (pa_Audit a0); sl_Signature (pa_Audit a0);
        sl_Record (pa_Audit a1); sl_Signature (pa_Audit a1);
        kr_Evidence (pd_K21Rehearsal d); pd_MainnetDeploymentPlan d; pd_FormalChecklist d ] ++
      default [] (re_Artifacts r) ++
      concat ((λ e, [ea_Report e; ea_Signoff e]) <$> default [] (pd_ExternalAudits d)) ++
      concat ((λ g, default [] (pg_Evidence g)) <$> default [] (pd_Gates d))).

(** [if previous, ok := m[key]; ok && previous != ref] *)
Definition conflicts (m : gmap (list Z) LocatedArtifactRef) (key : list Z) (ref : LocatedArtifactRef) : bool :=
  match m !! key with Some previous => bool_decide (previous ≠ ref) | None => false end.

Fixpoint coherent_from (byName byURI : gmap (list Z) LocatedArtifactRef) (refs : list LocatedArtifactRef) :
    checked :=
  match refs with
  | [] => Ok tt
  | ref :: refs =>
      let name := ar_Name (la_Artifact ref) in
      _ ← check (conflicts byName name ref) "artifact name %q is bound to conflicting evidence";
      _ ← check (conflicts byURI (la_URI ref) ref) "artifact URI %q is bound to conflicting evidence";
      coherent_from (<[name := ref]> byName) (<[la_URI ref := ref]> byURI) refs
  end.

Definition validateLocatedArtifactCoherence (d : ProductionDecision) : checked :=
  refs ← allLocatedArtifacts d;
  coherent_from ∅ ∅ refs.

(** [strings.Compare(a.URI, b.URI)] sorts so that no later URI is smaller. *)
Definition uri_le (a b : LocatedArtifactRef) : Prop := string_le (la_URI a) (la_URI b).
#[export] Instance uri_le_dec : RelDecision uri_le.
Proof. intros a b. unfold uri_le. apply _. Defined.

Definition uniqueLocatedArtifacts `{MapOrder} (d : ProductionDecision) : result go_error (list LocatedArtifactRef) :=
  refs ← allLocatedArtifacts d;
  let byURI := foldl (λ (m : gmap (list Z) LocatedArtifactRef) ref, <[la_URI ref := ref]> m) ∅ refs in
  Ok (merge_sort uri_le (map_order (map_to_list byURI)).*2).

(** [path.Ext], over the reversed path. *)
Fixpoint ext_from (r acc : list Z) : list Z :=
  match r with
  | c :: r => if c =? 47 then [] else if c =? 46 then c :: acc else ext_from r (c :: acc)
  | [] => []
  end.
Definition path_Ext (p : list Z) : list Z := ext_from (rev p) [].

Section decision.
Context `{URLParser, MapOrder}.

Definition ProductionDecision_Validate (d : ProductionDecision) : checked :=
  _ ← check (differs (pd_Schema d) ProductionDecisionSchema) "production decision schema %q, want %q";
  _ ← validateHashID "decision_id" (pd_DecisionID d);
  expected ← computeProductionDecisionID d;
  _ ← check (differs (pd_DecisionID d) expected) "decision_id %q, want %q";
  _ ← validateHashID "ceremony_id" (pd_CeremonyID d);
  _ ← within "release" (SignedReleaseEvidence_Validate (pd_Release d));
  _ ← within "source_release" (SourceReleaseEvidence_Validate (pd_SourceRelease d));
  _ ← within "operational_evidence" (SignedLocatedArtifact_Validate (pd_OperationalEvidence d));
  _ ← check (negb (slice_len (pd_Audits d) =? 2)%nat)
        "production decision requires exactly two audits, got %d";
  _ ← each_ordered pa_AuditorID (λ audit, within "audit %d" (ProductionAuditEvidence_Validate audit))
        "audits must be ordered by distinct auditor_id" None (default [] (pd_Audits d));
  a0 ← index_slice (pd_Audits d) 0;
  a1 ← index_slice (pd_Audits d) 1;
  _ ← check (bool_decide (pa_AuditorKeyID a0 = pa_AuditorKeyID a1))
        "production audit key ids must be distinct";
  _ ← check (negb (slice_len (pd_ExternalAudits d) =? 2)%nat)
        "production decision requires exactly two external audits, got %d";
  _ ← each_ordered (λ e, id_ID (ea_Auditor e))
        (λ external, within "external audit %d" (ExternalAuditEvidence_Validate external))
        "external audits must be ordered by distinct auditor identity" None
        (default [] (pd_ExternalAudits d));
  e0 ← index_slice (pd_ExternalAudits d) 0;
  e1 ← index_slice (pd_ExternalAudits d) 1;
  _ ← check (bool_decide (id_PublicKeyFingerprint (ea_Auditor e0) = id_PublicKeyFingerprint (ea_Auditor e1)))
        "external audit signer keys must be distinct";
  _ ← K21RehearsalEvidence_Validate (pd_K21Rehearsal d);
  _ ← within "mainnet_deployment_plan" (LocatedArtifactRef_Validate (pd_MainnetDeploymentPlan d));
  _ ← within "formal_checklist" (LocatedArtifactRef_Validate (pd_FormalChecklist d));
  _ ← check (differs (path_Ext (ar_Name (la_Artifact (pd_FormalChecklist d)))) (str ".md"))
        "formal checklist artifact must be Markdown with a .md logical name";
  _ ← check (negb (slice_len (pd_Gates d) =? length requiredProductionGates)%nat)
        "production decision has %d gates, want exactly %d";
  allPass ← check_gates requiredProductionGates (default [] (pd_Gates d)) true;
  _ ← (if bool_decide (pd_Decision d = DecisionGO) then
         check (negb allPass) "GO decision requires every production gate to be PASS"
       else if bool_decide (pd_Decision d = DecisionNOGO) then
         check allPass "NO-GO decision must enumerate at least one FAIL or PENDING gate"
       else Err (Fail "unsupported production decision %q"));
  _ ← validateTimestamp "decided_at" (pd_DecidedAt d);
  validateLocatedArtifactCoherence d.

Definition NewProductionDecision (value : ProductionDecision) : result go_error ProductionDecision :=
  let value := {| pd_Schema := ProductionDecisionSchema; pd_DecisionID := [];
     pd_CeremonyID := pd_CeremonyID value;
     pd_Release := pd_Release value; pd_SourceRelease := pd_SourceRelease value;
     pd_OperationalEvidence := pd_OperationalEvidence value; pd_Audits := pd_Audits value;
     pd_ExternalAudits := pd_ExternalAudits value; pd_K21Rehearsal := pd_K21Rehearsal value;
     pd_MainnetDeploymentPlan := pd_MainnetDeploymentPlan value;
     pd_FormalChecklist := pd_FormalChecklist value;
     pd_Gates := pd_Gates value; pd_Decision := pd_Decision value; pd_DecidedAt := pd_DecidedAt value |} in
  id ← computeProductionDecisionID value;
  let value := ProductionDecision_set_DecisionID id value in
  _ ← ProductionDecision_Validate value;
  Ok value.
End decision.

(** * Preparing, signing and verifying a production decision

    The second half of [internal/mpcceremony/decision.go]: the operator's draft, the
    binding of a decision to the ceremony definition, who may sign it, and the
    acceptance of a signed decision. *)

(** Of [workflow.go]. *)
Definition maxSignedRecordBytes : Z := Z.shiftl 16 20.

(** ** The operator's draft *)

Record ProductionDecisionDraft := {
  dd_Schema : list Z;
  dd_CeremonyID : list Z;
  dd_Release : SignedReleaseEvidenceDraft;
  dd_SourceRelease : SourceReleaseEvidence;
  dd_OperationalEvidence : SignedLocatedArtifact;
  dd_Audits : option (list ProductionAuditEvidence);
  dd_ExternalAudits : option (list ExternalAuditEvidence);
  dd_K21Rehearsal : K21RehearsalEvidence;
  dd_MainnetDeploymentPlan : LocatedArtifactRef;
  dd_FormalChecklist : LocatedArtifactRef;
  dd_Gates : option (list ProductionGateResult);
  dd_Decision : list Z;
  dd_DecidedAt : list Z }.

Definition ProductionDecisionDraft_codec : codec ProductionDecisionDraft :=
  struct (field "schema" string_codec (field "ceremony_id" string_codec
      (field "release" SignedReleaseEvidenceDraft_codec (field "source_release" SourceReleaseEvidence_codec
      (field "operational_evidence" SignedLocatedArtifact_codec
      (field "audits" (slice_codec ProductionAuditEvidence_codec)
      (field "external_audits" (slice_codec ExternalAuditEvidence_codec)
      (field "k21_rehearsal" K21RehearsalEvidence_codec
      (field "mainnet_deployment_plan" LocatedArtifactRef_codec
      (field "formal_checklist" LocatedArtifactRef_codec
      (field "gates" (slice_codec ProductionGateResult_codec)
      (field "decision" string_codec (field "decided_at" string_codec no_fields)))))))))))))
    (λ '(s, (c, (r, (o, (e, (a, (x, (k, (m, (f, (g, (d, (t, _))))))))))))),
      {| dd_Schema := s; dd_CeremonyID := c; dd_Release := r;
         dd_SourceRelease := o; dd_OperationalEvidence := e; dd_Audits := a; dd_ExternalAudits := x;
         dd_K21Rehearsal := k; dd_MainnetDeploymentPlan := m; dd_FormalChecklist := f;
         dd_Gates := g; dd_Decision := d; dd_DecidedAt := t |})
    (λ d, (dd_Schema d, (dd_CeremonyID d, (dd_Release d, (dd_SourceRelease d,
      (dd_OperationalEvidence d, (dd_Audits d, (dd_ExternalAudits d, (dd_K21Rehearsal d,
      (dd_MainnetDeploymentPlan d, (dd_FormalChecklist d, (dd_Gates d, (dd_Decision d,
      (dd_DecidedAt d, tt))))))))))))))
    ltac:(by intros []) ltac:(by intros (?&?&?&?&?&?&?&?&?&?&?&?&?&[])).

Section preparing.
Context `{URLParser, MapOrder}.

Definition ProductionDecisionDraft_decision (d : ProductionDecisionDraft) : result go_error ProductionDecision :=
  _ ← check (differs (dd_Schema d) ProductionDecisionDraftSchema)
        "production decision draft schema %q, want %q";
  release ← within "draft release" (SignedReleaseEvidenceDraft_release (dd_Release d));
  NewProductionDecision
    {| pd_Schema := []; pd_DecisionID := []; pd_CeremonyID := dd_CeremonyID d; pd_Release := release;
       pd_SourceRelease := dd_SourceRelease d; pd_OperationalEvidence := dd_OperationalEvidence d;
       pd_Audits := dd_Audits d; pd_ExternalAudits := dd_ExternalAudits d;
       pd_K21Rehearsal := dd_K21Rehearsal d; pd_MainnetDeploymentPlan := dd_MainnetDeploymentPlan d;
       pd_FormalChecklist := dd_FormalChecklist d; pd_Gates := dd_Gates d;
       pd_Decision := dd_Decision d; pd_DecidedAt := dd_DecidedAt d |}.

Definition ProductionDecisionDraft_Validate (d : ProductionDecisionDraft) : checked :=
  _ ← ProductionDecisionDraft_decision d; Ok tt.

Definition validateProductionDecisionBinding (definition : CeremonyDefinition) (decision : ProductionDecision) :
    checked :=
  _ ← check (differs (pd_CeremonyID decision) (cd_CeremonyID definition))
        "production decision ceremony_id does not match the signed definition";
  _ ← check (differs (sr_SourceCommit (pd_SourceRelease decision)) (sw_SourceCommit (cd_Software definition)))
        "production decision source release does not match ceremony build provenance";
  let k := pd_K21Rehearsal decision in let c := cd_Circuit definition in
  _ ← check (differs (kr_KeyVersion k) (cb_KeyVersion c) || differs (kr_CircuitID k) (cb_CircuitID c) ||
             differs (kr_Curve k) (cb_Curve c) || differs (kr_Backend k) (cb_Backend c) ||
             negb (kr_Constraints k =? cb_Constraints c) || negb (kr_DomainSize k =? cb_DomainSize c))
        "K22 rehearsal does not bind the ceremony definition's exact compiled circuit";
  _ ← each (default [] (pd_Audits decision)) (λ audit,
        check (match auditorByID definition (pa_AuditorID audit) with
               | Some enrolled => differs (id_KeyID enrolled) (pa_AuditorKeyID audit)
               | None => true
               end) "decision auditor %q is not enrolled with key %q");
  each (default [] (pd_ExternalAudits decision)) (λ external,
    let externalFP := id_PublicKeyFingerprint (ea_Auditor external) in
    _ ← check (negb (differs externalFP (id_PublicKeyFingerprint (cd_Coordinator definition))) ||
               negb (differs externalFP (id_PublicKeyFingerprint (cd_ReleaseSigner definition))))
          "external auditor key must be distinct from ceremony coordinator and release signer";
    each (cd_Auditors definition) (λ auditor,
      check (negb (differs externalFP (id_PublicKeyFingerprint auditor)))
        "external auditor key must be distinct from enrolled ceremony auditors")).

(** The decision and the bytes to be signed. *)
Definition PrepareProductionDecision (definition : CeremonyDefinition) (draftBytes : list Z) :
    result go_error (ProductionDecision * list Z) :=
  _ ← CeremonyDefinition_Validate definition;
  draft ← within "production decision draft"
    (UnmarshalCanonical ProductionDecisionDraft_codec ProductionDecisionDraft_Validate draftBytes);
  decision ← ProductionDecisionDraft_decision draft;
  _ ← validateProductionDecisionBinding definition decision;
  record ← MarshalCanonical ProductionDecision_Validate (enc ProductionDecision_codec) decision;
  Ok (decision, record).
End preparing.

(** ** Signatures of the accountable roles *)

Definition DecisionSignerCoordinator : list Z := str "coordinator".
Definition DecisionSignerAuditor : list Z := str "auditor".
Definition DecisionSignerRelease : list Z := str "release_signer".

Record ProductionDecisionSignature := {
  ps_Schema : list Z;
  ps_Role : list Z;
  ps_SignerID : list Z;
  ps_Signature : DetachedSignature }.
#[export] Instance ProductionDecisionSignature_eq_dec : EqDecision ProductionDecisionSignature.
Proof. solve_decision. Defined.

Definition ProductionDecisionSignature_codec : codec ProductionDecisionSignature :=
  struct (field "schema" string_codec (field "role" string_codec (field "signer_id" string_codec
      (field "signature" DetachedSignature_codec no_fields))))
    (λ '(s, (r, (i, (g, _)))), {| ps_Schema := s; ps_Role := r; ps_SignerID := i; ps_Signature := g |})
    (λ p, (ps_Schema p, (ps_Role p, (ps_SignerID p, (ps_Signature p, tt)))))
    ltac:(by intros []) ltac:(by intros (?&?&?&?&[])).

Definition ProductionDecisionSignature_Validate (s : ProductionDecisionSignature) : checked :=
  _ ← check (differs (ps_Schema s) ProductionDecisionSignatureSchema)
        "decision signature schema %q, want %q";
  _ ← check (differs (ps_Role s) DecisionSignerCoordinator && differs (ps_Role s) DecisionSignerAuditor &&
             differs (ps_Role s) DecisionSignerRelease)
        "unsupported decision signer role %q";
  _ ← validateID "decision signer_id" (ps_SignerID s);
  DetachedSignature_Validate (ps_Signature s).

(** The loop over the audits of the decision; [break] goes to the error after it. *)
Fixpoint auditor_identity (definition : CeremonyDefinition) (id : list Z)
    (audits : list ProductionAuditEvidence) : result go_error Identity :=
  let refused := Err (Fail "auditor decision signature is not from either audit bound by the decision") in
  match audits with
  | [] => refused
  | audit :: audits =>
      if bool_decide (pa_AuditorID audit = id) then
        match auditorByID definition id with
        | Some identity => if differs (id_KeyID identity) (pa_AuditorKeyID audit) then refused else Ok identity
        | None => refused
        end
      else auditor_identity definition id audits
  end.

Definition decisionSignerIdentity (definition : CeremonyDefinition) (decision : ProductionDecision)
    (role id : list Z) : result go_error Identity :=
  _ ← validateProductionDecisionBinding definition decision;
  if bool_decide (role = DecisionSignerCoordinator) then
    _ ← check (differs id (id_ID (cd_Coordinator definition)))
          "coordinator decision signature has the wrong identity";
    Ok (cd_Coordinator definition)
  else if bool_decide (role = DecisionSignerRelease) then
    _ ← check (differs id (id_ID (cd_ReleaseSigner definition)))
          "release-signer decision signature has the wrong identity";
    Ok (cd_ReleaseSigner definition)
  else if bool_decide (role = DecisionSignerAuditor) then
    auditor_identity definition id (default [] (pd_Audits decision))
  else Err (Fail "unsupported decision signer role %q").

Definition SignProductionDecision `{URLParser, MapOrder} (definition : CeremonyDefinition)
    (decisionBytes role signerID privateKey : list Z) : result go_error (list Z) :=
  decision ← within "production decision"
    (UnmarshalCanonical ProductionDecision_codec ProductionDecision_Validate decisionBytes);
  identity ← decisionSignerIdentity definition decision role signerID;
  publicKey ← identityPublicKey identity;
  _ ← check (negb (length privateKey =? PrivateKeySize)%nat ||
             differs (drop (PrivateKeySize - PublicKeySize) privateKey) publicKey)
        "decision signing key does not match the required ceremony identity";
  detached ← SignExact decisionBytes (id_KeyID identity) privateKey;
  MarshalCanonical ProductionDecisionSignature_Validate (enc ProductionDecisionSignature_codec)
    {| ps_Schema := ProductionDecisionSignatureSchema; ps_Role := role; ps_SignerID := signerID;
       ps_Signature := detached |}.

(** ** Verification *)

(** [string(role) + "\x00" + id] *)
Definition signer_key (role id : list Z) : list Z := role ++ [0] ++ id.

Definition requiredDecisionSigners (definition : CeremonyDefinition) (decision : ProductionDecision) :
    result go_error (list (list Z)) :=
  a0 ← index_slice (pd_Audits decision) 0;
  a1 ← index_slice (pd_Audits decision) 1;
  Ok [ signer_key DecisionSignerCoordinator (id_ID (cd_Coordinator definition));
       signer_key DecisionSignerAuditor (pa_AuditorID a0);
       signer_key DecisionSignerAuditor (pa_AuditorID a1);
       signer_key DecisionSignerRelease (id_ID (cd_ReleaseSigner definition)) ].

Record VerifiedProductionDecision := {
  vd_Decision : ProductionDecision;
  vd_DecisionDigest : Digest;
  vd_VerifiedSigners : list (list Z);
  vd_VerifiedArtifacts : list LocatedArtifactRef }.

(** One signature of the list; [seen] has the keys of the map. *)
Definition verify_signature (definition : CeremonyDefinition) (decision : ProductionDecision)
    (decisionBytes : list Z) (seen : gset (list Z)) (raw : list Z) : result go_error (list Z) :=
  signature ← within "decision signature %d"
    (UnmarshalCanonical ProductionDecisionSignature_codec ProductionDecisionSignature_Validate raw);
  identity ← within "decision signature %d"
    (decisionSignerIdentity definition decision (ps_Role signature) (ps_SignerID signature));
  let key := signer_key (ps_Role signature) (ps_SignerID signature) in
  _ ← check (bool_decide (key ∈ seen)) "duplicate decision signature for %s %q";
  publicKey ← identityPublicKey identity;
  _ ← within "decision signature %d"
        (VerifyExact decisionBytes (ps_Signature signature) (id_KeyID identity) publicKey);
  Ok key.

Fixpoint verify_signatures (definition : CeremonyDefinition) (decision : ProductionDecision)
    (decisionBytes : list Z) (seen : gset (list Z)) (verified : list (list Z)) (raws : list (list Z)) :
    result go_error (gset (list Z) * list (list Z)) :=
  match raws with
  | [] => Ok (seen, verified)
  | raw :: raws =>
      key ← verify_signature definition decision decisionBytes seen raw;
      verify_signatures definition decision decisionBytes ({[key]} ∪ seen) (verified ++ [key]) raws
  end.

(** The threshold of a GO decision. *)
Definition check_threshold (definition : CeremonyDefinition) (decision : ProductionDecision)
    (seen : gset (list Z)) : checked :=
  if bool_decide (pd_Decision decision = DecisionGO) then
    required ← requiredDecisionSigners definition decision;
    _ ← each required (λ signer,
          check (bool_decide (signer ∉ seen)) "GO decision is missing required %s signature from %q");
    check (negb (size seen =? length required)%nat)
      "GO decision contains a signature outside the exact required threshold"
  else Ok tt.

Section verifying.
Context `{URLParser, MapOrder, XCryptoBlake2b}.

(** The evidence tree: what a logical path below the evidence root leads to - a regular
    file with these bytes, reached without symbolic links - or nothing. *)
Context (tree : list Z → option (list Z)).

(** [resolveArtifactPath] of [workflow.go], and the file it leads to. *)
Definition resolve_and_read (name : list Z) : result go_error (list Z) :=
  _ ← validateArtifactName name;
  _ ← check (bool_decide (name = str "..") || HasPrefix name (str "../"))
        "artifact %q escapes transcript root";
  match tree name with Some data => Ok data | None => Err (Fail "read %q") end.

(** [resolveArtifactPath] with [artifactRefForFile] of [finalize.go]. *)
Definition artifactRefForFile (name : list Z) : result go_error ArtifactRef :=
  data ← resolve_and_read name;
  let n := Z.of_nat (length data) in
  _ ← check ((n <=? 0) || (MaxArtifactSize <? n)) "%q size %d is outside [1,%d]";
  let ref := {| ar_Name := name; ar_Digest := NewDigest data |} in
  _ ← ArtifactRef_Validate ref;
  Ok ref.

(** [verifyArtifactBytes] of [workflow.go]. *)
Definition verifyArtifactBytes (ref : ArtifactRef) (max : Z) : result go_error (list Z) :=
  data ← resolve_and_read (ar_Name ref);
  let n := Z.of_nat (length data) in
  _ ← check ((n <=? 0) || (max <? n)) "%q size %d is outside [1,%d]";
  _ ← check (bool_decide (NewDigest data ≠ ar_Digest ref)) "artifact %q digest mismatch";
  Ok data.

Definition decisionArtifactBytes (located : LocatedArtifactRef) (maximum : Z) : result go_error (list Z) :=
  verifyArtifactBytes (la_Artifact located) maximum.

Definition verifyDecisionExternalAudits (decision : ProductionDecision) : checked :=
  each (default [] (pd_ExternalAudits decision)) (λ external,
    reportBytes ← decisionArtifactBytes (ea_Report external) maxSignedRecordBytes;
    signoffBytes ← decisionArtifactBytes (ea_Signoff external) maxSignedRecordBytes;
    signoff ← UnmarshalCanonical DetachedSignature_codec DetachedSignature_Validate signoffBytes;
    publicKey ← identityPublicKey (ea_Auditor external);
    within "external audit %d"
      (VerifyExact reportBytes signoff (id_KeyID (ea_Auditor external)) publicKey)).

(** The release tree, the operational evidence and the independent audits are verified
    by replaying the whole ceremony; those three checks are arguments. *)
Context (verifyDecisionRelease verifyDecisionOperationalEvidence verifyDecisionAudits :
  CeremonyDefinition → ProductionDecision → checked).

Definition VerifyProductionDecisionEvidence (definition : CeremonyDefinition) (decisionBytes : list Z) :
    result go_error VerifiedProductionDecision :=
  _ ← CeremonyDefinition_Validate definition;
  decision ← within "production decision"
    (UnmarshalCanonical ProductionDecision_codec ProductionDecision_Validate decisionBytes);
  _ ← validateProductionDecisionBinding definition decision;
  artifacts ← uniqueLocatedArtifacts decision;
  _ ← each artifacts (λ located,
        actual ← artifactRefForFile (ar_Name (la_Artifact located));
        check (bool_decide (actual ≠ la_Artifact located))
          "decision evidence %q changed or has the wrong digest");
  _ ← within "signed release evidence" (verifyDecisionRelease definition decision);
  _ ← within "operational evidence" (verifyDecisionOperationalEvidence definition decision);
  _ ← within "independent audits" (verifyDecisionAudits definition decision);
  _ ← within "external audit" (verifyDecisionExternalAudits decision);
  Ok {| vd_Decision := decision; vd_DecisionDigest := NewDigest decisionBytes;
        vd_VerifiedSigners := []; vd_VerifiedArtifacts := artifacts |}.

Definition VerifyProductionDecision (definition : CeremonyDefinition) (decisionBytes : list Z)
    (signatureBytes : list (list Z)) : result go_error VerifiedProductionDecision :=
  evidence ← VerifyProductionDecisionEvidence definition decisionBytes;
  let decision := vd_Decision evidence in
  '(seen, verified) ← verify_signatures definition decision decisionBytes ∅ [] signatureBytes;
  _ ← check (bool_decide (verified = [])) "production decision has no verified signatures";
  _ ← check_threshold definition decision seen;
  Ok {| vd_Decision := vd_Decision evidence; vd_DecisionDigest := vd_DecisionDigest evidence;
        vd_VerifiedSigners := merge_sort string_le verified;
        vd_VerifiedArtifacts := vd_VerifiedArtifacts evidence |}.
End verifying.
