(* ===== verification/MpcAttestation.v ===== *)
(** * Contribution and erasure attestations: [internal/mpcceremony/attestation.go]

    What a participant states about a contribution - the payload extended, the software
    and the environment used - and about the later destruction of the secret. *)
From stdpp Require Import strings.
From S2P Require Import Prelude.
From S2P Require Import GoText.
From S2P Require Import GoError.
From S2P Require Import Sha256.
From S2P Require Import GoTime.
From S2P Require Import GoJson.
From S2P Require Import Ownership.
From S2P Require Import MpcModel.
From S2P Require Import MpcPreflight.
From S2P Require Import MpcDefinition.

Definition ErasureAttestationSchema : list Z := str "proof-tool-mpc-erasure-attestation-v1".
Definition ContributionAttestationSchema : list Z :=
  str "proof-tool-mpc-contribution-attestation-v1".

(** [a.Index == 0 || a.Index > MaxParticipants] *)
Definition bad_index (index : Z) : bool := (index =? 0) || (MaxParticipants <? index).

(** ** The environment of a contribution *)

Record ContributionEnvironment := {
  ce_OS : list Z;
  ce_Architecture : list Z;
  ce_EntropySource : list Z;
  ce_SwapDisabled : bool;
  ce_CrashDumpsDisabled : bool;
  ce_TelemetryDisabled : bool;
  ce_EphemeralEnvironment : bool;
  ce_EphemeralDestructionRequired : bool }.
#[export] Instance ContributionEnvironment_eq_dec : EqDecision ContributionEnvironment.
Proof. solve_decision. Defined.

Definition ContributionEnvironment_json (r : ContributionEnvironment) : json := JObj
  [ (str "os", JStr (ce_OS r));
    (str "architecture", JStr (ce_Architecture r));
    (str "entropy_source", JStr (ce_EntropySource r));
    (str "swap_disabled", JBool (ce_SwapDisabled r));
    (str "crash_dumps_disabled", JBool (ce_CrashDumpsDisabled r));
    (str "telemetry_disabled", JBool (ce_TelemetryDisabled r));
    (str "ephemeral_environment", JBool (ce_EphemeralEnvironment r));
    (str "ephemeral_destruction_required", JBool (ce_EphemeralDestructionRequired r)) ].

Definition ContributionEnvironment_Validate (e : ContributionEnvironment) : checked :=
  _ ← check (bool_decide (ce_OS e = []) || bool_decide (ce_Architecture e = []))
        "contribution environment OS and architecture are required";
  _ ← check (differs (ce_EntropySource e) (str "operating-system-csprng"))
        "entropy_source %q, want operating-system-csprng";
  check (negb (ce_SwapDisabled e) || negb (ce_CrashDumpsDisabled e) || negb (ce_TelemetryDisabled e) ||
         negb (ce_EphemeralEnvironment e) || negb (ce_EphemeralDestructionRequired e))
    "all production contribution environment controls and the post-contribution destruction plan must be attested".

(** ** Erasure *)

Record ErasureAttestation := {
  er_Schema : list Z;
  er_ErasureID : list Z;
  er_CeremonyID : list Z;
  er_Phase : list Z;
  er_PhaseID : list Z;
  er_Index : Z;
  er_ParticipantID : list Z;
  er_ParticipantKeyID : list Z;
  er_ContributionAttestationID : list Z;
  er_OutputPayload : ArtifactRef;
  er_DestroyedAt : list Z;
  er_ProcessTerminated : bool;
  er_EphemeralStorageDestroyed : bool;
  er_NoBackupRetained : bool }.
#[export] Instance ErasureAttestation_eq_dec : EqDecision ErasureAttestation.
Proof. solve_decision. Defined.

Definition ErasureAttestation_json (r : ErasureAttestation) : json := JObj
  [ (str "schema", JStr (er_Schema r));
    (str "erasure_id", JStr (er_ErasureID r));
    (str "ceremony_id", JStr (er_CeremonyID r));
    (str "phase", JStr (er_Phase r));
    (str "phase_id", JStr (er_PhaseID r));
    (str "index", JNum (er_Index r));
    (str "participant_id", JStr (er_ParticipantID r));
    (str "participant_key_id", JStr (er_ParticipantKeyID r));
    (str "contribution_attestation_id", JStr (er_ContributionAttestationID r));
    (str "output_payload", ArtifactRef_json (er_OutputPayload r));
    (str "destroyed_at", JStr (er_DestroyedAt r));
    (str "process_terminated", JBool (er_ProcessTerminated r));
    (str "ephemeral_storage_destroyed", JBool (er_EphemeralStorageDestroyed r));
    (str "no_backup_retained", JBool (er_NoBackupRetained r)) ].

Definition ErasureAttestation_set_Schema (v : list Z) (r : ErasureAttestation) : ErasureAttestation :=
  {| er_Schema := v; er_ErasureID := er_ErasureID r; er_CeremonyID := er_CeremonyID r;
     er_Phase := er_Phase r; er_PhaseID := er_PhaseID r; er_Index := er_Index r;
     er_ParticipantID := er_ParticipantID r; er_ParticipantKeyID := er_ParticipantKeyID r;
     er_ContributionAttestationID := er_ContributionAttestationID r; er_OutputPayload :=
     er_OutputPayload r; er_DestroyedAt := er_DestroyedAt r; er_ProcessTerminated :=
     er_ProcessTerminated r; er_EphemeralStorageDestroyed := er_EphemeralStorageDestroyed r;
     er_NoBackupRetained := er_NoBackupRetained r |}.

Definition ErasureAttestation_set_ErasureID (v : list Z) (r : ErasureAttestation) : ErasureAttestation :=
  {| er_Schema := er_Schema r; er_ErasureID := v; er_CeremonyID := er_CeremonyID r; er_Phase
     := er_Phase r; er_PhaseID := er_PhaseID r; er_Index := er_Index r; er_ParticipantID :=
     er_ParticipantID r; er_ParticipantKeyID := er_ParticipantKeyID r;
     er_ContributionAttestationID := er_ContributionAttestationID r; er_OutputPayload :=
     er_OutputPayload r; er_DestroyedAt := er_DestroyedAt r; er_ProcessTerminated :=
     er_ProcessTerminated r; er_EphemeralStorageDestroyed := er_EphemeralStorageDestroyed r;
     er_NoBackupRetained := er_NoBackupRetained r |}.

Definition ErasureAttestation_validate (requireID : bool) (a : ErasureAttestation) : checked :=
  _ ← check_schema_and_id (er_Schema a) ErasureAttestationSchema requireID "erasure_id" (er_ErasureID a);
  _ ← validateHashID "ceremony_id" (er_CeremonyID a);
  _ ← Phase_Validate (er_Phase a);
  _ ← validateHashID "phase_id" (er_PhaseID a);
  _ ← check (bad_index (er_Index a)) "erasure index %d must be between 1 and %d";
  _ ← validateID "participant_id" (er_ParticipantID a);
  _ ← validateID "participant_key_id" (er_ParticipantKeyID a);
  _ ← validateHashID "contribution_attestation_id" (er_ContributionAttestationID a);
  _ ← within "output_payload" (ArtifactRef_Validate (er_OutputPayload a));
  _ ← validateTimestamp "destroyed_at" (er_DestroyedAt a);
  check (negb (er_ProcessTerminated a) || negb (er_EphemeralStorageDestroyed a) ||
         negb (er_NoBackupRetained a))
    "erasure attestation requires process termination, ephemeral storage destruction, and no retained backup".

#[export] Instance ErasureAttestation_content : ContentRecord ErasureAttestation := {
  rec_json := ErasureAttestation_json;
  rec_schema := ErasureAttestationSchema;
  rec_domain := str "proof-tool/mpc-ceremony/erasure-attestation/v1";
  rec_id := er_ErasureID;
  rec_set_id := ErasureAttestation_set_ErasureID;
  rec_set_schema := ErasureAttestation_set_Schema;
  rec_validate := ErasureAttestation_validate;
}.

Definition ComputeErasureAttestationID (a : ErasureAttestation) : result go_error (list Z) := compute_id a.
Definition ErasureAttestation_Validate (a : ErasureAttestation) : checked := validate_record a.
Definition NewErasureAttestation (a : ErasureAttestation) : result go_error ErasureAttestation :=
  new_record a.

(** ** Contribution *)

Record ContributionAttestation := {
  ca_Schema : list Z;
  ca_AttestationID : list Z;
  ca_CeremonyID : list Z;
  ca_Phase : list Z;
  ca_PhaseID : list Z;
  ca_Index : Z;
  ca_ParticipantID : list Z;
  ca_ParticipantKeyID : list Z;
  ca_PreviousPayload : ArtifactRef;
  ca_OutputPayload : ArtifactRef;
  ca_PreviousAcceptanceID : list Z;
  ca_ToolBinary : Digest;
  ca_SourceCommit : list Z;
  ca_GnarkVersion : list Z;
  ca_GnarkCryptoVersion : list Z;
  ca_DrandVersion : list Z;
  ca_Environment : ContributionEnvironment;
  ca_ContributedAt : list Z }.
#[export] Instance ContributionAttestation_eq_dec : EqDecision ContributionAttestation.
Proof. solve_decision. Defined.

Definition ContributionAttestation_json (r : ContributionAttestation) : json := JObj
  [ (str "schema", JStr (ca_Schema r));
    (str "attestation_id", JStr (ca_AttestationID r));
    (str "ceremony_id", JStr (ca_CeremonyID r));
    (str "phase", JStr (ca_Phase r));
    (str "phase_id", JStr (ca_PhaseID r));
    (str "index", JNum (ca_Index r));
    (str "participant_id", JStr (ca_ParticipantID r));
    (str "participant_key_id", JStr (ca_ParticipantKeyID r));
    (str "previous_payload", ArtifactRef_json (ca_PreviousPayload r));
    (str "output_payload", ArtifactRef_json (ca_OutputPayload r));
    (str "previous_acceptance_id", JStr (ca_PreviousAcceptanceID r));
    (str "tool_binary", Digest_json (ca_ToolBinary r));
    (str "source_commit", JStr (ca_SourceCommit r));
    (str "gnark_version", JStr (ca_GnarkVersion r));
    (str "gnark_crypto_version", JStr (ca_GnarkCryptoVersion r));
    (str "drand_version", JStr (ca_DrandVersion r));
    (str "environment", ContributionEnvironment_json (ca_Environment r));
    (str "contributed_at", JStr (ca_ContributedAt r)) ].

Definition ContributionAttestation_set_Schema (v : list Z) (r : ContributionAttestation) : ContributionAttestation :=
  {| ca_Schema := v; ca_AttestationID := ca_AttestationID r; ca_CeremonyID := ca_CeremonyID
     r; ca_Phase := ca_Phase r; ca_PhaseID := ca_PhaseID r; ca_Index := ca_Index r;
     ca_ParticipantID := ca_ParticipantID r; ca_ParticipantKeyID := ca_ParticipantKeyID r;
     ca_PreviousPayload := ca_PreviousPayload r; ca_OutputPayload := ca_OutputPayload r;
     ca_PreviousAcceptanceID := ca_PreviousAcceptanceID r; ca_ToolBinary := ca_ToolBinary r;
     ca_SourceCommit := ca_SourceCommit r; ca_GnarkVersion := ca_GnarkVersion r;
     ca_GnarkCryptoVersion := ca_GnarkCryptoVersion r; ca_DrandVersion := ca_DrandVersion r;
     ca_Environment := ca_Environment r; ca_ContributedAt := ca_ContributedAt r |}.

Definition ContributionAttestation_set_AttestationID (v : list Z) (r : ContributionAttestation) : ContributionAttestation :=
  {| ca_Schema := ca_Schema r; ca_AttestationID := v; ca_CeremonyID := ca_CeremonyID r;
     ca_Phase := ca_Phase r; ca_PhaseID := ca_PhaseID r; ca_Index := ca_Index r;
     ca_ParticipantID := ca_ParticipantID r; ca_ParticipantKeyID := ca_ParticipantKeyID r;
     ca_PreviousPayload := ca_PreviousPayload r; ca_OutputPayload := ca_OutputPayload r;
     ca_PreviousAcceptanceID := ca_PreviousAcceptanceID r; ca_ToolBinary := ca_ToolBinary r;
     ca_SourceCommit := ca_SourceCommit r; ca_GnarkVersion := ca_GnarkVersion r;
     ca_GnarkCryptoVersion := ca_GnarkCryptoVersion r; ca_DrandVersion := ca_DrandVersion r;
     ca_Environment := ca_Environment r; ca_ContributedAt := ca_ContributedAt r |}.

Definition ContributionAttestation_validate (requireID : bool) (a : ContributionAttestation) : checked :=
  _ ← check_schema_and_id (ca_Schema a) ContributionAttestationSchema requireID "attestation_id"
        (ca_AttestationID a);
  _ ← validateHashID "ceremony_id" (ca_CeremonyID a);
  _ ← Phase_Validate (ca_Phase a);
  _ ← validateHashID "phase_id" (ca_PhaseID a);
  _ ← check (bad_index (ca_Index a)) "contribution index %d must be between 1 and %d";
  _ ← validateID "participant_id" (ca_ParticipantID a);
  _ ← validateID "participant_key_id" (ca_ParticipantKeyID a);
  _ ← within "previous_payload" (ArtifactRef_Validate (ca_PreviousPayload a));
  _ ← within "output_payload" (ArtifactRef_Validate (ca_OutputPayload a));
  _ ← check (bool_decide (dg_SHA256 (ar_Digest (ca_PreviousPayload a)) =
                          dg_SHA256 (ar_Digest (ca_OutputPayload a))))
        "contribution output must differ from previous payload";
  _ ← validateHashID "previous_acceptance_id" (ca_PreviousAcceptanceID a);
  _ ← within "tool_binary" (Digest_Validate (ca_ToolBinary a));
  _ ← within "source_commit" (validateHex (ca_SourceCommit a) 20);
  _ ← check (differs (ca_GnarkVersion a) GnarkVersion) "gnark_version %q, want %q";
  _ ← check (differs (ca_GnarkCryptoVersion a) GnarkCryptoVersion) "gnark_crypto_version %q, want %q";
  _ ← check (differs (ca_DrandVersion a) DrandVersion) "drand_version %q, want %q";
  _ ← within "environment" (ContributionEnvironment_Validate (ca_Environment a));
  validateTimestamp "contributed_at" (ca_ContributedAt a).

#[export] Instance ContributionAttestation_content : ContentRecord ContributionAttestation := {
  rec_json := ContributionAttestation_json;
  rec_schema := ContributionAttestationSchema;
  rec_domain := str "proof-tool/mpc-ceremony/contribution-attestation/v1";
  rec_id := ca_AttestationID;
  rec_set_id := ContributionAttestation_set_AttestationID;
  rec_set_schema := ContributionAttestation_set_Schema;
  rec_validate := ContributionAttestation_validate;
}.

Definition ComputeContributionAttestationID (a : ContributionAttestation) : result go_error (list Z) :=
  compute_id a.
Definition ContributionAttestation_Validate (a : ContributionAttestation) : checked := validate_record a.
Definition NewContributionAttestation (a : ContributionAttestation) :
    result go_error ContributionAttestation :=
  new_record a.

(** ** An erasure of a contribution *)

(** The comparisons of the fields both attestations have. *)
Definition erasure_binds (contribution : ContributionAttestation) (erasure : ErasureAttestation) : bool :=
  bool_decide (er_CeremonyID erasure = ca_CeremonyID contribution) &&
  bool_decide (er_Phase erasure = ca_Phase contribution) &&
  bool_decide (er_PhaseID erasure = ca_PhaseID contribution) &&
  (er_Index erasure =? ca_Index contribution) &&
  bool_decide (er_ParticipantID erasure = ca_ParticipantID contribution) &&
  bool_decide (er_ParticipantKeyID erasure = ca_ParticipantKeyID contribution) &&
  bool_decide (er_ContributionAttestationID erasure = ca_AttestationID contribution) &&
  bool_decide (er_OutputPayload erasure = ca_OutputPayload contribution).

Definition ValidateErasureForContribution (contribution : ContributionAttestation)
    (erasure : ErasureAttestation) : checked :=
  _ ← within "contribution" (ContributionAttestation_Validate contribution);
  _ ← within "erasure" (ErasureAttestation_Validate erasure);
  _ ← check (negb (erasure_binds contribution erasure))
        "erasure attestation does not exactly bind contribution";
  let contributedAt := time_of (ca_ContributedAt contribution) in
  let destroyedAt := time_of (er_DestroyedAt erasure) in
  check (negb (time_After destroyedAt contributedAt))
    "destroyed_at must be strictly after contributed_at".
