(* ===== verification/MpcChain.v ===== *)
(** * The chain of accepted contributions: [internal/mpcceremony/chain.go], first half

    Every accepted contribution is a record that names the payload it extends, the one
    it yields, and the record before it.  The chain of a phase starts at the genesis
    payload and grows by [Append]. *)
From stdpp Require Import strings.
From S2P Require Import Prelude.
From S2P Require Import GoText.
From S2P Require Import GoError.
From S2P Require Import Sha256.
From S2P Require Import GoTime.
From S2P Require Import GoJson.
From S2P Require Import Ownership.
From S2P Require Import MpcModel.
From S2P Require Import MpcPreflight.
From S2P Require Import MpcDefinition.
From S2P Require Import MpcAttestation.

Definition ChainSchema : list Z := str "proof-tool-mpc-accepted-chain-v1".
Definition ChainRecordSchema : list Z := str "proof-tool-mpc-acceptance-record-v1".

(** Artifacts validated by ranging over a map from their labels. *)
Definition validate_labelled `{MapOrder} (artifacts : list (string * ArtifactRef)) : checked :=
  each (map_order artifacts) (λ '(label, artifact), within label (ArtifactRef_Validate artifact)).

(** ** Records *)

Record ChainRecord := {
  cr_Schema : list Z;
  cr_RecordID : list Z;
  cr_CeremonyID : list Z;
  cr_Phase : list Z;
  cr_PhaseID : list Z;
  cr_Index : Z;
  cr_ParticipantID : list Z;
  cr_PreviousPayload : ArtifactRef;
  cr_OutputPayload : ArtifactRef;
  cr_AttestationID : list Z;
  cr_Attestation : ArtifactRef;
  cr_AttestationSignature : ArtifactRef;
  cr_ErasureID : list Z;
  cr_Erasure : ArtifactRef;
  cr_ErasureSignature : ArtifactRef;
  cr_Verification : ArtifactRef;
  cr_PreviousRecordID : list Z;
  cr_CoordinatorID : list Z;
  cr_CoordinatorKeyID : list Z;
  cr_AcceptedAt : list Z }.
#[export] Instance ChainRecord_eq_dec : EqDecision ChainRecord.
Proof. solve_decision. Defined.

Definition ChainRecord_json (r : ChainRecord) : json := JObj
  [ (str "schema", JStr (cr_Schema r));
    (str "record_id", JStr (cr_RecordID r));
    (str "ceremony_id", JStr (cr_CeremonyID r));
    (str "phase", JStr (cr_Phase r));
    (str "phase_id", JStr (cr_PhaseID r));
    (str "index", JNum (cr_Index r));
    (str "participant_id", JStr (cr_ParticipantID r));
    (str "previous_payload", ArtifactRef_json (cr_PreviousPayload r));
    (str "output_payload", ArtifactRef_json (cr_OutputPayload r));
    (str "attestation_id", JStr (cr_AttestationID r));
    (str "attestation", ArtifactRef_json (cr_Attestation r));
    (str "attestation_signature", ArtifactRef_json (cr_AttestationSignature r));
    (str "erasure_id", JStr (cr_ErasureID r));
    (str "erasure", ArtifactRef_json (cr_Erasure r));
    (str "erasure_signature", ArtifactRef_json (cr_ErasureSignature r));
    (str "verification", ArtifactRef_json (cr_Verification r));
    (str "previous_record_id", JStr (cr_PreviousRecordID r));
    (str "coordinator_id", JStr (cr_CoordinatorID r));
    (str "coordinator_key_id", JStr (cr_CoordinatorKeyID r));
    (str "accepted_at", JStr (cr_AcceptedAt r)) ].

Definition ChainRecord_set_Schema (v : list Z) (r : ChainRecord) : ChainRecord :=
  {| cr_Schema := v; cr_RecordID := cr_RecordID r; cr_CeremonyID := cr_CeremonyID r;
     cr_Phase := cr_Phase r; cr_PhaseID := cr_PhaseID r; cr_Index := cr_Index r;
     cr_ParticipantID := cr_ParticipantID r; cr_PreviousPayload := cr_PreviousPayload r;
     cr_OutputPayload := cr_OutputPayload r; cr_AttestationID := cr_AttestationID r;
     cr_Attestation := cr_Attestation r; cr_AttestationSignature := cr_AttestationSignature
     r; cr_ErasureID := cr_ErasureID r; cr_Erasure := cr_Erasure r; cr_ErasureSignature :=
     cr_ErasureSignature r; cr_Verification := cr_Verification r; cr_PreviousRecordID :=
     cr_PreviousRecordID r; cr_CoordinatorID := cr_CoordinatorID r; cr_CoordinatorKeyID :=
     cr_CoordinatorKeyID r; cr_AcceptedAt := cr_AcceptedAt r |}.

Definition ChainRecord_set_RecordID (v : list Z) (r : ChainRecord) : ChainRecord :=
  {| cr_Schema := cr_Schema r; cr_RecordID := v; cr_CeremonyID := cr_CeremonyID r; cr_Phase
     := cr_Phase r; cr_PhaseID := cr_PhaseID r; cr_Index := cr_Index r; cr_ParticipantID :=
     cr_ParticipantID r; cr_PreviousPayload := cr_PreviousPayload r; cr_OutputPayload :=
     cr_OutputPayload r; cr_AttestationID := cr_AttestationID r; cr_Attestation :=
     cr_Attestation r; cr_AttestationSignature := cr_AttestationSignature r; cr_ErasureID :=
     cr_ErasureID r; cr_Erasure := cr_Erasure r; cr_ErasureSignature := cr_ErasureSignature
     r; cr_Verification := cr_Verification r; cr_PreviousRecordID := cr_PreviousRecordID r;
     cr_CoordinatorID := cr_CoordinatorID r; cr_CoordinatorKeyID := cr_CoordinatorKeyID r;
     cr_AcceptedAt := cr_AcceptedAt r |}.

Definition chain_record_artifacts (r : ChainRecord) : list (string * ArtifactRef) :=
  [ ("attestation"%string, cr_Attestation r); ("attestation_signature"%string, cr_AttestationSignature r);
    ("erasure"%string, cr_Erasure r); ("erasure_signature"%string, cr_ErasureSignature r);
    ("verification"%string, cr_Verification r) ].

Definition ChainRecord_validate `{MapOrder} (requireID : bool) (r : ChainRecord) : checked :=
  _ ← check_schema_and_id (cr_Schema r) ChainRecordSchema requireID "record_id" (cr_RecordID r);
  _ ← validateHashID "ceremony_id" (cr_CeremonyID r);
  _ ← Phase_Validate (cr_Phase r);
  _ ← validateHashID "phase_id" (cr_PhaseID r);
  _ ← check (bad_index (cr_Index r)) "chain record index %d must be between 1 and %d";
  _ ← validateID "participant_id" (cr_ParticipantID r);
  _ ← within "previous_payload" (ArtifactRef_Validate (cr_PreviousPayload r));
  _ ← within "output_payload" (ArtifactRef_Validate (cr_OutputPayload r));
  _ ← check (bool_decide (dg_SHA256 (ar_Digest (cr_PreviousPayload r)) =
                          dg_SHA256 (ar_Digest (cr_OutputPayload r))))
        "accepted output payload must differ from previous payload";
  _ ← validateHashID "attestation_id" (cr_AttestationID r);
  _ ← validate_labelled (chain_record_artifacts r);
  _ ← validateHashID "erasure_id" (cr_ErasureID r);
  _ ← validateHashID "previous_record_id" (cr_PreviousRecordID r);
  _ ← validateID "coordinator_id" (cr_CoordinatorID r);
  _ ← validateID "coordinator_key_id" (cr_CoordinatorKeyID r);
  validateTimestamp "accepted_at" (cr_AcceptedAt r).

#[export] Instance ChainRecord_content `{MapOrder} : ContentRecord ChainRecord := {
  rec_json := ChainRecord_json;
  rec_schema := ChainRecordSchema;
  rec_domain := str "proof-tool/mpc-ceremony/acceptance-record/v1";
  rec_id := cr_RecordID;
  rec_set_id := ChainRecord_set_RecordID;
  rec_set_schema := ChainRecord_set_Schema;
  rec_validate := ChainRecord_validate;
}.

Definition ComputeChainRecordID `{MapOrder} (r : ChainRecord) : result go_error (list Z) := compute_id r.
Definition ChainRecord_Validate `{MapOrder} (r : ChainRecord) : checked := validate_record r.
Definition NewChainRecord `{MapOrder} (r : ChainRecord) : result go_error ChainRecord := new_record r.

(** ** Chains *)

Record Chain := {
  ch_Schema : list Z;
  ch_CeremonyID : list Z;
  ch_Phase : list Z;
  ch_PhaseID : list Z;
  ch_Genesis : ArtifactRef;
  ch_Records : list ChainRecord }.
#[export] Instance Chain_eq_dec : EqDecision Chain.
Proof. solve_decision. Defined.

Definition genesis_json (ceremonyID phaseID : list Z) (genesis : ArtifactRef) : json := JObj
  [ (str "ceremony_id", JStr ceremonyID);
    (str "phase_id", JStr phaseID);
    (str "genesis", ArtifactRef_json genesis) ].

Definition GenesisRecordID (ceremonyID phaseID : list Z) (genesis : ArtifactRef) :
    result go_error (list Z) :=
  _ ← validateHashID "ceremony_id" ceremonyID;
  _ ← validateHashID "phase_id" phaseID;
  _ ← ArtifactRef_Validate genesis;
  Ok (canonicalHash (str "proof-tool/mpc-ceremony/genesis-record/v1")
        (genesis_json ceremonyID phaseID genesis)).

Section chains.
Context `{MapOrder}.

(** The variables of the loop of [Chain.Validate]; [h_accepted] is unset before the
    first record. *)
Record head := {
  h_payload : ArtifactRef;
  h_id : list Z;
  h_participants : list (list Z);
  h_accepted : Time;
}.

(** One iteration: record [index] extends the head. *)
Definition extend_head (c : Chain) (index : nat) (h : head) (record : ChainRecord) : result go_error head :=
  _ ← within "record %d" (ChainRecord_Validate record);
  let acceptedAt := time_of (cr_AcceptedAt record) in
  _ ← check ((0 <? index)%nat && negb (time_After acceptedAt (h_accepted h)))
        "record %d accepted_at must be strictly after record %d";
  _ ← check (bool_decide (cr_CeremonyID record ≠ ch_CeremonyID c) ||
             bool_decide (cr_Phase record ≠ ch_Phase c) ||
             bool_decide (cr_PhaseID record ≠ ch_PhaseID c))
        "record %d ceremony or phase identity mismatch";
  _ ← check (negb (cr_Index record =? Z.of_nat index + 1)) "record %d index is %d, want %d";
  _ ← check (bool_decide (cr_PreviousPayload record ≠ h_payload h))
        "record %d previous payload does not equal accepted chain head";
  _ ← check (bool_decide (cr_PreviousRecordID record ≠ h_id h))
        "record %d previous_record_id %q, want %q";
  _ ← check (bool_decide (cr_ParticipantID record ∈ h_participants h))
        "participant %q appears more than once in the phase";
  Ok {| h_payload := cr_OutputPayload record; h_id := cr_RecordID record;
        h_participants := cr_ParticipantID record :: h_participants h; h_accepted := acceptedAt |}.

(** [for index, record := range c.Records] *)
Fixpoint extend_all (c : Chain) (index : nat) (h : head) (records : list ChainRecord) :
    result go_error head :=
  match records with
  | [] => Ok h
  | record :: records =>
      h ← extend_head c index h record;
      extend_all c (S index) h records
  end.

(** The checks of the chain before its records, and the head they start from. *)
Definition genesis_head (c : Chain) : result go_error head :=
  _ ← check (bool_decide (ch_Schema c ≠ ChainSchema)) "chain schema %q, want %q";
  _ ← validateHashID "ceremony_id" (ch_CeremonyID c);
  _ ← Phase_Validate (ch_Phase c);
  _ ← validateHashID "phase_id" (ch_PhaseID c);
  _ ← within "genesis" (ArtifactRef_Validate (ch_Genesis c));
  _ ← check (MaxParticipants <? Z.of_nat (length (ch_Records c)))
        "chain contains %d records, maximum is %d";
  id ← GenesisRecordID (ch_CeremonyID c) (ch_PhaseID c) (ch_Genesis c);
  Ok {| h_payload := ch_Genesis c; h_id := id; h_participants := []; h_accepted := zero_Time |}.

Definition Chain_Validate (c : Chain) : checked :=
  h ← genesis_head c;
  _ ← extend_all c 0 h (ch_Records c);
  Ok tt.

Definition NewChain (ceremonyID phase phaseID : list Z) (genesis : ArtifactRef) :
    result go_error Chain :=
  let chain := {| ch_Schema := ChainSchema; ch_CeremonyID := ceremonyID; ch_Phase := phase;
                  ch_PhaseID := phaseID; ch_Genesis := genesis; ch_Records := [] |} in
  _ ← Chain_Validate chain; Ok chain.

Definition with_records (c : Chain) (records : list ChainRecord) : Chain :=
  {| ch_Schema := ch_Schema c; ch_CeremonyID := ch_CeremonyID c; ch_Phase := ch_Phase c;
     ch_PhaseID := ch_PhaseID c; ch_Genesis := ch_Genesis c; ch_Records := records |}.

(** [Append] mutates its receiver: the chain afterwards, and the error.  A nil receiver
    is [None]. *)
Definition Chain_Append (c : option Chain) (record : ChainRecord) : option Chain * checked :=
  match c with
  | None => (None, Err (Fail "chain is nil"))
  | Some c =>
      let candidate := with_records c (ch_Records c ++ [record]) in
      match Chain_Validate candidate with
      | Err e => (Some c, Err e)
      | Ok _ => (Some (with_records c (ch_Records candidate)), Ok tt)
      end
  end.

Definition HeadRecordID (c : Chain) : result go_error (list Z) :=
  _ ← Chain_Validate c;
  match last (ch_Records c) with
  | None => GenesisRecordID (ch_CeremonyID c) (ch_PhaseID c) (ch_Genesis c)
  | Some record => Ok (cr_RecordID record)
  end.

Definition HeadPayload (c : Chain) : result go_error ArtifactRef :=
  _ ← Chain_Validate c;
  match last (ch_Records c) with
  | None => Ok (ch_Genesis c)
  | Some record => Ok (cr_OutputPayload record)
  end.

Definition ParticipantIDs (c : Chain) : result go_error (list (list Z)) :=
  _ ← Chain_Validate c;
  Ok (cr_ParticipantID <$> ch_Records c).

(** ** A chain of a ceremony *)

Definition record_in_definition (definition : CeremonyDefinition) (policy : PhasePolicy) (index : nat)
    (record : ChainRecord) : checked :=
  _ ← check (bool_decide (pp_Participants policy !! index ≠ Some (cr_ParticipantID record)))
        "record %d participant %q does not match frozen order";
  match ParticipantByID definition (cr_ParticipantID record) with
  | None => Err (Fail "record %d participant %q is not in roster")
  | Some participant =>
      _ ← check (bool_decide (cr_CoordinatorID record ≠ id_ID (cd_Coordinator definition)) ||
                 bool_decide (cr_CoordinatorKeyID record ≠ id_KeyID (cd_Coordinator definition)))
            "record %d coordinator identity mismatch";
      check (bool_decide (cr_AttestationID record = []) ||
             bool_decide (id_KeyID (pt_Identity participant) = []))
        "record %d participant metadata is incomplete"
  end.

Definition ValidateAgainstDefinition (c : Chain) (definition : CeremonyDefinition) : checked :=
  _ ← Chain_Validate c;
  _ ← CeremonyDefinition_Validate definition;
  _ ← check (bool_decide (ch_CeremonyID c ≠ cd_CeremonyID definition))
        "chain ceremony_id does not match definition";
  _ ← (if bool_decide (ch_Phase c = Phase1) then
         expectedPhaseID ← ComputePhaseID (cd_CeremonyID definition) Phase1
                             (cd_Phase1Genesis definition) [];
         check (bool_decide (ch_Genesis c ≠ cd_Phase1Genesis definition) ||
                bool_decide (ch_PhaseID c ≠ expectedPhaseID))
           "phase1 chain genesis or phase_id does not match definition"
       else Ok tt);
  policy ← PolicyForPhase definition (ch_Phase c);
  each_from 0 (ch_Records c) (record_in_definition definition policy).

(** ** The next contribution *)

(** The record and the attestation are both the next child of the head. *)
Definition is_next_child (expectedIndex : Z) (headPayload : ArtifactRef) (headRecordID : list Z)
    (attestation : ContributionAttestation) (record : ChainRecord) : bool :=
  (cr_Index record =? expectedIndex) && (ca_Index attestation =? expectedIndex) &&
  bool_decide (cr_PreviousPayload record = headPayload) &&
  bool_decide (ca_PreviousPayload attestation = headPayload) &&
  bool_decide (cr_PreviousRecordID record = headRecordID) &&
  bool_decide (ca_PreviousAcceptanceID attestation = headRecordID).

Definition acceptance_binds (attestation : ContributionAttestation) (erasure : ErasureAttestation)
    (record : ChainRecord) : bool :=
  (cr_Index record =? ca_Index attestation) &&
  bool_decide (cr_CeremonyID record = ca_CeremonyID attestation) &&
  bool_decide (cr_Phase record = ca_Phase attestation) &&
  bool_decide (cr_PhaseID record = ca_PhaseID attestation) &&
  bool_decide (cr_ParticipantID record = ca_ParticipantID attestation) &&
  bool_decide (cr_PreviousPayload record = ca_PreviousPayload attestation) &&
  bool_decide (cr_OutputPayload record = ca_OutputPayload attestation) &&
  bool_decide (cr_AttestationID record = ca_AttestationID attestation) &&
  bool_decide (cr_ErasureID record = er_ErasureID erasure) &&
  bool_decide (cr_PreviousRecordID record = ca_PreviousAcceptanceID attestation).

Definition software_binds (software : SoftwareBinding) (attestation : ContributionAttestation) : bool :=
  bool_decide (sw_ToolBinary software = ca_ToolBinary attestation) &&
  bool_decide (sw_SourceCommit software = ca_SourceCommit attestation) &&
  bool_decide (sw_GnarkVersion software = ca_GnarkVersion attestation) &&
  bool_decide (sw_GnarkCryptoVersion software = ca_GnarkCryptoVersion attestation) &&
  bool_decide (sw_DrandVersion software = ca_DrandVersion attestation).

(** [participant, ok := definition.ParticipantByID(id); !ok || participant.Identity.KeyID != key] *)
Definition is_participant (definition : CeremonyDefinition) (id key : list Z) : bool :=
  bool_decide ((λ p, id_KeyID (pt_Identity p)) <$> ParticipantByID definition id = Some key).

Definition ValidateAttestationAcceptance (definition : CeremonyDefinition) (chain : Chain)
    (attestation : ContributionAttestation) (erasure : ErasureAttestation) (record : ChainRecord) :
    checked :=
  _ ← CeremonyDefinition_Validate definition;
  _ ← ValidateAgainstDefinition chain definition;
  _ ← ContributionAttestation_Validate attestation;
  _ ← ValidateErasureForContribution attestation erasure;
  _ ← ChainRecord_Validate record;
  let expectedIndex := u8 (Z.of_nat (length (ch_Records chain)) + 1) in
  headPayload ← HeadPayload chain;
  headRecordID ← HeadRecordID chain;
  _ ← check (negb (is_next_child expectedIndex headPayload headRecordID attestation record))
        "attestation and acceptance are not the next child of the accepted chain head";
  _ ← check (negb (acceptance_binds attestation erasure record))
        "acceptance record does not exactly bind contribution attestation";
  _ ← check (negb (is_participant definition (ca_ParticipantID attestation) (ca_ParticipantKeyID attestation)))
        "attestation participant identity does not match definition";
  _ ← check (negb (software_binds (cd_Software definition) attestation))
        "attestation software binding does not match definition";
  let createdAt := time_of (cd_CreatedAt definition) in
  let contributedAt := time_of (ca_ContributedAt attestation) in
  let destroyedAt := time_of (er_DestroyedAt erasure) in
  let acceptedAt := time_of (cr_AcceptedAt record) in
  _ ← check (negb (time_After contributedAt createdAt))
        "contributed_at must be strictly after the ceremony definition";
  _ ← match last (ch_Records chain) with
      | Some previous =>
          check (negb (time_After contributedAt (time_of (cr_AcceptedAt previous))))
            "contributed_at must be strictly after the previous acceptance"
      | None => Ok tt
      end;
  check (negb (time_After acceptedAt destroyedAt)) "accepted_at must be strictly after destroyed_at".

End chains.
