(* ===== verification/MpcClose.v ===== *)
(** * Closing and sealing a phase: [internal/mpcceremony/chain.go], second half

    A phase closes on its accepted chain and commits to a future round of the drand
    beacon; the beacon record derives the challenge from the round's randomness; the
    seal binds the outputs to both. *)
From stdpp Require Import strings.
From S2P Require Import Prelude.
From S2P Require Import GoText.
From S2P Require Import GoError.
From S2P Require Import Sha256.
From S2P Require Import GoTime.
From S2P Require Import GoJson.
From S2P Require Import Ownership.
From S2P Require Import MpcModel.
From S2P Require Import MpcPreflight.
From S2P Require Import MpcDefinition.
From S2P Require Import MpcAttestation.
From S2P Require Import MpcChain.

Definition CloseRecordSchema : list Z := str "proof-tool-mpc-close-record-v1".
Definition BeaconRecordSchema : list Z := str "proof-tool-mpc-beacon-record-v1".
Definition SealRecordSchema : list Z := str "proof-tool-mpc-seal-record-v1".

(** ** Shared checks *)

Definition validateRecordScope (ceremonyID phase phaseID : list Z) : checked :=
  _ ← validateHashID "ceremony_id" ceremonyID;
  _ ← Phase_Validate phase;
  validateHashID "phase_id" phaseID.

(** [for _, value := range values] with the map [seen]. *)
Fixpoint unique_ids (label : string) (seen values : list (list Z)) : checked :=
  match values with
  | [] => Ok tt
  | value :: values =>
      _ ← validateID label value;
      _ ← check (bool_decide (value ∈ seen)) "%s %q is duplicated";
      unique_ids label (value :: seen) values
  end.

Definition validateUniqueIDs (label : string) (values : list (list Z)) (maximum : Z) : checked :=
  _ ← check ((length values =? 0)%nat || (maximum <? Z.of_nat (length values)))
        "%s list must contain between 1 and %d entries";
  unique_ids label [] values.

Fixpoint unique_artifacts (label : string) (names : list (list Z)) (artifacts : list ArtifactRef) : checked :=
  match artifacts with
  | [] => Ok tt
  | artifact :: artifacts =>
      _ ← within label (ArtifactRef_Validate artifact);
      _ ← check (bool_decide (ar_Name artifact ∈ names)) "%s artifact name %q is duplicated";
      unique_artifacts label (ar_Name artifact :: names) artifacts
  end.

Definition validateArtifactList (label : string) (artifacts : list ArtifactRef) (maximum : Z) : checked :=
  _ ← check ((length artifacts =? 0)%nat || (maximum <? Z.of_nat (length artifacts)))
        "%s must contain between 1 and %d artifacts";
  unique_artifacts label [] artifacts.

(** [for index := range value] visits the first byte of every rune (a byte that starts
    no valid rune is one of its own); the bytes not visited stay zero. *)
Fixpoint string_lower (fuel : nat) (value : list Z) : list Z :=
  match fuel, value with
  | S fuel, c :: _ =>
      let n := Nat.max 1 (rune_len value) in
      (if in_range 65 90 c then c + (97 - 65) else c) :: replicate (n - 1) 0 ++
      string_lower fuel (drop n value)
  | _, _ => []
  end.
Definition stringLower (value : list Z) : list Z := string_lower (length value) value.

(** ** The beacon *)

(** [offset*period] is a product of [uint64]s, the sum one of [int64]s. *)
Definition QuicknetRoundTime (round : Z) : result go_error Time :=
  _ ← check (round =? 0) "beacon round must be positive";
  let offset := u64 (round - 1) in
  let period := BeaconQuicknetPeriod in
  let maxOffset := (2 ^ 63 - 1 - BeaconQuicknetGenesis) / period in
  _ ← check (maxOffset <? offset) "beacon round time overflows int64 Unix seconds";
  let seconds := i64 (BeaconQuicknetGenesis + i64 (u64 (offset * period))) in
  Ok (time_Unix seconds).

(** The bytes [writeBeaconChallengeField] hashes: the length as a [uint32], the value. *)
Definition writeBeaconChallengeField (value : list Z) : list Z :=
  be_bytes 4 (Z.of_nat (length value) mod 2 ^ 32) ++ value.

(** What [DeriveBeaconChallenge] hashes, write by write. *)
Definition beacon_preimage (closeID provider network : list Z) (round : Z) (randomness : list Z) : list Z :=
  str "proof-tool/mpc-ceremony/beacon-challenge/v1" ++ [0] ++
  writeBeaconChallengeField closeID ++ writeBeaconChallengeField provider ++
  writeBeaconChallengeField network ++ be_bytes 8 round ++ writeBeaconChallengeField randomness.

Definition DeriveBeaconChallenge (closeID provider network : list Z) (round : Z) (randomness : list Z) :
    result go_error (list Z) :=
  _ ← validateHashID "close_id" closeID;
  _ ← check (differs provider BeaconProviderDrand) "beacon provider %q, want %q";
  _ ← check (differs network BeaconNetworkQuicknet) "beacon network %q, want %q";
  _ ← check (round =? 0) "beacon round must be positive";
  _ ← check (negb (length randomness =? 32)%nat)
        "beacon randomness must contain exactly %d bytes, got %d";
  Ok (sha256_Sum256 (beacon_preimage closeID provider network round randomness)).

Definition decodeBeaconRandomness (value : list Z) : result go_error (list Z) :=
  _ ← check (negb (length value =? 32 * 2)%nat) "randomness_hex must contain exactly %d bytes";
  _ ← check (differs value (stringLower value)) "randomness_hex must be lowercase hexadecimal";
  match hex_DecodeString value with
  | None => Err (Fail "randomness_hex must be lowercase hexadecimal")
  | Some randomness => Ok randomness
  end.

(** ** Close records *)

Record CloseRecord := {
  cl_Schema : list Z;
  cl_CloseID : list Z;
  cl_CeremonyID : list Z;
  cl_Phase : list Z;
  cl_PhaseID : list Z;
  cl_FinalIndex : Z;
  cl_FinalPayload : ArtifactRef;
  cl_ChainHeadID : list Z;
  cl_AcceptedParticipants : list (list Z);
  cl_BeaconProvider : list Z;
  cl_BeaconNetwork : list Z;
  cl_BeaconRound : Z;
  cl_BeaconNotBefore : list Z;
  cl_ClosedAt : list Z;
  cl_CoordinatorID : list Z;
  cl_CoordinatorKeyID : list Z }.
#[export] Instance CloseRecord_eq_dec : EqDecision CloseRecord.
Proof. solve_decision. Defined.

Definition CloseRecord_json (r : CloseRecord) : json := JObj
  [ (str "schema", JStr (cl_Schema r));
    (str "close_id", JStr (cl_CloseID r));
    (str "ceremony_id", JStr (cl_CeremonyID r));
    (str "phase", JStr (cl_Phase r));
    (str "phase_id", JStr (cl_PhaseID r));
    (str "final_index", JNum (cl_FinalIndex r));
    (str "final_payload", ArtifactRef_json (cl_FinalPayload r));
    (str "chain_head_id", JStr (cl_ChainHeadID r));
    (str "accepted_participants", JArr (JStr <$> cl_AcceptedParticipants r));
    (str "beacon_provider", JStr (cl_BeaconProvider r));
    (str "beacon_network", JStr (cl_BeaconNetwork r));
    (str "beacon_round", JNum (cl_BeaconRound r));
    (str "beacon_not_before", JStr (cl_BeaconNotBefore r));
    (str "closed_at", JStr (cl_ClosedAt r));
    (str "coordinator_id", JStr (cl_CoordinatorID r));
    (str "coordinator_key_id", JStr (cl_CoordinatorKeyID r)) ].

Definition CloseRecord_set_Schema (v : list Z) (r : CloseRecord) : CloseRecord :=
  {| cl_Schema := v; cl_CloseID := cl_CloseID r; cl_CeremonyID := cl_CeremonyID r; cl_Phase
     := cl_Phase r; cl_PhaseID := cl_PhaseID r; cl_FinalIndex := cl_FinalIndex r;
     cl_FinalPayload := cl_FinalPayload r; cl_ChainHeadID := cl_ChainHeadID r;
     cl_AcceptedParticipants := cl_AcceptedParticipants r; cl_BeaconProvider :=
     cl_BeaconProvider r; cl_BeaconNetwork := cl_BeaconNetwork r; cl_BeaconRound :=
     cl_BeaconRound r; cl_BeaconNotBefore := cl_BeaconNotBefore r; cl_ClosedAt :=
     cl_ClosedAt r; cl_CoordinatorID := cl_CoordinatorID r; cl_CoordinatorKeyID :=
     cl_CoordinatorKeyID r |}.

Definition CloseRecord_set_CloseID (v : list Z) (r : CloseRecord) : CloseRecord :=
  {| cl_Schema := cl_Schema r; cl_CloseID := v; cl_CeremonyID := cl_CeremonyID r; cl_Phase
     := cl_Phase r; cl_PhaseID := cl_PhaseID r; cl_FinalIndex := cl_FinalIndex r;
     cl_FinalPayload := cl_FinalPayload r; cl_ChainHeadID := cl_ChainHeadID r;
     cl_AcceptedParticipants := cl_AcceptedParticipants r; cl_BeaconProvider :=
     cl_BeaconProvider r; cl_BeaconNetwork := cl_BeaconNetwork r; cl_BeaconRound :=
     cl_BeaconRound r; cl_BeaconNotBefore := cl_BeaconNotBefore r; cl_ClosedAt :=
     cl_ClosedAt r; cl_CoordinatorID := cl_CoordinatorID r; cl_CoordinatorKeyID :=
     cl_CoordinatorKeyID r |}.

Definition CloseRecord_validate (requireID : bool) (r : CloseRecord) : checked :=
  _ ← check_schema_and_id (cl_Schema r) CloseRecordSchema requireID "close_id" (cl_CloseID r);
  _ ← validateRecordScope (cl_CeremonyID r) (cl_Phase r) (cl_PhaseID r);
  _ ← check (bad_index (cl_FinalIndex r) ||
             negb (cl_FinalIndex r =? Z.of_nat (length (cl_AcceptedParticipants r))))
        "final_index must equal the non-empty accepted participant count";
  _ ← within "final_payload" (ArtifactRef_Validate (cl_FinalPayload r));
  _ ← validateHashID "chain_head_id" (cl_ChainHeadID r);
  _ ← validateUniqueIDs "accepted participant" (cl_AcceptedParticipants r) MaxParticipants;
  _ ← validateID "beacon_provider" (cl_BeaconProvider r);
  _ ← validateID "beacon_network" (cl_BeaconNetwork r);
  _ ← check (cl_BeaconRound r =? 0) "beacon_round must be positive";
  _ ← validateTimestamp "beacon_not_before" (cl_BeaconNotBefore r);
  _ ← validateTimestamp "closed_at" (cl_ClosedAt r);
  let notBefore := time_of (cl_BeaconNotBefore r) in
  let closed := time_of (cl_ClosedAt r) in
  _ ← check (negb (time_After notBefore closed)) "beacon_not_before must be after closed_at";
  roundTime ← QuicknetRoundTime (cl_BeaconRound r);
  _ ← check (negb (time_Equal notBefore roundTime))
        "beacon_not_before %s does not equal pinned beacon round %d schedule %s";
  _ ← validateID "coordinator_id" (cl_CoordinatorID r);
  validateID "coordinator_key_id" (cl_CoordinatorKeyID r).

#[export] Instance CloseRecord_content : ContentRecord CloseRecord := {
  rec_json := CloseRecord_json;
  rec_schema := CloseRecordSchema;
  rec_domain := str "proof-tool/mpc-ceremony/close-record/v1";
  rec_id := cl_CloseID;
  rec_set_id := CloseRecord_set_CloseID;
  rec_set_schema := CloseRecord_set_Schema;
  rec_validate := CloseRecord_validate;
}.

Definition ComputeCloseRecordID (r : CloseRecord) : result go_error (list Z) := compute_id r.
Definition CloseRecord_Validate (r : CloseRecord) : checked := validate_record r.
Definition NewCloseRecord (r : CloseRecord) : result go_error CloseRecord := new_record r.

(** [x, _ := f()]: the zero value where [f] fails. *)
Definition or_zero {A} (zero : A) (r : result go_error A) : A :=
  match r with Ok x => x | Err _ => zero end.
Definition zero_ArtifactRef : ArtifactRef :=
  {| ar_Name := []; ar_Digest := {| dg_SHA256 := []; dg_Blake2b256 := []; dg_Size := 0 |} |}.
Definition zero_PhasePolicy : PhasePolicy := {| pp_Participants := []; pp_Minimum := 0 |}.

(** The comparisons of a close record with the chain it closes. *)
Definition close_binds (chain : Chain) (payload : ArtifactRef) (head : list Z)
    (participants : list (list Z)) (close : CloseRecord) : bool :=
  bool_decide (cl_CeremonyID close = ch_CeremonyID chain) &&
  bool_decide (cl_Phase close = ch_Phase chain) &&
  bool_decide (cl_PhaseID close = ch_PhaseID chain) &&
  (cl_FinalIndex close =? Z.of_nat (length (ch_Records chain))) &&
  bool_decide (cl_FinalPayload close = payload) &&
  bool_decide (cl_ChainHeadID close = head) &&
  bool_decide (cl_AcceptedParticipants close = participants).

Definition close_participation (definition : CeremonyDefinition) (policy : PhasePolicy) (chain : Chain) :
    checked :=
  let accepted := Z.of_nat (length (ch_Records chain)) in
  _ ← check (bool_decide (cd_Mode definition = ModeProduction) &&
             negb (accepted =? Z.of_nat (length (pp_Participants policy))))
        "production phase has %d accepted contributions, but all %d scheduled participants are required";
  check (bool_decide (cd_Mode definition = ModeRehearsal) && (accepted <? pp_Minimum policy))
    "phase has %d accepted contributions, minimum is %d".

(** The times of a close record: after the definition and the last acceptance, before
    the round it commits to by at least the signed lead. *)
Definition close_times (definition : CeremonyDefinition) (chain : Chain) (close : CloseRecord) : checked :=
  let createdAt := time_of (cd_CreatedAt definition) in
  let closedAt := time_of (cl_ClosedAt close) in
  let notBefore := time_of (cl_BeaconNotBefore close) in
  _ ← check (negb (time_After closedAt createdAt))
        "close record must be created after the ceremony definition";
  _ ← match last (ch_Records chain) with
      | Some final =>
          check (negb (time_After closedAt (time_of (cr_AcceptedAt final))))
            "close record must be created strictly after the final acceptance"
      | None => Ok tt
      end;
  roundTime ← QuicknetRoundTime (cl_BeaconRound close);
  _ ← check (negb (time_Equal roundTime notBefore))
        "beacon_not_before %s does not equal pinned beacon round %d schedule %s";
  _ ← check (negb (time_After roundTime closedAt))
        "beacon round was not in the future when the phase closed";
  let minimumLead := i64 (bp_MinimumWitnessLeadSeconds (cd_BeaconPolicy definition) * 10 ^ 9) in
  check (time_Sub roundTime closedAt <? minimumLead) "beacon round lead %s is below signed minimum %s".

Definition ValidateClose `{MapOrder} (definition : CeremonyDefinition) (chain : Chain)
    (close : CloseRecord) : checked :=
  _ ← CeremonyDefinition_Validate definition;
  _ ← ValidateAgainstDefinition chain definition;
  _ ← CloseRecord_Validate close;
  let head := or_zero [] (HeadRecordID chain) in
  let payload := or_zero zero_ArtifactRef (HeadPayload chain) in
  let participants := or_zero [] (ParticipantIDs chain) in
  let policy := or_zero zero_PhasePolicy (PolicyForPhase definition (ch_Phase chain)) in
  _ ← close_participation definition policy chain;
  _ ← check (negb (close_binds chain payload head participants close))
        "close record does not exactly bind accepted chain";
  _ ← check (differs (cl_BeaconProvider close) (bp_Provider (cd_BeaconPolicy definition)) ||
             differs (cl_BeaconNetwork close) (bp_Network (cd_BeaconPolicy definition)))
        "close record beacon does not match definition policy";
  _ ← check (differs (cl_CoordinatorID close) (id_ID (cd_Coordinator definition)) ||
             differs (cl_CoordinatorKeyID close) (id_KeyID (cd_Coordinator definition)))
        "close record coordinator does not match definition";
  close_times definition chain close.

(** ** Beacon records *)

Record BeaconRecord := {
  bc_Schema : list Z;
  bc_BeaconID : list Z;
  bc_CeremonyID : list Z;
  bc_Phase : list Z;
  bc_PhaseID : list Z;
  bc_CloseID : list Z;
  bc_Provider : list Z;
  bc_Network : list Z;
  bc_Round : Z;
  bc_PublishedAt : list Z;
  bc_RawResponse : ArtifactRef;
  bc_RandomnessHex : list Z;
  bc_ChallengeHex : list Z;
  bc_ChallengeSHA256 : list Z }.
#[export] Instance BeaconRecord_eq_dec : EqDecision BeaconRecord.
Proof. solve_decision. Defined.

Definition BeaconRecord_json (r : BeaconRecord) : json := JObj
  [ (str "schema", JStr (bc_Schema r));
    (str "beacon_id", JStr (bc_BeaconID r));
    (str "ceremony_id", JStr (bc_CeremonyID r));
    (str "phase", JStr (bc_Phase r));
    (str "phase_id", JStr (bc_PhaseID r));
    (str "close_id", JStr (bc_CloseID r));
    (str "provider", JStr (bc_Provider r));
    (str "network", JStr (bc_Network r));
    (str "round", JNum (bc_Round r));
    (str "published_at", JStr (bc_PublishedAt r));
    (str "raw_response", ArtifactRef_json (bc_RawResponse r));
    (str "randomness_hex", JStr (bc_RandomnessHex r));
    (str "challenge_hex", JStr (bc_ChallengeHex r));
    (str "challenge_sha256", JStr (bc_ChallengeSHA256 r)) ].

Definition BeaconRecord_set_Schema (v : list Z) (r : BeaconRecord) : BeaconRecord :=
  {| bc_Schema := v; bc_BeaconID := bc_BeaconID r; bc_CeremonyID := bc_CeremonyID r;
     bc_Phase := bc_Phase r; bc_PhaseID := bc_PhaseID r; bc_CloseID := bc_CloseID r;
     bc_Provider := bc_Provider r; bc_Network := bc_Network r; bc_Round := bc_Round r;
     bc_PublishedAt := bc_PublishedAt r; bc_RawResponse := bc_RawResponse r;
     bc_RandomnessHex := bc_RandomnessHex r; bc_ChallengeHex := bc_ChallengeHex r;
     bc_ChallengeSHA256 := bc_ChallengeSHA256 r |}.

Definition BeaconRecord_set_BeaconID (v : list Z) (r : BeaconRecord) : BeaconRecord :=
  {| bc_Schema := bc_Schema r; bc_BeaconID := v; bc_CeremonyID := bc_CeremonyID r; bc_Phase
     := bc_Phase r; bc_PhaseID := bc_PhaseID r; bc_CloseID := bc_CloseID r; bc_Provider :=
     bc_Provider r; bc_Network := bc_Network r; bc_Round := bc_Round r; bc_PublishedAt :=
     bc_PublishedAt r; bc_RawResponse := bc_RawResponse r; bc_RandomnessHex :=
     bc_RandomnessHex r; bc_ChallengeHex := bc_ChallengeHex r; bc_ChallengeSHA256 :=
     bc_ChallengeSHA256 r |}.

Definition BeaconRecord_set_ChallengeHex (v : list Z) (r : BeaconRecord) : BeaconRecord :=
  {| bc_Schema := bc_Schema r; bc_BeaconID := bc_BeaconID r; bc_CeremonyID := bc_CeremonyID
     r; bc_Phase := bc_Phase r; bc_PhaseID := bc_PhaseID r; bc_CloseID := bc_CloseID r;
     bc_Provider := bc_Provider r; bc_Network := bc_Network r; bc_Round := bc_Round r;
     bc_PublishedAt := bc_PublishedAt r; bc_RawResponse := bc_RawResponse r;
     bc_RandomnessHex := bc_RandomnessHex r; bc_ChallengeHex := v; bc_ChallengeSHA256 :=
     bc_ChallengeSHA256 r |}.

Definition BeaconRecord_set_ChallengeSHA256 (v : list Z) (r : BeaconRecord) : BeaconRecord :=
  {| bc_Schema := bc_Schema r; bc_BeaconID := bc_BeaconID r; bc_CeremonyID := bc_CeremonyID
     r; bc_Phase := bc_Phase r; bc_PhaseID := bc_PhaseID r; bc_CloseID := bc_CloseID r;
     bc_Provider := bc_Provider r; bc_Network := bc_Network r; bc_Round := bc_Round r;
     bc_PublishedAt := bc_PublishedAt r; bc_RawResponse := bc_RawResponse r;
     bc_RandomnessHex := bc_RandomnessHex r; bc_ChallengeHex := bc_ChallengeHex r;
     bc_ChallengeSHA256 := v |}.

(** [ChallengeHex] and [ChallengeSHA256] are those of [challenge]. *)
Definition challenge_matches (r : BeaconRecord) (challenge : list Z) : bool :=
  bool_decide (bc_ChallengeHex r = hex_EncodeToString challenge) &&
  bool_decide (bc_ChallengeSHA256 r = taggedSHA256 challenge).

Definition BeaconRecord_validate (requireID : bool) (r : BeaconRecord) : checked :=
  _ ← check_schema_and_id (bc_Schema r) BeaconRecordSchema requireID "beacon_id" (bc_BeaconID r);
  _ ← validateRecordScope (bc_CeremonyID r) (bc_Phase r) (bc_PhaseID r);
  _ ← validateHashID "close_id" (bc_CloseID r);
  _ ← validateID "provider" (bc_Provider r);
  _ ← validateID "network" (bc_Network r);
  _ ← check (bc_Round r =? 0) "beacon round must be positive";
  _ ← validateTimestamp "published_at" (bc_PublishedAt r);
  _ ← within "raw_response" (ArtifactRef_Validate (bc_RawResponse r));
  randomness ← decodeBeaconRandomness (bc_RandomnessHex r);
  challenge ← DeriveBeaconChallenge (bc_CloseID r) (bc_Provider r) (bc_Network r) (bc_Round r) randomness;
  check (negb (challenge_matches r challenge)) "beacon challenge does not match deterministic derivation".

#[export] Instance BeaconRecord_content : ContentRecord BeaconRecord := {
  rec_json := BeaconRecord_json;
  rec_schema := BeaconRecordSchema;
  rec_domain := str "proof-tool/mpc-ceremony/beacon-record/v1";
  rec_id := bc_BeaconID;
  rec_set_id := BeaconRecord_set_BeaconID;
  rec_set_schema := BeaconRecord_set_Schema;
  rec_validate := BeaconRecord_validate;
}.

Definition ComputeBeaconRecordID (r : BeaconRecord) : result go_error (list Z) := compute_id r.
Definition BeaconRecord_Validate (r : BeaconRecord) : checked := validate_record r.

(** The challenge is derived; one supplied by the caller must agree. *)
Definition NewBeaconRecord (record : BeaconRecord) : result go_error BeaconRecord :=
  let record := BeaconRecord_set_BeaconID [] (BeaconRecord_set_Schema BeaconRecordSchema record) in
  randomness ← decodeBeaconRandomness (bc_RandomnessHex record);
  challenge ← DeriveBeaconChallenge (bc_CloseID record) (bc_Provider record) (bc_Network record)
                (bc_Round record) randomness;
  let challengeHex := hex_EncodeToString challenge in
  let challengeSHA256 := taggedSHA256 challenge in
  _ ← check (differs (bc_ChallengeHex record) [] && differs (bc_ChallengeHex record) challengeHex)
        "caller-supplied challenge_hex does not match deterministic beacon challenge";
  _ ← check (differs (bc_ChallengeSHA256 record) [] && differs (bc_ChallengeSHA256 record) challengeSHA256)
        "caller-supplied challenge_sha256 does not match deterministic beacon challenge";
  let record := BeaconRecord_set_ChallengeSHA256 challengeSHA256
                  (BeaconRecord_set_ChallengeHex challengeHex record) in
  id ← ComputeBeaconRecordID record;
  let record := BeaconRecord_set_BeaconID id record in
  _ ← BeaconRecord_Validate record;
  Ok record.

Definition beacon_binds (close : CloseRecord) (beacon : BeaconRecord) : bool :=
  bool_decide (bc_CeremonyID beacon = cl_CeremonyID close) &&
  bool_decide (bc_Phase beacon = cl_Phase close) &&
  bool_decide (bc_PhaseID beacon = cl_PhaseID close) &&
  bool_decide (bc_CloseID beacon = cl_CloseID close) &&
  bool_decide (bc_Provider beacon = cl_BeaconProvider close) &&
  bool_decide (bc_Network beacon = cl_BeaconNetwork close) &&
  (bc_Round beacon =? cl_BeaconRound close).

Definition ValidateBeacon (definition : CeremonyDefinition) (close : CloseRecord)
    (beacon : BeaconRecord) : checked :=
  _ ← CeremonyDefinition_Validate definition;
  _ ← CloseRecord_Validate close;
  _ ← BeaconRecord_Validate beacon;
  _ ← check (differs (cl_CeremonyID close) (cd_CeremonyID definition) ||
             differs (cl_BeaconProvider close) (bp_Provider (cd_BeaconPolicy definition)) ||
             differs (cl_BeaconNetwork close) (bp_Network (cd_BeaconPolicy definition)))
        "close record does not match ceremony definition or beacon policy";
  _ ← check (negb (beacon_binds close beacon)) "beacon record does not exactly bind close record";
  randomness ← decodeBeaconRandomness (bc_RandomnessHex beacon);
  challenge ← DeriveBeaconChallenge (cl_CloseID close) (cl_BeaconProvider close)
                (cl_BeaconNetwork close) (cl_BeaconRound close) randomness;
  _ ← check (negb (challenge_matches beacon challenge))
        "beacon challenge does not match the bound close record";
  let published := time_of (bc_PublishedAt beacon) in
  let notBefore := time_of (cl_BeaconNotBefore close) in
  _ ← check (time_Before published notBefore)
        "beacon was published before the committed future time";
  roundTime ← QuicknetRoundTime (cl_BeaconRound close);
  _ ← check (time_Before published roundTime)
        "beacon published_at predates the pinned quicknet round schedule";
  check (Z.of_nat (length challenge) <? bp_MinimumChallengeBytes (cd_BeaconPolicy definition))
    "beacon challenge is shorter than definition policy".

(** ** Seal records *)

Record SealRecord := {
  sl_Schema : list Z;
  sl_SealID : list Z;
  sl_CeremonyID : list Z;
  sl_Phase : list Z;
  sl_PhaseID : list Z;
  sl_CloseID : list Z;
  sl_BeaconID : list Z;
  sl_FinalPayload : ArtifactRef;
  sl_Outputs : list ArtifactRef;
  sl_SealedAt : list Z }.
#[export] Instance SealRecord_eq_dec : EqDecision SealRecord.
Proof. solve_decision. Defined.

Definition SealRecord_json (r : SealRecord) : json := JObj
  [ (str "schema", JStr (sl_Schema r));
    (str "seal_id", JStr (sl_SealID r));
    (str "ceremony_id", JStr (sl_CeremonyID r));
    (str "phase", JStr (sl_Phase r));
    (str "phase_id", JStr (sl_PhaseID r));
    (str "close_id", JStr (sl_CloseID r));
    (str "beacon_id", JStr (sl_BeaconID r));
    (str "final_payload", ArtifactRef_json (sl_FinalPayload r));
    (str "outputs", JArr (ArtifactRef_json <$> sl_Outputs r));
    (str "sealed_at", JStr (sl_SealedAt r)) ].

Definition SealRecord_set_Schema (v : list Z) (r : SealRecord) : SealRecord :=
  {| sl_Schema := v; sl_SealID := sl_SealID r; sl_CeremonyID := sl_CeremonyID r; sl_Phase :=
     sl_Phase r; sl_PhaseID := sl_PhaseID r; sl_CloseID := sl_CloseID r; sl_BeaconID :=
     sl_BeaconID r; sl_FinalPayload := sl_FinalPayload r; sl_Outputs := sl_Outputs r;
     sl_SealedAt := sl_SealedAt r |}.

Definition SealRecord_set_SealID (v : list Z) (r : SealRecord) : SealRecord :=
  {| sl_Schema := sl_Schema r; sl_SealID := v; sl_CeremonyID := sl_CeremonyID r; sl_Phase :=
     sl_Phase r; sl_PhaseID := sl_PhaseID r; sl_CloseID := sl_CloseID r; sl_BeaconID :=
     sl_BeaconID r; sl_FinalPayload := sl_FinalPayload r; sl_Outputs := sl_Outputs r;
     sl_SealedAt := sl_SealedAt r |}.

Definition SealRecord_validate (requireID : bool) (r : SealRecord) : checked :=
  _ ← check_schema_and_id (sl_Schema r) SealRecordSchema requireID "seal_id" (sl_SealID r);
  _ ← validateRecordScope (sl_CeremonyID r) (sl_Phase r) (sl_PhaseID r);
  _ ← validateHashID "close_id" (sl_CloseID r);
  _ ← validateHashID "beacon_id" (sl_BeaconID r);
  _ ← within "final_payload" (ArtifactRef_Validate (sl_FinalPayload r));
  _ ← validateArtifactList "seal outputs" (sl_Outputs r) 8;
  validateTimestamp "sealed_at" (sl_SealedAt r).

#[export] Instance SealRecord_content : ContentRecord SealRecord := {
  rec_json := SealRecord_json;
  rec_schema := SealRecordSchema;
  rec_domain := str "proof-tool/mpc-ceremony/seal-record/v1";
  rec_id := sl_SealID;
  rec_set_id := SealRecord_set_SealID;
  rec_set_schema := SealRecord_set_Schema;
  rec_validate := SealRecord_validate;
}.

Definition ComputeSealRecordID (r : SealRecord) : result go_error (list Z) := compute_id r.
Definition SealRecord_Validate (r : SealRecord) : checked := validate_record r.
Definition NewSealRecord (r : SealRecord) : result go_error SealRecord := new_record r.

Definition seal_binds (close : CloseRecord) (beacon : BeaconRecord) (seal : SealRecord) : bool :=
  bool_decide (sl_CeremonyID seal = cl_CeremonyID close) &&
  bool_decide (sl_Phase seal = cl_Phase close) &&
  bool_decide (sl_PhaseID seal = cl_PhaseID close) &&
  bool_decide (sl_CloseID seal = cl_CloseID close) &&
  bool_decide (sl_BeaconID seal = bc_BeaconID beacon) &&
  bool_decide (sl_FinalPayload seal = cl_FinalPayload close).

Definition ValidateSeal (close : CloseRecord) (beacon : BeaconRecord) (seal : SealRecord) : checked :=
  _ ← CloseRecord_Validate close;
  _ ← BeaconRecord_Validate beacon;
  _ ← SealRecord_Validate seal;
  _ ← check (negb (seal_binds close beacon seal))
        "seal record does not exactly bind close and beacon records";
  check (time_Before (time_of (sl_SealedAt seal)) (time_of (bc_PublishedAt beacon)))
    "seal predates beacon publication".
