(* ===== verification/MpcTranscript.v ===== *)
(** * Audits and the final transcript: [internal/mpcceremony/chain.go]

    What an auditor reports on a replay of the ceremony, the summary of a phase, and the
    transcript that binds the whole; [SignedArtifactRefs] of [operational_bundle.go] and
    the [CandidateMetadata] of [finalize.go] that the auditors reproduce. *)
From stdpp Require Import strings.
From S2P Require Import Prelude.
From S2P Require Import GoText.
From S2P Require Import GoError.
From S2P Require Import Sha256.
From S2P Require Import GoTime.
From S2P Require Import GoJson.
From S2P Require Import Ownership.
From S2P Require Import MpcModel.
From S2P Require Import MpcPreflight.
From S2P Require Import MpcDefinition.
From S2P Require Import MpcAttestation.
From S2P Require Import MpcChain.
From S2P Require Import MpcClose.

Definition AuditRecordSchema : list Z := str "proof-tool-mpc-audit-record-v1".
Definition FinalTranscriptSchema : list Z := str "proof-tool-mpc-final-transcript-v1".

(** ** Audits *)

Record AuditRecord := {
  au_Schema : list Z;
  au_AuditID : list Z;
  au_CeremonyID : list Z;
  au_AuditorID : list Z;
  au_AuditorKeyID : list Z;
  au_Definition : ArtifactRef;
  au_Phase1Chain : ArtifactRef;
  au_Phase2Chain : ArtifactRef;
  au_Phase1SealID : list Z;
  au_Phase2SealID : list Z;
  au_ReplayRootSHA256 : list Z;
  au_Outputs : list ArtifactRef;
  au_Passed : bool;
  au_Findings : option (list (list Z));
  au_AuditedAt : list Z }.
#[export] Instance AuditRecord_eq_dec : EqDecision AuditRecord.
Proof. solve_decision. Defined.

Definition AuditRecord_json (r : AuditRecord) : json := JObj
  [ (str "schema", JStr (au_Schema r));
    (str "audit_id", JStr (au_AuditID r));
    (str "ceremony_id", JStr (au_CeremonyID r));
    (str "auditor_id", JStr (au_AuditorID r));
    (str "auditor_key_id", JStr (au_AuditorKeyID r));
    (str "definition", ArtifactRef_json (au_Definition r));
    (str "phase1_chain", ArtifactRef_json (au_Phase1Chain r));
    (str "phase2_chain", ArtifactRef_json (au_Phase2Chain r));
    (str "phase1_seal_id", JStr (au_Phase1SealID r));
    (str "phase2_seal_id", JStr (au_Phase2SealID r));
    (str "replay_root_sha256", JStr (au_ReplayRootSHA256 r));
    (str "outputs", JArr (ArtifactRef_json <$> au_Outputs r));
    (str "passed", JBool (au_Passed r));
    (str "findings", JSlice JStr (au_Findings r));
    (str "audited_at", JStr (au_AuditedAt r)) ].

Definition AuditRecord_set_Schema (v : list Z) (r : AuditRecord) : AuditRecord :=
  {| au_Schema := v; au_AuditID := au_AuditID r; au_CeremonyID := au_CeremonyID r;
     au_AuditorID := au_AuditorID r; au_AuditorKeyID := au_AuditorKeyID r; au_Definition :=
     au_Definition r; au_Phase1Chain := au_Phase1Chain r; au_Phase2Chain := au_Phase2Chain
     r; au_Phase1SealID := au_Phase1SealID r; au_Phase2SealID := au_Phase2SealID r;
     au_ReplayRootSHA256 := au_ReplayRootSHA256 r; au_Outputs := au_Outputs r; au_Passed :=
     au_Passed r; au_Findings := au_Findings r; au_AuditedAt := au_AuditedAt r |}.

Definition AuditRecord_set_AuditID (v : list Z) (r : AuditRecord) : AuditRecord :=
  {| au_Schema := au_Schema r; au_AuditID := v; au_CeremonyID := au_CeremonyID r;
     au_AuditorID := au_AuditorID r; au_AuditorKeyID := au_AuditorKeyID r; au_Definition :=
     au_Definition r; au_Phase1Chain := au_Phase1Chain r; au_Phase2Chain := au_Phase2Chain
     r; au_Phase1SealID := au_Phase1SealID r; au_Phase2SealID := au_Phase2SealID r;
     au_ReplayRootSHA256 := au_ReplayRootSHA256 r; au_Outputs := au_Outputs r; au_Passed :=
     au_Passed r; au_Findings := au_Findings r; au_AuditedAt := au_AuditedAt r |}.

Definition AuditRecord_validate `{MapOrder} (requireID : bool) (r : AuditRecord) : checked :=
  _ ← check_schema_and_id (au_Schema r) AuditRecordSchema requireID "audit_id" (au_AuditID r);
  _ ← validateHashID "ceremony_id" (au_CeremonyID r);
  _ ← validateID "auditor_id" (au_AuditorID r);
  _ ← validateID "auditor_key_id" (au_AuditorKeyID r);
  _ ← validate_labelled [ ("definition"%string, au_Definition r);
        ("phase1_chain"%string, au_Phase1Chain r); ("phase2_chain"%string, au_Phase2Chain r) ];
  _ ← validateHashID "phase1_seal_id" (au_Phase1SealID r);
  _ ← validateHashID "phase2_seal_id" (au_Phase2SealID r);
  _ ← validateHashID "replay_root_sha256" (au_ReplayRootSHA256 r);
  _ ← validateArtifactList "audit outputs" (au_Outputs r) 16;
  let findings := slice_len (au_Findings r) in
  _ ← check (au_Passed r && negb (findings =? 0)%nat) "passing audit must not contain findings";
  _ ← check (negb (au_Passed r) && (findings =? 0)%nat)
        "failed audit must contain at least one finding";
  _ ← each (default [] (au_Findings r)) (λ finding,
        check (bool_decide (finding = [])) "audit findings must not be empty");
  validateTimestamp "audited_at" (au_AuditedAt r).

#[export] Instance AuditRecord_content `{MapOrder} : ContentRecord AuditRecord := {
  rec_json := AuditRecord_json;
  rec_schema := AuditRecordSchema;
  rec_domain := str "proof-tool/mpc-ceremony/audit-record/v1";
  rec_id := au_AuditID;
  rec_set_id := AuditRecord_set_AuditID;
  rec_set_schema := AuditRecord_set_Schema;
  rec_validate := AuditRecord_validate;
}.

Definition ComputeAuditRecordID `{MapOrder} (r : AuditRecord) : result go_error (list Z) := compute_id r.
Definition AuditRecord_Validate `{MapOrder} (r : AuditRecord) : checked := validate_record r.
Definition NewAuditRecord `{MapOrder} (r : AuditRecord) : result go_error AuditRecord := new_record r.

(** ** Summaries *)

Record SignedArtifactRefs := {
  sa_Record : ArtifactRef;
  sa_Signature : ArtifactRef }.
#[export] Instance SignedArtifactRefs_eq_dec : EqDecision SignedArtifactRefs.
Proof. solve_decision. Defined.

Definition SignedArtifactRefs_json (r : SignedArtifactRefs) : json := JObj
  [ (str "record", ArtifactRef_json (sa_Record r));
    (str "signature", ArtifactRef_json (sa_Signature r)) ].

Definition SignedArtifactRefs_Validate (r : SignedArtifactRefs) : checked :=
  _ ← within "record" (ArtifactRef_Validate (sa_Record r));
  _ ← within "signature" (ArtifactRef_Validate (sa_Signature r));
  check (bool_decide (ar_Name (sa_Record r) = ar_Name (sa_Signature r)))
    "signed artifact record and signature names must be distinct".

Record PhaseSummary := {
  ps_Phase : list Z;
  ps_PhaseID : list Z;
  ps_Genesis : ArtifactRef;
  ps_Chain : ArtifactRef;
  ps_ChainHeadID : list Z;
  ps_ContributionCount : Z;
  ps_Participants : list (list Z);
  ps_CloseID : list Z;
  ps_BeaconID : list Z;
  ps_SealID : list Z;
  ps_Outputs : list ArtifactRef }.
#[export] Instance PhaseSummary_eq_dec : EqDecision PhaseSummary.
Proof. solve_decision. Defined.

Definition PhaseSummary_json (r : PhaseSummary) : json := JObj
  [ (str "phase", JStr (ps_Phase r));
    (str "phase_id", JStr (ps_PhaseID r));
    (str "genesis", ArtifactRef_json (ps_Genesis r));
    (str "chain", ArtifactRef_json (ps_Chain r));
    (str "chain_head_id", JStr (ps_ChainHeadID r));
    (str "contribution_count", JNum (ps_ContributionCount r));
    (str "participants", JArr (JStr <$> ps_Participants r));
    (str "close_id", JStr (ps_CloseID r));
    (str "beacon_id", JStr (ps_BeaconID r));
    (str "seal_id", JStr (ps_SealID r));
    (str "outputs", JArr (ArtifactRef_json <$> ps_Outputs r)) ].

Definition PhaseSummary_Validate `{MapOrder} (s : PhaseSummary) : checked :=
  _ ← Phase_Validate (ps_Phase s);
  _ ← validateHashID "phase_id" (ps_PhaseID s);
  _ ← within "genesis" (ArtifactRef_Validate (ps_Genesis s));
  _ ← within "chain" (ArtifactRef_Validate (ps_Chain s));
  _ ← validateHashID "chain_head_id" (ps_ChainHeadID s);
  _ ← check ((ps_ContributionCount s =? 0) ||
             negb (ps_ContributionCount s =? Z.of_nat (length (ps_Participants s))))
        "contribution_count must equal non-empty participants";
  _ ← validateUniqueIDs "participant" (ps_Participants s) MaxParticipants;
  _ ← each (map_order [ ("close_id"%string, ps_CloseID s); ("beacon_id"%string, ps_BeaconID s);
                        ("seal_id"%string, ps_SealID s) ])
        (λ '(label, id), validateHashID label id);
  validateArtifactList "phase outputs" (ps_Outputs s) 8.

(** ** The transcript *)

Record FinalTranscript := {
  ft_Schema : list Z;
  ft_TranscriptID : list Z;
  ft_CeremonyID : list Z;
  ft_Definition : ArtifactRef;
  ft_Circuit : CircuitBinding;
  ft_Phase1 : PhaseSummary;
  ft_Phase2 : PhaseSummary;
  ft_Audits : list ArtifactRef;
  ft_OperationalEvidence : SignedArtifactRefs;
  ft_ProvingKey : ArtifactRef;
  ft_VerifyingKey : ArtifactRef;
  ft_CardanoVerifyingKey : ArtifactRef;
  ft_FinalizedAt : list Z }.
#[export] Instance FinalTranscript_eq_dec : EqDecision FinalTranscript.
Proof. solve_decision. Defined.

Definition FinalTranscript_json (r : FinalTranscript) : json := JObj
  [ (str "schema", JStr (ft_Schema r));
    (str "transcript_id", JStr (ft_TranscriptID r));
    (str "ceremony_id", JStr (ft_CeremonyID r));
    (str "definition", ArtifactRef_json (ft_Definition r));
    (str "circuit", CircuitBinding_json (ft_Circuit r));
    (str "phase1", PhaseSummary_json (ft_Phase1 r));
    (str "phase2", PhaseSummary_json (ft_Phase2 r));
    (str "audits", JArr (ArtifactRef_json <$> ft_Audits r));
    (str "operational_evidence", SignedArtifactRefs_json (ft_OperationalEvidence r));
    (str "proving_key", ArtifactRef_json (ft_ProvingKey r));
    (str "verifying_key", ArtifactRef_json (ft_VerifyingKey r));
    (str "cardano_verifying_key", ArtifactRef_json (ft_CardanoVerifyingKey r));
    (str "finalized_at", JStr (ft_FinalizedAt r)) ].

Definition FinalTranscript_set_Schema (v : list Z) (r : FinalTranscript) : FinalTranscript :=
  {| ft_Schema := v; ft_TranscriptID := ft_TranscriptID r; ft_CeremonyID := ft_CeremonyID r;
     ft_Definition := ft_Definition r; ft_Circuit := ft_Circuit r; ft_Phase1 := ft_Phase1 r;
     ft_Phase2 := ft_Phase2 r; ft_Audits := ft_Audits r; ft_OperationalEvidence :=
     ft_OperationalEvidence r; ft_ProvingKey := ft_ProvingKey r; ft_VerifyingKey :=
     ft_VerifyingKey r; ft_CardanoVerifyingKey := ft_CardanoVerifyingKey r; ft_FinalizedAt
     := ft_FinalizedAt r |}.

Definition FinalTranscript_set_TranscriptID (v : list Z) (r : FinalTranscript) : FinalTranscript :=
  {| ft_Schema := ft_Schema r; ft_TranscriptID := v; ft_CeremonyID := ft_CeremonyID r;
     ft_Definition := ft_Definition r; ft_Circuit := ft_Circuit r; ft_Phase1 := ft_Phase1 r;
     ft_Phase2 := ft_Phase2 r; ft_Audits := ft_Audits r; ft_OperationalEvidence :=
     ft_OperationalEvidence r; ft_ProvingKey := ft_ProvingKey r; ft_VerifyingKey :=
     ft_VerifyingKey r; ft_CardanoVerifyingKey := ft_CardanoVerifyingKey r; ft_FinalizedAt
     := ft_FinalizedAt r |}.

Definition FinalTranscript_validate `{MapOrder} (requireID : bool) (r : FinalTranscript) : checked :=
  _ ← check_schema_and_id (ft_Schema r) FinalTranscriptSchema requireID "transcript_id" (ft_TranscriptID r);
  _ ← validateHashID "ceremony_id" (ft_CeremonyID r);
  _ ← within "definition" (ArtifactRef_Validate (ft_Definition r));
  _ ← within "circuit" (CircuitBinding_Validate (ft_Circuit r));
  _ ← within "phase1" (PhaseSummary_Validate (ft_Phase1 r));
  _ ← check (differs (ps_Phase (ft_Phase1 r)) Phase1) "phase1 summary has wrong phase";
  _ ← within "phase2" (PhaseSummary_Validate (ft_Phase2 r));
  _ ← check (differs (ps_Phase (ft_Phase2 r)) Phase2) "phase2 summary has wrong phase";
  _ ← check (length (ft_Audits r) <? 2)%nat
        "final transcript requires at least two independent audit artifacts";
  _ ← validateArtifactList "audits" (ft_Audits r) MaxParticipants;
  _ ← within "operational_evidence" (SignedArtifactRefs_Validate (ft_OperationalEvidence r));
  _ ← validate_labelled [ ("proving_key"%string, ft_ProvingKey r);
        ("verifying_key"%string, ft_VerifyingKey r);
        ("cardano_verifying_key"%string, ft_CardanoVerifyingKey r) ];
  validateTimestamp "finalized_at" (ft_FinalizedAt r).

#[export] Instance FinalTranscript_content `{MapOrder} : ContentRecord FinalTranscript := {
  rec_json := FinalTranscript_json;
  rec_schema := FinalTranscriptSchema;
  rec_domain := str "proof-tool/mpc-ceremony/final-transcript/v1";
  rec_id := ft_TranscriptID;
  rec_set_id := FinalTranscript_set_TranscriptID;
  rec_set_schema := FinalTranscript_set_Schema;
  rec_validate := FinalTranscript_validate;
}.

Definition ComputeFinalTranscriptID `{MapOrder} (r : FinalTranscript) : result go_error (list Z) := compute_id r.
Definition FinalTranscript_Validate `{MapOrder} (r : FinalTranscript) : checked := validate_record r.
Definition NewFinalTranscript `{MapOrder} (r : FinalTranscript) : result go_error FinalTranscript :=
  new_record r.

(** ** The release candidate: [finalize.go] *)

Definition CandidateMetadataSchema : list Z := str "proof-tool-mpc-release-candidate-v2".

Record CandidateMetadata := {
  cm_Schema : list Z;
  cm_CandidateID : list Z;
  cm_CeremonyID : list Z;
  cm_Definition : ArtifactRef;
  cm_Circuit : CircuitBinding;
  cm_Phase1 : PhaseSummary;
  cm_Phase2 : PhaseSummary;
  cm_ConstraintSystem : ArtifactRef;
  cm_ProvingKey : ArtifactRef;
  cm_VerifyingKey : ArtifactRef;
  cm_CardanoVerifyingKey : ArtifactRef;
  cm_CardanoVKHex : ArtifactRef;
  cm_CardanoVKFormat : ArtifactRef;
  cm_VerificationReport : ArtifactRef;
  cm_PublicEvidence : ArtifactRef;
  cm_Phase2SealRecord : ArtifactRef;
  cm_CoordinatorID : list Z;
  cm_CoordinatorKeyID : list Z;
  cm_FinalizedAt : list Z }.
#[export] Instance CandidateMetadata_eq_dec : EqDecision CandidateMetadata.
Proof. solve_decision. Defined.

Definition CandidateMetadata_json (r : CandidateMetadata) : json := JObj
  [ (str "schema", JStr (cm_Schema r));
    (str "candidate_id", JStr (cm_CandidateID r));
    (str "ceremony_id", JStr (cm_CeremonyID r));
    (str "definition", ArtifactRef_json (cm_Definition r));
    (str "circuit", CircuitBinding_json (cm_Circuit r));
    (str "phase1", PhaseSummary_json (cm_Phase1 r));
    (str "phase2", PhaseSummary_json (cm_Phase2 r));
    (str "constraint_system", ArtifactRef_json (cm_ConstraintSystem r));
    (str "proving_key", ArtifactRef_json (cm_ProvingKey r));
    (str "verifying_key", ArtifactRef_json (cm_VerifyingKey r));
    (str "cardano_verifying_key", ArtifactRef_json (cm_CardanoVerifyingKey r));
    (str "cardano_vk_hex", ArtifactRef_json (cm_CardanoVKHex r));
    (str "cardano_vk_format", ArtifactRef_json (cm_CardanoVKFormat r));
    (str "verification_report", ArtifactRef_json (cm_VerificationReport r));
    (str "public_finalization_evidence", ArtifactRef_json (cm_PublicEvidence r));
    (str "phase2_seal_record", ArtifactRef_json (cm_Phase2SealRecord r));
    (str "coordinator_id", JStr (cm_CoordinatorID r));
    (str "coordinator_key_id", JStr (cm_CoordinatorKeyID r));
    (str "finalized_at", JStr (cm_FinalizedAt r)) ].

Definition CandidateMetadata_set_Schema (v : list Z) (r : CandidateMetadata) : CandidateMetadata :=
  {| cm_Schema := v; cm_CandidateID := cm_CandidateID r; cm_CeremonyID := cm_CeremonyID r;
     cm_Definition := cm_Definition r; cm_Circuit := cm_Circuit r; cm_Phase1 := cm_Phase1 r;
     cm_Phase2 := cm_Phase2 r; cm_ConstraintSystem := cm_ConstraintSystem r; cm_ProvingKey :=
     cm_ProvingKey r; cm_VerifyingKey := cm_VerifyingKey r; cm_CardanoVerifyingKey :=
     cm_CardanoVerifyingKey r; cm_CardanoVKHex := cm_CardanoVKHex r; cm_CardanoVKFormat :=
     cm_CardanoVKFormat r; cm_VerificationReport := cm_VerificationReport r; cm_PublicEvidence :=
     cm_PublicEvidence r; cm_Phase2SealRecord := cm_Phase2SealRecord r; cm_CoordinatorID :=
     cm_CoordinatorID r; cm_CoordinatorKeyID := cm_CoordinatorKeyID r; cm_FinalizedAt :=
     cm_FinalizedAt r |}.

Definition CandidateMetadata_set_CandidateID (v : list Z) (r : CandidateMetadata) : CandidateMetadata :=
  {| cm_Schema := cm_Schema r; cm_CandidateID := v; cm_CeremonyID := cm_CeremonyID r;
     cm_Definition := cm_Definition r; cm_Circuit := cm_Circuit r; cm_Phase1 := cm_Phase1 r;
     cm_Phase2 := cm_Phase2 r; cm_ConstraintSystem := cm_ConstraintSystem r; cm_ProvingKey :=
     cm_ProvingKey r; cm_VerifyingKey := cm_VerifyingKey r; cm_CardanoVerifyingKey :=
     cm_CardanoVerifyingKey r; cm_CardanoVKHex := cm_CardanoVKHex r; cm_CardanoVKFormat :=
     cm_CardanoVKFormat r; cm_VerificationReport := cm_VerificationReport r; cm_PublicEvidence :=
     cm_PublicEvidence r; cm_Phase2SealRecord := cm_Phase2SealRecord r; cm_CoordinatorID :=
     cm_CoordinatorID r; cm_CoordinatorKeyID := cm_CoordinatorKeyID r; cm_FinalizedAt :=
     cm_FinalizedAt r |}.

Definition computeCandidateID (candidate : CandidateMetadata) : result go_error (list Z) :=
  let candidate := CandidateMetadata_set_CandidateID [] candidate in
  _ ← check (differs (cm_Schema candidate) CandidateMetadataSchema) "candidate schema %q, want %q";
  Ok (canonicalHash (str "proof-tool/mpc-ceremony/release-candidate/v1") (CandidateMetadata_json candidate)).

Definition CandidateMetadata_Validate `{MapOrder} (c : CandidateMetadata) : checked :=
  _ ← check (differs (cm_Schema c) CandidateMetadataSchema) "candidate schema %q, want %q";
  _ ← validateHashID "candidate_id" (cm_CandidateID c);
  expected ← computeCandidateID c;
  _ ← check (differs (cm_CandidateID c) expected) "candidate_id %q, want %q";
  _ ← validateHashID "ceremony_id" (cm_CeremonyID c);
  _ ← within "definition" (ArtifactRef_Validate (cm_Definition c));
  _ ← within "circuit" (CircuitBinding_Validate (cm_Circuit c));
  _ ← within "phase1: invalid summary" (PhaseSummary_Validate (cm_Phase1 c));
  _ ← check (differs (ps_Phase (cm_Phase1 c)) Phase1) "phase1: invalid summary";
  _ ← within "phase2: invalid summary" (PhaseSummary_Validate (cm_Phase2 c));
  _ ← check (differs (ps_Phase (cm_Phase2 c)) Phase2) "phase2: invalid summary";
  _ ← validate_labelled [ ("constraint_system"%string, cm_ConstraintSystem c);
        ("proving_key"%string, cm_ProvingKey c); ("verifying_key"%string, cm_VerifyingKey c);
        ("cardano_verifying_key"%string, cm_CardanoVerifyingKey c);
        ("cardano_vk_hex"%string, cm_CardanoVKHex c); ("cardano_vk_format"%string, cm_CardanoVKFormat c);
        ("verification_report"%string, cm_VerificationReport c);
        ("public_evidence"%string, cm_PublicEvidence c);
        ("phase2_seal_record"%string, cm_Phase2SealRecord c) ];
  _ ← validateID "coordinator_id" (cm_CoordinatorID c);
  _ ← validateID "coordinator_key_id" (cm_CoordinatorKeyID c);
  validateTimestamp "finalized_at" (cm_FinalizedAt c).

Definition NewCandidateMetadata `{MapOrder} (candidate : CandidateMetadata) :
    result go_error CandidateMetadata :=
  let candidate := CandidateMetadata_set_CandidateID []
    (CandidateMetadata_set_Schema CandidateMetadataSchema candidate) in
  id ← computeCandidateID candidate;
  let candidate := CandidateMetadata_set_CandidateID id candidate in
  _ ← CandidateMetadata_Validate candidate;
  Ok candidate.
