(* ===== verification/MpcRecords.v ===== *)
(** * Records identified by their content

    What [New...], [Compute...ID] and [Validate] of [internal/mpcceremony] guarantee for a
    record type: a constructed record is valid, a valid record is the one its constructor
    yields, and the identifier is a function of everything else; the JSON encodings are
    injective, so a shared identifier exhibits a collision of SHA-256.  Beacon records and
    the release candidate, with constructors of their own, are at the end; the records of
    the decision follow in [MpcDecisionCorrect.v]. *)
From stdpp Require Import strings.
From S2P Require Import Prelude.
From S2P Require Import GoText.
From S2P Require Import GoError.
From S2P Require Import Sha256.
From S2P Require Import GoTime.
From S2P Require Import GoJson.
From S2P Require Import MpcModel.
From S2P Require Import MpcPreflight.
From S2P Require Import MpcDefinition.
From S2P Require Import MpcAttestation.
From S2P Require Import MpcChain.
From S2P Require Import MpcClose.
From S2P Require Import MpcTranscript.

(** ** Hexadecimal fields *)

Lemma hex_lower bs : Forall is_byte bs → has_upper (hex_EncodeToString bs) = false.
Proof.
  unfold has_upper, hex_EncodeToString, in_range. induction 1 as [|b bs Hb _ IH]; [done|].
  unfold is_digit in Hb. cbn in *. rewrite IH, orb_false_r.
  pose proof (Z.mod_pos_bound b 16 ltac:(lia)). pose proof (Z.div_pos b 16 ltac:(lia) ltac:(lia)).
  pose proof (Z.div_lt_upper_bound b 16 16 ltac:(lia) ltac:(lia)).
  assert (∀ d, 0 <= d < 16 → (65 <=? digit_char d) && (digit_char d <=? 90) = false) as Hd.
  { intros d Hd. unfold digit_char. destruct (d <? 10) eqn:E; bool_to_prop; lia. }
  by rewrite !Hd by lia.
Qed.

Lemma validateHex_encoded bs n : Forall is_byte bs → length bs = n →
  validateHex (hex_EncodeToString bs) n = Ok tt.
Proof.
  intros Hb <-. unfold validateHex. rewrite length_hex, (hex_round_trip bs Hb), (hex_lower bs Hb).
  rewrite (Nat.mul_comm (length bs)), Nat.eqb_refl. done.
Qed.

Lemma validateTaggedHex_tagged p bs n : Forall is_byte bs → length bs = n →
  validateTaggedHex (p ++ hex_EncodeToString bs) p n = Ok tt.
Proof.
  intros Hb Hn. unfold validateTaggedHex. rewrite HasPrefix_app, TrimPrefix_app.
  by apply validateHex_encoded.
Qed.

Lemma validateHashID_canonical label domain j : validateHashID label (canonicalHash domain j) = Ok tt.
Proof.
  apply within_tt, validateTaggedHex_tagged; [apply sha256_bytes|apply length_sha256].
Qed.

Lemma validateTaggedHex_sha256 data : validateTaggedHex (taggedSHA256 data) sha256_tag 32 = Ok tt.
Proof. apply validateTaggedHex_tagged; [apply sha256_bytes|apply length_sha256]. Qed.

Lemma canonicalHash_nonempty domain j : canonicalHash domain j ≠ [].
Proof. done. Qed.

(** ** The laws of a record type *)

(** The identifier is a field like any other, and the checks read it only to require it
    well formed or empty. *)
Class ContentLaws (A : Type) `{ContentRecord A} : Prop := {
  get_set_id : ∀ v (r : A), rec_id (rec_set_id v r) = v;
  set_get_id : ∀ (r : A), rec_set_id (rec_id r) r = r;
  set_set_id : ∀ v w (r : A), rec_set_id v (rec_set_id w r) = rec_set_id v r;
  set_schema_id : ∀ s v (r : A), rec_set_schema s (rec_set_id v r) = rec_set_id v (rec_set_schema s r);
  validate_parts : ∃ (schema_of : A → list Z) (label : string) (body : A → checked),
    ∀ r, (∀ b, rec_validate b r =
            (_ ← check_schema_and_id (schema_of r) (rec_schema A) b label (rec_id r); body r)) ∧
         (∀ v, body (rec_set_id v r) = body r ∧ schema_of (rec_set_id v r) = schema_of r) ∧
         schema_of (rec_set_schema (rec_schema A) r) = rec_schema A ∧
         (schema_of r = rec_schema A → rec_set_schema (rec_schema A) r = r);
}.

Section laws.
Context `{ContentLaws A}.
Implicit Types r : A.

(** The identifier the content determines. *)
Definition content_id r : list Z := canonicalHash (rec_domain A) (rec_json (rec_set_id [] r)).

Lemma content_id_hash label r : validateHashID label (content_id r) = Ok tt.
Proof. apply validateHashID_canonical. Qed.

Lemma rec_validate_true v r : rec_validate true (rec_set_id v r) = Ok tt ↔
  (∃ label, validateHashID label v = Ok tt) ∧ rec_validate false (rec_set_id [] r) = Ok tt.
Proof.
  destruct validate_parts as (sc & label & body & Hp).
  pose proof (Hp r) as (_ & Hb & _).
  destruct (Hp (rec_set_id v r)) as [-> _]. destruct (Hp (rec_set_id [] r)) as [-> _].
  rewrite !get_set_id. destruct (Hb v) as [-> ->], (Hb []) as [-> ->].
  unfold check_schema_and_id. autorewrite with checks. unfold validateHashID.
  setoid_rewrite within_tt. rewrite (bool_decide_eq_false (@nil Z ≠ [])). naive_solver.
Qed.

Lemma compute_id_Ok r h : compute_id r = Ok h ↔
  rec_validate false (rec_set_id [] r) = Ok tt ∧ h = content_id r.
Proof.
  unfold compute_id, content_id. rewrite bind_Ok. split.
  - intros ([] & ? & [= <-]). done.
  - intros [? ->]. by exists tt.
Qed.

Lemma rec_validate_id r : rec_validate true r = Ok tt → rec_validate false (rec_set_id [] r) = Ok tt.
Proof. intros Hv. rewrite <- (set_get_id r) in Hv. by apply rec_validate_true in Hv as [_ ?]. Qed.

Lemma validate_record_Ok r : validate_record r = Ok tt ↔
  rec_validate true r = Ok tt ∧ rec_id r = content_id r.
Proof.
  unfold validate_record. rewrite bind_unit. split.
  - intros [Hv Hc]. split; [done|]. apply bind_Ok in Hc as (h & [_ ->]%compute_id_Ok & Hc).
    apply check_Ok, bool_decide_eq_false in Hc. by destruct (decide (rec_id r = content_id r)).
  - intros [Hv He]. split; [done|]. apply bind_Ok. exists (content_id r).
    split; [apply compute_id_Ok; split; [by apply rec_validate_id|done]|].
    apply check_Ok, bool_decide_eq_false. by intros [].
Qed.

Lemma content_id_set v r : content_id (rec_set_id v r) = content_id r.
Proof. unfold content_id. by rewrite set_set_id. Qed.

(** [New...] fails only on the checks of the fields: its validation of the result
    repeats them. *)
Lemma new_record_Ok r r' : new_record r = Ok r' ↔
  let q := rec_set_id [] (rec_set_schema (rec_schema A) r) in
  rec_validate false q = Ok tt ∧ r' = rec_set_id (content_id q) q.
Proof.
  unfold new_record. cbv zeta. set (q := rec_set_id [] (rec_set_schema (rec_schema A) r)).
  assert (rec_set_id [] q = q) as Hq by apply set_set_id. split.
  - intros (id & [Hv ->]%compute_id_Ok & Hr)%bind_Ok. rewrite Hq in Hv.
    apply bind_Ok in Hr as ([] & _ & [= <-]). done.
  - intros [Hv ->]. apply bind_Ok. exists (content_id q). rewrite compute_id_Ok, Hq. split; [done|].
    apply bind_Ok. exists tt. split; [|done]. apply validate_record_Ok.
    rewrite rec_validate_true, Hq, get_set_id, content_id_set. split; [|done].
    split; [|done]. exists "id"%string. apply validateHashID_canonical.
Qed.

(** A record whose fields check, given the identifier of its content, is valid. *)
Lemma with_content_id_valid r : rec_validate false (rec_set_id [] r) = Ok tt →
  validate_record (rec_set_id (content_id r) r) = Ok tt.
Proof.
  intros Hv. apply validate_record_Ok. rewrite get_set_id, content_id_set. split; [|done].
  apply rec_validate_true. split; [|done]. exists "id"%string. apply validateHashID_canonical.
Qed.

Lemma compute_id_set v r : compute_id (rec_set_id v r) = compute_id r.
Proof. unfold compute_id. by rewrite set_set_id. Qed.

Lemma new_record_eq r : let q := rec_set_schema (rec_schema A) r in
  new_record r = (id ← compute_id (rec_set_id [] q);
                  let v := rec_set_id id (rec_set_id [] q) in _ ← validate_record v; Ok v).
Proof. reflexivity. Qed.

(** A valid record has its schema. *)
Lemma validate_record_schema r : validate_record r = Ok tt → rec_set_schema (rec_schema A) r = r.
Proof.
  rewrite validate_record_Ok. intros [Hv _].
  destruct validate_parts as (sc & label & body & Hp). destruct (Hp r) as (Hs & _ & _ & Hr).
  apply Hr. rewrite Hs in Hv. unfold check_schema_and_id in Hv. autorewrite with checks in Hv.
  destruct Hv as [[Hv _] _]. apply bool_decide_eq_false in Hv.
  by destruct (decide (sc r = rec_schema A)).
Qed.

(** A valid record is a fixed point of its constructor. *)
Lemma new_record_fixed r : validate_record r = Ok tt → new_record r = Ok r.
Proof.
  intros Hr. pose proof (validate_record_schema r Hr) as Hs. apply validate_record_Ok in Hr as [Hv He].
  apply new_record_Ok. cbv zeta. rewrite Hs.
  split; [by apply rec_validate_id|]. by rewrite content_id_set, set_set_id, <- He, set_get_id.
Qed.
End laws.

(** From here on a validation is known by its laws, never by evaluation. *)
#[global] Opaque compute_id validate_record new_record.

(** ** Every record type has the laws *)

Ltac content_laws :=
  constructor;
  [ done | by intros [] | done | done
  | do 3 eexists; intros ?; split; [intros ?; reflexivity|];
    split; [intros ?; split; reflexivity|]; split; [reflexivity|];
    match goal with r : _ |- _ => destruct r end; cbn; by intros -> ].

#[export] Instance CeremonyDefinition_laws : ContentLaws CeremonyDefinition.
Proof. content_laws. Qed.
#[export] Instance ErasureAttestation_laws : ContentLaws ErasureAttestation.
Proof. content_laws. Qed.
#[export] Instance ContributionAttestation_laws : ContentLaws ContributionAttestation.
Proof. content_laws. Qed.
#[export] Instance ChainRecord_laws `{MapOrder} : ContentLaws ChainRecord.
Proof. content_laws. Qed.
#[export] Instance CloseRecord_laws : ContentLaws CloseRecord.
Proof. content_laws. Qed.
#[export] Instance BeaconRecord_laws : ContentLaws BeaconRecord.
Proof. content_laws. Qed.
#[export] Instance SealRecord_laws : ContentLaws SealRecord.
Proof. content_laws. Qed.
#[export] Instance AuditRecord_laws `{MapOrder} : ContentLaws AuditRecord.
Proof. content_laws. Qed.
#[export] Instance FinalTranscript_laws `{MapOrder} : ContentLaws FinalTranscript.
Proof. content_laws. Qed.

(** * Encodings of records are injective, and identifiers commit to them

    Distinct records have distinct JSON, so a content identifier shared by two records
    is a collision of SHA-256 on the two strings hashed. *)

(** ** The JSON of a record determines it *)

#[export] Instance JStr_inj : Inj (=) (=) JStr.
Proof. by intros ? ? [=]. Qed.
#[export] Instance JNum_inj : Inj (=) (=) JNum.
Proof. by intros ? ? [=]. Qed.

#[export] Instance JSlice_inj {A} (f : A → json) : Inj (=) (=) f → Inj (=) (=) (JSlice f).
Proof. intros Hf [a|] [b|] He; try done. injection He as He. by apply (inj (fmap f)) in He as ->. Qed.

Lemma JObj_inj fs gs : JObj fs = JObj gs → fs = gs.
Proof. by injection 1. Qed.
Lemma field_inj (k : list Z) (v w : json) fs gs : (k, v) :: fs = (k, w) :: gs → v = w ∧ fs = gs.
Proof. by injection 1. Qed.

(** Take the equality of two encodings apart, field by field. *)
Ltac json_inj rec_json :=
  let r := fresh in let s := fresh in let He := fresh in
  intros r s He; unfold rec_json in He; apply JObj_inj in He;
  repeat (apply field_inj in He as [? He]);
  repeat match goal with
  | H : JStr _ = JStr _ |- _ => apply (inj JStr) in H
  | H : JNum _ = JNum _ |- _ => apply (inj JNum) in H
  | H : JBool _ = JBool _ |- _ => injection H as H
  | H : JArr _ = JArr _ |- _ => injection H as H
  | H : ?f <$> _ = ?f <$> _ |- _ => apply (inj (fmap f)) in H
  | H : ?f _ = ?f _ |- _ => apply (inj f) in H
  end; destruct r, s; cbn in *; subst; reflexivity.

#[export] Instance Digest_json_inj : Inj (=) (=) Digest_json.
Proof. json_inj Digest_json. Qed.
#[export] Instance ArtifactRef_json_inj : Inj (=) (=) ArtifactRef_json.
Proof. json_inj ArtifactRef_json. Qed.
#[export] Instance Identity_json_inj : Inj (=) (=) Identity_json.
Proof. json_inj Identity_json. Qed.
#[export] Instance Participant_json_inj : Inj (=) (=) Participant_json.
Proof. json_inj Participant_json. Qed.
#[export] Instance PhasePolicy_json_inj : Inj (=) (=) PhasePolicy_json.
Proof. json_inj PhasePolicy_json. Qed.
#[export] Instance Phase2Shape_json_inj : Inj (=) (=) Phase2Shape_json.
Proof. json_inj Phase2Shape_json. Qed.
#[export] Instance CircuitBinding_json_inj : Inj (=) (=) CircuitBinding_json.
Proof. json_inj CircuitBinding_json. Qed.
#[export] Instance BeaconPolicy_json_inj : Inj (=) (=) BeaconPolicy_json.
Proof. json_inj BeaconPolicy_json. Qed.
#[export] Instance ContributionEnvironment_json_inj : Inj (=) (=) ContributionEnvironment_json.
Proof. json_inj ContributionEnvironment_json. Qed.
#[export] Instance ErasureAttestation_json_inj : Inj (=) (=) ErasureAttestation_json.
Proof. json_inj ErasureAttestation_json. Qed.
#[export] Instance ContributionAttestation_json_inj : Inj (=) (=) ContributionAttestation_json.
Proof. json_inj ContributionAttestation_json. Qed.
#[export] Instance ChainRecord_json_inj : Inj (=) (=) ChainRecord_json.
Proof. json_inj ChainRecord_json. Qed.
#[export] Instance CloseRecord_json_inj : Inj (=) (=) CloseRecord_json.
Proof. json_inj CloseRecord_json. Qed.
#[export] Instance BeaconRecord_json_inj : Inj (=) (=) BeaconRecord_json.
Proof. json_inj BeaconRecord_json. Qed.
#[export] Instance SealRecord_json_inj : Inj (=) (=) SealRecord_json.
Proof. json_inj SealRecord_json. Qed.
#[export] Instance AuditRecord_json_inj : Inj (=) (=) AuditRecord_json.
Proof. json_inj AuditRecord_json. Qed.
#[export] Instance SignedArtifactRefs_json_inj : Inj (=) (=) SignedArtifactRefs_json.
Proof. json_inj SignedArtifactRefs_json. Qed.
#[export] Instance PhaseSummary_json_inj : Inj (=) (=) PhaseSummary_json.
Proof. json_inj PhaseSummary_json. Qed.
#[export] Instance FinalTranscript_json_inj : Inj (=) (=) FinalTranscript_json.
Proof. json_inj FinalTranscript_json. Qed.
#[export] Instance CandidateMetadata_json_inj : Inj (=) (=) CandidateMetadata_json.
Proof. json_inj CandidateMetadata_json. Qed.

(** The one optional field: without it the object is shorter. *)
#[export] Instance SoftwareBinding_json_inj : Inj (=) (=) SoftwareBinding_json.
Proof.
  intros r s He. unfold SoftwareBinding_json in He. apply JObj_inj in He.
  assert (bool_decide (sw_GoAMD64 r = []) = bool_decide (sw_GoAMD64 s = [])) as Hb.
  { apply (f_equal length) in He. rewrite !length_app in He. revert He.
    by destruct (bool_decide (sw_GoAMD64 r = [])), (bool_decide (sw_GoAMD64 s = [])). }
  rewrite Hb in He.
  assert (sw_GoAMD64 r = sw_GoAMD64 s) as Ha.
  { do 7 apply field_inj in He as [_ He]. destruct (bool_decide (sw_GoAMD64 s = [])) eqn:Es.
    - apply bool_decide_eq_true in Hb, Es. congruence.
    - cbn [app] in He. apply field_inj in He as [He _]. by apply (inj JStr). }
  assert (Digest_json (sw_ToolBinary r) = Digest_json (sw_ToolBinary s)) as Hd.
  { destruct (bool_decide (sw_GoAMD64 s = [])); cbn [app] in He;
      repeat (apply field_inj in He as [? He]); done. }
  apply (inj Digest_json) in Hd.
  destruct (bool_decide (sw_GoAMD64 s = [])); cbn [app] in He;
    repeat (apply field_inj in He as [? He]);
    repeat match goal with
    | H : JStr _ = JStr _ |- _ => apply (inj JStr) in H
    | H : JBool _ = JBool _ |- _ => injection H as H
    end; destruct r, s; cbn in *; subst; reflexivity.
Qed.

#[export] Instance CeremonyDefinition_json_inj : Inj (=) (=) CeremonyDefinition_json.
Proof. json_inj CeremonyDefinition_json. Qed.

(** ** Hash commitments *)

(** Two of the strings collide. *)
Definition collision_in (preimages : list (list Z)) : Prop :=
  ∃ x y, x ∈ preimages ∧ y ∈ preimages ∧ x ≠ y ∧ sha256_Sum256 x = sha256_Sum256 y.

Lemma collision_mono xs ys : xs ⊆ ys → collision_in xs → collision_in ys.
Proof. intros Hs (x & y & Hx & Hy & ? & ?). exists x, y. auto. Qed.

Lemma collision_intro x y xs : x ∈ xs → y ∈ xs → sha256_Sum256 x = sha256_Sum256 y →
  x = y ∨ collision_in xs.
Proof. intros. destruct (decide (x = y)); [by left|right]. by exists x, y. Qed.

(** What [canonicalHash] hashes. *)
Definition hash_preimage (domain : list Z) (value : json) : list Z := domain ++ [0] ++ marshal value.

Lemma canonicalHash_sha d1 j1 d2 j2 : canonicalHash d1 j1 = canonicalHash d2 j2 →
  sha256_Sum256 (hash_preimage d1 j1) = sha256_Sum256 (hash_preimage d2 j2).
Proof.
  unfold canonicalHash, hash_preimage. intros He. apply app_inv_head in He.
  apply hex_inj in He; [done| |]; apply sha256_bytes.
Qed.

Lemma hash_preimage_inj d j1 j2 : clean j1 = true → clean j2 = true →
  hash_preimage d j1 = hash_preimage d j2 → j1 = j2.
Proof.
  intros C1 C2 He. apply marshal_eq; [done|done|]. unfold hash_preimage in He.
  apply app_inv_head in He. by injection He.
Qed.

(** Identifiers are text. *)
Lemma ascii_utf8 s : Forall (λ b, 0 <= b < 0x80) s → utf8_bytes s = true.
Proof.
  intros Hs. unfold utf8_bytes, utf8_ValidString. apply andb_true_iff. split.
  - induction Hs as [|b s Hb _ IH]; [done|]. cbn. destruct (Z.ltb_spec b 0x80); [|lia]. cbn. exact IH.
  - apply forallb_forall. intros b Hb%list_elem_of_In. rewrite Forall_forall in Hs. specialize (Hs b Hb).
    unfold byteb, in_range. apply andb_true_iff. rewrite !Z.leb_le. cbn in Hs. lia.
Qed.

Lemma tagged_utf8 p bs : Forall (λ b, 0 <= b < 0x80) p → Forall is_byte bs →
  utf8_bytes (p ++ hex_EncodeToString bs) = true.
Proof.
  intros Hp Hb. apply ascii_utf8, Forall_app. split; [done|].
  eapply Forall_impl; [apply hex_chars, Hb|]. unfold visible. intros c [? _]. cbn. lia.
Qed.

Lemma sha256_tag_ascii : Forall (λ b, 0 <= b < 0x80) sha256_tag.
Proof. unfold sha256_tag, str. cbn. repeat constructor; cbn; lia. Qed.

Lemma canonicalHash_utf8 d j : utf8_bytes (canonicalHash d j) = true.
Proof. apply tagged_utf8; [apply sha256_tag_ascii|apply sha256_bytes]. Qed.

Section commitments.
Context `{ContentLaws A} `{!Inj (=) (=) (rec_json (A:=A))}.
Implicit Types r : A.

(** A record whose strings are valid UTF-8, as those of every record read from JSON. *)
Definition utf8_record r : Prop := clean (rec_json (rec_set_id [] r)) = true.
Definition record_preimage r : list Z := hash_preimage (rec_domain A) (rec_json (rec_set_id [] r)).

Lemma content_id_utf8 r : utf8_bytes (content_id r) = true.
Proof. apply canonicalHash_utf8. Qed.

(** Two valid records with one identifier are one record, or SHA-256 collides. *)
Lemma validate_record_commits r s : utf8_record r → utf8_record s →
  validate_record r = Ok tt → validate_record s = Ok tt → rec_id r = rec_id s →
  r = s ∨ collision_in [record_preimage r; record_preimage s].
Proof.
  intros Ur Us [_ Er]%validate_record_Ok [_ Es]%validate_record_Ok He.
  assert (sha256_Sum256 (record_preimage r) = sha256_Sum256 (record_preimage s)) as Hs.
  { apply canonicalHash_sha. unfold content_id in *. congruence. }
  destruct (collision_intro _ _ [record_preimage r; record_preimage s]
    ltac:(left) ltac:(right; left) Hs) as [Hp|]; [left|by right].
  apply hash_preimage_inj, (inj rec_json) in Hp; [|done..].
  rewrite <- (set_get_id r), <- (set_get_id s), <- He, <- (set_set_id (rec_id r) [] r), Hp.
  by rewrite set_set_id.
Qed.
End commitments.

(** ** Records addressed by their content *)

(** What a record type with constructor [New], checks [Validate] and identifier [ID]
    guarantees when the identifier is the tagged SHA-256 of [domain], a zero byte and the
    JSON without it.  [completes r r'] says that [r'] is [r] with the fields the
    constructor fills in. *)
Definition content_addressed {A} (New : A → result go_error A) (Validate : A → checked)
    (ID : A → list Z) (set_ID : list Z → A → A) (domain : list Z) (to_json : A → json)
    (legible : A → Prop) (completes : A → A → Prop) : Prop :=
  let preimage r := hash_preimage domain (to_json (set_ID [] r)) in
  (∀ r r', New r = Ok r' ↔ Validate r' = Ok tt ∧ completes r r') ∧
  (∀ r, Validate r = Ok tt → New r = Ok r) ∧
  (∀ r, Validate r = Ok tt → ID r = sha256_tag ++ hex_EncodeToString (sha256_Sum256 (preimage r))) ∧
  (∀ r s, legible r → legible s → Validate r = Ok tt → Validate s = Ok tt → ID r = ID s →
     r = s ∨ collision_in [preimage r; preimage s]).

(** [r'] is [r] with its fixed fields filled in and its own identifier. *)
Definition completed {A} (ID : A → list Z) (set_ID : list Z → A → A) (fill : A → A) (r r' : A) : Prop :=
  r' = set_ID (ID r') (fill r).

Section addressed.
Context {A : Type} (New : A → result go_error A) (Validate : A → checked) (compute : A → result go_error (list Z)).
Context (ID : A → list Z) (set_ID : list Z → A → A) (fill : A → A) (domain : list Z) (to_json : A → json).
Context (legible : A → Prop).
Notation preimage r := (hash_preimage domain (to_json (set_ID [] r))).

(** The identifier is a field like any other. *)
Context (get_set : ∀ v r, ID (set_ID v r) = v) (set_get : ∀ r, set_ID (ID r) r = r).
Context (set_set : ∀ v w r, set_ID v (set_ID w r) = set_ID v r).
(** What is computed is the hash of the rest, and a valid record carries it. *)
Context (compute_hash : ∀ r h, compute r = Ok h → h = canonicalHash domain (to_json (set_ID [] r))).
Context (compute_rest : ∀ v r, compute (set_ID v r) = compute r).
Context (validate_id : ∀ r, Validate r = Ok tt → compute r = Ok (ID r)).

Lemma addressed_id r : Validate r = Ok tt → ID r = sha256_tag ++ hex_EncodeToString (sha256_Sum256 (preimage r)).
Proof. intros Hv%validate_id%compute_hash. exact Hv. Qed.

Lemma addressed_commits r s :
  (∀ r, legible r → clean (to_json (set_ID [] r)) = true) →
  (to_json (set_ID [] r) = to_json (set_ID [] s) → set_ID [] r = set_ID [] s) →
  legible r → legible s → Validate r = Ok tt → Validate s = Ok tt → ID r = ID s →
  r = s ∨ collision_in [preimage r; preimage s].
Proof.
  intros Hc Hinj Lr Ls Vr%validate_id%compute_hash Vs%validate_id%compute_hash He.
  assert (sha256_Sum256 (preimage r) = sha256_Sum256 (preimage s)) as Hs.
  { apply canonicalHash_sha. congruence. }
  destruct (collision_intro _ _ [preimage r; preimage s] ltac:(left) ltac:(right; left) Hs) as [Hp|];
    [left|by right].
  apply hash_preimage_inj, Hinj in Hp; [|by apply Hc..].
  rewrite <- (set_get r), <- (set_get s), <- He, <- (set_set (ID r) [] r), Hp. by rewrite set_set.
Qed.

(** The constructors that fill in the schema and compute the identifier. *)
Context (new_eq : ∀ r, New r =
  (id ← compute (set_ID [] (fill r)); let v := set_ID id (set_ID [] (fill r)) in _ ← Validate v; Ok v)).
Context (validate_fill : ∀ r, Validate r = Ok tt → fill r = r).

Lemma addressed_new r r' : New r = Ok r' ↔ Validate r' = Ok tt ∧ r' = set_ID (ID r') (fill r).
Proof.
  rewrite new_eq. cbv zeta. split.
  - intros (id & _ & Hn)%bind_Ok. rewrite set_set in Hn. apply bind_Ok in Hn as ([] & Hv & <-%Ok_inj).
    by rewrite get_set.
  - intros [Hv E]. apply bind_Ok. exists (ID r'). rewrite compute_rest, set_set, <- E. split.
    + rewrite <- (compute_rest (ID r')), <- E. by apply validate_id.
    + apply bind_Ok. exists tt. by split.
Qed.

Lemma addressed_fixed r : Validate r = Ok tt → New r = Ok r.
Proof. intros Hv. apply addressed_new. split; [done|]. by rewrite (validate_fill r Hv), set_get. Qed.

(** A record type whose identifier is computed this way and only filled in. *)
Lemma computed_addressed :
  (∀ r, legible r → clean (to_json (set_ID [] r)) = true) →
  (∀ r s, legible r → legible s → to_json (set_ID [] r) = to_json (set_ID [] s) → set_ID [] r = set_ID [] s) →
  content_addressed New Validate ID set_ID domain to_json legible (completed ID set_ID fill).
Proof.
  intros Hc Hinj. split; [exact addressed_new|]. split; [exact addressed_fixed|]. split; [exact addressed_id|].
  intros r s Lr Ls. apply addressed_commits; eauto.
Qed.
End addressed.

(** A record type with the laws, whose constructor fills in the schema. *)
Lemma content_laws_addressed A `{ContentLaws A} `{!Inj (=) (=) (rec_json (A:=A))} :
  content_addressed new_record validate_record rec_id rec_set_id (rec_domain A) rec_json utf8_record
    (completed rec_id rec_set_id (rec_set_schema (rec_schema A))).
Proof.
  apply (computed_addressed _ _ compute_id _ _ (rec_set_schema (rec_schema A))).
  - apply get_set_id.
  - apply set_get_id.
  - apply set_set_id.
  - by intros r h [_ ?]%compute_id_Ok.
  - apply compute_id_set.
  - intros r [Hv ->]%validate_record_Ok. apply compute_id_Ok. split; [by apply rec_validate_id|done].
  - apply new_record_eq.
  - apply validate_record_schema.
  - done.
  - intros r s _ _. apply (inj rec_json).
Qed.

(** [NewBeaconRecord] also derives the challenge; one supplied by the caller must be it. *)
Definition beacon_completes (r r' : BeaconRecord) : Prop :=
  r' = BeaconRecord_set_BeaconID (bc_BeaconID r')
         (BeaconRecord_set_ChallengeSHA256 (bc_ChallengeSHA256 r')
           (BeaconRecord_set_ChallengeHex (bc_ChallengeHex r') (BeaconRecord_set_Schema BeaconRecordSchema r))) ∧
  (bc_ChallengeHex r = [] ∨ bc_ChallengeHex r = bc_ChallengeHex r') ∧
  (bc_ChallengeSHA256 r = [] ∨ bc_ChallengeSHA256 r = bc_ChallengeSHA256 r').

Lemma supplied_Ok given want message :
  check (differs given [] && differs given want) message = Ok tt ↔ given = [] ∨ given = want.
Proof.
  rewrite check_tt, andb_false_iff, !differs_false. done.
Qed.

(** What the checks of a beacon record derive. *)
Lemma BeaconRecord_Validate_challenge r : BeaconRecord_Validate r = Ok tt →
  ∃ randomness challenge, decodeBeaconRandomness (bc_RandomnessHex r) = Ok randomness ∧
    DeriveBeaconChallenge (bc_CloseID r) (bc_Provider r) (bc_Network r) (bc_Round r) randomness = Ok challenge ∧
    bc_ChallengeHex r = hex_EncodeToString challenge ∧ bc_ChallengeSHA256 r = taggedSHA256 challenge.
Proof.
  intros [Hv _]%validate_record_Ok. cbn [rec_validate BeaconRecord_content] in Hv. unfold BeaconRecord_validate in Hv.
  do 8 apply bind_unit in Hv as [_ Hv]. apply bind_Ok in Hv as (randomness & Hr & Hv).
  apply bind_Ok in Hv as (challenge & Hc & Hv%check_tt%negb_false_iff).
  unfold challenge_matches in Hv. apply andb_true_iff in Hv as [H1%bool_decide_eq_true H2%bool_decide_eq_true].
  by exists randomness, challenge.
Qed.

Lemma NewBeaconRecord_Ok r r' : NewBeaconRecord r = Ok r' ↔
  BeaconRecord_Validate r' = Ok tt ∧ beacon_completes r r'.
Proof.
  unfold NewBeaconRecord. cbv zeta. split.
  - intros Hn. apply bind_Ok in Hn as (randomness & _ & Hn). apply bind_Ok in Hn as (challenge & _ & Hn).
    apply bind_Ok in Hn as ([] & H1%supplied_Ok & Hn). apply bind_Ok in Hn as ([] & H2%supplied_Ok & Hn).
    apply bind_Ok in Hn as (id & _ & Hn). apply bind_Ok in Hn as ([] & Hv & <-%Ok_inj).
    split; [exact Hv|]. split; [reflexivity|]. split; [exact H1|exact H2].
  - intros (Hv & E & H1 & H2). destruct (BeaconRecord_Validate_challenge r' Hv) as (rnd & ch & Hr & Hc & Eh & Es).
    rewrite E in Hr, Hc. apply bind_Ok. exists rnd. split; [exact Hr|]. apply bind_Ok. exists ch. split; [exact Hc|].
    rewrite <- Eh, <- Es. apply bind_Ok. exists tt. split; [by apply supplied_Ok|].
    apply bind_Ok. exists tt. split; [by apply supplied_Ok|].
    apply bind_Ok. exists (bc_BeaconID r').
    assert (∀ v w q, BeaconRecord_set_BeaconID v (BeaconRecord_set_ChallengeSHA256 (bc_ChallengeSHA256 r')
       (BeaconRecord_set_ChallengeHex (bc_ChallengeHex r') (BeaconRecord_set_BeaconID w q))) =
      BeaconRecord_set_BeaconID v (BeaconRecord_set_ChallengeSHA256 (bc_ChallengeSHA256 r')
       (BeaconRecord_set_ChallengeHex (bc_ChallengeHex r') q))) as Hset by done.
    split.
    + unfold ComputeBeaconRecordID. rewrite <- (compute_id_set (bc_BeaconID r')). cbn [rec_set_id BeaconRecord_content].
      rewrite Hset, <- E. pose proof Hv as [Hv' Eid]%validate_record_Ok.
      apply compute_id_Ok. split; [by apply rec_validate_id|exact Eid].
    + rewrite Hset, <- E. apply bind_Ok. exists tt. by split.
Qed.

Lemma BeaconRecord_addressed :
  content_addressed NewBeaconRecord BeaconRecord_Validate bc_BeaconID BeaconRecord_set_BeaconID
    (str "proof-tool/mpc-ceremony/beacon-record/v1") BeaconRecord_json utf8_record beacon_completes.
Proof.
  destruct (content_laws_addressed BeaconRecord) as (_ & Hf & Hid & Hcommit).
  split; [apply NewBeaconRecord_Ok|]. split; [|split; [exact Hid|exact Hcommit]].
  intros r Hv. apply NewBeaconRecord_Ok. split; [exact Hv|]. split; [|by split; right].
  pose proof (validate_record_schema r Hv) as Hs. cbn [rec_set_schema rec_schema BeaconRecord_content] in Hs.
  rewrite Hs. by destruct r.
Qed.

(** [CandidateMetadata] has its own, shorter computation of the identifier. *)
Definition legible_candidate (c : CandidateMetadata) : Prop :=
  clean (CandidateMetadata_json (CandidateMetadata_set_CandidateID [] c)) = true.

Lemma computeCandidateID_hash c h : computeCandidateID c = Ok h →
  h = canonicalHash (str "proof-tool/mpc-ceremony/release-candidate/v1")
        (CandidateMetadata_json (CandidateMetadata_set_CandidateID [] c)).
Proof. unfold computeCandidateID. cbv zeta. by intros ([] & _ & <-%Ok_inj)%bind_Ok. Qed.

Lemma CandidateMetadata_Validate_id `{MapOrder} c : CandidateMetadata_Validate c = Ok tt →
  computeCandidateID c = Ok (cm_CandidateID c) ∧ CandidateMetadata_set_Schema CandidateMetadataSchema c = c.
Proof.
  unfold CandidateMetadata_Validate. intros Hv. apply bind_Ok in Hv as ([] & Hs%check_tt%differs_false & Hv).
  apply bind_Ok in Hv as ([] & _ & Hv). apply bind_Ok in Hv as (expected & Hid & Hv).
  apply bind_Ok in Hv as ([] & ->%check_tt%differs_false & _). split; [exact Hid|]. rewrite <- Hs. by destruct c.
Qed.

Lemma CandidateMetadata_addressed `{MapOrder} :
  content_addressed NewCandidateMetadata CandidateMetadata_Validate cm_CandidateID
    CandidateMetadata_set_CandidateID (str "proof-tool/mpc-ceremony/release-candidate/v1") CandidateMetadata_json
    legible_candidate
    (completed cm_CandidateID CandidateMetadata_set_CandidateID
       (CandidateMetadata_set_Schema CandidateMetadataSchema)).
Proof.
  apply (computed_addressed _ _ computeCandidateID _ _ (CandidateMetadata_set_Schema CandidateMetadataSchema)).
  - done.
  - by intros [].
  - done.
  - apply computeCandidateID_hash.
  - done.
  - by intros r [? ?]%CandidateMetadata_Validate_id.
  - done.
  - by intros r [? ?]%CandidateMetadata_Validate_id.
  - done.
  - intros r s _ _. apply (inj CandidateMetadata_json).
Qed.
