(* ===== verification/MpcSignatureCorrect.v ===== *)
(** * Canonical decoding and detached signatures: correctness

    [UnmarshalCanonical] accepts exactly the canonical encodings of valid values, so
    [MarshalCanonical] and it are inverse; [VerifyExact] accepts exactly the signature
    record of the given bytes, key and key identifier around a valid Ed25519 signature;
    signing with a key generated from a seed always verifies; and signed bytes cannot be
    replaced without a collision of SHA-256. *)
From stdpp Require Import strings.
From S2P Require Import Prelude.
From S2P Require Import GoEd25519.
From S2P Require Import GoText.
From S2P Require Import GoError.
From S2P Require Import Sha256.
From S2P Require Import GoJson.
From S2P Require Import GoCodec.
From S2P Require Import MpcModel.
From S2P Require Import MpcPreflight.
From S2P Require Import MpcDefinition.
From S2P Require Import MpcSignature.
From S2P Require Import MpcRecords.

(** ** Hexadecimal fields are the encodings of bytes *)

Lemma digit_char_lower c d : char_digit 16 c = Some d → in_range 65 90 c = false → digit_char d = c.
Proof.
  unfold char_digit, in_range, digit_char. cbv zeta.
  destruct (Z.leb_spec 48 c), (Z.leb_spec c 57), (Z.leb_spec 97 c), (Z.leb_spec c 102),
    (Z.leb_spec 65 c), (Z.leb_spec c 70), (Z.leb_spec c 90); cbn [andb]; try done;
    match goal with |- context [?x <? 16] => destruct (Z.ltb_spec x 16) end; try done;
    intros [= <-] _; match goal with |- context [?x <? 10] => destruct (Z.ltb_spec x 10) end; lia.
Qed.

Lemma hex_decode_lower s bs : has_upper s = false → hex_DecodeString s = Some bs →
  s = hex_EncodeToString bs.
Proof.
  assert (∀ n s bs, (length s <= n)%nat → has_upper s = false → hex_DecodeString s = Some bs →
    s = hex_EncodeToString bs) as H; [|apply (H (length s)); lia].
  clear. induction n as [|n IH]; intros [|a [|b s]] bs Hl Hu; cbn; try done; try (intros [= <-]; done);
    cbn in Hl; [lia|].
  cbn in Hu. apply orb_false_iff in Hu as [Ha Hu]. apply orb_false_iff in Hu as [Hb Hu].
  intros Hd. apply bind_Some in Hd as (x & Hx & Hd). apply bind_Some in Hd as (y & Hy & Hd).
  apply bind_Some in Hd as (bs' & Hs & [= <-]). apply IH in Hs; [|lia|done].
  pose proof (char_digit_range _ _ Hx). pose proof (char_digit_range _ _ Hy).
  unfold hex_EncodeToString. cbn [fmap list_fmap concat app].
  replace (16 * x + y) with (y + x * 16) by lia.
  rewrite Z.div_add, Z.mod_add by lia. rewrite Z.div_small, Z.mod_small by lia. rewrite Z.add_0_l.
  rewrite (digit_char_lower a x), (digit_char_lower b y) by done. by rewrite Hs at 1.
Qed.

Lemma validateHex_Ok v n : validateHex v n = Ok tt ↔
  ∃ bs, v = hex_EncodeToString bs ∧ length bs = n ∧ Forall is_byte bs.
Proof.
  split.
  - unfold validateHex. intros Hv. inv_checks.
    destruct (hex_DecodeString v) as [bs|] eqn:Hd; [|done].
    pose proof (hex_decode_lower _ _ ltac:(done) Hd) as ->. exists bs.
    pose proof (hex_DecodeString_bytes _ _ Hd). rewrite length_hex in *. split_and!; [done|lia|done].
  - intros (bs & -> & Hl & Hb). by apply validateHex_encoded.
Qed.

Lemma validateTaggedHex_Ok v p n : validateTaggedHex v p n = Ok tt ↔
  ∃ bs, v = p ++ hex_EncodeToString bs ∧ length bs = n ∧ Forall is_byte bs.
Proof.
  split.
  - unfold validateTaggedHex. intros Hv. apply bind_unit in Hv as [Hp Hv].
    apply check_tt, negb_false_iff in Hp. unfold HasPrefix in Hp. apply bool_decide_eq_true in Hp as [t Ht].
    apply strip_prefix_Some in Ht as ->. rewrite TrimPrefix_app in Hv.
    apply validateHex_Ok in Hv as (bs & -> & ? & ?). by exists bs.
  - intros (bs & -> & Hl & Hb). by apply validateTaggedHex_tagged.
Qed.

Lemma validateID_ascii label v : validateID label v = Ok tt → Forall (λ b, 0 <= b < 0x80) v.
Proof.
  unfold validateID. intros Hv. inv_checks. apply Forall_forall. intros c Hc.
  match goal with H : forallb id_char v = true |- _ => rewrite forallb_forall in H;
    specialize (H c (proj1 (list_elem_of_In _ _) Hc)) end.
  unfold id_char, in_range in *. bool_to_prop. cbn. lia.
Qed.

Lemma validateID_utf8 label v : validateID label v = Ok tt → utf8_bytes v = true.
Proof. intros Hv. eapply ascii_utf8, validateID_ascii, Hv. Qed.

Lemma hex_utf8 bs : Forall is_byte bs → utf8_bytes (hex_EncodeToString bs) = true.
Proof. intros Hb. by apply (tagged_utf8 []). Qed.

(** ** Canonical decoding inverts canonical encoding *)

Lemma UnmarshalCanonical_Ok {A} (c : codec A) validate data v :
  UnmarshalCanonical c validate data = Ok v ↔
  validate v = Ok tt ∧ rep c v = true ∧ data = marshal (enc c v).
Proof.
  unfold UnmarshalCanonical. split.
  - destruct (j ← json_Parse data; dec c j) as [w|] eqn:Hd; [|done]. intros Hv. inv_checks.
    apply bind_Some in Hd as (j & _ & [-> Hr]%dec_iff). done.
  - intros (Hv & Hr & ->). rewrite json_Parse_marshal by by apply rep_clean. cbn [mbind option_bind].
    rewrite dec_enc by done. rewrite Hv. cbn [mbind result_bind].
    unfold differs. by rewrite bool_decide_false by (intros Hn; by apply Hn).
Qed.

(** The codecs encode as the records' JSON says. *)
Lemma Digest_codec_json d : enc Digest_codec d = Digest_json d.
Proof. reflexivity. Qed.
Lemma ArtifactRef_codec_json r : enc ArtifactRef_codec r = ArtifactRef_json r.
Proof. reflexivity. Qed.
Lemma Identity_codec_json i : enc Identity_codec i = Identity_json i.
Proof. reflexivity. Qed.

(** Reduce representability of a struct to that of its fields. *)
Lemma rep_field {A B} k (c : codec A) (rest : fields B) a b : utf8_bytes (str k) = true →
  rep c a = true → f_rep rest b = true → f_rep (field k c rest) (a, b) = true.
Proof. intros Hk Ha Hb. unfold field. cbn [f_rep]. by rewrite Hk, Ha, Hb. Qed.

Lemma rep_struct {A R} (fs : fields A) make view mv vm (r : R) :
  f_rep fs (view r) = true → rep (@struct A R fs make view mv vm) r = true.
Proof. done. Qed.

Ltac rep_rest := first [apply rep_field; [reflexivity| |rep_rest] | reflexivity].
Ltac rep_fields := apply rep_struct; rep_rest.

(** ** Detached signatures *)

(** The record around an Ed25519 signature. *)
Definition signature_record (data keyID publicKey sig : list Z) : DetachedSignature := {|
  ds_Schema := DetachedSignatureSchema;
  ds_Algorithm := SignatureAlgorithm;
  ds_KeyID := keyID;
  ds_PublicKeyFingerprint := taggedSHA256 publicKey;
  ds_SignedSHA256 := taggedSHA256 data;
  ds_SignatureHex := hex_EncodeToString sig |}.

Lemma signature_record_valid data keyID publicKey sig :
  validateID "signature key_id" keyID = Ok tt → length sig = SignatureSize → Forall is_byte sig →
  DetachedSignature_Validate (signature_record data keyID publicKey sig) = Ok tt.
Proof.
  intros Hid Hl Hb. unfold DetachedSignature_Validate, signature_record.
  cbn [ds_Schema ds_Algorithm ds_KeyID ds_PublicKeyFingerprint ds_SignedSHA256 ds_SignatureHex].
  rewrite !validateTaggedHex_sha256, Hid.
  rewrite (proj2 (validateHex_Ok _ _)) by by exists sig. reflexivity.
Qed.

Lemma taggedHex_utf8 v p n : Forall (λ b, 0 <= b < 0x80) p → validateTaggedHex v p n = Ok tt → utf8_bytes v = true.
Proof. intros Hp (bs & -> & _ & Hb)%validateTaggedHex_Ok. by apply tagged_utf8. Qed.

Lemma hex_field_utf8 v n : validateHex v n = Ok tt → utf8_bytes v = true.
Proof. intros (bs & -> & _ & Hb)%validateHex_Ok. by apply hex_utf8. Qed.

(** A valid signature record survives its encoding. *)
Lemma DetachedSignature_rep s : DetachedSignature_Validate s = Ok tt → rep DetachedSignature_codec s = true.
Proof.
  unfold DetachedSignature_Validate. intros Hv. autorewrite with checks in Hv.
  destruct Hv as (Hs & Ha & Hk & Hp & Hd & Hx). apply differs_false in Hs, Ha.
  rep_fields.
  - rewrite Hs. reflexivity.
  - rewrite Ha. reflexivity.
  - eapply validateID_utf8, Hk.
  - eapply taggedHex_utf8, Hp. apply sha256_tag_ascii.
  - eapply taggedHex_utf8, Hd. apply sha256_tag_ascii.
  - eapply hex_field_utf8, Hx.
Qed.

Lemma VerifyExact_Ok data s keyID publicKey :
  VerifyExact data s keyID publicKey = Ok tt ↔
  data ≠ [] ∧ length publicKey = PublicKeySize ∧ validateID "signature key_id" keyID = Ok tt ∧
  ∃ sig, length sig = SignatureSize ∧ Forall is_byte sig ∧ Verify publicKey data sig = true ∧
    s = signature_record data keyID publicKey sig.
Proof.
  unfold VerifyExact. split.
  - intros Hv. autorewrite with checks in Hv. destruct Hv as (Hs & Hd & Hl & Hk & Hp & Hdg & Hsig).
    pose proof Hs as Hs'. unfold DetachedSignature_Validate in Hs'. autorewrite with checks in Hs'.
    destruct Hs' as (Hsch & Halg & Hid & _ & _ & (sig & Ex & Hsl & Hb)%validateHex_Ok).
    rewrite Ex, hex_round_trip in Hsig by done. apply check_tt in Hsig.
    tests_in. destruct s; cbn in *; subst. split_and!; try done. exists sig. done.
  - intros (Hd & Hl & Hid & sig & Hsl & Hb & Hv & ->). autorewrite with checks.
    cbn [signature_record ds_KeyID ds_PublicKeyFingerprint ds_SignedSHA256 ds_SignatureHex].
    rewrite hex_round_trip by done. rewrite check_tt, Hv, !differs_false, Hl.
    split; [by apply signature_record_valid|]. split; [by apply bool_decide_eq_false|]. done.
Qed.

(** *** A key generated from a seed signs what its public key verifies *)

Lemma SignExact_verifies seed priv data keyID : length seed = 32%nat → NewKeyFromSeed seed = Some priv →
  data ≠ [] → validateID "signature key_id" keyID = Ok tt →
  ∃ s, SignExact data keyID priv = Ok s ∧ VerifyExact data s keyID (public_of_private priv) = Ok tt.
Proof.
  intros Hl Hk Hd Hid. destruct (key_sizes seed priv Hl Hk) as (Hp & Hq & _).
  destruct (Sign_verifies seed priv data Hl Hk) as (sig & Hs & Hsl & Hb & Hv).
  exists (signature_record data keyID (public_of_private priv) sig). split.
  - unfold SignExact. rewrite Hid, Hs, Hp, Hq. cbn [default id].
    rewrite bool_decide_false, !Nat.eqb_refl by exact Hd.
    fold (signature_record data keyID (public_of_private priv) sig).
    by rewrite signature_record_valid.
  - apply VerifyExact_Ok. split_and!; try done. by exists sig.
Qed.

(** *** Signed records *)

Lemma taggedSHA256_sha a b : taggedSHA256 a = taggedSHA256 b → sha256_Sum256 a = sha256_Sum256 b.
Proof. intros He%app_inv_head. apply hex_inj in He; [done| |]; apply sha256_bytes. Qed.

Lemma marshal_nonempty j : marshal j ≠ [].
Proof. destruct (marshal_head j) as (c & t & -> & _). done. Qed.

(** One signature record is for one string under one key, up to collisions. *)
Lemma signature_record_binds data keyID pk sig data' keyID' pk' sig' :
  signature_record data keyID pk sig = signature_record data' keyID' pk' sig' →
  keyID = keyID' ∧ (data = data' ∧ pk = pk' ∨ collision_in [data; data'; pk; pk']).
Proof.
  intros He. assert (keyID = keyID' ∧ taggedSHA256 pk = taggedSHA256 pk' ∧ taggedSHA256 data = taggedSHA256 data')
    as (-> & Hp%taggedSHA256_sha & Hd%taggedSHA256_sha) by by (unfold signature_record in He; split_and!; congruence).
  split; [done|].
  destruct (collision_intro data data' [data; data'; pk; pk'] ltac:(set_solver) ltac:(set_solver) Hd) as [->|]; [|by right].
  destruct (collision_intro pk pk' [data'; data'; pk; pk'] ltac:(set_solver) ltac:(set_solver) Hp) as [->|]; [by left|by right].
Qed.

Section signed_records.
Context {A : Type} (c : codec A) (validate : A → checked).

Lemma SignRecord_Ok record keyID privateKey rb sb : SignRecord c validate record keyID privateKey = Ok (rb, sb) ↔
  validate record = Ok tt ∧ rb = marshal (enc c record) ∧
  ∃ s, SignExact rb keyID privateKey = Ok s ∧ DetachedSignature_Validate s = Ok tt ∧
    sb = marshal (enc DetachedSignature_codec s).
Proof.
  unfold SignRecord, MarshalCanonical. split.
  - intros Hs. apply bind_Ok in Hs as (rb' & Hr & Hs). apply bind_Ok in Hr as ([] & Hv & [= <-]).
    apply bind_Ok in Hs as (s & Hs & Hb). apply bind_Ok in Hb as (sb' & Hb & [= <- <-]).
    apply bind_Ok in Hb as ([] & Hd & [= <-]). split_and!; [done..|]. by exists s.
  - intros (-> & -> & s & Hs & Hd & ->). cbn [mbind result_bind]. rewrite Hs. cbn [mbind result_bind].
    by rewrite Hd.
Qed.

Lemma VerifySignedRecord_Ok rb sb keyID publicKey record :
  VerifySignedRecord c validate rb sb keyID publicKey = Ok record ↔
  (∃ s, DetachedSignature_Validate s = Ok tt ∧ sb = marshal (enc DetachedSignature_codec s) ∧
    VerifyExact rb s keyID publicKey = Ok tt) ∧
  validate record = Ok tt ∧ rep c record = true ∧ rb = marshal (enc c record).
Proof.
  unfold VerifySignedRecord. split.
  - intros Hv. apply bind_Ok in Hv as (s & Hs & Hv). apply within_Ok, UnmarshalCanonical_Ok in Hs as (? & _ & ->).
    apply bind_Ok in Hv as ([] & Hx & Hv). apply within_Ok, UnmarshalCanonical_Ok in Hv as (? & ? & ->).
    split; [by exists s|done].
  - intros ((s & Hs & -> & Hx) & Hv).
    rewrite (proj2 (within_Ok _ _ s)) by by apply UnmarshalCanonical_Ok; auto using DetachedSignature_rep.
    cbn [mbind result_bind]. rewrite Hx. cbn [mbind result_bind]. by apply within_Ok, UnmarshalCanonical_Ok.
Qed.

(** What a signature that verified once says about whatever else it verifies. *)
Lemma VerifySignedRecord_binds rb sb keyID pk record rb' keyID' pk' record' :
  VerifySignedRecord c validate rb sb keyID pk = Ok record →
  VerifySignedRecord c validate rb' sb keyID' pk' = Ok record' →
  keyID' = keyID ∧ (rb' = rb ∧ pk' = pk ∧ record' = record ∨ collision_in [rb; rb'; pk; pk']).
Proof.
  intros ((s & Hs & Es & Hx) & Hv & Hr & Eb)%VerifySignedRecord_Ok
    ((s' & Hs' & Es' & Hx') & Hv' & Hr' & Eb')%VerifySignedRecord_Ok.
  assert (s' = s) as ->.
  { apply DetachedSignature_rep in Hs, Hs'. apply (enc_inj DetachedSignature_codec); [done..|].
    apply marshal_eq; [by apply rep_clean..|]. by rewrite <- Es, <- Es'. }
  apply VerifyExact_Ok in Hx as (_ & _ & _ & sig & _ & _ & _ & E1).
  apply VerifyExact_Ok in Hx' as (_ & _ & _ & sig' & _ & _ & _ & E2).
  rewrite E1 in E2. apply signature_record_binds in E2 as [-> [[-> ->]|Hc]]; [|by split; [|right]].
  split; [done|left]. split_and!; [done..|]. apply (enc_inj c); [done..|].
  apply marshal_eq; [by apply rep_clean..|]. by rewrite <- Eb, <- Eb'.
Qed.

(** C12 A record signed with a key generated from a seed is read back under the public key,
    and its signature vouches for no other record, key or key identifier unless SHA-256
    collides on the strings at hand. *)
Theorem signed_record_round_trip record keyID seed priv :
  length seed = 32%nat → NewKeyFromSeed seed = Some priv →
  validate record = Ok tt → rep c record = true → validateID "signature key_id" keyID = Ok tt →
  ∃ rb sb, SignRecord c validate record keyID priv = Ok (rb, sb) ∧
    VerifySignedRecord c validate rb sb keyID (public_of_private priv) = Ok record ∧
    ∀ rb' keyID' pk' record', VerifySignedRecord c validate rb' sb keyID' pk' = Ok record' →
      keyID' = keyID ∧
      (rb' = rb ∧ pk' = public_of_private priv ∧ record' = record ∨
       collision_in [rb; rb'; public_of_private priv; pk']).
Proof.
  intros Hl Hk Hv Hr Hid. set (rb := marshal (enc c record)).
  destruct (SignExact_verifies seed priv rb keyID Hl Hk (marshal_nonempty _) Hid) as (s & Hs & Hx).
  assert (DetachedSignature_Validate s = Ok tt) as Hsv
    by (apply VerifyExact_Ok in Hx as (_ & _ & _ & sig & Hsl & Hsb & _ & ->); by apply signature_record_valid).
  assert (VerifySignedRecord c validate rb (marshal (enc DetachedSignature_codec s)) keyID
    (public_of_private priv) = Ok record) as Hok by (apply VerifySignedRecord_Ok; split; [by exists s|done]).
  exists rb, (marshal (enc DetachedSignature_codec s)). split; [|split; [exact Hok|]].
  - apply SignRecord_Ok. split_and!; [done..|]. by exists s.
  - intros rb' keyID' pk' record'. by apply VerifySignedRecord_binds.
Qed.
End signed_records.

(** Conversely, the fields of a representable struct are representable. *)
Lemma rep_field_inv {A B} k (c : codec A) (rest : fields B) a b :
  f_rep (field k c rest) (a, b) = true → rep c a = true ∧ f_rep rest b = true.
Proof. unfold field. cbn [f_rep]. rewrite !andb_true_iff. tauto. Qed.

Lemma rep_struct_inv {A R} (fs : fields A) make view mv vm (r : R) :
  rep (@struct A R fs make view mv vm) r = true → f_rep fs (view r) = true.
Proof. done. Qed.
