(* ===== verification/MpcDecisionCorrect.v ===== *)
(** * The production decision: correctness

    A valid decision says GO exactly when every required gate passed, with evidence
    pinned coherently; a prepared decision can be read back by its signers; a GO decision
    is accepted exactly when the four accountable roles, and nobody else, signed its
    bytes; and signatures made with the enrolled keys are accepted.  With the release and
    the decision in hand, [records_content_addressed] sums up what the identifiers of all
    the ceremony's records guarantee. *)
From stdpp Require Import strings gmap sorting.
From S2P Require Import Prelude.
From S2P Require Import GoEd25519.
From S2P Require Import GoText.
From S2P Require Import GoError.
From S2P Require Import Sha256.
From S2P Require Import GoJson.
From S2P Require Import GoCodec.
From S2P Require Import Ownership.
From S2P Require Import MpcModel.
From S2P Require Import MpcPreflight.
From S2P Require Import MpcDefinition.
From S2P Require Import MpcAttestation.
From S2P Require Import MpcChain.
From S2P Require Import MpcClose.
From S2P Require Import MpcTranscript.
From S2P Require Import MpcSignature.
From S2P Require Import MpcDecision.
From S2P Require Import MpcRecords.
From S2P Require Import MpcSignatureCorrect.

(** ** What a valid decision says *)

(** [check_gates] goes through both lists together. *)
Lemma check_gates_Ok `{URLParser} expected gates b b' : length gates = length expected →
  check_gates expected gates b = Ok b' ↔
  pg_Gate <$> gates = expected ∧ Forall (λ g, ProductionGateResult_Validate g = Ok tt) gates ∧
  b' = b && forallb (λ g, bool_decide (pg_Status g = GatePASS)) gates.
Proof.
  revert gates b b'. induction expected as [|x expected IH]; intros [|g gates] b b' Hl; try done.
  { cbn. rewrite andb_true_r. split; [by intros [= ->]|by intros (_ & _ & ->)]. }
  cbn [check_gates]. injection Hl as Hl. split.
  - intros Hc. apply bind_Ok in Hc as ([] & Hg%check_Ok%differs_false & Hc).
    apply bind_Ok in Hc as ([] & Hv & Hc). apply IH in Hc as (<- & Hf & ->); [|done].
    cbn [fmap list_fmap forallb]. rewrite Hg, andb_assoc. split_and!; [done|by constructor|done].
  - intros ([= <- <-] & [Hv Hf]%Forall_cons & ->). 
    cbn [forallb]. rewrite andb_assoc. apply bind_Ok. exists tt. split; [by apply check_Ok, bool_decide_neq_false|].
    apply bind_Ok. exists tt. split; [exact Hv|]. by apply IH.
Qed.

(** Among these references a name and a URI each lead to one artifact. *)
Definition coherent (refs : list LocatedArtifactRef) : Prop :=
  ∀ r s, r ∈ refs → s ∈ refs →
    ar_Name (la_Artifact r) = ar_Name (la_Artifact s) ∨ la_URI r = la_URI s → r = s.

(** What the maps hold of the references gone through. *)
Definition indexes (done : list LocatedArtifactRef) (key : LocatedArtifactRef → list Z)
    (m : gmap (list Z) LocatedArtifactRef) : Prop :=
  (∀ r, r ∈ done → m !! key r = Some r) ∧ ∀ k r, m !! k = Some r → r ∈ done ∧ key r = k.

Lemma indexes_insert done key m r : indexes done key m → conflicts m (key r) r = false →
  indexes (r :: done) key (<[key r := r]> m).
Proof.
  intros [Hm Hd] Hc. split.
  - intros s [->|Hs]%elem_of_cons; [by rewrite lookup_insert_eq|].
    destruct (decide (key s = key r)) as [E|E].
    + rewrite E, lookup_insert_eq. unfold conflicts in Hc. rewrite <- E, (Hm s Hs) in Hc.
      apply (proj1 (bool_decide_neq_false _ _)) in Hc. by subst.
    + rewrite lookup_insert_ne by done. by apply Hm.
  - intros k s. destruct (decide (key r = k)) as [<-|E].
    + rewrite lookup_insert_eq. intros [= <-]. split; [left|done].
    + rewrite lookup_insert_ne by done. intros Hs. apply Hd in Hs as [? ?]. split; [by right|done].
Qed.

Lemma indexes_conflicts done key m r : indexes done key m →
  conflicts m (key r) r = false ↔ ∀ s, s ∈ done → key s = key r → s = r.
Proof.
  intros [Hm Hd]. unfold conflicts. split.
  - intros Hc s Hs E. rewrite <- E, (Hm s Hs) in Hc. by apply (proj1 (bool_decide_neq_false _ _)) in Hc.
  - intros Hs. destruct (m !! key r) as [s|] eqn:Es; [|done]. apply Hd in Es as [? ?].
    apply bool_decide_neq_false. by apply Hs.
Qed.

Lemma coherent_from_Ok refs done byName byURI :
  indexes done (λ r, ar_Name (la_Artifact r)) byName → indexes done la_URI byURI → coherent done →
  coherent_from byName byURI refs = Ok tt ↔ coherent (rev refs ++ done).
Proof.
  revert done byName byURI. induction refs as [|r refs IH]; intros done byName byURI Hn Hu Hd; [by cbn|].
  cbn [coherent_from rev]. rewrite <- app_assoc. cbn [app]. rewrite !bind_unit, !check_tt. split.
  - intros (Cn & Cu & Hc).
    pose proof (proj1 (indexes_conflicts _ _ _ r Hn) Cn) as Cn'.
    pose proof (proj1 (indexes_conflicts _ _ _ r Hu) Cu) as Cu'.
    apply (IH (r :: done)) in Hc; [done|by apply (indexes_insert _ (λ r, ar_Name (la_Artifact r)))|by apply indexes_insert|].
    intros s t [->|Hs]%elem_of_cons [->|Ht]%elem_of_cons E; [done|..].
    + symmetry. destruct E; [by apply Cn'|by apply Cu'].
    + destruct E; [by apply Cn'|by apply Cu'].
    + by apply Hd.
  - intros Hc. assert (coherent (r :: done)) as Hr.
    { intros s t Hs Ht. apply Hc; apply elem_of_app; by right. }
    assert (conflicts byName (ar_Name (la_Artifact r)) r = false) as Cn
      by (apply (indexes_conflicts _ _ _ r Hn); intros s Hs E; apply Hr; [by right|by left|by left]).
    assert (conflicts byURI (la_URI r) r = false) as Cu
      by (apply (indexes_conflicts _ _ _ r Hu); intros s Hs E; apply Hr; [by right|by left|by right]).
    split_and!; [done..|]. apply (IH (r :: done)); [by apply (indexes_insert _ (λ r, ar_Name (la_Artifact r)))|by apply indexes_insert|done|done].
Qed.

Lemma coherent_from_empty refs : coherent_from ∅ ∅ refs = Ok tt ↔ coherent refs.
Proof.
  rewrite (coherent_from_Ok refs []).
  - rewrite app_nil_r. unfold coherent. by setoid_rewrite elem_of_rev.
  - split; [by intros r Hr%not_elem_of_nil|by intros k r Hr].
  - split; [by intros r Hr%not_elem_of_nil|by intros k r Hr].
  - by intros r s Hr%not_elem_of_nil.
Qed.

(** The index by URI of coherent references. *)
Lemma index_uris refs seen m : indexes seen la_URI m → coherent (refs ++ seen) →
  indexes (rev refs ++ seen) la_URI (foldl (λ m ref, <[la_URI ref := ref]> m) m refs).
Proof.
  revert seen m. induction refs as [|r refs IH]; intros seen m Hm Hc; [done|].
  cbn [foldl rev]. rewrite <- app_assoc. apply IH.
  - apply indexes_insert; [exact Hm|]. apply (indexes_conflicts _ _ _ _ Hm). intros s Hs E.
    apply Hc; [|left|by right]. apply elem_of_app. by right.
  - intros s t Hs Ht. apply Hc; [clear Ht|clear Hs]; set_solver.
Qed.

Lemma uniqueLocatedArtifacts_Ok `{MapOrder} d refs : allLocatedArtifacts d = Ok refs → coherent refs →
  ∃ arts, uniqueLocatedArtifacts d = Ok arts ∧ ∀ r, r ∈ arts ↔ r ∈ refs.
Proof.
  intros Hr Hc. unfold uniqueLocatedArtifacts. rewrite Hr. cbn [mbind result_bind].
  eexists. split; [reflexivity|]. intros r. rewrite merge_sort_Permutation, list_elem_of_fmap.
  assert (indexes (rev refs ++ []) la_URI (foldl (λ m ref, <[la_URI ref := ref]> m) ∅ refs)) as [Hm Hd].
  { apply index_uris; [|by rewrite app_nil_r]. split; [by intros x Hx%not_elem_of_nil|by intros k x Hx]. }
  rewrite app_nil_r in Hm, Hd. split.
  - intros ([k s] & -> & Hks). rewrite map_order_perm in Hks. apply elem_of_map_to_list in Hks.
    apply Hd in Hks as [Hin _]. exact (proj1 (elem_of_rev _ _) Hin).
  - intros Hin. exists (la_URI r, r). split; [done|]. rewrite map_order_perm. apply elem_of_map_to_list, Hm.
    exact (proj2 (elem_of_rev _ _) Hin).
Qed.

Lemma each_ordered_Forall {A} (key : A → list Z) validate message previous l :
  each_ordered key validate message previous l = Ok tt → Forall (λ x, validate x = Ok tt) l.
Proof.
  revert previous. induction l as [|x l IH]; intros previous; [constructor|]. cbn [each_ordered].
  rewrite !bind_unit. intros (Hx & _ & Hl). constructor; [exact Hx|]. by apply IH in Hl.
Qed.

Lemma string_ltb_irrefl s : string_ltb s s = false.
Proof. induction s as [|c s IH]; [done|]. cbn. by rewrite Z.ltb_irrefl, Z.eqb_refl. Qed.

Lemma each_ordered_pair {A} (key : A → list Z) validate message previous a b :
  each_ordered key validate message previous [a; b] = Ok tt → key a ≠ key b.
Proof.
  cbn [each_ordered]. rewrite !bind_unit, !check_tt. intros (_ & _ & _ & Hc & _) E.
  unfold string_leb in Hc. by rewrite E, string_ltb_irrefl in Hc.
Qed.

Lemma slice_two {A} (s : option (list A)) : slice_len s = 2%nat →
  ∃ a b, s = Some [a; b] ∧ index_slice s 0 = Ok a ∧ index_slice s 1 = Ok b.
Proof. destruct s as [[|a [|b [|]]]|]; try done. intros _. by exists a, b. Qed.

(** The parts of a valid decision. *)
Section valid.
Context `{URLParser, MapOrder}.
Notation located r := (LocatedArtifactRef_Validate r = Ok tt).

Lemma SignedLocatedArtifact_Validate_Ok s : SignedLocatedArtifact_Validate s = Ok tt →
  located (sl_Record s) ∧ located (sl_Signature s) ∧ sl_Record s ≠ sl_Signature s.
Proof.
  unfold SignedLocatedArtifact_Validate. rewrite !bind_unit, !within_tt, check_tt, bool_decide_eq_false. done.
Qed.

Lemma SignedReleaseEvidence_Validate_Ok r : SignedReleaseEvidence_Validate r = Ok tt →
  Forall (λ ref, located ref)
    ([re_Manifest r; re_ManifestSignature r; re_ManifestPublicKey r; sl_Record (re_Candidate r);
      sl_Signature (re_Candidate r); re_FinalTranscript r] ++ default [] (re_Artifacts r)).
Proof.
  unfold SignedReleaseEvidence_Validate. intros Hv.
  apply bind_Ok in Hv as ([] & _ & Hv). apply bind_Ok in Hv as (expected & _ & Hv).
  rewrite !bind_unit in Hv. destruct Hv as (_ & _ & Hm & Hc & _ & Ha).
  apply within_tt, SignedLocatedArtifact_Validate_Ok in Hc as (Hr & Hs & _).
  apply each_ordered_Forall in Ha. unfold each in Hm.
  assert (Forall (λ p, located p.2) [("manifest", re_Manifest r); ("manifest_signature", re_ManifestSignature r);
      ("manifest_public_key", re_ManifestPublicKey r); ("final_transcript", re_FinalTranscript r)]) as Hmap.
  { rewrite <- (map_order_perm _). apply Forall_lookup. intros k [label ref] Hk.
    rewrite each_from_Ok in Hm. apply Hm in Hk. by apply within_tt in Hk. }
  rewrite !Forall_cons in Hmap. destruct Hmap as (? & ? & ? & ? & _).
  cbn [app]. repeat (apply Forall_cons; split; [assumption|]).
  eapply Forall_impl; [exact Ha|]. intros ref Href. by apply within_tt in Href.
Qed.

Lemma gate_evidence g : ProductionGateResult_Validate g = Ok tt →
  Forall (λ ref, located ref) (default [] (pg_Evidence g)) ∧
  (pg_Status g = GatePASS → default [] (pg_Evidence g) ≠ []).
Proof.
  unfold ProductionGateResult_Validate. rewrite !bind_unit. intros (Hs & _ & He & _). split.
  - apply each_ordered_Forall in He. eapply Forall_impl; [exact He|]. intros ref Href. by apply within_tt in Href.
  - intros Hp. rewrite bool_decide_true in Hs by done. apply check_tt, Nat.eqb_neq in Hs.
    unfold slice_len in Hs. by destruct (default [] (pg_Evidence g)).
Qed.

(** The parts of a decision's validation the properties below need. *)
Record decision_parts (d : ProductionDecision) : Prop := {
  dp_schema : pd_Schema d = ProductionDecisionSchema;
  dp_id : computeProductionDecisionID d = Ok (pd_DecisionID d);
  dp_audits : ∃ a0 a1, pd_Audits d = Some [a0; a1] ∧ pa_AuditorID a0 ≠ pa_AuditorID a1 ∧
    ProductionAuditEvidence_Validate a0 = Ok tt ∧ ProductionAuditEvidence_Validate a1 = Ok tt;
  dp_externals : ∃ e0 e1, pd_ExternalAudits d = Some [e0; e1] ∧
    ExternalAuditEvidence_Validate e0 = Ok tt ∧ ExternalAuditEvidence_Validate e1 = Ok tt;
  dp_release : SignedReleaseEvidence_Validate (pd_Release d) = Ok tt;
  dp_source : SourceReleaseEvidence_Validate (pd_SourceRelease d) = Ok tt;
  dp_operational : SignedLocatedArtifact_Validate (pd_OperationalEvidence d) = Ok tt;
  dp_rehearsal : K21RehearsalEvidence_Validate (pd_K21Rehearsal d) = Ok tt;
  dp_plan : located (pd_MainnetDeploymentPlan d);
  dp_checklist : located (pd_FormalChecklist d);
  dp_gates : pg_Gate <$> default [] (pd_Gates d) = requiredProductionGates;
  dp_gates_valid : Forall (λ g, ProductionGateResult_Validate g = Ok tt) (default [] (pd_Gates d));
  dp_decision : let allPass := forallb (λ g, bool_decide (pg_Status g = GatePASS)) (default [] (pd_Gates d)) in
    pd_Decision d = DecisionGO ∧ allPass = true ∨ pd_Decision d = DecisionNOGO ∧ allPass = false;
  dp_coherence : validateLocatedArtifactCoherence d = Ok tt }.

Lemma ProductionDecision_Validate_parts d : ProductionDecision_Validate d = Ok tt → decision_parts d.
Proof.
  unfold ProductionDecision_Validate. intros Hv.
  apply bind_Ok in Hv as ([] & Hsch%check_tt%differs_false & Hv). apply bind_Ok in Hv as ([] & _ & Hv).
  apply bind_Ok in Hv as (expected & Hid & Hv). apply bind_Ok in Hv as ([] & Hexp%check_tt%differs_false & Hv).
  rewrite <- Hexp in Hid. clear Hexp expected.
  apply bind_Ok in Hv as ([] & _ & Hv). apply bind_Ok in Hv as ([] & Hrel%within_tt & Hv).
  apply bind_Ok in Hv as ([] & Hsrc%within_tt & Hv). apply bind_Ok in Hv as ([] & Hop%within_tt & Hv).
  apply bind_Ok in Hv as ([] & Hn%check_tt%negb_false_iff%Nat.eqb_eq & Hv).
  apply slice_two in Hn as (a0 & a1 & Ea & Ea0 & Ea1). apply bind_Ok in Hv as ([] & Hau & Hv).
  rewrite Ea0, Ea1 in Hv. cbn [mbind result_bind] in Hv. apply bind_Ok in Hv as ([] & _ & Hv).
  apply bind_Ok in Hv as ([] & Hn%check_tt%negb_false_iff%Nat.eqb_eq & Hv).
  apply slice_two in Hn as (e0 & e1 & Ee & Ee0 & Ee1). apply bind_Ok in Hv as ([] & Hex & Hv).
  rewrite Ee0, Ee1 in Hv. cbn [mbind result_bind] in Hv. apply bind_Ok in Hv as ([] & _ & Hv).
  apply bind_Ok in Hv as ([] & Hreh & Hv). apply bind_Ok in Hv as ([] & Hplan%within_tt & Hv).
  apply bind_Ok in Hv as ([] & Hchk%within_tt & Hv). apply bind_Ok in Hv as ([] & _ & Hv).
  apply bind_Ok in Hv as ([] & Hng%check_tt%negb_false_iff%Nat.eqb_eq & Hv).
  apply bind_Ok in Hv as (allPass & (Hg & Hgv & ->)%check_gates_Ok & Hv); [|exact Hng].
  apply bind_Ok in Hv as ([] & Hdec & Hv). apply bind_Ok in Hv as ([] & _ & Hcoh).
  rewrite Ea in Hau. cbn [default id] in Hau. pose proof (each_ordered_pair _ _ _ _ _ _ Hau) as Hne.
  apply each_ordered_Forall in Hau. rewrite !Forall_cons in Hau. destruct Hau as (Hau0%within_tt & Hau1%within_tt & _).
  rewrite Ee in Hex. apply each_ordered_Forall in Hex. cbn [default id] in Hex. rewrite !Forall_cons in Hex.
  destruct Hex as (Hex0%within_tt & Hex1%within_tt & _).
  split; try assumption; [by exists a0, a1|by exists e0, e1|].
  cbn [andb] in Hdec |- *. destruct (bool_decide (pd_Decision d = DecisionGO)) eqn:Ego.
  - apply bool_decide_eq_true in Ego. apply check_tt, negb_false_iff in Hdec. by left.
  - destruct (bool_decide (pd_Decision d = DecisionNOGO)) eqn:Eno; [|done].
    apply bool_decide_eq_true in Eno. apply check_tt in Hdec. by right.
Qed.

(** All the evidence, gate evidence included, went through its checks. *)
Lemma allLocatedArtifacts_valid d : decision_parts d → ∃ refs, allLocatedArtifacts d = Ok refs ∧
  Forall (λ ref, located ref) refs ∧
  ∀ g ref, g ∈ default [] (pd_Gates d) → ref ∈ default [] (pg_Evidence g) → ref ∈ refs.
Proof.
  intros Hp. destruct (dp_audits d Hp) as (a0 & a1 & Ea & _ & Ha0 & Ha1).
  destruct (dp_externals d Hp) as (e0 & e1 & Ee & He0 & He1).
  unfold allLocatedArtifacts. rewrite Ea, Ee. cbn [index_slice default id lookup list_lookup mbind result_bind].
  eexists. split; [reflexivity|]. split.
  - pose proof (SignedReleaseEvidence_Validate_Ok _ (dp_release d Hp)) as Hr.
    pose proof (dp_source d Hp) as Hs. unfold SourceReleaseEvidence_Validate in Hs.
    pose proof (dp_rehearsal d Hp) as Hk. unfold K21RehearsalEvidence_Validate in Hk.
    pose proof (SignedLocatedArtifact_Validate_Ok _ (dp_operational d Hp)) as (Ho1 & Ho2 & _).
    unfold ProductionAuditEvidence_Validate in Ha0, Ha1. unfold ExternalAuditEvidence_Validate in He0, He1.
    rewrite !bind_unit in Hs. rewrite !bind_unit in Hk. rewrite !bind_unit in Ha0. rewrite !bind_unit in Ha1.
    rewrite !bind_unit, !within_tt in He0. rewrite !bind_unit, !within_tt in He1.
    destruct Ha0 as (_ & _ & (? & ? & _)%SignedLocatedArtifact_Validate_Ok).
    destruct Ha1 as (_ & _ & (? & ? & _)%SignedLocatedArtifact_Validate_Ok).
    pose proof (dp_plan d Hp). pose proof (dp_checklist d Hp).
    rewrite Forall_app, !Forall_cons in Hr. destruct Hr as ((? & ? & ? & ? & ? & ? & _) & ?).
    rewrite !Forall_app. split_and!.
    + repeat (apply Forall_cons; split; [tauto|]). constructor.
    + done.
    + cbn. repeat (apply Forall_cons; split; [tauto|]). constructor.
    + pose proof (dp_gates_valid d Hp) as Hg. apply List.Forall_concat, Forall_fmap.
      eapply Forall_impl; [exact Hg|]. intros g Hgv. by apply gate_evidence in Hgv as [? _].
  - intros g ref Hg Href. rewrite !elem_of_app. right. right. right.
    apply list_elem_of_In, in_concat. exists (default [] (pg_Evidence g)).
    split; apply list_elem_of_In; [|done]. apply list_elem_of_fmap. by exists g.
Qed.

(** The evidence a decision names, part by part. *)
Inductive names_evidence (d : ProductionDecision) : LocatedArtifactRef → Prop :=
| names_manifest : names_evidence d (re_Manifest (pd_Release d))
| names_manifest_signature : names_evidence d (re_ManifestSignature (pd_Release d))
| names_manifest_public_key : names_evidence d (re_ManifestPublicKey (pd_Release d))
| names_candidate : names_evidence d (sl_Record (re_Candidate (pd_Release d)))
| names_candidate_signature : names_evidence d (sl_Signature (re_Candidate (pd_Release d)))
| names_final_transcript : names_evidence d (re_FinalTranscript (pd_Release d))
| names_release_artifact ref : ref ∈ default [] (re_Artifacts (pd_Release d)) → names_evidence d ref
| names_source_tag : names_evidence d (sr_SignedTagObject (pd_SourceRelease d))
| names_operational : names_evidence d (sl_Record (pd_OperationalEvidence d))
| names_operational_signature : names_evidence d (sl_Signature (pd_OperationalEvidence d))
| names_audit audit : audit ∈ default [] (pd_Audits d) → names_evidence d (sl_Record (pa_Audit audit))
| names_audit_signature audit : audit ∈ default [] (pd_Audits d) →
    names_evidence d (sl_Signature (pa_Audit audit))
| names_report external : external ∈ default [] (pd_ExternalAudits d) → names_evidence d (ea_Report external)
| names_signoff external : external ∈ default [] (pd_ExternalAudits d) → names_evidence d (ea_Signoff external)
| names_rehearsal : names_evidence d (kr_Evidence (pd_K21Rehearsal d))
| names_plan : names_evidence d (pd_MainnetDeploymentPlan d)
| names_checklist : names_evidence d (pd_FormalChecklist d)
| names_gate_evidence gate ref : gate ∈ default [] (pd_Gates d) → ref ∈ default [] (pg_Evidence gate) →
    names_evidence d ref.

Lemma elem_of_concat_fmap {A B} (f : A → list B) l y : y ∈ concat (f <$> l) ↔ ∃ x, x ∈ l ∧ y ∈ f x.
Proof.
  rewrite list_elem_of_In, in_concat. split.
  - intros (m & (x & -> & Hx)%list_elem_of_In%list_elem_of_fmap & Hy%list_elem_of_In). by exists x.
  - intros (x & Hx & Hy). exists (f x). split; apply list_elem_of_In; [|done]. apply list_elem_of_fmap. by exists x.
Qed.

(** The code's list of references has all of them and no others. *)
Lemma allLocatedArtifacts_names d refs : decision_parts d → allLocatedArtifacts d = Ok refs →
  ∀ ref, ref ∈ refs ↔ names_evidence d ref.
Proof.
  intros Hp. destruct (dp_audits d Hp) as (a0 & a1 & Ea & _). unfold allLocatedArtifacts.
  rewrite Ea. cbn [index_slice default id lookup list_lookup mbind result_bind]. intros <-%Ok_inj ref.
  rewrite !elem_of_app, !elem_of_concat_fmap. split.
  - assert (a0 ∈ default [] (pd_Audits d) ∧ a1 ∈ default [] (pd_Audits d)) as [? ?].
    { rewrite Ea. split; [left|right; left]. }
    rewrite !elem_of_cons, elem_of_nil. intros [Hf|[Hr|[(x & Hx & Hf)|(g & Hg & Hf)]]].
    + destruct_or! Hf; first [done|subst ref; by constructor].
    + by constructor.
    + rewrite !elem_of_cons, elem_of_nil in Hf. destruct_or! Hf; first [done|subst ref; by constructor].
    + by eapply names_gate_evidence.
  - assert (∀ x, x ∈ default [] (pd_Audits d) → x = a0 ∨ x = a1) as Hau.
    { intros x. rewrite Ea. cbn [default id]. rewrite !elem_of_cons, elem_of_nil. tauto. }
    rewrite !elem_of_cons.
    intros [| | | | | |r Hr| | | |a [->| ->]%Hau|a [->| ->]%Hau|x Hx|x Hx| | | |g r Hg Hr]; try tauto;
      right; right; [left|left|right].
    + exists x. split; [exact Hx|left].
    + exists x. split; [exact Hx|right; left].
    + by exists g.
Qed.

(** C22 A valid decision reports on exactly the required gates, says GO if and only if all of
    them passed with evidence, and pins all its evidence - every reference valid, one
    artifact per name and per URI. *)
Theorem decision_states_gates d : ProductionDecision_Validate d = Ok tt →
  let gates := default [] (pd_Gates d) in
  pg_Gate <$> gates = requiredProductionGates ∧
  (pd_Decision d = DecisionGO ∧
     Forall (λ g, pg_Status g = GatePASS ∧ default [] (pg_Evidence g) ≠ []) gates ∨
   pd_Decision d = DecisionNOGO ∧ Exists (λ g, pg_Status g ≠ GatePASS) gates) ∧
  ∃ refs, allLocatedArtifacts d = Ok refs ∧ coherent refs ∧ Forall (λ ref, located ref) refs ∧
    (∀ g ref, g ∈ gates → ref ∈ default [] (pg_Evidence g) → ref ∈ refs).
Proof.
  intros Hp%ProductionDecision_Validate_parts gates. split; [apply dp_gates, Hp|]. split.
  - destruct (dp_decision d Hp) as [[Hd Ha]|[Hd Ha]]; [left|right]; (split; [exact Hd|]).
    + rewrite forallb_forall in Ha. pose proof (dp_gates_valid d Hp) as Hv. rewrite Forall_forall in Hv |- *.
      intros g Hg. assert (pg_Status g = GatePASS) as Hs by by apply (bool_decide_eq_true_1 _), Ha, list_elem_of_In.
      split; [exact Hs|]. by apply gate_evidence in Hs; [|apply Hv].
    + apply not_true_iff_false in Ha.
      apply not_Forall_Exists; [intros g; apply _|]. intros Hall. apply Ha, forallb_forall.
      intros g Hg%list_elem_of_In. rewrite Forall_forall in Hall. by apply bool_decide_eq_true, Hall.
  - pose proof (dp_coherence d Hp) as Hc. unfold validateLocatedArtifactCoherence in Hc.
    apply bind_Ok in Hc as (refs & Hr & Hc%coherent_from_empty). exists refs. split; [exact Hr|]. split; [exact Hc|].
    destruct (allLocatedArtifacts_valid d Hp) as (refs' & Hr' & Hv). by replace refs' with refs in Hv by congruence.
Qed.
End valid.

(** * Accepting a signed production decision: correctness

    [VerifyProductionDecision] accepts a GO decision exactly when its evidence verifies
    and the signatures supplied are those of the four accountable roles, each once, over
    the decision's bytes; what the signers' own command produces is accepted. *)

(** ** Signatures one by one *)

Lemma identityPublicKey_size identity pk : identityPublicKey identity = Ok pk → length pk = PublicKeySize.
Proof.
  unfold identityPublicKey, DecodePublicKeyHex. intros Hp. apply bind_Ok in Hp as (raw & Hr & Hp).
  apply bind_Ok in Hp as ([] & _ & [= <-]). destruct (hex_DecodeString _) as [bs|]; [|done].
  apply bind_Ok in Hr as ([] & Hl%check_tt%negb_false_iff%Nat.eqb_eq & [= <-]). done.
Qed.

Section signatures.
Context (definition : CeremonyDefinition) (decision : ProductionDecision) (decisionBytes : list Z).
Context (nonempty : decisionBytes ≠ []).

(** [raw] is a signature of the decision's bytes by the identity that has [role] and [id]
    in this ceremony, under that identity's key. *)
Definition signed_by (role id raw : list Z) : Prop :=
  ∃ identity publicKey sig,
    decisionSignerIdentity definition decision role id = Ok identity ∧
    identityPublicKey identity = Ok publicKey ∧
    length sig = SignatureSize ∧ Forall is_byte sig ∧ Verify publicKey decisionBytes sig = true ∧
    let s := {| ps_Schema := ProductionDecisionSignatureSchema; ps_Role := role; ps_SignerID := id;
                ps_Signature := signature_record decisionBytes (id_KeyID identity) publicKey sig |} in
    ProductionDecisionSignature_Validate s = Ok tt ∧
    raw = marshal (enc ProductionDecisionSignature_codec s).

Lemma ProductionDecisionSignature_rep s : ProductionDecisionSignature_Validate s = Ok tt →
  rep ProductionDecisionSignature_codec s = true.
Proof.
  unfold ProductionDecisionSignature_Validate. rewrite !bind_unit. intros (Hs & Hr & Hi & Hd).
  apply check_tt, differs_false in Hs. apply check_tt in Hr. unfold differs in Hr.
  rep_fields.
  - rewrite Hs. reflexivity.
  - destruct (decide (ps_Role s = DecisionSignerCoordinator)) as [->|]; [reflexivity|].
    destruct (decide (ps_Role s = DecisionSignerAuditor)) as [->|]; [reflexivity|].
    destruct (decide (ps_Role s = DecisionSignerRelease)) as [->|]; [reflexivity|].
    exfalso. revert Hr. by rewrite !bool_decide_true by done.
  - eapply validateID_utf8, Hi.
  - by apply DetachedSignature_rep.
Qed.

Lemma verify_signature_Ok seen raw key :
  verify_signature definition decision decisionBytes seen raw = Ok key ↔
  key ∉ seen ∧ ∃ role id, key = signer_key role id ∧ signed_by role id raw.
Proof.
  unfold verify_signature. split.
  - intros Hv. apply bind_Ok in Hv as (s & (Hs & _ & ->)%within_Ok%UnmarshalCanonical_Ok & Hv).
    apply bind_Ok in Hv as (identity & Hi%within_Ok & Hv). apply bind_Ok in Hv as ([] & Hk%check_tt & Hv).
    apply bind_Ok in Hv as (pk & Hp & Hv). apply bind_Ok in Hv as ([] & Hx%within_Ok & [= <-]).
    apply bool_decide_eq_false in Hk. split; [exact Hk|]. exists (ps_Role s), (ps_SignerID s). split; [done|].
    apply VerifyExact_Ok in Hx as (_ & _ & _ & sig & Hsl & Hsb & Hv & Esig).
    exists identity, pk, sig. do 5 (split; [assumption|]).
    assert (s = {| ps_Schema := ProductionDecisionSignatureSchema; ps_Role := ps_Role s;
      ps_SignerID := ps_SignerID s; ps_Signature := signature_record decisionBytes (id_KeyID identity) pk sig |}) as <-.
    { unfold ProductionDecisionSignature_Validate in Hs. rewrite !bind_unit in Hs.
      destruct Hs as (Hsch%check_tt%differs_false & _). destruct s; cbn in *; by subst. }
    by split.
  - intros (Hk & role & id & -> & identity & pk & sig & Hi & Hp & Hsl & Hsb & Hv & Hs & ->).
    set (s := {| ps_Schema := _; ps_Role := role; ps_SignerID := id; ps_Signature := _ |}) in *.
    apply bind_Ok. exists s. split.
    { apply within_Ok, UnmarshalCanonical_Ok. split_and!; [done|by apply ProductionDecisionSignature_rep|done]. }
    apply bind_Ok. exists identity. split; [by apply within_Ok|].
    apply bind_Ok. exists tt. split; [by apply check_tt, bool_decide_eq_false|].
    apply bind_Ok. exists pk. split; [exact Hp|]. apply bind_Ok. exists tt. split; [|done].
    apply within_Ok, VerifyExact_Ok. split; [exact nonempty|].
    split; [by eapply identityPublicKey_size|]. split; [|by exists sig].
    unfold ProductionDecisionSignature_Validate in Hs. rewrite !bind_unit in Hs.
    destruct Hs as (_ & _ & _ & Hd). unfold DetachedSignature_Validate in Hd. rewrite !bind_unit in Hd. apply Hd.
Qed.

(** ** The list of signatures *)

Definition signatures_of (keys : list (list Z)) (raws : list (list Z)) : Prop :=
  Forall2 (λ key raw, ∃ role id, key = signer_key role id ∧ signed_by role id raw) keys raws.

Lemma verify_signatures_Ok raws : ∀ seen verified seen' verified',
  verify_signatures definition decision decisionBytes seen verified raws = Ok (seen', verified') ↔
  ∃ keys, signatures_of keys raws ∧ NoDup keys ∧ (∀ k, k ∈ keys → k ∉ seen) ∧
    verified' = verified ++ keys ∧ seen' = list_to_set keys ∪ seen.
Proof.
  induction raws as [|raw raws IH]; intros seen verified seen' verified'; cbn [verify_signatures].
  - split.
    + intros [= <- <-]. exists []. split; [constructor|]. split; [constructor|].
      split; [by intros k Hk%not_elem_of_nil|]. rewrite app_nil_r. split; [done|]. cbn. by rewrite (left_id_L ∅ (∪)).
    + intros (keys & Hf & _ & _ & -> & ->). apply Forall2_nil_inv_r in Hf as ->.
      rewrite app_nil_r. cbn. by rewrite (left_id_L ∅ (∪)).
  - split.
    + intros Hv. apply bind_Ok in Hv as (key & [Hn Hk]%verify_signature_Ok & Hv).
      apply IH in Hv as (keys & Hf & Hd & Hs & -> & ->). exists (key :: keys).
      split; [by constructor|]. split; [constructor; [|done]; intros Hin; by apply Hs in Hin; set_solver|].
      split; [intros k [->|Hin]%elem_of_cons; [done|]; apply Hs in Hin; set_solver|].
      split; [by rewrite <- app_assoc|]. cbn [list_to_set]. set_solver.
    + intros (keys & Hf & Hd & Hs & -> & ->). apply Forall2_cons_inv_r in Hf as (key & keys' & Hk & Hf & ->).
      apply NoDup_cons in Hd as [Hn Hd]. apply bind_Ok. exists key. split.
      { apply verify_signature_Ok. split; [apply Hs; left|exact Hk]. }
      apply IH. exists keys'. split; [done|]. split; [done|].
      split; [intros k Hin; assert (k ∉ seen) by (apply Hs; by right); set_solver|].
      split; [by rewrite <- app_assoc|]. cbn [list_to_set]. set_solver.
Qed.
End signatures.

(** ** The threshold *)

Lemma signer_key_inj r1 i1 r2 i2 : 0 ∉ r1 → 0 ∉ r2 → signer_key r1 i1 = signer_key r2 i2 → r1 = r2 ∧ i1 = i2.
Proof.
  unfold signer_key. cbn [app]. intros H1 H2 He.
  assert (Cut (r1 ++ 0 :: i1) [0] = Some (r1, i1)) as C1 by by apply Cut_byte.
  rewrite He in C1. assert (Cut (r2 ++ 0 :: i2) [0] = Some (r2, i2)) as C2 by by apply Cut_byte.
  rewrite C2 in C1. by injection C1 as -> ->.
Qed.

Lemma roles_no_nul : Forall (λ r, 0 ∉ r) [DecisionSignerCoordinator; DecisionSignerAuditor; DecisionSignerRelease].
Proof. apply (bool_decide_eq_true_1 _). vm_compute. reflexivity. Qed.

Lemma requiredDecisionSigners_Ok definition decision a0 a1 : pd_Audits decision = Some [a0; a1] →
  pa_AuditorID a0 ≠ pa_AuditorID a1 →
  ∃ required, requiredDecisionSigners definition decision = Ok required ∧ NoDup required ∧ length required = 4%nat.
Proof.
  intros Ha Hne. unfold requiredDecisionSigners. rewrite Ha. cbn [index_slice default id lookup list_lookup mbind result_bind].
  eexists. split; [reflexivity|]. split; [|done].
  pose proof roles_no_nul as Hr. rewrite !Forall_cons in Hr. destruct Hr as (Hc & Ha' & Hs & _).
  rewrite !NoDup_cons, !not_elem_of_cons.
  split_and!; try apply NoDup_nil_2; try apply not_elem_of_nil; intros E;
    apply signer_key_inj in E as [E1 E2]; (assumption || done).
Qed.

Section threshold.
Context `{URLParser, MapOrder}.

Lemma check_threshold_Ok definition decision keys : decision_parts decision → NoDup keys →
  check_threshold definition decision (list_to_set keys) = Ok tt ↔
  (pd_Decision decision = DecisionGO →
     ∃ required, requiredDecisionSigners definition decision = Ok required ∧ keys ≡ₚ required).
Proof.
  intros Hp Hd. unfold check_threshold. case_bool_decide as Hgo; [|by split].
  destruct (dp_audits _ Hp) as (a0 & a1 & Ha & Hne & _).
  destruct (requiredDecisionSigners_Ok definition decision a0 a1 Ha Hne) as (required & Hr & Hnd & Hl).
  rewrite Hr. cbn [mbind result_bind]. rewrite bind_unit, check_tt. unfold each. rewrite each_from_Ok.
  rewrite size_list_to_set by done. rewrite negb_false_iff, Nat.eqb_eq. split.
  - intros [Hin Hlen] _. exists required. split; [done|]. symmetry. apply submseteq_length_Permutation; [|lia].
    apply NoDup_submseteq; [done|]. intros k Hk. apply list_elem_of_lookup_1 in Hk as (i & Hi).
    apply Hin, check_tt, bool_decide_eq_false in Hi. destruct (decide (k ∈ keys)) as [|Hn]; [done|].
    exfalso. apply Hi. by rewrite elem_of_list_to_set.
  - intros Hk. destruct (Hk Hgo) as (required' & [= <-] & Hperm). split; [|by rewrite Hperm].
    intros i k Hi. apply check_tt, bool_decide_eq_false. intros Hn. apply Hn. rewrite elem_of_list_to_set, Hperm.
    by apply list_elem_of_lookup_2 in Hi.
Qed.
End threshold.

(** ** Acceptance *)

Section acceptance.
Context `{URLParser, MapOrder, XCryptoBlake2b}.
Context (tree : list Z → option (list Z)).
Context (verifyRelease verifyOperational verifyAudits : CeremonyDefinition → ProductionDecision → checked).
Context (definition : CeremonyDefinition) (decisionBytes : list Z).
Notation evidence_ok :=
  (VerifyProductionDecisionEvidence tree verifyRelease verifyOperational verifyAudits definition decisionBytes).
Notation accepted :=
  (VerifyProductionDecision tree verifyRelease verifyOperational verifyAudits definition decisionBytes).

Lemma resolve_and_read_Ok name data : resolve_and_read tree name = Ok data → tree name = Some data.
Proof.
  unfold resolve_and_read. intros Hr. apply bind_Ok in Hr as ([] & _ & Hr). apply bind_Ok in Hr as ([] & _ & Hr).
  destruct (tree name); [by apply Ok_inj in Hr as ->|done].
Qed.

Lemma decisionArtifactBytes_Ok located maximum data : decisionArtifactBytes tree located maximum = Ok data →
  tree (ar_Name (la_Artifact located)) = Some data.
Proof.
  unfold decisionArtifactBytes, verifyArtifactBytes. intros Hr. apply bind_Ok in Hr as (bytes & Hd & Hr).
  apply bind_Ok in Hr as ([] & _ & Hr). apply bind_Ok in Hr as ([] & _ & <-%Ok_inj). by apply resolve_and_read_Ok.
Qed.

(** What was verified before any signature is looked at. *)
Lemma VerifyProductionDecisionEvidence_Ok e : evidence_ok = Ok e →
  let d := vd_Decision e in
  CeremonyDefinition_Validate definition = Ok tt ∧ ProductionDecision_Validate d = Ok tt ∧
  decisionBytes = marshal (enc ProductionDecision_codec d) ∧
  UnmarshalCanonical ProductionDecision_codec ProductionDecision_Validate decisionBytes = Ok d ∧
  validateProductionDecisionBinding definition d = Ok tt ∧
  (∀ ref, ref ∈ vd_VerifiedArtifacts e → artifactRefForFile tree (ar_Name (la_Artifact ref)) = Ok (la_Artifact ref)) ∧
  uniqueLocatedArtifacts d = Ok (vd_VerifiedArtifacts e) ∧
  verifyDecisionExternalAudits tree d = Ok tt.
Proof.
  unfold VerifyProductionDecisionEvidence. intros Hv. apply bind_Ok in Hv as ([] & Hdef & Hv).
  apply bind_Ok in Hv as (d & Hu%within_Ok & Hv). apply bind_Ok in Hv as ([] & Hb & Hv).
  apply bind_Ok in Hv as (arts & Ha & Hv). apply bind_Ok in Hv as ([] & He & Hv).
  apply bind_Ok in Hv as ([] & _ & Hv). apply bind_Ok in Hv as ([] & _ & Hv).
  apply bind_Ok in Hv as ([] & _ & Hv). apply bind_Ok in Hv as ([] & Hx%within_tt & [= <-]).
  cbn [vd_Decision vd_VerifiedArtifacts]. pose proof Hu as Hu'. apply UnmarshalCanonical_Ok in Hu' as (Hdv & _ & Hbytes).
  split_and!; try assumption. intros ref Hr. apply list_elem_of_lookup_1 in Hr as (i & Hi).
  unfold each in He. rewrite each_from_Ok in He. apply He in Hi.
  apply bind_Ok in Hi as (actual & Hact & Hc%check_tt). apply (proj1 (bool_decide_neq_false _ _)) in Hc as ->. done.
Qed.

Lemma VerifyProductionDecisionEvidence_intro d refs :
  CeremonyDefinition_Validate definition = Ok tt →
  UnmarshalCanonical ProductionDecision_codec ProductionDecision_Validate decisionBytes = Ok d →
  validateProductionDecisionBinding definition d = Ok tt →
  allLocatedArtifacts d = Ok refs → coherent refs →
  (∀ ref, ref ∈ refs → artifactRefForFile tree (ar_Name (la_Artifact ref)) = Ok (la_Artifact ref)) →
  verifyRelease definition d = Ok tt → verifyOperational definition d = Ok tt → verifyAudits definition d = Ok tt →
  verifyDecisionExternalAudits tree d = Ok tt → ∃ e, evidence_ok = Ok e ∧ vd_Decision e = d.
Proof.
  intros Hdef Hu Hb Hr Hc Hf Hrel Hop Hau Hx. unfold VerifyProductionDecisionEvidence.
  destruct (uniqueLocatedArtifacts_Ok d refs Hr Hc) as (arts & Ha & Harts).
  exists {| vd_Decision := d; vd_DecisionDigest := NewDigest decisionBytes; vd_VerifiedSigners := [];
           vd_VerifiedArtifacts := arts |}.
  split; [|reflexivity]. apply bind_Ok. exists tt. split; [exact Hdef|].
  apply bind_Ok. exists d. split; [by apply within_Ok|]. apply bind_Ok. exists tt. split; [exact Hb|].
  apply bind_Ok. exists arts. split; [exact Ha|]. apply bind_Ok. exists tt. split.
  { unfold each. apply each_from_Ok. intros i x Hi%list_elem_of_lookup_2%Harts%Hf. rewrite Hi. cbn [mbind result_bind].
    by apply check_tt, bool_decide_neq_false. }
  do 4 (apply bind_Ok; exists tt; split; [by apply within_tt|]). reflexivity.
Qed.

Lemma VerifyProductionDecision_Ok signatureBytes v : accepted signatureBytes = Ok v ↔
  ∃ e keys, evidence_ok = Ok e ∧
    signatures_of definition (vd_Decision e) decisionBytes keys signatureBytes ∧ NoDup keys ∧ keys ≠ [] ∧
    (pd_Decision (vd_Decision e) = DecisionGO →
      ∃ required, requiredDecisionSigners definition (vd_Decision e) = Ok required ∧ keys ≡ₚ required) ∧
    v = {| vd_Decision := vd_Decision e; vd_DecisionDigest := vd_DecisionDigest e;
           vd_VerifiedSigners := merge_sort string_le keys; vd_VerifiedArtifacts := vd_VerifiedArtifacts e |}.
Proof.
  unfold VerifyProductionDecision. split.
  - intros Hv. apply bind_Ok in Hv as (e & He & Hv).
    pose proof (VerifyProductionDecisionEvidence_Ok e He) as (_ & Hp%ProductionDecision_Validate_parts & Hb & _).
    assert (decisionBytes ≠ []) as Hne by (rewrite Hb; apply marshal_nonempty).
    apply bind_Ok in Hv as ([seen verified] & Hs & Hv). apply verify_signatures_Ok in Hs as (keys & Hf & Hd & _ & -> & ->); [|done].
    cbn [app] in Hv. rewrite (right_id_L ∅ (∪)) in Hv.
    apply bind_Ok in Hv as ([] & Hk%check_tt%bool_decide_eq_false & Hv).
    apply bind_Ok in Hv as ([] & Ht & [= <-]). rewrite (check_threshold_Ok definition _ keys Hp Hd) in Ht.
    exists e, keys. done.
  - intros (e & keys & He & Hf & Hd & Hk & Ht & ->). apply bind_Ok. exists e. split; [done|].
    pose proof (VerifyProductionDecisionEvidence_Ok e He) as (_ & Hp%ProductionDecision_Validate_parts & Hb & _).
    assert (decisionBytes ≠ []) as Hne by (rewrite Hb; apply marshal_nonempty).
    apply bind_Ok. exists (list_to_set keys, keys). split.
    { apply verify_signatures_Ok; [done|]. exists keys. split; [done|]. split; [done|].
      split; [intros k _; apply not_elem_of_empty|]. by rewrite (right_id_L ∅ (∪)). }
    apply bind_Ok. exists tt. split; [by apply check_tt, bool_decide_eq_false|].
    apply bind_Ok. exists tt. split; [by apply (check_threshold_Ok definition _ keys Hp Hd)|done].
Qed.


(** C16 Every artifact the decision names - the release with its manifest, candidate,
    transcript and files, the source tag, the operational evidence, the audits, the
    external reports and signoffs, the rehearsal, the plan, the checklist and the evidence
    of every gate - and nothing else is verified: it is in the evidence tree with exactly
    the size and digests the decision pins.  Each external auditor's signoff in the tree is
    the canonical record of a valid Ed25519 signature of that auditor's report in the tree,
    under that auditor's key and key identifier. *)
Theorem decision_evidence_pinned e : evidence_ok = Ok e →
  let d := vd_Decision e in
  (∀ ref, ref ∈ vd_VerifiedArtifacts e ↔ names_evidence d ref) ∧
  (∀ ref, names_evidence d ref →
     ∃ data, tree (ar_Name (la_Artifact ref)) = Some data ∧ NewDigest data = ar_Digest (la_Artifact ref)) ∧
  ∀ x, x ∈ default [] (pd_ExternalAudits d) →
    ∃ report publicKey sig, tree (ar_Name (la_Artifact (ea_Report x))) = Some report ∧
      identityPublicKey (ea_Auditor x) = Ok publicKey ∧ length sig = SignatureSize ∧ Forall is_byte sig ∧
      Verify publicKey report sig = true ∧
      tree (ar_Name (la_Artifact (ea_Signoff x))) = Some (marshal (enc DetachedSignature_codec
        (signature_record report (id_KeyID (ea_Auditor x)) publicKey sig))).
Proof.
  intros He d. destruct (VerifyProductionDecisionEvidence_Ok e He) as (_ & Hp & _ & _ & _ & Ha & Hu & Hx).
  fold d in Hp, Hu, Hx. apply ProductionDecision_Validate_parts in Hp.
  assert (∀ ref, ref ∈ vd_VerifiedArtifacts e ↔ names_evidence d ref) as Hnames.
  { pose proof (dp_coherence _ Hp) as Hc. unfold validateLocatedArtifactCoherence in Hc.
    apply bind_Ok in Hc as (refs & Hr & Hc%coherent_from_empty). intros ref.
    destruct (uniqueLocatedArtifacts_Ok _ refs Hr Hc) as (arts & Hu' & Hiff).
    assert (arts = vd_VerifiedArtifacts e) as -> by congruence.
    rewrite Hiff. by apply allLocatedArtifacts_names. }
  split; [exact Hnames|]. split.
  - intros ref Hin%Hnames%Ha. unfold artifactRefForFile in Hin. apply bind_Ok in Hin as (data & Hd & Hin).
    apply bind_Ok in Hin as ([] & _ & Hin). apply bind_Ok in Hin as ([] & _ & Hin%Ok_inj).
    exists data. split; [by apply resolve_and_read_Ok|]. by rewrite <- Hin.
  - intros x Hin. apply list_elem_of_lookup_1 in Hin as (i & Hi).
    unfold verifyDecisionExternalAudits, each in Hx. rewrite each_from_Ok in Hx. apply Hx in Hi.
    apply bind_Ok in Hi as (report & Hr%decisionArtifactBytes_Ok & Hi).
    apply bind_Ok in Hi as (signoff & Hso%decisionArtifactBytes_Ok & Hi).
    apply bind_Ok in Hi as (s & (_ & _ & ->)%UnmarshalCanonical_Ok & Hi).
    apply bind_Ok in Hi as (pk & Hpk & Hv%within_tt).
    apply VerifyExact_Ok in Hv as (_ & _ & _ & sig & Hl & Hb & Hv & ->). exists report, pk, sig. by split_and!.
Qed.

(** *** The signers' own command *)

Lemma decisionSignerIdentity_role decision role id identity :
  decisionSignerIdentity definition decision role id = Ok identity →
  role = DecisionSignerCoordinator ∨ role = DecisionSignerAuditor ∨ role = DecisionSignerRelease.
Proof.
  unfold decisionSignerIdentity. intros Hi. apply bind_Ok in Hi as ([] & _ & Hi).
  destruct (bool_decide (role = DecisionSignerCoordinator)) eqn:E1; [left; by apply bool_decide_eq_true in E1|].
  destruct (bool_decide (role = DecisionSignerRelease)) eqn:E2; [right; right; by apply bool_decide_eq_true in E2|].
  destruct (bool_decide (role = DecisionSignerAuditor)) eqn:E3; [right; left; by apply bool_decide_eq_true in E3|].
  discriminate Hi.
Qed.

(** A role's identity with the key pair generated from a seed. *)
Definition holds_key (e : VerifiedProductionDecision) (role id priv : list Z) : Prop :=
  ∃ identity seed, decisionSignerIdentity definition (vd_Decision e) role id = Ok identity ∧
    length seed = 32%nat ∧ NewKeyFromSeed seed = Some priv ∧
    identityPublicKey identity = Ok (public_of_private priv) ∧
    validateID "signature key_id" (id_KeyID identity) = Ok tt ∧ validateID "decision signer_id" id = Ok tt.

Lemma SignProductionDecision_Ok e role id priv : evidence_ok = Ok e → holds_key e role id priv →
  ∃ raw, SignProductionDecision definition decisionBytes role id priv = Ok raw ∧
    signed_by definition (vd_Decision e) decisionBytes role id raw.
Proof.
  intros He (identity & seed & Hi & Hl & Hk & Hpk & Hkid & Hid).
  pose proof (VerifyProductionDecisionEvidence_Ok e He) as (_ & _ & Hb & Hu & _).
  assert (decisionBytes ≠ []) as Hne by (rewrite Hb; apply marshal_nonempty).
  destruct (SignExact_verifies seed priv decisionBytes (id_KeyID identity) Hl Hk Hne Hkid) as (s & Hs & Hx).
  apply VerifyExact_Ok in Hx as (_ & _ & _ & sig & Hsl & Hsb & Hv & ->).
  set (ps := {| ps_Schema := ProductionDecisionSignatureSchema; ps_Role := role; ps_SignerID := id;
    ps_Signature := signature_record decisionBytes (id_KeyID identity) (public_of_private priv) sig |}).
  assert (ProductionDecisionSignature_Validate ps = Ok tt) as Hps.
  { unfold ProductionDecisionSignature_Validate, ps. cbn [ps_Schema ps_Role ps_SignerID ps_Signature].
    rewrite Hid, signature_record_valid by done.
    by apply decisionSignerIdentity_role in Hi as [->|[->| ->]]. }
  exists (marshal (enc ProductionDecisionSignature_codec ps)). split.
  - unfold SignProductionDecision. apply bind_Ok. exists (vd_Decision e). split; [by apply within_Ok|].
    apply bind_Ok. exists identity. split; [done|]. apply bind_Ok. exists (public_of_private priv). split; [done|].
    destruct (key_sizes seed priv Hl Hk) as (Hp & _ & _).
    apply bind_Ok. exists tt. split.
    { apply check_tt, orb_false_iff. split; [by apply negb_false_iff, Nat.eqb_eq|]. by apply differs_false. }
    apply bind_Ok. eexists. split; [exact Hs|]. fold ps. unfold MarshalCanonical. by rewrite Hps.
  - exists identity, (public_of_private priv), sig. split_and!; done.
Qed.

(** C31 When the required signers of a GO decision whose evidence verifies hold their keys,
    each one's signing command succeeds and together, in any order, the signatures they
    produce make the decision accepted. *)
Theorem signed_decision_accepted e required (signers : list (list Z * list Z * list Z)) :
  evidence_ok = Ok e → pd_Decision (vd_Decision e) = DecisionGO →
  requiredDecisionSigners definition (vd_Decision e) = Ok required →
  (λ '(role, id, _), signer_key role id) <$> signers ≡ₚ required →
  Forall (λ '(role, id, priv), holds_key e role id priv) signers →
  ∃ signatureBytes v,
    Forall2 (λ '(role, id, priv) raw, SignProductionDecision definition decisionBytes role id priv = Ok raw)
      signers signatureBytes ∧
    accepted signatureBytes = Ok v ∧ vd_Decision v = vd_Decision e.
Proof.
  intros He Hgo Hreq Hperm Hkeys.
  assert (∃ raws, Forall2 (λ '(role, id, priv) raw, SignProductionDecision definition decisionBytes role id priv = Ok raw)
      signers raws ∧
    signatures_of definition (vd_Decision e) decisionBytes ((λ '(role, id, _), signer_key role id) <$> signers) raws)
    as (raws & Hs & Hf).
  { clear Hperm. induction Hkeys as [|[[role id] priv] signers Hk _ (raws & Hs & Hf)]; [by exists []; split; constructor|].
    destruct (SignProductionDecision_Ok e role id priv He Hk) as (raw & Hraw & Hby).
    exists (raw :: raws). split; constructor; try done. by exists role, id. }
  pose proof (VerifyProductionDecisionEvidence_Ok e He) as (_ & Hp%ProductionDecision_Validate_parts & _).
  destruct (dp_audits _ Hp) as (a0 & a1 & Ha & Hne & _).
  destruct (requiredDecisionSigners_Ok definition _ a0 a1 Ha Hne) as (required' & Hr' & Hnd & Hl).
  assert (required' = required) as -> by congruence.
  eexists raws, _. split; [exact Hs|]. split.
  - apply VerifyProductionDecision_Ok. exists e, ((λ '(role, id, _), signer_key role id) <$> signers).
    split; [done|]. split; [done|]. split; [by rewrite Hperm|].
    split; [intros Hn; rewrite Hn in Hperm; apply Permutation_length in Hperm; by rewrite Hl in Hperm|].
    split; [intros _; by exists required|reflexivity].
  - reflexivity.
Qed.
End acceptance.

(** ** Identifiers *)

Section identifiers.
Context `{URLParser, MapOrder}.

Definition legible_release (r : SignedReleaseEvidence) : Prop := rep SignedReleaseEvidence_codec r = true.
Definition legible_decision (d : ProductionDecision) : Prop := rep ProductionDecision_codec d = true.

Lemma legible_release_set r : legible_release r → legible_release (SignedReleaseEvidence_set_ReleaseID [] r).
Proof.
  intros Hr. apply rep_struct_inv in Hr. repeat (apply rep_field_inv in Hr as [? Hr]).
  unfold legible_release. rep_fields; assumption || reflexivity.
Qed.

Lemma legible_decision_set d : legible_decision d → legible_decision (ProductionDecision_set_DecisionID [] d).
Proof.
  intros Hd. apply rep_struct_inv in Hd. repeat (apply rep_field_inv in Hd as [? Hd]).
  unfold legible_decision. rep_fields; assumption || reflexivity.
Qed.

Lemma SignedReleaseEvidence_addressed :
  content_addressed NewSignedReleaseEvidence SignedReleaseEvidence_Validate re_ReleaseID
    SignedReleaseEvidence_set_ReleaseID (str "proof-tool/mpc-ceremony/signed-release/v1")
    (enc SignedReleaseEvidence_codec) legible_release
    (completed re_ReleaseID SignedReleaseEvidence_set_ReleaseID id).
Proof.
  apply (computed_addressed _ _ computeSignedReleaseID _ _ id).
  - done.
  - by intros [].
  - done.
  - intros r h. unfold computeSignedReleaseID. cbv zeta. by intros ([] & _ & <-%Ok_inj)%bind_Ok.
  - done.
  - intros r. unfold SignedReleaseEvidence_Validate. intros Hv. apply bind_Ok in Hv as ([] & _ & Hv).
    apply bind_Ok in Hv as (expected & Hid & Hv). by apply bind_Ok in Hv as ([] & ->%check_tt%differs_false & _).
  - done.
  - done.
  - intros r Hr. by apply rep_clean, legible_release_set.
  - intros r s Hr Hs. apply enc_inj; by apply legible_release_set.
Qed.

Definition ProductionDecision_set_Schema (v : list Z) (d : ProductionDecision) : ProductionDecision :=
  {| pd_Schema := v; pd_DecisionID := pd_DecisionID d; pd_CeremonyID := pd_CeremonyID d;
     pd_Release := pd_Release d; pd_SourceRelease := pd_SourceRelease d;
     pd_OperationalEvidence := pd_OperationalEvidence d; pd_Audits := pd_Audits d;
     pd_ExternalAudits := pd_ExternalAudits d; pd_K21Rehearsal := pd_K21Rehearsal d;
     pd_MainnetDeploymentPlan := pd_MainnetDeploymentPlan d; pd_FormalChecklist := pd_FormalChecklist d;
     pd_Gates := pd_Gates d; pd_Decision := pd_Decision d; pd_DecidedAt := pd_DecidedAt d |}.

Lemma ProductionDecision_addressed :
  content_addressed NewProductionDecision ProductionDecision_Validate pd_DecisionID
    ProductionDecision_set_DecisionID (str "proof-tool/mpc-ceremony/production-decision/v1")
    (enc ProductionDecision_codec) legible_decision
    (completed pd_DecisionID ProductionDecision_set_DecisionID
       (ProductionDecision_set_Schema ProductionDecisionSchema)).
Proof.
  apply (computed_addressed _ _ computeProductionDecisionID _ _
           (ProductionDecision_set_Schema ProductionDecisionSchema)).
  - done.
  - by intros [].
  - done.
  - intros r h. unfold computeProductionDecisionID. cbv zeta. by intros ([] & _ & <-%Ok_inj)%bind_Ok.
  - done.
  - intros d Hd%ProductionDecision_Validate_parts. apply dp_id, Hd.
  - done.
  - intros d Hd%ProductionDecision_Validate_parts. pose proof (dp_schema d Hd) as Hs. rewrite <- Hs. by destruct d.
  - intros r Hr. by apply rep_clean, legible_decision_set.
  - intros r s Hr Hs. apply enc_inj; by apply legible_decision_set.
Qed.

(** C25 For each of the twelve record types of the ceremony that carry their own hash (the
    definition, both attestations, the chain, close, beacon, seal and audit records, the
    candidate, the transcript, the signed release and the decision), with its own
    constructor, checks and domain: the constructor accepts exactly when the supplied
    fields, completed with the schema and the identifier (for a beacon also the derived
    challenge), form a valid record, and it returns that record; a valid record goes
    through its constructor unchanged; its identifier is the tagged SHA-256 of the type's
    domain, a zero byte and its JSON without the identifier; and two valid legible records
    with one identifier are the same record, or the two strings hashed collide. *)
Theorem records_content_addressed :
  content_addressed FinalizeCeremonyDefinition CeremonyDefinition_Validate cd_CeremonyID CeremonyDefinition_set_CeremonyID
    (str "proof-tool/mpc-ceremony/root/v1") CeremonyDefinition_json utf8_record
    (completed cd_CeremonyID CeremonyDefinition_set_CeremonyID (CeremonyDefinition_set_Schema DefinitionSchema)) ∧
  content_addressed NewErasureAttestation ErasureAttestation_Validate er_ErasureID ErasureAttestation_set_ErasureID
    (str "proof-tool/mpc-ceremony/erasure-attestation/v1") ErasureAttestation_json utf8_record
    (completed er_ErasureID ErasureAttestation_set_ErasureID (ErasureAttestation_set_Schema ErasureAttestationSchema)) ∧
  content_addressed NewContributionAttestation ContributionAttestation_Validate ca_AttestationID ContributionAttestation_set_AttestationID
    (str "proof-tool/mpc-ceremony/contribution-attestation/v1") ContributionAttestation_json utf8_record
    (completed ca_AttestationID ContributionAttestation_set_AttestationID (ContributionAttestation_set_Schema ContributionAttestationSchema)) ∧
  content_addressed NewChainRecord ChainRecord_Validate cr_RecordID ChainRecord_set_RecordID
    (str "proof-tool/mpc-ceremony/acceptance-record/v1") ChainRecord_json utf8_record
    (completed cr_RecordID ChainRecord_set_RecordID (ChainRecord_set_Schema ChainRecordSchema)) ∧
  content_addressed NewCloseRecord CloseRecord_Validate cl_CloseID CloseRecord_set_CloseID
    (str "proof-tool/mpc-ceremony/close-record/v1") CloseRecord_json utf8_record
    (completed cl_CloseID CloseRecord_set_CloseID (CloseRecord_set_Schema CloseRecordSchema)) ∧
  content_addressed NewBeaconRecord BeaconRecord_Validate bc_BeaconID BeaconRecord_set_BeaconID
    (str "proof-tool/mpc-ceremony/beacon-record/v1") BeaconRecord_json utf8_record
    beacon_completes ∧
  content_addressed NewSealRecord SealRecord_Validate MpcClose.sl_SealID SealRecord_set_SealID
    (str "proof-tool/mpc-ceremony/seal-record/v1") SealRecord_json utf8_record
    (completed MpcClose.sl_SealID SealRecord_set_SealID (SealRecord_set_Schema SealRecordSchema)) ∧
  content_addressed NewAuditRecord AuditRecord_Validate au_AuditID AuditRecord_set_AuditID
    (str "proof-tool/mpc-ceremony/audit-record/v1") AuditRecord_json utf8_record
    (completed au_AuditID AuditRecord_set_AuditID (AuditRecord_set_Schema AuditRecordSchema)) ∧
  content_addressed NewCandidateMetadata CandidateMetadata_Validate cm_CandidateID CandidateMetadata_set_CandidateID
    (str "proof-tool/mpc-ceremony/release-candidate/v1") CandidateMetadata_json legible_candidate
    (completed cm_CandidateID CandidateMetadata_set_CandidateID (CandidateMetadata_set_Schema CandidateMetadataSchema)) ∧
  content_addressed NewFinalTranscript FinalTranscript_Validate ft_TranscriptID FinalTranscript_set_TranscriptID
    (str "proof-tool/mpc-ceremony/final-transcript/v1") FinalTranscript_json utf8_record
    (completed ft_TranscriptID FinalTranscript_set_TranscriptID (FinalTranscript_set_Schema FinalTranscriptSchema)) ∧
  content_addressed NewSignedReleaseEvidence SignedReleaseEvidence_Validate re_ReleaseID SignedReleaseEvidence_set_ReleaseID
    (str "proof-tool/mpc-ceremony/signed-release/v1") (enc SignedReleaseEvidence_codec) legible_release
    (completed re_ReleaseID SignedReleaseEvidence_set_ReleaseID id) ∧
  content_addressed NewProductionDecision ProductionDecision_Validate pd_DecisionID ProductionDecision_set_DecisionID
    (str "proof-tool/mpc-ceremony/production-decision/v1") (enc ProductionDecision_codec) legible_decision
    (completed pd_DecisionID ProductionDecision_set_DecisionID (ProductionDecision_set_Schema ProductionDecisionSchema)).
Proof.
  do 5 (split; [apply content_laws_addressed; apply _|]). split; [apply BeaconRecord_addressed|].
  do 2 (split; [apply content_laws_addressed; apply _|]). split; [apply CandidateMetadata_addressed|].
  split; [apply content_laws_addressed; apply _|].
  split; [apply SignedReleaseEvidence_addressed|apply ProductionDecision_addressed].
Qed.
End identifiers.

(** ** Preparation *)

Section preparation.
Context `{URLParser, MapOrder}.

(** The draft that says what a release and a decision say. *)
Definition draft_of_release (r : SignedReleaseEvidence) : SignedReleaseEvidenceDraft :=
  {| rd_CandidateID := re_CandidateID r; rd_Manifest := re_Manifest r;
     rd_ManifestSignature := re_ManifestSignature r; rd_ManifestPublicKey := re_ManifestPublicKey r;
     rd_Candidate := re_Candidate r; rd_FinalTranscript := re_FinalTranscript r; rd_Artifacts := re_Artifacts r |}.

Definition draft_of (d : ProductionDecision) : ProductionDecisionDraft :=
  {| dd_Schema := ProductionDecisionDraftSchema; dd_CeremonyID := pd_CeremonyID d;
     dd_Release := draft_of_release (pd_Release d);
     dd_SourceRelease := pd_SourceRelease d; dd_OperationalEvidence := pd_OperationalEvidence d;
     dd_Audits := pd_Audits d; dd_ExternalAudits := pd_ExternalAudits d;
     dd_K21Rehearsal := pd_K21Rehearsal d; dd_MainnetDeploymentPlan := pd_MainnetDeploymentPlan d;
     dd_FormalChecklist := pd_FormalChecklist d; dd_Gates := pd_Gates d;
     dd_Decision := pd_Decision d; dd_DecidedAt := pd_DecidedAt d |}.

Lemma draft_rep d : rep ProductionDecision_codec d = true → rep ProductionDecisionDraft_codec (draft_of d) = true.
Proof.
  intros Hd. apply rep_struct_inv in Hd. do 3 (apply rep_field_inv in Hd as [? Hd]).
  apply rep_field_inv in Hd as [Hr Hd]. repeat (apply rep_field_inv in Hd as [? Hd]).
  apply rep_struct_inv in Hr. repeat (apply rep_field_inv in Hr as [? Hr]).
  rep_fields; [reflexivity|assumption| |assumption..]. rep_fields; assumption.
Qed.

Lemma decision_of_draft draft d : ProductionDecisionDraft_decision draft = Ok d ↔
  ProductionDecision_Validate d = Ok tt ∧ SignedReleaseEvidence_Validate (pd_Release d) = Ok tt ∧ draft = draft_of d.
Proof.
  destruct ProductionDecision_addressed as (Hd & _). destruct SignedReleaseEvidence_addressed as (Hr & _).
  unfold ProductionDecisionDraft_decision, SignedReleaseEvidenceDraft_release. split.
  - intros Hv. apply bind_Ok in Hv as ([] & Hs%check_tt%differs_false & Hv).
    apply bind_Ok in Hv as (release & (Hrv & Er)%within_Ok%Hr & Hv). apply Hd in Hv as [Hv Ed].
    split; [exact Hv|]. rewrite Ed. split; [exact Hrv|]. unfold draft_of, completed in *.
    cbn [pd_Release ProductionDecision_set_DecisionID ProductionDecision_set_Schema] in *.
    unfold draft_of_release. rewrite Er, <- Hs. destruct draft as [? ? []]. reflexivity.
  - intros (Hv & Hrv & ->). apply bind_Ok. exists tt. split; [by apply check_tt, differs_false|].
    apply bind_Ok. exists (pd_Release d). split.
    + apply within_Ok, Hr. split; [exact Hrv|]. unfold completed, draft_of, draft_of_release.
      cbn [dd_Release rd_CandidateID rd_Manifest rd_ManifestSignature rd_ManifestPublicKey rd_Candidate
        rd_FinalTranscript rd_Artifacts]. by destruct (pd_Release d).
    + apply Hd. split; [exact Hv|]. unfold completed.
      pose proof (dp_schema d (ProductionDecision_Validate_parts d Hv)) as Hs. rewrite <- Hs. by destruct d.
Qed.

Lemma decision_rep d : rep ProductionDecisionDraft_codec (draft_of d) = true →
  ProductionDecision_Validate d = Ok tt → SignedReleaseEvidence_Validate (pd_Release d) = Ok tt →
  legible_decision d.
Proof.
  intros Hd Hv Hr. destruct ProductionDecision_addressed as (_ & _ & Hid & _).
  destruct SignedReleaseEvidence_addressed as (_ & _ & Hrid & _).
  apply rep_struct_inv in Hd. do 2 (apply rep_field_inv in Hd as [? Hd]).
  apply rep_field_inv in Hd as [Hrel Hd]. repeat (apply rep_field_inv in Hd as [? Hd]).
  apply rep_struct_inv in Hrel. repeat (apply rep_field_inv in Hrel as [? Hrel]).
  unfold legible_decision. rep_fields; try assumption.
  - rewrite (dp_schema d (ProductionDecision_Validate_parts d Hv)). reflexivity.
  - rewrite (Hid d Hv). apply tagged_utf8; [apply sha256_tag_ascii|apply sha256_bytes].
  - rep_fields; try assumption. rewrite (Hrid _ Hr). apply tagged_utf8; [apply sha256_tag_ascii|apply sha256_bytes].
Qed.

Lemma PrepareProductionDecision_Ok definition draftBytes d record :
  PrepareProductionDecision definition draftBytes = Ok (d, record) ↔
  CeremonyDefinition_Validate definition = Ok tt ∧ ProductionDecision_Validate d = Ok tt ∧
  validateProductionDecisionBinding definition d = Ok tt ∧ legible_decision d ∧
  draftBytes = marshal (enc ProductionDecisionDraft_codec (draft_of d)) ∧
  record = marshal (enc ProductionDecision_codec d).
Proof.
  unfold PrepareProductionDecision. split.
  - intros Hp. apply bind_Ok in Hp as ([] & Hdef & Hp).
    apply bind_Ok in Hp as (draft & (_ & Hrep & Hb)%within_Ok%UnmarshalCanonical_Ok & Hp).
    apply bind_Ok in Hp as (v & (Hv & Hr & ->)%decision_of_draft & Hp). apply bind_Ok in Hp as ([] & Hbind & Hp).
    apply bind_Ok in Hp as (rec & Hm & [= <- <-]). apply bind_Ok in Hm as ([] & _ & <-%Ok_inj).
    split_and!; [done|done|done|by apply decision_rep|done|done].
  - intros (Hdef & Hv & Hbind & Hrep & -> & ->). apply bind_Ok. exists tt. split; [exact Hdef|].
    pose proof (dp_release d (ProductionDecision_Validate_parts d Hv)) as Hrel.
    assert (ProductionDecisionDraft_decision (draft_of d) = Ok d) as Hd by by apply decision_of_draft.
    apply bind_Ok. exists (draft_of d). split.
    { apply within_Ok, UnmarshalCanonical_Ok. split; [|split; [by apply draft_rep|reflexivity]].
      unfold ProductionDecisionDraft_Validate. apply bind_Ok. exists d. by split. }
    apply bind_Ok. exists d. split; [exact Hd|]. apply bind_Ok. exists tt. split; [exact Hbind|].
    apply bind_Ok. exists (marshal (enc ProductionDecision_codec d)). split; [|done].
    unfold MarshalCanonical. apply bind_Ok. exists tt. by split.
Qed.

(** What [computeProductionDecisionID] hashes. *)
Definition decision_preimage (d : ProductionDecision) : list Z :=
  hash_preimage (str "proof-tool/mpc-ceremony/production-decision/v1")
    (enc ProductionDecision_codec (ProductionDecision_set_DecisionID [] d)).

(** C37 Preparing a decision succeeds exactly on the canonical bytes of the draft that has
    every field of a valid decision bound to the definition - ceremony, release, source,
    operational evidence, audits, external audits, rehearsal, plan, checklist, gates,
    outcome and time - and hands out that decision's canonical bytes; the signers' command
    reads back exactly this decision from them; and its identifier commits to all of it:
    another valid decision with the same identifier and legible fields is the same
    decision, or SHA-256 collides. *)
Theorem prepared_decision_signable definition :
  (∀ draftBytes d record, PrepareProductionDecision definition draftBytes = Ok (d, record) ↔
    CeremonyDefinition_Validate definition = Ok tt ∧ ProductionDecision_Validate d = Ok tt ∧
    validateProductionDecisionBinding definition d = Ok tt ∧ legible_decision d ∧
    draftBytes = marshal (enc ProductionDecisionDraft_codec (draft_of d)) ∧
    record = marshal (enc ProductionDecision_codec d)) ∧
  (∀ draftBytes d record, PrepareProductionDecision definition draftBytes = Ok (d, record) →
    UnmarshalCanonical ProductionDecision_codec ProductionDecision_Validate record = Ok d) ∧
  ∀ d d', ProductionDecision_Validate d = Ok tt → ProductionDecision_Validate d' = Ok tt →
    legible_decision d → legible_decision d' → pd_DecisionID d' = pd_DecisionID d →
    d' = d ∨ collision_in [decision_preimage d'; decision_preimage d].
Proof.
  split; [apply PrepareProductionDecision_Ok|]. split.
  - intros draftBytes d record (_ & Hv & _ & Hr & _ & ->)%PrepareProductionDecision_Ok. by apply UnmarshalCanonical_Ok.
  - destruct ProductionDecision_addressed as (_ & _ & _ & Hc). intros d d' Hv Hv' Hr Hr' He. by apply Hc.
Qed.
End preparation.
