(* ===== verification/MpcChainCorrect.v ===== *)
(** * Accepted chains: what [Validate] and [Append] guarantee

    A chain is valid exactly when every record extends the records before it; the valid
    chains are the ones [NewChain] and [Append] produce; and the identifier of the head
    commits to the whole history, unless SHA-256 collides on the bytes hashed. *)
From stdpp Require Import strings.
From stdpp Require Import sorting.
From S2P Require Import Prelude.
From S2P Require Import GoText.
From S2P Require Import GoError.
From S2P Require Import Sha256.
From S2P Require Import GoTime.
From S2P Require Import GoJson.
From S2P Require Import MpcModel.
From S2P Require Import MpcPreflight.
From S2P Require Import MpcDefinition.
From S2P Require Import MpcAttestation.
From S2P Require Import MpcChain.
From S2P Require Import MpcTranscript.
From S2P Require Import MpcRecords.

(** ** The specification: one record after another *)

Section chain_spec.
Context `{MapOrder}.
Implicit Types (c : Chain) (r : ChainRecord) (ps rs : list ChainRecord).

(** The identifier of the genesis of [c]. *)
Definition genesis_id c : list Z :=
  canonicalHash (str "proof-tool/mpc-ceremony/genesis-record/v1")
    (genesis_json (ch_CeremonyID c) (ch_PhaseID c) (ch_Genesis c)).

(** The head of [c] after the records [ps]. *)
Definition payload_after c ps : ArtifactRef := from_option cr_OutputPayload (ch_Genesis c) (last ps).
Definition id_after c ps : list Z := from_option cr_RecordID (genesis_id c) (last ps).
Definition accepted_time r : Time := time_of (cr_AcceptedAt r).

(** [r] extends the records [ps] of [c]. *)
Record extends c ps r : Prop := {
  ext_valid : ChainRecord_Validate r = Ok tt;
  ext_ceremony : cr_CeremonyID r = ch_CeremonyID c;
  ext_phase : cr_Phase r = ch_Phase c;
  ext_phase_id : cr_PhaseID r = ch_PhaseID c;
  ext_index : cr_Index r = Z.of_nat (length ps) + 1;
  ext_payload : cr_PreviousPayload r = payload_after c ps;
  ext_id : cr_PreviousRecordID r = id_after c ps;
  ext_participant : cr_ParticipantID r ∉ cr_ParticipantID <$> ps;
  ext_time : ∀ p, last ps = Some p → time_After (accepted_time r) (accepted_time p) = true;
}.

Record scope_ok c : Prop := {
  scope_schema : ch_Schema c = ChainSchema;
  scope_ceremony : validateHashID "ceremony_id" (ch_CeremonyID c) = Ok tt;
  scope_phase : Phase_Validate (ch_Phase c) = Ok tt;
  scope_phase_id : validateHashID "phase_id" (ch_PhaseID c) = Ok tt;
  scope_genesis : ArtifactRef_Validate (ch_Genesis c) = Ok tt;
}.

(** Every record extends the ones before it. *)
Definition linked c rs : Prop := ∀ ps r qs, rs = ps ++ r :: qs → extends c ps r.

Lemma linked_nil c : linked c [].
Proof. by intros [|] ? ?. Qed.

Lemma linked_snoc c ps r : linked c (ps ++ [r]) ↔ linked c ps ∧ extends c ps r.
Proof.
  split.
  - intros Hl. split; [|by apply (Hl ps r [])]. intros ps' r' qs ->.
    apply (Hl ps' r' (qs ++ [r])). by rewrite <- app_assoc.
  - intros [Hl He] ps' r' qs Hq. destruct qs as [|q qs _] using rev_ind.
    + apply app_inj_tail in Hq as [-> ->]. done.
    + rewrite app_comm_cons, app_assoc in Hq. apply app_inj_tail in Hq as [-> _]. by apply (Hl ps' r' qs).
Qed.

(** ** The loop of [Validate] *)

Definition head_after c ps : head :=
  {| h_payload := payload_after c ps; h_id := id_after c ps;
     h_participants := rev (cr_ParticipantID <$> ps);
     h_accepted := from_option accepted_time zero_Time (last ps) |}.

Lemma extend_head_Ok c ps r h : extend_head c (length ps) (head_after c ps) r = Ok h ↔
  extends c ps r ∧ h = head_after c (ps ++ [r]).
Proof.
  assert (∀ x : head, x = head_after c (ps ++ [r]) ↔ x = {| h_payload := cr_OutputPayload r;
    h_id := cr_RecordID r; h_participants := cr_ParticipantID r :: rev (cr_ParticipantID <$> ps);
    h_accepted := accepted_time r |}) as Hh.
  { intros x. unfold head_after, payload_after, id_after.
    rewrite fmap_app, rev_app_distr, last_snoc. done. }
  rewrite Hh. clear Hh. unfold extend_head.
  cbn [head_after h_payload h_id h_participants h_accepted]. split.
  - intros Hr. inv_checks. split; [|done]. constructor; try done.
    + rewrite list_elem_of_In, in_rev, <- list_elem_of_In. done.
    + intros p Hp. destruct ps as [|p' ps]; [discriminate Hp|].
      match goal with Ht : (0 <? _)%nat && _ = false |- _ => rewrite Hp in Ht; by apply negb_false_iff in Ht end.
  - intros [[] ->]. pass_checks; try done.
    + destruct ps as [|p ps _] using rev_ind; [done|]. rewrite last_snoc in *. cbn.
      by rewrite andb_false_iff, negb_false_iff; eauto.
    + by rewrite list_elem_of_In, <- in_rev, <- list_elem_of_In.
Qed.

Lemma extend_all_Ok c rs : ∀ ps h, linked c ps →
  extend_all c (length ps) (head_after c ps) rs = Ok h ↔
  linked c (ps ++ rs) ∧ h = head_after c (ps ++ rs).
Proof.
  induction rs as [|r rs IH]; intros ps h Hps; cbn [extend_all].
  { rewrite app_nil_r. split; [intros He; apply Ok_inj in He; by subst|]. by intros [_ ->]. }
  rewrite bind_Ok. setoid_rewrite extend_head_Ok.
  assert (S (length ps) = length (ps ++ [r])) as Hlen by (rewrite length_app; cbn; lia).
  rewrite Hlen. split.
  - intros (h' & [Hx ->] & Hr). apply IH in Hr; [|by apply linked_snoc]. by rewrite <- app_assoc in Hr.
  - intros [Hl ->]. exists (head_after c (ps ++ [r])).
    assert (extends c ps r) as Hx by by apply (Hl ps r rs). split; [done|].
    apply IH; [by apply linked_snoc|]. by rewrite <- app_assoc.
Qed.

Lemma GenesisRecordID_Ok ceremonyID phaseID genesis h :
  GenesisRecordID ceremonyID phaseID genesis = Ok h ↔
  validateHashID "ceremony_id" ceremonyID = Ok tt ∧ validateHashID "phase_id" phaseID = Ok tt ∧
  ArtifactRef_Validate genesis = Ok tt ∧
  h = canonicalHash (str "proof-tool/mpc-ceremony/genesis-record/v1")
        (genesis_json ceremonyID phaseID genesis).
Proof. unfold GenesisRecordID. split; [intros; inv_checks; done|]. intros (? & ? & ? & ->). by pass_checks. Qed.

Lemma genesis_head_Ok c h : genesis_head c = Ok h ↔
  scope_ok c ∧ Z.of_nat (length (ch_Records c)) <= MaxParticipants ∧ h = head_after c [].
Proof.
  unfold genesis_head. split.
  - intros. inv_checks. match goal with Hg : GenesisRecordID _ _ _ = _ |- _ => apply GenesisRecordID_Ok in Hg as (? & ? & ? & ->) end.
    split; [|done]. by constructor.
  - intros ([] & ? & ->). pass_checks; try done. by apply GenesisRecordID_Ok.
Qed.

Lemma Chain_Validate_Ok c : Chain_Validate c = Ok tt ↔
  scope_ok c ∧ Z.of_nat (length (ch_Records c)) <= MaxParticipants ∧ linked c (ch_Records c).
Proof.
  unfold Chain_Validate. rewrite bind_Ok. setoid_rewrite genesis_head_Ok.
  pose proof (extend_all_Ok c (ch_Records c) [] ) as Hall. split.
  - intros (h & (Hs & Hn & ->) & Hr). apply bind_Ok in Hr as (h' & Hr & _).
    by apply Hall in Hr as [Hl _]; [|apply linked_nil].
  - intros (Hs & Hn & Hl). exists (head_after c []). split; [done|]. apply bind_Ok.
    exists (head_after c (ch_Records c)). split; [|done]. apply Hall; [apply linked_nil|done].
Qed.

Opaque Chain_Validate.

Lemma HeadRecordID_Ok c h : HeadRecordID c = Ok h ↔
  Chain_Validate c = Ok tt ∧ h = id_after c (ch_Records c).
Proof.
  unfold HeadRecordID, id_after. rewrite bind_Ok. split.
  - intros ([] & Hv & Hh). split; [done|]. destruct (last _); [by apply Ok_inj in Hh|].
    by apply GenesisRecordID_Ok in Hh as (_ & _ & _ & ->).
  - intros [Hv ->]. exists tt. split; [done|]. destruct (last _); [done|].
    apply Chain_Validate_Ok in Hv as ([] & _). by apply GenesisRecordID_Ok.
Qed.

Lemma HeadPayload_Ok c a : HeadPayload c = Ok a ↔
  Chain_Validate c = Ok tt ∧ a = payload_after c (ch_Records c).
Proof.
  unfold HeadPayload, payload_after. rewrite bind_Ok. split.
  - intros ([] & Hv & Hh). split; [done|]. by destruct (last _); apply Ok_inj in Hh.
  - intros [Hv ->]. exists tt. by destruct (last _).
Qed.

Lemma ParticipantIDs_Ok c l : ParticipantIDs c = Ok l ↔
  Chain_Validate c = Ok tt ∧ l = cr_ParticipantID <$> ch_Records c.
Proof.
  unfold ParticipantIDs. rewrite bind_Ok. split.
  - intros ([] & Hv & Hh). split; [done|]. by apply Ok_inj in Hh.
  - intros [Hv ->]. by exists tt.
Qed.

(** ** What a valid chain is made of *)

Lemma with_records_scope c rs : scope_ok (with_records c rs) ↔ scope_ok c.
Proof. split; intros []; constructor; assumption. Qed.

Lemma linked_with_records c qs rs : linked (with_records c qs) rs ↔ linked c rs.
Proof. split; intros Hl ps r rs' ->; destruct (Hl ps r rs' eq_refl); constructor; assumption. Qed.

Lemma with_own_records c : with_records c (ch_Records c) = c.
Proof. by destruct c. Qed.

Lemma Chain_Validate_snoc c r : Chain_Validate (with_records c (ch_Records c ++ [r])) = Ok tt ↔
  Chain_Validate c = Ok tt ∧ Z.of_nat (length (ch_Records c)) < MaxParticipants ∧
  extends c (ch_Records c) r.
Proof.
  rewrite !Chain_Validate_Ok, with_records_scope, linked_with_records. cbn [with_records ch_Records].
  rewrite linked_snoc, length_app. cbn [length]. split.
  - intros (? & ? & ? & ?). split_and!; try assumption; lia.
  - intros ((? & ? & ?) & ? & ?). split_and!; try assumption; lia.
Qed.

Lemma linked_participants c rs : linked c rs → NoDup (cr_ParticipantID <$> rs).
Proof.
  induction rs as [|r rs IH] using rev_ind; [constructor|]. intros [Hl Hx]%linked_snoc.
  rewrite fmap_app. apply NoDup_app. split; [by apply IH|]. split; [|apply NoDup_singleton].
  intros x Hin Hx'. apply list_elem_of_singleton in Hx' as ->. by apply (ext_participant _ _ _ Hx).
Qed.

(** Acceptances are strictly later, record by record. *)
Lemma time_After_trans t u v : time_After t u = true → time_After u v = true → time_After t v = true.
Proof.
  unfold time_After. rewrite !orb_true_iff, !andb_true_iff, !Z.ltb_lt, !Z.eqb_eq. lia.
Qed.

Lemma linked_times c rs : linked c rs →
  StronglySorted (λ p r, time_After (accepted_time r) (accepted_time p) = true) rs.
Proof.
  induction rs as [|r rs IH] using rev_ind; [constructor|]. intros [Hl Hx]%linked_snoc.
  specialize (IH Hl). apply StronglySorted_app_2; [|done|repeat constructor].
  intros p r' Hp Hr'. apply list_elem_of_singleton in Hr' as ->.
  destruct rs as [|q rs _] using rev_ind; [by apply not_elem_of_nil in Hp|].
  pose proof (ext_time _ _ _ Hx q (last_snoc _ _)) as Hq.
  apply elem_of_app in Hp as [Hp|Hp]; [|by apply list_elem_of_singleton in Hp as ->].
  eapply time_After_trans; [exact Hq|].
  apply (StronglySorted_app_1_elem_of _ rs [q] p q IH Hp). by apply list_elem_of_singleton.
Qed.

(** ** The chains the code builds *)

(** What [NewChain] and successful calls of [Append] yield. *)
Inductive reachable : Chain → Prop :=
| reachable_new ceremonyID phase phaseID genesis c :
    NewChain ceremonyID phase phaseID genesis = Ok c → reachable c
| reachable_append c r c' :
    reachable c → Chain_Append (Some c) r = (Some c', Ok tt) → reachable c'.

Lemma Chain_Append_Ok c r c' : Chain_Append (Some c) r = (Some c', Ok tt) ↔
  c' = with_records c (ch_Records c ++ [r]) ∧
  Chain_Validate (with_records c (ch_Records c ++ [r])) = Ok tt.
Proof.
  unfold Chain_Append. cbn [with_records ch_Records].
  destruct (Chain_Validate _) as [[]|e]; split; intros Ha.
  - by injection Ha as <-.
  - by destruct Ha as [-> _].
  - by injection Ha.
  - by destruct Ha.
Qed.

Lemma NewChain_Ok ceremonyID phase phaseID genesis c :
  NewChain ceremonyID phase phaseID genesis = Ok c ↔
  c = {| ch_Schema := ChainSchema; ch_CeremonyID := ceremonyID; ch_Phase := phase;
         ch_PhaseID := phaseID; ch_Genesis := genesis; ch_Records := [] |} ∧
  Chain_Validate c = Ok tt.
Proof.
  unfold NewChain. rewrite bind_Ok. split.
  - intros ([] & Hv & Hc). apply Ok_inj in Hc as <-. done.
  - intros [-> Hv]. by exists tt.
Qed.

Lemma reachable_valid c : reachable c → Chain_Validate c = Ok tt.
Proof.
  induction 1 as [? ? ? ? c Hn|c r c' _ _ Ha]; [by apply NewChain_Ok in Hn as [_ ?]|].
  by apply Chain_Append_Ok in Ha as [-> ?].
Qed.

Lemma reachable_prefix c rs : scope_ok c → Z.of_nat (length rs) <= MaxParticipants → linked c rs →
  reachable (with_records c rs).
Proof.
  intros Hs. induction rs as [|r rs IH] using rev_ind; intros Hn Hl.
  - eapply reachable_new, NewChain_Ok. split.
    + rewrite <- (scope_schema c Hs). reflexivity.
    + apply Chain_Validate_Ok. rewrite with_records_scope, linked_with_records. done.
  - rewrite length_app in Hn. cbn [length] in Hn. apply linked_snoc in Hl as [Hl Hx].
    apply (reachable_append (with_records c rs) r); [apply IH; [lia|done]|].
    apply Chain_Append_Ok. split; [done|]. apply Chain_Validate_Ok.
    change (with_records (with_records c rs) ?l) with (with_records c l).
    cbn [with_records ch_Records]. rewrite with_records_scope, linked_with_records, linked_snoc, length_app.
    cbn [length]. split_and!; try done; lia.
Qed.

(** ** The head commits to the history *)

Definition genesis_preimage c : list Z :=
  hash_preimage (str "proof-tool/mpc-ceremony/genesis-record/v1")
    (genesis_json (ch_CeremonyID c) (ch_PhaseID c) (ch_Genesis c)).

(** Everything hashed along the chain. *)
Definition chain_preimages c rs : list (list Z) := genesis_preimage c :: (record_preimage <$> rs).

Definition utf8_chain c : Prop :=
  clean (genesis_json (ch_CeremonyID c) (ch_PhaseID c) (ch_Genesis c)) = true ∧
  Forall utf8_record (ch_Records c).

Lemma genesis_json_inj c d :
  genesis_json (ch_CeremonyID c) (ch_PhaseID c) (ch_Genesis c) =
  genesis_json (ch_CeremonyID d) (ch_PhaseID d) (ch_Genesis d) →
  ch_CeremonyID c = ch_CeremonyID d ∧ ch_PhaseID c = ch_PhaseID d ∧ ch_Genesis c = ch_Genesis d.
Proof.
  intros He. apply JObj_inj in He. apply field_inj in He as [H1 He]. apply field_inj in He as [H2 He].
  apply field_inj in He as [H3 _]. apply (inj JStr) in H1, H2. by apply (inj ArtifactRef_json) in H3.
Qed.

Lemma genesis_record_apart c r : genesis_preimage c ≠ record_preimage r.
Proof.
  unfold genesis_preimage, record_preimage, hash_preimage. intros He.
  change (rec_domain ChainRecord) with (str "proof-tool/mpc-ceremony/acceptance-record/v1") in He.
  generalize dependent (marshal (genesis_json (ch_CeremonyID c) (ch_PhaseID c) (ch_Genesis c))).
  generalize (marshal (rec_json (rec_set_id [] r))). intros l l' He. discriminate He.
Qed.

Lemma record_id_sha r : ChainRecord_Validate r = Ok tt →
  cr_RecordID r = canonicalHash (rec_domain ChainRecord) (rec_json (rec_set_id [] r)).
Proof. intros Hv. apply (validate_record_Ok r) in Hv. exact (proj2 Hv). Qed.

Lemma genesis_record_collide c r xs : genesis_preimage c ∈ xs → record_preimage r ∈ xs →
  ChainRecord_Validate r = Ok tt → genesis_id c = cr_RecordID r → collision_in xs.
Proof.
  intros Hc Hr Hv He. rewrite (record_id_sha r Hv) in He. apply canonicalHash_sha in He.
  exists (genesis_preimage c), (record_preimage r). split_and!; [exact Hc|exact Hr|apply genesis_record_apart|exact He].
Qed.

Lemma linked_commits c d rs : ∀ qs, linked c rs → linked d qs →
  utf8_chain (with_records c rs) → utf8_chain (with_records d qs) →
  id_after c rs = id_after d qs →
  (ch_CeremonyID c = ch_CeremonyID d ∧ ch_PhaseID c = ch_PhaseID d ∧ ch_Genesis c = ch_Genesis d ∧ rs = qs) ∨
  collision_in (chain_preimages c rs ++ chain_preimages d qs).
Proof.
  assert (∀ c rs, genesis_preimage c ∈ chain_preimages c rs) as Hg by (intros; left).
  assert (∀ c rs r, record_preimage r ∈ chain_preimages c (rs ++ [r])) as Hr.
  { intros. right. rewrite fmap_app. apply elem_of_app. right. left. }
  unfold utf8_chain. cbn [with_records ch_CeremonyID ch_PhaseID ch_Genesis ch_Records].
  induction rs as [|r rs IH] using rev_ind; intros qs Hl Hl' [Gc Uc] [Gd Ud] He;
    destruct qs as [|q qs _] using rev_ind; unfold id_after in He; rewrite ?last_snoc in He.
  - apply canonicalHash_sha in He.
    destruct (collision_intro (genesis_preimage c) (genesis_preimage d)
      (chain_preimages c [] ++ chain_preimages d [])) as [Hp|]; [left|right; left|done| |by right].
    left. apply hash_preimage_inj, genesis_json_inj in Hp as (? & ? & ?); [|exact Gc|exact Gd].
    split_and!; [assumption..|reflexivity].
  - right. apply linked_snoc in Hl' as [_ Hx].
    eapply (genesis_record_collide c q); [left| |apply Hx|done]. apply elem_of_app. right. apply Hr.
  - right. apply linked_snoc in Hl as [_ Hx]. symmetry in He.
    eapply (genesis_record_collide d r); [|apply elem_of_app; left; apply Hr|apply Hx|done].
    apply elem_of_app. right. apply Hg.
  - apply linked_snoc in Hl as [Hl Hx], Hl' as [Hl' Hx'].
    apply Forall_app in Uc as [Uc [Ur _]%Forall_cons], Ud as [Ud [Uq _]%Forall_cons]. cbn in He.
    destruct (validate_record_commits r q Ur Uq (ext_valid _ _ _ Hx) (ext_valid _ _ _ Hx') He) as [->|Hc].
    + assert (id_after c rs = id_after d qs) as Hp.
      { by rewrite <- (ext_id _ _ _ Hx), (ext_id _ _ _ Hx'). }
      destruct (IH qs Hl Hl' (conj Gc Uc) (conj Gd Ud) Hp) as [(? & ? & ? & ->)|Hc].
      { left. split_and!; [assumption..|reflexivity]. }
      right.
      eapply collision_mono; [|exact Hc]. unfold chain_preimages. rewrite !fmap_app.
      intros x. rewrite !elem_of_app, !elem_of_cons, !elem_of_app. tauto.
    + right. eapply collision_mono; [|exact Hc]. intros x [->|[->|[]%elem_of_nil]%elem_of_cons]%elem_of_cons;
        apply elem_of_app; [left|right]; apply Hr.
Qed.

Lemma linked_lookup c rs : linked c rs ↔ ∀ i r, rs !! i = Some r → extends c (take i rs) r.
Proof.
  split.
  - intros Hl i r Hr. apply (Hl _ _ (drop (S i) rs)). by rewrite take_drop_middle.
  - intros Hx ps r qs ->. specialize (Hx (length ps) r).
    rewrite take_app_length in Hx. apply Hx. by apply list_lookup_middle.
Qed.

(** C10 [Chain.Validate] accepts exactly the chains of valid scope with at most
    [MaxParticipants] records, each of which extends the records before it: right
    position, ceremony and phase, the payload and the identifier of its predecessor (of
    the genesis for the first), a participant not seen before and a later acceptance. *)
Theorem Chain_Validate_exact c : Chain_Validate c = Ok tt ↔
  scope_ok c ∧ Z.of_nat (length (ch_Records c)) <= MaxParticipants ∧
  ∀ i r, ch_Records c !! i = Some r → extends c (take i (ch_Records c)) r.
Proof. rewrite Chain_Validate_Ok. by rewrite linked_lookup. Qed.

(** C27 In a valid chain every participant appears once, acceptances are strictly
    ordered in time, and the phase, the ceremony and the positions of the records are
    those of the chain. *)
Theorem Chain_invariant c : Chain_Validate c = Ok tt →
  NoDup (cr_ParticipantID <$> ch_Records c) ∧
  StronglySorted (λ p r, time_After (accepted_time r) (accepted_time p) = true) (ch_Records c) ∧
  cr_Index <$> ch_Records c = seqZ 1 (Z.of_nat (length (ch_Records c))) ∧
  Forall (λ r, cr_CeremonyID r = ch_CeremonyID c ∧ cr_PhaseID r = ch_PhaseID c) (ch_Records c).
Proof.
  intros (_ & _ & Hl)%Chain_Validate_Ok. split; [by eapply linked_participants|].
  split; [by eapply linked_times|]. pose proof (proj1 (linked_lookup c _) Hl) as Hx. split.
  - apply list_eq. intros i. rewrite list_lookup_fmap. destruct (ch_Records c !! i) as [r|] eqn:Hr.
    + apply lookup_lt_Some in Hr as Hi. rewrite lookup_seqZ_lt by lia. cbn.
      rewrite (ext_index _ _ _ (Hx i r Hr)), length_take. f_equal. lia.
    + apply lookup_ge_None in Hr. symmetry. apply lookup_seqZ_ge. lia.
  - apply Forall_lookup. intros i r Hr. destruct (Hx i r Hr). split; assumption.
Qed.

(** C32 [Append] to a valid chain: it succeeds exactly on a record that extends the
    chain while it has room, the record becomes the head, and an error leaves the chain
    as it was. *)
Theorem Chain_Append_exact c r : Chain_Validate c = Ok tt → ∃ c' e,
  Chain_Append (Some c) r = (Some c', e) ∧
  (e = Ok tt ↔ Z.of_nat (length (ch_Records c)) < MaxParticipants ∧ extends c (ch_Records c) r) ∧
  (e = Ok tt → c' = with_records c (ch_Records c ++ [r]) ∧
     HeadRecordID c' = Ok (cr_RecordID r) ∧ HeadPayload c' = Ok (cr_OutputPayload r) ∧
     ParticipantIDs c' = Ok ((cr_ParticipantID <$> ch_Records c) ++ [cr_ParticipantID r])) ∧
  (e ≠ Ok tt → c' = c).
Proof.
  intros Hv. pose proof (Chain_Validate_snoc c r) as Hs. unfold Chain_Append.
  destruct (Chain_Validate (with_records c (ch_Records c ++ [r]))) as [[]|e] eqn:E.
  - do 2 eexists. split; [reflexivity|]. split; [naive_solver|]. split; [|done]. intros _.
    split; [done|]. cbn [with_records ch_Records] in *.
    rewrite HeadRecordID_Ok, HeadPayload_Ok, ParticipantIDs_Ok, E. unfold id_after, payload_after.
    cbn [with_records ch_Records]. by rewrite !last_snoc, fmap_app.
  - do 2 eexists. split; [reflexivity|]. split; [naive_solver|done].
Qed.

(** The valid chains are the ones [NewChain] and successful calls of [Append] build. *)
Theorem valid_chains_reachable c : Chain_Validate c = Ok tt ↔ reachable c.
Proof.
  split; [|apply reachable_valid]. intros (Hs & Hn & Hl)%Chain_Validate_Ok.
  rewrite <- (with_own_records c). by apply reachable_prefix.
Qed.

(** The head identifier commits to the history: two valid chains with one head are
    of one ceremony and phase, with the same genesis and the same records - or two of
    the strings hashed along the chains are a collision of SHA-256. *)
Theorem HeadRecordID_commits c d h : utf8_chain c → utf8_chain d →
  HeadRecordID c = Ok h → HeadRecordID d = Ok h →
  (ch_CeremonyID c = ch_CeremonyID d ∧ ch_PhaseID c = ch_PhaseID d ∧
   ch_Genesis c = ch_Genesis d ∧ ch_Records c = ch_Records d) ∨
  collision_in (chain_preimages c (ch_Records c) ++ chain_preimages d (ch_Records d)).
Proof.
  intros Uc Ud [(_ & _ & Hc)%Chain_Validate_Ok ->]%HeadRecordID_Ok
    [(_ & _ & Hd)%Chain_Validate_Ok He]%HeadRecordID_Ok.
  by apply linked_commits; rewrite ?with_own_records.
Qed.
End chain_spec.
