(* ===== verification/MpcCeremonyCorrect.v ===== *)
(** * Ceremonies: roles, time and commitments

    What a validated definition, a chain of acceptances, and the close, beacon and seal
    of a phase guarantee together. *)
From stdpp Require Import strings.
From stdpp Require Import sorting.
From S2P Require Import Prelude.
From S2P Require Import GoText.
From S2P Require Import GoError.
From S2P Require Import Sha256.
From S2P Require Import GoTime.
From S2P Require Import GoJson.
From S2P Require Import MpcModel.
From S2P Require Import MpcPreflight.
From S2P Require Import MpcDefinition.
From S2P Require Import MpcAttestation.
From S2P Require Import MpcChain.
From S2P Require Import MpcClose.
From S2P Require Import MpcTranscript.
From S2P Require Import MpcRecords.
From S2P Require Import MpcChainCorrect.

(** ** Instants as integers *)

(** Nanoseconds since year 1. *)
Definition nanos (t : Time) : Z := t_sec t * 10 ^ 9 + t_nsec t.

(** An instant of the timestamps the records may have. *)
Record instant (t : Time) : Prop := {
  instant_sec : -31622400 <= t_sec t < 315537897600;
  instant_nsec : 0 <= t_nsec t < 10 ^ 9;
}.

Lemma After_nanos t u : 0 <= t_nsec t < 10 ^ 9 → 0 <= t_nsec u < 10 ^ 9 →
  time_After t u = true ↔ nanos u < nanos t.
Proof.
  unfold time_After, nanos. rewrite orb_true_iff, andb_true_iff, !Z.ltb_lt, Z.eqb_eq. lia.
Qed.

Lemma Before_nanos t u : 0 <= t_nsec t < 10 ^ 9 → 0 <= t_nsec u < 10 ^ 9 →
  time_Before t u = false ↔ nanos u <= nanos t.
Proof.
  intros. unfold time_Before. rewrite <- not_true_iff_false, After_nanos by done. lia.
Qed.

Lemma Equal_spec t u : time_Equal t u = true ↔ t = u.
Proof.
  unfold time_Equal. rewrite andb_true_iff, !Z.eqb_eq. destruct t, u; cbn. naive_solver congruence.
Qed.

Lemma civil_Time_instant c : valid_civil c = true → instant (civil_Time c).
Proof.
  intros (Hy & Hm & Hd & Hh & Hmi & Hs & Hn)%valid_civil_bounds. split; [|exact Hn].
  pose proof (day_of_year_bounds (c_year c) (c_month c) (c_day c) Hm Hd) as Hb.
  assert ((if leap_year (c_year c) then 366 else 365) <= 366) by (destruct (leap_year _); lia).
  pose proof (days_before_year_step (c_year c)) as Hst.
  pose proof (days_before_year_mono 0 (c_year c) ltac:(lia)) as H0.
  pose proof (days_before_year_mono (c_year c + 1) 10000 ltac:(lia)) as H1.
  change (days_before_year 0) with (-366) in H0. change (days_before_year 10000) with 3652059 in H1.
  unfold civil_Time, civil_days. cbn [t_sec]. lia.
Qed.

(** A validated timestamp is the canonical text of its instant. *)
Lemma validateTimestamp_Ok label v : validateTimestamp label v = Ok tt →
  ∃ c, valid_civil c = true ∧ v = time_Format c ∧ time_of v = civil_Time c.
Proof.
  unfold validateTimestamp, time_of. intros Hv. apply bind_Ok in Hv as (_ & _ & Hv).
  destruct (time_Parse v) as [c|] eqn:Hp; [|discriminate Hv].
  apply check_Ok, (proj1 (bool_decide_neq_false _ _)) in Hv. exists c. split_and!; [|by symmetry|done].
  by apply time_Parse_valid in Hp.
Qed.

(** A timestamp is accepted exactly when it is the canonical text of a civil time in
    UTC; its text then determines the instant and the instant its text. *)
Theorem validateTimestamp_exact label v :
  (validateTimestamp label v = Ok tt ↔ ∃ c, valid_civil c = true ∧ v = time_Format c) ∧
  (∀ w, validateTimestamp label v = Ok tt → validateTimestamp label w = Ok tt →
     time_of v = time_of w ↔ v = w).
Proof.
  split.
  - split; [intros (c & ? & ? & _)%validateTimestamp_Ok; by exists c|]. intros (c & Hc & ->).
    unfold validateTimestamp. rewrite time_Parse_Format by done.
    assert (HasSuffix (time_Format c) (str "Z") = true) as Hs.
    { unfold time_Format. rewrite !app_assoc. apply HasSuffix_app. }
    pass_checks; [|exact Hs|reflexivity]. unfold time_Format. intros Hn.
    apply (f_equal length) in Hn. rewrite !length_app in Hn. cbn [length] in Hn. lia.
  - intros w (c & Hc & -> & ->)%validateTimestamp_Ok (d & Hd & -> & ->)%validateTimestamp_Ok.
    split; [intros He; by rewrite (civil_Time_inj c d)|intros He; by rewrite (time_Format_inj c d)].
Qed.

(** ** Rounds of the beacon *)

(** The last round the guard admits, and the last whose instant is an [int64] of seconds
    since year 1: [time.Unix] wraps around on the rounds between the two. *)
Definition last_round : Z := (2 ^ 63 - 1 - BeaconQuicknetGenesis) / BeaconQuicknetPeriod + 1.
Definition last_exact_round : Z :=
  (2 ^ 63 - 1 - unixToInternal - BeaconQuicknetGenesis) / BeaconQuicknetPeriod + 1.

(** Seconds since year 1 at which a round is scheduled. *)
Definition round_seconds (round : Z) : Z :=
  unixToInternal + BeaconQuicknetGenesis + BeaconQuicknetPeriod * (round - 1).

Lemma QuicknetRoundTime_Ok round t : 0 <= round < 2 ^ 64 → QuicknetRoundTime round = Ok t ↔
  1 <= round <= last_round ∧ t = {| t_sec := i64 (round_seconds round); t_nsec := 0 |}.
Proof.
  intros Hr. unfold QuicknetRoundTime, last_round, round_seconds, time_Unix.
  unfold BeaconQuicknetPeriod, BeaconQuicknetGenesis, unixToInternal in *.
  assert (1 <= round <= (2 ^ 63 - 1 - 1692803367) / 3 + 1 →
    i64 (1692803367 + i64 (u64 (u64 (round - 1) * 3))) + 62135596800 =
    62135596800 + 1692803367 + 3 * (round - 1)) as Hs.
  { intros Hle. pose proof (Z.mul_div_le (2 ^ 63 - 1 - 1692803367) 3 ltac:(lia)).
    rewrite (u64_small (round - 1)) by lia. rewrite (u64_small ((round - 1) * 3)) by lia.
    rewrite (i64_small ((round - 1) * 3)) by lia. rewrite i64_small by lia. lia. }
  split.
  - intros Hq. inv_checks. rewrite u64_small in * by lia. assert (1 <= round <= (2 ^ 63 - 1 - 1692803367) / 3 + 1) by lia.
    by rewrite Hs.
  - intros [Hle ->]. rewrite Hs by done. pass_checks; [lia| |done]. rewrite u64_small; lia.
Qed.

(** On the rounds before the wrap-around the schedule is exact, and only there is the
    instant one that a record can state. *)
Lemma round_exact round t : 0 <= round < 2 ^ 64 → QuicknetRoundTime round = Ok t → instant t →
  1 <= round ∧ t = {| t_sec := round_seconds round; t_nsec := 0 |}.
Proof.
  intros Hr [[H1 Hl] ->]%QuicknetRoundTime_Ok [Hs _]; [|done]. split; [done|]. cbn in Hs.
  unfold last_round, round_seconds, BeaconQuicknetPeriod, BeaconQuicknetGenesis, unixToInternal in *.
  pose proof (Z.mul_div_le (2 ^ 63 - 1 - 1692803367) 3 ltac:(lia)).
  rewrite i64_small; [done|]. split; [lia|]. unfold i64 in Hs.
  destruct (Z.lt_ge_cases (62135596800 + 1692803367 + 3 * (round - 1)) (2 ^ 63)) as [|Hge]; [done|].
  rewrite <- (Z.mod_add _ (-1) (2 ^ 64)) in Hs by lia. rewrite Z.mod_small in Hs; lia.
Qed.

(** [QuicknetRoundTime] on every [uint64]: it fails on round zero and beyond
    [last_round]; up to [last_exact_round] it is the exact schedule, strictly increasing;
    on the rounds between the two it returns an instant before every timestamp of a
    record, so that no close record can name one. *)
Theorem QuicknetRoundTime_exact round : 0 <= round < 2 ^ 64 →
  (is_ok (QuicknetRoundTime round) = true ↔ 1 <= round <= last_round) ∧
  (1 <= round <= last_exact_round →
     QuicknetRoundTime round = Ok {| t_sec := round_seconds round; t_nsec := 0 |}) ∧
  (last_exact_round < round <= last_round → ∃ t, QuicknetRoundTime round = Ok t ∧
     ∀ u, instant u → time_Before t u = true) ∧
  (∀ label s t, validateTimestamp label s = Ok tt → QuicknetRoundTime round = Ok t →
     time_Equal (time_of s) t = true → round <= last_exact_round).
Proof.
  intros Hr. pose proof (QuicknetRoundTime_Ok round) as Hok.
  assert (0 < last_exact_round <= last_round) as Hll by (split; [|apply Z.leb_le]; reflexivity).
  assert (∀ k, k <= last_exact_round ↔ round_seconds k < 2 ^ 63) as Hle.
  { intros k. unfold last_exact_round, round_seconds, BeaconQuicknetPeriod, BeaconQuicknetGenesis, unixToInternal.
    change ((2 ^ 63 - 1 - 62135596800 - 1692803367) / 3) with 3074457324342125213. lia. }
  split_and!.
  - split; [|intros Hx; by rewrite (proj2 (Hok _ Hr) (conj Hx eq_refl))].
    destruct (QuicknetRoundTime round) as [t|] eqn:E; [|done]. intros _.
    apply (proj1 (Hok _ Hr) eq_refl).
  - intros Hx. apply Hok; [done|]. split; [lia|]. rewrite i64_small; [done|]. split; [|apply Hle; lia].
    unfold round_seconds, BeaconQuicknetPeriod, BeaconQuicknetGenesis, unixToInternal. lia.
  - intros Hx. eexists. split; [apply Hok; [done|]; split; [lia|reflexivity]|]. intros u Hu.
    assert (¬ instant {| t_sec := i64 (round_seconds round); t_nsec := 0 |}) as Hn.
    { intros Hi. apply (round_exact round) in Hi as [_ He]; [|done|by apply Hok; [|split; [lia|]]].
      injection He as He. pose proof (i64_range (round_seconds round)). rewrite He in *.
      assert (round <= last_exact_round) by (apply Hle; lia). lia. }
    pose proof (i64_range (round_seconds round)).
    apply not_false_iff_true. intros Hf. apply Before_nanos in Hf; [|cbn; lia|apply Hu].
    unfold nanos in Hf. cbn in Hf. destruct Hu as [Hs Hns]. cbn in *. apply Hn. split; cbn; [|lia].
    assert (¬ round_seconds round < 2 ^ 63) as Hge by (rewrite <- Hle; lia).
    assert (round_seconds round < 2 ^ 63 + 2 ^ 37).
    { unfold last_round, round_seconds, BeaconQuicknetPeriod, BeaconQuicknetGenesis, unixToInternal in *.
      pose proof (Z.mul_div_le (2 ^ 63 - 1 - 1692803367) 3 ltac:(lia)). lia. }
    assert (i64 (round_seconds round) = round_seconds round - 2 ^ 64) as Hw.
    { unfold i64. rewrite <- (Z.mod_add _ (-1) (2 ^ 64)) by lia. rewrite Z.mod_small; lia. }
    lia.
  - intros label s t (c & Hc & _ & Ht)%validateTimestamp_Ok Hq He. apply Equal_spec in He.
    assert (instant t) as Hi by (rewrite <- He, Ht; by apply civil_Time_instant).
    apply (round_exact round) in Hi as [H1 ->]; [|done|done]. apply Hle.
    apply Hok in Hq as [_ Hq]; [|done]. injection Hq as ->. apply i64_range.
Qed.

(** ** Roles *)

(** Everyone a definition names, in the order in which they are checked. *)
Definition roles (d : CeremonyDefinition) : list Identity :=
  cd_Coordinator d :: cd_ReleaseSigner d :: cd_Auditors d ++ (pt_Identity <$> cd_Roster d).

(** No two share an identifier, a key identifier or a fingerprint. *)
Record distinct (ms : list Identity) : Prop := {
  distinct_ids : NoDup (id_ID <$> ms);
  distinct_keys : NoDup (id_KeyID <$> ms);
  distinct_prints : NoDup (id_PublicKeyFingerprint <$> ms);
}.

Definition taken_of (ms : list Identity) : taken :=
  {| t_ids := rev (id_ID <$> ms); t_keys := rev (id_KeyID <$> ms);
     t_prints := rev (id_PublicKeyFingerprint <$> ms) |}.

Lemma NoDup_fmap_snoc {A B} (f : A → B) (l : list A) x :
  NoDup (f <$> l ++ [x]) ↔ NoDup (f <$> l) ∧ f x ∉ rev (f <$> l).
Proof.
  rewrite fmap_app, NoDup_app, list_elem_of_In, <- in_rev, <- list_elem_of_In. cbn. split.
  - intros (Hl & Hx & _). split; [done|]. intros Hin. apply (Hx _ Hin). by left.
  - intros [Hl Hx]. split; [done|]. split; [|apply NoDup_singleton].
    intros y Hy Hyx. apply list_elem_of_singleton in Hyx as ->. done.
Qed.

Lemma distinct_snoc ms i : distinct (ms ++ [i]) ↔ distinct ms ∧
  id_ID i ∉ t_ids (taken_of ms) ∧ id_KeyID i ∉ t_keys (taken_of ms) ∧
  id_PublicKeyFingerprint i ∉ t_prints (taken_of ms).
Proof.
  split.
  - intros [[]%NoDup_fmap_snoc []%NoDup_fmap_snoc []%NoDup_fmap_snoc].
    split; [constructor|split_and!]; assumption.
  - intros ([] & ? & ? & ?). constructor; apply NoDup_fmap_snoc; split; assumption.
Qed.

Lemma distinct_app_l ms js : distinct (ms ++ js) → distinct ms.
Proof. 
  intros [H1 H2 H3]. rewrite fmap_app, NoDup_app in H1, H2, H3.
  constructor; [apply H1|apply H2|apply H3].
 Qed.

Lemma take_identity_Ok who ms i t : distinct ms → take_identity who (taken_of ms) i = Ok t ↔
  distinct (ms ++ [i]) ∧ t = taken_of (ms ++ [i]).
Proof.
  intros Hd. rewrite distinct_snoc.
  assert (taken_of (ms ++ [i]) = {| t_ids := id_ID i :: t_ids (taken_of ms);
    t_keys := id_KeyID i :: t_keys (taken_of ms);
    t_prints := id_PublicKeyFingerprint i :: t_prints (taken_of ms) |}) as ->.
  { unfold taken_of. by rewrite !fmap_app, !rev_app_distr. }
  unfold take_identity. split.
  - intros. inv_checks. done.
  - intros ((_ & ? & ? & ?) & ->). by pass_checks.
Qed.

Lemma take_auditors_Ok l : ∀ ms t, distinct ms → take_auditors (taken_of ms) l = Ok t ↔
  Forall (λ i, Identity_Validate i = Ok tt) l ∧ distinct (ms ++ l) ∧ t = taken_of (ms ++ l).
Proof.
  induction l as [|i l IH]; intros ms t Hd; cbn [take_auditors].
  { rewrite app_nil_r, Forall_nil. split; [by intros <-%Ok_inj|]. by intros (_ & _ & ->). }
  rewrite Forall_cons, (cons_middle i ms l), app_assoc. split.
  - intros (u & Hv%within_Ok & Ht)%bind_Ok. apply bind_Ok in Ht as (t' & Ht' & Ht).
    apply take_identity_Ok in Ht' as [? ->]; [|done]. apply IH in Ht as (? & ? & ->); [|done].
    destruct u. done.
  - intros ((Hi & Hl) & Hdl & ->). pose proof (distinct_app_l _ _ Hdl).
    pass_checks; [exact Hi|apply take_identity_Ok; [done|split; [done|reflexivity]]|]. by apply IH.
Qed.

(** The identifiers in the roster repeat no identifier taken, so the check on the map of
    the roster never fails first. *)
Lemma take_roster_Ok l : ∀ js ms r, distinct ms → (pt_Identity <$> js) `suffix_of` ms →
  take_roster (taken_of ms) (rev (id_ID ∘ pt_Identity <$> js)) l = Ok r ↔
  Forall (λ p, Participant_Validate p = Ok tt) l ∧ distinct (ms ++ (pt_Identity <$> l)) ∧
  r = rev (id_ID ∘ pt_Identity <$> js ++ l).
Proof.
  induction l as [|p l IH]; intros js ms r Hd Hsuf; cbn [take_roster fmap list_fmap].
  { rewrite !app_nil_r, Forall_nil. split; [by intros <-%Ok_inj|]. by intros (_ & _ & ->). }
  rewrite Forall_cons, (cons_middle p js l), (cons_middle (pt_Identity p) ms), !app_assoc.
  assert (∀ t, take_roster t (id_ID (pt_Identity p) :: rev (id_ID ∘ pt_Identity <$> js)) l =
    take_roster t (rev (id_ID ∘ pt_Identity <$> js ++ [p])) l) as Hr.
  { intros t. by rewrite fmap_app, rev_app_distr. }
  assert ((pt_Identity <$> js ++ [p]) `suffix_of` ms ++ [pt_Identity p]) as Hsuf'.
  { rewrite fmap_app. by apply suffix_app. }
  split.
  - intros (u & Hv%within_Ok & Ht)%bind_Ok. apply bind_Ok in Ht as (_ & _ & Ht).
    apply bind_Ok in Ht as (t' & Ht' & Ht). apply take_identity_Ok in Ht' as [? ->]; [|done].
    rewrite Hr in Ht. apply IH in Ht as (? & ? & ->); [|done..]. destruct u. done.
  - intros ((Hp & Hl) & Hdl & ->). pose proof (distinct_app_l _ _ Hdl) as Hdp.
    pass_checks; [exact Hp| |apply take_identity_Ok; [done|split; [done|reflexivity]]|].
    + apply distinct_snoc in Hdp as (_ & Hid & _). intros Hin. apply Hid. cbn.
      rewrite list_elem_of_In, <- in_rev, <- list_elem_of_In in *.
      destruct Hsuf as [ks ->]. rewrite fmap_app, elem_of_app. right. by rewrite list_fmap_compose in Hin.
    + rewrite Hr. by apply IH.
Qed.

(** ** Policies and the definition *)

Record policy_ok (roster : list (list Z)) (p : PhasePolicy) : Prop := {
  policy_minimum : pp_Minimum p ≠ 0 ∧ pp_Minimum p <= Z.of_nat (length (pp_Participants p));
  policy_size : 0 < Z.of_nat (length (pp_Participants p)) <= MaxParticipants;
  policy_distinct : NoDup (pp_Participants p);
  policy_roster : pp_Participants p ⊆ roster;
}.

Lemma policy_participants_Ok roster l : ∀ seen, policy_participants roster l seen = Ok tt ↔
  l ⊆ roster ∧ NoDup l ∧ (∀ x, x ∈ l → x ∉ seen).
Proof.
  induction l as [|x l IH]; intros seen; cbn [policy_participants].
  { split; [|done]. intros _. split; [intros ? []%elem_of_nil|]. split; [constructor|].
    intros ? []%elem_of_nil. }
  rewrite !bind_unit, !check_tt, !bool_decide_eq_false, IH. split.
  - intros (Hx & Hs & Hl & Hn & Hd). apply dec_stable in Hx. split_and!.
    + intros y [->|Hy]%elem_of_cons; [done|]. by apply Hl.
    + constructor; [|done]. intros Hin. apply (Hd x Hin). by left.
    + intros y [->|Hy]%elem_of_cons; [done|]. intros Hin. apply (Hd y Hy). by right.
  - intros (Hl & [Hx Hn]%NoDup_cons & Hd). split_and!; try done.
    + intros Hc. apply Hc, Hl. by left.
    + apply Hd. by left.
    + intros y Hy. apply Hl. by right.
    + intros y Hy [->|Hin]%elem_of_cons; [done|]. apply (Hd y); [by right|done].
Qed.

Lemma PhasePolicy_Validate_Ok p roster : PhasePolicy_Validate p roster = Ok tt ↔ policy_ok roster p.
Proof.
  unfold PhasePolicy_Validate. rewrite !bind_unit, !check_tt, policy_participants_Ok.
  rewrite Z.eqb_neq, Z.ltb_ge, orb_false_iff, Z.eqb_neq, Z.ltb_ge. split.
  - intros (? & ? & (? & ?) & ? & ? & _). constructor; try done. lia.
  - intros [[] ? ? ?]. split_and!; try done; try lia. intros ? _. apply not_elem_of_nil.
Qed.

(** What production requires of the software and of the policies. *)
Definition production_ok (d : CeremonyDefinition) : Prop :=
  let s := cd_Software d in
  sw_SourceDirty s = false ∧
  validateProductionBuildProfile (sw_GoVersion s) (sw_GoOS s) (sw_GoArch s) (sw_GoAMD64 s)
    (sw_Compiler s) (sw_BuildMode s) (sw_CGOEnabled s) (sw_TrimPath s) = Ok tt ∧
  ProductionMinimumWitnessLeadSeconds <= bp_MinimumWitnessLeadSeconds (cd_BeaconPolicy d) ∧
  (2 <= length (cd_Roster d))%nat ∧
  ∀ p, p = cd_Phase1Policy d ∨ p = cd_Phase2Policy d →
    (2 <= length (pp_Participants p))%nat ∧ pp_Minimum p = Z.of_nat (length (pp_Participants p)).

Definition roster_ids (d : CeremonyDefinition) : list (list Z) := id_ID ∘ pt_Identity <$> cd_Roster d.

Record definition_ok (d : CeremonyDefinition) : Prop := {
  def_schema : cd_Schema d = DefinitionSchema;
  def_id : cd_CeremonyID d = content_id d;
  def_mode : cd_Mode d = ModeRehearsal ∨ cd_Mode d = ModeProduction ∧ production_ok d;
  def_created : validateTimestamp "created_at" (cd_CreatedAt d) = Ok tt;
  def_nonce : validateHex (cd_SessionNonceHex d) 32 = Ok tt;
  def_circuit : CircuitBinding_Validate (cd_Circuit d) = Ok tt;
  def_software : SoftwareBinding_Validate (cd_Software d) = Ok tt;
  def_identities : Forall (λ i, Identity_Validate i = Ok tt) (roles d);
  def_distinct : distinct (roles d);
  def_auditors : (2 <= length (cd_Auditors d))%nat;
  def_roster : 0 < Z.of_nat (length (cd_Roster d)) <= MaxParticipants;
  def_policies : policy_ok (roster_ids d) (cd_Phase1Policy d) ∧
                 policy_ok (roster_ids d) (cd_Phase2Policy d);
  def_beacon : BeaconPolicy_Validate (cd_BeaconPolicy d) = Ok tt;
  def_genesis : ArtifactRef_Validate (cd_Phase1Genesis d) = Ok tt;
}.

Lemma policy_ok_perm r r' p : (∀ x, x ∈ r → x ∈ r') → policy_ok r p → policy_ok r' p.
Proof. intros Hr []. constructor; try done. intros x Hx. by apply Hr, policy_roster0. Qed.

Lemma initial_distinct (d : CeremonyDefinition) (c := cd_Coordinator d) (r := cd_ReleaseSigner d) :
  distinct [c; r] ↔ id_ID r ≠ id_ID c ∧ id_KeyID r ≠ id_KeyID c ∧
    id_PublicKeyFingerprint r ≠ id_PublicKeyFingerprint c.
Proof.
  change [c; r] with ([c] ++ [r]). rewrite distinct_snoc. cbn.
  rewrite !list_elem_of_singleton. split; [by intros (_ & ?)|].
  intros ?. split; [constructor; apply NoDup_singleton|done].
Qed.

Lemma validate_production_policies_Ok d : validate_production_policies d = Ok tt ↔
  ProductionMinimumWitnessLeadSeconds <= bp_MinimumWitnessLeadSeconds (cd_BeaconPolicy d) ∧
  (2 <= length (cd_Roster d))%nat ∧
  ∀ p, p = cd_Phase1Policy d ∨ p = cd_Phase2Policy d →
    (2 <= length (pp_Participants p))%nat ∧ pp_Minimum p = Z.of_nat (length (pp_Participants p)).
Proof.
  unfold validate_production_policies.
  rewrite !bind_unit, !check_tt, !Nat.ltb_ge, Z.ltb_ge, !negb_false_iff, !Z.eqb_eq.
  split; [intros; destruct_and?; split_and!; [done..|by intros p [->| ->]]|].
  intros (? & ? & Hp). destruct (Hp _ (or_introl eq_refl)), (Hp _ (or_intror eq_refl)). done.
Qed.

Lemma validate_mode_Ok d : ModeRehearsal ≠ ModeProduction →
  validate_mode d = Ok tt ∧
  (if bool_decide (cd_Mode d = ModeProduction) then validate_production_policies d else Ok tt) = Ok tt ↔
  cd_Mode d = ModeRehearsal ∨ cd_Mode d = ModeProduction ∧ production_ok d.
Proof.
  intros Hne. unfold validate_mode, production_ok. destruct (decide (cd_Mode d = ModeRehearsal)) as [E|E].
  { rewrite bool_decide_eq_true_2, bool_decide_eq_false_2 by congruence. naive_solver. }
  rewrite bool_decide_eq_false_2 by done. destruct (decide (cd_Mode d = ModeProduction)) as [E'|E'].
  - rewrite !bool_decide_eq_true_2 by done.
    rewrite bind_unit, check_tt, within_tt, validate_production_policies_Ok. tauto.
  - rewrite !bool_decide_eq_false_2 by done. split; [by intros [[=] _]|]. by intros [|[? _]].
Qed.

Lemma roles_split d : distinct (roles d) ↔
  distinct [cd_Coordinator d; cd_ReleaseSigner d] ∧
  distinct ([cd_Coordinator d; cd_ReleaseSigner d] ++ cd_Auditors d) ∧
  distinct (([cd_Coordinator d; cd_ReleaseSigner d] ++ cd_Auditors d) ++ (pt_Identity <$> cd_Roster d)).
Proof.
  rewrite <- app_assoc. split; [|by intros (_ & _ & ?)]. intros Hd. split_and!; [..|exact Hd].
  - exact (distinct_app_l [_; _] (_ ++ _) Hd).
  - apply (distinct_app_l _ (pt_Identity <$> cd_Roster d)). rewrite <- app_assoc. exact Hd.
Qed.

Lemma identities_split d : Forall (λ i, Identity_Validate i = Ok tt) (roles d) ↔
  Identity_Validate (cd_Coordinator d) = Ok tt ∧ Identity_Validate (cd_ReleaseSigner d) = Ok tt ∧
  Forall (λ i, Identity_Validate i = Ok tt) (cd_Auditors d) ∧
  Forall (λ p, Participant_Validate p = Ok tt) (cd_Roster d).
Proof. unfold roles. by rewrite !Forall_cons, Forall_app, Forall_fmap. Qed.

Lemma roster_ids_rev d x : x ∈ rev (id_ID ∘ pt_Identity <$> [] ++ cd_Roster d) ↔ x ∈ roster_ids d.
Proof. by rewrite list_elem_of_In, <- in_rev, <- list_elem_of_In. Qed.

Lemma definition_validate_Ok d : CeremonyDefinition_Validate d = Ok tt ↔ definition_ok d.
Proof.
  assert (ModeRehearsal ≠ ModeProduction) as Hne by discriminate.
  unfold CeremonyDefinition_Validate. rewrite validate_record_Ok. cbn [rec_validate CeremonyDefinition_content rec_id].
  unfold CeremonyDefinition_validate. change (initial_taken d) with (taken_of [cd_Coordinator d; cd_ReleaseSigner d]).
  split.
  - intros [Hv Hid].
    repeat match goal with
    | H : mbind _ _ = Ok _ |- _ => apply bind_Ok in H as (? & ? & ?)
    | H : within _ _ = Ok _ |- _ => apply within_Ok in H
    | H : check _ _ = Ok _ |- _ => apply check_Ok in H
    | x : unit |- _ => destruct x
    end.
    tests_in. unfold check_schema_and_id in *. inv_checks.
    match goal with
    | Ha : take_auditors _ _ = _, Hr : take_roster _ _ _ = _ |- _ =>
        apply take_auditors_Ok in Ha as (? & Hda & ->); [|apply initial_distinct; auto];
        apply (take_roster_Ok _ []) in Hr as (? & Hdr & ->); [|exact Hda|apply suffix_nil]
    end.
    constructor; try assumption.
    + apply validate_mode_Ok; [exact Hne|]. split; assumption.
    + apply identities_split. split_and!; assumption.
    + lia.
    + split; eapply policy_ok_perm; [apply roster_ids_rev|by apply PhasePolicy_Validate_Ok|
        apply roster_ids_rev|by apply PhasePolicy_Validate_Ok].
  - intros []. apply roles_split in def_distinct0 as (Hdi & Hda & Hdr).
    apply identities_split in def_identities0 as (? & ? & ? & ?).
    apply (validate_mode_Ok d Hne) in def_mode0 as [? ?]. destruct def_policies0.
    pose proof (proj1 (initial_distinct d) Hdi) as (? & ? & ?).
    split; [|assumption]. unfold check_schema_and_id. pass_checks; try assumption; try lia.
    + rewrite def_id0. apply validateHashID_canonical.
    + apply take_auditors_Ok; [exact Hdi|]. split_and!; [assumption|assumption|reflexivity].
    + apply (take_roster_Ok _ []); [exact Hda|apply suffix_nil|]. split_and!; [assumption|assumption|reflexivity].
    + apply PhasePolicy_Validate_Ok. eapply policy_ok_perm; [apply roster_ids_rev|assumption].
    + apply PhasePolicy_Validate_Ok. eapply policy_ok_perm; [apply roster_ids_rev|assumption].
Qed.

Lemma definition_instant d : CeremonyDefinition_Validate d = Ok tt → instant (time_of (cd_CreatedAt d)).
Proof.
  intros Hd%definition_validate_Ok. destruct (validateTimestamp_Ok _ _ (def_created d Hd)) as (c & Hc & _ & ->).
  by apply civil_Time_instant.
Qed.

Lemma Identity_print i : Identity_Validate i = Ok tt → ∃ pub,
  hex_DecodeString (id_Ed25519PublicKeyHex i) = Some pub ∧ id_PublicKeyFingerprint i = taggedSHA256 pub.
Proof.
  unfold Identity_Validate, decodeFixedHex. intros Hi. inv_checks.
  destruct (hex_DecodeString _) as [pub|]; [|discriminate]. exists pub.
  match goal with H : Ok _ = Ok _ |- _ => apply Ok_inj in H as -> end. done.
Qed.

Lemma distinct_public_keys l : Forall (λ i, Identity_Validate i = Ok tt) l → distinct l →
  NoDup (id_Ed25519PublicKeyHex <$> l).
Proof.
  intros Hv [_ _ Hp].
  apply (NoDup_fmap_1 (λ k, taggedSHA256 (default [] (hex_DecodeString k)))).
  rewrite <- list_fmap_compose. erewrite list_fmap_ext; [exact Hp|].
  intros k i Hi. rewrite Forall_lookup in Hv. destruct (Identity_print i (Hv k i Hi)) as (pub & He & ->).
  cbn. by rewrite He.
Qed.

Lemma ParticipantByID_roster d id : id ∈ roster_ids d →
  ∃ p, ParticipantByID d id = Some p ∧ p ∈ cd_Roster d ∧ id_ID (pt_Identity p) = id.
Proof.
  unfold roster_ids, ParticipantByID. intros (p & -> & Hp)%list_elem_of_fmap.
  destruct (List.find _ _) as [q|] eqn:Hf.
  - apply List.find_some in Hf as [Hq He]. apply bool_decide_eq_true in He.
    exists q. by rewrite list_elem_of_In.
  - apply (List.find_none _ _) with (x := p) in Hf; [|by rewrite <- list_elem_of_In].
    by apply bool_decide_eq_false in Hf.
Qed.

Lemma policy_of_phase d phase p : definition_ok d → PolicyForPhase d phase = Ok p →
  policy_ok (roster_ids d) p ∧ (p = cd_Phase1Policy d ∨ p = cd_Phase2Policy d).
Proof.
  intros [] Hp. destruct def_policies0. unfold PolicyForPhase in Hp.
  repeat case_bool_decide; try discriminate Hp; apply Ok_inj in Hp as <-; auto.
Qed.

(** [CeremonyDefinition.Validate] accepts exactly the definitions whose identifier is
    the hash of their content and whose circuit, software, beacon, roles and policies
    are as [definition_ok] states, error or success on every input. *)
Theorem CeremonyDefinition_Validate_exact d : CeremonyDefinition_Validate d = Ok tt ↔ definition_ok d.
Proof. apply definition_validate_Ok. Qed.

(** C11 Roles are separate in a valid definition: no two of the coordinator, the release
    signer, the auditors and the participants share an identifier or a key, there are two
    auditors or more, and whoever a policy schedules is a participant of the roster, so
    neither an auditor nor one of the two signers. *)
Theorem CeremonyDefinition_roles d : CeremonyDefinition_Validate d = Ok tt →
  NoDup (id_ID <$> roles d) ∧ NoDup (id_KeyID <$> roles d) ∧
  NoDup (id_Ed25519PublicKeyHex <$> roles d) ∧ (2 <= length (cd_Auditors d))%nat ∧
  ∀ phase p id, PolicyForPhase d phase = Ok p → id ∈ pp_Participants p →
    (∃ q, ParticipantByID d id = Some q ∧ q ∈ cd_Roster d ∧ id_ID (pt_Identity q) = id) ∧
    id ≠ id_ID (cd_Coordinator d) ∧ id ≠ id_ID (cd_ReleaseSigner d) ∧
    id ∉ id_ID <$> cd_Auditors d.
Proof.
  intros Hd%definition_validate_Ok. pose proof (def_distinct d Hd) as Hdist.
  split; [apply Hdist|]. split; [apply Hdist|].
  split; [by apply distinct_public_keys; [apply def_identities|]|].
  split; [by apply def_auditors|]. intros phase p id Hp Hid.
  destruct (policy_of_phase d phase p Hd Hp) as [Hpol _].
  pose proof (policy_roster _ _ Hpol id Hid) as Hr.
  split; [by apply ParticipantByID_roster|].
  destruct Hdist as [Hn _ _]. unfold roles in Hn. rewrite !fmap_cons, fmap_app in Hn.
  apply NoDup_cons in Hn as [Hc Hn]. apply NoDup_cons in Hn as [Hrs Hn]. apply NoDup_app in Hn as (_ & Hna & _).
  rewrite <- list_fmap_compose in *. split_and!.
  - intros ->. apply Hc. right. apply elem_of_app. by right.
  - intros ->. apply Hrs. apply elem_of_app. by right.
  - intros Hin. by apply (Hna id Hin).
Qed.
