(* ===== verification/MpcPhaseCorrect.v ===== *)
(** * A phase, from its first contribution to its seal

    The order in time that the acceptances, the close, the beacon and the seal of a
    phase impose together, and what the challenge of the beacon commits to. *)
From stdpp Require Import strings.
From stdpp Require Import sorting.
From S2P Require Import Prelude.
From S2P Require Import GoText.
From S2P Require Import GoError.
From S2P Require Import Sha256.
From S2P Require Import GoTime.
From S2P Require Import GoJson.
From S2P Require Import MpcModel.
From S2P Require Import MpcPreflight.
From S2P Require Import MpcDefinition.
From S2P Require Import MpcAttestation.
From S2P Require Import MpcChain.
From S2P Require Import MpcClose.
From S2P Require Import MpcTranscript.
From S2P Require Import MpcRecords.
From S2P Require Import MpcChainCorrect.
From S2P Require Import MpcCeremonyCorrect.

(** ** The instants of validated records *)

Lemma timestamp_instant label s : validateTimestamp label s = Ok tt → instant (time_of s).
Proof. intros (c & Hc & _ & ->)%validateTimestamp_Ok. by apply civil_Time_instant. Qed.

Lemma After_instants s t : instant s → instant t → time_After s t = true ↔ nanos t < nanos s.
Proof. intros [_ ?] [_ ?]. by apply After_nanos. Qed.


Lemma contribution_instant a : ContributionAttestation_Validate a = Ok tt →
  instant (time_of (ca_ContributedAt a)).
Proof.
  intros [Hv _]%(validate_record_Ok a). cbn [rec_validate ContributionAttestation_content] in Hv.
  unfold ContributionAttestation_validate in Hv. inv_checks. eapply timestamp_instant; eassumption.
Qed.

Lemma erasure_instant e : ErasureAttestation_Validate e = Ok tt → instant (time_of (er_DestroyedAt e)).
Proof.
  intros [Hv _]%(validate_record_Ok e). cbn [rec_validate ErasureAttestation_content] in Hv.
  unfold ErasureAttestation_validate in Hv. inv_checks. eapply timestamp_instant; eassumption.
Qed.

Lemma accepted_instant `{MapOrder} r : ChainRecord_Validate r = Ok tt → instant (accepted_time r).
Proof.
  intros [Hv _]%(validate_record_Ok r). cbn [rec_validate ChainRecord_content] in Hv.
  unfold ChainRecord_validate in Hv. inv_checks. eapply timestamp_instant; eassumption.
Qed.

(** ** Acceptances *)

Section acceptances.
Context `{MapOrder}.
Context (definition : CeremonyDefinition).

(** One accepted contribution: its attestation, its erasure and its record. *)
Definition acceptance : Type := ContributionAttestation * ErasureAttestation * ChainRecord.
Definition acc_record (x : acceptance) : ChainRecord := x.2.

Definition created : Z := nanos (time_of (cd_CreatedAt definition)).
Definition acceptance_times (x : acceptance) : list Z :=
  let '(a, e, r) := x in
  [nanos (time_of (ca_ContributedAt a)); nanos (time_of (er_DestroyedAt e)); nanos (accepted_time r)].

(** What the checks of an acceptance tie together. *)
Record accepted (x : acceptance) : Prop := {
  acc_erasure : erasure_binds x.1.1 x.1.2 = true;
  acc_binds : acceptance_binds x.1.1 x.1.2 (acc_record x) = true;
  acc_software : software_binds (cd_Software definition) x.1.1 = true;
  acc_participant : is_participant definition (ca_ParticipantID x.1.1) (ca_ParticipantKeyID x.1.1) = true;
}.

Lemma acceptance_Ok c a e r : ValidateAttestationAcceptance definition c a e r = Ok tt →
  accepted (a, e, r) ∧ instant (accepted_time r) ∧
  created < nanos (time_of (ca_ContributedAt a)) < nanos (time_of (er_DestroyedAt e)) ∧
  nanos (time_of (er_DestroyedAt e)) < nanos (accepted_time r) ∧
  ∀ p, last (ch_Records c) = Some p → instant (accepted_time p) →
    nanos (accepted_time p) < nanos (time_of (ca_ContributedAt a)).
Proof.
  unfold ValidateAttestationAcceptance. intros Hv.
  apply bind_Ok in Hv as ([] & Hd%definition_instant & Hv). apply bind_Ok in Hv as ([] & _ & Hv).
  apply bind_Ok in Hv as ([] & Ha%contribution_instant & Hv).
  apply bind_Ok in Hv as ([] & He & Hv). apply bind_Ok in Hv as ([] & Hr%accepted_instant & Hv).
  apply bind_Ok in Hv as (payload & _ & Hv). apply bind_Ok in Hv as (id & _ & Hv).
  apply bind_Ok in Hv as ([] & _ & Hv). apply bind_Ok in Hv as ([] & Hb & Hv).
  apply bind_Ok in Hv as ([] & Hp & Hv). apply bind_Ok in Hv as ([] & Hs & Hv).
  apply bind_Ok in Hv as ([] & Hc & Hv). apply bind_Ok in Hv as ([] & Hl & Hv).
  unfold ValidateErasureForContribution in He. apply bind_Ok in He as ([] & _ & He).
  apply bind_Ok in He as ([] & Hei%within_Ok%erasure_instant & He).
  apply bind_Ok in He as ([] & Heb & He).
  apply check_Ok, negb_false_iff in Hb, Hp, Hs, Hc, Hv, Heb, He.
  apply After_instants in Hc, He, Hv; [|assumption..].
  split; [by constructor|]. split; [done|]. split; [done|]. split; [done|].
  intros p Hlast Hpi. rewrite Hlast in Hl. apply check_Ok, negb_false_iff in Hl.
  by apply After_instants in Hl.
Qed.

(** The loop of a replay: from the chain without records, each acceptance validated
    against the chain so far and appended to it. *)
Inductive accepted_run : Chain → list acceptance → Prop :=
| run_start c : Chain_Validate c = Ok tt → ch_Records c = [] → accepted_run c []
| run_accept c xs a e r c' : accepted_run c xs →
    ValidateAttestationAcceptance definition c a e r = Ok tt →
    Chain_Append (Some c) r = (Some c', Ok tt) → accepted_run c' (xs ++ [(a, e, r)]).

Lemma run_records c xs : accepted_run c xs →
  ch_Records c = acc_record <$> xs ∧ Chain_Validate c = Ok tt ∧ Forall accepted xs.
Proof.
  induction 1 as [c Hv Hr|c xs a e r c' _ (IHr & _ & IHa) Ha [-> Hv]%Chain_Append_Ok]; [by rewrite Hr|].
  apply acceptance_Ok in Ha as (Ha & _). rewrite fmap_app, <- IHr. split; [done|]. split; [done|].
  apply Forall_app. split; [done|]. by apply Forall_singleton.
Qed.

Lemma sorted_snoc l x : StronglySorted Z.lt l → (∀ y, last l = Some y → y < x) →
  StronglySorted Z.lt (l ++ [x]).
Proof.
  intros Hs Hx. apply StronglySorted_app_2; [|done|repeat constructor].
  intros y z Hy Hz%list_elem_of_singleton. subst z.
  destruct l as [|w l _] using rev_ind; [by apply elem_of_nil in Hy|].
  specialize (Hx w (last_snoc _ _)). apply elem_of_app in Hy as [Hy|Hy%list_elem_of_singleton]; [|by subst].
  assert (y < w); [|lia]. apply (StronglySorted_app_1_elem_of _ l [w] y w Hs Hy). by left.
Qed.

Definition timeline (xs : list acceptance) : list Z := concat (acceptance_times <$> xs).

Lemma timeline_snoc xs a e r : created :: timeline (xs ++ [(a, e, r)]) =
  (((created :: timeline xs) ++ [nanos (time_of (ca_ContributedAt a))]) ++
     [nanos (time_of (er_DestroyedAt e))]) ++ [nanos (accepted_time r)].
Proof. unfold timeline. rewrite fmap_app, concat_app. cbn. by rewrite <- !app_assoc. Qed.

Lemma run_timeline c xs : accepted_run c xs → StronglySorted Z.lt (created :: timeline xs) ∧
  last (created :: timeline xs) =
    Some (from_option (λ p, nanos (accepted_time p)) created (last (ch_Records c))) ∧
  (∀ p, last (ch_Records c) = Some p → instant (accepted_time p)).
Proof.
  induction 1 as [c _ Hr|c xs a e r c' _ (IHs & IHl & IHi) Ha [-> _]%Chain_Append_Ok].
  { rewrite Hr. split; [repeat constructor|]. done. }
  apply acceptance_Ok in Ha as (_ & Hi & (H1 & H2) & H3 & H4).
  rewrite timeline_snoc. cbn [with_records ch_Records]. rewrite !last_snoc. split_and!; [|done|by intros ? [= <-]].
  repeat apply sorted_snoc; rewrite ?last_snoc; try (intros y [= <-]; assumption); [exact IHs|].
  rewrite IHl. intros y [= <-]. destruct (last (ch_Records c)) as [p|] eqn:Hp;
    [exact (H4 p eq_refl (IHi p eq_refl))|exact H1].
Qed.

(** C36 A replayed phase is ordered in time: the definition, then for each record in turn
    the contribution, the destruction of its secret and its acceptance, each strictly
    after the one before; and every contribution was made with the software of the
    definition by a participant with the key of the roster, and is the one its record
    and its erasure name. *)
Theorem accepted_run_ordered c xs : accepted_run c xs →
  StronglySorted Z.lt (created :: timeline xs) ∧ ch_Records c = acc_record <$> xs ∧
  Chain_Validate c = Ok tt ∧ Forall accepted xs.
Proof. intros Hr. split; [by apply (run_timeline c)|]. by apply run_records. Qed.

End acceptances.

(** ** Close, beacon and seal *)

(** What a valid close record says of time; [uint64] is the type of its round. *)
Lemma close_record_times close : 0 <= cl_BeaconRound close < 2 ^ 64 →
  CloseRecord_Validate close = Ok tt →
  instant (time_of (cl_ClosedAt close)) ∧
  QuicknetRoundTime (cl_BeaconRound close) =
    Ok {| t_sec := round_seconds (cl_BeaconRound close); t_nsec := 0 |} ∧
  time_of (cl_BeaconNotBefore close) = {| t_sec := round_seconds (cl_BeaconRound close); t_nsec := 0 |}.
Proof.
  intros Hr [Hv _]%(validate_record_Ok close). cbn [rec_validate CloseRecord_content] in Hv.
  unfold CloseRecord_validate in Hv. inv_checks.
  match goal with
  | Hn : validateTimestamp "beacon_not_before" _ = _, Hc : validateTimestamp "closed_at" _ = _,
    Hq : QuicknetRoundTime _ = Ok ?t, He : time_Equal _ _ = true |- _ =>
      apply Equal_spec in He; apply timestamp_instant in Hn, Hc; rewrite He in Hn;
      destruct (round_exact _ _ Hr Hq Hn) as [_ ->]; by split_and!
  end.
Qed.

(** [time_Sub] saturates above every lead a definition can ask for. *)
Lemma Sub_lead t u lead : time_Sub t u <? lead = false → 0 <= lead < 2 ^ 63 → lead <= nanos t - nanos u.
Proof. unfold time_Sub, nanos. rewrite Z.ltb_ge. lia. Qed.

Section close.
Context `{MapOrder}.
Implicit Types (d : CeremonyDefinition) (c : Chain) (close : CloseRecord).

Definition policy_of d phase : PhasePolicy := or_zero zero_PhasePolicy (PolicyForPhase d phase).

(** The bindings of a close record, with the head of the chain spelt out. *)
Record close_ok d c close : Prop := {
  close_definition : CeremonyDefinition_Validate d = Ok tt;
  close_chain : ValidateAgainstDefinition c d = Ok tt;
  close_record : CloseRecord_Validate close = Ok tt;
  close_participants : close_participation d (policy_of d (ch_Phase c)) c = Ok tt;
  close_binding : close_binds c (payload_after c (ch_Records c)) (id_after c (ch_Records c))
                    (cr_ParticipantID <$> ch_Records c) close = true;
  close_beacon : cl_BeaconProvider close = bp_Provider (cd_BeaconPolicy d) ∧
                 cl_BeaconNetwork close = bp_Network (cd_BeaconPolicy d);
  close_coordinator : cl_CoordinatorID close = id_ID (cd_Coordinator d) ∧
                      cl_CoordinatorKeyID close = id_KeyID (cd_Coordinator d);
  close_ordered : close_times d c close = Ok tt;
}.

Lemma against_definition_chain c d : ValidateAgainstDefinition c d = Ok tt → Chain_Validate c = Ok tt.
Proof. unfold ValidateAgainstDefinition. by intros [? _]%bind_unit. Qed.

Lemma or_zero_Ok {A} z (r : result go_error A) a : r = Ok a → or_zero z r = a.
Proof. by intros ->. Qed.

Lemma ValidateClose_Ok d c close : ValidateClose d c close = Ok tt ↔ close_ok d c close.
Proof.
  unfold ValidateClose. split.
  - intros Hv. apply bind_unit in Hv as [Hd Hv]. apply bind_unit in Hv as [Hc Hv].
    pose proof (against_definition_chain c d Hc) as Hcv.
    rewrite (or_zero_Ok _ _ _ (proj2 (HeadRecordID_Ok c _) (conj Hcv eq_refl))) in Hv.
    rewrite (or_zero_Ok _ _ _ (proj2 (HeadPayload_Ok c _) (conj Hcv eq_refl))) in Hv.
    rewrite (or_zero_Ok _ _ _ (proj2 (ParticipantIDs_Ok c _) (conj Hcv eq_refl))) in Hv.
    rewrite !bind_unit, !check_tt, !orb_false_iff, !differs_false, negb_false_iff in Hv.
    destruct Hv as (? & ? & ? & ? & ? & ?). by constructor.
  - intros []. pose proof (against_definition_chain c d close_chain0) as Hcv.
    rewrite (or_zero_Ok _ _ _ (proj2 (HeadRecordID_Ok c _) (conj Hcv eq_refl))).
    rewrite (or_zero_Ok _ _ _ (proj2 (HeadPayload_Ok c _) (conj Hcv eq_refl))).
    rewrite (or_zero_Ok _ _ _ (proj2 (ParticipantIDs_Ok c _) (conj Hcv eq_refl))).
    rewrite !bind_unit, !check_tt, !orb_false_iff, !differs_false, negb_false_iff.
    destruct close_beacon0, close_coordinator0. split_and!; assumption.
Qed.

Lemma last_accepted c p r : Chain_Validate c = Ok tt → last (ch_Records c) = Some p → r ∈ ch_Records c →
  instant (accepted_time r) ∧ nanos (accepted_time r) <= nanos (accepted_time p).
Proof.
  intros (_ & _ & Hl)%Chain_Validate_Ok Hp Hr.
  assert (∀ q, q ∈ ch_Records c → instant (accepted_time q)) as Hi.
  { intros q (ps & qs & Hq)%list_elem_of_split. apply accepted_instant, (Hl ps q qs Hq). }
  split; [by apply Hi|]. apply last_Some in Hp as (ps & Hps). rewrite Hps in Hr, Hi.
  apply elem_of_app in Hr as [Hr|Hr%list_elem_of_singleton]; [|by subst].
  pose proof (linked_times _ _ Hl) as Hs. rewrite Hps in Hs.
  pose proof (StronglySorted_app_1_elem_of _ ps [p] r p Hs Hr ltac:(by left)) as Ha.
  apply After_instants in Ha; [lia|apply Hi..]; apply elem_of_app; [right; by left|by left].
Qed.

Lemma prefix_by_lookup {A} (l k : list A) : (∀ i x, l !! i = Some x → k !! i = Some x) → l `prefix_of` k.
Proof.
  revert k. induction l as [|x l IH]; intros k Hk; [apply prefix_nil|].
  pose proof (Hk 0%nat x eq_refl) as H0. destruct k as [|y k]; [discriminate H0|].
  injection H0 as ->. apply prefix_cons, IH. intros i z. apply (Hk (S i) z).
Qed.

(** The accepted participants are the first ones the policy schedules, in its order. *)
Lemma against_definition_Ok c d : ValidateAgainstDefinition c d = Ok tt →
  CeremonyDefinition_Validate d = Ok tt ∧ ch_CeremonyID c = cd_CeremonyID d ∧
  ∃ p, PolicyForPhase d (ch_Phase c) = Ok p ∧
    (cr_ParticipantID <$> ch_Records c) `prefix_of` pp_Participants p.
Proof.
  unfold ValidateAgainstDefinition. intros [_ Hv]%bind_unit. apply bind_unit in Hv as [Hd Hv].
  apply bind_unit in Hv as [Hc%check_Ok Hv]. apply bind_unit in Hv as [_ Hv].
  apply bind_Ok in Hv as (p & Hp & Hv). split; [done|].
  split; [by apply (proj1 (bool_decide_neq_false _ _)) in Hc|]. exists p. split; [done|].
  apply prefix_by_lookup. intros i x. rewrite list_lookup_fmap. intros (r & Hr & ->)%fmap_Some.
  apply (proj1 (each_from_Ok _ _ _)) with (k := i) (x := r) in Hv; [|done].
  unfold record_in_definition in Hv. apply bind_unit in Hv as [Hv%check_Ok _].
  by apply (proj1 (bool_decide_neq_false _ _)) in Hv.
Qed.

Lemma close_times_Ok d c close : 0 <= cl_BeaconRound close < 2 ^ 64 →
  0 <= bp_MinimumWitnessLeadSeconds (cd_BeaconPolicy d) < 2 ^ 32 → close_ok d c close →
  let closed := nanos (time_of (cl_ClosedAt close)) in
  let round := round_seconds (cl_BeaconRound close) * 10 ^ 9 in
  created d < closed < round ∧ (∀ r, r ∈ ch_Records c → nanos (accepted_time r) < closed) ∧
  closed + bp_MinimumWitnessLeadSeconds (cd_BeaconPolicy d) * 10 ^ 9 <= round.
Proof.
  intros Hr Hm Hok. pose proof (against_definition_chain _ _ (close_chain _ _ _ Hok)) as Hc.
  pose proof (definition_instant _ (close_definition _ _ _ Hok)) as Hd.
  destruct (close_record_times close Hr (close_record _ _ _ Hok)) as (Hci & Hq & Hn).
  pose proof (close_ordered _ _ _ Hok) as Ht. unfold close_times in Ht.
  apply bind_unit in Ht as [H1%check_Ok Ht]. apply bind_unit in Ht as [H2 Ht].
  rewrite Hq in Ht. cbn [mbind result_bind] in Ht.
  apply bind_unit in Ht as [_ Ht]. apply bind_unit in Ht as [H3%check_Ok H4%check_Ok].
  apply negb_false_iff in H1, H3. apply After_instants in H1; [|assumption..].
  apply After_nanos in H3; [|cbn; lia|apply Hci].
  apply Sub_lead in H4; rewrite i64_small in *; try lia.
  unfold nanos at 2 in H3. unfold nanos at 1 in H4. cbn [t_sec t_nsec] in H3, H4. cbv zeta.
  split; [unfold created; lia|]. split; [|lia]. intros r Hin.
  destruct (last (ch_Records c)) as [p|] eqn:Hp; [|by apply last_None in Hp; rewrite Hp in Hin; apply elem_of_nil in Hin].
  destruct (last_accepted c p r Hc Hp Hin) as [_ Hle].
  destruct (last_accepted c p p Hc Hp) as [Hpi _]; [apply last_Some in Hp as [ps ->]; apply elem_of_app; right; by left|].
  apply check_Ok, negb_false_iff, After_instants in H2; [unfold accepted_time in *; lia|assumption..].
Qed.

Lemma beacon_published beacon : BeaconRecord_Validate beacon = Ok tt →
  instant (time_of (bc_PublishedAt beacon)).
Proof.
  intros [Hv _]%(validate_record_Ok beacon). cbn [rec_validate BeaconRecord_content] in Hv.
  unfold BeaconRecord_validate in Hv. inv_checks. eapply timestamp_instant; eassumption.
Qed.

Lemma seal_sealed seal : SealRecord_Validate seal = Ok tt → instant (time_of (sl_SealedAt seal)).
Proof.
  intros [Hv _]%(validate_record_Ok seal). cbn [rec_validate SealRecord_content] in Hv.
  unfold SealRecord_validate in Hv. inv_checks. eapply timestamp_instant; eassumption.
Qed.

(** What [ValidateBeacon] ties together. *)
Record beacon_ok d close (beacon : BeaconRecord) : Prop := {
  beacon_record : BeaconRecord_Validate beacon = Ok tt;
  beacon_binding : beacon_binds close beacon = true;
  beacon_challenge : ∃ randomness challenge,
    decodeBeaconRandomness (bc_RandomnessHex beacon) = Ok randomness ∧
    DeriveBeaconChallenge (cl_CloseID close) (cl_BeaconProvider close) (cl_BeaconNetwork close)
      (cl_BeaconRound close) randomness = Ok challenge ∧
    challenge_matches beacon challenge = true;
  beacon_time : time_Before (time_of (bc_PublishedAt beacon)) (time_of (cl_BeaconNotBefore close)) = false;
}.

Lemma ValidateBeacon_Ok d close beacon : ValidateBeacon d close beacon = Ok tt → beacon_ok d close beacon.
Proof.
  unfold ValidateBeacon. intros Hv. apply bind_unit in Hv as [_ Hv]. apply bind_unit in Hv as [_ Hv].
  apply bind_unit in Hv as [Hb Hv]. apply bind_unit in Hv as [_ Hv].
  apply bind_unit in Hv as [Hbind%check_Ok%negb_false_iff Hv].
  apply bind_Ok in Hv as (rnd & Hrnd & Hv). apply bind_Ok in Hv as (ch & Hch & Hv).
  apply bind_unit in Hv as [Hm%check_Ok%negb_false_iff Hv].
  apply bind_unit in Hv as [Hpub%check_Ok _].
  constructor; [exact Hb|exact Hbind| |exact Hpub]. exists rnd, ch. split_and!; assumption.
Qed.

(** C15 Close, beacon and seal of a phase validate together only in order: everything
    accepted lies strictly before the close, the round the close names is at least the
    signed lead later (a day, in production), the beacon is not published before its
    scheduled time, nor the seal made before the publication.  Instants in nanoseconds;
    the ranges are those of the fields' Go types. *)
Theorem phase_ordered d c close beacon seal :
  0 <= cl_BeaconRound close < 2 ^ 64 → 0 <= bp_MinimumWitnessLeadSeconds (cd_BeaconPolicy d) < 2 ^ 32 →
  ValidateClose d c close = Ok tt → ValidateBeacon d close beacon = Ok tt →
  ValidateSeal close beacon seal = Ok tt →
  let closed := nanos (time_of (cl_ClosedAt close)) in
  let round := round_seconds (cl_BeaconRound close) * 10 ^ 9 in
  created d < closed ∧ (∀ r, r ∈ ch_Records c → nanos (accepted_time r) < closed) ∧
  closed < round ∧ closed + bp_MinimumWitnessLeadSeconds (cd_BeaconPolicy d) * 10 ^ 9 <= round ∧
  (cd_Mode d = ModeProduction → closed + 24 * 60 * 60 * 10 ^ 9 <= round) ∧
  round <= nanos (time_of (bc_PublishedAt beacon)) <= nanos (time_of (sl_SealedAt seal)).
Proof.
  intros Hr Hm Hc%ValidateClose_Ok Hb%ValidateBeacon_Ok Hs.
  destruct (close_times_Ok d c close Hr Hm Hc) as ((H1 & H2) & H3 & H4).
  split_and!; try assumption.
  - intros Hp. pose proof (close_definition _ _ _ Hc) as Hd. apply definition_validate_Ok in Hd.
    destruct (def_mode d Hd) as [Hmode|[_ (_ & _ & Hlead & _)]]; [by rewrite Hp in Hmode|].
    unfold ProductionMinimumWitnessLeadSeconds in Hlead. lia.
  - destruct (close_record_times close Hr (close_record _ _ _ Hc)) as (_ & _ & Hn).
    pose proof (beacon_time _ _ _ Hb) as Ht. rewrite Hn in Ht.
    apply Before_nanos in Ht; [unfold nanos at 1 in Ht; cbn [t_sec t_nsec] in Ht; lia|apply (beacon_published _ (beacon_record _ _ _ Hb))|cbn; lia].
  - unfold ValidateSeal in Hs. apply bind_unit in Hs as [_ Hs]. apply bind_unit in Hs as [Hbv Hs].
    apply bind_unit in Hs as [Hsv Hs]. apply bind_unit in Hs as [_ Hs%check_Ok].
    apply Before_nanos in Hs; [exact Hs|apply (seal_sealed _ Hsv)|apply (beacon_published _ Hbv)].
Qed.

(** C40 [ValidateClose] binds the close record to the chain: it names the head, the final
    payload and the participants accepted, who are the first ones the policy of the phase
    schedules, in its order - all of them in production, as many as the minimum asks for
    in a rehearsal - and the close is of the ceremony and by its coordinator. *)
Theorem ValidateClose_participation d c close : ValidateClose d c close = Ok tt → ∃ p,
  PolicyForPhase d (ch_Phase c) = Ok p ∧
  cl_AcceptedParticipants close = cr_ParticipantID <$> ch_Records c ∧
  cl_AcceptedParticipants close `prefix_of` pp_Participants p ∧
  NoDup (cl_AcceptedParticipants close) ∧
  (cd_Mode d = ModeProduction → cl_AcceptedParticipants close = pp_Participants p) ∧
  (cd_Mode d = ModeRehearsal → pp_Minimum p <= Z.of_nat (length (cl_AcceptedParticipants close))) ∧
  HeadRecordID c = Ok (cl_ChainHeadID close) ∧ HeadPayload c = Ok (cl_FinalPayload close) ∧
  cl_CeremonyID close = cd_CeremonyID d ∧ cl_CoordinatorID close = id_ID (cd_Coordinator d).
Proof.
  intros [Hd Hc _ Hpart Hbind _ [Hco _] _]%ValidateClose_Ok.
  pose proof (against_definition_chain _ _ Hc) as Hv.
  destruct (against_definition_Ok c d Hc) as (_ & Hcer & p & Hp & Hpre). exists p.
  unfold close_binds in Hbind. tests_in.
  unfold policy_of in Hpart. rewrite Hp in Hpart. cbn [or_zero] in Hpart.
  apply bind_unit in Hpart as [Hprod%check_Ok Hreh%check_Ok].
  match goal with Ha : cl_AcceptedParticipants close = _ |- _ => rewrite !Ha end.
  rewrite HeadRecordID_Ok, HeadPayload_Ok, length_fmap. split_and!; try assumption; try congruence.
  - apply (linked_participants c). by apply Chain_Validate_Ok in Hv as (_ & _ & ?).
  - intros Hm. rewrite bool_decide_eq_true_2 in Hprod by done. cbn [andb] in Hprod.
    apply negb_false_iff, Z.eqb_eq in Hprod. apply prefix_length_eq; [done|]. rewrite length_fmap. lia.
  - intros Hm. rewrite bool_decide_eq_true_2 in Hreh by done. cbn [andb] in Hreh.
    by apply Z.ltb_ge in Hreh.
Qed.
End close.

(** * What the challenge of a phase commits to

    The challenge hashes the identifier of the close record, which hashes the head of the
    chain, which hashes every record back to the genesis and the ceremony's identifier,
    which hashes the definition: two phases with one challenge are one phase, or some two
    of the strings hashed on the way are a collision of SHA-256. *)

(** ** The bytes of the challenge *)

Lemma validateHashID_shape label s : validateHashID label s = Ok tt →
  ∃ t, s = sha256_tag ++ t ∧ length t = 64%nat.
Proof.
  intros [Hp%check_Ok%negb_false_iff Hx]%within_tt%bind_unit. unfold HasPrefix in Hp.
  apply bool_decide_eq_true in Hp as [t Ht]. pose proof (strip_prefix_Some _ _ _ Ht) as ->. exists t.
  split; [done|]. rewrite TrimPrefix_app in Hx. apply bind_unit in Hx as [Hx%check_Ok _].
  apply negb_false_iff, Nat.eqb_eq in Hx. lia.
Qed.

Lemma DeriveBeaconChallenge_Ok closeID provider network round randomness ch :
  DeriveBeaconChallenge closeID provider network round randomness = Ok ch ↔
  validateHashID "close_id" closeID = Ok tt ∧ provider = BeaconProviderDrand ∧
  network = BeaconNetworkQuicknet ∧ round ≠ 0 ∧ length randomness = 32%nat ∧
  ch = sha256_Sum256 (beacon_preimage closeID provider network round randomness).
Proof.
  unfold DeriveBeaconChallenge. split; [intros; inv_checks; done|].
  intros (? & -> & -> & ? & ? & ->). by pass_checks.
Qed.

Lemma be_bytes_inj n x y : 0 <= x < 256 ^ Z.of_nat n → 0 <= y < 256 ^ Z.of_nat n →
  be_bytes n x = be_bytes n y → x = y.
Proof.
  intros Hx Hy He. apply (f_equal be_val) in He. rewrite !be_val_be_bytes in He.
  by rewrite !Z.mod_small in He.
Qed.

(** Equal lengths of the variable fields make the preimage injective; the length prefixes
    are the same bytes on both sides. *)
Lemma beacon_preimage_inj i i' r r' n n' :
  length i = length i' → length n = length n' → 0 <= r < 2 ^ 64 → 0 <= r' < 2 ^ 64 →
  beacon_preimage i BeaconProviderDrand BeaconNetworkQuicknet r n =
  beacon_preimage i' BeaconProviderDrand BeaconNetworkQuicknet r' n' →
  i = i' ∧ r = r' ∧ n = n'.
Proof.
  intros Hi Hn Hr Hr' He. unfold beacon_preimage, writeBeaconChallengeField in He.
  rewrite Hi, Hn, <- !app_assoc in He. do 3 apply app_inv_head in He.
  apply app_inj_1 in He as [-> He]; [|done]. do 4 apply app_inv_head in He.
  apply app_inj_1 in He as [Hb He]; [|by rewrite !length_be_bytes].
  apply app_inv_head in He as ->. split; [done|]. split; [|done].
  by apply (be_bytes_inj 8) in Hb.
Qed.

(** The challenge of the beacon determines everything it was derived from - the close
    record's identifier, the round and the randomness - or the two strings hashed are a
    collision of SHA-256. *)
Theorem DeriveBeaconChallenge_binds i p w r n i' p' w' r' n' ch :
  0 <= r < 2 ^ 64 → 0 <= r' < 2 ^ 64 →
  DeriveBeaconChallenge i p w r n = Ok ch → DeriveBeaconChallenge i' p' w' r' n' = Ok ch →
  (i = i' ∧ p = p' ∧ w = w' ∧ r = r' ∧ n = n') ∨
  collision_in [beacon_preimage i p w r n; beacon_preimage i' p' w' r' n'].
Proof.
  intros Hr Hr' (Hi & -> & -> & _ & Hn & ->)%DeriveBeaconChallenge_Ok
    (Hi' & -> & -> & _ & Hn' & He)%DeriveBeaconChallenge_Ok.
  destruct (collision_intro _ _ [beacon_preimage i BeaconProviderDrand BeaconNetworkQuicknet r n;
    beacon_preimage i' BeaconProviderDrand BeaconNetworkQuicknet r' n']
    ltac:(left) ltac:(right; left) He) as [Hp|]; [left|by right].
  apply validateHashID_shape in Hi as (t & -> & Ht), Hi' as (t' & -> & Ht').
  apply beacon_preimage_inj in Hp as (-> & -> & ->); try done; [|congruence].
  by rewrite !length_app, Ht, Ht'.
Qed.

(** ** Phases with one challenge *)

Section commitments.
Context `{MapOrder}.

(** One phase: its definition, its chain, its close record and its beacon. *)
Record phase_run := {
  run_definition : CeremonyDefinition;
  run_chain : Chain;
  run_close : CloseRecord;
  run_beacon : BeaconRecord;
}.

(** The phase validates; its strings are UTF-8 and its round is a [uint64]. *)
Record phase_valid (x : phase_run) : Prop := {
  run_utf8_definition : utf8_record (run_definition x);
  run_utf8_chain : utf8_chain (run_chain x);
  run_utf8_close : utf8_record (run_close x);
  run_round : 0 <= cl_BeaconRound (run_close x) < 2 ^ 64;
  run_closed : ValidateClose (run_definition x) (run_chain x) (run_close x) = Ok tt;
  run_beaconed : ValidateBeacon (run_definition x) (run_close x) (run_beacon x) = Ok tt;
}.

Definition run_randomness (x : phase_run) : list Z :=
  or_zero [] (decodeBeaconRandomness (bc_RandomnessHex (run_beacon x))).

(** Every string hashed on the way from the definition to the challenge. *)
Definition run_preimages (x : phase_run) : list (list Z) :=
  let close := run_close x in
  [ beacon_preimage (cl_CloseID close) (cl_BeaconProvider close) (cl_BeaconNetwork close)
      (cl_BeaconRound close) (run_randomness x);
    record_preimage close; record_preimage (run_definition x) ] ++
  chain_preimages (run_chain x) (ch_Records (run_chain x)).

Lemma run_challenge x : phase_valid x → ∃ ch,
  DeriveBeaconChallenge (cl_CloseID (run_close x)) (cl_BeaconProvider (run_close x))
    (cl_BeaconNetwork (run_close x)) (cl_BeaconRound (run_close x)) (run_randomness x) = Ok ch ∧
  bc_ChallengeHex (run_beacon x) = hex_EncodeToString ch.
Proof.
  intros [_ _ _ _ _ [_ _ (rnd & ch & Hr & Hd & Hm) _]%ValidateBeacon_Ok].
  exists ch. unfold run_randomness. rewrite Hr. cbn [or_zero]. split; [done|].
  unfold challenge_matches in Hm. apply andb_true_iff in Hm as [Hm _]. by apply bool_decide_eq_true in Hm.
Qed.

Lemma chain_eq c d : ch_Schema c = ch_Schema d → ch_CeremonyID c = ch_CeremonyID d →
  ch_Phase c = ch_Phase d → ch_PhaseID c = ch_PhaseID d → ch_Genesis c = ch_Genesis d →
  ch_Records c = ch_Records d → c = d.
Proof. destruct c, d. cbn. congruence. Qed.

(** Subsets of the strings of two phases. *)
Lemma run_preimages_mono x y k l : k ⊆ run_preimages x → l ⊆ run_preimages y →
  collision_in (k ++ l) → collision_in (run_preimages x ++ run_preimages y).
Proof.
  intros Hk Hl. apply collision_mono. intros z [Hz|Hz]%elem_of_app; apply elem_of_app;
    [left; by apply Hk|right; by apply Hl].
Qed.

Lemma close_determines_chain x y : phase_valid x → phase_valid y → run_close x = run_close y →
  run_chain x = run_chain y ∨ collision_in (run_preimages x ++ run_preimages y).
Proof.
  intros [_ Ux _ _ Cx _] [_ Uy _ _ Cy _] He. apply ValidateClose_Ok in Cx, Cy.
  pose proof (against_definition_chain _ _ (close_chain _ _ _ Cx)) as Vx.
  pose proof (against_definition_chain _ _ (close_chain _ _ _ Cy)) as Vy.
  pose proof (close_binding _ _ _ Cx) as Bx. pose proof (close_binding _ _ _ Cy) as By.
  rewrite He in Bx. unfold close_binds in Bx, By. tests_in.
  apply Chain_Validate_Ok in Vx as (Sx & _ & Lx), Vy as (Sy & _ & Ly).
  assert (id_after (run_chain x) (ch_Records (run_chain x)) =
          id_after (run_chain y) (ch_Records (run_chain y))) as Hid by congruence.
  rewrite <- (with_own_records (run_chain x)) in Ux. rewrite <- (with_own_records (run_chain y)) in Uy.
  destruct (linked_commits _ _ _ _ Lx Ly Ux Uy Hid) as [(? & ? & ? & ?)|Hc].
  - left. apply chain_eq; try congruence. by rewrite (scope_schema _ Sx), (scope_schema _ Sy).
  - right. eapply run_preimages_mono; [| |exact Hc]; intros z Hz; unfold run_preimages;
      apply elem_of_app; by right.
Qed.

Lemma chain_determines_definition x y : phase_valid x → phase_valid y → run_chain x = run_chain y →
  run_definition x = run_definition y ∨ collision_in (run_preimages x ++ run_preimages y).
Proof.
  intros [Ux _ _ _ Cx _] [Uy _ _ _ Cy _] He. apply ValidateClose_Ok in Cx, Cy.
  destruct (against_definition_Ok _ _ (close_chain _ _ _ Cx)) as (Dx & Ex & _).
  destruct (against_definition_Ok _ _ (close_chain _ _ _ Cy)) as (Dy & Ey & _).
  destruct (validate_record_commits _ _ Ux Uy Dx Dy) as [|Hc]; [|by left|right].
  { change (cd_CeremonyID (run_definition x) = cd_CeremonyID (run_definition y)). congruence. }
  eapply (run_preimages_mono x y [_] [_]); [| |exact Hc];
    intros z ->%list_elem_of_singleton; right; right; left.
Qed.

(** C7 The challenge commits to the ceremony: two validated phases whose beacons give one
    challenge have the same definition, chain, close record and randomness - or two of
    the strings hashed on the way are a collision of SHA-256. *)
Theorem challenge_commits x y : phase_valid x → phase_valid y →
  bc_ChallengeHex (run_beacon x) = bc_ChallengeHex (run_beacon y) →
  (run_definition x = run_definition y ∧ run_chain x = run_chain y ∧ run_close x = run_close y ∧
   run_randomness x = run_randomness y) ∨
  collision_in (run_preimages x ++ run_preimages y).
Proof.
  intros Hx Hy He.
  destruct (run_challenge x Hx) as (ch & Dx & Ex), (run_challenge y Hy) as (ch' & Dy & Ey).
  apply DeriveBeaconChallenge_Ok in Dx as (Ix & Px & Nx & _ & Lx & ->), Dy as (Iy & Py & Ny & _ & Ly & ->).
  rewrite Ex, Ey in He. apply hex_inj in He; [|apply sha256_bytes..].
  pose proof (ValidateClose_Ok (run_definition x) (run_chain x) (run_close x)) as [Cx _].
  specialize (Cx (run_closed _ Hx)).
  pose proof (ValidateClose_Ok (run_definition y) (run_chain y) (run_close y)) as [Cy _].
  specialize (Cy (run_closed _ Hy)).
  apply (collision_intro _ _ (run_preimages x ++ run_preimages y)) in He;
    [|left|apply elem_of_app; right; left].
  destruct He as [He|]; [|by right]. rewrite Px, Nx, Py, Ny in He.
  apply validateHashID_shape in Ix as (t & Ix & Ht), Iy as (t' & Iy & Ht').
  apply beacon_preimage_inj in He as (Hid & _ & Hrnd);
    [|by rewrite Ix, Iy, !length_app, Ht, Ht'|congruence|apply Hx|apply Hy].
  destruct (validate_record_commits _ _ (run_utf8_close _ Hx) (run_utf8_close _ Hy)
    (close_record _ _ _ Cx) (close_record _ _ _ Cy) Hid) as [Hclose|Hc].
  2:{ right. eapply (run_preimages_mono x y [_] [_]); [| |exact Hc];
      intros z ->%list_elem_of_singleton; right; left. }
  destruct (close_determines_chain x y Hx Hy Hclose) as [Hchain|]; [|by right].
  destruct (chain_determines_definition x y Hx Hy Hchain) as [Hdef|]; [|by right].
  left. split_and!; assumption.
Qed.
End commitments.
