(* ===== verification/MpcExamples.v ===== *)
(** * A concrete phase

    A rehearsal with one participant, from its definition to its seal, and the theorems of
    the ceremony applied to it.  Identifiers stay the hashes they are defined as; only
    the fingerprints of the five keys are computed. *)
From stdpp Require Import strings.
From stdpp Require Import sorting.
From S2P Require Import Prelude.
From S2P Require Import GoText.
From S2P Require Import GoError.
From S2P Require Import Sha256.
From S2P Require Import GoTime.
From S2P Require Import GoJson.
From S2P Require Import MpcModel.
From S2P Require Import MpcPreflight.
From S2P Require Import MpcPreflightCorrect.
From S2P Require Import MpcDefinition.
From S2P Require Import MpcAttestation.
From S2P Require Import MpcChain.
From S2P Require Import MpcClose.
From S2P Require Import MpcTranscript.
From S2P Require Import MpcRecords.
From S2P Require Import MpcChainCorrect.
From S2P Require Import MpcCeremonyCorrect.
From S2P Require Import MpcPhaseCorrect.

(** ** Ranging over a map in the order written *)

#[export] Instance written_order : MapOrder :=
  {| map_order A l := l; map_order_perm A l := Permutation_refl l |}.

(** ** The parts of the definition *)

Definition ex_hex (n : nat) (c : Z) : list Z := replicate (2 * n) c.
Definition ex_digest (c : Z) : Digest :=
  {| dg_SHA256 := sha256_tag ++ ex_hex 32 c; dg_Blake2b256 := str "blake2b256:" ++ ex_hex 32 c; dg_Size := 1 |}.
Definition ex_artifact (name : string) (c : Z) : ArtifactRef :=
  {| ar_Name := str name; ar_Digest := ex_digest c |}.

(** The Ed25519 public keys of the seeds that repeat the byte [k] thirty-two times, for
    the roles that sign; the keys of the others are never used. *)
Definition ex_key (k : Z) : list Z := be_bytes 32 (nth (Z.to_nat k)
  [ 0;
    62661036972089873194988114229977232981811067054527611535751773680930539925340;
    58449889452932177999902662096814260659848332164030469170284519647491337597844;
    107327406362185050093384615227644817185084895674039226969770273319063799674833;
    91628109653329269446615640518334049285888367141089099501821708681845268987516;
    5;
    62658360002158406412394351439084034809154993927565034872715236844521913622295;
    105972701332782993179751780839298865295991511371060824367120795422459049726508 ] k).
Definition ex_identity (name : string) (k : Z) : Identity :=
  {| id_ID := str name; id_DisplayName := str name; id_KeyID := str name ++ str "-key";
     id_Ed25519PublicKeyHex := hex_EncodeToString (ex_key k);
     id_PublicKeyFingerprint := taggedSHA256 (ex_key k) |}.

Definition ex_circuit : CircuitBinding :=
  {| cb_KeyVersion := KeyVersionDestinationV3; cb_CircuitID := CircuitIDDestinationV3;
     cb_Curve := CurveBLS12381; cb_Backend := BackendGroth16; cb_R1CS := ex_artifact "circuit.r1cs" 49;
     cb_Constraints := 3; cb_InternalVariables := 2; cb_SecretVariables := 1; cb_PublicVariables := 1;
     cb_DomainSize := Z.shiftl 1 22;
     cb_Phase2Shape := {| p2_Commitments := 0; p2_PKK := 1; p2_Z := 3; p2_SigmaCKK := None;
                          p2_ChallengeLength := 0 |} |}.

Definition ex_software : SoftwareBinding :=
  {| sw_ProofToolVersion := str "0.1"; sw_GnarkVersion := GnarkVersion;
     sw_GnarkCryptoVersion := GnarkCryptoVersion; sw_DrandVersion := DrandVersion;
     sw_GoVersion := ProductionGoVersion; sw_GoOS := ProductionGOOS; sw_GoArch := ProductionGOARCH;
     sw_GoAMD64 := ProductionGOAMD64; sw_Compiler := ProductionCompiler;
     sw_BuildMode := ProductionBuildMode; sw_CGOEnabled := false; sw_TrimPath := true;
     sw_SourceCommit := ex_hex 20 97; sw_SourceDirty := false; sw_ToolBinary := ex_digest 50 |}.

Definition ex_beacon_policy : BeaconPolicy :=
  {| bp_Provider := BeaconProviderDrand; bp_Network := BeaconNetworkQuicknet;
     bp_ChainHashHex := BeaconQuicknetChainHash; bp_PublicKeyHex := BeaconQuicknetPublicKey;
     bp_Scheme := BeaconQuicknetScheme; bp_GenesisTimeUnix := BeaconQuicknetGenesis;
     bp_PeriodSeconds := BeaconQuicknetPeriod; bp_Extraction := BeaconExtractionV1;
     bp_MinimumChallengeBytes := 32; bp_MinimumWitnessLeadSeconds := 3600;
     bp_FutureRoundRequired := true |}.

Definition ex_policy : PhasePolicy := {| pp_Participants := [str "alice"]; pp_Minimum := 1 |}.
Definition ex_genesis : ArtifactRef := ex_artifact "phase1/genesis.bin" 51.

Definition ex_unidentified (id : list Z) : CeremonyDefinition :=
  {| cd_Schema := DefinitionSchema; cd_CeremonyID := id; cd_Mode := ModeRehearsal;
     cd_CreatedAt := str "2023-08-24T00:00:00Z"; cd_SessionNonceHex := ex_hex 32 48;
     cd_Circuit := ex_circuit; cd_Software := ex_software;
     cd_Coordinator := ex_identity "coordinator" 1; cd_ReleaseSigner := ex_identity "release" 2;
     cd_Auditors := [ex_identity "auditor-1" 3; ex_identity "auditor-2" 4];
     cd_Roster := [ {| pt_Identity := ex_identity "alice" 5 |} ];
     cd_Phase1Policy := ex_policy; cd_Phase2Policy := ex_policy;
     cd_BeaconPolicy := ex_beacon_policy; cd_Phase1Genesis := ex_genesis |}.

Definition ex_ceremony_id : list Z := content_id (ex_unidentified []).
Definition ex_definition : CeremonyDefinition := ex_unidentified ex_ceremony_id.

(** The fingerprints differ, since the first bytes of the digests do. *)
Lemma ex_prints : (λ k, take 2 (sha256_Sum256 (ex_key k))) <$> [1; 2; 3; 4; 5] =
  [[52; 117]; [106; 56]; [182; 46]; [197; 185]; [150; 222]].
Proof. vm_compute. reflexivity. Qed.

Definition print_head (print : list Z) : list Z :=
  take 2 (default [] (hex_DecodeString (TrimPrefix print sha256_tag))).

Lemma print_head_tagged k : print_head (taggedSHA256 k) = take 2 (sha256_Sum256 k).
Proof.
  unfold print_head, taggedSHA256. rewrite TrimPrefix_app, hex_round_trip; [done|]. apply sha256_bytes.
Qed.

Lemma ex_distinct : distinct (roles ex_definition).
Proof.
  constructor; [apply (bool_decide_unpack _); vm_compute; exact I..|].
  apply (NoDup_fmap_1 print_head). rewrite <- list_fmap_compose.
  change (print_head ∘ id_PublicKeyFingerprint <$> roles ex_definition)
    with ((λ k, print_head (taggedSHA256 (ex_key k))) <$> [1; 2; 3; 4; 5]).
  erewrite list_fmap_ext; [|intros; apply print_head_tagged]. rewrite ex_prints.
  apply (bool_decide_unpack _). vm_compute. exact I.
Qed.

Lemma ex_identity_valid name k : validateID "identity id" (str name) = Ok tt →
  validateID "identity key_id" (str name ++ str "-key") = Ok tt →
  TrimSpace (str name) = str name → str name ≠ [] → utf8_ValidString (str name) = true →
  0 <= k < 256 → Identity_Validate (ex_identity name k) = Ok tt.
Proof.
  intros Hi Hk Ht Hn Hu Hb. unfold Identity_Validate. cbn [ex_identity id_ID id_DisplayName id_KeyID
    id_Ed25519PublicKeyHex id_PublicKeyFingerprint]. rewrite Ht.
  assert (Forall is_byte (ex_key k)) as Hbytes by apply be_bytes_are_bytes.
  pass_checks; try done.
  unfold decodeFixedHex. rewrite validateHex_encoded; [|done|apply length_be_bytes].
  cbn [mbind result_bind]. by rewrite hex_round_trip.
Qed.

(** A closed check that involves no hash. *)
Ltac evaluate := vm_compute; reflexivity.
(** An identifier that is a hash. *)
Ltac hashed := apply validateHashID_canonical.

Lemma ex_identities : Forall (λ i, Identity_Validate i = Ok tt) (roles ex_definition).
Proof.
  refine (Forall_cons_2 _ _ _ (ex_identity_valid "coordinator" 1 _ _ _ _ _ _)
    (Forall_cons_2 _ _ _ (ex_identity_valid "release" 2 _ _ _ _ _ _)
    (Forall_cons_2 _ _ _ (ex_identity_valid "auditor-1" 3 _ _ _ _ _ _)
    (Forall_cons_2 _ _ _ (ex_identity_valid "auditor-2" 4 _ _ _ _ _ _)
    (Forall_cons_2 _ _ _ (ex_identity_valid "alice" 5 _ _ _ _ _ _) (Forall_nil_2 _))))));
    first [evaluate|lia|discriminate].
Qed.

Lemma ex_definition_ok : definition_ok ex_definition.
Proof.
  constructor; cbn [ex_definition ex_unidentified cd_Schema cd_CeremonyID cd_Mode cd_CreatedAt
    cd_SessionNonceHex cd_Circuit cd_Software cd_Coordinator cd_ReleaseSigner cd_Auditors cd_Roster
    cd_Phase1Policy cd_Phase2Policy cd_BeaconPolicy cd_Phase1Genesis].
  - reflexivity.
  - symmetry. exact (content_id_set ex_ceremony_id (ex_unidentified [])).
  - by left.
  - evaluate.
  - evaluate.
  - evaluate.
  - evaluate.
  - exact ex_identities.
  - exact ex_distinct.
  - cbn. lia.
  - unfold MaxParticipants. cbn. lia.
  - split; apply PhasePolicy_Validate_Ok; evaluate.
  - evaluate.
  - evaluate.
Qed.

Lemma ex_definition_valid : CeremonyDefinition_Validate ex_definition = Ok tt.
Proof. apply definition_validate_Ok, ex_definition_ok. Qed.

Lemma ex_ceremony_id_hash label : validateHashID label ex_ceremony_id = Ok tt.
Proof. hashed. Qed.
Lemma ex_ceremony_id_utf8 : utf8_bytes ex_ceremony_id = true.
Proof. apply canonicalHash_utf8. Qed.
#[local] Opaque ex_ceremony_id.

(** ** The first contribution *)

Definition ex_phase_id : list Z := canonicalHash (str "proof-tool/mpc-ceremony/phase/v1")
  (JObj [ (str "ceremony_id", JStr ex_ceremony_id); (str "phase", JStr Phase1);
          (str "genesis", ArtifactRef_json ex_genesis); (str "parent_seal_id", JStr []) ]).

Lemma ex_phase_id_hash label : validateHashID label ex_phase_id = Ok tt.
Proof. hashed. Qed.
Lemma ex_phase_id_utf8 : utf8_bytes ex_phase_id = true.
Proof. apply canonicalHash_utf8. Qed.

Lemma ex_phase_id_computed : ComputePhaseID ex_ceremony_id Phase1 ex_genesis [] = Ok ex_phase_id.
Proof.
  unfold ComputePhaseID. pass_checks; [apply ex_ceremony_id_hash|evaluate|evaluate|evaluate|evaluate|].
  reflexivity.
Qed.
#[local] Opaque ex_phase_id.

Definition ex_chain0 : Chain :=
  {| ch_Schema := ChainSchema; ch_CeremonyID := ex_ceremony_id; ch_Phase := Phase1;
     ch_PhaseID := ex_phase_id; ch_Genesis := ex_genesis; ch_Records := [] |}.

Lemma ex_chain0_scope : scope_ok ex_chain0.
Proof. constructor; [reflexivity|apply ex_ceremony_id_hash|evaluate|apply ex_phase_id_hash|evaluate]. Qed.

Lemma ex_chain0_valid : Chain_Validate ex_chain0 = Ok tt.
Proof. apply Chain_Validate_Ok. split; [exact ex_chain0_scope|]. split; [discriminate|apply linked_nil]. Qed.

Definition ex_head0 : list Z := genesis_id ex_chain0.
Lemma ex_head0_hash label : validateHashID label ex_head0 = Ok tt.
Proof. hashed. Qed.
Lemma ex_head0_utf8 : utf8_bytes ex_head0 = true.
Proof. apply canonicalHash_utf8. Qed.
#[local] Opaque ex_head0 content_id.

(** A check of an example record: of a hash by the lemmas, of anything else by running it
    by need, so that no hash is computed. *)
Ltac hash_check :=
  lazymatch goal with
  | |- validateHashID ?label ?h = Ok tt =>
      let h := eval cbn in h in change (validateHashID label h = Ok tt);
      lazymatch goal with
      | |- validateHashID _ ex_ceremony_id = _ => exact (ex_ceremony_id_hash _)
      | |- validateHashID _ ex_phase_id = _ => exact (ex_phase_id_hash _)
      | |- validateHashID _ ex_head0 = _ => exact (ex_head0_hash _)
      | |- validateHashID _ (content_id _) = _ => apply content_id_hash
      end
  end.
Ltac example_check := first [hash_check | lazy; reflexivity | lazy; discriminate].

Definition ex_output : ArtifactRef := ex_artifact "phase1/0001.bin" 52.

Definition ex_attestation_body : ContributionAttestation :=
  {| ca_Schema := ContributionAttestationSchema; ca_AttestationID := [];
     ca_CeremonyID := ex_ceremony_id; ca_Phase := Phase1; ca_PhaseID := ex_phase_id; ca_Index := 1;
     ca_ParticipantID := str "alice"; ca_ParticipantKeyID := str "alice-key";
     ca_PreviousPayload := ex_genesis; ca_OutputPayload := ex_output;
     ca_PreviousAcceptanceID := ex_head0; ca_ToolBinary := ex_digest 50;
     ca_SourceCommit := ex_hex 20 97; ca_GnarkVersion := GnarkVersion;
     ca_GnarkCryptoVersion := GnarkCryptoVersion; ca_DrandVersion := DrandVersion;
     ca_Environment :=
       {| ce_OS := str "linux"; ce_Architecture := str "amd64";
          ce_EntropySource := str "operating-system-csprng"; ce_SwapDisabled := true;
          ce_CrashDumpsDisabled := true; ce_TelemetryDisabled := true;
          ce_EphemeralEnvironment := true; ce_EphemeralDestructionRequired := true |};
     ca_ContributedAt := str "2023-08-25T00:00:00Z" |}.

Definition ex_attestation : ContributionAttestation :=
  rec_set_id (content_id ex_attestation_body) ex_attestation_body.

Lemma ex_attestation_valid : ContributionAttestation_Validate ex_attestation = Ok tt.
Proof.
  unfold ContributionAttestation_Validate, ex_attestation. apply with_content_id_valid.
  cbn [rec_validate ContributionAttestation_content]. unfold ContributionAttestation_validate.
  pass_checks; example_check.
Qed.

Definition ex_erasure_body : ErasureAttestation :=
  {| er_Schema := ErasureAttestationSchema; er_ErasureID := []; er_CeremonyID := ex_ceremony_id;
     er_Phase := Phase1; er_PhaseID := ex_phase_id; er_Index := 1; er_ParticipantID := str "alice";
     er_ParticipantKeyID := str "alice-key";
     er_ContributionAttestationID := content_id ex_attestation_body; er_OutputPayload := ex_output;
     er_DestroyedAt := str "2023-08-25T01:00:00Z"; er_ProcessTerminated := true;
     er_EphemeralStorageDestroyed := true; er_NoBackupRetained := true |}.
Definition ex_erasure : ErasureAttestation := rec_set_id (content_id ex_erasure_body) ex_erasure_body.

Lemma ex_erasure_valid : ErasureAttestation_Validate ex_erasure = Ok tt.
Proof.
  unfold ErasureAttestation_Validate, ex_erasure. apply with_content_id_valid.
  cbn [rec_validate ErasureAttestation_content]. unfold ErasureAttestation_validate.
  pass_checks; example_check.
Qed.

Definition ex_record_body : ChainRecord :=
  {| cr_Schema := ChainRecordSchema; cr_RecordID := []; cr_CeremonyID := ex_ceremony_id;
     cr_Phase := Phase1; cr_PhaseID := ex_phase_id; cr_Index := 1; cr_ParticipantID := str "alice";
     cr_PreviousPayload := ex_genesis; cr_OutputPayload := ex_output;
     cr_AttestationID := content_id ex_attestation_body;
     cr_Attestation := ex_artifact "phase1/0001.attestation.json" 53;
     cr_AttestationSignature := ex_artifact "phase1/0001.attestation.sig" 54;
     cr_ErasureID := content_id ex_erasure_body;
     cr_Erasure := ex_artifact "phase1/0001.erasure.json" 55;
     cr_ErasureSignature := ex_artifact "phase1/0001.erasure.sig" 56;
     cr_Verification := ex_artifact "phase1/0001.verification.json" 57;
     cr_PreviousRecordID := ex_head0; cr_CoordinatorID := str "coordinator";
     cr_CoordinatorKeyID := str "coordinator-key"; cr_AcceptedAt := str "2023-08-26T00:00:00Z" |}.
Definition ex_record : ChainRecord := rec_set_id (content_id ex_record_body) ex_record_body.

Lemma ex_record_valid : ChainRecord_Validate ex_record = Ok tt.
Proof.
  unfold ChainRecord_Validate, ex_record. apply with_content_id_valid.
  cbn [rec_validate ChainRecord_content]. unfold ChainRecord_validate.
  pass_checks; example_check.
Qed.

Definition ex_chain : Chain := with_records ex_chain0 [ex_record].

Lemma ex_extends : extends ex_chain0 [] ex_record.
Proof.
  constructor; [exact ex_record_valid|reflexivity..| |].
  - apply not_elem_of_nil.
  - intros p Hp. discriminate Hp.
Qed.

Lemma ex_phase_chain_valid : Chain_Validate ex_chain = Ok tt.
Proof. apply (Chain_Validate_snoc ex_chain0). split; [exact ex_chain0_valid|]. split; [reflexivity|exact ex_extends]. Qed.

Lemma ex_append : Chain_Append (Some ex_chain0) ex_record = (Some ex_chain, Ok tt).
Proof. apply Chain_Append_Ok. split; [reflexivity|exact ex_phase_chain_valid]. Qed.

Lemma ex_participant : ParticipantByID ex_definition (str "alice") =
  Some {| pt_Identity := ex_identity "alice" 5 |}.
Proof. reflexivity. Qed.

Lemma ex_against records : Forall (λ r, r = ex_record) records → (length records <= 1)%nat →
  Chain_Validate (with_records ex_chain0 records) = Ok tt →
  ValidateAgainstDefinition (with_records ex_chain0 records) ex_definition = Ok tt.
Proof.
  intros Hr Hn Hv. unfold ValidateAgainstDefinition. pass_checks; [exact Hv|exact ex_definition_valid|reflexivity| | |].
  - cbn [with_records ex_chain0 ch_Phase]. rewrite bool_decide_eq_true_2 by done.
    change (cd_CeremonyID ex_definition) with ex_ceremony_id.
    change (cd_Phase1Genesis ex_definition) with ex_genesis. rewrite ex_phase_id_computed.
    cbn [mbind result_bind]. pass_checks; reflexivity.
  - cbn [with_records ex_chain0 ch_Phase]. unfold PolicyForPhase. by rewrite bool_decide_eq_true_2.
  - apply each_from_Ok. intros k r Hk. cbn [with_records ch_Records] in Hk.
    pose proof (lookup_lt_Some _ _ _ Hk). assert (k = 0%nat) as -> by lia.
    rewrite Forall_lookup in Hr. rewrite (Hr _ _ Hk). unfold record_in_definition.
    change (cr_ParticipantID ex_record) with (str "alice"). rewrite ex_participant.
    pass_checks; first [reflexivity | discriminate | idtac].
Qed.

Lemma ex_against0 : ValidateAgainstDefinition ex_chain0 ex_definition = Ok tt.
Proof. apply (ex_against []); [apply Forall_nil_2|apply Nat.le_0_l|exact ex_chain0_valid]. Qed.
Lemma ex_against1 : ValidateAgainstDefinition ex_chain ex_definition = Ok tt.
Proof. apply (ex_against [ex_record]); [by apply Forall_singleton|apply Nat.le_refl|exact ex_phase_chain_valid]. Qed.

Lemma ex_acceptance :
  ValidateAttestationAcceptance ex_definition ex_chain0 ex_attestation ex_erasure ex_record = Ok tt.
Proof.
  unfold ValidateAttestationAcceptance. cbv zeta.
  apply bind_unit. split; [exact ex_definition_valid|]. apply bind_unit. split; [exact ex_against0|].
  apply bind_unit. split; [exact ex_attestation_valid|]. apply bind_unit. split.
  { unfold ValidateErasureForContribution. cbv zeta.
    pass_checks; [exact ex_attestation_valid|exact ex_erasure_valid| |lazy; reflexivity].
    unfold erasure_binds. tests_out; reflexivity. }
  apply bind_unit. split; [exact ex_record_valid|]. apply bind_Ok. exists ex_genesis.
  split; [apply HeadPayload_Ok; split; [exact ex_chain0_valid|reflexivity]|].
  apply bind_Ok. exists ex_head0. split; [apply HeadRecordID_Ok; split; [exact ex_chain0_valid|reflexivity]|].
  unfold is_next_child, acceptance_binds, software_binds, is_participant.
  pass_checks; first [reflexivity | lazy; reflexivity].
Qed.

(** ** The end of the phase *)

(** Round 1000001 is scheduled three million seconds after the first. *)
Definition ex_round : Z := 1000001.

Definition ex_close_body : CloseRecord :=
  {| cl_Schema := CloseRecordSchema; cl_CloseID := []; cl_CeremonyID := ex_ceremony_id;
     cl_Phase := Phase1; cl_PhaseID := ex_phase_id; cl_FinalIndex := 1; cl_FinalPayload := ex_output;
     cl_ChainHeadID := content_id ex_record_body; cl_AcceptedParticipants := [str "alice"];
     cl_BeaconProvider := BeaconProviderDrand; cl_BeaconNetwork := BeaconNetworkQuicknet;
     cl_BeaconRound := ex_round; cl_BeaconNotBefore := str "2023-09-27T08:29:27Z";
     cl_ClosedAt := str "2023-08-27T00:00:00Z"; cl_CoordinatorID := str "coordinator";
     cl_CoordinatorKeyID := str "coordinator-key" |}.
Definition ex_close : CloseRecord := rec_set_id (content_id ex_close_body) ex_close_body.

Lemma ex_round_time : QuicknetRoundTime ex_round = Ok (time_of (str "2023-09-27T08:29:27Z")).
Proof. vm_compute. reflexivity. Qed.

Lemma ex_close_valid : CloseRecord_Validate ex_close = Ok tt.
Proof.
  unfold CloseRecord_Validate, ex_close. apply with_content_id_valid.
  cbn [rec_validate CloseRecord_content]. unfold CloseRecord_validate, validateRecordScope.
  change (QuicknetRoundTime (cl_BeaconRound _)) with (QuicknetRoundTime ex_round).
  rewrite ex_round_time. pass_checks; example_check.
Qed.

Lemma ex_closed : ValidateClose ex_definition ex_chain ex_close = Ok tt.
Proof.
  apply ValidateClose_Ok. constructor;
    [exact ex_definition_valid|exact ex_against1|exact ex_close_valid| | |split; reflexivity|split; reflexivity|].
  - lazy. reflexivity.
  - unfold close_binds. tests_out; reflexivity.
  - unfold close_times. cbv zeta. change (cl_BeaconRound ex_close) with ex_round. rewrite ex_round_time.
    pass_checks; first [reflexivity | lazy; reflexivity | lazy; discriminate].
Qed.

Definition ex_randomness : list Z := replicate 32 0.
Definition ex_challenge : list Z := sha256_Sum256
  (beacon_preimage (content_id ex_close_body) BeaconProviderDrand BeaconNetworkQuicknet ex_round ex_randomness).

Definition ex_beacon_body : BeaconRecord :=
  {| bc_Schema := BeaconRecordSchema; bc_BeaconID := []; bc_CeremonyID := ex_ceremony_id;
     bc_Phase := Phase1; bc_PhaseID := ex_phase_id; bc_CloseID := content_id ex_close_body;
     bc_Provider := BeaconProviderDrand; bc_Network := BeaconNetworkQuicknet; bc_Round := ex_round;
     bc_PublishedAt := str "2023-09-27T08:29:30Z";
     bc_RawResponse := ex_artifact "phase1/beacon.json" 48;
     bc_RandomnessHex := ex_hex 32 48; bc_ChallengeHex := hex_EncodeToString ex_challenge;
     bc_ChallengeSHA256 := taggedSHA256 ex_challenge |}.
Definition ex_beacon : BeaconRecord := rec_set_id (content_id ex_beacon_body) ex_beacon_body.

Lemma ex_randomness_decoded : decodeBeaconRandomness (ex_hex 32 48) = Ok ex_randomness.
Proof. vm_compute. reflexivity. Qed.

Lemma ex_challenge_derived : DeriveBeaconChallenge (content_id ex_close_body) BeaconProviderDrand
  BeaconNetworkQuicknet ex_round ex_randomness = Ok ex_challenge.
Proof. apply DeriveBeaconChallenge_Ok. split_and!; first [apply content_id_hash|reflexivity|discriminate]. Qed.
Lemma ex_challenge_length : length ex_challenge = 32%nat.
Proof. apply length_sha256. Qed.
#[local] Opaque ex_challenge.

Lemma ex_challenge_matches : challenge_matches ex_beacon_body ex_challenge = true.
Proof. unfold challenge_matches. tests_out; reflexivity. Qed.

Lemma ex_beacon_valid : BeaconRecord_Validate ex_beacon = Ok tt.
Proof.
  unfold BeaconRecord_Validate, ex_beacon. apply with_content_id_valid.
  cbn [rec_validate BeaconRecord_content]. unfold BeaconRecord_validate, validateRecordScope.
  pass_checks; lazymatch goal with
    | |- decodeBeaconRandomness _ = _ => exact ex_randomness_decoded
    | |- DeriveBeaconChallenge _ _ _ _ _ = _ => exact ex_challenge_derived
    | |- challenge_matches _ _ = _ => exact ex_challenge_matches
    | |- _ => example_check
    end.
Qed.

Lemma ex_beacon_matches : challenge_matches ex_beacon ex_challenge = true.
Proof. unfold challenge_matches. tests_out; reflexivity. Qed.

Lemma ex_beaconed : ValidateBeacon ex_definition ex_close ex_beacon = Ok tt.
Proof.
  unfold ValidateBeacon, beacon_binds. cbv zeta.
  pass_checks; lazymatch goal with
    | |- CeremonyDefinition_Validate _ = _ => exact ex_definition_valid
    | |- CloseRecord_Validate _ = _ => exact ex_close_valid
    | |- BeaconRecord_Validate _ = _ => exact ex_beacon_valid
    | |- decodeBeaconRandomness _ = _ => exact ex_randomness_decoded
    | |- DeriveBeaconChallenge _ _ _ _ _ = _ => exact ex_challenge_derived
    | |- QuicknetRoundTime _ = _ => exact ex_round_time
    | |- challenge_matches _ _ = _ => exact ex_beacon_matches
    | |- time_Before _ _ = _ => lazy; reflexivity
    | |- _ <= Z.of_nat (length ex_challenge) => rewrite ex_challenge_length; discriminate
    | |- _ => reflexivity
    end.
Qed.

Definition ex_seal_body : SealRecord :=
  {| sl_Schema := SealRecordSchema; sl_SealID := []; sl_CeremonyID := ex_ceremony_id;
     sl_Phase := Phase1; sl_PhaseID := ex_phase_id; sl_CloseID := content_id ex_close_body;
     sl_BeaconID := content_id ex_beacon_body; sl_FinalPayload := ex_output;
     sl_Outputs := [ex_artifact "phase1/commons.bin" 49]; sl_SealedAt := str "2023-09-28T00:00:00Z" |}.
Definition ex_seal : SealRecord := rec_set_id (content_id ex_seal_body) ex_seal_body.

Lemma ex_seal_valid : SealRecord_Validate ex_seal = Ok tt.
Proof.
  unfold SealRecord_Validate, ex_seal. apply with_content_id_valid.
  cbn [rec_validate SealRecord_content]. unfold SealRecord_validate, validateRecordScope.
  pass_checks; example_check.
Qed.

Lemma ex_sealed : ValidateSeal ex_close ex_beacon ex_seal = Ok tt.
Proof.
  unfold ValidateSeal, seal_binds.
  pass_checks; lazymatch goal with
    | |- CloseRecord_Validate _ = _ => exact ex_close_valid
    | |- BeaconRecord_Validate _ = _ => exact ex_beacon_valid
    | |- SealRecord_Validate _ = _ => exact ex_seal_valid
    | |- time_Before _ _ = _ => lazy; reflexivity
    | |- _ => reflexivity
    end.
Qed.

(** ** Its strings are UTF-8 *)

Lemma ex_identity_utf8 name k : utf8_bytes (str name) = true → utf8_bytes (str name ++ str "-key") = true →
  0 <= k < 256 → clean (Identity_json (ex_identity name k)) = true.
Proof.
  intros Hn Hk Hb. assert (Forall is_byte (ex_key k)) as Hbytes by apply be_bytes_are_bytes.
  unfold Identity_json, ex_identity.
  cbn [clean forallb id_ID id_DisplayName id_KeyID id_Ed25519PublicKeyHex id_PublicKeyFingerprint].
  rewrite Hn, Hk. unfold taggedSHA256.
  rewrite (tagged_utf8 sha256_tag _ sha256_tag_ascii (sha256_bytes _)).
  pose proof (tagged_utf8 [] _ (Forall_nil_2 _) Hbytes) as Hhex. cbn [app] in Hhex.
  rewrite Hhex. reflexivity.
Qed.

(** A member of a JSON value: a hash by its lemma, an identity by the one above, anything
    else by running it. *)
Ltac utf8_check :=
  lazymatch goal with
  | |- _ && _ = true => apply andb_true_iff; split; utf8_check
  | |- utf8_bytes ?s = true =>
      let s := eval cbn in s in change (utf8_bytes s = true);
      lazymatch goal with
      | |- utf8_bytes ex_ceremony_id = true => exact ex_ceremony_id_utf8
      | |- utf8_bytes ex_phase_id = true => exact ex_phase_id_utf8
      | |- utf8_bytes ex_head0 = true => exact ex_head0_utf8
      | |- utf8_bytes (content_id _) = true => apply content_id_utf8
      | |- _ => lazy; reflexivity
      end
  | |- clean (Identity_json ?i) = true =>
      let i := eval cbn in i in change (clean (Identity_json i) = true);
      apply ex_identity_utf8; [lazy; reflexivity|lazy; reflexivity|lia]
  | |- _ => lazy; reflexivity
  end.
Ltac utf8_object :=
  unfold utf8_record; cbv [rec_json rec_set_id CeremonyDefinition_content ChainRecord_content
    CloseRecord_content CeremonyDefinition_json ChainRecord_json CloseRecord_json Participant_json
    genesis_json];
  cbn [clean forallb fmap list_fmap CeremonyDefinition_set_CeremonyID ex_definition ex_unidentified
    cd_Auditors cd_Roster pt_Identity]; utf8_check.

Lemma ex_utf8_record : utf8_record ex_record.
Proof. utf8_object. Qed.
Lemma ex_utf8_close : utf8_record ex_close.
Proof. utf8_object. Qed.
Lemma ex_utf8_definition : utf8_record ex_definition.
Proof. utf8_object. Qed.

Lemma ex_utf8_chain : utf8_chain ex_chain.
Proof. split; [utf8_object|]. apply Forall_singleton, ex_utf8_record. Qed.

(** ** The theorems at this phase *)

Lemma Chain_invariant_witness : Chain_Validate ex_chain = Ok tt ∧
  cr_Index <$> ch_Records ex_chain = seqZ 1 (Z.of_nat (length (ch_Records ex_chain))).
Proof. split; [exact ex_phase_chain_valid|]. exact (proj1 (proj2 (proj2 (Chain_invariant ex_chain ex_phase_chain_valid)))). Defined.

Lemma Chain_Append_exact_witness : Chain_Validate ex_chain0 = Ok tt ∧ ∃ c' e,
  Chain_Append (Some ex_chain0) ex_record = (Some c', e) ∧
  (e = Ok tt ↔ Z.of_nat (length (ch_Records ex_chain0)) < MaxParticipants ∧
     extends ex_chain0 (ch_Records ex_chain0) ex_record).
Proof.
  split; [exact ex_chain0_valid|].
  destruct (Chain_Append_exact ex_chain0 ex_record ex_chain0_valid) as (c' & e & Ha & He & _).
  exists c', e. exact (conj Ha He).
Defined.

Lemma ex_head_id : HeadRecordID ex_chain = Ok (cr_RecordID ex_record).
Proof. apply HeadRecordID_Ok. split; [exact ex_phase_chain_valid|reflexivity]. Qed.

Lemma HeadRecordID_commits_witness : HeadRecordID ex_chain = Ok (cr_RecordID ex_record) ∧
  ((ch_CeremonyID ex_chain = ch_CeremonyID ex_chain ∧ ch_PhaseID ex_chain = ch_PhaseID ex_chain ∧
    ch_Genesis ex_chain = ch_Genesis ex_chain ∧ ch_Records ex_chain = ch_Records ex_chain) ∨
   collision_in (chain_preimages ex_chain (ch_Records ex_chain) ++
                 chain_preimages ex_chain (ch_Records ex_chain))).
Proof.
  split; [exact ex_head_id|].
  exact (HeadRecordID_commits ex_chain ex_chain (cr_RecordID ex_record) ex_utf8_chain ex_utf8_chain
    ex_head_id ex_head_id).
Defined.

Lemma CeremonyDefinition_roles_witness : CeremonyDefinition_Validate ex_definition = Ok tt ∧
  NoDup (id_ID <$> roles ex_definition).
Proof.
  split; [exact ex_definition_valid|].
  exact (proj1 (CeremonyDefinition_roles ex_definition ex_definition_valid)).
Defined.

Lemma QuicknetRoundTime_exact_witness : 0 <= ex_round < 2 ^ 64 ∧
  (is_ok (QuicknetRoundTime ex_round) = true ↔ 1 <= ex_round <= last_round).
Proof.
  assert (0 <= ex_round < 2 ^ 64) as Hr by (split; [discriminate|reflexivity]).
  exact (conj Hr (proj1 (QuicknetRoundTime_exact ex_round Hr))).
Defined.

Lemma ex_run : accepted_run ex_definition ex_chain [(ex_attestation, ex_erasure, ex_record)].
Proof.
  refine (run_accept ex_definition ex_chain0 [] _ _ _ _ _ ex_acceptance ex_append).
  apply run_start; [exact ex_chain0_valid|reflexivity].
Qed.

Lemma accepted_run_ordered_witness :
  accepted_run ex_definition ex_chain [(ex_attestation, ex_erasure, ex_record)] ∧
  StronglySorted Z.lt (created ex_definition :: timeline [(ex_attestation, ex_erasure, ex_record)]).
Proof.
  split; [exact ex_run|]. exact (proj1 (accepted_run_ordered ex_definition ex_chain _ ex_run)).
Defined.

Lemma ex_round_u64 : 0 <= cl_BeaconRound ex_close < 2 ^ 64.
Proof. split; [discriminate|reflexivity]. Qed.
Lemma ex_lead_u32 : 0 <= bp_MinimumWitnessLeadSeconds (cd_BeaconPolicy ex_definition) < 2 ^ 32.
Proof. split; [discriminate|reflexivity]. Qed.

Lemma phase_ordered_witness : ValidateClose ex_definition ex_chain ex_close = Ok tt ∧
  ValidateBeacon ex_definition ex_close ex_beacon = Ok tt ∧
  ValidateSeal ex_close ex_beacon ex_seal = Ok tt ∧
  created ex_definition < nanos (time_of (cl_ClosedAt ex_close)).
Proof.
  split; [exact ex_closed|]. split; [exact ex_beaconed|]. split; [exact ex_sealed|].
  exact (proj1 (phase_ordered ex_definition ex_chain ex_close ex_beacon ex_seal ex_round_u64 ex_lead_u32
    ex_closed ex_beaconed ex_sealed)).
Defined.

Lemma ValidateClose_participation_witness : ValidateClose ex_definition ex_chain ex_close = Ok tt ∧
  ∃ p, PolicyForPhase ex_definition (ch_Phase ex_chain) = Ok p ∧
    cl_AcceptedParticipants ex_close = cr_ParticipantID <$> ch_Records ex_chain.
Proof.
  split; [exact ex_closed|].
  destruct (ValidateClose_participation ex_definition ex_chain ex_close ex_closed) as (p & Hp & Ha & _).
  exists p. exact (conj Hp Ha).
Defined.

Lemma DeriveBeaconChallenge_binds_witness :
  let i := content_id ex_close_body in
  let x := beacon_preimage i BeaconProviderDrand BeaconNetworkQuicknet ex_round ex_randomness in
  (i = i ∧ BeaconProviderDrand = BeaconProviderDrand ∧ BeaconNetworkQuicknet = BeaconNetworkQuicknet ∧
   ex_round = ex_round ∧ ex_randomness = ex_randomness) ∨ collision_in [x; x].
Proof.
  assert (0 <= ex_round < 2 ^ 64) as Hr by (split; [discriminate|reflexivity]).
  exact (DeriveBeaconChallenge_binds _ _ _ _ _ _ _ _ _ _ _ Hr Hr ex_challenge_derived ex_challenge_derived).
Defined.

Definition ex_phase : phase_run :=
  {| run_definition := ex_definition; run_chain := ex_chain; run_close := ex_close; run_beacon := ex_beacon |}.

Lemma ex_phase_valid : phase_valid ex_phase.
Proof.
  exact (Build_phase_valid ex_phase ex_utf8_definition ex_utf8_chain ex_utf8_close ex_round_u64
    ex_closed ex_beaconed).
Qed.

Lemma challenge_commits_witness : phase_valid ex_phase ∧
  ((run_definition ex_phase = run_definition ex_phase ∧ run_chain ex_phase = run_chain ex_phase ∧
    run_close ex_phase = run_close ex_phase ∧ run_randomness ex_phase = run_randomness ex_phase) ∨
   collision_in (run_preimages ex_phase ++ run_preimages ex_phase)).
Proof.
  split; [exact ex_phase_valid|].
  exact (challenge_commits ex_phase ex_phase ex_phase_valid ex_phase_valid eq_refl).
Defined.
