(* ===== verification/EdModel.v ===== *)
(** * Concrete instances of the third-party interfaces

    The emulated base field over the compiler model of [GnarkModel.v], the Edwards
    library of [public.go] and the BLAKE2b and seed libraries: together they show
    that the laws the theorems assume hold at once. *)
From Stdlib Require Import Zmod Field.
From S2P Require Import Prelude.
From S2P Require Import Gnark.
From S2P Require Import GnarkModel.
From S2P Require Import CkdArith.
From S2P Require Import Blake2bSpec.
From S2P Require Import Ed25519.
From S2P Require Import EdPoly.
From S2P Require Import EdCurve.
From S2P Require Import Ed25519Group.
From S2P Require Import Ed25519Correct.
From S2P Require Import EdOrder.
From S2P Require Import GoEd25519.
From S2P Require Import Ckd.
From S2P Require Import Ownership.

#[local] Obligation Tactic := idtac.

(** ** The emulated field: residues, with a checked division *)

Definition model_div (a b : Fp) : Circuit Fp :=
  if decide (b = Zmod.zero) then
    if decide (a = Zmod.zero) then mret Zmod.zero else circuit_panic
  else mret (Zmod.mdiv a b).

Definition model_mux (sel : var) (es : list Fp) : Circuit Fp :=
  match es !! Z.to_nat (value sel) with Some e => mret e | None => circuit_panic end.

#[export] Program Instance model_emulated : EmulatedField P 255 := {|
  Element := Fp;
  evalue := toZ;
  f_NewElement c := Zmod.of_Z P c;
  f_One := Zmod.one;
  f_Add a b := mret (Zmod.add a b);
  f_Sub a b := mret (Zmod.sub a b);
  f_Mul a b := mret (Zmod.mul a b);
  f_Div := model_div;
  f_Mux := model_mux;
  f_ToBitsCanonical e := mret (wires (bits_of 255 (toZ e)));
|}.
Next Obligation. exact toZ_range. Qed.
Next Obligation. intros c. by rewrite Zmod.to_Z_of_Z. Qed.
Next Obligation. by vm_compute. Qed.
Next Obligation. intros a b. apply ok_ret, Zmod.unsigned_add. Qed.
Next Obligation. intros a b. apply ok_ret, Zmod.unsigned_sub. Qed.
Next Obligation. intros a b. apply ok_ret, Zmod.unsigned_mul. Qed.
Next Obligation.
  intros a b. unfold model_div. destruct (decide (b = Zmod.zero)) as [->|Hb].
  - destruct (decide (a = Zmod.zero)) as [->|]; [|by intros t q t' E].
    apply ok_ret. by vm_compute.
  - apply ok_ret. rewrite <- Zmod.unsigned_mul. f_equal.
    rewrite <- Zmod.mul_inv_r, <- Zmod.mul_assoc.
    rewrite (Zmod.mul_comm (Zmod.inv b)), Zmod.mul_inv_same_r_prime by (exact P_prime || done).
    by rewrite Zmod.mul_1_r.
Qed.
Next Obligation.
  intros a b q Hq Hb. unfold model_div. rewrite decide_False by (intros ->; by apply Hb).
  apply ok_ret. symmetry. apply Fp_quotient; [|done]. intros ->. by apply Hb.
Qed.
Next Obligation. intros sel es e i Hs Hi. unfold model_mux. rewrite Hs, Nat2Z.id, Hi. by apply ok_ret. Qed.
Next Obligation. intros e. apply ok_ret, value_wires_digits. lia. Qed.

(** ** BLAKE2b and the seed libraries *)

#[export] Program Instance model_blake2b : XCryptoBlake2b := {| blake2b_sum n msg := RefBlake2b msg n |}.
Next Obligation. done. Qed.

(** Any 96 bytes will do for a key stretcher. *)
#[export] Program Instance model_seed : SeedLib := {|
  EntropyFromMnemonic phrase := Some phrase;
  pbkdf2_Key _ salt _ n := (λ i, byte (nth i salt 0 + Z.of_nat i)) <$> seq 0 n;
|}.
Next Obligation.
  intros p salt iter n. split; [|by rewrite length_fmap, length_seq].
  apply Forall_fmap, Forall_true. intros i. apply byte_is_byte.
Qed.

(** ** The Edwards library: points of the curve, decoded as the standard library does *)

(** [ed_on] is decidable, so a curve point is its coordinates with a checked bit. *)
#[export] Instance ed_on_dec p : Decision (ed_on p).
Proof. unfold ed_on, on_curve. apply _. Defined.

Record CurvePoint := { cp_point : ed_point; cp_on : bool_decide (ed_on cp_point) = true }.
Definition curve_point (p : ed_point) (H : ed_on p) : CurvePoint :=
  {| cp_point := p; cp_on := bool_decide_eq_true_2 _ H |}.

Definition decode_point (bs : list Z) : option CurvePoint :=
  r ← Point_SetBytes bs;
  match decide (ed_on (Pt (Zmod.of_Z P (X r)) (Zmod.of_Z P (Y r)))) with
  | left H => Some (curve_point _ H)
  | right _ => None
  end.

Lemma decode_encode (p : ed_point) : ed_on p →
  ∃ q, decode_point (RefCompress (ref_of p)) = Some q ∧ cp_point q = p.
Proof.
  intros Hp. unfold decode_point. rewrite Point_SetBytes_encode by exact Hp. cbn [mbind option_bind].
  assert (Pt (Zmod.of_Z P (X (ref_of p))) (Zmod.of_Z P (Y (ref_of p))) = p) as E
    by (destruct p; exact (f_equal2 Pt (Zmod.of_Z_to_Z _) (Zmod.of_Z_to_Z _))).
  rewrite E. destruct (decide (ed_on p)) as [Hd|Hn]; [|exact (False_ind _ (Hn Hp))].
  exists (curve_point p Hd). exact (conj eq_refl eq_refl).
Qed.

#[export] Program Instance model_edwards : Edwards25519 := {|
  Scalar := Z;
  EPoint := CurvePoint;
  SetUniformBytes bs := Some (le_val bs mod group_order);
  SetCanonicalBytes bs := if le_val bs <? group_order then Some (le_val bs) else None;
  ScalarBaseMult s := curve_point (ed_mul s ed_base) (ed_mul_on _ _ ed_base_on);
  EAdd p q := curve_point (ed_add (cp_point p) (cp_point q))
    (ed_add_on _ _ (bool_decide_eq_true_1 _ (cp_on p)) (bool_decide_eq_true_1 _ (cp_on q)));
  EBytes p := RefCompress (ref_of (cp_point p));
  SetBytes := decode_point;
|}.

#[export] Program Instance model_edwards_laws : Edwards25519Laws := {|
  scalar_val s := s;
  point_val := cp_point;
|}.
Next Obligation. intros p. by apply (bool_decide_eq_true_1 _), cp_on. Qed.
Next Obligation. intros bs _ _. by eexists. Qed.
Next Obligation.
  intros bs _ Hlt. exists (le_val bs). split; [|done]. cbn.
  by rewrite (proj2 (Z.ltb_lt _ _) Hlt).
Qed.
Next Obligation. done. Qed.
Next Obligation. done. Qed.
Next Obligation. done. Qed.
Next Obligation. intros p. apply decode_encode. by apply (bool_decide_eq_true_1 _), cp_on. Qed.
