(* ===== verification/EngineExamples.v ===== *)
(** * Keys, streams and multi-exponentiations at concrete inputs

    A group of two elements stands for a curve group, with points of 96 and of 192 bytes,
    and a proving key of two wires is laid out with it. *)
From stdpp Require Import strings gmap.
From S2P Require Import Prelude.
From S2P Require Import GoText.
From S2P Require Import GoError.
From S2P Require Import Ranges.
From S2P Require Import Msm.
From S2P Require Import MsmSchedule.
From S2P Require Import PkIndex.
From S2P Require Import PkIndexCorrect.
From S2P Require Import KeySource.

#[local] Instance listed_order : MapOrder :=
  {| map_order A l := l; map_order_perm A l := Permutation_refl l |}.

(** ** The group of two elements *)

Definition bit_byte (b : bool) : Z := if b then 1 else 0.
Definition bit_bytes (n : nat) (b : bool) : list Z := replicate (n - 1) 0 ++ [bit_byte b].
Definition bytes_bit (bs : list Z) : bool := bool_decide (last bs = Some 1).

Lemma bytes_bit_bytes n b : bytes_bit (bit_bytes n b) = b.
Proof. unfold bytes_bit, bit_bytes. rewrite last_snoc. by destruct b. Qed.

Lemma bit_bytes_length n b : (0 < n)%nat → length (bit_bytes n b) = n.
Proof. intros Hn. unfold bit_bytes. rewrite length_app, length_replicate. cbn. lia. Qed.

#[local] Program Instance bit_scalars : ScalarField := {|
  Scalar := bool; scalar_Bytes := bit_bytes 32; scalar_SetBytes := bytes_bit; scalar_IsZero := negb |}.
Next Obligation. intros s. by apply bit_bytes_length; lia. Qed.
Next Obligation. intros s. apply bytes_bit_bytes. Qed.

Definition bit_sum (ps ss : list bool) : bool := foldr (λ t acc, xorb (andb t.1 t.2) acc) false (zip ps ss).

Definition bit_exp (ps ss : list bool) : result go_error bool :=
  if (length ps =? length ss)%nat then Ok (bit_sum ps ss) else Err (Fail "len(points) != len(scalars)").

Lemma bit_exp_ok ps ss : length ps = length ss → bit_exp ps ss = Ok (bit_sum ps ss).
Proof. intros Hl. unfold bit_exp. by rewrite (proj2 (Nat.eqb_eq _ _) Hl). Qed.

Definition bit_group (n : nat) : CurveGroup := {|
  Affine := bool; Jac := bool; jac_equiv := @eq bool; jac_infinity := false; AddAssign := xorb;
  MultiExp := bit_exp;
  FromJacobian p := p; FromAffine p := p; point_size := n; RawBytes := bit_bytes n;
  SetBytes bs := Some (bytes_bit bs); decode_on_curve bs := Some (bytes_bit bs) |}.

#[local] Program Instance bit_group_laws n `{!TCEq (0 <? n)%nat true} : @CurveGroupLaws _ (bit_group n) := {|
  scale p s := andb p s; in_subgroup _ := True |}.
Next Obligation. intros n _ [] [] []; reflexivity. Qed.
Next Obligation. intros n _ []; reflexivity. Qed.
Next Obligation. intros n _ []; reflexivity. Qed.
Next Obligation.
  intros n _ ps ss Hl. exists (bit_sum ps ss). split; [exact (bit_exp_ok ps ss Hl)|done].
Qed.
Next Obligation. done. Qed.
Next Obligation. done. Qed.
Next Obligation. done. Qed.
Next Obligation. done. Qed.
Next Obligation. done. Qed.
Next Obligation. intros n Hn%TCEq_eq. by apply Nat.ltb_lt. Qed.
Next Obligation. intros n Hn%TCEq_eq p. apply bit_bytes_length. by apply Nat.ltb_lt. Qed.
Next Obligation. intros n _ p _. cbn. by rewrite bytes_bit_bytes. Qed.
Next Obligation. intros n _ p. cbn. by rewrite bytes_bit_bytes. Qed.

(** ** A streamed multi-exponentiation *)

Definition bit_g1 : CurveGroup := bit_group 96.
Definition bit_g2 : CurveGroup := bit_group 192.

Definition ex_points : list bool := [true; false; true; true; false; true].
Definition ex_scalars : list bool := [true; true; false; true; false; true].

Lemma MSMRanged_exact_witness :
  same_bytes (H0 := bit_g1) (msm_ranged (H0 := bit_g1) "MSMG1Ranged" true 6 (λ lo hi, Ok (slice (lo, hi) ex_points)) ex_scalars).1
    (msm (H0 := bit_g1) true ex_points ex_scalars).1.
Proof.
  refine (proj1 (proj1 (MSMRanged_exact (H0 := bit_g1) "MSMG1Ranged" true 6 (λ lo hi, Ok (slice (lo, hi) ex_points))
    ex_points ex_scalars eq_refl) eq_refl _)).
  intros r _. reflexivity.
Defined.

Lemma shards_exact_witness : ∃ parts,
  mapM (run_shard (H0 := bit_g1) true ex_points ex_scalars) (nonEmptyRanges (partitionRanges 6 4)) = Ok parts ∧
  same_bytes (H0 := bit_g1) (Ok (combine (H0 := bit_g1) parts)) (MultiExp (CurveGroup := bit_g1) ex_points ex_scalars).
Proof. exact (shards_exact (H0 := bit_g1) true 4 ex_points ex_scalars ltac:(by repeat constructor) eq_refl). Defined.

(** ** The single-use handle: a second caller is refused, and the first has the result *)

Definition ex_handle : list (handle_label nat) :=
  [CollectEntered 1; CollectRefused 2; Completed 0 None; CollectReturned 1 None].

Definition ex_handle_state : collectionState nat :=
  {| done_closed := true; err := None; completed := true; collected := true |}.

Lemma ex_handle_trace : handle_trace (ex_handle_state, []) ex_handle.
Proof.
  change ex_handle with (((([] ++ [CollectEntered 1]) ++ [CollectRefused 2]) ++ [Completed 0 None]) ++ [@CollectReturned nat 1 None]).
  eapply trace_step; [eapply trace_step; [eapply trace_step; [eapply trace_step; [apply trace_new|]|]|]|].
  - by apply step_enter.
  - by apply step_refuse.
  - apply step_complete.
  - by apply (step_leave _ [] 1%nat [] None).
Qed.

(** With a counter that grows and a worker that never answers, the lease is renewed at
    each inactivity timeout; after three renewals the call still goes on. *)
#[local] Notation ex_select :=
  (select_step (T:=unit) asyncWorkerInactivityTimeout asyncWorkerAbsoluteTimeout None None (Some (λ t, t)) 0).
Definition ex_wait (renewals : Z) : wait_state unit :=
  let now := renewals * asyncWorkerInactivityTimeout in Waiting now now (Some (now + asyncWorkerInactivityTimeout)).

Lemma ex_wait_renewed k : 0 <= k < 3 → ex_select (ex_wait k) (ex_wait (k + 1)).
Proof.
  intros Hk. unfold ex_wait. cbv zeta.
  replace (Waiting ((k + 1) * asyncWorkerInactivityTimeout) _ _) with
    (on_timer (T:=unit) asyncWorkerInactivityTimeout asyncWorkerAbsoluteTimeout (Some (λ t, t))
      (k * asyncWorkerInactivityTimeout + asyncWorkerInactivityTimeout) (k * asyncWorkerInactivityTimeout)).
  - apply select_timer; [lia|]. unfold asyncWorkerInactivityTimeout. split; [lia|]. intros ? [= <-]. lia.
  - unfold on_timer, minDuration, timer_Reset, asyncWorkerInactivityTimeout, asyncWorkerAbsoluteTimeout.
    rewrite (proj2 (Z.leb_gt _ _)) by lia. rewrite (proj2 (Z.leb_gt _ _)) by lia.
    destruct (Z.ltb_spec (5 * 60 * 10 ^ 9) (20 * 60 * 10 ^ 9 - (k * (5 * 60 * 10 ^ 9) + 5 * 60 * 10 ^ 9))).
    + f_equal; [lia|lia|f_equal; lia].
    + f_equal; [lia|lia|f_equal; lia].
Qed.

Lemma wait_terminates_witness :
  rtc ex_select (waitForAsyncResultWithProgress asyncWorkerInactivityTimeout asyncWorkerAbsoluteTimeout) (ex_wait 3) ∧
  red ex_select (ex_wait 3).
Proof.
  assert (rtc ex_select (waitForAsyncResultWithProgress asyncWorkerInactivityTimeout asyncWorkerAbsoluteTimeout) (ex_wait 3)) as Hr.
  { apply (rtc_l _ _ (ex_wait 1)); [exact (ex_wait_renewed 0 ltac:(lia))|].
    apply (rtc_l _ _ (ex_wait 2)); [exact (ex_wait_renewed 1 ltac:(lia))|].
    apply rtc_once. exact (ex_wait_renewed 2 ltac:(lia)). }
  split; [exact Hr|].
  exact (proj1 (proj1 (wait_terminates asyncWorkerInactivityTimeout asyncWorkerAbsoluteTimeout None None (Some (λ t, t)) 0
    eq_refl eq_refl ltac:(lia)) _ _ _ Hr)).
Defined.

Lemma collected_once_witness : handle_trace (ex_handle_state, []) ex_handle ∧
  (count entered ex_handle <= 1)%nat ∧ (count returned ex_handle <= 1)%nat ∧
  (∀ call e, CollectReturned call e ∈ ex_handle → first_completion ex_handle = Some e ∧ CollectEntered call ∈ ex_handle).
Proof.
  split; [exact ex_handle_trace|].
  destruct (collected_once ex_handle_state [] ex_handle ex_handle_trace) as (H1 & H2 & H3 & _). by split_and!.
Defined.

(** ** A proving key of two wires *)

#[local] Instance domain_of_one : FFTDomain := {|
  Domain := Z; Element := Z; dom_Cardinality d := d; dom_CardinalityInv _ := 1; dom_Generator _ := 1;
  dom_GeneratorInv _ := 1; dom_FrMultiplicativeGen _ := 7; dom_FrMultiplicativeGenInv _ := 7;
  dom_read _ bs := if (length bs <? 169)%nat then Err (Fail "EOF") else Ok (be_val (take 8 bs), drop 169 bs);
  dom_generator n := Ok 1; dom_new n := n |}.

Definition ex_key : proving_key := {|
  pk_header := be_bytes 8 4 ++ replicate 161 0;
  pk_g1 := concat (bit_bytes 96 <$> [true; false; true]);
  pk_A := concat (bit_bytes 96 <$> ex_points);
  pk_B := concat (bit_bytes 96 <$> [true; true]);
  pk_Z := concat (bit_bytes 96 <$> [true; false; false]);
  pk_K := concat (bit_bytes 96 <$> [false]);
  pk_g2 := concat (bit_bytes 192 <$> [false; true]);
  pk_G2B := concat (bit_bytes 192 <$> [true; true]);
  pk_wires := 2; pk_infinityA := 1; pk_infinityB := 0;
  pk_bitmaps := [0; 1; 0; 0];
  pk_commitments := [(bit_bytes 96 true, bit_bytes 96 false)] |}.
Definition ex_content : list Z := items_bytes (pk_layout ex_key).

Lemma ex_item_wf i : match i with Raw _ => true | Vec _ elem payload =>
    (0 <=? len payload / elem) && (len payload / elem <? 2 ^ 32) && (len payload =? len payload / elem * elem) end = true →
  item_wf i.
Proof.
  destruct i as [bs|name elem payload]; [done|]. intros H. exists (len payload / elem).
  rewrite !andb_true_iff, Z.leb_le, Z.ltb_lt, Z.eqb_eq in H. tauto.
Qed.

Lemma ex_key_wf : pk_wf ex_key.
Proof.
  split; [reflexivity|reflexivity|reflexivity| |by vm_compute|by vm_compute|by vm_compute|reflexivity|by vm_compute].
  unfold pk_layout. repeat (apply Forall_cons; split); try apply Forall_nil; try done.
  all: apply ex_item_wf; vm_compute; reflexivity.
Qed.

Lemma ex_key_bytes : Forall is_byte ex_content.
Proof.
  apply Forall_forall. intros b Hb.
  assert (forallb (λ b, (0 <=? b) && (b <? 256)) ex_content = true) as Hf by (vm_compute; reflexivity).
  rewrite forallb_forall in Hf. apply list_elem_of_In, Hf, andb_true_iff in Hb as [?%Z.leb_le ?%Z.ltb_lt]. by split.
Qed.

Lemma ex_key_size : len ex_content < 2 ^ 63.
Proof. vm_compute. reflexivity. Qed.

Lemma OpenFile_exact_witness :
  OpenFile ex_content = Ok {| src_idx := index_of ex_key; src_ra := file_reader ex_content |}.
Proof.
  apply (OpenFile_exact ex_content _ ex_key_bytes ex_key_size). exists ex_key. split; [exact ex_key_wf|]. by split.
Defined.

(** The sections of A and of G2.B. *)
Definition ex_section_A : PKSection := {| sec_Name := str "A"; sec_Offset := 461; sec_Len := 576; sec_ElemSize := 96 |}.

Lemma ex_A_in : (ex_section_A, pk_A ex_key) ∈ sections_at 0 (pk_layout ex_key).
Proof. apply list_elem_of_lookup. exists 0%nat. vm_compute. reflexivity. Qed.

Lemma ex_serves : serves (file_reader ex_content) (items_bytes (pk_layout ex_key)).
Proof. apply file_serves. Qed.

Lemma SectionRange_exact_witness : ∃ pieces,
  Forall2 (λ r b, SectionRange {| src_idx := index_of ex_key; src_ra := file_reader ex_content |} (str "A") r.1 r.2 = Ok b)
    [(0, 2); (2, 2); (2, 6)] pieces ∧ concat pieces = pk_A ex_key.
Proof.
  refine (proj2 (proj2 (SectionRange_exact ex_key (file_reader ex_content) ex_section_A (pk_A ex_key) (-1) 0 0
    [(0, 2); (2, 2); (2, 6)] ex_key_wf ex_key_size ex_serves ex_A_in _))).
  by vm_compute.
Defined.

(** A server that answers with the range. *)
Definition ex_server : http_server := λ off last, Ok (206, slice (off, last + 1) ex_content).

(** No request was made yet. *)
Definition ex_stats : RangeStats := {| st_Requests := 0; st_Bytes := 0; st_StatusOK := 0; st_StatusPC := 0; st_Errors := 0 |}.

Lemma OpenURL_reads_as_file_witness : ∃ s',
  OpenURL (index_of ex_key) ex_server ex_stats = Ok s' ∧ ∀ name maxBytes lo hi,
    SectionBytes s' name maxBytes = SectionBytes {| src_idx := index_of ex_key; src_ra := file_reader ex_content |} name maxBytes ∧
    SectionRange s' name lo hi = SectionRange {| src_idx := index_of ex_key; src_ra := file_reader ex_content |} name lo hi.
Proof.
  apply (OpenURL_reads_as_file ex_content ex_server ex_stats {| src_idx := index_of ex_key; src_ra := file_reader ex_content |}
    ex_key_bytes ex_key_size).
  - apply (proj2 (OpenFile_exact ex_content _ ex_key_bytes ex_key_size)). exists ex_key. split; [exact ex_key_wf|]. by split.
  - intros off last _ _. by left.
Defined.

(** ** The decoder *)

Fixpoint read_bits (n : nat) (count : nat) (bs : list Z) : list bool :=
  match count with
  | O => []
  | S count => bytes_bit (take n bs) :: read_bits n count (drop n bs)
  end.

Definition bit_decode_point (n : nat) (bs : list Z) : result go_error (bool * list Z) :=
  if (length bs <? n)%nat then Err (Fail "EOF") else Ok (bytes_bit (take n bs), drop n bs).
Definition bit_decode_points (n : nat) (bs : list Z) : result go_error (list bool) :=
  Ok (read_bits n (Z.to_nat (be_val (take 4 bs))) (drop 4 bs)).
#[local] Instance bit_decoder n : PointDecoder (bit_group n) :=
  @Build_PointDecoder bit_scalars (bit_group n) (bit_decode_point n) (bit_decode_points n).

Lemma read_bits_back n ps : (0 < n)%nat → read_bits n (length ps) (concat (bit_bytes n <$> ps)) = ps.
Proof.
  intros Hn. induction ps as [|p ps IH]; [done|]. cbn [length read_bits fmap list_fmap concat].
  rewrite take_app_length', drop_app_length' by (by rewrite bit_bytes_length). rewrite bytes_bit_bytes. by f_equal.
Qed.

Lemma bit_decoder_laws n : (0 < n)%nat → PointDecoderLaws (bit_group n).
Proof.
  intros Hn. split.
  - intros p rest. change (decode_point (RawBytes p ++ rest)) with (bit_decode_point n (bit_bytes n p ++ rest)). unfold bit_decode_point.
    pose proof (bit_bytes_length n p Hn) as Hl.
    rewrite length_app, Hl. rewrite (proj2 (Nat.ltb_ge _ _)) by lia.
    by rewrite take_app_length', drop_app_length', bytes_bit_bytes.
  - intros ps Hps. change (bit_decode_points n (be_bytes 4 (Z.of_nat (length ps)) ++ concat (bit_bytes n <$> ps)) = Ok ps).
    unfold bit_decode_points. rewrite take_app_length', drop_app_length' by (by rewrite length_be_bytes).
    rewrite be_val_be_bytes, Z.mod_small, Nat2Z.id by (split; [lia|]; exact Hps).
    f_equal. by apply read_bits_back.
Qed.
#[local] Instance bit_g1_decoder_laws : PointDecoderLaws (bit_group 96).
Proof. apply bit_decoder_laws. lia. Defined.
#[local] Instance bit_g2_decoder_laws : PointDecoderLaws (bit_group 192).
Proof. apply bit_decoder_laws. lia. Defined.

Definition ex_source : Source := {| src_idx := index_of ex_key; src_ra := file_reader ex_content |}.
Definition ex_keysource : KeySource (bit_group 96) (bit_group 192) :=
  Build_KeySource (bit_group 96) (bit_group 192) ex_source 4 [true; false; true] [false; true]
    [false; true] [false; false] 1.

Lemma loadSmallFields_exact_witness :
  loadSmallFields (bit_group 96) (bit_group 192) ex_source true = Ok ex_keysource.
Proof.
  refine (eq_trans (loadSmallFields_exact (bit_group 96) (bit_group 192) eq_refl eq_refl ex_key (file_reader ex_content)
    true 4 [true; false; true] [false; true] ex_key_wf ex_key_size ex_serves _ eq_refl eq_refl) _).
  - vm_compute. reflexivity.
  - vm_compute. reflexivity.
Defined.

Definition ex_section_G2B : PKSection :=
  {| sec_Name := str "G2B"; sec_Offset := 2013; sec_Len := 384; sec_ElemSize := 192 |}.

Lemma streamed_points_exact_witness :
  ks_G1 _ _ ex_keysource (str "A") = Ok ex_points ∧ G1Range _ _ ex_keysource (str "A") 1 2 = Ok [false] ∧
  ks_G2 _ _ ex_keysource (str "G2B") = Ok [true; true] ∧ G2Range _ _ ex_keysource (str "G2B") 1 2 = Ok [true].
Proof.
  refine (streamed_points_exact (bit_group 96) (bit_group 192) eq_refl eq_refl ex_key ex_keysource ex_section_A ex_points
    ex_section_G2B [true; true] 1 2 ex_key_wf ex_key_size eq_refl ex_serves ex_A_in eq_refl _ eq_refl).
  apply list_elem_of_lookup. exists 4%nat. vm_compute. reflexivity.
Defined.

Lemma streamed_msm_exact_witness :
  same_bytes (H0 := bit_group 96) (msm_ranged (H0 := bit_group 96) "MSMG1Ranged" true 5
    (G1Range _ _ ex_keysource (str "A")) (take 5 ex_scalars)).1
    (msm (H0 := bit_group 96) true (take 5 ex_points) (take 5 ex_scalars)).1.
Proof.
  refine (proj1 (streamed_msm_exact (bit_group 96) (bit_group 192) eq_refl ex_key ex_keysource ex_section_A ex_points
    (take 5 ex_scalars) "MSMG1Ranged" true ex_key_wf ex_key_size eq_refl ex_serves ex_A_in eq_refl _)).
  apply Nat.leb_le. reflexivity.
Defined.
