(* ===== verification/ChunkExamples.v ===== *)
(** * A chunk manifest at a concrete key

    A proving key without points is cut into chunks of 400 bytes. *)
From stdpp Require Import strings gmap.
From S2P Require Import Prelude.
From S2P Require Import GoText.
From S2P Require Import GoError.
From S2P Require Import GoTime.
From S2P Require Import Ownership.
From S2P Require Import PkIndex.
From S2P Require Import PkIndexCorrect.
From S2P Require Import Artifact.
From S2P Require Import ChunkManifest.
From S2P Require Import ChunkManifestCorrect.
From S2P Require Import EdModel.

#[local] Instance listed_order : MapOrder :=
  {| map_order A l := l; map_order_perm A l := Permutation_refl l |}.

(** URLs of a scheme and a host. *)
#[local] Instance https_urls : URLParser := {|
  url_Parse s := (λ rest, {| url_Scheme := str "https"; url_HasUser := false; url_Host := rest; url_Hostname := rest;
                           url_Port := []; url_Fragment := []; url_String := s |}) <$>
                 strip_prefix (str "https://") s |}.

Definition ex_content : list Z :=
  replicate 169 1 ++ replicate 288 2 ++ replicate 16 0 ++ replicate 384 3 ++ replicate 32 0.

Lemma ex_content_bytes : Forall is_byte ex_content.
Proof. unfold ex_content. rewrite !Forall_app. repeat split; by apply Forall_replicate. Qed.

Definition ex_vk_digest : FileDigest := DigestBytes [1; 2; 3].
Definition ex_ccs_digest : FileDigest := DigestBytes [4; 5; 6; 7].
Definition ex_pin (name : string) (d : FileDigest) : AssetPin := {|
  ap_Path := str name; ap_Size := Size d; ap_SHA256 := SHA256 d; ap_Blake2b256 := Blake2b256 d; ap_Compressed := None |}.

Definition ex_key_manifest : KeyManifest := {|
  km_Schema := ManifestSchema; km_KeyVersion := str "ownership-destination-v3"; km_CircuitID := str "c";
  km_Curve := str "BLS12-381"; km_Backend := str "groth16"; km_VKHash := Blake2b256 ex_vk_digest;
  km_ProvingKeySHA256 := SHA256 (DigestBytes ex_content); km_ProvingKeyBlake2b256 := Blake2b256 (DigestBytes ex_content);
  km_ProvingKeySize := Size (DigestBytes ex_content); km_VerifyingKeySHA256 := SHA256 ex_vk_digest;
  km_VerifyingKeySize := Size ex_vk_digest; km_ConstraintSystemHash := Blake2b256 ex_ccs_digest;
  km_CircuitSourceCommit := []; km_ProofToolVersion := []; km_GnarkVersion := []; km_SetupTranscriptHash := [];
  km_PublishedAt := []; km_ArtifactURLs := None; km_SignatureKeyID := str "key" |}.

Definition ex_deployment : ReclaimDeploymentManifest := {|
  rd_Schema := ReclaimDeploymentSchema; rd_DeploymentID := str "preview:1"; rd_Network := str "Preview";
  rd_SourceCommit := str "abc"; rd_VerifierVKHash := str "v"; rd_ProofProfile := []; rd_ProofSlotEncoding := statementBoundV2;
  rd_BatchTranscriptVKHash := str "v"; rd_CircuitID := str "c"; rd_KeyVersion := str "ownership-destination-v3";
  rd_DestinationAddressEncoding := []; rd_VKHash := Blake2b256 ex_vk_digest; rd_CardanoVKBlake2b256 := str "v";
  rd_SetupTranscriptHash := []; rd_MPCCeremonyID := []; rd_MPCCandidateID := []; rd_ProductionDecisionID := [];
  rd_MPCReleaseID := []; rd_ReleaseManifestSHA256 := [] |}.

Definition ex_time : civil := {| c_year := 2026; c_month := 2; c_day := 28; c_hour := 7; c_min := 0; c_sec := 0; c_nsec := 0 |}.

Definition ex_options : ChunkManifestOptions := {|
  co_KeyManifest := Some ex_key_manifest; co_KeyManifestDigest := no_digest; co_Deployment := Some ex_deployment;
  co_ProvingKeyPath := str "in.pk"; co_ProvingKeyName := str "keys/ownership.pk"; co_ChunkOutDir := str "out";
  co_ChunkSize := 400; co_Release := []; co_Profile := []; co_BaseURL := str "https://cdn"; co_SignatureKeyID := str "key";
  co_GeneratedAt := ex_time; co_CardanoVKFormat := []; co_CardanoVKBlake2b256 := [];
  co_Assets := {[ str "ownership.vk" := ex_pin "ownership.vk" ex_vk_digest;
                  str "ownership-destination.ccs" := ex_pin "ownership-destination.ccs" ex_ccs_digest ]} |}.

Definition ex_src : directory := {[ str "in.pk" := ex_content ]}.
Abbreviation ex_generated := (GenerateChunkManifest ex_options ex_time ex_src ∅).

(** Two directories that hold the chunks. *)
Definition with_readme (dir : directory) : directory := <[str "README" := [72; 105]]> dir.

Definition bytes_in (dir : directory) : bool :=
  forallb (λ e : list Z * list Z, forallb (λ b, (0 <=? b) && (b <? 256)) e.2) (map_to_list dir).

Definition generated_well (r : result go_error (ChunkManifest * directory)) : bool :=
  match r with
  | Ok (m, out) => bytes_in out && forallb (λ c, negb (bool_decide (ch_Path c = str "README"))) (ck_Chunks (cm_ProvingKey m)) &&
                   (length (ck_Chunks (cm_ProvingKey m)) =? 3)%nat
  | Err _ => false
  end.

Lemma ex_generated_well : generated_well ex_generated = true.
Proof. vm_cast_no_check (@eq_refl bool true). Qed.

Lemma bytes_in_dir dir : bytes_in dir = true → byte_dir dir.
Proof.
  intros Hb name f Hf. apply Forall_forall. intros b Hin. unfold bytes_in in Hb. rewrite forallb_forall in Hb.
  specialize (Hb (name, f)). rewrite <- list_elem_of_In, elem_of_map_to_list in Hb. specialize (Hb Hf). cbn in Hb.
  rewrite forallb_forall in Hb. apply list_elem_of_In, Hb, andb_true_iff in Hin as [?%Z.leb_le ?%Z.ltb_lt]. by split.
Qed.

Lemma generated_well_inv r : generated_well r = true → ∃ m out, r = Ok (m, out) ∧ byte_dir out ∧
  Forall (λ c, ch_Path c ≠ str "README") (ck_Chunks (cm_ProvingKey m)).
Proof.
  destruct r as [[m out]|]; [|done]. cbn [generated_well]. rewrite !andb_true_iff. intros [[Hb Hv] _].
  exists m, out. split; [done|]. split; [by apply bytes_in_dir|]. apply Forall_forall. intros c Hc.
  rewrite forallb_forall in Hv. by apply list_elem_of_In, Hv, negb_true_iff, bool_decide_eq_false in Hc.
Qed.

Lemma verify_with_readme m out : VerifyChunkFiles m out = Ok tt →
  Forall (λ c, ch_Path c ≠ str "README") (ck_Chunks (cm_ProvingKey m)) → VerifyChunkFiles m (with_readme out) = Ok tt.
Proof.
  unfold VerifyChunkFiles. rewrite !bind_unit. intros [Hv He] Hn. split; [exact Hv|].
  apply each_from_Ok. intros k c Hk. rewrite <- (proj1 (each_from_Ok _ _ _) He k c Hk).
  unfold verify_chunk, DigestFile, read_file, with_readme. rewrite lookup_insert_ne; [done|].
  apply not_eq_sym. eapply Forall_lookup_1 in Hn; [|exact Hk]. exact Hn.
Qed.

(** The checks of the options, evaluated. *)
Definition options_well (opts : ChunkManifestOptions) : bool :=
  (co_ChunkSize opts <? 2 ^ 63) && is_ok (safeRelativePath (key_name opts)) && is_ok (validateTransport (key_transport opts)) &&
  forallb (λ e : list Z * AssetPin, is_ok (validateAssetPin e.2)) (map_to_list (co_Assets opts)) && valid_civil (co_GeneratedAt opts).

Lemma options_well_ok opts : options_well opts = true → options_ok opts.
Proof.
  unfold options_well. rewrite !andb_true_iff. intros ((((H1 & H2) & H3) & H4) & H5).
  split; [by apply Z.ltb_lt|by apply is_ok_tt..| |done].
  intros name pin Hp. rewrite forallb_forall in H4. apply is_ok_tt, (H4 (name, pin)), list_elem_of_In. by apply elem_of_map_to_list.
Qed.

Lemma ex_options_ok : options_ok ex_options.
Proof. apply options_well_ok. vm_cast_no_check (@eq_refl bool true). Qed.

Lemma ex_src_bytes content : ex_src !! co_ProvingKeyPath ex_options = Some content →
  Forall is_byte content ∧ len content < 2 ^ 63.
Proof.
  change (co_ProvingKeyPath ex_options) with (str "in.pk"). unfold ex_src. rewrite lookup_singleton_eq.
  intros [= <-]. split; [exact ex_content_bytes|reflexivity].
Qed.

Lemma ex_out_dir : co_ChunkOutDir ex_options ≠ [].
Proof. discriminate. Qed.

Lemma generated_manifest_verifies_witness : ∃ m out, ex_generated = Ok (m, out) ∧
  ValidateChunkManifest m (expectations_of ex_options) = Ok tt ∧ VerifyChunkFiles m out = Ok tt ∧
  ∃ pieces, mapM (read_file out) (ch_Path <$> ck_Chunks (cm_ProvingKey m)) = Ok pieces ∧
    ex_src !! str "in.pk" = Some (concat pieces).
Proof.
  destruct (generated_well_inv ex_generated ex_generated_well) as (m & out & Hg & _). exists m, out. split; [exact Hg|].
  destruct (generated_manifest_verifies ex_options ex_time ex_src ∅ m out Hg ex_out_dir ex_options_ok eq_refl ex_src_bytes)
    as (Hv & Hf & pieces & idx & Hr & Hs & _). split; [exact Hv|]. split; [exact Hf|]. exists pieces. split; [exact Hr|exact Hs].
Defined.

(** The chunks, in the directory they were written to and beside another file. *)
Lemma ex_chunks : ∃ m out files, ex_generated = Ok (m, out) ∧ byte_dir out ∧
  VerifyChunkFiles m out = Ok tt ∧ VerifyChunkFiles m (with_readme out) = Ok tt ∧
  mapM (read_file out) (ch_Path <$> ck_Chunks (cm_ProvingKey m)) = Ok files.
Proof.
  destruct (generated_well_inv ex_generated ex_generated_well) as (m & out & Hg & Hb & Hn).
  destruct (generated ex_options ex_time ex_src ∅ m out Hg ex_options_ok eq_refl ex_src_bytes)
    as (k & d & c & files & idx & _ & _ & _ & _ & _ & _ & _ & Hown & Hf).
  destruct (Hf ex_out_dir) as [Heach Hread].
  assert (VerifyChunkFiles m out = Ok tt) as Hv.
  { unfold VerifyChunkFiles. rewrite validate_own_enough, Hown. exact Heach. }
  exists m, out, files. split_and!; [exact Hg|exact Hb|exact Hv|by apply verify_with_readme|exact Hread].
Qed.

Lemma VerifyChunkFiles_assembles_witness : ∃ m out, ex_generated = Ok (m, out) ∧ ∃ files,
  mapM (read_file (with_readme out)) (ch_Path <$> ck_Chunks (cm_ProvingKey m)) = Ok files ∧
  Forall2 matches (ck_Chunks (cm_ProvingKey m)) files.
Proof.
  destruct ex_chunks as (m & out & _ & Hg & _ & _ & Hv & _). exists m, out. split; [exact Hg|].
  destruct (VerifyChunkFiles_assembles m (with_readme out) Hv) as (files & Hr & Hm & _). exists files. split; [exact Hr|exact Hm].
Defined.

Lemma with_readme_bytes dir : byte_dir dir → byte_dir (with_readme dir).
Proof. intros Hd. apply map_Forall_insert_2; [|exact Hd]. by repeat constructor. Qed.

Lemma chunks_root_pins_key_witness : ∃ m out files files', ex_generated = Ok (m, out) ∧
  (concat files = concat files' ∨ collides (digest_list files) (digest_list files') ∨
   ∃ k f f', files !! k = Some f ∧ files' !! k = Some f' ∧ collides f f').
Proof.
  destruct ex_chunks as (m & out & files & Hg & Hb & Hv & Hv' & Hr).
  assert (∃ files', mapM (read_file (with_readme out)) (ch_Path <$> ck_Chunks (cm_ProvingKey m)) = Ok files') as [files' Hr'].
  { destruct (proj1 (bind_unit _ _) Hv') as [_ He]. destruct (chunks_verified _ _ He) as (fs & Hfs & _). by exists fs. }
  exists m, out, files, files'. split; [exact Hg|].
  exact (chunks_root_pins_key m m out (with_readme out) files files' Hb (with_readme_bytes out Hb) Hv Hv' Hr Hr' eq_refl).
Defined.
