(* ===== verification/Examples.v ===== *)
(** * The theorems at concrete inputs

    Each property of the development applied to a concrete input where its
    hypotheses hold, over the compiler model of [GnarkModel.v] and the library models of
    [EdModel.v]. *)
From Stdlib Require Import String.
From stdpp Require Import gmap.
From S2P Require Import Prelude.
From S2P Require Import Gnark.
From S2P Require Import GnarkModel.
From S2P Require Import CkdArith.
From S2P Require Import Sha512Spec.
From S2P Require Import Sha512.
From S2P Require Import Sha512Sigma.
From S2P Require Import Sha512Correct.
From S2P Require Import Blake2bSpec.
From S2P Require Import Blake2b.
From S2P Require Import Blake2bCorrect.
From S2P Require Import Ed25519.
From S2P Require Import EdPoly.
From S2P Require Import EdCurve.
From S2P Require Import Ed25519Group.
From S2P Require Import Ed25519Correct.
From S2P Require Import EdOrder.
From S2P Require Import Ckd.
From S2P Require Import CkdCircuit.
From S2P Require Import ChainCorrect.
From S2P Require Import GoText.
From S2P Require Import Ownership.
From S2P Require Import OwnershipCircuit.
From S2P Require Import OwnershipCircuitCorrect.
From S2P Require Import OwnershipMultiCorrect.
From S2P Require Import Discovery.
From S2P Require Import OwnershipCorrect.
From S2P Require Import DiscoveryCorrect.
From S2P Require Import EdModel.

(** ** A clamped master and its wires *)

Definition ex_kl : list Z := le_bytes 32 (2 ^ 254).
Definition ex_zeros : list Z := le_bytes 32 0.
Definition ex_master : list Z := ex_kl ++ ex_zeros ++ ex_zeros.
Definition ex_path : Path := {| Account := 0; Role := 2; Index := 7 |}.
Definition ex_dest : list Z := le_bytes 58 5.

Lemma ex_le_bytes n z : Forall is_byte (le_bytes n z).
Proof. apply digits_are_digits. lia. Qed.

Lemma ex_wires n z : bytes_are (wires (le_bytes n z)) (le_bytes n z).
Proof. split; [apply value_wires_digits; lia|apply ex_le_bytes]. Qed.

Lemma ex_wires_value n z : value <$> wires (le_bytes n z) = le_bytes n z.
Proof. apply ex_wires. Qed.

Lemma ex_wires_length n z : length (wires (le_bytes n z)) = n.
Proof. unfold wires. by rewrite length_fmap, length_digits. Qed.

Lemma ex_master_bytes : Forall is_byte ex_master.
Proof. unfold ex_master. rewrite !Forall_app. repeat split; apply ex_le_bytes. Qed.

Lemma ex_master_length : length ex_master = 96%nat.
Proof. reflexivity. Qed.

Lemma ex_kl_val : le_val ex_kl = 2 ^ 254.
Proof. by vm_compute. Qed.

Lemma ex_kl_clamped : icarus_clamped (le_val ex_kl).
Proof. rewrite ex_kl_val. by split; vm_compute. Qed.

Lemma ex_master_clamped : icarus_clamped (le_val (take 32 ex_master)).
Proof. exact ex_kl_clamped. Qed.

Lemma ex_path_valid : validatePath ex_path = Ok tt.
Proof. reflexivity. Qed.

Lemma ex_master_wf : Ext_wf (split96 ex_master).
Proof. apply split96_wf; [apply ex_master_bytes|rewrite ex_master_length; lia]. Qed.

Lemma ex_master_bound : hop_bound 0 (split96 ex_master).
Proof. exact (clamped_bound _ ex_master_bytes ex_master_length ex_master_clamped). Qed.

(** The credential of the example path. *)
Definition ex_credential : list Z := leaf_credential (path_leaf ex_master ex_path).

Lemma ex_derives : DeriveCredential ex_master ex_path = Ok ex_credential.
Proof.
  exact (proj2 (DeriveCredential_clamped _ _ ex_master_bytes ex_master_length ex_master_clamped
    ex_path_valid)).
Qed.

Lemma ex_credential_length : length ex_credential = 28%nat.
Proof. apply leaf_credential_wf. Qed.

(** A wire holds any field element. *)
Lemma ex_wire_field z : value (wire (z mod field_order)) = z mod field_order.
Proof. apply Z.mod_mod. done. Qed.

Lemma ex_master_wires : value <$> wires ex_kl ++ wires ex_zeros ++ wires ex_zeros = ex_master.
Proof. rewrite !fmap_app. unfold ex_kl, ex_zeros. by rewrite !ex_wires_value. Qed.

Lemma ex_master_valid : master_valid (wires ex_kl) (wires ex_zeros) (wires ex_zeros).
Proof.
  split; [rewrite ex_master_wires; exact ex_master_bytes|].
  unfold ex_kl. rewrite ex_wires_value. exact ex_kl_clamped.
Qed.

Definition ex_path_wires : PathWitness var := {| wAccount := wire 0; wRole := wire 2; wIndex := wire 7 |}.

Lemma ex_wires_path : wires_path ex_path_wires = ex_path.
Proof. reflexivity. Qed.

(** ** The circuits *)

Definition ex_pub : Z := digest_to_field (blake2b_sum 32 (Domain ++ ex_credential)).
Definition ex_circuit : OwnershipCircuit var :=
  {| MasterKL := wires ex_kl; MasterKR := wires ex_zeros; MasterCC := wires ex_zeros;
     CPath := ex_path_wires; Pub := wire ex_pub |}.

Lemma ex_circuit_shape : circuit_shape ex_circuit.
Proof. repeat split; apply ex_wires_length. Qed.

Lemma ex_owns : owns ex_circuit.
Proof.
  split; [exact ex_master_valid|]. exists ex_credential.
  unfold circuit_master. cbn [ex_circuit MasterKL MasterKR MasterCC CPath Pub].
  rewrite ex_master_wires, ex_wires_path. split; [exact ex_derives|].
  apply PublicInputForCredential_28; [exact ex_credential_length|].
  unfold ex_pub, digest_to_field. by rewrite ex_wire_field.
Qed.

Lemma Define_exact_witness : circuit_shape ex_circuit ∧ owns ex_circuit ∧
  circuit_ok (Define ex_circuit) (λ _, True).
Proof.
  split; [exact ex_circuit_shape|]. split; [exact ex_owns|].
  exact (proj1 (Define_exact ex_circuit ex_circuit_shape) ex_owns).
Defined.

Definition ex_dest_pub : Z :=
  digest_to_field (blake2b_sum 32 (DestDomain ++ ex_credential ++ ex_dest)).
Definition ex_dest_circuit : DestCircuit var :=
  {| dOwner := {| MasterKL := wires ex_kl; MasterKR := wires ex_zeros; MasterCC := wires ex_zeros;
                  CPath := ex_path_wires; Pub := wire ex_dest_pub |};
     Destination := wires ex_dest |}.

Lemma ex_dest_shape : circuit_shape (dOwner ex_dest_circuit) ∧
  length (Destination ex_dest_circuit) = 58%nat.
Proof. repeat split; apply ex_wires_length. Qed.

Lemma ex_owns_to : owns_to ex_dest_circuit.
Proof.
  split; [exact ex_master_valid|]. exists ex_credential.
  unfold circuit_master. cbn [ex_dest_circuit dOwner MasterKL MasterKR MasterCC CPath Pub Destination].
  rewrite ex_master_wires, ex_wires_path. unfold ex_dest. rewrite ex_wires_value.
  split; [exact ex_derives|]. split; [apply ex_le_bytes|].
  apply PublicInputForDestination_ok; [exact ex_credential_length|reflexivity|].
  unfold ex_dest_pub, digest_to_field. by rewrite ex_wire_field.
Qed.

Lemma DefineDest_exact_witness : owns_to ex_dest_circuit ∧
  circuit_ok (DefineDest ex_dest_circuit) (λ _, True).
Proof.
  split; [exact ex_owns_to|].
  exact (proj1 (DefineDest_exact ex_dest_circuit (proj1 ex_dest_shape) (proj2 ex_dest_shape)) ex_owns_to).
Defined.

Definition ex_multi_pub : Z := digest_to_field (blake2b_sum 32
  (MultiDomain ++ count_bytes 2 ++ (ex_credential ++ ex_credential ++ []) ++ ex_dest)).
Definition ex_multi : MultiCircuit var :=
  {| mKL := wires ex_kl; mKR := wires ex_zeros; mCC := wires ex_zeros;
     Paths := [ex_path_wires; ex_path_wires]; mDestination := wires ex_dest;
     mPub := wire ex_multi_pub |}.

Lemma ex_multi_shape : multi_shape ex_multi.
Proof. repeat split; apply ex_wires_length. Qed.

Lemma ex_owns_all : owns_all ex_multi.
Proof.
  split; [exact ex_master_valid|]. cbn [ex_multi mKL mKR mCC Paths mDestination mPub].
  unfold ex_dest at 1. rewrite ex_wires_value. split; [apply ex_le_bytes|].
  exists [ex_credential; ex_credential]. rewrite ex_master_wires. cbn [fmap list_fmap].
  rewrite ex_wires_path. split.
  - unfold DeriveCredentials. cbn [Datatypes.length derive_all].
    rewrite ex_derives. reflexivity.
  - apply PublicInputForCredentials_ok; [cbn; lia| | |].
    + repeat constructor; exact ex_credential_length.
    + unfold ex_dest. by rewrite ex_wires_value.
    + unfold ex_dest. rewrite ex_wires_value. unfold ex_multi_pub, digest_to_field.
      rewrite ex_wire_field. reflexivity.
Qed.

Lemma DefineMulti_exact_witness : multi_shape ex_multi ∧ owns_all ex_multi ∧
  circuit_ok (DefineMulti ex_multi) (λ _, True).
Proof.
  split; [exact ex_multi_shape|]. split; [exact ex_owns_all|].
  exact (proj1 (DefineMulti_exact ex_multi ex_multi_shape) ex_owns_all).
Defined.

Lemma Assignment_complete_witness : ∃ credential c,
  DeriveCredential ex_master ex_path = Ok credential ∧ length credential = 28%nat ∧
  Assignment ex_master ex_path 5 = Ok c ∧
  (PublicInputForCredential credential = Ok 5 →
    circuit_ok (Define (assign_circuit wire c)) (λ _, True)) ∧
  (PublicInputForCredential credential ≠ Ok 5 → rejects (Define (assign_circuit wire c))).
Proof.
  refine (Assignment_complete wire _ ex_master ex_path 5 ex_master_bytes ex_master_length
    ex_master_clamped _ ex_path_valid _).
  - intros z. reflexivity.
  - repeat split; cbn; lia.
  - split; [lia|]. reflexivity.
Defined.

(** ** Derivation *)

Lemma ex_chain_valid : chain_valid (wires ex_kl) (wires ex_zeros) (wires ex_zeros)
  (wire 0) (wire 2) (wire 7).
Proof. exact (proj2 (chain_valid_iff _ _ _ ex_path_wires) (conj ex_master_valid ex_path_valid)). Qed.

Lemma DeriveChain_exact_witness :
  circuit_ok (DeriveChain (wires ex_kl) (wires ex_zeros) (wires ex_zeros) (wire 0) (wire 2) (wire 7))
    (λ l, ∃ leaf, DeriveRef (value <$> wires ex_kl ++ wires ex_zeros ++ wires ex_zeros)
       (value (wire 0)) (value (wire 2)) (value (wire 7)) = Some leaf ∧ leaf_is l leaf).
Proof.
  exact (proj1 (DeriveChain_exact (wires ex_kl) (wires ex_zeros) (wires ex_zeros) (wire 0) (wire 2)
    (wire 7) (ex_wires_length _ _) (ex_wires_length _ _) (ex_wires_length _ _)) ex_chain_valid).
Defined.

Lemma DerivePublicChild_agrees_witness : ∃ pub, XPubFromPrivate (split96 ex_master) = Ok pub ∧
  DerivePublicChild pub 7 = XPubFromPrivate (child_ext (split96 ex_master) 7 false).
Proof.
  exact (DerivePublicChild_agrees (split96 ex_master) 7 _ ex_master_wf
    (deriveChild_hop 0 _ 7 false ex_master_bound ltac:(lia))).
Defined.

Lemma DeriveLevels_total_witness : RootExt ex_master = Ok (split96 ex_master) ∧
  ∃ rows leaf, DeriveLevels ex_master 0 2 7 = Some rows ∧ length rows = 5%nat ∧
    DeriveRef ex_master 0 2 7 = Some leaf ∧
    Forall (λ e, Ext_wf e ∧ le_val (KL e) mod 8 = 0 ∧ 2 ^ 254 <= le_val (KL e) < 2 ^ 255) rows.
Proof.
  exact (DeriveLevels_total ex_master 0 2 7 ex_master_bytes ex_master_length ex_master_clamped).
Defined.

Definition ex_ext : CircExt := {| cKL := wires ex_kl; cKR := wires ex_zeros; cCC := wires ex_zeros;
  cKLbits := wires (bits_of 256 (2 ^ 254)) |}.
Definition ex_par : Ext := {| KL := ex_kl; KR := ex_zeros; CC := ex_zeros |}.

Lemma ex_ext_is : ext_is ex_ext ex_par ∧ bits_are ex_ext ex_par ∧ Ext_wf ex_par.
Proof.
  split; [by split; apply ex_wires|]. split; [|split; split; (apply ex_le_bytes || reflexivity)].
  unfold bits_are. cbn [ex_ext cKLbits ex_par KL]. rewrite ex_kl_val.
  apply value_wires_digits. lia.
Qed.

Lemma ex_le32 : bytes_are (wires (le_bytes 4 7)) (le32 7).
Proof. rewrite le32_bytes. apply ex_wires. Qed.

Lemma steps_refine_deriveChild_witness :
  refines_step (HardenedStep ex_ext (wires (le_bytes 4 7))) (deriveChild ex_par 7 true)
    (λ c' child, ext_is c' child ∧ bits_are c' child) ∧
  refines_step (SoftStep ex_ext (wires (le_bytes 4 7))) (deriveChild ex_par 7 false)
    (λ c' child, ext_is c' child ∧ bits_are c' child) ∧
  refines_step (softStepLeaf ex_ext (wires (le_bytes 4 7))) (deriveChild ex_par 7 false) leaf_is.
Proof.
  exact (steps_refine_deriveChild ex_ext ex_par (wires (le_bytes 4 7)) 7 (proj1 ex_ext_is)
    (proj1 (proj2 ex_ext_is)) (proj2 (proj2 ex_ext_is)) ex_le32).
Defined.


Lemma AssertClamp_exact_witness : Forall is_byte (value <$> wires ex_kl) ∧
  icarus_clamped (le_val (value <$> wires ex_kl)) ∧ circuit_ok (AssertClamp (wires ex_kl)) (λ _, True).
Proof.
  assert (Forall is_byte (value <$> wires ex_kl) ∧ icarus_clamped (le_val (value <$> wires ex_kl))) as Hv.
  { unfold ex_kl. rewrite ex_wires_value. split; [apply ex_le_bytes|exact ex_kl_clamped]. }
  split; [apply Hv|]. split; [apply Hv|].
  exact (proj1 (AssertClamp_exact (wires ex_kl) (ex_wires_length _ _)) Hv).
Defined.

Lemma canonical_bits_roundtrip_witness :
  circuit_ok (BytesToCanonBits (wires ex_kl)) (λ canon,
    value <$> canon = bits_of 256 (le_val (value <$> wires ex_kl)) ∧
    bytes_are (CanonBitsToBytes canon) (value <$> wires ex_kl)).
Proof.
  apply (canonical_bits_roundtrip (wires ex_kl) (ex_wires_length _ _)).
  unfold ex_kl. rewrite ex_wires_value. split; [apply ex_le_bytes|].
  change (le_val ex_kl < 2 ^ 255). rewrite ex_kl_val. lia.
Defined.

Lemma child_scalars_exact_witness :
  let sum := le_val ex_kl + 8 * le_val (le_bytes 28 3) in
  (sum < 2 ^ 256 → circuit_ok (AddKL (wires ex_kl) (wires (le_bytes 28 3)))
    (λ out, bytes_are out (le_bytes 32 sum))) ∧
  (2 ^ 256 <= sum → rejects (AddKL (wires ex_kl) (wires (le_bytes 28 3)))) ∧
  circuit_ok (AddKR (wires ex_zeros) (wires ex_zeros))
    (λ out, bytes_are out (le_bytes 32 ((le_val ex_zeros + le_val ex_zeros) mod 2 ^ 256))).
Proof.
  exact (child_scalars_exact (wires ex_kl) (wires ex_zeros) (wires (le_bytes 28 3)) (wires ex_zeros)
    ex_kl ex_zeros (le_bytes 28 3) ex_zeros (ex_wires _ _) (ex_wires _ _) (ex_wires _ _)
    (ex_wires _ _) eq_refl eq_refl eq_refl eq_refl).
Defined.

Lemma le32Var_exact_witness :
  circuit_ok (le32Var (wire 5) true)
    (λ out, bytes_are out (le_bytes 4 (Z.lor (value (wire 5)) 0x80000000))).
Proof. apply (le32Var_exact (wire 5) true). by vm_compute. Defined.

(** ** Hashes *)

Lemma Add64_exact_witness :
  circuit_ok (Add64 1 [word_of (2 ^ 64 - 1); word_of 2])
    (λ w, word_is w (w64 (zsum [2 ^ 64 - 1; 2]))).
Proof.
  apply (Add64_exact 1 [word_of (2 ^ 64 - 1); word_of 2] [2 ^ 64 - 1; 2]).
  - repeat constructor; apply word_of_is; lia.
  - cbn. lia.
  - split; [done|]. split; [lia|]. by split.
Defined.

Lemma sigmaRot_exact_witness :
  circuit_ok (sigmaRot (word_of 5) [1; 8]%nat 7)
    (λ w, word_is w (foldr Z.lxor 0 (sigma_terms [1; 8]%nat 7 5))).
Proof.
  apply (sigmaRot_exact (word_of 5) 5 [1; 8]%nat 7); [apply word_of_is; lia|].
  split; [done|]. repeat constructor; lia.
Defined.

Lemma ex_abc : Forall is_byte (value <$> wires (le_bytes 3 0x636261)).
Proof. rewrite ex_wires_value. apply ex_le_bytes. Qed.

Lemma Sum512_exact_witness :
  circuit_ok (Sum512 (wires (le_bytes 3 0x636261)))
    (λ out, bytes_are out (RefSHA512 (value <$> wires (le_bytes 3 0x636261)))).
Proof. by apply (Sum512_exact (wires (le_bytes 3 0x636261))); [|exact ex_abc]. Defined.

Lemma HMACSHA512_exact_witness :
  circuit_ok (HMACSHA512 (wires ex_zeros) (wires (le_bytes 3 0x636261)))
    (λ out, bytes_are out (RefHMACSHA512 (value <$> wires ex_zeros)
      (value <$> wires (le_bytes 3 0x636261)))).
Proof.
  apply (HMACSHA512_exact (wires ex_zeros) (wires (le_bytes 3 0x636261))); [by vm_compute..|].
  split; [unfold ex_zeros; rewrite ex_wires_value; apply ex_le_bytes|exact ex_abc].
Defined.

Lemma HMACSHA512Pair_exact_witness :
  circuit_ok (HMACSHA512Pair (wires ex_zeros) (wires (le_bytes 3 0x636261)) (wires ex_kl))
    (λ '(mac1, mac2),
      bytes_are mac1 (RefHMACSHA512 (value <$> wires ex_zeros) (value <$> wires (le_bytes 3 0x636261))) ∧
      bytes_are mac2 (RefHMACSHA512 (value <$> wires ex_zeros) (value <$> wires ex_kl))).
Proof.
  apply (HMACSHA512Pair_exact (wires ex_zeros) (wires (le_bytes 3 0x636261)) (wires ex_kl));
    [by vm_compute..|].
  split; [unfold ex_zeros; rewrite ex_wires_value; apply ex_le_bytes|].
  split; [exact ex_abc|unfold ex_kl; rewrite ex_wires_value; apply ex_le_bytes].
Defined.

Lemma RotBytes_exact_witness :
  circuit_ok (RotBytes (word_of 5) (-24)) (λ w, word_is w (rotr (64 - -24 mod 64) 5) ∧
    ∀ u, u ∈ w → u ∈ word_of 5).
Proof. apply (RotBytes_exact (word_of 5) 5 (-24)); [apply word_of_is; lia|done]. Defined.

Lemma Blake2b_exact_witness :
  circuit_ok (Blake2b (wires (le_bytes 3 0x636261)) 28)
    (λ out, bytes_are out (RefBlake2b (value <$> wires (le_bytes 3 0x636261)) 28)).
Proof.
  apply (Blake2b_exact (wires (le_bytes 3 0x636261)) 28); [by vm_compute|].
  split; [exact ex_abc|lia].
Defined.

(** ** Curve *)

Lemma ScalarMulBaseBits_exact_witness :
  circuit_ok (base_key (wires (bits_of 256 5))) (λ out, ∃ q,
    RefScalarMulBase (bits_val (value <$> wires (bits_of 256 5))) = Some q ∧
    bytes_are out (RefCompress q)).
Proof.
  apply (ScalarMulBaseBits_exact (wires (bits_of 256 5))).
  - unfold wires. by rewrite length_fmap, length_digits.
  - rewrite value_wires_digits by lia. split; [apply digits_are_digits; lia|by vm_compute].
Defined.

Lemma RefScalarMulBase_additive_witness : ∃ p q, RefScalarMulBase 2 = Some p ∧
  RefScalarMulBase 3 = Some q ∧ RefAdd p q = RefScalarMulBase (2 + 3) ∧ is_Some (RefAdd p q).
Proof. apply (RefScalarMulBase_additive 2 3); lia. Defined.

(** ** Host code *)

Definition ex_options : SearchOptions :=
  {| oAccount := -1; oRole := -1; oIndex := 7; MaxAccount := 1; MaxIndex := 9 |}.

Lemma ex_search_ok : search_ok ex_options ∧ discovery_ok ex_options.
Proof. unfold search_ok, discovery_ok, ex_options. cbn. lia. Qed.

Lemma scanValues_exact_witness :
  scanValues 5 (-1) 0 2 ScanRole 2 = Ok (seqZ 0 (2 + 1)) ∧
  scanValues 5 (-1) 0 (2 ^ 32 - 1) ScanIndex 2 = Err OutOfFuel.
Proof.
  split.
  - apply (scanValues_exact (-1) 2 ScanRole 2); lia.
  - apply (scanValues_exact (-1) (2 ^ 32 - 1) ScanIndex 2); lia.
Defined.

Lemma FindPath_first_match_witness :
  match FindPath 20 ex_master ex_credential ex_options with
  | Ok p => first_match ex_master ex_credential (searched ex_options) p
  | Err e => e = ErrTargetNotFound ∧
      Forall (λ q, DeriveCredential ex_master q ≠ Ok ex_credential) (searched ex_options)
  end.
Proof.
  apply (FindPath_first_match ex_master ex_credential ex_options 20 ex_master_bytes ex_master_length
    ex_master_clamped ex_credential_length (proj1 ex_search_ok)).
  cbn. lia.
Defined.

Lemma ValidateExplicitCredentialPath_exact_witness :
  ValidateExplicitCredentialPath ex_master ex_credential ex_path = Ok tt.
Proof.
  apply (ValidateExplicitCredentialPath_exact ex_master ex_credential ex_path).
  split; [exact ex_credential_length|exact ex_derives].
Defined.

Definition ex_phrase : list Z := str "abandon  about".
Definition ex_seed_master : list Z := clamp_master (pbkdf2_Key [] (str "abandon about") 4096 96).

Lemma MasterXPrvFromSeedPhrase_clamped_witness :
  Forall is_byte ex_seed_master ∧ length ex_seed_master = 96%nat ∧
  icarus_clamped (le_val (take 32 ex_seed_master)) ∧
  (∃ credential, DeriveCredential ex_seed_master ex_path = Ok credential ∧
     length credential = 28%nat) ∧
  ∀ phrase', Fields phrase' = Fields ex_phrase → MasterXPrvFromSeedPhrase phrase' = Ok ex_seed_master.
Proof.
  refine (MasterXPrvFromSeedPhrase_clamped ex_phrase ex_seed_master ex_path _ ex_path_valid).
  reflexivity.
Defined.

Lemma CircuitID_round_trip_witness : CircuitCountFromID (CircuitIDForCount 2) = Some 2 ∧
  IsCircuitID (CircuitIDForCount 2) = true.
Proof. refine (CircuitID_round_trip 2 _). lia. Defined.

Lemma text_round_trips_witness :
  ParsePublicInputHex (PublicInputHex 255) = Ok 255 ∧
  DecodeCredentialHex (str "0x" ++ hex_EncodeToString (le_bytes 28 7)) = Ok (le_bytes 28 7).
Proof.
  destruct (text_round_trips 255 (le_bytes 28 7) (ex_le_bytes 28 7)) as [Hp Hd].
  split; [exact Hp|]. exact (proj1 (proj2 (Hd _ (or_intror eq_refl)))).
Defined.

Definition ex_discovery : DiscoveryOptions := {| Search := ex_options; ProgressEvery := 0 |}.

Lemma DiscoverCredentialPaths_exact_witness :
  let spec := discovers ex_master (list_to_set [ex_credential])
    (discovery_order (Search ex_discovery)) in
  match (DiscoverCredentialPaths 5 (λ _, false) ex_master [ex_credential] ex_discovery).1 with
  | Ok found => spec found ∧ ∀ c, c ∈ [ex_credential] → found !! c ≠ None
  | Err (ErrCredentialsNotFound found) => spec found ∧ ∃ c, c ∈ [ex_credential] ∧ found !! c = None
  | Err _ => False
  end.
Proof.
  assert (Forall (λ t : list Z, length t = 28%nat) [ex_credential]) as Ht
    by (apply Forall_singleton; exact ex_credential_length).
  assert (Z.to_nat (MaxAccount (Search ex_discovery)) + 1 < 5)%nat as Hf by (cbn; lia).
  pose proof (DiscoverCredentialPaths_exact ex_master [ex_credential] ex_discovery 5 ex_master_bytes
    ex_master_length ex_master_clamped Ht (proj2 ex_search_ok) Hf) as Hd.
  exact Hd.
Defined.
