(* ===== verification/CommandExamples.v ===== *)
(** * Keys, proofs and commands at concrete inputs

    A proof system that accepts the public inputs of three circuits of [Examples.v], and
    nothing else, stands for Groth16: it is complete, and sound because each of these
    circuits is satisfied.  At the end, an owner proves and is believed. *)
From stdpp Require Import strings gmap.
From S2P Require Import Prelude.
From S2P Require Import Gnark.
From S2P Require Import GnarkModel.
From S2P Require Import CkdArith.
From S2P Require Import Ed25519.
From S2P Require Import Ckd.
From S2P Require Import GoText.
From S2P Require Import GoError.
From S2P Require Import Ownership.
From S2P Require Import OwnershipCircuit.
From S2P Require Import OwnershipCircuitCorrect.
From S2P Require Import OwnershipMultiCorrect.
From S2P Require Import OwnershipCorrect.
From S2P Require Import DiscoveryCorrect.
From S2P Require Import Artifact.
From S2P Require Import Prover.
From S2P Require Import Commands.
From S2P Require Import Verifier.
From S2P Require Import CommandsCorrect.
From S2P Require Import EdModel.
From S2P Require Import Examples.

(** ** The proof system *)

Inductive statement := Own | Dest | Multi.
#[local] Instance statement_eq_dec : EqDecision statement.
Proof. solve_decision. Defined.

Definition statement_pub (s : statement) : Z :=
  match s with Own => ex_pub | Dest => ex_dest_pub | Multi => ex_multi_pub end.
Definition statement_byte (s : statement) : Z := match s with Own => 0 | Dest => 1 | Multi => 2 end.
Definition read_statement (bs : list Z) : result go_error statement :=
  match bs with [0] => Ok Own | [1] => Ok Dest | [2] => Ok Multi | _ => Err (Fail "EOF") end.

Lemma read_statement_byte s : read_statement [statement_byte s] = Ok s.
Proof. by destruct s. Qed.

Definition toy_compile (c : circuit_name) : result go_error statement :=
  match c with
  | OwnershipC => Ok Own
  | DestinationC => Ok Dest
  | MultiC n => if n =? 2 then Ok Multi else Err (Fail "unsupported count")
  end.

(** When it is [strict] it knows three statements; otherwise it proves everything. *)
Definition toy_prove (strict : bool) (ccs pk : statement) (w : Witness) : result go_error statement :=
  if strict && bool_decide (public_of w mod field_order ≠ statement_pub pk) then Err (Fail "constraint is not satisfied")
  else if decide (ccs = pk) then Ok pk else Err (Fail "wrong key").
Definition toy_verify (strict : bool) (proof vk : statement) (pub : list Z) : result go_error unit :=
  if strict && bool_decide (pub ≠ [statement_pub vk]) then Err (Fail "pairing doesn't match")
  else if decide (proof = vk) then Ok tt else Err (Fail "pairing doesn't match").

Definition toy_groth16 (strict : bool) : Groth16 := {|
  G1Point := Z; G2Point := Z; Proof := statement; VerifyingKey := statement; ProvingKey := statement;
  ConstraintSystem := statement;
  g1_Bytes := be_bytes 48; g1_Marshal := be_bytes 96; g2_Bytes := be_bytes 96;
  as_BlsProof _ := Some {| Ar := 1; Krs := 2; Bs := 3; Commitments := [4]; CommitmentPok := 5 |};
  as_BlsVK _ := Some {| Alpha := 1; Beta := 2; Gamma := 3; Delta := 4; K := [5; 6; 7];
                        CommitmentKeys := [(8, 9)]; PublicAndCommitmentCommitted := [[]] |};
  proof_WriteTo s := [statement_byte s]; proof_ReadFrom := read_statement;
  vk_WriteTo s := [statement_byte s]; vk_ReadFrom := read_statement;
  pk_WriteRawTo s := [statement_byte s]; pk_UnsafeReadFrom := read_statement;
  ccs_ReadFrom := read_statement;
  frontend_Compile := toy_compile;
  groth16_Setup ccs _ := Ok (ccs, ccs);
  groth16_Prove ccs pk w _ := toy_prove strict ccs pk w;
  groth16_Verify := toy_verify strict;
  fr_Hash _ _ _ := Ok [1] |}.

Lemma statement_bytes s : Forall is_byte [statement_byte s].
Proof. repeat constructor; by destruct s. Qed.

Lemma toy_encodings strict : @Groth16Encodings (toy_groth16 strict).
Proof.
  split; try (intros; apply length_be_bytes); try (intros; apply read_statement_byte); try done.
  intros s. apply statement_bytes.
Defined.

Lemma toy_proof_verifies strict s w proof : toy_prove strict s s w = Ok proof →
  toy_verify strict proof s [public_of w mod field_order] = Ok tt.
Proof.
  unfold toy_prove, toy_verify. generalize (statement_pub s), (public_of w mod field_order). intros pub z.
  rewrite (decide_True _ _ (eq_refl s)). destruct strict; cbn [andb].
  - case_bool_decide as Hz; [done|]. intros [= <-]. subst z. rewrite bool_decide_eq_false_2 by tauto. by rewrite decide_True.
  - intros [= <-]. by rewrite decide_True.
Qed.

Lemma toy_complete strict : @groth16_complete (toy_groth16 strict) _.
Proof. intros ccs toxic pk vk w blinding proof [= <- <-]. exact (toy_proof_verifies strict ccs w proof). Qed.

#[local] Instance strict_groth16 : Groth16 := toy_groth16 true.
#[local] Instance strict_encodings : Groth16Encodings := toy_encodings true.

(** ** Manifests: every string with its length before it *)

Definition put_string (s : list Z) : list Z := Z.of_nat (length s) :: s.
Definition get_string (bs : list Z) : option (list Z * list Z) :=
  match bs with [] => None | n :: bs => Some (take (Z.to_nat n) bs, drop (Z.to_nat n) bs) end.
Fixpoint get_strings (n : nat) (bs : list Z) : option (list (list Z) * list Z) :=
  match n with
  | O => Some ([], bs)
  | S n => '(s, bs) ← get_string bs; '(ss, bs) ← get_strings n bs; Some (s :: ss, bs)
  end.

Lemma get_put_strings ss rest : get_strings (length ss) (concat (put_string <$> ss) ++ rest) = Some (ss, rest).
Proof.
  induction ss as [|s ss IH]; [done|]. cbn [length get_strings fmap list_fmap concat put_string app get_string].
  rewrite Nat2Z.id, <- app_assoc, take_app_length, drop_app_length. cbn [mbind option_bind].
  fold (fmap (M:=list) put_string ss). by rewrite IH.
Qed.

Definition manifest_strings (m : KeyManifest) : list (list Z) :=
  [km_Schema m; km_KeyVersion m; km_CircuitID m; km_Curve m; km_Backend m; km_VKHash m; km_ProvingKeySHA256 m;
   km_ProvingKeyBlake2b256 m; km_VerifyingKeySHA256 m; km_ConstraintSystemHash m; km_CircuitSourceCommit m;
   km_ProofToolVersion m; km_GnarkVersion m; km_SetupTranscriptHash m; km_PublishedAt m; km_SignatureKeyID m].

Definition manifest_of (ss : list (list Z)) (bs : list Z) : result go_error KeyManifest :=
  match ss, bs with
  | [schema; version; circuit; curve; backend; vk; psha; pblake; vsha; cs; commit; tool; gnark; setup; published; key],
    psize :: vsize :: _ => Ok {|
      km_Schema := schema; km_KeyVersion := version; km_CircuitID := circuit; km_Curve := curve; km_Backend := backend;
      km_VKHash := vk; km_ProvingKeySHA256 := psha; km_ProvingKeyBlake2b256 := pblake; km_ProvingKeySize := psize;
      km_VerifyingKeySHA256 := vsha; km_VerifyingKeySize := vsize; km_ConstraintSystemHash := cs;
      km_CircuitSourceCommit := commit; km_ProofToolVersion := tool; km_GnarkVersion := gnark;
      km_SetupTranscriptHash := setup; km_PublishedAt := published; km_ArtifactURLs := None; km_SignatureKeyID := key |}
  | _, _ => Err (Fail "unexpected end of JSON input")
  end.

#[local] Instance toy_manifests : ManifestJSON := {|
  manifest_MarshalIndent m :=
    concat (put_string <$> manifest_strings m) ++ [km_ProvingKeySize m; km_VerifyingKeySize m];
  manifest_Unmarshal bs :=
    match get_strings 16 bs with Some (ss, rest) => manifest_of ss rest | None => Err (Fail "invalid character") end |}.

#[local] Instance toy_manifest_laws : ManifestJSONLaws.
Proof.
  split. intros m Hm. cbn [manifest_Unmarshal manifest_MarshalIndent toy_manifests].
  rewrite <- app_assoc. change 16%nat with (length (manifest_strings m)). rewrite get_put_strings.
  destruct m; cbn in Hm |- *. by rewrite Hm.
Defined.

(** ** Bundles *)

Definition own_proof : @Proof strict_groth16 := Own.
Definition own_vk : @VerifyingKey strict_groth16 := Own.
Definition own_ccs : @ConstraintSystem strict_groth16 := Own.

Lemma toy_vk_bytes (vk : VerifyingKey) : Forall is_byte (vk_WriteTo vk).
Proof. apply (statement_bytes vk). Qed.
Lemma toy_pk_bytes (pk : ProvingKey) : Forall is_byte (pk_WriteRawTo pk).
Proof. apply (statement_bytes pk). Qed.

Lemma no_files : byte_files ∅.
Proof. intros name content Hn. by rewrite lookup_empty in Hn. Qed.

Lemma created_bundle_loads_witness : ∃ b dir',
  loadOrCreateBundle ∅ own_ccs ownershipKeyConfig [] (str "now") = (Ok b, dir') ∧ loadProver dir' ownershipKeyConfig = Ok b.
Proof.
  destruct (created_bundle_loads toy_vk_bytes toy_pk_bytes ∅ own_ccs ownershipKeyConfig [] (str "now") Own Own
    no_files eq_refl eq_refl eq_refl) as (b & dir' & Hr & _ & _ & Hp & _). exists b, dir'. split; [exact Hr|exact Hp].
Defined.

Lemma SerializeCardanoProof_layout_witness : ∃ out, SerializeCardanoProof own_proof = Ok (out, commitment_format) ∧
  length out = 336%nat ∧ bytes_at CmtOff 96 out = be_bytes 96 4 ∧ bytes_at PokOff 48 out = be_bytes 48 5.
Proof.
  destruct (SerializeCardanoProof_layout own_proof _ eq_refl) as (out & Ho & Hl & _ & _ & _ & Hc & Hp).
  exists out. split; [exact Ho|]. split; [exact Hl|]. split; [exact Hc|exact Hp].
Defined.

Lemma SerializeCardanoVK_layout_witness : ∃ out, SerializeCardanoVK own_vk = Ok (out, commitment_format) ∧
  length out = 672%nat ∧ bytes_at K2Off 48 out = be_bytes 48 7 ∧ bytes_at CKGOff 96 out = be_bytes 96 8.
Proof.
  destruct (SerializeCardanoVK_layout own_vk _ 5 6 [7] eq_refl eq_refl) as (out & Ho & Hl & _ & Hk & Hg & _).
  exists out. split; [exact Ho|]. split; [exact Hl|]. split; [exact Hk|exact Hg].
Defined.

(** ** An artifact that verifies *)

Lemma ex_credential_bytes : Forall is_byte ex_credential.
Proof. apply leaf_credential_wf. Qed.

Lemma ex_pub_of_credential : PublicInputForCredential ex_credential = Ok ex_pub.
Proof.
  pose proof ex_credential_length as Hl. unfold ex_pub. revert Hl. generalize ex_credential. intros c Hl.
  by apply PublicInputForCredential_28.
Qed.

Lemma ex_pub_in_field : ex_pub mod field_order = ex_pub.
Proof. unfold ex_pub. generalize (blake2b_sum 32 (Domain ++ ex_credential)). intros digest. exact (pub_in_field digest). Qed.

(** Neither is ever evaluated. *)
#[local] Opaque ex_credential ex_pub.

Definition artifact_of (credential : list Z) (pub : Z) (vkHash : list Z) : ProofArtifact := {|
  pa_Schema := ProofSchema; pa_CircuitID := CircuitID; pa_VKHash := vkHash;
  pa_TargetCredential := hex_EncodeToString credential; pa_TargetCredentials := [];
  pa_DestinationAddressEncoding := []; pa_DestinationAddress := []; pa_CredentialCount := 0;
  pa_PublicInputEncoding := []; pa_PublicInput := PublicInputHex pub; pa_Proof := MarshalProof own_proof;
  pa_Cardano := None; pa_Path := None; pa_Paths := [] |}.

Lemma artifact_accepted dir b credential pub : Forall is_byte credential → length credential = 28%nat →
  PublicInputForCredential credential = Ok pub → loadVerifier dir ownershipKeyConfig = Ok b →
  VerifyProof (ob_VerifyingKey b) own_proof pub = Ok tt →
  cmdVerify dir (artifact_of credential pub (km_VKHash (ob_Manifest b))) = Ok tt.
Proof.
  intros Hb Hl Hp Hv Hok.
  unfold cmdVerify, readProofSchema. rewrite run_require by (by apply differs_false).
  unfold validateSingleProofArtifact. rewrite run_require by (by apply differs_false).
  cbn [pa_TargetCredential pa_PublicInput artifact_of].
  rewrite (run_map_err _ _ _ _ (credential_reads_back _ Hb Hl)).
  rewrite (run_map_err _ _ _ _ Hp). rewrite run_require by (by apply differs_false). cbn [mbind result_bind].
  by rewrite (verify_in_bundle_Ok dir ownershipKeyConfig (artifact_of credential pub (km_VKHash (ob_Manifest b))) pub _
    own_proof Hv eq_refl (proof_text_round_trip _) Hok).
Qed.

Lemma ex_own_verifies : VerifyProof own_vk own_proof ex_pub = Ok tt.
Proof.
  unfold VerifyProof. rewrite ex_pub_in_field. apply within_Ok.
  change (toy_verify true Own Own [ex_pub] = Ok tt). unfold toy_verify. change (statement_pub Own) with ex_pub.
  rewrite bool_decide_eq_false_2 by tauto. reflexivity.
Qed.

Definition ex_artifact_of : list Z → ProofArtifact := artifact_of ex_credential ex_pub.

(** Keys in a directory, and an artifact the command accepts there. *)
Lemma ex_verified : ∃ dir b, loadVerifier dir ownershipKeyConfig = Ok b ∧ ob_VerifyingKey b = own_vk ∧
  cmdVerify dir (ex_artifact_of (km_VKHash (ob_Manifest b))) = Ok tt.
Proof.
  destruct (fresh_bundle_loads toy_vk_bytes toy_pk_bytes ∅ own_ccs ownershipKeyConfig [] (str "now") own_ccs own_vk
    no_files eq_refl eq_refl eq_refl) as (b & dir & _ & _ & Hvk & _ & Hv & _).
  eexists dir, _. split; [exact Hv|]. split; [reflexivity|].
  exact (artifact_accepted dir _ ex_credential ex_pub ex_credential_bytes ex_credential_length ex_pub_of_credential Hv ex_own_verifies).
Qed.

(** The circuit of [Examples.v] makes the proof system sound for its own statement. *)
Lemma wire_value z : z mod field_order = z → value (wire z) = z.
Proof. exact (λ Hz, Hz). Qed.

Lemma ex_circuit_pub : value (Pub ex_circuit) = ex_pub.
Proof. exact (wire_value ex_pub ex_pub_in_field). Qed.

Lemma accepted_not_rejected {A} (m : Circuit A) : circuit_ok m (λ _, True) → ¬ rejects m.
Proof. intros [_ (n & a & _ & Hrun)] Hr. specialize (Hrun []). by rewrite Hr in Hrun. Qed.

(** The wires behind a proof: those of the circuit of its statement. *)
Definition ex_extract_ownership (vk : VerifyingKey) (proof : Proof) (z : Z) : OwnershipCircuit var := ex_circuit.
Definition ex_extract_destination (vk : VerifyingKey) (proof : Proof) (z : Z) : DestCircuit var := ex_dest_circuit.
Definition ex_extract_multi (vk : VerifyingKey) (proof : Proof) (z : Z) : MultiCircuit var := ex_multi.

(** What the proof system accepts under a key. *)
Lemma ex_accepts s proof z : toy_verify true proof s [z] = Ok tt → z = statement_pub s.
Proof. unfold toy_verify. cbn [andb]. case_bool_decide as Hp; [done|]. intros _. exact (f_equal (hd 0) Hp). Qed.

Lemma ex_sound : sound_ownership ex_extract_ownership own_vk.
Proof.
  intros proof z Hz. apply (ex_accepts Own) in Hz as ->. split; [exact ex_circuit_shape|].
  split; [exact ex_circuit_pub|]. apply accepted_not_rejected, Define_cases; [exact ex_circuit_shape|exact ex_owns].
Qed.

(** *** The other two forms *)

Definition dest_proof : @Proof strict_groth16 := Dest.
Definition dest_vk : @VerifyingKey strict_groth16 := Dest.
Definition dest_ccs : @ConstraintSystem strict_groth16 := Dest.
Definition multi_proof : @Proof strict_groth16 := Multi.
Definition multi_vk : @VerifyingKey strict_groth16 := Multi.
Definition multi_ccs : @ConstraintSystem strict_groth16 := Multi.

Lemma ex_dest_in_field : ex_dest_pub mod field_order = ex_dest_pub.
Proof. unfold ex_dest_pub. generalize (blake2b_sum 32 (DestDomain ++ ex_credential ++ ex_dest)). intros digest. exact (pub_in_field digest). Qed.
Lemma ex_multi_in_field : ex_multi_pub mod field_order = ex_multi_pub.
Proof.
  unfold ex_multi_pub. generalize (blake2b_sum 32 (MultiDomain ++ count_bytes 2 ++ (ex_credential ++ ex_credential ++ []) ++ ex_dest)).
  intros digest. exact (pub_in_field digest).
Qed.

Lemma ex_dest_sound : sound_destination ex_extract_destination dest_vk.
Proof.
  intros proof z Hz. apply (ex_accepts Dest) in Hz as ->. destruct ex_dest_shape as [Hs Hl]. split; [exact Hs|].
  split; [exact Hl|]. split; [exact (wire_value ex_dest_pub ex_dest_in_field)|].
  apply accepted_not_rejected, (DefineDest_cases ex_dest_circuit Hs Hl). exact ex_owns_to.
Qed.

Lemma ex_multi_sound : sound_multi ex_extract_multi 2 multi_vk.
Proof.
  intros proof z Hz. apply (ex_accepts Multi) in Hz as ->. split; [exact ex_multi_shape|]. split; [reflexivity|].
  split; [exact (wire_value ex_multi_pub ex_multi_in_field)|].
  apply accepted_not_rejected, (DefineMulti_cases ex_multi ex_multi_shape). exact ex_owns_all.
Qed.

Lemma ex_dest_bytes : Forall is_byte ex_dest ∧ length ex_dest = 58%nat.
Proof. split; [apply ex_le_bytes|reflexivity]. Qed.

Lemma ex_dest_input : PublicInputForCredentialDestination ex_credential ex_dest = Ok ex_dest_pub.
Proof. apply PublicInputForDestination_ok; [exact ex_credential_length|apply ex_dest_bytes|reflexivity]. Qed.

Lemma ex_targets_bytes : Forall (λ bs, Forall is_byte bs ∧ length bs = 28%nat) [ex_credential; ex_credential].
Proof. repeat constructor; first [exact ex_credential_bytes|exact ex_credential_length]. Qed.

Lemma ex_multi_input : PublicInputForCredentialsDestination [ex_credential; ex_credential] ex_dest = Ok ex_multi_pub.
Proof.
  apply PublicInputForCredentials_ok; [cbn; lia| |apply ex_dest_bytes|reflexivity].
  repeat constructor; exact ex_credential_length.
Qed.

Lemma ex_toy_verifies s pub : pub mod field_order = pub → statement_pub s = pub →
  @VerifyProof strict_groth16 _ s s pub = Ok tt.
Proof.
  intros Hf <-. unfold VerifyProof. rewrite Hf. apply within_Ok. change (toy_verify true s s [statement_pub s] = Ok tt).
  unfold toy_verify. cbn [andb]. rewrite bool_decide_eq_false_2 by tauto. by rewrite decide_True.
Qed.

Definition ex_dest_artifact (vkHash : list Z) : ProofArtifact := {|
  pa_Schema := ProofSchema; pa_CircuitID := DestCircuitID; pa_VKHash := vkHash;
  pa_TargetCredential := hex_EncodeToString ex_credential; pa_TargetCredentials := [];
  pa_DestinationAddressEncoding := DestinationAddressEncoding; pa_DestinationAddress := hex_EncodeToString ex_dest;
  pa_CredentialCount := 0; pa_PublicInputEncoding := DestPublicInputEncoding; pa_PublicInput := PublicInputHex ex_dest_pub;
  pa_Proof := MarshalProof dest_proof; pa_Cardano := None; pa_Path := None; pa_Paths := [] |}.

Definition ex_multi_artifact (vkHash : list Z) : ProofArtifact := {|
  pa_Schema := ProofSchema; pa_CircuitID := CircuitIDForCount 2; pa_VKHash := vkHash;
  pa_TargetCredential := []; pa_TargetCredentials := encodeHexList [ex_credential; ex_credential];
  pa_DestinationAddressEncoding := DestinationAddressEncoding; pa_DestinationAddress := hex_EncodeToString ex_dest;
  pa_CredentialCount := 2; pa_PublicInputEncoding := MultiPublicInputEncoding; pa_PublicInput := PublicInputHex ex_multi_pub;
  pa_Proof := MarshalProof multi_proof; pa_Cardano := None; pa_Path := None; pa_Paths := [] |}.

Lemma ex_dest_verified : ∃ dir b, loadVerifier dir ownershipDestinationKeyConfig = Ok b ∧ ob_VerifyingKey b = dest_vk ∧
  cmdVerifyDestination dir (ex_dest_artifact (km_VKHash (ob_Manifest b))) = Ok tt.
Proof.
  destruct (fresh_bundle_loads toy_vk_bytes toy_pk_bytes ∅ dest_ccs ownershipDestinationKeyConfig [] (str "now") dest_ccs dest_vk
    no_files eq_refl eq_refl eq_refl) as (b & dir & _ & _ & Hvk & _ & Hv & _).
  eexists dir, _. split; [exact Hv|]. split; [reflexivity|]. destruct ex_dest_bytes as [Hdb Hdl].
  exact (destination_accepted dir (ex_dest_artifact (km_VKHash (ob_Manifest b))) ex_credential ex_dest ex_dest_pub _ dest_proof
    ex_credential_bytes ex_credential_length Hdb Hdl ex_dest_input eq_refl eq_refl eq_refl eq_refl eq_refl eq_refl eq_refl
    Hv eq_refl (proof_text_round_trip _) (ex_toy_verifies Dest ex_dest_pub ex_dest_in_field eq_refl)).
Qed.

Lemma ex_multi_verified : ∃ dir b, loadVerifier dir (ownershipMultiKeyConfigForCount 2) = Ok b ∧ ob_VerifyingKey b = multi_vk ∧
  cmdVerifyMulti dir (ex_multi_artifact (km_VKHash (ob_Manifest b))) = Ok tt.
Proof.
  destruct (fresh_bundle_loads toy_vk_bytes toy_pk_bytes ∅ multi_ccs (ownershipMultiKeyConfigForCount 2) [] (str "now")
    multi_ccs multi_vk no_files (KeyVersionForCount_visible 2) eq_refl eq_refl) as (b & dir & _ & _ & Hvk & _ & Hv & _).
  eexists dir, _. split; [exact Hv|]. split; [reflexivity|]. destruct ex_dest_bytes as [Hdb Hdl].
  exact (multi_accepted dir (ex_multi_artifact (km_VKHash (ob_Manifest b))) [ex_credential; ex_credential] ex_dest ex_multi_pub
    _ multi_proof 2 ltac:(lia) eq_refl ex_targets_bytes Hdb Hdl ex_multi_input eq_refl eq_refl eq_refl eq_refl eq_refl eq_refl
    eq_refl eq_refl Hv eq_refl (proof_text_round_trip _) (ex_toy_verifies Multi ex_multi_pub ex_multi_in_field eq_refl)).
Qed.

(** Each form of artifact, accepted in its key directory, and what follows of the wires
    behind its proof. *)
Lemma verified_means_owned_witness :
  (∃ dir a, cmdVerify dir a = Ok tt ∧ pa_TargetCredential a = hex_EncodeToString ex_credential ∧
     ∃ target, DecodeCredentialHex (pa_TargetCredential a) = Ok target ∧
     ∃ cred, clamped_master (circuit_master ex_circuit) ∧
       DeriveCredential (circuit_master ex_circuit) (wires_path (CPath ex_circuit)) = Ok cred ∧
       (cred = target ∨ input_collision (Domain ++ cred) (Domain ++ target))) ∧
  (∃ dir a, cmdVerifyDestination dir a = Ok tt ∧ pa_DestinationAddress a = hex_EncodeToString ex_dest ∧
     ∃ target dest cred, DecodeDestinationAddressV1Hex (pa_DestinationAddress a) = Ok dest ∧
       (cred = target ∧ value <$> Destination ex_dest_circuit = dest ∨
        input_collision (DestDomain ++ cred ++ (value <$> Destination ex_dest_circuit)) (DestDomain ++ target ++ dest))) ∧
  (∃ dir a, cmdVerifyMulti dir a = Ok tt ∧ pa_CredentialCount a = 2 ∧
     ∃ targets dest creds, decodeCredentialList (pa_TargetCredentials a) = Ok targets ∧
       DecodeDestinationAddressV1Hex (pa_DestinationAddress a) = Ok dest ∧
       (creds = targets ∧ value <$> mDestination ex_multi = dest ∨
        input_collision (MultiDomain ++ count_bytes 2 ++ concat creds ++ (value <$> mDestination ex_multi))
                        (MultiDomain ++ count_bytes 2 ++ concat targets ++ dest))).
Proof.
  split; [|split].
  - destruct ex_verified as (dir & b & Hl & Hvk & Hc). exists dir, (ex_artifact_of (km_VKHash (ob_Manifest b))).
    split; [exact Hc|]. split; [reflexivity|].
    destruct (proj1 (verified_means_owned ex_extract_ownership ex_extract_destination ex_extract_multi dir _) Hc)
      as (b' & proof & target & pub & _ & _ & Ht & _ & Ho).
    + intros b' Hl'. rewrite Hl in Hl'. injection Hl' as <-. rewrite Hvk. exact ex_sound.
    + exists target. split; [exact Ht|exact Ho].
  - destruct ex_dest_verified as (dir & b & Hl & Hvk & Hc). exists dir, (ex_dest_artifact (km_VKHash (ob_Manifest b))).
    split; [exact Hc|]. split; [reflexivity|].
    destruct (proj1 (proj2 (verified_means_owned ex_extract_ownership ex_extract_destination ex_extract_multi dir _)) Hc)
      as (b' & proof & target & dest & pub & _ & _ & _ & Hd & _ & cred & _ & _ & Ho).
    + intros b' Hl'. rewrite Hl in Hl'. injection Hl' as <-. rewrite Hvk. exact ex_dest_sound.
    + exists target, dest, cred. split; [exact Hd|exact Ho].
  - destruct ex_multi_verified as (dir & b & Hl & Hvk & Hc). exists dir, (ex_multi_artifact (km_VKHash (ob_Manifest b))).
    split; [exact Hc|]. split; [reflexivity|].
    assert (CircuitCountFromID (pa_CircuitID (ex_multi_artifact (km_VKHash (ob_Manifest b)))) = Some 2) as Hid
      by exact (proj1 (CircuitID_reads_back 2 ltac:(lia))).
    destruct (proj2 (proj2 (verified_means_owned ex_extract_ownership ex_extract_destination ex_extract_multi dir _)) Hc)
      as (count & b' & proof & targets & dest & pub & Hcount & _ & _ & Ht & _ & Hd & _ & creds & _ & _ & Ho).
    + intros count b' Hcount Hl'. rewrite Hid in Hcount. injection Hcount as <-. rewrite Hl in Hl'. injection Hl' as <-.
      rewrite Hvk. exact ex_multi_sound.
    + rewrite Hid in Hcount. injection Hcount as <-. exists targets, dest, creds. split; [exact Ht|]. split; [exact Hd|exact Ho].
Defined.

(** The service verifies the artifact the command accepts, for its own credential and for
    none other. *)
Lemma service_agrees_with_command_witness : ∃ dir v a, LoadBundleVerifier dir = Ok v ∧
  (∀ expected, vr_Verified (VerifyArtifact {| vq_Artifact := a; vq_ExpectedTargetCredential := expected |} (Some v)) = true ↔
     cmdVerify dir a = Ok tt ∧ (blank expected = true ∨ DecodeCredentialHex expected = DecodeCredentialHex (pa_TargetCredential a))) ∧
  vr_Verified (VerifyArtifact {| vq_Artifact := a; vq_ExpectedTargetCredential := pa_TargetCredential a |} (Some v)) = true.
Proof.
  destruct ex_verified as (dir & b & Hl & Hvk & Hc).
  assert (LoadBundleVerifier dir = Ok (BundleVerifier b)) as Hb by (unfold LoadBundleVerifier; by rewrite Hl).
  exists dir, (BundleVerifier b), (ex_artifact_of (km_VKHash (ob_Manifest b))). split; [exact Hb|].
  assert (∀ expected, _) as Hiff by exact (λ expected, proj1 (service_agrees_with_command dir (BundleVerifier b)
    {| vq_Artifact := ex_artifact_of (km_VKHash (ob_Manifest b)); vq_ExpectedTargetCredential := expected |} Hb)).
  split; [exact Hiff|]. exact (proj2 (Hiff _) (conj Hc (or_intror eq_refl))).
Defined.

(** * An owner proves and is believed, at a concrete key

    The proof system of [CommandExamples.v] that proves whatever it is asked: proving
    never fails, as Groth16 promises of satisfied circuits. *)

#[local] Instance open_groth16 : Groth16 := toy_groth16 false.
#[local] Instance open_encodings : Groth16Encodings := toy_encodings false.
#[local] Existing Instance toy_manifests.
#[local] Existing Instance toy_manifest_laws.

Lemma open_proves : groth16_proves wire.
Proof. intros ccs toxic pk vk c blinding _ [= <- <-] _. exists ccs. by destruct ccs. Qed.

Lemma open_vk_bytes (vk : VerifyingKey) : Forall is_byte (vk_WriteTo vk).
Proof. apply (statement_bytes vk). Qed.
Lemma open_pk_bytes (pk : ProvingKey) : Forall is_byte (pk_WriteRawTo pk).
Proof. apply (statement_bytes pk). Qed.

Definition open_ccs : ConstraintSystem := Own.
Definition open_pk : ProvingKey := Own.
Definition open_vk : VerifyingKey := Own.

Lemma ex_path_searched : ∃ p, p ∈ discovery_order ex_options ∧ DeriveCredential ex_master p = Ok ex_credential.
Proof.
  exists ex_path. split; [|exact ex_derives]. apply list_elem_of_lookup. exists 4%nat. reflexivity.
Qed.

Lemma honest_owner_proves_witness : ∃ a dir,
  cmdProve ∅ 5 (hex_EncodeToString ex_master) (hex_EncodeToString ex_credential) ex_options [] (str "now") [] = (Ok a, dir) ∧
  cmdVerify dir (BackendProofArtifact a) = Ok tt.
Proof.
  destruct (honest_owner_proves wire (λ z, eq_refl) open_proves (toy_complete false) open_vk_bytes open_pk_bytes
    ∅ 5 ex_master ex_credential ex_options [] (str "now") [] open_ccs open_pk open_vk no_files eq_refl eq_refl eq_refl
    ex_master_bytes ex_master_length ex_master_clamped (proj2 ex_search_ok) ltac:(cbn; lia) ex_path_searched)
    as (a & dir & Hp & _ & _ & Hv). exists a, dir. split; [exact Hp|exact Hv].
Defined.

Lemma prove_then_verify_witness : ∃ a dir,
  cmdProve ∅ 5 (hex_EncodeToString ex_master) (hex_EncodeToString ex_credential) ex_options [] (str "now") [] = (Ok a, dir) ∧
  cmdVerify dir (BackendProofArtifact a) = Ok tt.
Proof.
  destruct (owner_proves wire (λ z, eq_refl) open_proves (toy_complete false) open_vk_bytes open_pk_bytes
    ∅ 5 ex_master ex_credential ex_options [] (str "now") [] open_ccs open_pk open_vk no_files eq_refl eq_refl eq_refl
    ex_master_bytes ex_master_length ex_master_clamped (proj2 ex_search_ok) ltac:(cbn; lia) ex_path_searched)
    as (a & dir & Hp & _). exists a, dir. split; [exact Hp|].
  refine (proj1 (prove_then_verify (toy_complete false) open_vk_bytes open_pk_bytes ∅ 5 (hex_EncodeToString ex_master)
    (hex_EncodeToString ex_credential) [] ex_options [] [] [] (str "now") [] no_files _ _ _) a dir Hp);
    exact (no_keys_yet ∅ _ _ eq_refl).
Defined.
