(* ===== verification/HelperExamples.v ===== *)
(** * The helper at concrete requests

    A helper paired with one website, with keys of the proof system of
    [CommandExamples.v] that proves whatever it is asked. *)
From stdpp Require Import strings gmap.
From S2P Require Import Prelude.
From S2P Require Import Gnark.
From S2P Require Import GnarkModel.
From S2P Require Import Ckd.
From S2P Require Import GoText.
From S2P Require Import GoError.
From S2P Require Import Ownership.
From S2P Require Import OwnershipCircuit.
From S2P Require Import OwnershipMultiCorrect.
From S2P Require Import Discovery.
From S2P Require Import OwnershipCorrect.
From S2P Require Import DiscoveryCorrect.
From S2P Require Import Artifact.
From S2P Require Import Prover.
From S2P Require Import Commands.
From S2P Require Import Helper.
From S2P Require Import HelperServer.
From S2P Require Import HelperCorrect.
From S2P Require Import CommandsCorrect.
From S2P Require Import HelperProofs.
From S2P Require Import EdModel.
From S2P Require Import Examples.
From S2P Require Import CommandExamples.

#[local] Existing Instance open_groth16.
#[local] Existing Instance open_encodings.
#[local] Existing Instance toy_manifests.
#[local] Existing Instance toy_manifest_laws.
#[local] Opaque ex_credential.

(** ** A website, a request and a browser *)

#[local] Instance no_urls : URLParser := {| url_Parse _ := None |}.

Definition site : list Z := str "https://claim.example".
Definition helper : Server := NewServer (str "token") [site] true.

Definition proof_request : DestinationProofRequest := {|
  dr_OutRef := str "utxo"; dr_TargetCredential := hex_EncodeToString ex_credential;
  dr_DestinationAddressEncoding := DestinationAddressEncoding; dr_DestinationAddress := hex_EncodeToString ex_dest |}.
Definition destination_request : ProveDestinationRequest := {|
  pd_PreflightOnly := false; pd_MasterXPrvBase64 := b64_EncodeToString ex_master; pd_Profile := DestinationProfileSingle;
  pd_Requests := [proof_request]; pd_Search := Some {| ds_MaxAccount := Some 1; ds_MaxIndex := Some 9 |};
  pd_IncludeDebugPath := false |}.

(** The only body that is understood. *)
#[local] Instance one_body : HelperJSON := {|
  json_ProveRequest _ := None;
  json_ProveDestinationRequest body := if decide (body = str "{}") then Some destination_request else None |}.

Definition post (path : list Z) : http_request := {|
  hr_method := str "POST"; hr_path := path; hr_origin := site; hr_token := str "token"; hr_accept := [];
  hr_private_network := []; hr_body := str "{}"; hr_context := never_cancelled; hr_flusher := false;
  hr_write_fails := λ _, false |}.

Lemma post_authorized path : authorized helper (post path).
Proof. split_and!; [done|by vm_compute|done|done]. Qed.

(** ** The shutdown *)

Lemma shutdown_once_witness : hs_HasShutdown helper = true ∧
  st_shutdowns (serve FixtureGenerator helper [post (str "/shutdown"); post (str "/prove"); post (str "/shutdown")]
    {| st_gen := tt; st_shutdownCalled := false; st_shutdowns := 0 |}).2 = 1%nat.
Proof.
  split; [reflexivity|].
  rewrite (shutdown_once FixtureGenerator helper [post (str "/shutdown"); post (str "/prove"); post (str "/shutdown")]
    {| st_gen := tt; st_shutdownCalled := false; st_shutdowns := 0 |} eq_refl).
  cbn [st_shutdownCalled st_shutdowns]. destruct (decide _) as [_|Hn]; [reflexivity|].
  destruct Hn. left. split; [apply post_authorized|reflexivity].
Defined.

(** ** Keys *)

(** Making a bundle writes its three files and no other. *)
Lemma created_files dir ccs cfg toxic now name : name ∉ [manifestPath; pkPath; vkPath] →
  (loadOrCreateBundle dir ccs cfg toxic now).2 !! name = dir !! name.
Proof.
  intros Hn. assert (manifestPath ≠ name ∧ pkPath ≠ name ∧ vkPath ≠ name) as (? & ? & ?) by set_solver.
  unfold loadOrCreateBundle. destruct (filesExist _ _); [done|]. destruct (within _ _) as [[pk vk]|]; [|done].
  repeat case_match; cbn [snd]; by rewrite !lookup_insert_ne.
Qed.

Definition dest_ccs : ConstraintSystem := Dest.

Lemma helper_keys : ∃ dir, destination_ready dir.
Proof.
  destruct (fresh_bundle_loads open_vk_bytes open_pk_bytes ∅ dest_ccs ownershipDestinationKeyConfig [] (str "now") dest_ccs dest_ccs
    no_files eq_refl eq_refl eq_refl) as (b & dir & Hmade & Hpk & Hvk & Hload & _).
  exists dir, b, dest_ccs, [], dest_ccs. split; [|split; [done|split; [done|by rewrite Hvk]]].
  pose proof (created_files ∅ dest_ccs ownershipDestinationKeyConfig [] (str "now") DestinationConstraintSystemFile) as Hn.
  rewrite Hmade in Hn. cbn [snd] in Hn. rewrite lookup_empty in Hn. specialize (Hn ltac:(set_solver)).
  unfold load_destination. rewrite Hload. cbn [mbind result_bind]. unfold LoadOwnershipDestinationCCS, read_file. by rewrite Hn.
Qed.

Lemma open_proves_destination : groth16_proves_destination wire.
Proof. intros ccs toxic pk vk c blinding _ [= <- <-] _. exists ccs. by destruct ccs. Qed.

(** ** The helper, started with those keys *)

Definition key_place : list Z := str "/keys".
Definition ex_helper : OwnershipGenerator := {|
  og_KeysDir := key_place; og_DestinationKeysDir := []; og_AllowCreateKeys := false |}.
Definition helper_state (dir : directory) : gen_state := {| gs_dirs := {[ key_place := dir ]}; gs_destCache := None |}.

Lemma helper_files dir : destination_files None ex_helper (helper_state dir) = dir.
Proof.
  unfold destination_files, files_of. change (key_dir None _ _) with key_place. cbn [helper_state gs_dirs].
  by rewrite lookup_singleton_eq.
Qed.

Lemma destination_cache_transparent_witness : ∃ dir, let st := evictDestinationProver (helper_state dir) in
  (acquireDestinationProver None ex_helper st).1 = load_destination (destination_files None ex_helper st).
Proof.
  destruct helper_keys as [dir _]. exists dir.
  apply (destination_cache_transparent None ex_helper 5 (helper_state dir)); [reflexivity|].
  apply rtc_once. constructor.
Defined.

(** ** The request is answered *)

Definition ex_proof_input : DestinationProofInput := {|
  di_OutRef := str "utxo"; di_TargetCredential := ex_credential;
  di_DestinationAddressEncoding := DestinationAddressEncoding; di_DestinationAddress := ex_dest |}.
Definition ex_search : SearchOptions :=
  {| oAccount := -1; oRole := -1; oIndex := -1; MaxAccount := 1; MaxIndex := 9 |}.
Definition ex_destination_input : ProveDestinationInput := {|
  dp_MasterXPrv := ex_master; dp_Profile := DestinationProfileSingle; dp_Requests := [ex_proof_input];
  dp_Search := ex_search; dp_IncludeDebugPath := false |}.

Lemma ex_build_item : build_item 0 proof_request = Ok ex_proof_input.
Proof.
  unfold build_item. cbn [proof_request dr_OutRef dr_TargetCredential dr_DestinationAddressEncoding dr_DestinationAddress].
  rewrite (credential_reads_back ex_credential ex_credential_bytes ex_credential_length).
  unfold ex_proof_input. generalize ex_credential. intros c. vm_compute. reflexivity.
Qed.

Lemma ex_build : BuildDestinationInput destination_request = Ok ex_destination_input.
Proof.
  unfold BuildDestinationInput. change (pd_MasterXPrvBase64 destination_request) with (b64_EncodeToString ex_master).
  assert (decodeMasterXPrvBase64 (b64_EncodeToString ex_master) = Ok ex_master) as -> by by vm_compute.
  cbn [mbind result_bind destination_request pd_Requests build_items]. rewrite ex_build_item. reflexivity.
Qed.

Lemma ex_search_supported : discovery_ok ex_search ∧ (Z.to_nat (MaxAccount ex_search) + 1 < 5)%nat.
Proof. unfold discovery_ok, ex_search. cbn. lia. Qed.

Lemma ex_searched : Forall (λ i, ∃ p, p ∈ discovery_order ex_search ∧ DeriveCredential ex_master p = Ok (di_TargetCredential i)) [ex_proof_input].
Proof.
  apply Forall_singleton. exists ex_path. split; [|exact ex_derives]. apply list_elem_of_lookup. exists 46%nat. reflexivity.
Qed.

Definition toy_proving : ∀ toxic now blinding blindings, Generator gen_state :=
  ownership_generator None ex_helper 5.
Definition helper_at (dir : directory) : server_state := {| st_gen := helper_state dir; st_shutdownCalled := false; st_shutdowns := 0 |}.
Definition helper_answer (dir : directory) : http_response :=
  (Handler (toy_proving [] (str "now") [] (λ _, [])) helper (post (str "/prove-destination")) (helper_at dir)).1.

Lemma helper_serves_owner_witness : ∃ dir, hp_status (helper_answer dir) = 200 ∧ ∃ rp, answers (hp_body (helper_answer dir)) rp ∧
  length (rp_Artifacts rp) = 1%nat.
Proof.
  destruct helper_keys as [dir Hready]. exists dir.
  destruct (helper_serves_owner wire (λ z, eq_refl) open_proves_destination (toy_complete false) None ex_helper 5 [] (str "now") []
    (λ _, []) helper (post (str "/prove-destination")) (helper_state dir) (helper_at dir) destination_request ex_destination_input
    eq_refl (rtc_refl _ _) ltac:(cbn [helper_at st_gen]; rewrite helper_files; exact Hready) (post_authorized _) eq_refl eq_refl
    ltac:(discriminate) eq_refl eq_refl ex_build ex_master_clamped (proj1 ex_search_supported) (proj2 ex_search_supported) ex_searched)
    as (Hs & rp & Ha & Hall).
  split; [exact Hs|]. exists rp. split; [exact Ha|]. symmetry. exact (Forall2_length _ _ _ Hall).
Defined.

Lemma helper_proofs_verify_witness : ∃ dir rp, answers (hp_body (helper_answer dir)) rp ∧
  ∃ req, json_ProveDestinationRequest (limited (str "{}")) = Some req ∧
    length (pd_Requests req) = length (rp_Artifacts rp).
Proof.
  destruct helper_keys as [dir Hready]. exists dir.
  destruct (owner_served wire (λ z, eq_refl) open_proves_destination (toy_complete false) None ex_helper 5 [] (str "now") []
    (λ _, []) helper (post (str "/prove-destination")) (helper_state dir) (helper_at dir) destination_request ex_destination_input
    eq_refl (rtc_refl _ _) ltac:(cbn [helper_at st_gen]; rewrite helper_files; exact Hready) (post_authorized _) eq_refl eq_refl
    ltac:(discriminate) eq_refl eq_refl ex_build ex_master_clamped (proj1 ex_search_supported) (proj2 ex_search_supported) ex_searched)
    as (_ & rp & Ha & _).
  exists rp. split; [exact Ha|].
  destruct (helper_proofs_verify (toy_complete false) None ex_helper 5 [] (str "now") [] (λ _, []) helper
    (post (str "/prove-destination")) (helper_state dir) (helper_at dir) rp eq_refl (rtc_refl _ _)
    ltac:(cbn [helper_at st_gen]; rewrite helper_files; exact (ready_from_setup dir Hready)) Ha) as (req & Hj & Hall).
  exists req. split; [exact Hj|exact (Forall2_length _ _ _ Hall)].
Defined.
