(* ===== verification/DecisionExamples.v ===== *)
(** * A concrete production decision

    A GO decision on the ceremony of [MpcExamples], its evidence tree with two external
    auditors' signatures, and its four accountable signers with real Ed25519 keys.  The
    digests and signatures stay the functions they are defined as; only the keys are
    computed.  At the end, a ceremony file passes the preflight. *)
From stdpp Require Import strings gmap sorting.
From S2P Require Import Prelude.
From S2P Require Import Blake2bSpec.
From S2P Require Import Blake2bCorrect.
From S2P Require Import GoEd25519.
From S2P Require Import GoText.
From S2P Require Import GoError.
From S2P Require Import Sha256.
From S2P Require Import GoJson.
From S2P Require Import GoCodec.
From S2P Require Import Ownership.
From S2P Require Import MpcModel.
From S2P Require Import MpcPreflight.
From S2P Require Import MpcPreflightCorrect.
From S2P Require Import MpcDefinition.
From S2P Require Import MpcSignature.
From S2P Require Import MpcClose.
From S2P Require Import MpcDecision.
From S2P Require Import MpcRecords.
From S2P Require Import MpcSignatureCorrect.
From S2P Require Import MpcDecisionCorrect.
From S2P Require Import MpcExamples.
From S2P Require Import EdModel.

(** ** Keys *)

Definition dx_seed (k : Z) : list Z := replicate 32 k.
Definition dx_priv (k : Z) : list Z := dx_seed k ++ ex_key k.

(** The signing roles of [ex_definition] and the external auditors hold their keys. *)
Lemma dx_keys : (λ k, NewKeyFromSeed (dx_seed k)) <$> [1; 2; 3; 4; 6; 7] = Some <$> (dx_priv <$> [1; 2; 3; 4; 6; 7]).
Proof. vm_cast_no_check (@eq_refl (list (option (list Z))) (Some <$> (dx_priv <$> [1; 2; 3; 4; 6; 7]))). Qed.

Lemma dx_key k : k ∈ [1; 2; 3; 4; 6; 7] → NewKeyFromSeed (dx_seed k) = Some (dx_priv k).
Proof.
  intros Hk. apply list_elem_of_lookup_1 in Hk as (i & Hi). pose proof (f_equal (lookup i) dx_keys) as E.
  rewrite !list_lookup_fmap, Hi in E. exact (Some_inj _ _ E).
Qed.

(** ** The evidence tree: every file holds one byte, but for the external signatures *)

#[local] Instance dx_urls : URLParser := {|
  url_Parse s := if HasPrefix s (str "https://e/") then
    Some {| url_Scheme := str "https"; url_HasUser := false; url_Host := str "e"; url_Hostname := str "e";
            url_Port := []; url_Fragment := []; url_String := s |} else None |}.

Definition dx_external (k : Z) : Identity := ex_identity (if k =? 6 then "external-1" else "external-2") k.

Definition dx_signoff (k : Z) : list Z := marshal (enc DetachedSignature_codec
  (signature_record [1] (id_KeyID (dx_external k)) (ex_key k) (default [] (Sign (dx_priv k) [1])))).

Definition dx_content (name : list Z) : list Z :=
  if bool_decide (name = str "s6") then dx_signoff 6
  else if bool_decide (name = str "s7") then dx_signoff 7 else [1].
Definition dx_tree (name : list Z) : option (list Z) := Some (dx_content name).

Definition dx_located (name : string) : LocatedArtifactRef :=
  {| la_URI := str "https://e/" ++ str name;
     la_Artifact := {| ar_Name := str name; ar_Digest := NewDigest (dx_content (str name)) |} |}.

(** ** The decision *)

Definition dx_signed (record signature : string) : SignedLocatedArtifact :=
  {| sl_Record := dx_located record; sl_Signature := dx_located signature |}.

Definition dx_release (id : list Z) : SignedReleaseEvidence :=
  {| re_ReleaseID := id; re_CandidateID := sha256_tag ++ ex_hex 32 99; re_Manifest := dx_located "m";
     re_ManifestSignature := dx_located "n"; re_ManifestPublicKey := dx_located "k";
     re_Candidate := dx_signed "c" "d"; re_FinalTranscript := dx_located "t";
     re_Artifacts := Some (dx_located <$> ["a"; "b"; "c"; "d"; "e"; "f"; "g"; "h"; "i"; "j"; "k"; "l"; "m";
       "n"; "o"; "p"]) |}.

Definition dx_audit (k : Z) (name : string) (record signature : string) : ProductionAuditEvidence :=
  {| pa_AuditorID := str name; pa_AuditorKeyID := str name ++ str "-key"; pa_Audit := dx_signed record signature |}.

Definition dx_decision_with (release : SignedReleaseEvidence) (id : list Z) : ProductionDecision :=
  {| pd_Schema := ProductionDecisionSchema; pd_DecisionID := id; pd_CeremonyID := ex_ceremony_id;
     pd_Release := release;
     pd_SourceRelease := {| sr_SourceCommit := ex_hex 20 97; sr_SignedTag := str "v1.0";
       sr_SignatureFormat := str "openpgp-primary-key-v4"; sr_SignerFingerprintHex := ex_hex 20 98;
       sr_SignedTagObject := dx_located "tag" |};
     pd_OperationalEvidence := dx_signed "o" "p";
     pd_Audits := Some [dx_audit 3 "auditor-1" "a1" "b1"; dx_audit 4 "auditor-2" "a2" "b2"];
     pd_ExternalAudits := Some
       [ {| ea_Auditor := dx_external 6; ea_Report := dx_located "r6"; ea_Signoff := dx_located "s6" |};
         {| ea_Auditor := dx_external 7; ea_Report := dx_located "r7"; ea_Signoff := dx_located "s7" |} ];
     pd_K21Rehearsal := {| kr_KeyVersion := KeyVersionDestinationV3; kr_CircuitID := CircuitIDDestinationV3;
       kr_Curve := CurveBLS12381; kr_Backend := BackendGroth16; kr_Constraints := 3;
       kr_DomainSize := Z.shiftl 1 22; kr_Evidence := dx_located "rehearsal" |};
     pd_MainnetDeploymentPlan := dx_located "plan"; pd_FormalChecklist := dx_located "check.md";
     pd_Gates := Some ((λ g, {| pg_Gate := g; pg_Status := GatePASS; pg_Evidence := Some [dx_located "gate"];
       pg_Rationale := [] |}) <$> requiredProductionGates);
     pd_Decision := DecisionGO; pd_DecidedAt := str "2024-01-01T00:00:00Z" |}.

Definition dx_release_id : list Z := canonicalHash (str "proof-tool/mpc-ceremony/signed-release/v1")
  (enc SignedReleaseEvidence_codec (dx_release [])).
Definition dx_decision_id : list Z := canonicalHash (str "proof-tool/mpc-ceremony/production-decision/v1")
  (enc ProductionDecision_codec (dx_decision_with (dx_release dx_release_id) [])).
Definition dx_decision : ProductionDecision := dx_decision_with (dx_release dx_release_id) dx_decision_id.
Definition dx_bytes : list Z := marshal (enc ProductionDecision_codec dx_decision).

(** ** Its evidence is valid *)

Lemma dx_private k : k ∈ [1; 2; 3; 4; 6; 7] → public_of_private (dx_priv k) = ex_key k.
Proof. intros _. unfold public_of_private, dx_priv. by rewrite drop_app_length' by (unfold dx_seed; by rewrite length_replicate). Qed.

Lemma dx_signature k data : k ∈ [1; 2; 3; 4; 6; 7] →
  length (default [] (Sign (dx_priv k) data)) = SignatureSize ∧
  Forall is_byte (default [] (Sign (dx_priv k) data)) ∧
  Verify (ex_key k) data (default [] (Sign (dx_priv k) data)) = true.
Proof.
  intros Hk. destruct (Sign_verifies (dx_seed k) (dx_priv k) data) as (sig & -> & Hl & Hb & Hv).
  - apply length_replicate.
  - by apply dx_key.
  - rewrite dx_private in Hv by done. cbn [default id]. done.
Qed.

(** A file of the tree is a byte or a signature record. *)
Lemma dx_content_length name : 1 <= Z.of_nat (length (dx_content name)) <= 8192.
Proof.
  assert (∀ k, k ∈ [1; 2; 3; 4; 6; 7] → 1 <= Z.of_nat (length (dx_signoff k)) <= 8192) as Hs.
  { intros k Hk. destruct (dx_signature k [1] Hk) as (Hl & _ & _).
    pose proof (length_sha256 (ex_key k)) as Hf. pose proof (length_sha256 [1]) as Hd.
    assert (length (id_KeyID (dx_external k)) = 14%nat) as Hi by (unfold dx_external; by destruct (k =? 6)).
    unfold dx_signoff. cbn [enc DetachedSignature_codec struct field no_fields string_codec f_enc marshal fmap list_fmap].
    unfold signature_record. cbn [ds_Schema ds_Algorithm ds_KeyID ds_PublicKeyFingerprint ds_SignedSHA256 ds_SignatureHex].
    rewrite Join_cons. cbn [fmap list_fmap concat app]. repeat (rewrite ?length_app; cbn [length]).
    repeat match goal with |- context [length (quote ?x)] =>
      let H := fresh in pose proof (length_quote x) as H; revert H; generalize (length (quote x)) end.
    unfold taggedSHA256. rewrite !length_app, !length_hex, Hf, Hd, Hl, Hi.
    unfold SignatureAlgorithm, DetachedSignatureSchema, sha256_tag. repeat match goal with
    | |- context [length (str ?s)] => let n := eval vm_compute in (length (str s)) in change (length (str s)) with n end.
    unfold SignatureSize. lia. }
  unfold dx_content. case_bool_decide; [apply Hs; do 4 right; left|]. case_bool_decide; [apply Hs; do 5 right; left|cbn; lia].
Qed.

Lemma NewDigest_valid data : (1 <= length data)%nat → Digest_Validate (NewDigest data) = Ok tt.
Proof.
  intros Hl. unfold Digest_Validate, NewDigest. cbn [dg_SHA256 dg_Blake2b256 dg_Size].
  rewrite validateTaggedHex_sha256. cbn [within map_err mbind result_bind].
  destruct (RefBlake2b_wf data 32) as [Hb Hbl]; [lia|].
  rewrite validateTaggedHex_tagged by done. cbn [within map_err mbind result_bind].
  apply check_tt, Z.leb_gt. lia.
Qed.

Lemma NewDigest_rep data : Z.of_nat (length data) < 2 ^ 63 → rep Digest_codec (NewDigest data) = true.
Proof.
  intros Hl. destruct (RefBlake2b_wf data 32) as [Hb Hbl]; [lia|]. rep_fields.
  - apply tagged_utf8; [apply sha256_tag_ascii|apply sha256_bytes].
  - apply tagged_utf8; [|exact Hb]. unfold str. cbn. repeat constructor; cbn; lia.
  - cbn [rep int64_codec int_codec NewDigest dg_Size]. unfold in_range. apply andb_true_iff. rewrite !Z.leb_le. lia.
Qed.

Definition dx_name_ok (name : string) : bool :=
  let uri := str "https://e/" ++ str name in
  is_ok (validateImmutableEvidenceURI uri) && is_ok (validateArtifactName (str name)) &&
  utf8_bytes uri && utf8_bytes (str name) &&
  negb (bool_decide (str name = str "..") || HasPrefix (str name) (str "../")).

Lemma dx_located_ok name : dx_name_ok name = true →
  LocatedArtifactRef_Validate (dx_located name) = Ok tt ∧ rep LocatedArtifactRef_codec (dx_located name) = true ∧
  artifactRefForFile dx_tree (str name) = Ok (la_Artifact (dx_located name)) ∧
  verifyArtifactBytes dx_tree (la_Artifact (dx_located name)) maxSignedRecordBytes = Ok (dx_content (str name)).
Proof.
  unfold dx_name_ok. cbv zeta. rewrite !andb_true_iff, negb_true_iff.
  intros ((((Hu%is_ok_tt & Hn%is_ok_tt) & Ru) & Rn) & Hp).
  pose proof (dx_content_length (str name)) as Hl.
  assert (ArtifactRef_Validate (la_Artifact (dx_located name)) = Ok tt) as Ha.
  { unfold ArtifactRef_Validate, dx_located. cbn [la_Artifact ar_Name ar_Digest]. rewrite Hn.
    cbn [mbind result_bind]. apply within_tt, NewDigest_valid. lia. }
  assert (resolve_and_read dx_tree (str name) = Ok (dx_content (str name))) as Hr.
  { unfold resolve_and_read. rewrite Hn, Hp. reflexivity. }
  assert (∀ max, 8192 <= max → (Z.of_nat (length (dx_content (str name))) <=? 0)
    || (max <? Z.of_nat (length (dx_content (str name)))) = false) as Hb.
  { intros max Hm. apply orb_false_iff. rewrite Z.leb_gt, Z.ltb_ge. lia. }
  split_and!.
  - unfold LocatedArtifactRef_Validate. cbn [dx_located la_URI]. rewrite Hu. exact Ha.
  - rep_fields; [exact Ru|]. rep_fields; [exact Rn|]. apply NewDigest_rep. lia.
  - unfold artifactRefForFile. rewrite Hr. cbn [mbind result_bind]. rewrite Hb by done. cbn [check guard_err mbind result_bind].
    fold (la_Artifact (dx_located name)).
    change {| ar_Name := str name; ar_Digest := NewDigest (dx_content (str name)) |} with (la_Artifact (dx_located name)).
    rewrite Ha. reflexivity.
  - unfold verifyArtifactBytes. cbn [dx_located la_Artifact ar_Name ar_Digest]. rewrite Hr. cbn [mbind result_bind].
    rewrite Hb by done. cbn [check guard_err mbind result_bind]. rewrite bool_decide_false by (intros Hx; by apply Hx).
    reflexivity.
Qed.

(** All names used. *)
Definition dx_names : list string := ["a"; "b"; "c"; "d"; "e"; "f"; "g"; "h"; "i"; "j"; "k"; "l"; "m"; "n"; "o"; "p";
  "t"; "tag"; "a1"; "b1"; "a2"; "b2"; "r6"; "s6"; "r7"; "s7"; "rehearsal"; "plan"; "check.md"; "gate"].

Lemma dx_names_ok : forallb dx_name_ok dx_names = true.
Proof. vm_compute. reflexivity. Qed.

Lemma dx_valid name : name ∈ dx_names → LocatedArtifactRef_Validate (dx_located name) = Ok tt.
Proof.
  pose proof dx_names_ok as H. rewrite forallb_forall in H. intros Hin. apply dx_located_ok, H. by apply list_elem_of_In.
Qed.
Lemma dx_rep name : name ∈ dx_names → rep LocatedArtifactRef_codec (dx_located name) = true.
Proof.
  pose proof dx_names_ok as H. rewrite forallb_forall in H. intros Hin. apply dx_located_ok, H. by apply list_elem_of_In.
Qed.

(** Membership of a concrete name. *)
Ltac dx_in := apply (bool_decide_eq_true_1 _); vm_compute; reflexivity.

(** Every element of a list written out. *)
Ltac dx_all tac := repeat (apply Forall_cons; split; [cbn beta; tac|]); apply Forall_nil; exact I.

Lemma dx_signed_valid r s : r ∈ dx_names → s ∈ dx_names → differs (str r) (str s) = true →
  SignedLocatedArtifact_Validate (dx_signed r s) = Ok tt.
Proof.
  intros Hr Hs Hne. unfold SignedLocatedArtifact_Validate, dx_signed. cbn [sl_Record sl_Signature].
  rewrite !dx_valid by done. cbn [within map_err mbind result_bind]. apply check_tt, bool_decide_eq_false.
  intros E. apply (f_equal (λ x, ar_Name (la_Artifact x))) in E. unfold differs in Hne.
  apply bool_decide_eq_true in Hne. by apply Hne.
Qed.

(** [each_ordered] splits into the checks of the elements and the order of the keys. *)
Fixpoint ordered (previous : option (list Z)) (keys : list (list Z)) : bool :=
  match keys with
  | [] => true
  | k :: keys => match previous with Some p => negb (string_leb k p) | None => true end && ordered (Some k) keys
  end.

Lemma each_ordered_intro {A} (key : A → list Z) validate message previous l :
  Forall (λ x, validate x = Ok tt) l → ordered previous (key <$> l) = true →
  each_ordered key validate message previous l = Ok tt.
Proof.
  intros Hl. revert previous. induction Hl as [|x l Hx _ IH]; intros previous; [done|].
  cbn [fmap list_fmap ordered each_ordered]. intros [Hp Ho]%andb_true_iff. rewrite Hx. cbn [mbind result_bind].
  apply bind_unit. split; [|by apply IH]. apply check_tt. destruct previous; [by apply negb_true_iff|done].
Qed.

(** ** The release *)

Lemma dx_candidate_hash label : validateHashID label (sha256_tag ++ ex_hex 32 99) = Ok tt.
Proof. apply within_tt. vm_compute. reflexivity. Qed.

Lemma dx_release_id_computed : computeSignedReleaseID (dx_release dx_release_id) = Ok dx_release_id.
Proof.
  unfold computeSignedReleaseID. cbv zeta. apply bind_Ok. exists tt. split; [|reflexivity].
  apply dx_candidate_hash.
Qed.

Lemma dx_release_valid : SignedReleaseEvidence_Validate (dx_release dx_release_id) = Ok tt.
Proof.
  unfold SignedReleaseEvidence_Validate. apply bind_Ok. exists tt. split; [apply validateHashID_canonical|].
  apply bind_Ok. exists dx_release_id. split; [exact dx_release_id_computed|].
  apply bind_Ok. exists tt. split; [by apply check_tt, differs_false|].
  apply bind_Ok. exists tt. split; [apply dx_candidate_hash|].
  apply bind_Ok. exists tt. split.
  { unfold each. apply each_from_Ok. intros k [label ref] Hk.
    assert (Forall (λ p : string * LocatedArtifactRef, LocatedArtifactRef_Validate p.2 = Ok tt)
      [("manifest", dx_located "m"); ("manifest_signature", dx_located "n");
       ("manifest_public_key", dx_located "k"); ("final_transcript", dx_located "t")]) as Hf
      by (dx_all ltac:(apply dx_valid; dx_in)).
    eapply Forall_lookup_1 in Hf; [|exact Hk]. by apply within_tt. }
  apply bind_Ok. exists tt. split.
  { cbn [dx_release re_Candidate]. apply within_tt, dx_signed_valid; [dx_in|dx_in|vm_compute; reflexivity]. }
  apply bind_Ok. exists tt. split; [reflexivity|].
  apply each_ordered_intro; [|reflexivity]. cbn [dx_release re_Artifacts default id].
  apply Forall_fmap. dx_all ltac:(apply within_tt, dx_valid; dx_in).
Qed.

(** ** The decision is valid *)

Lemma dx_identity_valid k : k = 6 ∨ k = 7 → Identity_Validate (dx_external k) = Ok tt.
Proof. intros [->| ->]; apply ex_identity_valid; first [lia|discriminate|vm_compute; reflexivity]. Qed.

(** Keys whose fingerprints start differently. *)
Lemma fingerprints_differ a b : take 2 (sha256_Sum256 a) ≠ take 2 (sha256_Sum256 b) → taggedSHA256 a ≠ taggedSHA256 b.
Proof. intros Hn E. apply Hn. by rewrite (taggedSHA256_sha a b). Qed.

Lemma dx_prints : (λ k, take 2 (sha256_Sum256 (ex_key k))) <$> [1; 2; 3; 4; 6; 7] =
  [[52; 117]; [106; 56]; [182; 46]; [197; 185]; [114; 69]; [254; 129]].
Proof. vm_compute. reflexivity. Qed.

Lemma dx_fingerprint i j k l : [1; 2; 3; 4; 6; 7] !! i = Some k → [1; 2; 3; 4; 6; 7] !! j = Some l → i ≠ j →
  taggedSHA256 (ex_key k) ≠ taggedSHA256 (ex_key l).
Proof.
  intros Hi Hj Hij. apply fingerprints_differ. intros E.
  pose proof (f_equal (lookup i) dx_prints) as Ei. pose proof (f_equal (lookup j) dx_prints) as Ej.
  rewrite list_lookup_fmap, Hi in Ei. rewrite list_lookup_fmap, Hj in Ej. cbn [fmap option_fmap option_map] in Ei, Ej.
  rewrite E in Ei. symmetry in Ei, Ej. refine (Hij (NoDup_lookup _ _ _ _ _ Ei Ej)).
  apply (bool_decide_eq_true_1 _). vm_compute. reflexivity.
Qed.

Lemma dx_coherent names : coherent (dx_located <$> names).
Proof.
  intros r s (n & -> & _)%list_elem_of_fmap (m & -> & _)%list_elem_of_fmap E.
  assert (str n = str m) as Es by (destruct E as [E|E]; [exact E|exact (app_inv_head _ _ _ E)]).
  unfold dx_located. by rewrite Es.
Qed.

Definition dx_refs : list string := ["m"; "n"; "k"; "c"; "d"; "t"; "tag"; "o"; "p"; "a1"; "b1"; "a2"; "b2"; "rehearsal"; "plan";
  "check.md"] ++ ["a"; "b"; "c"; "d"; "e"; "f"; "g"; "h"; "i"; "j"; "k"; "l"; "m"; "n"; "o"; "p"] ++
  ["r6"; "s6"; "r7"; "s7"] ++ replicate 14 "gate".

Lemma dx_refs_names name : name ∈ dx_refs → name ∈ dx_names.
Proof.
  assert (forallb (λ n, bool_decide (n ∈ dx_names)) dx_refs = true) as H by (vm_compute; reflexivity).
  rewrite forallb_forall in H. intros Hn%list_elem_of_In%H. by apply bool_decide_eq_true in Hn.
Qed.

Lemma dx_all_refs : allLocatedArtifacts dx_decision = Ok (dx_located <$> dx_refs).
Proof. reflexivity. Qed.

Lemma dx_gate_valid g : ProductionGateResult_Validate {| pg_Gate := g; pg_Status := GatePASS;
  pg_Evidence := Some [dx_located "gate"]; pg_Rationale := [] |} = Ok tt.
Proof.
  unfold ProductionGateResult_Validate. cbn [pg_Status pg_Evidence pg_Rationale].
  apply bind_Ok. exists tt. split; [reflexivity|]. apply bind_Ok. exists tt. split; [reflexivity|].
  apply bind_Ok. exists tt. split; [|reflexivity]. apply each_ordered_intro; [|reflexivity].
  cbn [default id]. dx_all ltac:(apply within_tt, dx_valid; dx_in).
Qed.

Lemma dx_source_valid : SourceReleaseEvidence_Validate (pd_SourceRelease dx_decision) = Ok tt.
Proof.
  unfold SourceReleaseEvidence_Validate. cbn [dx_decision dx_decision_with pd_SourceRelease sr_SourceCommit
    sr_SignedTag sr_SignatureFormat sr_SignerFingerprintHex sr_SignedTagObject].
  do 5 (apply bind_Ok; exists tt; split; [vm_compute; reflexivity|]). apply dx_valid. dx_in.
Qed.

Lemma dx_rehearsal_valid : K21RehearsalEvidence_Validate (pd_K21Rehearsal dx_decision) = Ok tt.
Proof.
  unfold K21RehearsalEvidence_Validate. cbn [dx_decision dx_decision_with pd_K21Rehearsal kr_KeyVersion
    kr_CircuitID kr_Curve kr_Backend kr_Constraints kr_DomainSize kr_Evidence].
  do 3 (apply bind_Ok; exists tt; split; [vm_compute; reflexivity|]). apply dx_valid. dx_in.
Qed.

Lemma dx_audits_valid : Forall (λ a, within "audit %d" (ProductionAuditEvidence_Validate a) = Ok tt)
  (default [] (pd_Audits dx_decision)).
Proof.
  cbn [dx_decision dx_decision_with pd_Audits default id].
  dx_all ltac:(apply within_tt; unfold ProductionAuditEvidence_Validate;
    cbn [dx_audit pa_AuditorID pa_AuditorKeyID pa_Audit];
    do 2 (apply bind_Ok; exists tt; split; [vm_compute; reflexivity|]);
    apply dx_signed_valid; [dx_in|dx_in|vm_compute; reflexivity]).
Qed.

Lemma dx_externals_valid : Forall (λ e, within "external audit %d" (ExternalAuditEvidence_Validate e) = Ok tt)
  (default [] (pd_ExternalAudits dx_decision)).
Proof.
  cbn [dx_decision dx_decision_with pd_ExternalAudits default id].
  dx_all ltac:(apply within_tt; unfold ExternalAuditEvidence_Validate;
    cbn [ea_Auditor ea_Report ea_Signoff];
    apply bind_Ok; exists tt; split; [apply within_tt, dx_identity_valid; (by left) || (by right)|];
    apply bind_Ok; exists tt; split; [apply within_tt, dx_valid; dx_in|];
    apply bind_Ok; exists tt; split; [apply within_tt, dx_valid; dx_in|];
    apply check_tt, bool_decide_eq_false;
    let E := fresh in intros E; apply (f_equal (λ x, ar_Name (la_Artifact x))) in E; discriminate E).
Qed.

Lemma dx_decision_valid : ProductionDecision_Validate dx_decision = Ok tt.
Proof.
  unfold ProductionDecision_Validate.
  apply bind_Ok. exists tt. split; [by apply check_tt, differs_false|].
  apply bind_Ok. exists tt. split; [apply validateHashID_canonical|].
  apply bind_Ok. exists dx_decision_id. split; [reflexivity|].
  apply bind_Ok. exists tt. split; [by apply check_tt, differs_false|].
  apply bind_Ok. exists tt. split; [apply ex_ceremony_id_hash|].
  apply bind_Ok. exists tt. split; [apply within_tt, dx_release_valid|].
  apply bind_Ok. exists tt. split; [apply within_tt, dx_source_valid|].
  apply bind_Ok. exists tt. split; [apply within_tt, dx_signed_valid; [dx_in|dx_in|vm_compute; reflexivity]|].
  apply bind_Ok. exists tt. split; [reflexivity|].
  apply bind_Ok. exists tt. split; [apply each_ordered_intro; [apply dx_audits_valid|reflexivity]|].
  apply bind_Ok. eexists. split; [reflexivity|]. apply bind_Ok. eexists. split; [reflexivity|].
  apply bind_Ok. exists tt. split; [reflexivity|].
  apply bind_Ok. exists tt. split; [reflexivity|].
  apply bind_Ok. exists tt. split; [apply each_ordered_intro; [apply dx_externals_valid|reflexivity]|].
  apply bind_Ok. eexists. split; [reflexivity|]. apply bind_Ok. eexists. split; [reflexivity|].
  apply bind_Ok. exists tt. split.
  { apply check_tt, bool_decide_eq_false. exact (dx_fingerprint 4 5 6 7 eq_refl eq_refl ltac:(discriminate)). }
  apply bind_Ok. exists tt. split; [apply dx_rehearsal_valid|].
  apply bind_Ok. exists tt. split; [apply within_tt, dx_valid; dx_in|].
  apply bind_Ok. exists tt. split; [apply within_tt, dx_valid; dx_in|].
  apply bind_Ok. exists tt. split; [reflexivity|].
  apply bind_Ok. exists tt. split; [reflexivity|].
  apply bind_Ok. exists true. split.
  { apply check_gates_Ok; [reflexivity|]. split; [reflexivity|]. split; [|reflexivity].
    apply Forall_fmap, Forall_true. intros g. apply dx_gate_valid. }
  apply bind_Ok. exists tt. split; [reflexivity|].
  apply bind_Ok. exists tt. split.
  { change (validateTimestamp "decided_at" (str "2024-01-01T00:00:00Z") = Ok tt). vm_compute. reflexivity. }
  unfold validateLocatedArtifactCoherence. rewrite dx_all_refs. cbn [mbind result_bind].
  apply coherent_from_empty, dx_coherent.
Qed.

(** ** It survives its encoding *)

Lemma dx_signed_rep r s : r ∈ dx_names → s ∈ dx_names → rep SignedLocatedArtifact_codec (dx_signed r s) = true.
Proof. intros Hr Hs. rep_fields; by apply dx_rep. Qed.

Lemma dx_list_rep {A} (c : codec A) l : Forall (λ x, rep c x = true) l → rep (slice_codec c) (Some l) = true.
Proof. intros Hl. apply forallb_forall. intros x Hx. rewrite Forall_forall in Hl. by apply Hl, list_elem_of_In. Qed.

Lemma dx_identity_rep k : k = 6 ∨ k = 7 → rep Identity_codec (dx_external k) = true.
Proof.
  intros Hk. rep_fields; [destruct Hk as [->| ->]; reflexivity..| |].
  - apply hex_utf8, be_bytes_are_bytes.
  - apply tagged_utf8; [apply sha256_tag_ascii|apply sha256_bytes].
Qed.

Lemma dx_release_rep : rep SignedReleaseEvidence_codec (dx_release dx_release_id) = true.
Proof.
  rep_fields; [apply canonicalHash_utf8|reflexivity|apply dx_rep; dx_in..|apply dx_signed_rep; dx_in|
    apply dx_rep; dx_in|]. apply dx_list_rep, Forall_fmap. dx_all ltac:(apply dx_rep; dx_in).
Qed.

Lemma gates_utf8 g : g ∈ requiredProductionGates → utf8_bytes g = true.
Proof.
  assert (forallb utf8_bytes requiredProductionGates = true) as H by (vm_compute; reflexivity).
  rewrite forallb_forall in H. intros Hg. by apply H, list_elem_of_In.
Qed.

Lemma dx_decision_rep : rep ProductionDecision_codec dx_decision = true.
Proof.
  rep_fields; [reflexivity|apply canonicalHash_utf8|apply ex_ceremony_id_utf8|exact dx_release_rep| |
    apply dx_signed_rep; dx_in| | | |apply dx_rep; dx_in|apply dx_rep; dx_in| |reflexivity|reflexivity].
  - rep_fields; [reflexivity..|apply dx_rep; dx_in].
  - apply dx_list_rep. dx_all ltac:(rep_fields; [reflexivity|reflexivity|apply dx_signed_rep; dx_in]).
  - apply dx_list_rep. dx_all ltac:(rep_fields; [apply dx_identity_rep; (by left) || (by right)|apply dx_rep; dx_in|apply dx_rep; dx_in]).
  - rep_fields; [reflexivity..|apply dx_rep; dx_in].
  - apply dx_list_rep, Forall_fmap.
    apply Forall_forall. intros g Hgu%gates_utf8. cbn beta.
    rep_fields; [exact Hgu|reflexivity| |reflexivity]. apply dx_list_rep. dx_all ltac:(apply dx_rep; dx_in).
Qed.

(** ** Its evidence verifies *)

Lemma dx_bytes_read : UnmarshalCanonical ProductionDecision_codec ProductionDecision_Validate dx_bytes = Ok dx_decision.
Proof.
  apply UnmarshalCanonical_Ok. split; [exact dx_decision_valid|]. split; [exact dx_decision_rep|reflexivity].
Qed.

Lemma dx_bound : validateProductionDecisionBinding ex_definition dx_decision = Ok tt.
Proof.
  unfold validateProductionDecisionBinding. cbv zeta.
  apply bind_Ok. exists tt. split; [by apply check_tt, differs_false|].
  apply bind_Ok. exists tt. split; [by apply check_tt, differs_false|].
  apply bind_Ok. exists tt. split; [reflexivity|].
  apply bind_Ok. exists tt. split; [reflexivity|].
  unfold each. apply each_from_Ok. intros i x Hi.
  assert (∃ j k, [1; 2; 3; 4; 6; 7] !! j = Some k ∧ (4 <= j)%nat ∧
    id_PublicKeyFingerprint (ea_Auditor x) = taggedSHA256 (ex_key k)) as (j & k & Hj & Hj4 & ->).
  { destruct i as [|[|i]]; [| |done]; cbn in Hi; apply Some_inj in Hi as <-; [exists 4%nat, 6|exists 5%nat, 7];
      (split; [reflexivity|]; split; [lia|reflexivity]). }
  assert (∀ n l m, (n < 4)%nat → [1; 2; 3; 4; 6; 7] !! n = Some l →
    check (negb (differs (taggedSHA256 (ex_key k)) (taggedSHA256 (ex_key l)))) m = Ok tt ∧
    negb (differs (taggedSHA256 (ex_key k)) (taggedSHA256 (ex_key l))) = false) as Hd.
  { intros n l m Hn Hl. assert (differs (taggedSHA256 (ex_key k)) (taggedSHA256 (ex_key l)) = true) as ->; [|done].
    apply bool_decide_eq_true. apply (dx_fingerprint j n k l Hj Hl). lia. }
  apply bind_Ok. exists tt. split.
  - apply check_tt, orb_false_iff. split; [exact (proj2 (Hd 0%nat 1 "" ltac:(lia) eq_refl))|exact (proj2 (Hd 1%nat 2 "" ltac:(lia) eq_refl))].
  - apply bind_Ok. exists tt. split; [exact (proj1 (Hd 2%nat 3 _ ltac:(lia) eq_refl))|].
    apply bind_Ok. exists tt. split; [exact (proj1 (Hd 3%nat 4 _ ltac:(lia) eq_refl))|reflexivity].
Qed.

Lemma identityPublicKey_bytes i pub : id_Ed25519PublicKeyHex i = hex_EncodeToString pub →
  id_PublicKeyFingerprint i = taggedSHA256 pub → Forall is_byte pub → length pub = PublicKeySize →
  identityPublicKey i = Ok pub.
Proof.
  intros Hx Hf Hb Hl. unfold identityPublicKey, DecodePublicKeyHex. rewrite Hx, Hf.
  rewrite TrimSpace_visible by (eapply Forall_impl; [by apply hex_chars|]; by intros c [? _]).
  rewrite hex_round_trip, Hl by exact Hb.
  assert (∀ s, check (differs s s) "identity public-key fingerprint mismatch" = Ok tt) as Hc
    by (intros s; by apply check_tt, differs_false).
  rewrite Nat.eqb_refl. cbn [negb check guard_err mbind result_bind].
  change (guard_err (differs (taggedSHA256 pub) (taggedSHA256 pub)) (Fail "identity public-key fingerprint mismatch"))
    with (check (differs (taggedSHA256 pub) (taggedSHA256 pub)) "identity public-key fingerprint mismatch").
  rewrite Hc. reflexivity.
Qed.

Lemma dx_identity_key name k : identityPublicKey (ex_identity name k) = Ok (ex_key k).
Proof.
  exact (identityPublicKey_bytes (ex_identity name k) (ex_key k) eq_refl eq_refl
    (be_bytes_are_bytes _ _) (length_be_bytes _ _)).
Qed.

Lemma dx_external_verifies k report signoff : k ∈ [1; 2; 3; 4; 6; 7] → k = 6 ∨ k = 7 →
  report ∈ dx_names → signoff ∈ dx_names →
  dx_content (str report) = [1] → dx_content (str signoff) = dx_signoff k →
  (reportBytes ← decisionArtifactBytes dx_tree (dx_located report) maxSignedRecordBytes;
   signoffBytes ← decisionArtifactBytes dx_tree (dx_located signoff) maxSignedRecordBytes;
   signoff ← UnmarshalCanonical DetachedSignature_codec DetachedSignature_Validate signoffBytes;
   publicKey ← identityPublicKey (dx_external k);
   within "external audit %d" (VerifyExact reportBytes signoff (id_KeyID (dx_external k)) publicKey)) = Ok tt.
Proof.
  intros Hk Hk' Hr Hs Er Es. pose proof dx_names_ok as Hn. rewrite forallb_forall in Hn.
  destruct (dx_located_ok report) as (_ & _ & _ & Vr); [by apply Hn, list_elem_of_In|].
  destruct (dx_located_ok signoff) as (_ & _ & _ & Vs); [by apply Hn, list_elem_of_In|].
  destruct (dx_signature k [1] Hk) as (Hl & Hb & Hv).
  assert (validateID "signature key_id" (id_KeyID (dx_external k)) = Ok tt) as Hid
    by (destruct Hk' as [->| ->]; vm_compute; reflexivity).
  apply bind_Ok. exists [1]. split; [unfold decisionArtifactBytes; by rewrite Vr, Er|].
  apply bind_Ok. exists (dx_signoff k). split; [unfold decisionArtifactBytes; by rewrite Vs, Es|].
  apply bind_Ok. eexists. split.
  { apply UnmarshalCanonical_Ok. split; [|split; [|reflexivity]];
      [|apply DetachedSignature_rep]; by apply signature_record_valid. }
  apply bind_Ok. exists (ex_key k). split; [apply dx_identity_key|]. apply within_tt, VerifyExact_Ok.
  split; [discriminate|]. split; [apply length_be_bytes|]. split; [exact Hid|].
  exists (default [] (Sign (dx_priv k) [1])). exact (conj Hl (conj Hb (conj Hv eq_refl))).
Qed.

Lemma dx_external_lookup i x : default [] (pd_ExternalAudits dx_decision) !! i = Some x →
  x = {| ea_Auditor := dx_external 6; ea_Report := dx_located "r6"; ea_Signoff := dx_located "s6" |} ∨
  x = {| ea_Auditor := dx_external 7; ea_Report := dx_located "r7"; ea_Signoff := dx_located "s7" |}.
Proof.
  destruct i as [|[|i]]; intros Hi; [left|right|done]; symmetry; exact (Some_inj _ _ Hi).
Qed.

Lemma dx_externals_verify : verifyDecisionExternalAudits dx_tree dx_decision = Ok tt.
Proof.
  unfold verifyDecisionExternalAudits, each. apply each_from_Ok. intros i x [->| ->]%dx_external_lookup;
    cbn beta; cbn [ea_Auditor ea_Report ea_Signoff].
  - apply (dx_external_verifies 6 "r6" "s6"); [do 4 right; left|by left|dx_in|dx_in|reflexivity|reflexivity].
  - apply (dx_external_verifies 7 "r7" "s7"); [do 5 right; left|by right|dx_in|dx_in|reflexivity|reflexivity].
Qed.

(** The three verifications by replay are taken to pass. *)
Definition dx_passes (d : CeremonyDefinition) (p : ProductionDecision) : checked := Ok tt.

Lemma dx_file ref : ref ∈ dx_located <$> dx_refs →
  artifactRefForFile dx_tree (ar_Name (la_Artifact ref)) = Ok (la_Artifact ref).
Proof.
  intros (name & -> & Hname%dx_refs_names)%list_elem_of_fmap.
  pose proof dx_names_ok as Hn. rewrite forallb_forall in Hn.
  destruct (dx_located_ok name) as (_ & _ & Ha & _); [by apply Hn, list_elem_of_In|exact Ha].
Qed.

Lemma dx_evidence : ∃ e, VerifyProductionDecisionEvidence dx_tree dx_passes dx_passes dx_passes ex_definition dx_bytes = Ok e ∧
  vd_Decision e = dx_decision.
Proof.
  exact (VerifyProductionDecisionEvidence_intro dx_tree dx_passes dx_passes dx_passes ex_definition dx_bytes
    dx_decision (dx_located <$> dx_refs) ex_definition_valid dx_bytes_read dx_bound dx_all_refs (dx_coherent dx_refs)
    dx_file eq_refl eq_refl eq_refl dx_externals_verify).
Qed.

(** ** The theorems at this decision *)

Lemma signed_record_round_trip_witness : ∃ rb sb,
  SignRecord Identity_codec Identity_Validate (dx_external 6) (str "k") (dx_priv 1) = Ok (rb, sb) ∧
  VerifySignedRecord Identity_codec Identity_Validate rb sb (str "k") (public_of_private (dx_priv 1)) = Ok (dx_external 6).
Proof.
  destruct (signed_record_round_trip Identity_codec Identity_Validate (dx_external 6) (str "k") (dx_seed 1) (dx_priv 1))
    as (rb & sb & Hs & Hv & _).
  - apply length_replicate.
  - apply dx_key. left.
  - apply dx_identity_valid. by left.
  - apply dx_identity_rep. by left.
  - vm_compute. reflexivity.
  - exact (ex_intro _ rb (ex_intro _ sb (conj Hs Hv))).
Defined.

Lemma decision_states_gates_witness : ProductionDecision_Validate dx_decision = Ok tt ∧
  pg_Gate <$> default [] (pd_Gates dx_decision) = requiredProductionGates.
Proof.
  split; [exact dx_decision_valid|]. exact (proj1 (decision_states_gates dx_decision dx_decision_valid)).
Defined.

(** A beacon and a decision: what their constructors make of them. *)
Lemma records_content_addressed_witness :
  NewBeaconRecord ex_beacon = Ok ex_beacon ∧ NewProductionDecision dx_decision = Ok dx_decision.
Proof.
  destruct records_content_addressed as (_ & _ & _ & _ & _ & (_ & Hb & _) & _ & _ & _ & _ & _ & (_ & Hd & _)).
  exact (conj (Hb ex_beacon ex_beacon_valid) (Hd dx_decision dx_decision_valid)).
Defined.

(** The checklist and the signoff of the second external auditor are two of the artifacts. *)
Lemma decision_evidence_pinned_witness :
  (∃ data, dx_tree (ar_Name (la_Artifact (pd_FormalChecklist dx_decision))) = Some data ∧
     NewDigest data = ar_Digest (la_Artifact (pd_FormalChecklist dx_decision))) ∧
  ∃ report publicKey sig, dx_tree (str "r7") = Some report ∧ Verify publicKey report sig = true ∧
    dx_tree (str "s7") = Some (marshal (enc DetachedSignature_codec
      (signature_record report (id_KeyID (dx_external 7)) publicKey sig))).
Proof.
  destruct dx_evidence as (e & He & Hd).
  destruct (decision_evidence_pinned dx_tree dx_passes dx_passes dx_passes ex_definition dx_bytes e He) as (_ & Ha & Hx).
  rewrite Hd in Ha, Hx. split; [exact (Ha _ (names_checklist dx_decision))|].
  destruct (Hx {| ea_Auditor := dx_external 7; ea_Report := dx_located "r7"; ea_Signoff := dx_located "s7" |}
    (list_elem_of_lookup_2 (default [] (pd_ExternalAudits dx_decision)) 1 _ eq_refl)) as (report & publicKey & sig & Hr & _ & _ & _ & Hv & Hs).
  exact (ex_intro _ report (ex_intro _ publicKey (ex_intro _ sig (conj Hr (conj Hv Hs))))).
Defined.

(** *** The four signers *)

Definition dx_signers : list (list Z * list Z * list Z) :=
  [ (DecisionSignerRelease, str "release", dx_priv 2); (DecisionSignerAuditor, str "auditor-2", dx_priv 4);
    (DecisionSignerCoordinator, str "coordinator", dx_priv 1); (DecisionSignerAuditor, str "auditor-1", dx_priv 3) ].

Lemma dx_holds e role name k : vd_Decision e = dx_decision → k ∈ [1; 2; 3; 4; 6; 7] →
  decisionSignerIdentity ex_definition dx_decision role (str name) = Ok (ex_identity name k) →
  validateID "signature key_id" (id_KeyID (ex_identity name k)) = Ok tt →
  validateID "decision signer_id" (str name) = Ok tt →
  holds_key ex_definition e role (str name) (dx_priv k).
Proof.
  intros He Hk Hi Hkid Hid. exists (ex_identity name k), (dx_seed k). rewrite He.
  split; [exact Hi|]. split; [apply length_replicate|]. split; [by apply dx_key|].
  split; [rewrite dx_private by exact Hk; apply dx_identity_key|]. by split.
Qed.

Lemma dx_signer role name k : validateProductionDecisionBinding ex_definition dx_decision = Ok tt →
  (role = DecisionSignerCoordinator ∧ name = "coordinator" ∧ k = 1) ∨
  (role = DecisionSignerRelease ∧ name = "release" ∧ k = 2) ∨
  (role = DecisionSignerAuditor ∧ name = "auditor-1" ∧ k = 3) ∨
  (role = DecisionSignerAuditor ∧ name = "auditor-2" ∧ k = 4) →
  decisionSignerIdentity ex_definition dx_decision role (str name) = Ok (ex_identity name k).
Proof.
  unfold decisionSignerIdentity. intros -> [(-> & -> & ->)|[(-> & -> & ->)|[(-> & -> & ->)|(-> & -> & ->)]]]; reflexivity.
Qed.

Lemma rotate_signers (r b c a : list Z) : [r; b; c; a] ≡ₚ [c; a; b; r].
Proof.
  etrans; [apply Permutation_cons_append|]. exact (Permutation_app_tail [r] (Permutation_cons_append [c; a] b)).
Qed.

Lemma signed_decision_accepted_witness : ∃ signatureBytes v,
  Forall2 (λ '(role, id, priv) raw, SignProductionDecision ex_definition dx_bytes role id priv = Ok raw)
    dx_signers signatureBytes ∧
  VerifyProductionDecision dx_tree dx_passes dx_passes dx_passes ex_definition dx_bytes signatureBytes = Ok v ∧
  vd_Decision v = dx_decision.
Proof.
  destruct dx_evidence as (e & He & Hd). rewrite <- Hd.
  refine (signed_decision_accepted dx_tree dx_passes dx_passes dx_passes ex_definition dx_bytes e _ dx_signers He _ _ _ _).
  - rewrite Hd. reflexivity.
  - rewrite Hd. reflexivity.
  - apply rotate_signers.
  - pose proof dx_bound as Hb. unfold dx_signers.
    repeat (apply Forall_cons; split; [apply dx_holds; [exact Hd|apply (bool_decide_eq_true_1 _); vm_compute; reflexivity|
      apply dx_signer; [exact Hb|tauto]|vm_compute; reflexivity|vm_compute; reflexivity]|]); apply Forall_nil; exact I.
Defined.

(** *** The draft it was prepared from *)

Definition dx_draft : ProductionDecisionDraft := draft_of dx_decision.

Lemma dx_draft_release : SignedReleaseEvidenceDraft_release (dd_Release dx_draft) = Ok (dx_release dx_release_id).
Proof.
  unfold SignedReleaseEvidenceDraft_release, NewSignedReleaseEvidence. cbv zeta.
  apply bind_Ok. exists dx_release_id. split.
  - unfold computeSignedReleaseID. cbv zeta. apply bind_Ok. exists tt. split; [apply dx_candidate_hash|reflexivity].
  - apply bind_Ok. exists tt. split; [exact dx_release_valid|reflexivity].
Qed.

Lemma dx_draft_decision : ProductionDecisionDraft_decision dx_draft = Ok dx_decision.
Proof.
  unfold ProductionDecisionDraft_decision. apply bind_Ok. exists tt. split; [reflexivity|].
  apply bind_Ok. exists (dx_release dx_release_id). split; [apply within_Ok, dx_draft_release|].
  unfold NewProductionDecision. cbv zeta. apply bind_Ok. exists dx_decision_id. split; [reflexivity|].
  apply bind_Ok. exists tt. split; [exact dx_decision_valid|reflexivity].
Qed.

Lemma dx_prepared : PrepareProductionDecision ex_definition (marshal (enc ProductionDecisionDraft_codec dx_draft)) =
  Ok (dx_decision, dx_bytes).
Proof.
  unfold PrepareProductionDecision. apply bind_Ok. exists tt. split; [exact ex_definition_valid|].
  apply bind_Ok. exists dx_draft. split.
  { apply within_Ok, UnmarshalCanonical_Ok. split; [|split; [exact (draft_rep _ dx_decision_rep)|reflexivity]].
    unfold ProductionDecisionDraft_Validate. apply bind_Ok. exists dx_decision. split; [exact dx_draft_decision|reflexivity]. }
  apply bind_Ok. exists dx_decision. split; [exact dx_draft_decision|].
  apply bind_Ok. exists tt. split; [exact dx_bound|].
  apply bind_Ok. exists dx_bytes. split; [|reflexivity].
  unfold MarshalCanonical. apply bind_Ok. exists tt. split; [exact dx_decision_valid|reflexivity].
Qed.

Lemma prepared_decision_signable_witness :
  draft_of dx_decision = dx_draft ∧
  UnmarshalCanonical ProductionDecision_codec ProductionDecision_Validate dx_bytes = Ok dx_decision.
Proof.
  split; [reflexivity|].
  exact (proj1 (proj2 (prepared_decision_signable ex_definition)) _ dx_decision dx_bytes dx_prepared).
Defined.

(** * A concrete ceremony file

    The smallest Phase 2 file: no commitment, empty vectors, one challenge byte.  Its
    300 bytes pass the preflight scan. *)

Definition ex_g1 : list Z := 0xc0 :: replicate 47 0.
Definition ex_g2 : list Z := 0xc0 :: replicate 95 0.

Definition ex_empty_shape : Phase2Shape :=
  {| p2_Commitments := 0; p2_PKK := 0; p2_Z := 0; p2_SigmaCKK := Some []; p2_ChallengeLength := 1 |}.

Definition ex_phase2_file : list Z :=
  [0; 0] ++ ex_g1 ++ [0; 0; 0; 0] ++ [0; 0; 0; 0] ++ ex_g2 ++ ex_g1 ++ ex_g2 ++ [1] ++ [7].

Lemma ex_phase2_bytes : Forall is_byte ex_phase2_file.
Proof. apply (bool_decide_unpack _). vm_compute. exact I. Qed.

Lemma ex_empty_typed : phase2_typed ex_empty_shape.
Proof. split; unfold word32; cbn; first [lia|by constructor]. Qed.

Lemma ex_phase2_matches : matches (phase2_layout ex_empty_shape) ex_phase2_file.
Proof.
  exists [0; 0]; eexists; split; [reflexivity|]; split; [reflexivity|].
  exists ex_g1; eexists; split; [reflexivity|]; split; [split; reflexivity|].
  exists [0; 0; 0; 0]; eexists; split; [reflexivity|]; split; [reflexivity|].
  exists [0; 0; 0; 0]; eexists; split; [reflexivity|]; split; [reflexivity|].
  exists ex_g2; eexists; split; [reflexivity|]; split; [split; reflexivity|].
  exists ex_g1; eexists; split; [reflexivity|]; split; [split; reflexivity|].
  exists ex_g2; eexists; split; [reflexivity|]; split; [split; reflexivity|].
  exists [1]; eexists; split; [reflexivity|]; split; [reflexivity|].
  exists [7]; eexists; split; [reflexivity|]; split; [reflexivity|]. reflexivity.
Qed.

Lemma Preflight_exact_witness : Forall is_byte ex_phase2_file ∧
  PreflightPhase2 ex_phase2_file ex_empty_shape =
    Ok (artifact_digest ex_phase2_file (tail_bytes 1 ex_phase2_file)).
Proof.
  split; [exact ex_phase2_bytes|].
  destruct (Preflight_exact ex_phase2_file ex_phase2_bytes) as (_ & _ & H2).
  apply (proj2 (H2 ex_empty_shape _ ex_empty_typed)).
  split; [split; [discriminate|reflexivity]|].
  split; [discriminate|]. split; [exact ex_phase2_matches|reflexivity].
Defined.
